(* ===== verification/_CoqProject ===== *)
-Q . S2P
Prelude.v
Bits.v
Insn.v
Decode.v
DecodeSpec.v
DecodeWf.v
Mem.v
MemSpec.v
State.v
Trap.v
Csr.v
Fp.v
Alu.v
AluSpec.v
Exec.v
Samples.v
Isa.v
IsaValues.v
IsaRefine.v
DecodeExec.v
ExecWf.v
TrapSpec.v
CsrSpec.v
Equiv.v
Frame.v
Constopt.v
Fusion.v
Block.v
BlockSpec.v
ConstoptSpec.v
FusionSpec.v
Pipeline.v
Links.v
Kept.v
Late.v
Run.v
RunShape.v
RunSpec.v
RunSim.v
RunRefine.v
X64.v
Jit.v
JitAlloc.v
JitInsn.v
JitMul.v
JitGuest.v
JitSpec.v
Map.v
MapSpec.v
MapRefine.v
Debug.v
DebugSpec.v
HashSet.v
Path.v
PathSpec.v
Ilist.v
Cache.v
CacheSpec.v
CacheRefine.v
Mmu.v
MmuSpec.v
MmuRefine.v
Mpool.v
MpoolSpec.v
Devices.v
DevicesSpec.v
Vblk.v
VblkSpec.v
Elf.v
ElfSpec.v
Syscalls.v
SyscallsSpec.v
Reset.v
ResetSpec.v
