(* ===== verification/Prelude.v ===== *)
(** * rv32emu: a verification of the interpreter

    rv32emu is a RISC-V (RV32) instruction-set emulator.  Guest code is decoded
    into an intermediate representation, basic block by basic block; a block is
    optimised by constant propagation, fused into macro-operations, stored in a
    map keyed by its address and run by one handler per instruction.  This
    library models that path for the default configuration (configs/defconfig:
    RV32I with M, A, F, C, Zicsr, Zifencei, Zba, Zbb, Zbc, Zbs, block chaining
    and macro-operation fusion; without SYSTEM and RV32E), the run loop, the
    first-tier x86-64 compiler of JIT builds, the debugger support (GDBSTUB), the
    containers and allocators, and of SYSTEM builds address translation, the
    devices and their interrupts, and proves the parts correct.

    ** Conventions

    A C integer is a [Z] kept in the range of its type, with every conversion
    written out ([u32], [i32], [add32], ...).  State is passed explicitly.  A
    definition returns [None] where the C code is undefined (an access outside
    an allocation, a shift by the word size, a null pointer) or fails an
    assertion; error returns of the code are ordinary values.  Loops without a
    structural argument take fuel, and each one has a theorem that says how much
    fuel is enough.  Memory allocation is taken to succeed, except where it is an
    argument (the block cache, the memory pool).

    Code outside the repository's own sources is a type class: [SoftFloat] (Fp;
    Berkeley SoftFloat is a submodule), [HostClock] (Csr; the host's clock) and
    [Syscall] (Trap; the host-facing system-call layer).  Laws that a theorem
    needs of them are classes as well ([EnvBlind], [SyscallWf]); Samples gives
    concrete instances.

    ** The files and the parts of the program

    - Prelude, Bits: machine integers, tactics, and a decision procedure for
      equalities of mask-and-shift expressions.
    - Insn, Decode, DecodeSpec, DecodeWf: decode.h and decode.c.  The opcode
      enumeration, the instruction record and every decoding function.  Shown:
      immediates agree with the bit layouts of the ISA manual, decoding inverts
      assembling, every decoded instruction is well-formed, and the encodings on
      which the decoder fails an assertion.
    - Mem, MemSpec: guest RAM (io.c, io.h, the fast path of riscv_private.h).
      Loads after stores, checked bulk operations.
    - State: struct riscv_internal and the accessors of riscv.c.
    - Trap, TrapSpec: the trap path of emulate.c.  The default handler makes
      misaligned accesses transparent; mret undoes trap entry.
    - Csr, Fp, CsrSpec: csr_get_ptr and the CSR instructions, softfp.h.  Sequences
      of CSR instructions refine a CSR file with the numbers of the manual.
    - Alu, AluSpec: the computations of the instruction bodies against reference
      definitions over the integers, over bits and over polynomials.
    - Exec, ExecWf: every RVOP of rv32_template.c, the RVOP macro and the fused
      handlers of emulate.c; all of them preserve [wf], the type invariant of the
      processor state.
    - Isa, IsaValues, IsaRefine, DecodeExec: an abstract RV32 hart after the ISA
      manual, and the refinement: decoding a word and running its handler is one
      step of the abstract hart.  Samples has concrete states.
    - Equiv, Frame: states equal up to statistics ([≡]), preserved by every
      handler; what a handler leaves unchanged.
    - Constopt, ConstoptSpec: rv32_constopt.c and optimize_constant, with the
      partial operators of C.  The optimised block reaches an equivalent state; and
      which folds are undefined.
    - Fusion, FusionSpec: match_pattern.  The fused block reaches an equivalent
      state, for blocks of at most 256 instructions.
    - Block, BlockSpec: block_translate, and the open-addressing block map of
      emulate.c and riscv.c as a finite map.
    - Pipeline: the composition of translation, constant propagation and fusion.
    - Links, Kept, Late: what the run loop needs of blocks that are linked to each
      other, of state that blocks keep, and of optimisation that happens late.
    - Run, RunShape, RunSpec, RunSim, RunRefine: rv_step and
      block_find_or_translate as a transition system, with block chaining and the
      branch history tables.  The loop follows the reference run of the guest
      block by block and makes progress until its budget is spent or it halts.
    - X64, Jit: the x86-64 instructions that jit.c emits, as a datatype with their
      semantics, and the code generator itself: the emit functions, the register
      allocator, every GEN body of rv32_jit.c, the fused bodies and translate.
      The generator is a state monad over the emitted code, the register map,
      liveness and the candidate queue.
    - JitAlloc, JitInsn, JitMul, JitGuest, JitSpec: the allocator keeps the guest
      registers in the host registers it says they are in; the code of each
      instruction has the effect of its handler; and the code of a block runs to
      the state the interpreter reaches (up to statistics) and leaves through the
      exit that fits.  [JitGuest.jit_ok] lists what the code relies on (accesses in
      RAM and aligned, nonnegative operands of signed division, ...); the examples
      at the end of JitSpec show that the generated code differs without it.
    - Map, MapSpec, MapRefine: the red-black tree of map.c as a finite map, its
      depth bound, iteration in key order.
    - Debug, DebugSpec: breakpoint.c, rv_step_debug and the callbacks of
      gdbstub.c.  A single step is a step of the abstract hart; continuing stops
      exactly at the first breakpoint, halt or interrupt (a breakpoint at address 0
      is missed, and excluded).
    - HashSet: set_t of utils.c as a finite set.
    - Path, PathSpec: sanitize_path of utils.c computes the lexical normal form
      of a path within its buffer.
    - Ilist: the doubly linked list of utils.h and the hash chains of cache.c, at
      the level of their pointers, with the sequences of nodes they hold.
    - Cache, CacheSpec, CacheRefine: cache.c.  The block cache refines a bounded
      map ordered by age with a bounded history, with the hash function of either
      kind of build; which compiled blocks SFENCE.VMA marks.
    - Mmu, MmuSpec, MmuRefine: system.c, the part for builds with SYSTEM and
      ELF_LOADER.  The page-table walk is the Sv32 walk of the privileged
      manual.  A load or store through the TLBs is translated as by the walk and
      the permissions of the manual, or faults and is retried, where the emulator's
      own permission check agrees with them; fetches, and the theorems on sequences,
      are stated with that check ([MmuSpec.checked_access]).  A store is seen by the next load; and the TLBs stay
      coherent as long as the guest fences its page-table updates and does not
      change its mode under a live entry.  The guest's trap handler is a parameter.
      The examples at the end of MmuRefine show where the permission check and the
      fences differ from the manual.
    - Mpool, MpoolSpec: mpool.c over the bytes of host memory.  The chunks handed
      out are private memory of their owners.
    - Devices, DevicesSpec: plic.c, uart.c and rtc.c, the interrupt lines of
      system.c, the MMIO macros of system.h and rv_check_interrupt of emulate.c.
      Interrupts are claimed once, the clock can be set, and which interrupt is
      taken.
    - Vblk, VblkSpec: virtio-blk.c.  Requests transfer what they ask for, the disk
      returns what was written to it, and a notification serves the whole queue.
    - Elf, ElfSpec: elf.c.  Segments are loaded as the program headers say, and the
      symbol map names the first symbol of each address.
    - Syscalls, SyscallsSpec: syscall.c and rv_remap_stdstream of riscv.c, over a
      class of host streams whose laws are those of the C standard.  Transfers in
      blocks are single transfers, descriptors are handed out lowest first, and no
      call touches the standard streams.  The calls satisfy what the interpreter
      asks of its parameter Syscall, for files in a given state.
    - Reset, ResetSpec: rv_reset of riscv.c.  The guest finds its arguments.

    ** Bounds and fuel

    [block_translate]: the number of instructions that fit between the program
    counter and the end of RAM (BlockSpec).  Probing of the block map: its
    capacity.  [match_pattern]: the length of the block.  [rv_cont]: the number
    of steps to the stop.  [sanitize_path]: one more than the length of the path.
    A search in a hash chain or a list of the cache: the number of its entries.
    The page-table walk has its two levels.  The request loop of the block device:
    2^16, the range of its indices.  Searching a free descriptor: one more than the
    number of open ones.  The blocks of a read or write: the count divided by their
    size.

    ** Not modelled

    Of the just-in-time compilers: the bytes of the host instructions (a jump
    is to a position in the list of instructions), the size of the code buffer,
    its flush (should_flush) and the limits on jumps and blocks, the linking of
    chained blocks (a jump to another block ends the code), the Arm64 branches, and
    the second tier (t2c.c, t2c_template.c), which calls LLVM.  Of SYSTEM builds: the
    accesses that go to devices from mmu_read and mmu_write and the signal check in
    mmu_translate (SYSTEM_MMIO), opening the disk image, the interrupt lines of
    virtio disks, and the decoding of blocks through mmu_ifetch in the run loop.
    syscall_sdl.c calls the SDL library; main.c, log.c and prof_callstack.c do host
    input and output, and so does most of riscv.c (set-up, profiling).  The run loop
    takes the system calls as a function of the processor state; that the state of
    the files advances from call to call is part of SyscallsSpec only.
    Demand paging of guest RAM (io.c) relies on host signals. *)

From stdpp Require Import base list option numbers gmap.
From Stdlib Require Import ZArith Lia Bool Btauto.

#[global] Open Scope Z_scope.

(** * Machine integers

    Every C integer is a [Z] kept in the range of its type: [uN x] is the
    conversion to [uintN_t] and [iN x] the (modular) conversion to
    [intN_t]. *)

Definition u8 (x : Z) : Z := x mod 2 ^ 8.
Definition u16 (x : Z) : Z := x mod 2 ^ 16.
Definition u32 (x : Z) : Z := x mod 2 ^ 32.
Definition u64 (x : Z) : Z := x mod 2 ^ 64.

(** Two's-complement reading of the low [n] bits of [x]. *)
Definition sx (n x : Z) : Z := (x + 2 ^ (n - 1)) mod 2 ^ n - 2 ^ (n - 1).

Definition i8 (x : Z) : Z := sx 8 x.
Definition i16 (x : Z) : Z := sx 16 x.
Definition i32 (x : Z) : Z := sx 32 x.
Definition i64 (x : Z) : Z := sx 64 x.

(** [true] is 1, [false] is 0, as for C comparison results. *)
Definition b2z (b : bool) : Z := if b then 1 else 0.

(** A C integer used as a condition. *)
Definition truthy (x : Z) : bool := negb (x =? 0).

Declare Scope word_scope.
Delimit Scope word_scope with word.
Infix ".&" := Z.land (at level 40, left associativity) : word_scope.
Infix ".^" := Z.lxor (at level 45, left associativity) : word_scope.
Infix ".|" := Z.lor (at level 50, left associativity) : word_scope.
#[global] Open Scope word_scope.

(** [uint32_t] arithmetic: the result is reduced modulo 2^32. *)
Definition add32 (a b : Z) : Z := u32 (a + b).
Definition sub32 (a b : Z) : Z := u32 (a - b).
Definition shl32 (a n : Z) : Z := u32 (a ≪ n).
Definition not32 (a : Z) : Z := u32 (Z.lnot a).

(** The value range of the unsigned types, as a decidable predicate. *)
Definition is_u32 (x : Z) : Prop := 0 <= x < 2 ^ 32.
Definition is_i32 (x : Z) : Prop := - 2 ^ 31 <= x < 2 ^ 31.

(** Bits [lo .. lo+n-1] of [x], the field notation of the manuals. *)
Definition field (x lo n : Z) : Z := (x ≫ lo) mod 2 ^ n.

(** * Fallible computations

    [None] stands for behaviour the C standard leaves undefined (and for a
    failed [assert]). *)

Notation "'let?' x := e 'in' k" :=
  (match e with Some x => k | None => None end)
  (at level 10, x pattern, e at level 100, k at level 200).

(** * Hint databases *)

Create HintDb word discriminated.
Create HintDb rv discriminated.
Create Rewrite HintDb word.

(** * Lemmas on machine integers *)

Lemma u32_range (x : Z) : is_u32 (u32 x).
Proof. unfold is_u32, u32. apply Z.mod_pos_bound. lia. Qed.

Lemma u32_id (x : Z) : is_u32 x -> u32 x = x.
Proof. apply Z.mod_small. Qed.

Lemma u32_u32 (x : Z) : u32 (u32 x) = u32 x.
Proof. apply u32_id, u32_range. Qed.

Lemma i32_range (x : Z) : is_i32 (i32 x).
Proof.
  unfold is_i32, i32, sx. change (32 - 1) with 31.
  pose proof (Z.mod_pos_bound (x + 2 ^ 31) (2 ^ 32)). lia.
Qed.

Lemma i32_id (x : Z) : is_i32 x -> i32 x = x.
Proof.
  unfold is_i32, i32, sx. intros. change (32 - 1) with 31.
  rewrite Z.mod_small; lia.
Qed.

Lemma u32_i32 (x : Z) : u32 (i32 x) = u32 x.
Proof.
  unfold u32, i32, sx. rewrite Zminus_mod, Z.mod_mod by lia.
  rewrite <- Zminus_mod. f_equal. lia.
Qed.

Lemma i32_u32 (x : Z) : i32 (u32 x) = i32 x.
Proof.
  unfold u32, i32, sx. rewrite Zplus_mod, Z.mod_mod by lia.
  rewrite <- Zplus_mod. reflexivity.
Qed.

Lemma u32_add_l (a b : Z) : u32 (u32 a + b) = u32 (a + b).
Proof. unfold u32. apply Zplus_mod_idemp_l. Qed.

Lemma u32_add_r (a b : Z) : u32 (a + u32 b) = u32 (a + b).
Proof. unfold u32. apply Zplus_mod_idemp_r. Qed.

Lemma u32_add_i32_l (a b : Z) : u32 (i32 a + b) = u32 (a + b).
Proof. by rewrite <- u32_add_l, u32_i32, u32_add_l. Qed.

Lemma u32_add_i32_r (a b : Z) : u32 (a + i32 b) = u32 (a + b).
Proof. by rewrite <- u32_add_r, u32_i32, u32_add_r. Qed.

#[export] Hint Resolve u32_range i32_range : word.
#[export] Hint Rewrite u32_u32 u32_i32 i32_u32 u32_add_l u32_add_r
  u32_add_i32_l u32_add_i32_r : word.

(** * Bits of the conversions *)

Lemma testbit_mod (x n i : Z) :
  0 <= n -> 0 <= i -> Z.testbit (x mod 2 ^ n) i = (i <? n) && Z.testbit x i.
Proof.
  intros. destruct (Z.ltb_spec i n).
  - by rewrite Z.mod_pow2_bits_low.
  - rewrite Z.mod_pow2_bits_high by lia. done.
Qed.

Lemma sx_testbit_low (n x i : Z) :
  0 < n -> 0 <= i < n -> Z.testbit (sx n x) i = Z.testbit x i.
Proof.
  intros. unfold sx.
  rewrite <- (Z.mod_pow2_bits_low (_ - _) n) by lia.
  rewrite Zminus_mod, Z.mod_mod by lia. rewrite <- Zminus_mod.
  replace (x + 2 ^ (n - 1) - 2 ^ (n - 1)) with x by lia.
  by rewrite Z.mod_pow2_bits_low by lia.
Qed.

Lemma sx_range (n x : Z) : 0 < n -> - 2 ^ (n - 1) <= sx n x < 2 ^ (n - 1).
Proof.
  intros. unfold sx.
  pose proof (Z.mod_pos_bound (x + 2 ^ (n - 1)) (2 ^ n)).
  assert (2 ^ n = 2 * 2 ^ (n - 1)) by (rewrite <- Z.pow_succ_r by lia; f_equal; lia).
  pose proof (Z.pow_pos_nonneg 2 (n - 1)). lia.
Qed.

Lemma sx_testbit_high (n x i : Z) :
  0 < n -> n - 1 <= i -> Z.testbit (sx n x) i = Z.testbit x (n - 1).
Proof.
  intros Hn Hi. rewrite <- (sx_testbit_low n x (n - 1)) by lia.
  pose proof (sx_range n x Hn) as Hr. set (y := sx n x) in *.
  assert (Hy : 0 <= y \/ y < 0) by lia.
  destruct Hy as [Hy|Hy].
  - assert (Hd : forall k, n - 1 <= k -> Z.testbit y k = false).
    { intros k Hk. rewrite Z.testbit_false by lia.
      rewrite Z.div_small; [done|]. split; [lia|].
      apply Z.lt_le_trans with (2 ^ (n - 1)); [lia|]. apply Z.pow_le_mono_r; lia. }
    by rewrite !Hd by lia.
  - assert (Hd : forall k, n - 1 <= k -> Z.testbit y k = true).
    { intros k Hk. rewrite Z.testbit_true by lia.
      replace (y / 2 ^ k) with (-1); [done|].
      assert (2 ^ (n - 1) <= 2 ^ k) by (apply Z.pow_le_mono_r; lia).
      apply Z.div_unique with (y + 2 ^ k); lia. }
    by rewrite !Hd by lia.
Qed.

Lemma testbit_sx (n x i : Z) :
  0 < n -> 0 <= i -> Z.testbit (sx n x) i = Z.testbit x (Z.min i (n - 1)).
Proof.
  intros. destruct (Z.le_gt_cases (n - 1) i).
  - rewrite sx_testbit_high, Z.min_r by lia. done.
  - rewrite sx_testbit_low, Z.min_l by lia. done.
Qed.

Lemma u32_testbit_high (x i : Z) : is_u32 x -> 32 <= i -> Z.testbit x i = false.
Proof.
  intros Hx Hi. rewrite <- (u32_id x Hx). unfold u32.
  by rewrite Z.mod_pow2_bits_high by lia.
Qed.

Lemma field_range (x lo n : Z) : 0 <= n -> 0 <= field x lo n < 2 ^ n.
Proof. intros. unfold field. apply Z.mod_pos_bound. by apply Z.pow_pos_nonneg. Qed.

Lemma u32_land_l (x y : Z) : is_u32 x -> is_u32 (x .& y).
Proof.
  intros Hx. rewrite <- (u32_id x Hx). unfold u32.
  replace (x mod 2 ^ 32 .& y) with ((x .& y) mod 2 ^ 32); [apply u32_range|].
  apply Z.bits_inj'. intros i Hi. rewrite Z.land_spec, !testbit_mod, Z.land_spec by lia.
  by rewrite andb_assoc.
Qed.

Lemma u32_lor (x y : Z) : is_u32 x -> is_u32 y -> is_u32 (x .| y).
Proof.
  intros Hx Hy. rewrite <- (u32_id x Hx), <- (u32_id y Hy). unfold u32.
  replace (x mod 2 ^ 32 .| y mod 2 ^ 32) with ((x .| y) mod 2 ^ 32); [apply u32_range|].
  apply Z.bits_inj'. intros i Hi. rewrite Z.lor_spec, !testbit_mod, Z.lor_spec by lia.
  by rewrite andb_orb_distrib_r.
Qed.

Lemma u32_lxor (x y : Z) : is_u32 x -> is_u32 y -> is_u32 (x .^ y).
Proof.
  intros Hx Hy. rewrite <- (u32_id x Hx), <- (u32_id y Hy). unfold u32.
  replace (x mod 2 ^ 32 .^ y mod 2 ^ 32) with ((x .^ y) mod 2 ^ 32); [apply u32_range|].
  apply Z.bits_inj'. intros i Hi. rewrite Z.lxor_spec, !testbit_mod, Z.lxor_spec by lia.
  destruct (i <? 32); simpl; done.
Qed.

Lemma u32_shiftr (x n : Z) : 0 <= n -> is_u32 x -> is_u32 (x ≫ n).
Proof.
  unfold is_u32. intros Hn Hx. rewrite Z.shiftr_div_pow2 by done.
  pose proof (Z.pow_pos_nonneg 2 n). split; [apply Z.div_pos; lia|].
  apply Z.le_lt_trans with x; [|lia]. apply Z.div_le_upper_bound; nia.
Qed.

#[export] Hint Resolve u32_land_l u32_lor u32_lxor u32_shiftr : word.

(** * Ranges and truncation *)

Lemma sx_id (n x : Z) : 0 < n -> - 2 ^ (n - 1) <= x < 2 ^ (n - 1) -> sx n x = x.
Proof.
  intros. unfold sx. assert (2 ^ n = 2 * 2 ^ (n - 1))
    by (rewrite <- Z.pow_succ_r by lia; f_equal; lia).
  rewrite Z.mod_small by lia. lia.
Qed.

Lemma mod_pow2_mod (x n m : Z) : 0 <= n <= m -> (x mod 2 ^ m) mod 2 ^ n = x mod 2 ^ n.
Proof.
  intros. apply Z.bits_inj'. intros i Hi. rewrite !testbit_mod by lia.
  destruct (Z.ltb_spec i n), (Z.ltb_spec i m); try lia; done.
Qed.

Lemma sx_u32 (n x : Z) : 0 < n <= 32 -> sx n (u32 x) = sx n x.
Proof.
  intros. unfold sx, u32. f_equal.
  by rewrite <- (Zplus_mod_idemp_l (x mod _)), mod_pow2_mod, Zplus_mod_idemp_l by lia.
Qed.

Lemma field_u32 (x lo n : Z) :
  0 <= lo -> 0 <= n -> lo + n <= 32 -> field (u32 x) lo n = field x lo n.
Proof.
  intros. unfold field, u32. apply Z.bits_inj'. intros i Hi.
  rewrite !testbit_mod, !Z.shiftr_spec, testbit_mod by lia.
  destruct (Z.ltb_spec i n), (Z.ltb_spec (i + lo) 32); try lia; done.
Qed.

Lemma lor_range (a b n : Z) : 0 <= n -> 0 <= a < 2 ^ n -> 0 <= b < 2 ^ n -> 0 <= a .| b < 2 ^ n.
Proof.
  intros Hn Ha Hb. replace (a .| b) with ((a .| b) mod 2 ^ n).
  - apply Z.mod_pos_bound, Z.pow_pos_nonneg; lia.
  - apply Z.bits_inj'. intros i Hi. rewrite testbit_mod, !Z.lor_spec by lia.
    rewrite <- (Z.mod_small a (2 ^ n)), <- (Z.mod_small b (2 ^ n)), !testbit_mod by done.
    destruct (i <? n); done.
Qed.

Lemma shiftl_range (a n k m : Z) :
  0 <= k -> 0 <= m -> n = m + k -> 0 <= a < 2 ^ m -> 0 <= a ≪ k < 2 ^ n.
Proof.
  intros Hk Hm -> Ha. rewrite Z.shiftl_mul_pow2, Z.pow_add_r by lia.
  pose proof (Z.pow_pos_nonneg 2 k). nia.
Qed.

Lemma is_u32_u16 (x : Z) : is_u32 (u16 x).
Proof. unfold is_u32, u16. pose proof (Z.mod_pos_bound x (2 ^ 16)). lia. Qed.

(** Splits a five-bit operand into its 32 values. *)
Lemma five_bits (P : Z -> Prop) (n : Z) :
  0 <= n < 2 ^ 5 -> Forall P (seqZ 0 32) -> P n.
Proof. intros Hn HP. apply (proj1 (list.Forall_forall P _) HP), elem_of_seqZ. lia. Qed.
