(* ===== verification/Bits.v ===== *)
(** Bit-level equalities by computation.

    The decoder assembles immediates from masks and shifts.  [bexp] is the
    syntax of such expressions over 32-bit variables, [bit e i] the formula
    of bit [i] of an expression and [high e n] a formula valid for every bit
    at or above [n].  [bexp_eqb] decides that two expressions have the same
    bits, and [bexp_eqb_sound] lifts the answer to an equation on [Z].  The
    tactic [bits_eq] reifies a goal and runs the decision procedure. *)

From stdpp Require Import base list option numbers.
From Stdlib Require Import ZArith Lia Bool.
From S2P Require Import Prelude.
#[local] Open Scope Z_scope.

(** ** Boolean formulas over the bits of the variables *)

Inductive bf : Type :=
| FConst (b : bool)
| FAtom (v : nat) (i : Z)
| FAnd (f g : bf)
| FOr (f g : bf)
| FXor (f g : bf).

#[export] Instance bf_eq_dec : EqDecision bf.
Proof. solve_decision. Defined.

Fixpoint feval (r : nat -> Z -> bool) (f : bf) : bool :=
  match f with
  | FConst b => b
  | FAtom v i => r v i
  | FAnd f g => feval r f && feval r g
  | FOr f g => feval r f || feval r g
  | FXor f g => xorb (feval r f) (feval r g)
  end.

Definition fand (f g : bf) : bf :=
  match f, g with
  | FConst false, _ | _, FConst false => FConst false
  | FConst true, h | h, FConst true => h
  | _, _ => if decide (f = g) then f else FAnd f g
  end.

Definition f_or (f g : bf) : bf :=
  match f, g with
  | FConst true, _ | _, FConst true => FConst true
  | FConst false, h | h, FConst false => h
  | _, _ => if decide (f = g) then f else FOr f g
  end.

Definition fxor (f g : bf) : bf :=
  match f, g with
  | FConst false, h | h, FConst false => h
  | _, _ => if decide (f = g) then FConst false else FXor f g
  end.

Definition fif (c f g : bf) : bf :=
  if decide (f = g) then f
  else f_or (fand c f) (fand (fxor (FConst true) c) g).

Ltac solve_fop :=
  intros r f g; destruct f as [[]| | | |], g as [[]| | | |]; simpl;
  try case_decide; simplify_eq; simpl;
  rewrite ?andb_true_r, ?andb_false_r, ?orb_true_r, ?orb_false_r, ?xorb_false_r,
    ?andb_diag, ?orb_diag, ?xorb_nilpotent; done.

Lemma feval_fand : forall r f g, feval r (fand f g) = feval r f && feval r g.
Proof. solve_fop. Qed.

Lemma feval_f_or : forall r f g, feval r (f_or f g) = feval r f || feval r g.
Proof. solve_fop. Qed.

Lemma feval_fxor : forall r f g, feval r (fxor f g) = xorb (feval r f) (feval r g).
Proof. solve_fop. Qed.

Lemma feval_fif r c f g :
  feval r (fif c f g) = if feval r c then feval r f else feval r g.
Proof.
  unfold fif. case_decide; subst.
  - by destruct (feval r c).
  - rewrite feval_f_or, !feval_fand, feval_fxor. simpl.
    destruct (feval r c), (feval r f), (feval r g); done.
Qed.

(** ** Deciding equivalence of formulas by enumeration *)

Definition atom : Type := (nat * Z)%type.

Fixpoint atoms (f : bf) : list atom :=
  match f with
  | FConst _ => []
  | FAtom v i => [(v, i)]
  | FAnd f g | FOr f g | FXor f g => atoms f ++ atoms g
  end.

Definition assignment : Type := list (atom * bool).

Fixpoint assoc (s : assignment) (a : atom) : option bool :=
  match s with
  | [] => None
  | (a', b) :: s' => if decide (a' = a) then Some b else assoc s' a
  end.

Definition of_assignment (s : assignment) : nat -> Z -> bool :=
  fun v i => default false (assoc s (v, i)).

Fixpoint all_assign (l : list atom) (s : assignment) (f g : bf) : bool :=
  match l with
  | [] => Bool.eqb (feval (of_assignment s) f) (feval (of_assignment s) g)
  | a :: l' => all_assign l' ((a, true) :: s) f g && all_assign l' ((a, false) :: s) f g
  end.

Definition bf_equiv (f g : bf) : bool :=
  if decide (f = g) then true
  else all_assign (remove_dups (atoms f ++ atoms g)) [] f g.

Definition agrees (r : nat -> Z -> bool) (s : assignment) : Prop :=
  forall v i b, assoc s (v, i) = Some b -> r v i = b.

Lemma feval_agrees r s f :
  agrees r s -> (forall a, a ∈ atoms f -> is_Some (assoc s a)) ->
  feval (of_assignment s) f = feval r f.
Proof.
  intros Hr. induction f as [b|v i|f IHf g IHg|f IHf g IHg|f IHf g IHg]; simpl; intros Ha.
  - done.
  - destruct (Ha (v, i)) as [b Hb]; [by apply list_elem_of_singleton|].
    unfold of_assignment. rewrite Hb. simpl. symmetry. eauto.
  - rewrite IHf, IHg; [done| |]; intros; apply Ha, elem_of_app; auto.
  - rewrite IHf, IHg; [done| |]; intros; apply Ha, elem_of_app; auto.
  - rewrite IHf, IHg; [done| |]; intros; apply Ha, elem_of_app; auto.
Qed.

Lemma all_assign_sound r f g l s :
  all_assign l s f g = true -> agrees r s ->
  (forall a, a ∈ atoms f ++ atoms g -> a ∈ l \/ is_Some (assoc s a)) ->
  feval r f = feval r g.
Proof.
  revert s. induction l as [|[v i] l IH]; simpl; intros s Hall Hr Hcov.
  - assert (Hs : forall a, a ∈ atoms f ++ atoms g -> is_Some (assoc s a)).
    { intros a Ha. destruct (Hcov a Ha) as [Hn|]; [by apply elem_of_nil in Hn|done]. }
    apply Bool.eqb_prop in Hall.
    rewrite !(feval_agrees r s) in Hall; auto; intros; apply Hs, elem_of_app; auto.
  - apply andb_true_iff in Hall as [H1 H0].
    apply (IH (((v, i), r v i) :: s)).
    + by destruct (r v i).
    + intros v' i' b. simpl. case_decide; intros; simplify_eq; eauto.
    + intros a Ha. simpl. case_decide; [right; eauto|].
      destruct (Hcov a Ha) as [[?|?]%elem_of_cons|]; naive_solver.
Qed.

Lemma bf_equiv_sound r f g : bf_equiv f g = true -> feval r f = feval r g.
Proof.
  unfold bf_equiv. case_decide; [by subst|]. intros Hall.
  eapply all_assign_sound; [exact Hall| |].
  - intros v i b. done.
  - intros a Ha. left. by apply elem_of_remove_dups.
Qed.

(** ** Expressions *)

Inductive bexp : Type :=
| EVar (v : nat)
| EConst (z : Z)
| EAnd (e1 e2 : bexp)
| EOr (e1 e2 : bexp)
| EXor (e1 e2 : bexp)
| EShl (e : bexp) (k : Z)
| EShr (e : bexp) (k : Z)
| EMod (e : bexp) (n : Z)
| ESx (n : Z) (e : bexp)
| EIf (c : bexp) (k : Z) (e1 e2 : bexp).

Fixpoint denote (env : nat -> Z) (e : bexp) : Z :=
  match e with
  | EVar v => env v
  | EConst z => z
  | EAnd e1 e2 => denote env e1 .& denote env e2
  | EOr e1 e2 => denote env e1 .| denote env e2
  | EXor e1 e2 => denote env e1 .^ denote env e2
  | EShl e k => denote env e ≪ k
  | EShr e k => denote env e ≫ k
  | EMod e n => denote env e mod 2 ^ n
  | ESx n e => sx n (denote env e)
  | EIf c k e1 e2 => if Z.testbit (denote env c) k then denote env e1 else denote env e2
  end.

(** Shift amounts and widths are nonnegative literals. *)
Fixpoint bexp_wf (e : bexp) : bool :=
  match e with
  | EVar _ | EConst _ => true
  | EAnd e1 e2 | EOr e1 e2 | EXor e1 e2 => bexp_wf e1 && bexp_wf e2
  | EShl e k | EShr e k | EMod e k => (0 <=? k) && bexp_wf e
  | ESx n e => (0 <? n) && bexp_wf e
  | EIf c k e1 e2 => (0 <=? k) && bexp_wf c && bexp_wf e1 && bexp_wf e2
  end.

Fixpoint bit (e : bexp) (i : Z) : bf :=
  match e with
  | EVar v => if 32 <=? i then FConst false else FAtom v i
  | EConst z => FConst (Z.testbit z i)
  | EAnd e1 e2 => fand (bit e1 i) (bit e2 i)
  | EOr e1 e2 => f_or (bit e1 i) (bit e2 i)
  | EXor e1 e2 => fxor (bit e1 i) (bit e2 i)
  | EShl e k => if i <? k then FConst false else bit e (i - k)
  | EShr e k => bit e (i + k)
  | EMod e n => if i <? n then bit e i else FConst false
  | ESx n e => bit e (Z.min i (n - 1))
  | EIf c k e1 e2 => fif (bit c k) (bit e1 i) (bit e2 i)
  end.

Definition bind2 (op : bf -> bf -> bf) (a b : option bf) : option bf :=
  match a, b with Some f, Some g => Some (op f g) | _, _ => None end.

Fixpoint high (e : bexp) (n : Z) : option bf :=
  match e with
  | EVar v => if 32 <=? n then Some (FConst false) else None
  | EConst z =>
      if (0 <=? z) && (z <? 2 ^ n) then Some (FConst false)
      else if (z <? 0) && (- 2 ^ n <=? z) then Some (FConst true) else None
  | EAnd e1 e2 => bind2 fand (high e1 n) (high e2 n)
  | EOr e1 e2 => bind2 f_or (high e1 n) (high e2 n)
  | EXor e1 e2 => bind2 fxor (high e1 n) (high e2 n)
  | EShl e k => if k <=? n then high e (n - k) else None
  | EShr e k => high e (n + k)
  | EMod _ m => if m <=? n then Some (FConst false) else None
  | ESx m e => if m - 1 <=? n then Some (bit e (m - 1)) else None
  | EIf c k e1 e2 => bind2 (fif (bit c k)) (high e1 n) (high e2 n)
  end.

Section Soundness.
Context (env : nat -> Z) (Henv : forall v, is_u32 (env v)).

Let rho : nat -> Z -> bool := fun v i => Z.testbit (env v) i.

Lemma bit_sound e i :
  bexp_wf e = true -> 0 <= i -> feval rho (bit e i) = Z.testbit (denote env e) i.
Proof.
  revert i. induction e; simpl; intros i Hwf Hi;
    rewrite ?andb_true_iff, ?Z.leb_le, ?Z.ltb_lt in Hwf; destruct_and?.
  - destruct (Z.leb_spec 32 i); [|done]. by rewrite u32_testbit_high.
  - done.
  - rewrite feval_fand, Z.land_spec, IHe1, IHe2 by done. done.
  - rewrite feval_f_or, Z.lor_spec, IHe1, IHe2 by done. done.
  - rewrite feval_fxor, Z.lxor_spec, IHe1, IHe2 by done. done.
  - rewrite Z.shiftl_spec by done. destruct (Z.ltb_spec i k).
    + by rewrite Z.testbit_neg_r by lia.
    + apply IHe; [done|lia].
  - rewrite Z.shiftr_spec by done. apply IHe; [done|lia].
  - rewrite testbit_mod by done. destruct (Z.ltb_spec i n); [by apply IHe|done].
  - rewrite testbit_sx by done. apply IHe; [done|lia].
  - rewrite feval_fif, !IHe1, IHe2, IHe3 by done. by destruct (Z.testbit _ k).
Qed.

Lemma high_sound e n f i :
  bexp_wf e = true -> 0 <= n -> high e n = Some f -> n <= i ->
  feval rho f = Z.testbit (denote env e) i.
Proof.
  revert n f i.
  induction e; simpl; intros m f i Hwf Hm Hf Hi;
    rewrite ?andb_true_iff, ?Z.leb_le, ?Z.ltb_lt in Hwf; destruct_and?.
  - destruct (Z.leb_spec 32 m); simplify_eq. simpl. by rewrite u32_testbit_high by (done || lia).
  - assert (2 ^ m <= 2 ^ i) by (apply Z.pow_le_mono_r; lia).
    destruct ((0 <=? z) && (z <? 2 ^ m)) eqn:Hz; simplify_eq.
    + apply andb_true_iff in Hz as [?%Z.leb_le ?%Z.ltb_lt]. simpl. symmetry.
      rewrite (Z.testbit_false z i) by lia. by rewrite Z.div_small by lia.
    + destruct ((z <? 0) && (- 2 ^ m <=? z)) eqn:Hz'; simplify_eq.
      apply andb_true_iff in Hz' as [?%Z.ltb_lt ?%Z.leb_le]. simpl. symmetry.
      rewrite (Z.testbit_true z i) by lia.
      replace (z / 2 ^ i) with (-1); [done|].
      apply Z.div_unique with (z + 2 ^ i); lia.
  - destruct (high e1 m) eqn:H1, (high e2 m) eqn:H2; simplify_eq/=.
    rewrite feval_fand, Z.land_spec. by erewrite IHe1, IHe2.
  - destruct (high e1 m) eqn:H1, (high e2 m) eqn:H2; simplify_eq/=.
    rewrite feval_f_or, Z.lor_spec. by erewrite IHe1, IHe2.
  - destruct (high e1 m) eqn:H1, (high e2 m) eqn:H2; simplify_eq/=.
    rewrite feval_fxor, Z.lxor_spec. by erewrite IHe1, IHe2.
  - destruct (Z.leb_spec k m); simplify_eq. rewrite Z.shiftl_spec by lia.
    apply (IHe (m - k) f (i - k)); done || lia.
  - rewrite Z.shiftr_spec by lia. apply (IHe (m + k) f (i + k)); done || lia.
  - rewrite testbit_mod by lia. destruct (Z.leb_spec n m); simplify_eq.
    destruct (Z.ltb_spec i n); [lia|done].
  - destruct (Z.leb_spec (n - 1) m); simplify_eq.
    rewrite testbit_sx, bit_sound by (done || lia). f_equal. lia.
  - destruct (high e2 m) eqn:Hh2, (high e3 m) eqn:Hh3; simplify_eq/=.
    rewrite feval_fif, bit_sound by done.
    destruct (Z.testbit _ k); [by eapply IHe2|by eapply IHe3].
Qed.
End Soundness.

(** Bits [0 .. 63] are compared one by one, the others through [high]. *)
Fixpoint bits_below (n : nat) (e1 e2 : bexp) : bool :=
  match n with
  | O => true
  | S m => bf_equiv (bit e1 (Z.of_nat m)) (bit e2 (Z.of_nat m)) && bits_below m e1 e2
  end.

Definition bexp_eqb (e1 e2 : bexp) : bool :=
  bexp_wf e1 && bexp_wf e2 && bits_below 64 e1 e2 &&
  match high e1 64, high e2 64 with
  | Some f, Some g => bf_equiv f g
  | _, _ => false
  end.

Lemma bits_below_sound env n e1 e2 i :
  (forall v, is_u32 (env v)) -> bexp_wf e1 = true -> bexp_wf e2 = true ->
  bits_below n e1 e2 = true -> 0 <= i < Z.of_nat n ->
  Z.testbit (denote env e1) i = Z.testbit (denote env e2) i.
Proof.
  intros Henv H1 H2. induction n as [|n IH]; simpl; intros Hb Hi; [lia|].
  apply andb_true_iff in Hb as [Hn Hb].
  destruct (Z.eq_dec i (Z.of_nat n)) as [->|]; [|apply IH; [done|lia]].
  rewrite <- !bit_sound by (done || lia). by apply bf_equiv_sound.
Qed.

Lemma bexp_eqb_sound env e1 e2 :
  (forall v, is_u32 (env v)) -> bexp_eqb e1 e2 = true -> denote env e1 = denote env e2.
Proof.
  intros Henv. unfold bexp_eqb. rewrite !andb_true_iff. intros [[[H1 H2] Hb] Hh].
  apply Z.bits_inj'. intros i Hi.
  destruct (Z.lt_ge_cases i 64); [by eapply bits_below_sound|].
  destruct (high e1 64) as [f|] eqn:Hf, (high e2 64) as [g|] eqn:Hg; try done.
  rewrite <- (high_sound env Henv e1 64 f i), <- (high_sound env Henv e2 64 g i) by (done || lia).
  by apply bf_equiv_sound.
Qed.

(** ** Reification *)

Definition env_of (l : list Z) : nat -> Z := fun v => nth v l 0.

Lemma env_of_u32 l : Forall is_u32 l -> forall v, is_u32 (env_of l v).
Proof.
  intros Hl v. unfold env_of.
  destruct (nth_in_or_default v l 0) as [Hin| ->]; [|unfold is_u32; lia].
  apply (proj1 (List.Forall_forall is_u32 l) Hl _ Hin).
Qed.

(** The test of a single-bit mask is the test of that bit. *)
Lemma truthy_land_pow2 (x k : Z) : 0 <= k -> truthy (x .& 2 ^ k) = Z.testbit x k.
Proof.
  intros Hk. unfold truthy. apply eq_true_iff_eq.
  rewrite negb_true_iff, Z.eqb_neq. split.
  - intros Hne. destruct (Z.testbit x k) eqn:Hb; [done|]. destruct Hne.
    apply Z.bits_inj_0. intros i. rewrite Z.land_spec.
    destruct (Z.eq_dec i k) as [->|]; [by rewrite Hb|].
    rewrite Z.pow2_bits_false by lia. apply andb_false_r.
  - intros Hb H0. apply (f_equal (fun y => Z.testbit y k)) in H0.
    rewrite Z.land_spec, Hb, Z.pow2_bits_true, Z.testbit_0_l in H0 by done. done.
Qed.

Lemma truthy_land_bit (x m k : Z) :
  (m =? 2 ^ k) && (0 <=? k) = true -> truthy (x .& m) = Z.testbit x k.
Proof.
  intros [->%Z.eqb_eq Hk%Z.leb_le]%andb_true_iff. by apply truthy_land_pow2.
Qed.

(** Turns the tests of single-bit masks into [Z.testbit]. *)
Ltac mask_tests :=
  repeat match goal with
  | |- context [truthy (Z.land ?x ?m)] =>
      let k := eval vm_compute in (Z.log2 m) in
      rewrite (truthy_land_bit x m k) by reflexivity
  end.

Ltac is_closed_pos p :=
  lazymatch p with
  | xH => idtac
  | xO ?q => is_closed_pos q
  | xI ?q => is_closed_pos q
  end.

Ltac is_closed_Z t :=
  lazymatch t with
  | Z0 => idtac
  | Zpos ?p => is_closed_pos p
  | Zneg ?p => is_closed_pos p
  end.

Ltac index_of x l :=
  lazymatch l with
  | x :: _ => constr:(O)
  | _ :: ?l' => let n := index_of x l' in constr:(S n)
  end.

Ltac reify l t :=
  lazymatch t with
  | Z.land ?a ?b => let x := reify l a in let y := reify l b in constr:(EAnd x y)
  | Z.lor ?a ?b => let x := reify l a in let y := reify l b in constr:(EOr x y)
  | Z.lxor ?a ?b => let x := reify l a in let y := reify l b in constr:(EXor x y)
  | Z.shiftl ?a ?k => let x := reify l a in constr:(EShl x k)
  | Z.shiftr ?a ?k => let x := reify l a in constr:(EShr x k)
  | Z.modulo ?a (2 ^ ?n) => let x := reify l a in constr:(EMod x n)
  | sx ?n ?a => let x := reify l a in constr:(ESx n x)
  | (if Z.testbit ?c ?k then ?a else ?b) =>
      let z := reify l c in let x := reify l a in let y := reify l b in
      constr:(EIf z k x y)
  | _ => match constr:(Set) with
         | _ => let n := index_of t l in constr:(EVar n)
         | _ => let z := eval vm_compute in t in
                let _ := match constr:(Set) with _ => is_closed_Z z end in
                constr:(EConst z)
         end
  end.

(** When a proof by [bits_eq] is checked, the definitions of the model are
    unfolded before the operations on [Z]. *)
#[global] Strategy 1000 [Z.land Z.lor Z.lxor Z.shiftl Z.shiftr Z.modulo Z.pow Z.testbit].

(** [bits_eq l] proves [a = b], where [a] and [b] are bit expressions over
    the 32-bit variables of the list [l]. *)
Create HintDb bits discriminated.

Ltac bits_eq l :=
  autounfold with bits; cbv beta zeta; cbn [fold_left]; mask_tests;
  unfold field, i8, i16, i32, i64, u8, u16, u32, u64;
  lazymatch goal with
  | |- ?a = ?b =>
      let e1 := reify l a in
      let e2 := reify l b in
      let H := fresh in
      assert (H : denote (env_of l) e1 = denote (env_of l) e2);
      [ apply bexp_eqb_sound;
        [ apply env_of_u32;
          repeat (apply List.Forall_cons; [ first [ assumption | apply u32_range ] | ]);
          apply List.Forall_nil
        | vm_compute; reflexivity ]
      | cbv [denote env_of nth] in H; exact H ]
  end.
