(* ===== verification/Insn.v ===== *)
(** Instructions: the opcode enumeration of decode.h, the per-opcode tables
    of [RV_INSN_LIST] and the intermediate representation [rv_insn_t].

    The build is the default configuration (configs/defconfig): RV32I with M,
    A, F, C, Zicsr, Zifencei, Zba, Zbb, Zbc and Zbs, macro-operation fusion and
    block chaining, without SYSTEM, JIT, GDBSTUB, ARCH_TEST and RV32E. *)

From stdpp Require Import base list option numbers.
From Stdlib Require Import ZArith Lia Bool.
From S2P Require Import Prelude.
#[local] Open Scope Z_scope.

(** * Opcodes *)

Inductive opcode_t : Type :=
| rv_insn_nop | rv_insn_lui | rv_insn_auipc | rv_insn_jal | rv_insn_jalr
| rv_insn_beq | rv_insn_bne | rv_insn_blt | rv_insn_bge | rv_insn_bltu
| rv_insn_bgeu | rv_insn_lb | rv_insn_lh | rv_insn_lw | rv_insn_lbu
| rv_insn_lhu | rv_insn_sb | rv_insn_sh | rv_insn_sw | rv_insn_addi
| rv_insn_slti | rv_insn_sltiu | rv_insn_xori | rv_insn_ori | rv_insn_andi
| rv_insn_slli | rv_insn_srli | rv_insn_srai | rv_insn_add | rv_insn_sub
| rv_insn_sll | rv_insn_slt | rv_insn_sltu | rv_insn_xor | rv_insn_srl
| rv_insn_sra | rv_insn_or | rv_insn_and | rv_insn_fence | rv_insn_ecall
| rv_insn_ebreak | rv_insn_wfi | rv_insn_uret | rv_insn_hret | rv_insn_mret
| rv_insn_sfencevma | rv_insn_fencei | rv_insn_csrrw | rv_insn_csrrs
| rv_insn_csrrc | rv_insn_csrrwi | rv_insn_csrrsi | rv_insn_csrrci
| rv_insn_sh1add | rv_insn_sh2add | rv_insn_sh3add | rv_insn_andn
| rv_insn_orn | rv_insn_xnor | rv_insn_clz | rv_insn_ctz | rv_insn_cpop
| rv_insn_max | rv_insn_maxu | rv_insn_min | rv_insn_minu | rv_insn_sextb
| rv_insn_sexth | rv_insn_zexth | rv_insn_rol | rv_insn_ror | rv_insn_rori
| rv_insn_orcb | rv_insn_rev8 | rv_insn_clmul | rv_insn_clmulh
| rv_insn_clmulr | rv_insn_bclr | rv_insn_bclri | rv_insn_bext
| rv_insn_bexti | rv_insn_binv | rv_insn_binvi | rv_insn_bset | rv_insn_bseti
| rv_insn_mul | rv_insn_mulh | rv_insn_mulhsu | rv_insn_mulhu | rv_insn_div
| rv_insn_divu | rv_insn_rem | rv_insn_remu | rv_insn_lrw | rv_insn_scw
| rv_insn_amoswapw | rv_insn_amoaddw | rv_insn_amoxorw | rv_insn_amoandw
| rv_insn_amoorw | rv_insn_amominw | rv_insn_amomaxw | rv_insn_amominuw
| rv_insn_amomaxuw | rv_insn_flw | rv_insn_fsw | rv_insn_fmadds
| rv_insn_fmsubs | rv_insn_fnmsubs | rv_insn_fnmadds | rv_insn_fadds
| rv_insn_fsubs | rv_insn_fmuls | rv_insn_fdivs | rv_insn_fsqrts
| rv_insn_fsgnjs | rv_insn_fsgnjns | rv_insn_fsgnjxs | rv_insn_fmins
| rv_insn_fmaxs | rv_insn_fcvtws | rv_insn_fcvtwus | rv_insn_fmvxw
| rv_insn_feqs | rv_insn_flts | rv_insn_fles | rv_insn_fclasss
| rv_insn_fcvtsw | rv_insn_fcvtswu | rv_insn_fmvwx | rv_insn_caddi4spn
| rv_insn_clw | rv_insn_csw | rv_insn_cnop | rv_insn_caddi | rv_insn_cjal
| rv_insn_cli | rv_insn_caddi16sp | rv_insn_clui | rv_insn_csrli
| rv_insn_csrai | rv_insn_candi | rv_insn_csub | rv_insn_cxor | rv_insn_cor
| rv_insn_cand | rv_insn_cj | rv_insn_cbeqz | rv_insn_cbnez | rv_insn_cslli
| rv_insn_clwsp | rv_insn_cjr | rv_insn_cmv | rv_insn_cebreak | rv_insn_cjalr
| rv_insn_cadd | rv_insn_cswsp | rv_insn_cflwsp | rv_insn_cfswsp
| rv_insn_cflw | rv_insn_cfsw
(* macro-operation fusion *)
| rv_insn_fuse1 | rv_insn_fuse2 | rv_insn_fuse3 | rv_insn_fuse4
| rv_insn_fuse5 | rv_insn_fuse6 | rv_insn_fuse7 | rv_insn_fuse8
| rv_insn_fuse9 | rv_insn_fuse10 | rv_insn_fuse11 | rv_insn_fuse12.

(** The instructions of [RV_INSN_LIST], in the order of the enumeration. *)
Definition RV_INSN_LIST : list opcode_t :=
  [rv_insn_nop; rv_insn_lui; rv_insn_auipc; rv_insn_jal; rv_insn_jalr;
   rv_insn_beq; rv_insn_bne; rv_insn_blt; rv_insn_bge; rv_insn_bltu;
   rv_insn_bgeu; rv_insn_lb; rv_insn_lh; rv_insn_lw; rv_insn_lbu;
   rv_insn_lhu; rv_insn_sb; rv_insn_sh; rv_insn_sw; rv_insn_addi;
   rv_insn_slti; rv_insn_sltiu; rv_insn_xori; rv_insn_ori; rv_insn_andi;
   rv_insn_slli; rv_insn_srli; rv_insn_srai; rv_insn_add; rv_insn_sub;
   rv_insn_sll; rv_insn_slt; rv_insn_sltu; rv_insn_xor; rv_insn_srl;
   rv_insn_sra; rv_insn_or; rv_insn_and; rv_insn_fence; rv_insn_ecall;
   rv_insn_ebreak; rv_insn_wfi; rv_insn_uret; rv_insn_hret; rv_insn_mret;
   rv_insn_sfencevma; rv_insn_fencei; rv_insn_csrrw; rv_insn_csrrs;
   rv_insn_csrrc; rv_insn_csrrwi; rv_insn_csrrsi; rv_insn_csrrci;
   rv_insn_sh1add; rv_insn_sh2add; rv_insn_sh3add; rv_insn_andn; rv_insn_orn;
   rv_insn_xnor; rv_insn_clz; rv_insn_ctz; rv_insn_cpop; rv_insn_max;
   rv_insn_maxu; rv_insn_min; rv_insn_minu; rv_insn_sextb; rv_insn_sexth;
   rv_insn_zexth; rv_insn_rol; rv_insn_ror; rv_insn_rori; rv_insn_orcb;
   rv_insn_rev8; rv_insn_clmul; rv_insn_clmulh; rv_insn_clmulr; rv_insn_bclr;
   rv_insn_bclri; rv_insn_bext; rv_insn_bexti; rv_insn_binv; rv_insn_binvi;
   rv_insn_bset; rv_insn_bseti; rv_insn_mul; rv_insn_mulh; rv_insn_mulhsu;
   rv_insn_mulhu; rv_insn_div; rv_insn_divu; rv_insn_rem; rv_insn_remu;
   rv_insn_lrw; rv_insn_scw; rv_insn_amoswapw; rv_insn_amoaddw;
   rv_insn_amoxorw; rv_insn_amoandw; rv_insn_amoorw; rv_insn_amominw;
   rv_insn_amomaxw; rv_insn_amominuw; rv_insn_amomaxuw; rv_insn_flw;
   rv_insn_fsw; rv_insn_fmadds; rv_insn_fmsubs; rv_insn_fnmsubs;
   rv_insn_fnmadds; rv_insn_fadds; rv_insn_fsubs; rv_insn_fmuls;
   rv_insn_fdivs; rv_insn_fsqrts; rv_insn_fsgnjs; rv_insn_fsgnjns;
   rv_insn_fsgnjxs; rv_insn_fmins; rv_insn_fmaxs; rv_insn_fcvtws;
   rv_insn_fcvtwus; rv_insn_fmvxw; rv_insn_feqs; rv_insn_flts; rv_insn_fles;
   rv_insn_fclasss; rv_insn_fcvtsw; rv_insn_fcvtswu; rv_insn_fmvwx;
   rv_insn_caddi4spn; rv_insn_clw; rv_insn_csw; rv_insn_cnop; rv_insn_caddi;
   rv_insn_cjal; rv_insn_cli; rv_insn_caddi16sp; rv_insn_clui; rv_insn_csrli;
   rv_insn_csrai; rv_insn_candi; rv_insn_csub; rv_insn_cxor; rv_insn_cor;
   rv_insn_cand; rv_insn_cj; rv_insn_cbeqz; rv_insn_cbnez; rv_insn_cslli;
   rv_insn_clwsp; rv_insn_cjr; rv_insn_cmv; rv_insn_cebreak; rv_insn_cjalr;
   rv_insn_cadd; rv_insn_cswsp; rv_insn_cflwsp; rv_insn_cfswsp; rv_insn_cflw;
   rv_insn_cfsw].

Definition FUSE_INSN_LIST : list opcode_t :=
  [rv_insn_fuse1; rv_insn_fuse2; rv_insn_fuse3; rv_insn_fuse4; rv_insn_fuse5;
   rv_insn_fuse6; rv_insn_fuse7; rv_insn_fuse8; rv_insn_fuse9;
   rv_insn_fuse10; rv_insn_fuse11; rv_insn_fuse12].

(** The value of the enumerator: [N_RV_INSNS] sits between the two lists. *)
Definition opcode_num (o : opcode_t) : Z :=
  match o with
  | rv_insn_nop => 0 | rv_insn_lui => 1 | rv_insn_auipc => 2
  | rv_insn_jal => 3 | rv_insn_jalr => 4 | rv_insn_beq => 5
  | rv_insn_bne => 6 | rv_insn_blt => 7 | rv_insn_bge => 8
  | rv_insn_bltu => 9 | rv_insn_bgeu => 10 | rv_insn_lb => 11
  | rv_insn_lh => 12 | rv_insn_lw => 13 | rv_insn_lbu => 14
  | rv_insn_lhu => 15 | rv_insn_sb => 16 | rv_insn_sh => 17
  | rv_insn_sw => 18 | rv_insn_addi => 19 | rv_insn_slti => 20
  | rv_insn_sltiu => 21 | rv_insn_xori => 22 | rv_insn_ori => 23
  | rv_insn_andi => 24 | rv_insn_slli => 25 | rv_insn_srli => 26
  | rv_insn_srai => 27 | rv_insn_add => 28 | rv_insn_sub => 29
  | rv_insn_sll => 30 | rv_insn_slt => 31 | rv_insn_sltu => 32
  | rv_insn_xor => 33 | rv_insn_srl => 34 | rv_insn_sra => 35
  | rv_insn_or => 36 | rv_insn_and => 37 | rv_insn_fence => 38
  | rv_insn_ecall => 39 | rv_insn_ebreak => 40 | rv_insn_wfi => 41
  | rv_insn_uret => 42 | rv_insn_hret => 43 | rv_insn_mret => 44
  | rv_insn_sfencevma => 45 | rv_insn_fencei => 46 | rv_insn_csrrw => 47
  | rv_insn_csrrs => 48 | rv_insn_csrrc => 49 | rv_insn_csrrwi => 50
  | rv_insn_csrrsi => 51 | rv_insn_csrrci => 52 | rv_insn_sh1add => 53
  | rv_insn_sh2add => 54 | rv_insn_sh3add => 55 | rv_insn_andn => 56
  | rv_insn_orn => 57 | rv_insn_xnor => 58 | rv_insn_clz => 59
  | rv_insn_ctz => 60 | rv_insn_cpop => 61 | rv_insn_max => 62
  | rv_insn_maxu => 63 | rv_insn_min => 64 | rv_insn_minu => 65
  | rv_insn_sextb => 66 | rv_insn_sexth => 67 | rv_insn_zexth => 68
  | rv_insn_rol => 69 | rv_insn_ror => 70 | rv_insn_rori => 71
  | rv_insn_orcb => 72 | rv_insn_rev8 => 73 | rv_insn_clmul => 74
  | rv_insn_clmulh => 75 | rv_insn_clmulr => 76 | rv_insn_bclr => 77
  | rv_insn_bclri => 78 | rv_insn_bext => 79 | rv_insn_bexti => 80
  | rv_insn_binv => 81 | rv_insn_binvi => 82 | rv_insn_bset => 83
  | rv_insn_bseti => 84 | rv_insn_mul => 85 | rv_insn_mulh => 86
  | rv_insn_mulhsu => 87 | rv_insn_mulhu => 88 | rv_insn_div => 89
  | rv_insn_divu => 90 | rv_insn_rem => 91 | rv_insn_remu => 92
  | rv_insn_lrw => 93 | rv_insn_scw => 94 | rv_insn_amoswapw => 95
  | rv_insn_amoaddw => 96 | rv_insn_amoxorw => 97 | rv_insn_amoandw => 98
  | rv_insn_amoorw => 99 | rv_insn_amominw => 100 | rv_insn_amomaxw => 101
  | rv_insn_amominuw => 102 | rv_insn_amomaxuw => 103 | rv_insn_flw => 104
  | rv_insn_fsw => 105 | rv_insn_fmadds => 106 | rv_insn_fmsubs => 107
  | rv_insn_fnmsubs => 108 | rv_insn_fnmadds => 109 | rv_insn_fadds => 110
  | rv_insn_fsubs => 111 | rv_insn_fmuls => 112 | rv_insn_fdivs => 113
  | rv_insn_fsqrts => 114 | rv_insn_fsgnjs => 115 | rv_insn_fsgnjns => 116
  | rv_insn_fsgnjxs => 117 | rv_insn_fmins => 118 | rv_insn_fmaxs => 119
  | rv_insn_fcvtws => 120 | rv_insn_fcvtwus => 121 | rv_insn_fmvxw => 122
  | rv_insn_feqs => 123 | rv_insn_flts => 124 | rv_insn_fles => 125
  | rv_insn_fclasss => 126 | rv_insn_fcvtsw => 127 | rv_insn_fcvtswu => 128
  | rv_insn_fmvwx => 129 | rv_insn_caddi4spn => 130 | rv_insn_clw => 131
  | rv_insn_csw => 132 | rv_insn_cnop => 133 | rv_insn_caddi => 134
  | rv_insn_cjal => 135 | rv_insn_cli => 136 | rv_insn_caddi16sp => 137
  | rv_insn_clui => 138 | rv_insn_csrli => 139 | rv_insn_csrai => 140
  | rv_insn_candi => 141 | rv_insn_csub => 142 | rv_insn_cxor => 143
  | rv_insn_cor => 144 | rv_insn_cand => 145 | rv_insn_cj => 146
  | rv_insn_cbeqz => 147 | rv_insn_cbnez => 148 | rv_insn_cslli => 149
  | rv_insn_clwsp => 150 | rv_insn_cjr => 151 | rv_insn_cmv => 152
  | rv_insn_cebreak => 153 | rv_insn_cjalr => 154 | rv_insn_cadd => 155
  | rv_insn_cswsp => 156 | rv_insn_cflwsp => 157 | rv_insn_cfswsp => 158
  | rv_insn_cflw => 159 | rv_insn_cfsw => 160 | rv_insn_fuse1 => 162
  | rv_insn_fuse2 => 163 | rv_insn_fuse3 => 164 | rv_insn_fuse4 => 165
  | rv_insn_fuse5 => 166 | rv_insn_fuse6 => 167 | rv_insn_fuse7 => 168
  | rv_insn_fuse8 => 169 | rv_insn_fuse9 => 170 | rv_insn_fuse10 => 171
  | rv_insn_fuse11 => 172 | rv_insn_fuse12 => 173
  end.

Definition N_RV_INSNS : Z := 161.

Definition opcode_eqb (a b : opcode_t) : bool := opcode_num a =? opcode_num b.

(** [__rv_insn_X_len]: the length in bytes each handler adds to the program
    counter. *)
Definition insn_len (o : opcode_t) : Z :=
  match o with
  | rv_insn_caddi4spn | rv_insn_clw | rv_insn_csw | rv_insn_cnop
  | rv_insn_caddi | rv_insn_cjal | rv_insn_cli | rv_insn_caddi16sp
  | rv_insn_clui | rv_insn_csrli | rv_insn_csrai | rv_insn_candi
  | rv_insn_csub | rv_insn_cxor | rv_insn_cor | rv_insn_cand | rv_insn_cj
  | rv_insn_cbeqz | rv_insn_cbnez | rv_insn_cslli | rv_insn_clwsp
  | rv_insn_cjr | rv_insn_cmv | rv_insn_cebreak | rv_insn_cjalr
  | rv_insn_cadd | rv_insn_cswsp | rv_insn_cflwsp | rv_insn_cfswsp
  | rv_insn_cflw | rv_insn_cfsw => 2
  | _ => 4
  end.

(** [can_branch]: the instruction ends a basic block. *)
Definition insn_is_branch (o : opcode_t) : bool :=
  match o with
  | rv_insn_jal | rv_insn_jalr | rv_insn_beq | rv_insn_bne | rv_insn_blt
  | rv_insn_bge | rv_insn_bltu | rv_insn_bgeu | rv_insn_fence | rv_insn_ecall
  | rv_insn_ebreak | rv_insn_mret | rv_insn_sfencevma | rv_insn_fencei
  | rv_insn_csrrw | rv_insn_cjal | rv_insn_cj | rv_insn_cbeqz | rv_insn_cbnez
  | rv_insn_cjr | rv_insn_cebreak | rv_insn_cjalr => true
  | _ => false
  end.

(** * Registers *)

Definition N_RV_REGS : Z := 32.
Definition rv_reg_zero : Z := 0.
Definition rv_reg_ra : Z := 1.
Definition rv_reg_sp : Z := 2.
Definition rv_reg_a0 : Z := 10.
Definition rv_reg_a1 : Z := 11.
Definition rv_reg_a2 : Z := 12.
Definition rv_reg_a7 : Z := 17.

(** * Intermediate representation *)

(** The eight bytes of an instruction kept in a fused sequence. *)
Record opcode_fuse_t : Type := mk_opcode_fuse {
  f_imm : Z; (* int32_t *)
  f_rd : Z;
  f_rs1 : Z;
  f_rs2 : Z;
  f_opcode : opcode_t;
}.

(** A pointer to the first IR of a translated block is the index of that
    block in the block store; [None] is NULL. *)
Definition irptr : Type := nat.

Definition HISTORY_SIZE : Z := 16.

(** Branch history table of an indirect jump. *)
Record branch_history_table_t : Type := mk_bht {
  bht_PC : list Z;
  bht_idx : Z;
  bht_target : list (option irptr);
}.

(** [rv_insn_t].  The [next] pointer is the position of the instruction in the
    list that represents its block. *)
Record rv_insn_t : Type := mk_rv_insn {
  imm : Z;  (* int32_t, shared with rs3 *)
  rd : Z;  (* uint8_t *)
  rs1 : Z;  (* uint8_t *)
  rs2 : Z;  (* uint8_t *)
  opcode : opcode_t;
  shamt : Z;  (* uint8_t *)
  rm : Z;  (* uint8_t *)
  imm2 : Z;  (* int32_t *)
  fuse : option (list opcode_fuse_t);  (* fused sequence *)
  pc : Z;  (* uint32_t *)
  impl : opcode_t;  (* the handler [do_X] the pointer designates *)
  branch_taken : option irptr;
  branch_untaken : option irptr;
  branch_table : option branch_history_table_t;
}.

Definition set_imm (v : Z) (ir : rv_insn_t) : rv_insn_t :=
  mk_rv_insn v (rd ir) (rs1 ir) (rs2 ir) (opcode ir) (shamt ir) (rm ir)
    (imm2 ir) (fuse ir) (pc ir) (impl ir) (branch_taken ir)
    (branch_untaken ir) (branch_table ir).
Definition set_rd (v : Z) (ir : rv_insn_t) : rv_insn_t :=
  mk_rv_insn (imm ir) v (rs1 ir) (rs2 ir) (opcode ir) (shamt ir) (rm ir)
    (imm2 ir) (fuse ir) (pc ir) (impl ir) (branch_taken ir)
    (branch_untaken ir) (branch_table ir).
Definition set_rs1 (v : Z) (ir : rv_insn_t) : rv_insn_t :=
  mk_rv_insn (imm ir) (rd ir) v (rs2 ir) (opcode ir) (shamt ir) (rm ir)
    (imm2 ir) (fuse ir) (pc ir) (impl ir) (branch_taken ir)
    (branch_untaken ir) (branch_table ir).
Definition set_rs2 (v : Z) (ir : rv_insn_t) : rv_insn_t :=
  mk_rv_insn (imm ir) (rd ir) (rs1 ir) v (opcode ir) (shamt ir) (rm ir)
    (imm2 ir) (fuse ir) (pc ir) (impl ir) (branch_taken ir)
    (branch_untaken ir) (branch_table ir).
Definition set_opcode (v : opcode_t) (ir : rv_insn_t) : rv_insn_t :=
  mk_rv_insn (imm ir) (rd ir) (rs1 ir) (rs2 ir) v (shamt ir) (rm ir) (imm2 ir)
    (fuse ir) (pc ir) (impl ir) (branch_taken ir) (branch_untaken ir)
    (branch_table ir).
Definition set_shamt (v : Z) (ir : rv_insn_t) : rv_insn_t :=
  mk_rv_insn (imm ir) (rd ir) (rs1 ir) (rs2 ir) (opcode ir) v (rm ir)
    (imm2 ir) (fuse ir) (pc ir) (impl ir) (branch_taken ir)
    (branch_untaken ir) (branch_table ir).
Definition set_rm (v : Z) (ir : rv_insn_t) : rv_insn_t :=
  mk_rv_insn (imm ir) (rd ir) (rs1 ir) (rs2 ir) (opcode ir) (shamt ir) v
    (imm2 ir) (fuse ir) (pc ir) (impl ir) (branch_taken ir)
    (branch_untaken ir) (branch_table ir).
Definition set_imm2 (v : Z) (ir : rv_insn_t) : rv_insn_t :=
  mk_rv_insn (imm ir) (rd ir) (rs1 ir) (rs2 ir) (opcode ir) (shamt ir) (rm ir)
    v (fuse ir) (pc ir) (impl ir) (branch_taken ir) (branch_untaken ir)
    (branch_table ir).
Definition set_fuse (v : option (list opcode_fuse_t)) (ir : rv_insn_t) : rv_insn_t :=
  mk_rv_insn (imm ir) (rd ir) (rs1 ir) (rs2 ir) (opcode ir) (shamt ir) (rm ir)
    (imm2 ir) v (pc ir) (impl ir) (branch_taken ir) (branch_untaken ir)
    (branch_table ir).
Definition set_pc (v : Z) (ir : rv_insn_t) : rv_insn_t :=
  mk_rv_insn (imm ir) (rd ir) (rs1 ir) (rs2 ir) (opcode ir) (shamt ir) (rm ir)
    (imm2 ir) (fuse ir) v (impl ir) (branch_taken ir) (branch_untaken ir)
    (branch_table ir).
Definition set_impl (v : opcode_t) (ir : rv_insn_t) : rv_insn_t :=
  mk_rv_insn (imm ir) (rd ir) (rs1 ir) (rs2 ir) (opcode ir) (shamt ir) (rm ir)
    (imm2 ir) (fuse ir) (pc ir) v (branch_taken ir) (branch_untaken ir)
    (branch_table ir).
Definition set_branch_taken (v : option irptr) (ir : rv_insn_t) : rv_insn_t :=
  mk_rv_insn (imm ir) (rd ir) (rs1 ir) (rs2 ir) (opcode ir) (shamt ir) (rm ir)
    (imm2 ir) (fuse ir) (pc ir) (impl ir) v (branch_untaken ir)
    (branch_table ir).
Definition set_branch_untaken (v : option irptr) (ir : rv_insn_t) : rv_insn_t :=
  mk_rv_insn (imm ir) (rd ir) (rs1 ir) (rs2 ir) (opcode ir) (shamt ir) (rm ir)
    (imm2 ir) (fuse ir) (pc ir) (impl ir) (branch_taken ir) v
    (branch_table ir).
Definition set_branch_table (v : option branch_history_table_t) (ir : rv_insn_t) : rv_insn_t :=
  mk_rv_insn (imm ir) (rd ir) (rs1 ir) (rs2 ir) (opcode ir) (shamt ir) (rm ir)
    (imm2 ir) (fuse ir) (pc ir) (impl ir) (branch_taken ir)
    (branch_untaken ir) v.

(** [imm] and [rs3] are members of one union: [rs3] is the low byte. *)
Definition rs3 (ir : rv_insn_t) : Z := ir.(imm) .& 0xff.
Definition set_rs3 (v : Z) (ir : rv_insn_t) : rv_insn_t :=
  set_imm (i32 (ir.(imm) .& 0xffffff00 .| v)) ir.

(** A zero-filled instruction, as [mpool_calloc] and [memset] give it. *)
Definition rv_insn_zero : rv_insn_t :=
  mk_rv_insn 0 0 0 0 rv_insn_nop 0 0 0 None 0 rv_insn_nop None None None.

(** [dispatch_table[op]] is the handler of [op]. *)
Definition dispatch_table (o : opcode_t) : opcode_t := o.

(** * Properties of the enumeration *)

Definition opcode_of_num (n : Z) : opcode_t :=
  nth (Z.to_nat n) (RV_INSN_LIST ++ rv_insn_nop :: FUSE_INSN_LIST) rv_insn_nop.

Lemma opcode_of_num_num (o : opcode_t) : opcode_of_num (opcode_num o) = o.
Proof. destruct o; vm_compute; reflexivity. Qed.

#[export] Instance opcode_num_inj : Inj (=) (=) opcode_num.
Proof. intros a b H. rewrite <- (opcode_of_num_num a), <- (opcode_of_num_num b). by f_equal. Qed.

#[export] Instance opcode_eq_dec : EqDecision opcode_t.
Proof.
  intros a b. destruct (Z.eq_dec (opcode_num a) (opcode_num b)) as [H|H].
  - left. by apply opcode_num_inj.
  - right. by intros ->.
Defined.

Lemma opcode_eqb_eq (a b : opcode_t) : opcode_eqb a b = true <-> a = b.
Proof.
  unfold opcode_eqb. rewrite Z.eqb_eq. split; [apply opcode_num_inj|by intros ->].
Qed.

Lemma opcode_eqb_refl (a : opcode_t) : opcode_eqb a a = true.
Proof. by apply opcode_eqb_eq. Qed.

Lemma opcode_num_u8 (o : opcode_t) : 0 <= opcode_num o < 2 ^ 8.
Proof. destruct o; vm_compute; intuition congruence. Qed.
