(* ===== verification/Decode.v ===== *)
(** The instruction decoder (decode.c).

    Every function of decode.c is a definition of the same name.  A decode
    handler takes the (zero-filled) instruction and the encoding; it returns
    [Some (ret, ir)] with the C return value and the filled instruction, or
    [None] where the C code runs into a failed [assert]. *)

From stdpp Require Import base list option numbers.
From Stdlib Require Import ZArith Lia Bool.
From S2P Require Import Prelude Bits Insn.
#[local] Open Scope Z_scope.

(** * Decode masks (decode.h) *)

Definition INSN_6_2 : Z := 0x7c.
Definition FR_OPCODE : Z := 0x7f.
Definition FR_RD : Z := 0xf80.
Definition FR_FUNCT3 : Z := 0x7000.
Definition FR_RS1 : Z := 0xf8000.
Definition FR_RS2 : Z := 0x1f00000.
Definition FR_FUNCT7 : Z := 0xfe000000.
Definition FI_IMM_11_0 : Z := 0xfff00000.
Definition FS_IMM_4_0 : Z := 0xf80.
Definition FS_IMM_11_5 : Z := 0xfe000000.
Definition FB_IMM_11 : Z := 0x80.
Definition FB_IMM_4_1 : Z := 0xf00.
Definition FB_IMM_10_5 : Z := 0x7e000000.
Definition FB_IMM_12 : Z := 0x80000000.
Definition FU_IMM_31_12 : Z := 0xfffff000.
Definition FJ_IMM_19_12 : Z := 0xff000.
Definition FJ_IMM_11 : Z := 0x100000.
Definition FJ_IMM_10_1 : Z := 0x7fe00000.
Definition FJ_IMM_20 : Z := 0x80000000.
Definition FR4_RS3 : Z := 0xf8000000.
Definition FC_OPCODE : Z := 0x3.
Definition FC_FUNC3 : Z := 0xe000.
Definition FC_RS1C : Z := 0x380.
Definition FC_RS2C : Z := 0x1c.
Definition FC_RS1 : Z := 0xf80.
Definition FC_RS2 : Z := 0x7c.
Definition FC_RDC : Z := 0x1c.
Definition FC_RD : Z := 0xf80.
Definition FC_IMM_12_10 : Z := 0x1c00.
Definition FCI_IMM_12 : Z := 0x1000.
Definition FCI_IMM_6_2 : Z := 0x7c.
Definition CJ_IMM_11 : Z := 0x1000.
Definition CJ_IMM_4 : Z := 0x800.
Definition CJ_IMM_9_8 : Z := 0x600.
Definition CJ_IMM_10 : Z := 0x100.
Definition CJ_IMM_6 : Z := 0x80.
Definition CJ_IMM_7 : Z := 0x40.
Definition CJ_IMM_3_1 : Z := 0x38.
Definition CJ_IMM_5 : Z := 0x4.
Definition CB_SHAMT_5 : Z := 0x1000.
Definition CB_SHAMT_4_0 : Z := 0x7c.

(** The instruction has a 16-bit encoding (riscv_private.h). *)
Definition is_compressed (insn : Z) : bool := negb (insn .& FC_OPCODE =? 3).

(** sign extend a 16 bit value (riscv_private.h) *)
Definition sign_extend_h (x : Z) : Z := u32 (i16 x).

(** sign extend an 8 bit value (riscv_private.h) *)
Definition sign_extend_b (x : Z) : Z := u32 (i8 x).

(** * Field extraction *)

Definition decode_rd (insn : Z) : Z := (insn .& FR_RD) ≫ 7.
Definition decode_rs1 (insn : Z) : Z := (insn .& FR_RS1) ≫ 15.
Definition decode_rs2 (insn : Z) : Z := (insn .& FR_RS2) ≫ 20.
Definition decode_funct3 (insn : Z) : Z := (insn .& FR_FUNCT3) ≫ 12.
Definition decode_funct7 (insn : Z) : Z := (insn .& FR_FUNCT7) ≫ 25.
Definition decode_utype_imm (insn : Z) : Z := insn .& FU_IMM_31_12.

Definition decode_jtype_imm (insn : Z) : Z :=
  let dst := insn .& FJ_IMM_20 in
  let dst := dst .| u32 ((insn .& FJ_IMM_19_12) ≪ 11) in
  let dst := dst .| u32 ((insn .& FJ_IMM_11) ≪ 2) in
  let dst := dst .| ((insn .& FJ_IMM_10_1) ≫ 9) in
  i32 dst ≫ 11.

Definition decode_itype_imm (insn : Z) : Z := i32 (insn .& FI_IMM_11_0) ≫ 20.

Definition decode_btype_imm (insn : Z) : Z :=
  let dst := insn .& FB_IMM_12 in
  let dst := dst .| u32 ((insn .& FB_IMM_11) ≪ 23) in
  let dst := dst .| ((insn .& FB_IMM_10_5) ≫ 1) in
  let dst := dst .| u32 ((insn .& FB_IMM_4_1) ≪ 12) in
  i32 dst ≫ 19.

Definition decode_stype_imm (insn : Z) : Z :=
  let dst := insn .& FS_IMM_11_5 in
  let dst := dst .| u32 ((insn .& FS_IMM_4_0) ≪ 13) in
  i32 dst ≫ 20.

Definition decode_r4type_rs3 (insn : Z) : Z := (insn .& FR4_RS3) ≫ 27.

(** ** Compressed fields *)

Definition c_decode_rs1 (insn : Z) : Z := u16 ((insn .& FC_RS1) ≫ 7).
Definition c_decode_rs2 (insn : Z) : Z := u16 ((insn .& FC_RS2) ≫ 2).
Definition c_decode_rd (insn : Z) : Z := u16 ((insn .& FC_RD) ≫ 7).
Definition c_decode_rs1c (insn : Z) : Z := u16 ((insn .& FC_RS1C) ≫ 7).
Definition c_decode_rs2c (insn : Z) : Z := u16 ((insn .& FC_RS2C) ≫ 2).
Definition c_decode_rdc (insn : Z) : Z := u16 ((insn .& FC_RDC) ≫ 2).

Definition c_decode_caddi4spn_nzuimm (insn : Z) : Z :=
  let tmp := u16 ((insn .& 0x1800) ≫ 7) in
  let tmp := u16 (tmp .| ((insn .& 0x780) ≫ 1)) in
  let tmp := u16 (tmp .| ((insn .& 0x40) ≫ 4)) in
  u16 (tmp .| ((insn .& 0x20) ≫ 2)).

Definition c_decode_caddi16sp_nzimm (insn : Z) : Z :=
  let tmp := (insn .& 0x1000) ≫ 3 in
  let tmp := tmp .| ((insn .& 0x40) ≫ 2) in
  let tmp := tmp .| ((insn .& 0x20) ≪ 1) in
  let tmp := tmp .| ((insn .& 0x18) ≪ 4) in
  let tmp := tmp .| ((insn .& 0x4) ≪ 3) in
  i32 (if truthy (tmp .& 0x200) then 0xfffffc00 .| tmp else tmp).

Definition c_decode_clui_nzimm (insn : Z) : Z :=
  let tmp := ((insn .& 0x1000) ≪ 5) .| ((insn .& 0x7c) ≪ 10) in
  if truthy (tmp .& 0x20000) then 0xfffc0000 .| tmp else tmp.

Definition c_decode_caddi_imm (insn : Z) : Z :=
  let mask := u16 ((0x1000 .& insn) ≪ 3) in
  let tmp := fold_left (fun tmp i => tmp .| (mask ≫ i))
               [0; 1; 2; 3; 4; 5; 6; 7; 8; 9; 10] 0 in
  let tmp := tmp .| ((insn .& 0x007C) ≫ 2) in
  i32 (sign_extend_h tmp).

Definition c_decode_citype_imm (insn : Z) : Z :=
  let tmp := ((insn .& FCI_IMM_12) ≫ 7) .| ((insn .& FCI_IMM_6_2) ≫ 2) in
  if truthy (tmp .& 0x20) then i32 (0xffffffc0 .| tmp) else i32 tmp.

Definition c_decode_cjtype_imm (insn : Z) : Z :=
  let tmp := u16 ((insn .& CJ_IMM_3_1) ≫ 2) in
  let tmp := u16 (tmp .| ((insn .& CJ_IMM_4) ≫ 7)) in
  let tmp := u16 (tmp .| ((insn .& CJ_IMM_5) ≪ 3)) in
  let tmp := u16 (tmp .| ((insn .& CJ_IMM_6) ≫ 1)) in
  let tmp := u16 (tmp .| ((insn .& CJ_IMM_7) ≪ 1)) in
  let tmp := u16 (tmp .| ((insn .& CJ_IMM_9_8) ≫ 1)) in
  let tmp := u16 (tmp .| ((insn .& CJ_IMM_10) ≪ 2)) in
  let tmp := u16 (tmp .| ((insn .& CJ_IMM_11) ≫ 1)) in
  let tmp := fold_left (fun tmp i => u16 (tmp .| ((0x0800 .& tmp) ≪ i))) [1; 2; 3; 4] tmp in
  i16 tmp.

Definition c_decode_cbtype_shamt (insn : Z) : Z :=
  let tmp := u8 ((insn .& CB_SHAMT_5) ≫ 7) in
  u8 (tmp .| ((insn .& CB_SHAMT_4_0) ≫ 2)).

Definition c_decode_cbtype_imm (insn : Z) : Z :=
  let tmp := u16 ((insn .& 0x18) ≫ 2) in
  let tmp := u16 (tmp .| ((insn .& 0xc00) ≫ 7)) in
  let tmp := u16 (tmp .| ((insn .& 0x4) ≪ 3)) in
  let tmp := u16 (tmp .| ((insn .& 0x60) ≪ 1)) in
  let tmp := u16 (tmp .| ((insn .& 0x1000) ≫ 4)) in
  fold_left (fun tmp i => u16 (tmp .| ((0x0100 .& tmp) ≪ i))) [1; 2; 3; 4; 5; 6; 7; 8] tmp.

#[export] Hint Unfold INSN_6_2 FR_OPCODE FR_RD FR_FUNCT3 FR_RS1 FR_RS2
  FR_FUNCT7 FI_IMM_11_0 FS_IMM_4_0 FS_IMM_11_5 FB_IMM_11 FB_IMM_4_1
  FB_IMM_10_5 FB_IMM_12 FU_IMM_31_12 FJ_IMM_19_12 FJ_IMM_11 FJ_IMM_10_1
  FJ_IMM_20 FR4_RS3 FC_OPCODE FC_FUNC3 FC_RS1C FC_RS2C FC_RS1 FC_RS2 FC_RDC
  FC_RD FC_IMM_12_10 FCI_IMM_12 FCI_IMM_6_2 CJ_IMM_11 CJ_IMM_4 CJ_IMM_9_8
  CJ_IMM_10 CJ_IMM_6 CJ_IMM_7 CJ_IMM_3_1 CJ_IMM_5 CB_SHAMT_5 CB_SHAMT_4_0
  sign_extend_h sign_extend_b decode_rd decode_rs1 decode_rs2 decode_funct3
  decode_funct7 decode_utype_imm decode_jtype_imm decode_itype_imm
  decode_btype_imm decode_stype_imm decode_r4type_rs3 c_decode_rs1
  c_decode_rs2 c_decode_rd c_decode_rs1c c_decode_rs2c c_decode_rdc
  c_decode_caddi4spn_nzuimm c_decode_caddi16sp_nzimm c_decode_clui_nzimm
  c_decode_caddi_imm c_decode_citype_imm c_decode_cjtype_imm
  c_decode_cbtype_shamt c_decode_cbtype_imm : bits.

(** * Instruction formats *)

Definition decode_itype (ir : rv_insn_t) (insn : Z) : rv_insn_t :=
  let ir := set_imm (decode_itype_imm insn) ir in
  let ir := set_rs1 (decode_rs1 insn) ir in
  set_rd (decode_rd insn) ir.

Definition decode_utype (ir : rv_insn_t) (insn : Z) : rv_insn_t :=
  let ir := set_imm (i32 (decode_utype_imm insn)) ir in
  set_rd (decode_rd insn) ir.

Definition decode_stype (ir : rv_insn_t) (insn : Z) : rv_insn_t :=
  let ir := set_imm (decode_stype_imm insn) ir in
  let ir := set_rs2 (decode_rs2 insn) ir in
  set_rs1 (decode_rs1 insn) ir.

Definition decode_rtype (ir : rv_insn_t) (insn : Z) : rv_insn_t :=
  let ir := set_rs2 (decode_rs2 insn) ir in
  let ir := set_rs1 (decode_rs1 insn) ir in
  set_rd (decode_rd insn) ir.

Definition decode_btype (ir : rv_insn_t) (insn : Z) : rv_insn_t :=
  let ir := set_imm (decode_btype_imm insn) ir in
  let ir := set_rs2 (decode_rs2 insn) ir in
  set_rs1 (decode_rs1 insn) ir.

Definition decode_jtype (ir : rv_insn_t) (insn : Z) : rv_insn_t :=
  let ir := set_imm (decode_jtype_imm insn) ir in
  set_rd (decode_rd insn) ir.

Definition decode_r4type (ir : rv_insn_t) (insn : Z) : rv_insn_t :=
  let ir := set_rd (decode_rd insn) ir in
  let ir := set_rs1 (decode_rs1 insn) ir in
  let ir := set_rs2 (decode_rs2 insn) ir in
  let ir := set_rs3 (decode_r4type_rs3 insn) ir in
  set_rm (decode_funct3 insn) ir.

(** * Decode handlers *)

Definition decode_t : Type := rv_insn_t -> Z -> option (bool * rv_insn_t).

(** [ir->opcode = op; return true] and [return false]. *)
Definition accept (op : opcode_t) (ir : rv_insn_t) : option (bool * rv_insn_t) :=
  Some (true, set_opcode op ir).
Definition reject (ir : rv_insn_t) : option (bool * rv_insn_t) := Some (false, ir).

Definition op_load : decode_t := fun ir insn =>
  let ir := decode_itype ir insn in
  match decode_funct3 insn with
  | 0 => accept rv_insn_lb ir
  | 1 => accept rv_insn_lh ir
  | 2 => accept rv_insn_lw ir
  | 4 => accept rv_insn_lbu ir
  | 5 => accept rv_insn_lhu ir
  | _ => reject ir
  end.

Definition op_op_imm : decode_t := fun ir insn =>
  let ir := decode_itype ir insn in
  if ir.(rd) =? rv_reg_zero then accept rv_insn_nop ir
  else match decode_funct3 insn with
  | 0 => accept rv_insn_addi ir
  | 1 =>
      if ir.(imm) =? 0x600 then accept rv_insn_clz ir
      else if ir.(imm) =? 0x601 then accept rv_insn_ctz ir
      else if ir.(imm) =? 0x602 then accept rv_insn_cpop ir
      else if ir.(imm) =? 0x604 then accept rv_insn_sextb ir
      else if ir.(imm) =? 0x605 then accept rv_insn_sexth ir
      else if ir.(imm) ≫ 5 =? 0x24 then accept rv_insn_bclri ir
      else if ir.(imm) ≫ 5 =? 0x34 then accept rv_insn_binvi ir
      else if ir.(imm) ≫ 5 =? 0x14 then accept rv_insn_bseti ir
      else
        let ir := set_opcode rv_insn_slli ir in
        if truthy (ir.(imm) .& 0x20) then reject ir else Some (true, ir)
  | 2 => accept rv_insn_slti ir
  | 3 => accept rv_insn_sltiu ir
  | 4 => accept rv_insn_xori ir
  | 5 =>
      if ir.(imm) ≫ 5 =? 0x30 then accept rv_insn_rori ir
      else if ir.(imm) =? 0x287 then accept rv_insn_orcb ir
      else if ir.(imm) =? 0x698 then accept rv_insn_rev8 ir
      else if ir.(imm) ≫ 5 =? 0x24 then accept rv_insn_bexti ir
      else
        let ir := set_opcode (if truthy (ir.(imm) .& Z.lnot 0x1f)
                              then rv_insn_srai else rv_insn_srli) ir in
        if truthy (ir.(imm) .& 0x20) then reject ir else Some (true, ir)
  | 6 => accept rv_insn_ori ir
  | 7 => accept rv_insn_andi ir
  | _ => reject ir
  end.

Definition op_auipc : decode_t := fun ir insn =>
  let ir := decode_utype ir insn in
  if ir.(rd) =? rv_reg_zero then accept rv_insn_nop ir else accept rv_insn_auipc ir.

Definition op_store : decode_t := fun ir insn =>
  let ir := decode_stype ir insn in
  match decode_funct3 insn with
  | 0 => accept rv_insn_sb ir
  | 1 => accept rv_insn_sh ir
  | 2 => accept rv_insn_sw ir
  | _ => reject ir
  end.

Definition op_op : decode_t := fun ir insn =>
  let ir := decode_rtype ir insn in
  if ir.(rd) =? rv_reg_zero then accept rv_insn_nop ir
  else
    let funct3 := u8 (decode_funct3 insn) in
    match decode_funct7 insn with
    | 0x00 =>
        match funct3 with
        | 0 => accept rv_insn_add ir
        | 1 => accept rv_insn_sll ir
        | 2 => accept rv_insn_slt ir
        | 3 => accept rv_insn_sltu ir
        | 4 => accept rv_insn_xor ir
        | 5 => accept rv_insn_srl ir
        | 6 => accept rv_insn_or ir
        | 7 => accept rv_insn_and ir
        | _ => reject ir
        end
    | 0x01 =>
        match funct3 with
        | 0 => accept rv_insn_mul ir
        | 1 => accept rv_insn_mulh ir
        | 2 => accept rv_insn_mulhsu ir
        | 3 => accept rv_insn_mulhu ir
        | 4 => accept rv_insn_div ir
        | 5 => accept rv_insn_divu ir
        | 6 => accept rv_insn_rem ir
        | 7 => accept rv_insn_remu ir
        | _ => reject ir
        end
    | 0x10 =>
        match funct3 with
        | 2 => accept rv_insn_sh1add ir
        | 4 => accept rv_insn_sh2add ir
        | 6 => accept rv_insn_sh3add ir
        | _ => reject ir
        end
    | 0x05 =>
        match funct3 with
        | 6 => accept rv_insn_max ir
        | 4 => accept rv_insn_min ir
        | 7 => accept rv_insn_maxu ir
        | 5 => accept rv_insn_minu ir
        | 1 => accept rv_insn_clmul ir
        | 3 => accept rv_insn_clmulh ir
        | 2 => accept rv_insn_clmulr ir
        | _ => reject ir
        end
    | 0x30 =>
        match funct3 with
        | 1 => accept rv_insn_rol ir
        | 5 => accept rv_insn_ror ir
        | _ => reject ir
        end
    | 0x04 => if truthy ir.(rs2) then reject ir else accept rv_insn_zexth ir
    | 0x24 =>
        match funct3 with
        | 1 => accept rv_insn_bclr ir
        | 5 => accept rv_insn_bext ir
        | _ => reject ir
        end
    | 0x34 => if negb (funct3 =? 1) then reject ir else accept rv_insn_binv ir
    | 0x14 => if negb (funct3 =? 1) then reject ir else accept rv_insn_bset ir
    | 0x20 =>
        match funct3 with
        | 0 => accept rv_insn_sub ir
        | 5 => accept rv_insn_sra ir
        | 7 => accept rv_insn_andn ir
        | 6 => accept rv_insn_orn ir
        | 4 => accept rv_insn_xnor ir
        | _ => reject ir
        end
    | _ => reject ir
    end.

Definition op_lui : decode_t := fun ir insn =>
  let ir := decode_utype ir insn in
  if ir.(rd) =? rv_reg_zero then accept rv_insn_nop ir else accept rv_insn_lui ir.

Definition op_branch : decode_t := fun ir insn =>
  let ir := decode_btype ir insn in
  match decode_funct3 insn with
  | 0 => accept rv_insn_beq ir
  | 1 => accept rv_insn_bne ir
  | 4 => accept rv_insn_blt ir
  | 5 => accept rv_insn_bge ir
  | 6 => accept rv_insn_bltu ir
  | 7 => accept rv_insn_bgeu ir
  | _ => reject ir
  end.

Definition op_jalr : decode_t := fun ir insn =>
  accept rv_insn_jalr (decode_itype ir insn).

Definition op_jal : decode_t := fun ir insn =>
  accept rv_insn_jal (decode_jtype ir insn).

Definition csr_is_writable (csr : Z) : bool := csr <? 0xc00.

Definition op_system : decode_t := fun ir insn =>
  let ir := decode_itype ir insn in
  (* the final [return csr_is_writable(ir->imm) || (ir->rs1 == rv_reg_zero)] *)
  let finish op :=
    let ir := set_opcode op ir in
    Some (csr_is_writable (u32 ir.(imm)) || (ir.(rs1) =? rv_reg_zero), ir) in
  match decode_funct3 insn with
  | 0 =>
      if insn ≫ 25 =? 0x09 then finish rv_insn_sfencevma
      else match ir.(imm) with
      | 0 => finish rv_insn_ecall
      | 1 => finish rv_insn_ebreak
      | 0x105 => finish rv_insn_wfi
      | 0x002 | 0x202 => reject ir
      | 0x302 => finish rv_insn_mret
      | _ => reject ir
      end
  | 1 => finish rv_insn_csrrw
  | 2 => finish rv_insn_csrrs
  | 3 => finish rv_insn_csrrc
  | 5 => finish rv_insn_csrrwi
  | 6 => finish rv_insn_csrrsi
  | 7 => finish rv_insn_csrrci
  | _ => reject ir
  end.

Definition op_misc_mem : decode_t := fun ir insn =>
  match decode_funct3 insn with
  | 0 => accept rv_insn_fence ir
  | 1 => accept rv_insn_fencei ir
  | _ => reject ir
  end.

Definition op_amo : decode_t := fun ir insn =>
  let ir := decode_rtype ir insn in
  let funct5 := (decode_funct7 insn ≫ 2) .& 0x1f in
  match funct5 with
  | 0x02 => accept rv_insn_lrw ir
  | 0x03 => accept rv_insn_scw ir
  | 0x01 => accept rv_insn_amoswapw ir
  | 0x00 => accept rv_insn_amoaddw ir
  | 0x04 => accept rv_insn_amoxorw ir
  | 0x0c => accept rv_insn_amoandw ir
  | 0x08 => accept rv_insn_amoorw ir
  | 0x10 => accept rv_insn_amominw ir
  | 0x14 => accept rv_insn_amomaxw ir
  | 0x18 => accept rv_insn_amominuw ir
  | 0x1c => accept rv_insn_amomaxuw ir
  | _ => reject ir
  end.

Definition op_load_fp : decode_t := fun ir insn =>
  accept rv_insn_flw (decode_itype ir insn).

Definition op_store_fp : decode_t := fun ir insn =>
  accept rv_insn_fsw (decode_stype ir insn).

Definition op_op_fp : decode_t := fun ir insn =>
  let ir := set_rm (decode_funct3 insn) ir in
  let ir := decode_rtype ir insn in
  match decode_funct7 insn with
  | 0x00 => accept rv_insn_fadds ir
  | 0x04 => accept rv_insn_fsubs ir
  | 0x08 => accept rv_insn_fmuls ir
  | 0x0c => accept rv_insn_fdivs ir
  | 0x2c => accept rv_insn_fsqrts ir
  | 0x10 =>
      match ir.(rm) with
      | 0 => accept rv_insn_fsgnjs ir
      | 1 => accept rv_insn_fsgnjns ir
      | 2 => accept rv_insn_fsgnjxs ir
      | _ => reject ir
      end
  | 0x60 =>
      (* no default: another rs2 leaves the opcode unchanged *)
      match ir.(rs2) with
      | 0 => accept rv_insn_fcvtws ir
      | 1 => accept rv_insn_fcvtwus ir
      | _ => Some (true, ir)
      end
  | 0x14 =>
      match ir.(rm) with
      | 0 => accept rv_insn_fmins ir
      | 1 => accept rv_insn_fmaxs ir
      | _ => reject ir
      end
  | 0x70 =>
      match ir.(rm) with
      | 0 => accept rv_insn_fmvxw ir
      | 1 => accept rv_insn_fclasss ir
      | _ => reject ir
      end
  | 0x50 =>
      match ir.(rm) with
      | 2 => accept rv_insn_feqs ir
      | 1 => accept rv_insn_flts ir
      | 0 => accept rv_insn_fles ir
      | _ => reject ir
      end
  | 0x68 =>
      match ir.(rs2) with
      | 0 => accept rv_insn_fcvtsw ir
      | 1 => accept rv_insn_fcvtswu ir
      | _ => reject ir
      end
  | 0x78 => accept rv_insn_fmvwx ir
  | _ => reject ir
  end.

Definition op_madd : decode_t := fun ir insn => accept rv_insn_fmadds (decode_r4type ir insn).
Definition op_msub : decode_t := fun ir insn => accept rv_insn_fmsubs (decode_r4type ir insn).
Definition op_nmadd : decode_t := fun ir insn => accept rv_insn_fnmadds (decode_r4type ir insn).
Definition op_nmsub : decode_t := fun ir insn => accept rv_insn_fnmsubs (decode_r4type ir insn).

(** ** Compressed instructions *)

Definition op_caddi : decode_t := fun ir insn =>
  let ir := set_rd (c_decode_rd insn) ir in
  match ir.(rd) with
  | 0 => accept rv_insn_cnop ir
  | _ => accept rv_insn_caddi (set_imm (c_decode_citype_imm insn) ir)
  end.

Definition op_caddi4spn : decode_t := fun ir insn =>
  let ir := set_imm (c_decode_caddi4spn_nzuimm insn) ir in
  let ir := set_rd (c_decode_rdc insn .| 0x08) ir in
  if negb (truthy ir.(imm)) then reject ir else accept rv_insn_caddi4spn ir.

Definition op_cli : decode_t := fun ir insn =>
  let ir := set_imm (c_decode_citype_imm insn) ir in
  accept rv_insn_cli (set_rd (c_decode_rd insn) ir).

Definition op_clui : decode_t := fun ir insn =>
  let ir := set_rd (c_decode_rd insn) ir in
  match ir.(rd) with
  | 0 => accept rv_insn_cnop ir
  | 2 =>
      let ir := set_imm (c_decode_caddi16sp_nzimm insn) ir in
      if negb (truthy (u32 ir.(imm))) then reject ir else accept rv_insn_caddi16sp ir
  | _ =>
      let ir := set_imm (i32 (c_decode_clui_nzimm insn)) ir in
      if negb (truthy ir.(imm)) then reject ir else accept rv_insn_clui ir
  end.

Definition op_cmisc_alu : decode_t := fun ir insn =>
  let funct2 := u8 ((insn .& 0x0C00) ≫ 10) in
  match funct2 with
  | 0 =>
      let ir := set_shamt (c_decode_cbtype_shamt insn) ir in
      let ir := set_rs1 (c_decode_rs1c insn .| 0x08) ir in
      if truthy (ir.(shamt) .& 0x20) then reject ir
      else accept (if negb (truthy ir.(rs1)) || negb (truthy ir.(shamt))
                   then rv_insn_cnop else rv_insn_csrli) ir
  | 1 =>
      let ir := set_shamt (c_decode_cbtype_shamt insn) ir in
      let ir := set_rs1 (c_decode_rs1 insn) ir in
      if truthy (ir.(shamt) .& 0x20) then reject ir else accept rv_insn_csrai ir
  | 2 =>
      let ir := set_rs1 (c_decode_rs1c insn .| 0x08) ir in
      accept rv_insn_candi (set_imm (c_decode_caddi_imm insn) ir)
  | 3 =>
      let ir := set_rs1 (c_decode_rs1c insn .| 0x08) ir in
      let ir := set_rs2 (c_decode_rs2c insn .| 0x08) ir in
      let ir := set_rd ir.(rs1) ir in
      match ((insn .& 0x1000) ≫ 10) .| ((insn .& 0x0060) ≫ 5) with
      | 0 => accept rv_insn_csub ir
      | 1 => accept rv_insn_cxor ir
      | 2 => accept rv_insn_cor ir
      | 3 => accept rv_insn_cand ir
      | _ => None (* assert(!"RV64/128C instructions"), assert(!"Instruction reserved") *)
      end
  | _ => Some (true, ir)
  end.

Definition op_cslli : decode_t := fun ir insn =>
  let tmp := (insn .& FCI_IMM_12) ≫ 7 in
  let tmp := tmp .| ((insn .& FCI_IMM_6_2) ≫ 2) in
  let ir := set_imm (i32 tmp) ir in
  let ir := set_rd (c_decode_rd insn) ir in
  accept (if truthy ir.(rd) then rv_insn_cslli else rv_insn_cnop) ir.

Definition op_clwsp : decode_t := fun ir insn =>
  let tmp := u16 ((insn .& 0x70) ≫ 2) in
  let tmp := u16 (tmp .| ((insn .& 0x0c) ≪ 4)) in
  let tmp := u16 (tmp .| ((insn .& 0x1000) ≫ 7)) in
  let ir := set_imm tmp ir in
  let ir := set_rd (c_decode_rd insn) ir in
  accept (if truthy ir.(rd) then rv_insn_clwsp else rv_insn_cnop) ir.

Definition op_cswsp : decode_t := fun ir insn =>
  let ir := set_imm (((insn .& 0x1e00) ≫ 7) .| ((insn .& 0x180) ≫ 1)) ir in
  accept rv_insn_cswsp (set_rs2 (c_decode_rs2 insn) ir).

Definition op_clw : decode_t := fun ir insn =>
  let tmp := u16 ((insn .& 0x40) ≫ 4) in
  let tmp := u16 (tmp .| ((insn .& FC_IMM_12_10) ≫ 7)) in
  let tmp := u16 (tmp .| ((insn .& 0x20) ≪ 1)) in
  let ir := set_imm tmp ir in
  let ir := set_rd (c_decode_rdc insn .| 0x08) ir in
  accept rv_insn_clw (set_rs1 (c_decode_rs1c insn .| 0x08) ir).

Definition op_csw : decode_t := fun ir insn =>
  let tmp := (insn .& 0x40) ≫ 4 in
  let tmp := tmp .| ((insn .& FC_IMM_12_10) ≫ 7) in
  let tmp := tmp .| ((insn .& 0x20) ≪ 1) in
  let ir := set_imm tmp ir in
  let ir := set_rs1 (c_decode_rs1c insn .| 0x08) ir in
  accept rv_insn_csw (set_rs2 (c_decode_rs2c insn .| 0x08) ir).

Definition op_cj : decode_t := fun ir insn =>
  accept rv_insn_cj (set_imm (c_decode_cjtype_imm insn) ir).

Definition op_cjal : decode_t := fun ir insn =>
  accept rv_insn_cjal (set_imm (i32 (sign_extend_h (c_decode_cjtype_imm insn))) ir).

Definition op_ccr : decode_t := fun ir insn =>
  let ir := set_rs1 (c_decode_rs1 insn) ir in
  let ir := set_rs2 (c_decode_rs2 insn) ir in
  let ir := set_rd ir.(rs1) ir in
  match (insn .& 0x1000) ≫ 12 with
  | 0 =>
      match ir.(rs2) with
      | 0 => if negb (truthy ir.(rs1)) then reject ir else accept rv_insn_cjr ir
      | _ => accept (if truthy ir.(rd) then rv_insn_cmv else rv_insn_cnop) ir
      end
  | 1 =>
      if negb (truthy ir.(rs1)) && negb (truthy ir.(rs2)) then accept rv_insn_ebreak ir
      else if truthy ir.(rs1) && truthy ir.(rs2) then
        accept (if truthy ir.(rd) then rv_insn_cadd else rv_insn_cnop) ir
      else if truthy ir.(rs1) && negb (truthy ir.(rs2)) then accept rv_insn_cjalr ir
      else accept rv_insn_cnop ir
  | _ => None (* __UNREACHABLE *)
  end.

Definition op_cbeqz : decode_t := fun ir insn =>
  let ir := set_imm (i32 (sign_extend_h (c_decode_cbtype_imm insn))) ir in
  accept rv_insn_cbeqz (set_rs1 (c_decode_rs1c insn .| 0x08) ir).

Definition op_cbnez : decode_t := fun ir insn =>
  let ir := set_imm (i32 (sign_extend_h (c_decode_cbtype_imm insn))) ir in
  accept rv_insn_cbnez (set_rs1 (c_decode_rs1c insn .| 0x08) ir).

Definition op_cflwsp : decode_t := fun ir insn =>
  let tmp := u16 ((insn .& 0x70) ≫ 2) in
  let tmp := u16 (tmp .| ((insn .& 0x0c) ≪ 4)) in
  let tmp := u16 (tmp .| ((insn .& 0x1000) ≫ 7)) in
  let ir := set_imm tmp ir in
  accept rv_insn_cflwsp (set_rd (c_decode_rd insn) ir).

Definition op_cfswsp : decode_t := fun ir insn =>
  let ir := set_imm (((insn .& 0x1e00) ≫ 7) .| ((insn .& 0x180) ≫ 1)) ir in
  accept rv_insn_cfswsp (set_rs2 (c_decode_rs2 insn) ir).

Definition op_cflw : decode_t := fun ir insn =>
  let tmp := u16 ((insn .& 0x40) ≫ 4) in
  let tmp := u16 (tmp .| ((insn .& FC_IMM_12_10) ≫ 7)) in
  let tmp := u16 (tmp .| ((insn .& 0x20) ≪ 1)) in
  let ir := set_imm tmp ir in
  let ir := set_rd (c_decode_rdc insn .| 0x08) ir in
  accept rv_insn_cflw (set_rs1 (c_decode_rs1c insn .| 0x08) ir).

Definition op_cfsw : decode_t := fun ir insn =>
  let tmp := (insn .& 0x40) ≫ 4 in
  let tmp := tmp .| ((insn .& FC_IMM_12_10) ≫ 7) in
  let tmp := tmp .| ((insn .& 0x20) ≪ 1) in
  let ir := set_imm tmp ir in
  let ir := set_rs1 (c_decode_rs1c insn .| 0x08) ir in
  accept rv_insn_cfsw (set_rs2 (c_decode_rs2c insn .| 0x08) ir).

Definition op_unimp : decode_t := fun ir insn => reject ir.

(** * The decoder *)

Definition rv_jump_table : list decode_t :=
  [ op_load;   op_load_fp;  op_unimp; op_misc_mem; op_op_imm; op_auipc; op_unimp; op_unimp;
    op_store;  op_store_fp; op_unimp; op_amo;      op_op;     op_lui;   op_unimp; op_unimp;
    op_madd;   op_msub;     op_nmsub; op_nmadd;    op_op_fp;  op_unimp; op_unimp; op_unimp;
    op_branch; op_jalr;     op_unimp; op_jal;      op_system; op_unimp; op_unimp; op_unimp ].

Definition rvc_jump_table : list decode_t :=
  [ op_caddi4spn; op_caddi;     op_cslli;  op_unimp;
    op_unimp;     op_cjal;      op_unimp;  op_unimp;
    op_clw;       op_cli;       op_clwsp;  op_unimp;
    op_cflw;      op_clui;      op_cflwsp; op_unimp;
    op_unimp;     op_cmisc_alu; op_ccr;    op_unimp;
    op_unimp;     op_cj;        op_unimp;  op_unimp;
    op_csw;       op_cbeqz;     op_cswsp;  op_unimp;
    op_cfsw;      op_cbnez;     op_cfswsp; op_unimp ].

Definition table_lookup (t : list decode_t) (i : Z) : decode_t := nth (Z.to_nat i) t op_unimp.

Definition rv_decode (ir : rv_insn_t) (insn : Z) : option (bool * rv_insn_t) :=
  if is_compressed insn then
    let insn := insn .& 0x0000FFFF in
    let c_index := u16 (((insn .& FC_FUNC3) ≫ 11) .| (insn .& FC_OPCODE)) in
    table_lookup rvc_jump_table c_index ir insn
  else
    let index := (insn .& INSN_6_2) ≫ 2 in
    table_lookup rv_jump_table index ir insn.

(** Decoding into a zero-filled instruction, as every caller does. *)
Definition decode (insn : Z) : option (bool * rv_insn_t) := rv_decode rv_insn_zero insn.

Example decode_addi : decode 0x00500513 =
  Some (true, mk_rv_insn 5 10 0 0 rv_insn_addi 0 0 0 None 0 rv_insn_nop None None None).
Proof. vm_compute. reflexivity. Qed.
