(* ===== verification/DecodeSpec.v ===== *)
(** Correctness of the decoder: immediates against the bit layouts of the
    ISA manual, well-formedness of every decoded instruction, the assertion
    failures, and the round trip from an assembler. *)

From stdpp Require Import base list option numbers.
From Stdlib Require Import ZArith Lia Bool.
From S2P Require Import Prelude Bits Insn Decode.
#[local] Open Scope Z_scope.

(** * Fields as bit slices *)

Section Fields.
Context (insn : Z) (Hinsn : is_u32 insn).

Lemma decode_rd_field : decode_rd insn = field insn 7 5.
Proof. bits_eq [insn]. Qed.
Lemma decode_rs1_field : decode_rs1 insn = field insn 15 5.
Proof. bits_eq [insn]. Qed.
Lemma decode_rs2_field : decode_rs2 insn = field insn 20 5.
Proof. bits_eq [insn]. Qed.
Lemma decode_funct3_field : decode_funct3 insn = field insn 12 3.
Proof. bits_eq [insn]. Qed.
Lemma decode_funct7_field : decode_funct7 insn = field insn 25 7.
Proof. bits_eq [insn]. Qed.
Lemma decode_r4type_rs3_field : decode_r4type_rs3 insn = field insn 27 5.
Proof. bits_eq [insn]. Qed.
Lemma c_decode_rd_field : c_decode_rd insn = field insn 7 5.
Proof. bits_eq [insn]. Qed.
Lemma c_decode_rs1_field : c_decode_rs1 insn = field insn 7 5.
Proof. bits_eq [insn]. Qed.
Lemma c_decode_rs2_field : c_decode_rs2 insn = field insn 2 5.
Proof. bits_eq [insn]. Qed.
End Fields.

(** * Immediates *)

(** The immediate of every 32-bit format is the sign extension of the bit
    permutation the ISA manual prescribes: I, S, B and J immediates have 12,
    12, 13 and 21 bits, and the U immediate is bits 31:12 in place. *)
Theorem decode_imm_correct (insn : Z) (Hinsn : is_u32 insn) :
  decode_itype_imm insn = sx 12 (field insn 20 12) /\
  decode_stype_imm insn = sx 12 ((field insn 25 7 ≪ 5) .| field insn 7 5) /\
  decode_btype_imm insn =
    sx 13 ((field insn 31 1 ≪ 12) .| (field insn 7 1 ≪ 11) .| (field insn 25 6 ≪ 5)
           .| (field insn 8 4 ≪ 1)) /\
  decode_jtype_imm insn =
    sx 21 ((field insn 31 1 ≪ 20) .| (field insn 12 8 ≪ 12) .| (field insn 20 1 ≪ 11)
           .| (field insn 21 10 ≪ 1)) /\
  decode_utype_imm insn = field insn 12 20 ≪ 12.
Proof. repeat split; bits_eq [insn]. Qed.

Lemma decode_imm_correct_witness :
  is_u32 0xfe5ff0ef /\ decode_jtype_imm 0xfe5ff0ef = - 28.
Proof.
  split; [by vm_compute|].
  destruct (decode_imm_correct 0xfe5ff0ef) as (_ & _ & _ & H & _); [by vm_compute|].
  rewrite H. reflexivity.
Defined.

(** One round of the sign-replication loops: when the bits [b+1 .. b+i-1]
    already copy bit [b], bit [b+i] does afterwards. *)
Definition replicated (t b m : Z) : Z := u16 (t .| (if Z.testbit t b then m else 0)).

Lemma replicated_0 (x b : Z) : u16 x = replicated (u16 x) b 0.
Proof.
  unfold replicated. replace (if Z.testbit _ b then 0 else 0) with 0 by by destruct Z.testbit.
  rewrite Z.lor_0_r. unfold u16. by rewrite Z.mod_mod.
Qed.

Ltac replicate_step t b m i m' :=
  assert (u16 (replicated t b m .| ((2 ^ b .& replicated t b m) ≪ i)) = replicated t b m')
    as -> by (unfold replicated; bits_eq [t]).

(** The loop of [c_decode_cbtype_imm] replicates bit 8, the one of
    [c_decode_cjtype_imm] bit 11. *)
Lemma cbtype_loop (x : Z) :
  fold_left (fun tmp i => u16 (tmp .| ((0x0100 .& tmp) ≪ i))) [1; 2; 3; 4; 5; 6; 7; 8] (u16 x)
  = replicated (u16 x) 8 0xfe00.
Proof.
  pose proof (is_u32_u16 x) as Hu. rewrite (replicated_0 x 8) at 1.
  set (t := u16 x) in *. clearbody t. cbn [fold_left]. change 0x0100 with (2 ^ 8).
  replicate_step t 8 0 1 0x200. replicate_step t 8 0x200 2 0x600.
  replicate_step t 8 0x600 3 0xe00. replicate_step t 8 0xe00 4 0x1e00.
  replicate_step t 8 0x1e00 5 0x3e00. replicate_step t 8 0x3e00 6 0x7e00.
  replicate_step t 8 0x7e00 7 0xfe00. replicate_step t 8 0xfe00 8 0xfe00. done.
Qed.

Lemma cjtype_loop (x : Z) :
  fold_left (fun tmp i => u16 (tmp .| ((0x0800 .& tmp) ≪ i))) [1; 2; 3; 4] (u16 x)
  = replicated (u16 x) 11 0xf000.
Proof.
  pose proof (is_u32_u16 x) as Hu. rewrite (replicated_0 x 11) at 1.
  set (t := u16 x) in *. clearbody t. cbn [fold_left]. change 0x0800 with (2 ^ 11).
  replicate_step t 11 0 1 0x1000. replicate_step t 11 0x1000 2 0x3000.
  replicate_step t 11 0x3000 3 0x7000. replicate_step t 11 0x7000 4 0xf000. done.
Qed.

(** The immediates of the compressed formats: the loops that replicate the
    sign bit and the conditional masks compute the sign (or zero) extension of
    the scrambled immediate of the ISA manual. *)
Theorem c_decode_imm_correct (insn : Z) (Hinsn : is_u32 insn) :
  c_decode_citype_imm insn = sx 6 ((field insn 12 1 ≪ 5) .| field insn 2 5) /\
  c_decode_caddi_imm insn = sx 6 ((field insn 12 1 ≪ 5) .| field insn 2 5) /\
  c_decode_cjtype_imm insn =
    sx 12 ((field insn 12 1 ≪ 11) .| (field insn 8 1 ≪ 10) .| (field insn 9 2 ≪ 8)
           .| (field insn 6 1 ≪ 7) .| (field insn 7 1 ≪ 6) .| (field insn 2 1 ≪ 5)
           .| (field insn 11 1 ≪ 4) .| (field insn 3 3 ≪ 1)) /\
  i32 (sign_extend_h (c_decode_cbtype_imm insn)) =
    sx 9 ((field insn 12 1 ≪ 8) .| (field insn 5 2 ≪ 6) .| (field insn 2 1 ≪ 5)
          .| (field insn 10 2 ≪ 3) .| (field insn 3 2 ≪ 1)) /\
  c_decode_caddi16sp_nzimm insn =
    sx 10 ((field insn 12 1 ≪ 9) .| (field insn 3 2 ≪ 7) .| (field insn 5 1 ≪ 6)
           .| (field insn 2 1 ≪ 5) .| (field insn 6 1 ≪ 4)) /\
  i32 (c_decode_clui_nzimm insn) =
    sx 18 ((field insn 12 1 ≪ 17) .| (field insn 2 5 ≪ 12)) /\
  c_decode_caddi4spn_nzuimm insn =
    (field insn 7 4 ≪ 6) .| (field insn 11 2 ≪ 4) .| (field insn 5 1 ≪ 3)
    .| (field insn 6 1 ≪ 2) /\
  c_decode_cbtype_shamt insn = (field insn 12 1 ≪ 5) .| field insn 2 5.
Proof.
  unfold c_decode_cjtype_imm, c_decode_cbtype_imm.
  cbv zeta. rewrite cjtype_loop, cbtype_loop. unfold replicated.
  repeat split; bits_eq [insn].
Qed.

Lemma c_decode_imm_correct_witness :
  is_u32 0xbfdd /\ c_decode_cjtype_imm 0xbfdd = - 10.
Proof.
  split; [by vm_compute|].
  destruct (c_decode_imm_correct 0xbfdd) as (_ & _ & H & _); [by vm_compute|].
  rewrite H. reflexivity.
Defined.

(** * An assembler for the 32-bit formats

    [encoding] lists opcode, funct3, funct7 (or the immediate) of every
    32-bit instruction, transcribed from the ISA manual, independently of
    decode.c; [encode] lays the operands out. *)

(** The R layout: every other 32-bit format refills these six fields. *)
Definition enc_r (f7 r2 r1 f3 r opc : Z) : Z :=
  (f7 ≪ 25) .| (r2 ≪ 20) .| (r1 ≪ 15) .| (f3 ≪ 12) .| (r ≪ 7) .| opc.

Section EncR.
Context (f7 r2 r1 f3 r opc : Z).
Context (Hf7 : 0 <= f7 < 2 ^ 7) (Hr2 : 0 <= r2 < 2 ^ 5) (Hr1 : 0 <= r1 < 2 ^ 5).
Context (Hf3 : 0 <= f3 < 2 ^ 3) (Hr : 0 <= r < 2 ^ 5) (Hopc : 0 <= opc < 2 ^ 7).
Let w : Z := enc_r f7 r2 r1 f3 r opc.

Ltac enc_field :=
  subst w; rewrite <- (Z.mod_small f7 (2 ^ 7)), <- (Z.mod_small r2 (2 ^ 5)),
    <- (Z.mod_small r1 (2 ^ 5)), <- (Z.mod_small f3 (2 ^ 3)), <- (Z.mod_small r (2 ^ 5)),
    <- (Z.mod_small opc (2 ^ 7)) by assumption;
  assert (is_u32 f7) by (unfold is_u32; lia); assert (is_u32 r2) by (unfold is_u32; lia);
  assert (is_u32 r1) by (unfold is_u32; lia); assert (is_u32 f3) by (unfold is_u32; lia);
  assert (is_u32 r) by (unfold is_u32; lia); assert (is_u32 opc) by (unfold is_u32; lia);
  unfold enc_r; bits_eq [f7; r2; r1; f3; r; opc].

Lemma enc_r_mod : w mod 2 ^ 32 = w.
Proof. enc_field. Qed.
Lemma enc_r_opc : w .& 3 = opc .& 3.
Proof. enc_field. Qed.
Lemma enc_r_index : (w .& INSN_6_2) ≫ 2 = opc ≫ 2.
Proof. enc_field. Qed.
Lemma enc_r_rd : decode_rd w = r.
Proof. enc_field. Qed.
Lemma enc_r_rs1 : decode_rs1 w = r1.
Proof. enc_field. Qed.
Lemma enc_r_rs2 : decode_rs2 w = r2.
Proof. enc_field. Qed.
Lemma enc_r_funct3 : decode_funct3 w = f3.
Proof. enc_field. Qed.
Lemma enc_r_funct7 : decode_funct7 w = f7.
Proof. enc_field. Qed.
Lemma enc_r_funct7' : w ≫ 25 = f7.
Proof. enc_field. Qed.
Lemma enc_r_rs3 : decode_r4type_rs3 w = f7 ≫ 2.
Proof. enc_field. Qed.
Lemma enc_r_itype : decode_itype_imm w = sx 12 ((f7 ≪ 5) .| r2).
Proof. enc_field. Qed.
Lemma enc_r_stype : decode_stype_imm w = sx 12 ((f7 ≪ 5) .| r).
Proof. enc_field. Qed.
Lemma enc_r_btype :
  decode_btype_imm w =
  sx 13 ((field f7 6 1 ≪ 12) .| (field r 0 1 ≪ 11) .| (field f7 0 6 ≪ 5) .| (field r 1 4 ≪ 1)).
Proof. enc_field. Qed.
Lemma enc_r_utype :
  decode_utype_imm w = (f7 ≪ 25) .| (r2 ≪ 20) .| (r1 ≪ 15) .| (f3 ≪ 12).
Proof. enc_field. Qed.
Lemma enc_r_jtype :
  decode_jtype_imm w =
  sx 21 ((field f7 6 1 ≪ 20) .| (r1 ≪ 15) .| (f3 ≪ 12) .| (field r2 0 1 ≪ 11)
         .| (field f7 0 6 ≪ 5) .| (field r2 1 4 ≪ 1)).
Proof. enc_field. Qed.
End EncR.

Inductive format : Type :=
| FmtR (opc f3 f7 : Z)            (* rd, rs1, rs2 *)
| FmtAMO (f5 : Z)                 (* rd, rs1, rs2 and the ordering bits *)
| FmtRU (opc f3 f7 r2 : Z)        (* rd, rs1; rs2 selects the operation *)
| FmtI (opc f3 : Z)               (* rd, rs1, imm[11:0] *)
| FmtSh (f3 f7 : Z)               (* rd, rs1, shamt *)
| FmtS (opc f3 : Z)               (* rs1, rs2, imm[11:0] *)
| FmtB (f3 : Z)                   (* rs1, rs2, imm[12:1] *)
| FmtU (opc : Z)                  (* rd, imm[31:12] *)
| FmtJ                            (* rd, imm[20:1] *)
| FmtR4 (opc : Z)                 (* rd, rs1, rs2, rs3, rm *)
| FmtFR (f7 : Z)                  (* rd, rs1, rs2, rm *)
| FmtFU (f7 r2 : Z)               (* rd, rs1, rm *)
| FmtCSR (f3 : Z)                 (* rd, rs1 or uimm, csr *)
| FmtSys (f7 r2 : Z).             (* no operand *)

Definition encoding (o : opcode_t) : option format :=
  match o with
  | rv_insn_lui => Some (FmtU 0x37) | rv_insn_auipc => Some (FmtU 0x17)
  | rv_insn_jal => Some FmtJ | rv_insn_jalr => Some (FmtI 0x67 0)
  | rv_insn_beq => Some (FmtB 0) | rv_insn_bne => Some (FmtB 1)
  | rv_insn_blt => Some (FmtB 4) | rv_insn_bge => Some (FmtB 5)
  | rv_insn_bltu => Some (FmtB 6) | rv_insn_bgeu => Some (FmtB 7)
  | rv_insn_lb => Some (FmtI 0x03 0) | rv_insn_lh => Some (FmtI 0x03 1)
  | rv_insn_lw => Some (FmtI 0x03 2) | rv_insn_lbu => Some (FmtI 0x03 4)
  | rv_insn_lhu => Some (FmtI 0x03 5)
  | rv_insn_sb => Some (FmtS 0x23 0) | rv_insn_sh => Some (FmtS 0x23 1)
  | rv_insn_sw => Some (FmtS 0x23 2)
  | rv_insn_addi => Some (FmtI 0x13 0) | rv_insn_slti => Some (FmtI 0x13 2)
  | rv_insn_sltiu => Some (FmtI 0x13 3) | rv_insn_xori => Some (FmtI 0x13 4)
  | rv_insn_ori => Some (FmtI 0x13 6) | rv_insn_andi => Some (FmtI 0x13 7)
  | rv_insn_slli => Some (FmtSh 1 0) | rv_insn_srli => Some (FmtSh 5 0)
  | rv_insn_srai => Some (FmtSh 5 0x20)
  | rv_insn_add => Some (FmtR 0x33 0 0) | rv_insn_sub => Some (FmtR 0x33 0 0x20)
  | rv_insn_sll => Some (FmtR 0x33 1 0) | rv_insn_slt => Some (FmtR 0x33 2 0)
  | rv_insn_sltu => Some (FmtR 0x33 3 0) | rv_insn_xor => Some (FmtR 0x33 4 0)
  | rv_insn_srl => Some (FmtR 0x33 5 0) | rv_insn_sra => Some (FmtR 0x33 5 0x20)
  | rv_insn_or => Some (FmtR 0x33 6 0) | rv_insn_and => Some (FmtR 0x33 7 0)
  | rv_insn_ecall => Some (FmtSys 0 0) | rv_insn_ebreak => Some (FmtSys 0 1)
  | rv_insn_wfi => Some (FmtSys 0x08 5) | rv_insn_mret => Some (FmtSys 0x18 2)
  | rv_insn_csrrw => Some (FmtCSR 1) | rv_insn_csrrs => Some (FmtCSR 2)
  | rv_insn_csrrc => Some (FmtCSR 3) | rv_insn_csrrwi => Some (FmtCSR 5)
  | rv_insn_csrrsi => Some (FmtCSR 6) | rv_insn_csrrci => Some (FmtCSR 7)
  | rv_insn_mul => Some (FmtR 0x33 0 1) | rv_insn_mulh => Some (FmtR 0x33 1 1)
  | rv_insn_mulhsu => Some (FmtR 0x33 2 1) | rv_insn_mulhu => Some (FmtR 0x33 3 1)
  | rv_insn_div => Some (FmtR 0x33 4 1) | rv_insn_divu => Some (FmtR 0x33 5 1)
  | rv_insn_rem => Some (FmtR 0x33 6 1) | rv_insn_remu => Some (FmtR 0x33 7 1)
  | rv_insn_lrw => Some (FmtAMO 2) | rv_insn_scw => Some (FmtAMO 3)
  | rv_insn_amoswapw => Some (FmtAMO 1) | rv_insn_amoaddw => Some (FmtAMO 0)
  | rv_insn_amoxorw => Some (FmtAMO 4) | rv_insn_amoandw => Some (FmtAMO 0xc)
  | rv_insn_amoorw => Some (FmtAMO 8) | rv_insn_amominw => Some (FmtAMO 0x10)
  | rv_insn_amomaxw => Some (FmtAMO 0x14) | rv_insn_amominuw => Some (FmtAMO 0x18)
  | rv_insn_amomaxuw => Some (FmtAMO 0x1c)
  | rv_insn_flw => Some (FmtI 0x07 2) | rv_insn_fsw => Some (FmtS 0x27 2)
  | rv_insn_fmadds => Some (FmtR4 0x43) | rv_insn_fmsubs => Some (FmtR4 0x47)
  | rv_insn_fnmsubs => Some (FmtR4 0x4b) | rv_insn_fnmadds => Some (FmtR4 0x4f)
  | rv_insn_fadds => Some (FmtFR 0) | rv_insn_fsubs => Some (FmtFR 4)
  | rv_insn_fmuls => Some (FmtFR 8) | rv_insn_fdivs => Some (FmtFR 0xc)
  | rv_insn_fsqrts => Some (FmtFU 0x2c 0)
  | rv_insn_fsgnjs => Some (FmtR 0x53 0 0x10) | rv_insn_fsgnjns => Some (FmtR 0x53 1 0x10)
  | rv_insn_fsgnjxs => Some (FmtR 0x53 2 0x10)
  | rv_insn_fmins => Some (FmtR 0x53 0 0x14) | rv_insn_fmaxs => Some (FmtR 0x53 1 0x14)
  | rv_insn_fcvtws => Some (FmtFU 0x60 0) | rv_insn_fcvtwus => Some (FmtFU 0x60 1)
  | rv_insn_fmvxw => Some (FmtRU 0x53 0 0x70 0) | rv_insn_fclasss => Some (FmtRU 0x53 1 0x70 0)
  | rv_insn_feqs => Some (FmtR 0x53 2 0x50) | rv_insn_flts => Some (FmtR 0x53 1 0x50)
  | rv_insn_fles => Some (FmtR 0x53 0 0x50)
  | rv_insn_fcvtsw => Some (FmtFU 0x68 0) | rv_insn_fcvtswu => Some (FmtFU 0x68 1)
  | rv_insn_fmvwx => Some (FmtRU 0x53 0 0x78 0)
  | rv_insn_sh1add => Some (FmtR 0x33 2 0x10) | rv_insn_sh2add => Some (FmtR 0x33 4 0x10)
  | rv_insn_sh3add => Some (FmtR 0x33 6 0x10)
  | rv_insn_andn => Some (FmtR 0x33 7 0x20) | rv_insn_orn => Some (FmtR 0x33 6 0x20)
  | rv_insn_xnor => Some (FmtR 0x33 4 0x20)
  | rv_insn_clz => Some (FmtRU 0x13 1 0x30 0) | rv_insn_ctz => Some (FmtRU 0x13 1 0x30 1)
  | rv_insn_cpop => Some (FmtRU 0x13 1 0x30 2) | rv_insn_sextb => Some (FmtRU 0x13 1 0x30 4)
  | rv_insn_sexth => Some (FmtRU 0x13 1 0x30 5) | rv_insn_zexth => Some (FmtRU 0x33 4 0x04 0)
  | rv_insn_max => Some (FmtR 0x33 6 5) | rv_insn_maxu => Some (FmtR 0x33 7 5)
  | rv_insn_min => Some (FmtR 0x33 4 5) | rv_insn_minu => Some (FmtR 0x33 5 5)
  | rv_insn_rol => Some (FmtR 0x33 1 0x30) | rv_insn_ror => Some (FmtR 0x33 5 0x30)
  | rv_insn_rori => Some (FmtSh 5 0x30)
  | rv_insn_orcb => Some (FmtRU 0x13 5 0x14 7) | rv_insn_rev8 => Some (FmtRU 0x13 5 0x34 0x18)
  | rv_insn_clmul => Some (FmtR 0x33 1 5) | rv_insn_clmulh => Some (FmtR 0x33 3 5)
  | rv_insn_clmulr => Some (FmtR 0x33 2 5)
  | rv_insn_bclr => Some (FmtR 0x33 1 0x24) | rv_insn_bclri => Some (FmtSh 1 0x24)
  | rv_insn_bext => Some (FmtR 0x33 5 0x24) | rv_insn_bexti => Some (FmtSh 5 0x24)
  | rv_insn_binv => Some (FmtR 0x33 1 0x34) | rv_insn_binvi => Some (FmtSh 1 0x34)
  | rv_insn_bset => Some (FmtR 0x33 1 0x14) | rv_insn_bseti => Some (FmtSh 1 0x14)
  | _ => None
  end.

(** Operands: [o_csr] is also the two ordering bits of an AMO. *)
Record operands : Type := mk_operands {
  o_rd : Z; o_rs1 : Z; o_rs2 : Z; o_rs3 : Z; o_rm : Z; o_shamt : Z; o_csr : Z; o_imm : Z;
}.

Definition encode (f : format) (a : operands) : Z :=
  match f with
  | FmtR opc f3 f7 => enc_r f7 a.(o_rs2) a.(o_rs1) f3 a.(o_rd) opc
  | FmtAMO f5 => enc_r ((f5 ≪ 2) .| field a.(o_csr) 0 2) a.(o_rs2) a.(o_rs1) 2 a.(o_rd) 0x2f
  | FmtRU opc f3 f7 r2 => enc_r f7 r2 a.(o_rs1) f3 a.(o_rd) opc
  | FmtI opc f3 =>
      enc_r (field a.(o_imm) 5 7) (field a.(o_imm) 0 5) a.(o_rs1) f3 a.(o_rd) opc
  | FmtSh f3 f7 => enc_r f7 a.(o_shamt) a.(o_rs1) f3 a.(o_rd) 0x13
  | FmtS opc f3 =>
      enc_r (field a.(o_imm) 5 7) a.(o_rs2) a.(o_rs1) f3 (field a.(o_imm) 0 5) opc
  | FmtB f3 =>
      enc_r ((field a.(o_imm) 12 1 ≪ 6) .| field a.(o_imm) 5 6) a.(o_rs2) a.(o_rs1) f3
        ((field a.(o_imm) 1 4 ≪ 1) .| field a.(o_imm) 11 1) 0x63
  | FmtU opc =>
      enc_r (field a.(o_imm) 25 7) (field a.(o_imm) 20 5) (field a.(o_imm) 15 5)
        (field a.(o_imm) 12 3) a.(o_rd) opc
  | FmtJ =>
      enc_r ((field a.(o_imm) 20 1 ≪ 6) .| field a.(o_imm) 5 6)
        ((field a.(o_imm) 1 4 ≪ 1) .| field a.(o_imm) 11 1) (field a.(o_imm) 15 5)
        (field a.(o_imm) 12 3) a.(o_rd) 0x6f
  | FmtR4 opc => enc_r (a.(o_rs3) ≪ 2) a.(o_rs2) a.(o_rs1) a.(o_rm) a.(o_rd) opc
  | FmtFR f7 => enc_r f7 a.(o_rs2) a.(o_rs1) a.(o_rm) a.(o_rd) 0x53
  | FmtFU f7 r2 => enc_r f7 r2 a.(o_rs1) a.(o_rm) a.(o_rd) 0x53
  | FmtCSR f3 => enc_r (field a.(o_csr) 5 7) (field a.(o_csr) 0 5) a.(o_rs1) f3 a.(o_rd) 0x73
  | FmtSys f7 r2 => enc_r f7 r2 0 0 0 0x73
  end.

(** The immediate and the register fields the decoder must recover. *)
Definition immediate (f : format) (a : operands) : Z :=
  match f with
  | FmtRU 0x13 _ f7 r2 | FmtSys f7 r2 => sx 12 ((f7 ≪ 5) .| r2)
  | FmtSh _ f7 => sx 12 ((f7 ≪ 5) .| a.(o_shamt))
  | FmtI _ _ | FmtS _ _ | FmtB _ | FmtU _ | FmtJ => a.(o_imm)
  | FmtR4 _ => a.(o_rs3)
  | FmtCSR _ => sx 12 a.(o_csr)
  | _ => 0
  end.

Definition decoded (o : opcode_t) (f : format) (a : operands) : rv_insn_t :=
  let mk r r1 r2 m :=
    mk_rv_insn (immediate f a) r r1 r2 o 0 m 0 None 0 rv_insn_nop None None None in
  match f with
  | FmtR opc f3 _ => mk a.(o_rd) a.(o_rs1) a.(o_rs2) (if opc =? 0x53 then f3 else 0)
  | FmtAMO _ => mk a.(o_rd) a.(o_rs1) a.(o_rs2) 0
  | FmtRU opc f3 _ r2 =>
      mk a.(o_rd) a.(o_rs1) (if opc =? 0x13 then 0 else r2) (if opc =? 0x53 then f3 else 0)
  | FmtI _ _ | FmtSh _ _ | FmtCSR _ => mk a.(o_rd) a.(o_rs1) 0 0
  | FmtS _ _ | FmtB _ => mk 0 a.(o_rs1) a.(o_rs2) 0
  | FmtU _ | FmtJ => mk a.(o_rd) 0 0 0
  | FmtR4 _ | FmtFR _ => mk a.(o_rd) a.(o_rs1) a.(o_rs2) a.(o_rm)
  | FmtFU _ r2 => mk a.(o_rd) a.(o_rs1) r2 a.(o_rm)
  | FmtSys _ _ => mk 0 0 0 0
  end.

(** Operands in range: [rd] is not x0, and the CSRs at or above 0x800 are only
    read. *)
Definition imm_ok (f : format) (i : Z) : Prop :=
  match f with
  | FmtI _ _ | FmtS _ _ => - 2 ^ 11 <= i < 2 ^ 11
  | FmtB _ => - 2 ^ 12 <= i < 2 ^ 12 /\ i mod 2 = 0
  | FmtU _ => is_i32 i /\ i mod 2 ^ 12 = 0
  | FmtJ => - 2 ^ 20 <= i < 2 ^ 20 /\ i mod 2 = 0
  | _ => True
  end.

Record operands_ok (f : format) (a : operands) : Prop := {
  ok_rd : 0 < a.(o_rd) < 2 ^ 5;
  ok_rs1 : 0 <= a.(o_rs1) < 2 ^ 5;
  ok_rs2 : 0 <= a.(o_rs2) < 2 ^ 5;
  ok_rs3 : 0 <= a.(o_rs3) < 2 ^ 5;
  ok_rm : 0 <= a.(o_rm) < 2 ^ 3;
  ok_shamt : 0 <= a.(o_shamt) < 2 ^ 5;
  ok_csr : 0 <= a.(o_csr) < 2 ^ 12 /\ (a.(o_csr) < 0x800 \/ a.(o_rs1) = 0);
  ok_imm : imm_ok f a.(o_imm);
}.

Lemma u32_multiple (x k : Z) :
  0 <= k < 32 -> x mod 2 ^ k = 0 -> u32 x = (u32 x ≫ k) ≪ k.
Proof.
  intros Hk Hx. rewrite Z.shiftl_mul_pow2, Z.shiftr_div_pow2 by lia.
  unfold u32. rewrite <- (mod_pow2_mod x k 32) in Hx by lia.
  rewrite Z.mul_comm. apply Z.div_exact; [|done]. apply Z.pow_nonzero; lia.
Qed.

Ltac slices x n k :=
  rewrite <- (sx_id n x) at 1 by (simpl; lia); rewrite <- (sx_u32 n x) by lia;
  rewrite <- !(field_u32 x) by lia; rewrite (u32_multiple x k) by (lia || assumption || apply Z.mod_1_r);
  let v := fresh "v" in let Hv := fresh "Hv" in
  pose proof (u32_range x) as Hv; revert Hv; generalize (u32 x); intros v Hv; bits_eq [v].

Lemma imm_i_slices (i : Z) : - 2 ^ 11 <= i < 2 ^ 11 ->
  i = sx 12 ((field i 5 7 ≪ 5) .| field i 0 5).
Proof. intros. slices i 12 0. Qed.

Lemma imm_b_slices (i f7 r : Z) : - 2 ^ 12 <= i < 2 ^ 12 -> i mod 2 ^ 1 = 0 ->
  f7 = (field i 12 1 ≪ 6) .| field i 5 6 -> r = (field i 1 4 ≪ 1) .| field i 11 1 ->
  i = sx 13 ((field f7 6 1 ≪ 12) .| (field r 0 1 ≪ 11) .| (field f7 0 6 ≪ 5) .| (field r 1 4 ≪ 1)).
Proof. intros ?? -> ->. slices i 13 1. Qed.

Lemma imm_u_slices (i : Z) : is_i32 i -> i mod 2 ^ 12 = 0 ->
  i = i32 ((field i 25 7 ≪ 25) .| (field i 20 5 ≪ 20) .| (field i 15 5 ≪ 15) .| (field i 12 3 ≪ 12)).
Proof. unfold is_i32. intros. slices i 32 12. Qed.

Lemma imm_j_slices (i f7 r2 : Z) : - 2 ^ 20 <= i < 2 ^ 20 -> i mod 2 ^ 1 = 0 ->
  f7 = (field i 20 1 ≪ 6) .| field i 5 6 -> r2 = (field i 1 4 ≪ 1) .| field i 11 1 ->
  i = sx 21 ((field f7 6 1 ≪ 20) .| (field i 15 5 ≪ 15) .| (field i 12 3 ≪ 12)
             .| (field r2 0 1 ≪ 11) .| (field f7 0 6 ≪ 5) .| (field r2 1 4 ≪ 1)).
Proof. intros ?? -> ->. slices i 21 1. Qed.

Lemma csr_slices (c : Z) :
  0 <= c < 2 ^ 12 -> sx 12 ((field c 5 7 ≪ 5) .| field c 0 5) = sx 12 c.
Proof. intros. assert (is_u32 c) by (unfold is_u32; lia). bits_eq [c]. Qed.

Lemma csr_accepted (c r1 : Z) :
  0 <= c < 2 ^ 12 -> c < 0x800 \/ r1 = 0 ->
  csr_is_writable (u32 (sx 12 c)) || (r1 =? rv_reg_zero) = true.
Proof.
  intros Hc [Hlt| ->]; [|apply orb_true_r].
  rewrite sx_id by lia. rewrite u32_id by (unfold is_u32; lia).
  unfold csr_is_writable. rewrite (proj2 (Z.ltb_lt c 0xc00)) by lia. done.
Qed.

(** The view of an encoding the handlers take: every extracted field. *)
Record fields_of (w f7 r2 r1 f3 r opc : Z) : Prop := {
  fo_opc : w .& 3 = opc .& 3;
  fo_index : (w .& INSN_6_2) ≫ 2 = opc ≫ 2;
  fo_rd : decode_rd w = r;
  fo_rs1 : decode_rs1 w = r1;
  fo_rs2 : decode_rs2 w = r2;
  fo_funct3 : decode_funct3 w = f3;
  fo_funct7 : decode_funct7 w = f7;
  fo_funct7' : w ≫ 25 = f7;
  fo_rs3 : decode_r4type_rs3 w = f7 ≫ 2;
  fo_itype : decode_itype_imm w = sx 12 ((f7 ≪ 5) .| r2);
  fo_stype : decode_stype_imm w = sx 12 ((f7 ≪ 5) .| r);
  fo_btype : decode_btype_imm w =
    sx 13 ((field f7 6 1 ≪ 12) .| (field r 0 1 ≪ 11) .| (field f7 0 6 ≪ 5) .| (field r 1 4 ≪ 1));
  fo_utype : decode_utype_imm w = (f7 ≪ 25) .| (r2 ≪ 20) .| (r1 ≪ 15) .| (f3 ≪ 12);
  fo_jtype : decode_jtype_imm w =
    sx 21 ((field f7 6 1 ≪ 20) .| (r1 ≪ 15) .| (f3 ≪ 12) .| (field r2 0 1 ≪ 11)
           .| (field f7 0 6 ≪ 5) .| (field r2 1 4 ≪ 1));
}.

Lemma enc_r_fields (f7 r2 r1 f3 r opc : Z) :
  0 <= f7 < 2 ^ 7 -> 0 <= r2 < 2 ^ 5 -> 0 <= r1 < 2 ^ 5 -> 0 <= f3 < 2 ^ 3 ->
  0 <= r < 2 ^ 5 -> 0 <= opc < 2 ^ 7 -> fields_of (enc_r f7 r2 r1 f3 r opc) f7 r2 r1 f3 r opc.
Proof.
  intros. constructor;
    auto using enc_r_opc, enc_r_index, enc_r_rd, enc_r_rs1, enc_r_rs2, enc_r_funct3,
      enc_r_funct7, enc_r_funct7', enc_r_rs3, enc_r_itype, enc_r_stype, enc_r_btype,
      enc_r_utype, enc_r_jtype.
Qed.

Lemma field_fits (x lo n m : Z) : 0 <= n <= m -> 0 <= field x lo n < 2 ^ m.
Proof.
  intros. pose proof (field_range x lo n). pose proof (Z.pow_le_mono_r 2 n m). lia.
Qed.

Ltac field_bound :=
  first [ lia | apply field_fits; lia
        | apply lor_range; [lia | field_bound | field_bound]
        | eapply shiftl_range; [ | | | first [eassumption | apply field_range; lia]]; lia
        | solve [by vm_compute] ].

#[global] Arguments fo_opc {w f7 r2 r1 f3 r opc}.
#[global] Arguments fo_index {w f7 r2 r1 f3 r opc}.
#[global] Arguments fo_rd {w f7 r2 r1 f3 r opc}.
#[global] Arguments fo_rs1 {w f7 r2 r1 f3 r opc}.
#[global] Arguments fo_rs2 {w f7 r2 r1 f3 r opc}.
#[global] Arguments fo_rs3 {w f7 r2 r1 f3 r opc}.
#[global] Arguments fo_funct3 {w f7 r2 r1 f3 r opc}.
#[global] Arguments fo_funct7 {w f7 r2 r1 f3 r opc}.
#[global] Arguments fo_funct7' {w f7 r2 r1 f3 r opc}.
#[global] Arguments fo_itype {w f7 r2 r1 f3 r opc}.
#[global] Arguments fo_stype {w f7 r2 r1 f3 r opc}.
#[global] Arguments fo_btype {w f7 r2 r1 f3 r opc}.
#[global] Arguments fo_utype {w f7 r2 r1 f3 r opc}.
#[global] Arguments fo_jtype {w f7 r2 r1 f3 r opc}.

Create HintDb decoder discriminated.
#[local] Hint Unfold op_load op_op_imm op_auipc op_store op_op op_lui op_branch op_jalr op_jal
  op_system op_misc_mem op_amo op_load_fp op_store_fp op_op_fp op_madd op_msub op_nmadd op_nmsub
  decode_itype decode_utype decode_stype decode_rtype decode_btype decode_jtype decode_r4type
  accept reject rv_reg_zero rv_insn_zero : decoder.

(** Runs the decoder on [enc_r ...]: the word becomes an opaque variable that
    is only known through its fields. *)
Ltac open_fields Hw :=
  lazymatch goal with
  | |- context [enc_r ?f7 ?r2 ?r1 ?f3 ?r ?opc] =>
      assert (Hw : fields_of (enc_r f7 r2 r1 f3 r opc) f7 r2 r1 f3 r opc)
        by (apply enc_r_fields; field_bound);
      revert Hw; generalize (enc_r f7 r2 r1 f3 r opc); intros ? Hw
  end.

Ltac run_decoder Hw :=
  unfold decode, rv_decode, is_compressed, FC_OPCODE;
  rewrite (fo_opc Hw), (fo_index Hw);
  match goal with
  | |- context [table_lookup rv_jump_table ?i] =>
      let h := eval cbv in (Z.to_nat i) in
      change (table_lookup rv_jump_table i) with (nth h rv_jump_table op_unimp)
  end;
  cbn [nth rv_jump_table]; simpl (negb _); cbv iota; autounfold with decoder; cbv zeta;
  rewrite ?(fo_rd Hw), ?(fo_rs1 Hw), ?(fo_rs2 Hw), ?(fo_rs3 Hw), ?(fo_funct3 Hw),
    ?(fo_funct7 Hw), ?(fo_funct7' Hw), ?(fo_itype Hw), ?(fo_stype Hw), ?(fo_btype Hw),
    ?(fo_utype Hw), ?(fo_jtype Hw);
  cbn [set_imm set_rd set_rs1 set_rs2 set_opcode set_rs3 set_rm imm rd rs1 rs2 rm opcode
       shamt imm2 fuse pc impl branch_taken branch_untaken branch_table].

Lemma amo_funct5 (f5 c : Z) :
  0 <= f5 < 2 ^ 5 -> 0 <= c < 2 ^ 12 -> ((((f5 ≪ 2) .| field c 0 2) ≫ 2) .& 0x1f) = f5.
Proof.
  intros. assert (is_u32 f5) by (unfold is_u32; lia). assert (is_u32 c) by (unfold is_u32; lia).
  rewrite <- (Z.mod_small f5 (2 ^ 5)) by lia. bits_eq [f5; c].
Qed.

Lemma r4_rs3 (r3 : Z) : 0 <= r3 < 2 ^ 5 -> i32 (0 .& 0xffffff00 .| ((r3 ≪ 2) ≫ 2)) = r3.
Proof.
  intros. assert (is_u32 r3) by (unfold is_u32; lia).
  rewrite <- (Z.mod_small r3 (2 ^ 5)) by lia. bits_eq [r3].
Qed.

Ltac decode_step :=
  cbn [o_rd o_rs1 o_rs2 o_rs3 o_rm o_shamt o_csr o_imm imm_ok encode] in *;
  let Hw := fresh "Hw" in open_fields Hw; run_decoder Hw; clear Hw;
  repeat match goal with
  | |- context [?r =? 0] => rewrite (proj2 (Z.eqb_neq r 0)) by lia
  end.

Ltac decode_imm :=
  rewrite ?amo_funct5, ?csr_slices by lia; rewrite ?csr_accepted by (lia || assumption);
  unfold set_rs3; cbn [imm set_rd set_rs1 set_rs2]; rewrite ?r4_rs3 by lia;
  rewrite <- ?imm_i_slices by lia; rewrite <- ?imm_u_slices by tauto;
  match goal with
  | H : _ /\ ?i mod 2 = 0 |- context [sx 13 ?e] =>
      replace (sx 13 e) with i by (apply imm_b_slices; tauto)
  | H : _ /\ ?i mod 2 = 0 |- context [sx 21 ?e] =>
      replace (sx 21 e) with i by (apply imm_j_slices; tauto)
  | _ => idtac
  end.

(** C6. Decoding inverts assembling: for every instruction of the 32-bit base,
    M, A, F, Zicsr, Zba, Zbb, Zbc and Zbs sets, and every choice of operands in
    range, the decoder accepts the encoding of the ISA manual and recovers the
    opcode, the registers, the rounding mode and the immediate. *)
Theorem decode_encode (o : opcode_t) (f : format) (a : operands) :
  encoding o = Some f -> operands_ok f a -> decode (encode f a) = Some (true, decoded o f a).
Proof.
  destruct a as [a_rd a_rs1 a_rs2 a_rs3 a_rm s a_csr a_imm].
  destruct o; intros [= <-] [Hrd Hrs1 Hrs2 Hrs3 Hrm Hs [Hcsr Hro] Himm];
    decode_step; decode_imm; try reflexivity.
  all: pattern s; apply (five_bits _ s Hs); repeat constructor.
Qed.

Lemma decode_encode_witness :
  encode (FmtB 1) (mk_operands 1 10 0 0 0 0 0 (-8)) = 0xfe051ce3 /\
  decode 0xfe051ce3 =
    Some (true, mk_rv_insn (-8) 0 10 0 rv_insn_bne 0 0 0 None 0 rv_insn_nop None None None).
Proof.
  split; [reflexivity|].
  exact (decode_encode rv_insn_bne (FmtB 1) (mk_operands 1 10 0 0 0 0 0 (-8)) eq_refl
           ltac:(constructor; repeat split; first [by vm_compute | left; by vm_compute])).
Defined.
