(* ===== verification/DecodeWf.v ===== *)
(** Well-formedness of the decoder's output: the ranges of the fields of every
    decoded instruction, the length of its opcode, and the encodings on which
    the decoder runs into a failed assertion. *)

From stdpp Require Import base list option numbers.
From Stdlib Require Import ZArith Lia Bool.
From S2P Require Import Prelude Bits Insn Decode DecodeSpec.
#[local] Open Scope Z_scope.
(** * Well-formedness of decoded instructions *)

(** What the handlers of the emulator rely on: register fields index the
    register file, the immediate is an [int32_t], and nothing but the fields of
    the encoding is set. *)
Record ir_wf (ir : rv_insn_t) : Prop := {
  wf_rd : 0 <= ir.(rd) < 2 ^ 5;
  wf_rs1 : 0 <= ir.(rs1) < 2 ^ 5;
  wf_rs2 : 0 <= ir.(rs2) < 2 ^ 5;
  wf_imm : is_i32 ir.(imm);
  wf_shamt : 0 <= ir.(shamt) < 2 ^ 6;
  wf_rm : 0 <= ir.(rm) < 2 ^ 3;
  wf_clean : ir = mk_rv_insn ir.(imm) ir.(rd) ir.(rs1) ir.(rs2) ir.(opcode) ir.(shamt) ir.(rm)
                    0 None 0 rv_insn_nop None None None;
}.

(** Bounds from the bits: [x] is in range when truncating it changes nothing. *)
Lemma mod_range (x n : Z) : 0 <= n -> x = x mod 2 ^ n -> 0 <= x < 2 ^ n.
Proof. intros ? ->. by apply Z.mod_pos_bound, Z.pow_pos_nonneg. Qed.

Lemma i32_bits (x : Z) : x = i32 x -> is_i32 x.
Proof. intros ->. apply i32_range. Qed.

Section FieldRanges.
Context (insn : Z) (Hinsn : is_u32 insn).

Ltac by_bits := first [apply mod_range; [lia|] | apply i32_bits]; bits_eq [insn].

Lemma decode_rd_range : 0 <= decode_rd insn < 2 ^ 5.
Proof. by_bits. Qed.
Lemma decode_rs1_range : 0 <= decode_rs1 insn < 2 ^ 5.
Proof. by_bits. Qed.
Lemma decode_rs2_range : 0 <= decode_rs2 insn < 2 ^ 5.
Proof. by_bits. Qed.
Lemma decode_rs3_range : is_i32 (i32 (0 .& 0xffffff00 .| decode_r4type_rs3 insn)).
Proof. by_bits. Qed.
Lemma decode_rm_range : 0 <= decode_funct3 insn < 2 ^ 3.
Proof. by_bits. Qed.
Lemma decode_itype_range : is_i32 (decode_itype_imm insn).
Proof. by_bits. Qed.
Lemma decode_stype_range : is_i32 (decode_stype_imm insn).
Proof. by_bits. Qed.
Lemma decode_btype_range : is_i32 (decode_btype_imm insn).
Proof. by_bits. Qed.
Lemma decode_jtype_range : is_i32 (decode_jtype_imm insn).
Proof. by_bits. Qed.
Lemma c_decode_rd_range : 0 <= c_decode_rd insn < 2 ^ 5.
Proof. by_bits. Qed.
Lemma c_decode_rs1_range : 0 <= c_decode_rs1 insn < 2 ^ 5.
Proof. by_bits. Qed.
Lemma c_decode_rs2_range : 0 <= c_decode_rs2 insn < 2 ^ 5.
Proof. by_bits. Qed.
Lemma c_decode_rdc_range : 0 <= c_decode_rdc insn .| 0x08 < 2 ^ 5.
Proof. by_bits. Qed.
Lemma c_decode_rs1c_range : 0 <= c_decode_rs1c insn .| 0x08 < 2 ^ 5.
Proof. by_bits. Qed.
Lemma c_decode_rs2c_range : 0 <= c_decode_rs2c insn .| 0x08 < 2 ^ 5.
Proof. by_bits. Qed.
Lemma c_decode_citype_range : is_i32 (c_decode_citype_imm insn).
Proof. by_bits. Qed.
Lemma c_decode_caddi4spn_range : is_i32 (c_decode_caddi4spn_nzuimm insn).
Proof. by_bits. Qed.
Lemma c_decode_caddi16sp_range : is_i32 (c_decode_caddi16sp_nzimm insn).
Proof. apply i32_range. Qed.
Lemma c_decode_caddi_range : is_i32 (c_decode_caddi_imm insn).
Proof. apply i32_range. Qed.
Lemma c_decode_cjtype_range : is_i32 (c_decode_cjtype_imm insn).
Proof.
  unfold c_decode_cjtype_imm. cbv zeta. apply i32_bits.
  pose proof (is_u32_u16 0). unfold i32, i16.
  rewrite (sx_id 32); [done|lia|]. pose proof (sx_range 16). unfold is_i32. simpl in *.
  match goal with |- _ <= sx 16 ?x < _ => specialize (H0 x) end. lia.
Qed.
Lemma c_decode_shamt_range : 0 <= c_decode_cbtype_shamt insn < 2 ^ 6.
Proof. by_bits. Qed.
End FieldRanges.

#[export] Hint Resolve decode_rd_range decode_rs1_range decode_rs2_range decode_rs3_range
  decode_rm_range decode_itype_range decode_stype_range decode_btype_range decode_jtype_range
  c_decode_rd_range c_decode_rs1_range c_decode_rs2_range c_decode_rdc_range
  c_decode_rs1c_range c_decode_rs2c_range c_decode_citype_range c_decode_caddi4spn_range
  c_decode_caddi16sp_range c_decode_caddi_range c_decode_cjtype_range c_decode_shamt_range
  : rv.

(** The outcome of a handler on an encoding of [len] bytes: a filled
    instruction and, when it is accepted, an opcode of that length (C.EBREAK
    is decoded to the 32-bit [ebreak]) and a 5-bit shift amount. *)
Definition out_wf (len : Z) (r : option (bool * rv_insn_t)) : Prop :=
  match r with
  | Some (b, ir) =>
      ir_wf ir /\ ir.(opcode) ∈ RV_INSN_LIST /\
      (b = true -> (insn_len ir.(opcode) = len \/ ir.(opcode) = rv_insn_ebreak)
                   /\ ir.(shamt) < 2 ^ 5)
  | None => True
  end.

Lemma accept_wf (len : Z) (o : opcode_t) (ir : rv_insn_t) :
  ir_wf ir -> o ∈ RV_INSN_LIST -> insn_len o = len \/ o = rv_insn_ebreak -> ir.(shamt) < 2 ^ 5 ->
  out_wf len (accept o ir).
Proof.
  intros [? ? ? ? ? ? Hc] Ho Hl Hs. split; [|done].
  constructor; try done. rewrite Hc. done.
Qed.

Lemma reject_wf (len : Z) (ir : rv_insn_t) :
  ir_wf ir -> ir.(opcode) ∈ RV_INSN_LIST -> out_wf len (reject ir).
Proof. by intros. Qed.

Lemma keep_wf (len : Z) (ir : rv_insn_t) :
  ir_wf ir -> ir.(opcode) ∈ RV_INSN_LIST ->
  insn_len ir.(opcode) = len \/ ir.(opcode) = rv_insn_ebreak -> ir.(shamt) < 2 ^ 5 ->
  out_wf len (Some (true, ir)).
Proof. by intros. Qed.

#[export] Instance listed_dec (o : opcode_t) : Decision (o ∈ RV_INSN_LIST).
Proof. apply list_elem_of_dec. Defined.

Ltac listed := apply (bool_decide_unpack _); vm_compute; exact I.

(** Case analysis on every condition of a handler; the test of the shift
    amount is kept. *)
Ltac case_all :=
  repeat match goal with
  | |- out_wf _ (match truthy (shamt ?x .& ?m) with _ => _ end) => destruct (truthy (shamt x .& m)) eqn:?
  | |- out_wf _ (match ?x with _ => _ end) => destruct x
  | |- out_wf _ (accept (if ?x then _ else _) _) => destruct x
  | |- out_wf _ (Some (?a || ?b, _)) => destruct (a || b)
  | |- out_wf _ (Some (_, set_opcode (if ?x then _ else _) _)) => destruct x
  | |- out_wf _ (reject (set_opcode (if ?x then _ else _) _)) => destruct x
  end.

Lemma shamt_5bit (x : Z) : 0 <= x < 2 ^ 6 -> truthy (x .& 0x20) = false -> x < 2 ^ 5.
Proof.
  intros Hx. rewrite (truthy_land_bit x 0x20 5) by reflexivity. intros Hb.
  apply (mod_range x 5); [lia|]. apply Z.bits_inj'. intros i Hi. rewrite testbit_mod by lia.
  destruct (Z.ltb_spec i 5); [done|]. destruct (Z.eq_dec i 5) as [->|]; [done|].
  rewrite <- (Z.mod_small x (2 ^ 6)) by done. by rewrite Z.mod_pow2_bits_high by lia.
Qed.

Ltac solve_ir_wf :=
  constructor;
  cbv [imm rd rs1 rs2 opcode shamt rm imm2 fuse pc impl branch_taken branch_untaken branch_table
       set_imm set_rd set_rs1 set_rs2 set_opcode set_shamt set_rm set_rs3 rv_insn_zero
       decode_itype decode_utype decode_stype decode_rtype decode_btype decode_jtype decode_r4type];
  first [ reflexivity | lia | solve [auto with rv word]
        | lazymatch goal with insn : Z |- is_i32 _ => apply i32_bits; bits_eq [insn] end ].

Ltac handler_cases :=
  case_all;
  lazymatch goal with
  | |- out_wf _ None => exact I
  | |- out_wf _ (reject _) => apply reject_wf; [solve_ir_wf | listed]
  | |- out_wf _ (Some (false, _)) => apply reject_wf; [solve_ir_wf | listed]
  | |- out_wf _ (accept _ _) =>
      apply accept_wf;
      [ solve_ir_wf | listed | first [left; reflexivity | right; reflexivity]
      | first [ reflexivity | eapply shamt_5bit; [|eassumption]; cbn [shamt set_rs1 set_shamt];
                auto with rv ] ]
  | |- out_wf _ (Some (true, _)) =>
      first [ apply accept_wf | apply keep_wf ];
      [ solve_ir_wf | listed | left; reflexivity | reflexivity ]
  end.

Ltac handler_wf :=
  intros insn Hinsn; autounfold with handlers; cbv beta zeta; handler_cases.

Create HintDb handlers discriminated.
#[export] Hint Unfold op_load op_op_imm op_auipc op_store op_op op_lui op_branch op_jalr op_jal
  op_system op_misc_mem op_amo op_load_fp op_store_fp op_op_fp op_madd op_msub op_nmadd op_nmsub
  op_unimp op_caddi op_caddi4spn op_cli op_clui op_cmisc_alu op_cslli op_clwsp op_cswsp op_clw
  op_csw op_cj op_cjal op_ccr op_cbeqz op_cbnez op_cflwsp op_cfswsp op_cflw op_cfsw : handlers.

Definition handler_ok (len : Z) (h : decode_t) : Prop :=
  forall insn, is_u32 insn -> out_wf len (h rv_insn_zero insn).


(** The two-bit selector has no fifth case. *)
Lemma op_cmisc_alu_wf : handler_ok 2 op_cmisc_alu.
Proof.
  intros insn Hinsn. unfold op_cmisc_alu.
  assert (Hf : 0 <= u8 ((insn .& 0x0C00) ≫ 10) < 2 ^ 2) by (apply mod_range; [lia|bits_eq [insn]]).
  destruct (u8 ((insn .& 0x0C00) ≫ 10)) as [|[[]|[]|]|] eqn:?; try lia; cbv beta zeta; handler_cases.
Qed.

Ltac table_entry :=
  lazymatch goal with
  | |- handler_ok 2 op_cmisc_alu => exact op_cmisc_alu_wf
  | |- _ => handler_wf
  end.

Lemma rv_jump_table_wf : Forall (handler_ok 4) rv_jump_table.
Proof. repeat (apply List.Forall_cons; [table_entry|]). apply List.Forall_nil. Qed.

Lemma rvc_jump_table_wf : Forall (handler_ok 2) rvc_jump_table.
Proof. repeat (apply List.Forall_cons; [table_entry|]). apply List.Forall_nil. Qed.

Lemma table_lookup_wf (len : Z) (t : list decode_t) (i : Z) :
  Forall (handler_ok len) t -> handler_ok len (table_lookup t i).
Proof.
  intros Ht. unfold table_lookup.
  destruct (nth_in_or_default (Z.to_nat i) t op_unimp) as [Hin| ->].
  - apply (proj1 (List.Forall_forall _ _) Ht _ Hin).
  - handler_wf.
Qed.

Lemma decode_out_wf (insn : Z) :
  is_u32 insn -> out_wf (if is_compressed insn then 2 else 4) (decode insn).
Proof.
  intros Hinsn. unfold decode, rv_decode. destruct (is_compressed insn).
  - apply (table_lookup_wf 2 _ _ rvc_jump_table_wf). by apply u32_land_l.
  - by apply (table_lookup_wf 4 _ _ rv_jump_table_wf).
Qed.

(** C20. Whatever 32-bit word is fetched, the decoder either fails an assertion
    or fills an instruction whose register fields are below 32, whose immediate
    is an [int32_t] and whose run-time fields (fused sequence, cached branch
    targets) are clear; an accepted instruction has a 5-bit shift amount and an
    opcode whose length is that of the encoding, except C.EBREAK, which becomes
    the 4-byte [ebreak]. *)
Theorem decode_wf (insn : Z) (b : bool) (ir : rv_insn_t) :
  is_u32 insn -> decode insn = Some (b, ir) ->
  ir_wf ir /\ ir.(opcode) ∈ RV_INSN_LIST /\
  (b = true ->
   (insn_len ir.(opcode) = (if is_compressed insn then 2 else 4) \/ ir.(opcode) = rv_insn_ebreak)
   /\ ir.(shamt) < 2 ^ 5).
Proof.
  intros Hinsn Hd. pose proof (decode_out_wf insn Hinsn) as Hw.
  rewrite Hd in Hw. exact Hw.
Qed.

Lemma decode_wf_witness :
  let ir := mk_rv_insn 0 0 0 0 rv_insn_ebreak 0 0 0 None 0 rv_insn_nop None None None in
  decode 0x9002 = Some (true, ir) /\ is_compressed 0x9002 = true /\ insn_len ir.(opcode) = 4 /\
  ir_wf ir.
Proof.
  set (ir := mk_rv_insn _ _ _ _ _ _ _ _ _ _ _ _ _ _).
  assert (Hd : decode 0x9002 = Some (true, ir)) by (vm_compute; reflexivity).
  split; [exact Hd|]. split; [reflexivity|]. split; [reflexivity|].
  exact (proj1 (decode_wf 0x9002 true ir ltac:(by vm_compute) Hd)).
Defined.

(** * Failed assertions *)

Definition never_asserts (h : decode_t) : Prop :=
  forall insn, is_u32 insn -> h rv_insn_zero insn <> None.

Ltac no_assert :=
  intros insn Hinsn; autounfold with handlers; unfold accept, reject; cbv beta zeta;
  repeat match goal with
  | |- context [match ?x with _ => _ end] =>
      lazymatch x with
      | context [match _ with _ => _ end] => fail
      | _ => destruct x
      end
  end; discriminate.

Lemma rv_jump_table_asserts : Forall never_asserts rv_jump_table.
Proof. repeat (apply List.Forall_cons; [no_assert|]). apply List.Forall_nil. Qed.

Lemma op_ccr_asserts : never_asserts op_ccr.
Proof.
  intros insn Hinsn. unfold op_ccr.
  assert (Hf : 0 <= (insn .& 0x1000) ≫ 12 < 2 ^ 1) by (apply mod_range; [lia|bits_eq [insn]]).
  destruct ((insn .& 0x1000) ≫ 12) as [|[[]|[]|]|] eqn:?; try lia; unfold accept, reject;
    repeat case_match; discriminate.
Qed.

Lemma op_cmisc_alu_asserts (insn : Z) :
  is_u32 insn -> op_cmisc_alu rv_insn_zero insn = None <-> field insn 10 3 = 7.
Proof.
  intros Hinsn. unfold op_cmisc_alu, accept, reject.
  assert (Hf : 0 <= field insn 10 2 < 2 ^ 2) by (by apply field_range).
  assert (Hb : 0 <= field insn 12 1 < 2 ^ 1) by (by apply field_range).
  assert (Hg : 0 <= field insn 5 2 < 2 ^ 2) by (by apply field_range).
  replace (u8 ((insn .& 0x0C00) ≫ 10)) with (field insn 10 2) by bits_eq [insn].
  replace (((insn .& 0x1000) ≫ 10) .| ((insn .& 0x0060) ≫ 5))
    with ((field insn 12 1 ≪ 2) .| field insn 5 2) by bits_eq [insn].
  replace (field insn 10 3) with ((field insn 12 1 ≪ 2) .| field insn 10 2) by bits_eq [insn].
  destruct (field insn 10 2) as [|[[]|[]|]|]; try lia;
    destruct (field insn 12 1) as [|[[]|[]|]|]; try lia;
    destruct (field insn 5 2) as [|[[]|[]|]|]; try lia; cbn;
    repeat case_match; split; intros; try discriminate; done.
Qed.

Lemma table_lookup_asserts (t : list decode_t) (i : Z) :
  Forall never_asserts t -> never_asserts (table_lookup t i).
Proof.
  intros Ht. unfold table_lookup.
  destruct (nth_in_or_default (Z.to_nat i) t op_unimp) as [Hin| ->].
  - apply (proj1 (List.Forall_forall _ _) Ht _ Hin).
  - no_assert.
Qed.

(** One entry of the compressed table: only [op_cmisc_alu] can fail. *)
Ltac rvc_entry Hinsn :=
  lazymatch goal with
  | |- context [table_lookup rvc_jump_table ?i] =>
      let v := eval vm_compute in i in
      let h := eval cbv [table_lookup rvc_jump_table nth Z.to_nat Pos.to_nat Pos.iter_op Nat.add]
        in (table_lookup rvc_jump_table v) in
      change (table_lookup rvc_jump_table i) with h; change i with v
  end;
  lazymatch goal with
  | |- context [op_cmisc_alu] => rewrite (op_cmisc_alu_asserts _ Hinsn); tauto
  | |- context [op_ccr] => pose proof (op_ccr_asserts _ Hinsn); intuition lia
  | |- ?h rv_insn_zero _ = None <-> _ =>
      let H := fresh in
      assert (H : never_asserts h) by (clear; no_assert); specialize (H _ Hinsn); intuition lia
  end.

Lemma rvc_jump_table_asserts (i insn : Z) :
  0 <= i < 2 ^ 5 -> is_u32 insn ->
  table_lookup rvc_jump_table i rv_insn_zero insn = None <-> i = 17 /\ field insn 10 3 = 7.
Proof.
  intros Hi Hinsn. pattern i. apply (five_bits _ i Hi).
  repeat apply List.Forall_cons; try apply List.Forall_nil; rvc_entry Hinsn.
Qed.

(** C21. The decoder aborts the emulator through a failed [assert] exactly on the
    reserved and RV64 encodings of the C.SUB group: quadrant 1, funct3 = 100,
    bit 12 set and funct2 = 11.  On every other word it returns. *)
Theorem decode_assert_iff (insn : Z) :
  is_u32 insn ->
  decode insn = None <-> field insn 0 2 = 1 /\ field insn 13 3 = 4 /\ field insn 10 3 = 7.
Proof.
  intros Hinsn. unfold decode, rv_decode, is_compressed, FC_OPCODE.
  replace (insn .& 3) with (field insn 0 2) by bits_eq [insn].
  assert (H2 : 0 <= field insn 0 2 < 2 ^ 2) by (by apply field_range).
  destruct (Z.eqb_spec (field insn 0 2) 3) as [H3|H3]; simpl negb; cbv iota zeta.
  - split; [|lia]. intros H. exfalso. revert H.
    by apply (table_lookup_asserts _ _ rv_jump_table_asserts).
  - rewrite rvc_jump_table_asserts; [| |by apply u32_land_l];
      [|apply mod_range; [lia|bits_eq [insn]]].
    replace (field (insn .& 0x0000FFFF) 10 3) with (field insn 10 3) by bits_eq [insn].
    replace (u16 _) with ((field insn 13 3 ≪ 2) .| field insn 0 2) by bits_eq [insn].
    assert (H13 : 0 <= field insn 13 3 < 2 ^ 3) by (by apply field_range).
    assert ((field insn 13 3 ≪ 2) .| field insn 0 2 = 17
            <-> field insn 0 2 = 1 /\ field insn 13 3 = 4) as ->; [|tauto].
    destruct (field insn 0 2) as [|[[]|[]|]|]; try lia;
      destruct (field insn 13 3) as [|[[[]|[]|]|[[]|[]|]|]|]; try lia; vm_compute;
      intuition congruence.
Qed.

Lemma decode_assert_iff_witness : is_u32 0x9c41 /\ decode 0x9c41 = None.
Proof. split; [by vm_compute|]. apply decode_assert_iff; by vm_compute. Defined.
