(* ===== verification/Mem.v ===== *)
(** Guest memory (io.c, io.h and the RAM fast path of riscv_private.h).

    [memory_t] is the host allocation: [mem_base] holds the bytes, all zero at
    first, and [mem_size] bytes are allocated.  The host is little-endian, as
    the [memcpy] accesses of the source assume.  The accessors do not check
    bounds: touching a byte outside the allocation is undefined and gives
    [None]. *)

From stdpp Require Import base list option numbers gmap.
From Stdlib Require Import ZArith Lia Bool.
From S2P Require Import Prelude Bits.
#[local] Open Scope Z_scope.

Record memory_t : Type := mk_memory {
  mem_base : gmap Z Z; (* uint8_t; absent bytes are zero *)
  mem_size : Z; (* uint64_t *)
}.

Definition mem_byte (m : memory_t) (a : Z) : Z := default 0 (m.(mem_base) !! a).

Definition GUEST_RAM_CONTAINS (m : memory_t) (addr size : Z) : bool :=
  (addr <? m.(mem_size)) && (size <=? m.(mem_size) - addr).

(** * Raw copies: [memcpy] between a little-endian integer and the bytes *)

Fixpoint load_le (n : nat) (m : memory_t) (a : Z) : Z :=
  match n with
  | O => 0
  | S n' => mem_byte m a .| (load_le n' m (a + 1) ≪ 8)
  end.

Definition set_byte (m : memory_t) (a v : Z) : memory_t :=
  mk_memory (<[a := u8 v]> m.(mem_base)) m.(mem_size).

Fixpoint store_le (n : nat) (m : memory_t) (a v : Z) : memory_t :=
  match n with
  | O => m
  | S n' => store_le n' (set_byte m a v) (a + 1) (v ≫ 8)
  end.

Fixpoint store_bytes (m : memory_t) (a : Z) (src : list Z) : memory_t :=
  match src with
  | [] => m
  | v :: src' => store_bytes (set_byte m a v) (a + 1) src'
  end.

Fixpoint load_bytes (n : nat) (m : memory_t) (a : Z) : list Z :=
  match n with
  | O => []
  | S n' => mem_byte m a :: load_bytes n' m (a + 1)
  end.

Definition checked_load (n : nat) (m : memory_t) (a : Z) : option Z :=
  if GUEST_RAM_CONTAINS m a (Z.of_nat n) then Some (load_le n m a) else None.

Definition checked_store (n : nat) (m : memory_t) (a v : Z) : option memory_t :=
  if GUEST_RAM_CONTAINS m a (Z.of_nat n) then Some (store_le n m a v) else None.

(** * io.c *)

(** Allocation succeeds for sizes of 1 byte to 4 GiB; [alloc] says whether the
    host gives the memory. *)
Definition memory_new (alloc : bool) (size : Z) : option memory_t :=
  if size =? 0 then None
  else if 0x100000000 <? size then None
  else if alloc then Some (mk_memory ∅ size) else None.

Definition memory_ifetch (m : memory_t) (addr : Z) : option Z := checked_load 4 m addr.
Definition memory_read_w (m : memory_t) (addr : Z) : option Z := checked_load 4 m addr.
Definition memory_read_s (m : memory_t) (addr : Z) : option Z := checked_load 2 m addr.
Definition memory_read_b (m : memory_t) (addr : Z) : option Z := checked_load 1 m addr.
Definition memory_write_w (m : memory_t) (addr v : Z) : option memory_t := checked_store 4 m addr v.
Definition memory_write_s (m : memory_t) (addr v : Z) : option memory_t := checked_store 2 m addr v.
Definition memory_write_b (m : memory_t) (addr v : Z) : option memory_t := checked_store 1 m addr v.

Definition memory_read (m : memory_t) (addr size : Z) : option (list Z) :=
  if (size =? 0) || GUEST_RAM_CONTAINS m addr size
  then Some (load_bytes (Z.to_nat size) m addr) else None.

(** The two checked bulk operations of io.h return a success flag. *)
Definition memory_write (m : memory_t) (addr : Z) (src : list Z) : bool * memory_t :=
  let size := Z.of_nat (length src) in
  if (m.(mem_size) <=? addr) || (m.(mem_size) - addr <? size) then (false, m)
  else (true, store_bytes m addr src).

Definition memory_fill (m : memory_t) (addr size val : Z) : bool * memory_t :=
  if (m.(mem_size) <=? addr) || (m.(mem_size) - addr <? size) then (false, m)
  else (true, store_bytes m addr (replicate (Z.to_nat size) val)).

(** * The RAM fast path (riscv_private.h) *)

Definition ram_read_w (m : memory_t) (addr : Z) : option Z := checked_load 4 m addr.
Definition ram_read_s (m : memory_t) (addr : Z) : option Z := checked_load 2 m addr.
Definition ram_read_b (m : memory_t) (addr : Z) : option Z := checked_load 1 m addr.
Definition ram_write_w (m : memory_t) (addr v : Z) : option memory_t := checked_store 4 m addr v.
Definition ram_write_s (m : memory_t) (addr v : Z) : option memory_t :=
  checked_store 2 m addr (u16 v).
Definition ram_write_b (m : memory_t) (addr v : Z) : option memory_t :=
  checked_store 1 m addr (u8 v).

(** * Well-formedness *)

(** Every stored byte is a [uint8_t], and the allocation fits 4 GiB. *)
Record mem_wf (m : memory_t) : Prop := {
  mwf_bytes : forall a v, m.(mem_base) !! a = Some v -> 0 <= v < 2 ^ 8;
  mwf_size : 0 < m.(mem_size) <= 2 ^ 32;
}.

Lemma mem_byte_range (m : memory_t) (a : Z) : mem_wf m -> 0 <= mem_byte m a < 2 ^ 8.
Proof.
  intros [Hb _]. unfold mem_byte. destruct (mem_base m !! a) eqn:Ha; simpl; [by eapply Hb|lia].
Qed.

Lemma set_byte_wf (m : memory_t) (a v : Z) : mem_wf m -> mem_wf (set_byte m a v).
Proof.
  intros [Hb Hs]. constructor; [|done]. intros a' v'. simpl.
  rewrite lookup_insert_Some. intros [[_ <-]|[_ ?]]; [|by eapply Hb].
  unfold u8. apply Z.mod_pos_bound. lia.
Qed.

Lemma store_le_wf (n : nat) (m : memory_t) (a v : Z) : mem_wf m -> mem_wf (store_le n m a v).
Proof. revert m a v. induction n; simpl; auto using set_byte_wf. Qed.

Lemma store_bytes_wf (m : memory_t) (a : Z) (l : list Z) : mem_wf m -> mem_wf (store_bytes m a l).
Proof. revert m a. induction l; simpl; auto using set_byte_wf. Qed.

Lemma store_le_size (n : nat) (m : memory_t) (a v : Z) : mem_size (store_le n m a v) = mem_size m.
Proof. revert m a v. induction n as [|n IH]; simpl; intros; [done|]. by rewrite IH. Qed.

Lemma load_le_range (n : nat) (m : memory_t) (a : Z) :
  mem_wf m -> 0 <= load_le n m a < 2 ^ (8 * Z.of_nat n).
Proof.
  intros Hm. revert a. induction n as [|n IH]; intros a; [simpl; lia|].
  cbn [load_le]. pose proof (mem_byte_range m a Hm). specialize (IH (a + 1)).
  apply lor_range; [lia| |].
  - split; [lia|]. apply Z.lt_le_trans with (2 ^ 8); [lia|]. apply Z.pow_le_mono_r; lia.
  - eapply shiftl_range; [| | |exact IH]; lia.
Qed.
