(* ===== verification/MemSpec.v ===== *)
(** Laws of guest memory: what a load returns after a store, what the bulk
    operations change, and how wide accesses split into narrow ones. *)

From stdpp Require Import base list option numbers gmap.
From Stdlib Require Import ZArith Lia Bool.
From S2P Require Import Prelude Bits Mem.
#[local] Open Scope Z_scope.

(** * Bytes after a store *)

Lemma mem_byte_set (m : memory_t) (a v b : Z) :
  mem_byte (set_byte m a v) b = if a =? b then u8 v else mem_byte m b.
Proof.
  unfold mem_byte. simpl. destruct (Z.eqb_spec a b) as [->|Hne].
  - by rewrite lookup_insert_eq.
  - by rewrite lookup_insert_ne.
Qed.

Lemma mem_byte_store_le (n : nat) (m : memory_t) (a v b : Z) :
  mem_byte (store_le n m a v) b =
  if (a <=? b) && (b <? a + Z.of_nat n) then u8 (v ≫ (8 * (b - a))) else mem_byte m b.
Proof.
  revert m a v. induction n as [|n IH]; intros m a v; cbn [store_le].
  - destruct (Z.leb_spec a b), (Z.ltb_spec b (a + Z.of_nat 0)); simpl; lia || done.
  - rewrite IH, mem_byte_set.
    destruct (Z.leb_spec (a + 1) b), (Z.ltb_spec b (a + 1 + Z.of_nat n)),
      (Z.leb_spec a b), (Z.ltb_spec b (a + Z.of_nat (S n))), (Z.eqb_spec a b);
      try lia; cbn [andb]; try done.
    + f_equal. rewrite Z.shiftr_shiftr by lia. f_equal. lia.
    + subst. rewrite Z.sub_diag. done.
Qed.

Lemma mem_byte_store_bytes (m : memory_t) (a : Z) (l : list Z) (b : Z) :
  mem_byte (store_bytes m a l) b =
  match (if a <=? b then l !! Z.to_nat (b - a) else None) with
  | Some v => u8 v
  | None => mem_byte m b
  end.
Proof.
  revert m a. induction l as [|v l IH]; intros m a; cbn [store_bytes].
  - destruct (a <=? b); done.
  - rewrite IH, mem_byte_set.
    destruct (Z.leb_spec (a + 1) b), (Z.leb_spec a b), (Z.eqb_spec a b); try lia; try done.
    + replace (Z.to_nat (b - a)) with (S (Z.to_nat (b - (a + 1)))) by lia. done.
    + subst. rewrite Z.sub_diag. done.
Qed.

(** A load only depends on the bytes it covers. *)
Lemma load_le_ext (n : nat) (m m' : memory_t) (a : Z) :
  (forall b, a <= b < a + Z.of_nat n -> mem_byte m b = mem_byte m' b) ->
  load_le n m a = load_le n m' a.
Proof.
  revert a. induction n as [|n IH]; intros a H; cbn [load_le]; [done|].
  rewrite H by lia. do 2 f_equal. apply IH. intros. apply H. lia.
Qed.

(** * Words split into halves and bytes *)

Lemma load_le_split (k n : nat) (m : memory_t) (a : Z) :
  load_le (k + n) m a = load_le k m a .| (load_le n m (a + Z.of_nat k) ≪ (8 * Z.of_nat k)).
Proof.
  revert a. induction k as [|k IH]; intros a; cbn [load_le Nat.add].
  - rewrite Z.shiftl_0_r, Z.lor_0_l. f_equal. lia.
  - rewrite IH, Z.shiftl_lor, Z.lor_assoc, Z.shiftl_shiftl by lia. do 2 f_equal; [|lia].
    f_equal. lia.
Qed.

Lemma store_le_split (k n : nat) (m : memory_t) (a v : Z) :
  store_le (k + n) m a v =
  store_le n (store_le k m a v) (a + Z.of_nat k) (v ≫ (8 * Z.of_nat k)).
Proof.
  revert m a v. induction k as [|k IH]; intros m a v; cbn [store_le Nat.add].
  - rewrite Z.shiftr_0_r. f_equal. lia.
  - rewrite IH. f_equal; [lia|]. rewrite Z.shiftr_shiftr by lia. f_equal. lia.
Qed.

(** Only the bits that fit are stored. *)
Lemma store_le_mod (n : nat) (m : memory_t) (a v : Z) :
  store_le n m a (v mod 2 ^ (8 * Z.of_nat n)) = store_le n m a v.
Proof.
  revert m a v. induction n as [|n IH]; intros m a v; cbn [store_le]; [done|].
  assert (set_byte m a (v mod 2 ^ (8 * Z.of_nat (S n))) = set_byte m a v) as ->.
  { unfold set_byte, u8. rewrite mod_pow2_mod by lia. done. }
  rewrite <- (IH (set_byte m a v) (a + 1) (v ≫ 8)). rewrite <- IH. f_equal.
  apply Z.bits_inj'. intros i Hi.
  rewrite !testbit_mod, !Z.shiftr_spec, testbit_mod by lia.
  destruct (Z.ltb_spec i (8 * Z.of_nat n)), (Z.ltb_spec (i + 8) (8 * Z.of_nat (S n))); try lia; done.
Qed.

(** * Load after store *)

Lemma load_store_same (n : nat) (m : memory_t) (a v : Z) :
  load_le n (store_le n m a v) a = v mod 2 ^ (8 * Z.of_nat n).
Proof.
  revert m a v. induction n as [|n IH]; intros m a v; [simpl; by rewrite Z.mod_1_r|].
  cbn [load_le]. rewrite mem_byte_store_le.
  destruct (Z.leb_spec a a), (Z.ltb_spec a (a + Z.of_nat (S n))); try lia. cbn [andb].
  rewrite Z.sub_diag, Z.shiftr_0_r.
  cbn [store_le]. rewrite IH. unfold u8.
  apply Z.bits_inj'. intros i Hi. rewrite Z.lor_spec, !testbit_mod, Z.shiftl_spec by lia.
  destruct (Z.ltb_spec i 8), (Z.ltb_spec i (8 * Z.of_nat (S n))); try lia; simpl.
  - rewrite (Z.testbit_neg_r _ (i - 8)) by lia. apply orb_false_r.
  - rewrite testbit_mod, Z.shiftr_spec by lia.
    destruct (Z.ltb_spec (i - 8) (8 * Z.of_nat n)); try lia. simpl. f_equal. lia.
  - rewrite testbit_mod by lia. destruct (Z.ltb_spec (i - 8) (8 * Z.of_nat n)); [lia|done].
Qed.

Lemma load_store_disjoint (k n : nat) (m : memory_t) (a b v : Z) :
  b + Z.of_nat k <= a \/ a + Z.of_nat n <= b ->
  load_le k (store_le n m a v) b = load_le k m b.
Proof.
  intros H. apply load_le_ext. intros c Hc. rewrite mem_byte_store_le.
  destruct (Z.leb_spec a c), (Z.ltb_spec c (a + Z.of_nat n)); try lia; done.
Qed.

Lemma contains_store (n : nat) (m : memory_t) (a v b s : Z) :
  GUEST_RAM_CONTAINS (store_le n m a v) b s = GUEST_RAM_CONTAINS m b s.
Proof. unfold GUEST_RAM_CONTAINS. by rewrite store_le_size. Qed.

Lemma contains_spec (m : memory_t) (a n : Z) :
  0 <= n -> GUEST_RAM_CONTAINS m a n = true <-> a < mem_size m /\ a + n <= mem_size m.
Proof.
  intros. unfold GUEST_RAM_CONTAINS. rewrite andb_true_iff, Z.ltb_lt, Z.leb_le. lia.
Qed.

(** Guest RAM is a byte store: a word, halfword or byte written inside the
    allocation is read back truncated to its width, and every load of [k] bytes
    at a disjoint address is unchanged. *)
Theorem memory_read_write (m : memory_t) (a v : Z) (b : Z) (k : nat) :
  (forall m', memory_write_w m a v = Some m' ->
     memory_read_w m' a = Some (u32 v) /\
     (b + Z.of_nat k <= a \/ a + 4 <= b -> checked_load k m' b = checked_load k m b)) /\
  (forall m', memory_write_s m a v = Some m' ->
     memory_read_s m' a = Some (u16 v) /\
     (b + Z.of_nat k <= a \/ a + 2 <= b -> checked_load k m' b = checked_load k m b)) /\
  (forall m', memory_write_b m a v = Some m' ->
     memory_read_b m' a = Some (u8 v) /\
     (b + Z.of_nat k <= a \/ a + 1 <= b -> checked_load k m' b = checked_load k m b)).
Proof.
  assert (H : forall n m', checked_store n m a v = Some m' ->
    checked_load n m' a = Some (v mod 2 ^ (8 * Z.of_nat n)) /\
    (b + Z.of_nat k <= a \/ a + Z.of_nat n <= b -> checked_load k m' b = checked_load k m b)).
  { intros n m'. unfold checked_store, checked_load.
    destruct (GUEST_RAM_CONTAINS m a _) eqn:Hc; intros [= <-]. rewrite !contains_store, Hc.
    split; [by rewrite load_store_same|]. intros Hd. by rewrite load_store_disjoint. }
  split_and!; intros m' Hm'; apply (H _ _ Hm').
Qed.

Lemma memory_read_write_witness :
  let m := mk_memory ∅ 16 in
  exists m', memory_write_w m 4 0x11223344 = Some m' /\ memory_read_w m' 4 = Some 0x11223344 /\
    checked_load 1 m' 8 = checked_load 1 m 8.
Proof.
  eexists. split; [vm_compute; reflexivity|].
  refine ((fun H => conj (proj1 H) (proj2 H _)) (proj1 (memory_read_write (mk_memory ∅ 16) 4 0x11223344 8 1) _ _)).
  - right. by vm_compute.
  - vm_compute. reflexivity.
Defined.

(** The bulk writers are total and checked: [memory_write] and
    [memory_fill] report failure exactly when the range leaves the allocation,
    leaving memory alone, and on success exactly the addressed bytes change. *)
Theorem memory_bulk_checked (m : memory_t) (addr : Z) (src : list Z) (size val b : Z) :
  0 <= addr -> 0 <= size ->
  (fst (memory_write m addr src) = GUEST_RAM_CONTAINS m addr (Z.of_nat (length src))) /\
  (fst (memory_fill m addr size val) = GUEST_RAM_CONTAINS m addr size) /\
  (fst (memory_write m addr src) = false -> snd (memory_write m addr src) = m) /\
  (fst (memory_fill m addr size val) = false -> snd (memory_fill m addr size val) = m) /\
  (fst (memory_write m addr src) = true ->
     mem_byte (snd (memory_write m addr src)) b =
     match (if addr <=? b then src !! Z.to_nat (b - addr) else None) with
     | Some v => u8 v | None => mem_byte m b end) /\
  (fst (memory_fill m addr size val) = true ->
     mem_byte (snd (memory_fill m addr size val)) b =
     if (addr <=? b) && (b <? addr + size) then u8 val else mem_byte m b).
Proof.
  intros Ha Hs. unfold memory_write, memory_fill, GUEST_RAM_CONTAINS.
  set (n := Z.of_nat (length src)).
  destruct (Z.leb_spec (mem_size m) addr), (Z.ltb_spec (mem_size m - addr) n),
    (Z.ltb_spec (mem_size m - addr) size), (Z.ltb_spec addr (mem_size m)),
    (Z.leb_spec n (mem_size m - addr)), (Z.leb_spec size (mem_size m - addr)); try lia;
    simpl; split_and!; try done; intros _; rewrite mem_byte_store_bytes; try done;
    destruct (Z.leb_spec addr b), (Z.ltb_spec b (addr + size)); simpl; try done;
    first [rewrite lookup_replicate_2 by lia; done
          | rewrite (proj1 (lookup_replicate_None _ _ _)) by lia; done].
Qed.

Lemma memory_bulk_checked_witness :
  fst (memory_fill (mk_memory ∅ 16) 12 8 7) = false /\
  fst (memory_fill (mk_memory ∅ 16) 12 4 7) = true.
Proof.
  split.
  - rewrite (proj1 (proj2 (memory_bulk_checked (mk_memory ∅ 16) 12 [] 8 7 0
      ltac:(by vm_compute) ltac:(by vm_compute)))). reflexivity.
  - reflexivity.
Defined.
