(* ===== verification/State.v ===== *)
(** The processor state ([struct riscv_internal] of riscv_private.h, with the
    attributes of [vm_attr_t] and the static variables the interpreter uses)
    and the accessors of riscv.c. *)

From stdpp Require Import base list option numbers gmap.
From Stdlib Require Import ZArith Lia Bool.
From S2P Require Import Prelude Bits Insn Mem.
#[local] Open Scope Z_scope.

(** * Auxiliary data *)

(** A record of the execution trace. *)
Record rv_trace_record_t : Type := mk_trace_record {
  tr_cycle : Z; (* uint64_t *)
  tr_pc : Z;
  tr_type : Z;
  tr_addr : Z;
}.

Definition RV_TRACE_INSN : Z := 1.
Definition RV_TRACE_MEM : Z := 2.

(** Calls into the call-stack profiler (prof_callstack.c), in the order they
    are made. *)
Inductive prof_event : Type :=
| prof_on_jal (target_pc : Z) (tail_call : bool)
| prof_on_jalr (target_pc : Z) (is_ret tail_call : bool)
| prof_on_inst.

(** * Control and status registers *)

(** The CSR words of [struct riscv_internal]; all are [uint32_t].  The 64-bit
    [csr_cycle] is a field of the state. *)
Inductive csr_reg : Type :=
| csr_fcsr | csr_time0 | csr_time1 | csr_mstatus | csr_mtvec | csr_misa
| csr_mtval | csr_mcause | csr_mscratch | csr_mepc | csr_mip | csr_mie
| csr_mideleg | csr_medeleg | csr_mvendorid | csr_marchid | csr_mimpid | csr_mbadaddr
| csr_sstatus | csr_stvec | csr_sip | csr_sie | csr_scounteren | csr_sscratch
| csr_sepc | csr_scause | csr_stval | csr_satp.

#[export] Instance csr_reg_eq_dec : EqDecision csr_reg.
Proof. solve_decision. Defined.

Definition csr_file : Type := csr_reg -> Z.

Definition csr_upd (r : csr_reg) (v : Z) (c : csr_file) : csr_file :=
  fun r' => if decide (r = r') then v else c r'.

(** * The state *)

(** One hart. *)
Record riscv : Type := mk_riscv {
  halt : bool;
  X : list Z;  (* uint32_t X[32] *)
  PC : Z;
  insn_counter : list Z;  (* uint64_t [256] *)
  timer : Z;  (* uint64_t *)
  branch_taken_forward : Z;  (* uint64_t *)
  branch_taken_backward : Z;  (* uint64_t *)
  branch_untaken_forward : Z;  (* uint64_t *)
  branch_untaken_backward : Z;  (* uint64_t *)
  trace_record_count : Z;  (* uint64_t *)
  trace_sample_every : Z;  (* uint32_t *)
  history_log : option (list rv_trace_record_t);  (* None: no log file *)
  F : list Z;  (* bits of float F[32] *)
  csrs : csr_file;
  csr_cycle : Z;  (* uint64_t *)
  priv_mode : Z;  (* uint32_t *)
  compressed : bool;
  mem : memory_t;  (* PRIV(rv)->mem *)
  allow_misalign : bool;  (* PRIV(rv)->allow_misalign *)
  softfloat_roundingMode : Z;  (* SoftFloat global *)
  softfloat_exceptionFlags : Z;  (* SoftFloat global *)
  is_branch_taken : bool;  (* static of emulate.c *)
  last_pc : Z;  (* static of emulate.c *)
  prof_log : list prof_event;  (* calls of the profiler, latest first *)
}.

Definition set_halt (v : bool) (rv : riscv) : riscv :=
  mk_riscv v (X rv) (PC rv) (insn_counter rv) (timer rv)
    (branch_taken_forward rv) (branch_taken_backward rv)
    (branch_untaken_forward rv) (branch_untaken_backward rv)
    (trace_record_count rv) (trace_sample_every rv) (history_log rv) (F rv)
    (csrs rv) (csr_cycle rv) (priv_mode rv) (compressed rv) (mem rv)
    (allow_misalign rv) (softfloat_roundingMode rv)
    (softfloat_exceptionFlags rv) (is_branch_taken rv) (last_pc rv)
    (prof_log rv).
Definition set_X (v : list Z) (rv : riscv) : riscv :=
  mk_riscv (halt rv) v (PC rv) (insn_counter rv) (timer rv)
    (branch_taken_forward rv) (branch_taken_backward rv)
    (branch_untaken_forward rv) (branch_untaken_backward rv)
    (trace_record_count rv) (trace_sample_every rv) (history_log rv) (F rv)
    (csrs rv) (csr_cycle rv) (priv_mode rv) (compressed rv) (mem rv)
    (allow_misalign rv) (softfloat_roundingMode rv)
    (softfloat_exceptionFlags rv) (is_branch_taken rv) (last_pc rv)
    (prof_log rv).
Definition set_PC (v : Z) (rv : riscv) : riscv :=
  mk_riscv (halt rv) (X rv) v (insn_counter rv) (timer rv)
    (branch_taken_forward rv) (branch_taken_backward rv)
    (branch_untaken_forward rv) (branch_untaken_backward rv)
    (trace_record_count rv) (trace_sample_every rv) (history_log rv) (F rv)
    (csrs rv) (csr_cycle rv) (priv_mode rv) (compressed rv) (mem rv)
    (allow_misalign rv) (softfloat_roundingMode rv)
    (softfloat_exceptionFlags rv) (is_branch_taken rv) (last_pc rv)
    (prof_log rv).
Definition set_insn_counter (v : list Z) (rv : riscv) : riscv :=
  mk_riscv (halt rv) (X rv) (PC rv) v (timer rv) (branch_taken_forward rv)
    (branch_taken_backward rv) (branch_untaken_forward rv)
    (branch_untaken_backward rv) (trace_record_count rv)
    (trace_sample_every rv) (history_log rv) (F rv) (csrs rv) (csr_cycle rv)
    (priv_mode rv) (compressed rv) (mem rv) (allow_misalign rv)
    (softfloat_roundingMode rv) (softfloat_exceptionFlags rv)
    (is_branch_taken rv) (last_pc rv) (prof_log rv).
Definition set_timer (v : Z) (rv : riscv) : riscv :=
  mk_riscv (halt rv) (X rv) (PC rv) (insn_counter rv) v
    (branch_taken_forward rv) (branch_taken_backward rv)
    (branch_untaken_forward rv) (branch_untaken_backward rv)
    (trace_record_count rv) (trace_sample_every rv) (history_log rv) (F rv)
    (csrs rv) (csr_cycle rv) (priv_mode rv) (compressed rv) (mem rv)
    (allow_misalign rv) (softfloat_roundingMode rv)
    (softfloat_exceptionFlags rv) (is_branch_taken rv) (last_pc rv)
    (prof_log rv).
Definition set_branch_taken_forward (v : Z) (rv : riscv) : riscv :=
  mk_riscv (halt rv) (X rv) (PC rv) (insn_counter rv) (timer rv) v
    (branch_taken_backward rv) (branch_untaken_forward rv)
    (branch_untaken_backward rv) (trace_record_count rv)
    (trace_sample_every rv) (history_log rv) (F rv) (csrs rv) (csr_cycle rv)
    (priv_mode rv) (compressed rv) (mem rv) (allow_misalign rv)
    (softfloat_roundingMode rv) (softfloat_exceptionFlags rv)
    (is_branch_taken rv) (last_pc rv) (prof_log rv).
Definition set_branch_taken_backward (v : Z) (rv : riscv) : riscv :=
  mk_riscv (halt rv) (X rv) (PC rv) (insn_counter rv) (timer rv)
    (branch_taken_forward rv) v (branch_untaken_forward rv)
    (branch_untaken_backward rv) (trace_record_count rv)
    (trace_sample_every rv) (history_log rv) (F rv) (csrs rv) (csr_cycle rv)
    (priv_mode rv) (compressed rv) (mem rv) (allow_misalign rv)
    (softfloat_roundingMode rv) (softfloat_exceptionFlags rv)
    (is_branch_taken rv) (last_pc rv) (prof_log rv).
Definition set_branch_untaken_forward (v : Z) (rv : riscv) : riscv :=
  mk_riscv (halt rv) (X rv) (PC rv) (insn_counter rv) (timer rv)
    (branch_taken_forward rv) (branch_taken_backward rv) v
    (branch_untaken_backward rv) (trace_record_count rv)
    (trace_sample_every rv) (history_log rv) (F rv) (csrs rv) (csr_cycle rv)
    (priv_mode rv) (compressed rv) (mem rv) (allow_misalign rv)
    (softfloat_roundingMode rv) (softfloat_exceptionFlags rv)
    (is_branch_taken rv) (last_pc rv) (prof_log rv).
Definition set_branch_untaken_backward (v : Z) (rv : riscv) : riscv :=
  mk_riscv (halt rv) (X rv) (PC rv) (insn_counter rv) (timer rv)
    (branch_taken_forward rv) (branch_taken_backward rv)
    (branch_untaken_forward rv) v (trace_record_count rv)
    (trace_sample_every rv) (history_log rv) (F rv) (csrs rv) (csr_cycle rv)
    (priv_mode rv) (compressed rv) (mem rv) (allow_misalign rv)
    (softfloat_roundingMode rv) (softfloat_exceptionFlags rv)
    (is_branch_taken rv) (last_pc rv) (prof_log rv).
Definition set_trace_record_count (v : Z) (rv : riscv) : riscv :=
  mk_riscv (halt rv) (X rv) (PC rv) (insn_counter rv) (timer rv)
    (branch_taken_forward rv) (branch_taken_backward rv)
    (branch_untaken_forward rv) (branch_untaken_backward rv) v
    (trace_sample_every rv) (history_log rv) (F rv) (csrs rv) (csr_cycle rv)
    (priv_mode rv) (compressed rv) (mem rv) (allow_misalign rv)
    (softfloat_roundingMode rv) (softfloat_exceptionFlags rv)
    (is_branch_taken rv) (last_pc rv) (prof_log rv).
Definition set_trace_sample_every (v : Z) (rv : riscv) : riscv :=
  mk_riscv (halt rv) (X rv) (PC rv) (insn_counter rv) (timer rv)
    (branch_taken_forward rv) (branch_taken_backward rv)
    (branch_untaken_forward rv) (branch_untaken_backward rv)
    (trace_record_count rv) v (history_log rv) (F rv) (csrs rv) (csr_cycle rv)
    (priv_mode rv) (compressed rv) (mem rv) (allow_misalign rv)
    (softfloat_roundingMode rv) (softfloat_exceptionFlags rv)
    (is_branch_taken rv) (last_pc rv) (prof_log rv).
Definition set_history_log (v : option (list rv_trace_record_t)) (rv : riscv) : riscv :=
  mk_riscv (halt rv) (X rv) (PC rv) (insn_counter rv) (timer rv)
    (branch_taken_forward rv) (branch_taken_backward rv)
    (branch_untaken_forward rv) (branch_untaken_backward rv)
    (trace_record_count rv) (trace_sample_every rv) v (F rv) (csrs rv)
    (csr_cycle rv) (priv_mode rv) (compressed rv) (mem rv) (allow_misalign rv)
    (softfloat_roundingMode rv) (softfloat_exceptionFlags rv)
    (is_branch_taken rv) (last_pc rv) (prof_log rv).
Definition set_F (v : list Z) (rv : riscv) : riscv :=
  mk_riscv (halt rv) (X rv) (PC rv) (insn_counter rv) (timer rv)
    (branch_taken_forward rv) (branch_taken_backward rv)
    (branch_untaken_forward rv) (branch_untaken_backward rv)
    (trace_record_count rv) (trace_sample_every rv) (history_log rv) v
    (csrs rv) (csr_cycle rv) (priv_mode rv) (compressed rv) (mem rv)
    (allow_misalign rv) (softfloat_roundingMode rv)
    (softfloat_exceptionFlags rv) (is_branch_taken rv) (last_pc rv)
    (prof_log rv).
Definition set_csrs (v : csr_file) (rv : riscv) : riscv :=
  mk_riscv (halt rv) (X rv) (PC rv) (insn_counter rv) (timer rv)
    (branch_taken_forward rv) (branch_taken_backward rv)
    (branch_untaken_forward rv) (branch_untaken_backward rv)
    (trace_record_count rv) (trace_sample_every rv) (history_log rv) (F rv) v
    (csr_cycle rv) (priv_mode rv) (compressed rv) (mem rv) (allow_misalign rv)
    (softfloat_roundingMode rv) (softfloat_exceptionFlags rv)
    (is_branch_taken rv) (last_pc rv) (prof_log rv).
Definition set_csr_cycle (v : Z) (rv : riscv) : riscv :=
  mk_riscv (halt rv) (X rv) (PC rv) (insn_counter rv) (timer rv)
    (branch_taken_forward rv) (branch_taken_backward rv)
    (branch_untaken_forward rv) (branch_untaken_backward rv)
    (trace_record_count rv) (trace_sample_every rv) (history_log rv) (F rv)
    (csrs rv) v (priv_mode rv) (compressed rv) (mem rv) (allow_misalign rv)
    (softfloat_roundingMode rv) (softfloat_exceptionFlags rv)
    (is_branch_taken rv) (last_pc rv) (prof_log rv).
Definition set_priv_mode (v : Z) (rv : riscv) : riscv :=
  mk_riscv (halt rv) (X rv) (PC rv) (insn_counter rv) (timer rv)
    (branch_taken_forward rv) (branch_taken_backward rv)
    (branch_untaken_forward rv) (branch_untaken_backward rv)
    (trace_record_count rv) (trace_sample_every rv) (history_log rv) (F rv)
    (csrs rv) (csr_cycle rv) v (compressed rv) (mem rv) (allow_misalign rv)
    (softfloat_roundingMode rv) (softfloat_exceptionFlags rv)
    (is_branch_taken rv) (last_pc rv) (prof_log rv).
Definition set_compressed (v : bool) (rv : riscv) : riscv :=
  mk_riscv (halt rv) (X rv) (PC rv) (insn_counter rv) (timer rv)
    (branch_taken_forward rv) (branch_taken_backward rv)
    (branch_untaken_forward rv) (branch_untaken_backward rv)
    (trace_record_count rv) (trace_sample_every rv) (history_log rv) (F rv)
    (csrs rv) (csr_cycle rv) (priv_mode rv) v (mem rv) (allow_misalign rv)
    (softfloat_roundingMode rv) (softfloat_exceptionFlags rv)
    (is_branch_taken rv) (last_pc rv) (prof_log rv).
Definition set_mem (v : memory_t) (rv : riscv) : riscv :=
  mk_riscv (halt rv) (X rv) (PC rv) (insn_counter rv) (timer rv)
    (branch_taken_forward rv) (branch_taken_backward rv)
    (branch_untaken_forward rv) (branch_untaken_backward rv)
    (trace_record_count rv) (trace_sample_every rv) (history_log rv) (F rv)
    (csrs rv) (csr_cycle rv) (priv_mode rv) (compressed rv) v
    (allow_misalign rv) (softfloat_roundingMode rv)
    (softfloat_exceptionFlags rv) (is_branch_taken rv) (last_pc rv)
    (prof_log rv).
Definition set_allow_misalign (v : bool) (rv : riscv) : riscv :=
  mk_riscv (halt rv) (X rv) (PC rv) (insn_counter rv) (timer rv)
    (branch_taken_forward rv) (branch_taken_backward rv)
    (branch_untaken_forward rv) (branch_untaken_backward rv)
    (trace_record_count rv) (trace_sample_every rv) (history_log rv) (F rv)
    (csrs rv) (csr_cycle rv) (priv_mode rv) (compressed rv) (mem rv) v
    (softfloat_roundingMode rv) (softfloat_exceptionFlags rv)
    (is_branch_taken rv) (last_pc rv) (prof_log rv).
Definition set_softfloat_roundingMode (v : Z) (rv : riscv) : riscv :=
  mk_riscv (halt rv) (X rv) (PC rv) (insn_counter rv) (timer rv)
    (branch_taken_forward rv) (branch_taken_backward rv)
    (branch_untaken_forward rv) (branch_untaken_backward rv)
    (trace_record_count rv) (trace_sample_every rv) (history_log rv) (F rv)
    (csrs rv) (csr_cycle rv) (priv_mode rv) (compressed rv) (mem rv)
    (allow_misalign rv) v (softfloat_exceptionFlags rv) (is_branch_taken rv)
    (last_pc rv) (prof_log rv).
Definition set_softfloat_exceptionFlags (v : Z) (rv : riscv) : riscv :=
  mk_riscv (halt rv) (X rv) (PC rv) (insn_counter rv) (timer rv)
    (branch_taken_forward rv) (branch_taken_backward rv)
    (branch_untaken_forward rv) (branch_untaken_backward rv)
    (trace_record_count rv) (trace_sample_every rv) (history_log rv) (F rv)
    (csrs rv) (csr_cycle rv) (priv_mode rv) (compressed rv) (mem rv)
    (allow_misalign rv) (softfloat_roundingMode rv) v (is_branch_taken rv)
    (last_pc rv) (prof_log rv).
Definition set_is_branch_taken (v : bool) (rv : riscv) : riscv :=
  mk_riscv (halt rv) (X rv) (PC rv) (insn_counter rv) (timer rv)
    (branch_taken_forward rv) (branch_taken_backward rv)
    (branch_untaken_forward rv) (branch_untaken_backward rv)
    (trace_record_count rv) (trace_sample_every rv) (history_log rv) (F rv)
    (csrs rv) (csr_cycle rv) (priv_mode rv) (compressed rv) (mem rv)
    (allow_misalign rv) (softfloat_roundingMode rv)
    (softfloat_exceptionFlags rv) v (last_pc rv) (prof_log rv).
Definition set_last_pc (v : Z) (rv : riscv) : riscv :=
  mk_riscv (halt rv) (X rv) (PC rv) (insn_counter rv) (timer rv)
    (branch_taken_forward rv) (branch_taken_backward rv)
    (branch_untaken_forward rv) (branch_untaken_backward rv)
    (trace_record_count rv) (trace_sample_every rv) (history_log rv) (F rv)
    (csrs rv) (csr_cycle rv) (priv_mode rv) (compressed rv) (mem rv)
    (allow_misalign rv) (softfloat_roundingMode rv)
    (softfloat_exceptionFlags rv) (is_branch_taken rv) v (prof_log rv).
Definition set_prof_log (v : list prof_event) (rv : riscv) : riscv :=
  mk_riscv (halt rv) (X rv) (PC rv) (insn_counter rv) (timer rv)
    (branch_taken_forward rv) (branch_taken_backward rv)
    (branch_untaken_forward rv) (branch_untaken_backward rv)
    (trace_record_count rv) (trace_sample_every rv) (history_log rv) (F rv)
    (csrs rv) (csr_cycle rv) (priv_mode rv) (compressed rv) (mem rv)
    (allow_misalign rv) (softfloat_roundingMode rv)
    (softfloat_exceptionFlags rv) (is_branch_taken rv) (last_pc rv) v.

(** Evaluates accessors of updated states. *)
Ltac rv_simpl :=
  cbn [
    halt X PC insn_counter timer branch_taken_forward branch_taken_backward
    branch_untaken_forward branch_untaken_backward trace_record_count
    trace_sample_every history_log F csrs csr_cycle priv_mode compressed mem
    allow_misalign softfloat_roundingMode softfloat_exceptionFlags
    is_branch_taken last_pc prof_log
    set_halt set_X set_PC set_insn_counter set_timer set_branch_taken_forward
    set_branch_taken_backward set_branch_untaken_forward
    set_branch_untaken_backward set_trace_record_count set_trace_sample_every
    set_history_log set_F set_csrs set_csr_cycle set_priv_mode set_compressed
    set_mem set_allow_misalign set_softfloat_roundingMode
    set_softfloat_exceptionFlags set_is_branch_taken set_last_pc set_prof_log].
Tactic Notation "rv_simpl" "in" hyp(H) :=
  cbn [
    halt X PC insn_counter timer branch_taken_forward branch_taken_backward
    branch_untaken_forward branch_untaken_backward trace_record_count
    trace_sample_every history_log F csrs csr_cycle priv_mode compressed mem
    allow_misalign softfloat_roundingMode softfloat_exceptionFlags
    is_branch_taken last_pc prof_log
    set_halt set_X set_PC set_insn_counter set_timer set_branch_taken_forward
    set_branch_taken_backward set_branch_untaken_forward
    set_branch_untaken_backward set_trace_record_count set_trace_sample_every
    set_history_log set_F set_csrs set_csr_cycle set_priv_mode set_compressed
    set_mem set_allow_misalign set_softfloat_roundingMode
    set_softfloat_exceptionFlags set_is_branch_taken set_last_pc set_prof_log] in H.

(** * Registers *)

(** [rv->X[i]] and [rv->F[i]]: decoded register fields are below 32. *)
Definition xreg (rv : riscv) (i : Z) : Z := rv.(X) !!! Z.to_nat i.
Definition set_xreg (i v : Z) (rv : riscv) : riscv := set_X (<[Z.to_nat i := v]> rv.(X)) rv.
Definition freg (rv : riscv) (i : Z) : Z := rv.(F) !!! Z.to_nat i.
Definition set_freg (i v : Z) (rv : riscv) : riscv := set_F (<[Z.to_nat i := v]> rv.(F)) rv.

Definition csr_val (rv : riscv) (r : csr_reg) : Z := rv.(csrs) r.
Definition set_csr (r : csr_reg) (v : Z) (rv : riscv) : riscv := set_csrs (csr_upd r v rv.(csrs)) rv.

(** [rv->insn_counter[op]++] on [uint64_t] counters. *)
Definition count_insn (o : opcode_t) (rv : riscv) : riscv :=
  set_insn_counter (alter (fun n => u64 (n + 1)) (Z.to_nat (opcode_num o)) rv.(insn_counter)) rv.

(** * Accessors of riscv.c *)

Definition rv_set_pc (rv : riscv) (pc : Z) : bool * riscv :=
  if truthy (pc .& 1) then (false, rv) else (true, set_PC pc rv).

Definition rv_get_pc (rv : riscv) : Z := rv.(PC).

Definition rv_set_reg (rv : riscv) (reg in_ : Z) : riscv :=
  if (reg <? N_RV_REGS) && negb (reg =? rv_reg_zero) then set_xreg reg in_ rv else rv.

Definition rv_get_reg (rv : riscv) (reg : Z) : Z :=
  if reg <? N_RV_REGS then xreg rv reg else not32 0.

Definition rv_halt (rv : riscv) : riscv := set_halt true rv.
Definition rv_has_halted (rv : riscv) : bool := rv.(halt).

(** * Tracing (emulate.c) *)

Definition rv_trace_record (cycle pc type addr : Z) (rv : riscv) : riscv :=
  match rv.(history_log) with
  | None => rv
  | Some log =>
      let record := mk_trace_record cycle pc type addr in
      if 1 <? rv.(trace_sample_every) then
        let n := rv.(trace_record_count) in
        let rv := set_trace_record_count (u64 (n + 1)) rv in
        if negb (n mod rv.(trace_sample_every) =? 0) then rv
        else set_history_log (Some (log ++ [record])) rv
      else set_history_log (Some (log ++ [record])) rv
  end.

(** Calls of the profiler. *)
Definition prof_call (e : prof_event) (rv : riscv) : riscv := set_prof_log (e :: rv.(prof_log)) rv.

(** * Well-formedness *)

Record riscv_wf (rv : riscv) : Prop := {
  wf_X_len : length rv.(X) = 32%nat;
  wf_X : Forall is_u32 rv.(X);
  wf_PC : is_u32 rv.(PC);
  wf_F_len : length rv.(F) = 32%nat;
  wf_F : Forall is_u32 rv.(F);
  wf_csrs : forall r, is_u32 (rv.(csrs) r);
  wf_cycle : 0 <= rv.(csr_cycle) < 2 ^ 64;
  wf_mem : mem_wf rv.(mem);
}.

(** * Lemmas on registers *)

Section Registers.
Context (rv : riscv).

Lemma xreg_set_eq (i v : Z) :
  length rv.(X) = 32%nat -> 0 <= i < 32 -> xreg (set_xreg i v rv) i = v.
Proof. intros Hl Hi. unfold xreg, set_xreg. rv_simpl. rewrite list_lookup_total_insert_eq by lia. done. Qed.

Lemma xreg_set_ne (i j v : Z) : 0 <= i -> 0 <= j -> i <> j -> xreg (set_xreg i v rv) j = xreg rv j.
Proof. intros. unfold xreg, set_xreg. rv_simpl. by rewrite list_lookup_total_insert_ne by lia. Qed.

Lemma xreg_set (i j v : Z) :
  length rv.(X) = 32%nat -> 0 <= i < 32 -> 0 <= j ->
  xreg (set_xreg i v rv) j = if i =? j then v else xreg rv j.
Proof.
  intros. destruct (Z.eqb_spec i j) as [->|].
  - by apply xreg_set_eq.
  - apply xreg_set_ne; lia.
Qed.

Lemma set_xreg_twice (i v w : Z) : set_xreg i v (set_xreg i w rv) = set_xreg i v rv.
Proof. unfold set_xreg. rv_simpl. by rewrite list_insert_insert_eq. Qed.

Lemma xreg_u32 (i : Z) : riscv_wf rv -> is_u32 (xreg rv i).
Proof.
  intros Hwf. unfold xreg. rewrite list_lookup_total_alt.
  destruct (X rv !! Z.to_nat i) eqn:Hi; simpl.
  - eapply Forall_lookup_1; [apply (wf_X _ Hwf)|done].
  - by vm_compute.
Qed.

Lemma freg_u32 (i : Z) : riscv_wf rv -> is_u32 (freg rv i).
Proof.
  intros Hwf. unfold freg. rewrite list_lookup_total_alt.
  destruct (F rv !! Z.to_nat i) eqn:Hi; simpl.
  - eapply Forall_lookup_1; [apply (wf_F _ Hwf)|done].
  - by vm_compute.
Qed.

Lemma set_xreg_wf (i v : Z) : riscv_wf rv -> is_u32 v -> riscv_wf (set_xreg i v rv).
Proof.
  intros [? HX ? ? ? ? ? ?] Hv. unfold set_xreg. constructor; rv_simpl; try done.
  - by rewrite length_insert.
  - by apply Forall_insert.
Qed.

Lemma set_freg_wf (i v : Z) : riscv_wf rv -> is_u32 v -> riscv_wf (set_freg i v rv).
Proof.
  intros [? ? ? ? HF ? ? ?] Hv. unfold set_freg. constructor; rv_simpl; try done.
  - by rewrite length_insert.
  - by apply Forall_insert.
Qed.

Lemma set_csr_wf (r : csr_reg) (v : Z) : riscv_wf rv -> is_u32 v -> riscv_wf (set_csr r v rv).
Proof.
  intros [? ? ? ? ? Hc ? ?] Hv. unfold set_csr. constructor; rv_simpl; try done.
  intros r'. unfold csr_upd. by case_decide.
Qed.

Lemma set_PC_wf (v : Z) : riscv_wf rv -> is_u32 v -> riscv_wf (set_PC v rv).
Proof. intros [? ? ? ? ? ? ? ?] Hv. by constructor. Qed.

Lemma set_csr_cycle_wf (v : Z) : riscv_wf rv -> 0 <= v < 2 ^ 64 -> riscv_wf (set_csr_cycle v rv).
Proof. intros [? ? ? ? ? ? ? ?] Hv. by constructor. Qed.

Lemma set_mem_wf (m : memory_t) : riscv_wf rv -> mem_wf m -> riscv_wf (set_mem m rv).
Proof. intros [? ? ? ? ? ? ? ?] Hv. by constructor. Qed.

Lemma rv_trace_record_wf (cycle p t a : Z) :
  riscv_wf rv -> riscv_wf (rv_trace_record cycle p t a rv).
Proof.
  intros [? ? ? ? ? ? ? ?]. unfold rv_trace_record. destruct (history_log rv); [|by constructor].
  destruct (1 <? _); [destruct (negb _)|]; by constructor.
Qed.

Lemma count_insn_wf (o : opcode_t) : riscv_wf rv -> riscv_wf (count_insn o rv).
Proof. intros [? ? ? ? ? ? ? ?]. by constructor. Qed.

(** The bookkeeping fields are not constrained. *)
Lemma set_is_branch_taken_wf (v : bool) : riscv_wf rv -> riscv_wf (set_is_branch_taken v rv).
Proof. intros [? ? ? ? ? ? ? ?]. by constructor. Qed.
Lemma set_last_pc_wf (v : Z) : riscv_wf rv -> riscv_wf (set_last_pc v rv).
Proof. intros [? ? ? ? ? ? ? ?]. by constructor. Qed.
Lemma set_branch_untaken_forward_wf (v : Z) : riscv_wf rv -> riscv_wf (set_branch_untaken_forward v rv).
Proof. intros [? ? ? ? ? ? ? ?]. by constructor. Qed.
Lemma set_branch_taken_forward_wf (v : Z) : riscv_wf rv -> riscv_wf (set_branch_taken_forward v rv).
Proof. intros [? ? ? ? ? ? ? ?]. by constructor. Qed.
Lemma set_branch_taken_backward_wf (v : Z) : riscv_wf rv -> riscv_wf (set_branch_taken_backward v rv).
Proof. intros [? ? ? ? ? ? ? ?]. by constructor. Qed.
Lemma set_prof_log_wf (v : list prof_event) : riscv_wf rv -> riscv_wf (set_prof_log v rv).
Proof. intros [? ? ? ? ? ? ? ?]. by constructor. Qed.
Lemma set_compressed_wf (v : bool) : riscv_wf rv -> riscv_wf (set_compressed v rv).
Proof. intros [? ? ? ? ? ? ? ?]. by constructor. Qed.
Lemma set_priv_mode_wf (v : Z) : riscv_wf rv -> riscv_wf (set_priv_mode v rv).
Proof. intros [? ? ? ? ? ? ? ?]. by constructor. Qed.
Lemma set_timer_wf (v : Z) : riscv_wf rv -> riscv_wf (set_timer v rv).
Proof. intros [? ? ? ? ? ? ? ?]. by constructor. Qed.
Lemma set_softfloat_roundingMode_wf (v : Z) : riscv_wf rv -> riscv_wf (set_softfloat_roundingMode v rv).
Proof. intros [? ? ? ? ? ? ? ?]. by constructor. Qed.
Lemma set_softfloat_exceptionFlags_wf (v : Z) : riscv_wf rv -> riscv_wf (set_softfloat_exceptionFlags v rv).
Proof. intros [? ? ? ? ? ? ? ?]. by constructor. Qed.
End Registers.

#[export] Hint Resolve set_xreg_wf set_freg_wf set_csr_wf set_PC_wf set_csr_cycle_wf set_mem_wf
  rv_trace_record_wf count_insn_wf xreg_u32 freg_u32
  set_is_branch_taken_wf set_last_pc_wf set_branch_untaken_forward_wf
  set_branch_taken_forward_wf set_branch_taken_backward_wf set_prof_log_wf
  set_compressed_wf set_priv_mode_wf set_timer_wf
  set_softfloat_roundingMode_wf set_softfloat_exceptionFlags_wf : rv.
