(* ===== verification/Trap.v ===== *)
(** Traps (emulate.c and the trap macros of riscv.h): entry into a trap
    handler, the default handler used when no trap vector is configured, and
    its emulation of misaligned accesses.

    A computation returns [None] where the C code is undefined (an access
    outside guest RAM) or fails an assertion (in the decoder). *)

From stdpp Require Import base list option numbers gmap.
From Stdlib Require Import ZArith Lia Bool.
From S2P Require Import Prelude Bits Insn Decode Mem State.
#[local] Open Scope Z_scope.

(** * Constants of riscv.h *)

Definition MSTATUS_MIE_SHIFT : Z := 3.
Definition MSTATUS_MPIE_SHIFT : Z := 7.
Definition MSTATUS_MPP_SHIFT : Z := 11.
Definition MSTATUS_MIE : Z := 1 ≪ MSTATUS_MIE_SHIFT.
Definition MSTATUS_MPIE : Z := 1 ≪ MSTATUS_MPIE_SHIFT.
Definition MSTATUS_MPP : Z := 3 ≪ MSTATUS_MPP_SHIFT.
Definition SSTATUS_SIE_SHIFT : Z := 1.
Definition SSTATUS_SPIE_SHIFT : Z := 5.
Definition SSTATUS_SPP_SHIFT : Z := 8.
Definition SSTATUS_SIE : Z := 1 ≪ SSTATUS_SIE_SHIFT.
Definition SSTATUS_SPIE : Z := 1 ≪ SSTATUS_SPIE_SHIFT.
Definition RV_PRIV_U_MODE : Z := 0.
Definition RV_PRIV_S_MODE : Z := 1.
Definition RV_PRIV_M_MODE : Z := 3.
Definition ILLEGAL_INSN : Z := 2.
Definition BREAKPOINT : Z := 3.
Definition LOAD_MISALIGNED : Z := 4.
Definition STORE_MISALIGNED : Z := 6.
Definition ECALL_M : Z := 11.

Definition RV_PRIV_IS_U_OR_S_MODE (rv : riscv) : bool := rv.(priv_mode) <=? RV_PRIV_S_MODE.

(** * Misaligned accesses *)

(** [value |= (uint32_t) mem_read_b(addr + i) << (i * 8)] for [i = 0 .. n-1]. *)
Definition read_bytes (rv : riscv) (addr : Z) (n : nat) : option Z :=
  fold_left (fun acc i =>
      let? value := acc in
      let? b := memory_read_b rv.(mem) (add32 addr i) in
      Some (value .| shl32 b (i * 8)))
    (seqZ 0 (Z.of_nat n)) (Some 0).

Definition emulate_misaligned_load (rv : riscv) (ir : rv_insn_t) (addr : Z) : option (bool * riscv) :=
  match ir.(opcode) with
  | rv_insn_lw | rv_insn_clw | rv_insn_clwsp =>
      let? value :=
        if addr .& 1 =? 0 then
          let? lo := memory_read_s rv.(mem) addr in
          let? hi := memory_read_s rv.(mem) (add32 addr 2) in
          Some (lo .| shl32 hi 16)
        else read_bytes rv addr 4 in
      Some (true, set_xreg ir.(rd) value rv)
  | rv_insn_lh =>
      let? value := read_bytes rv addr 2 in
      Some (true, set_xreg ir.(rd) (sign_extend_h value) rv)
  | rv_insn_lhu =>
      let? value := read_bytes rv addr 2 in
      Some (true, set_xreg ir.(rd) value rv)
  | _ => Some (false, rv)
  end.

(** [mem_write_b(addr + i, (value >> (i * 8)) & 0xFF)] for [i = 0 .. n-1]. *)
Definition write_bytes (m : memory_t) (addr value : Z) (n : nat) : option memory_t :=
  fold_left (fun acc i =>
      let? m := acc in
      memory_write_b m (add32 addr i) ((value ≫ (i * 8)) .& 0xff))
    (seqZ 0 (Z.of_nat n)) (Some m).

Definition emulate_misaligned_store (rv : riscv) (ir : rv_insn_t) (addr : Z) : option (bool * riscv) :=
  match ir.(opcode) with
  | rv_insn_sw | rv_insn_csw | rv_insn_cswsp =>
      let value := xreg rv ir.(rs2) in
      let? m :=
        if addr .& 1 =? 0 then
          let? m := memory_write_s rv.(mem) addr (value .& 0xffff) in
          memory_write_s m (add32 addr 2) ((value ≫ 16) .& 0xffff)
        else write_bytes rv.(mem) addr value 4 in
      Some (true, set_mem m rv)
  | rv_insn_sh =>
      let? m := write_bytes rv.(mem) addr (xreg rv ir.(rs2)) 2 in
      Some (true, set_mem m rv)
  | _ => Some (false, rv)
  end.

(** [skip_insn:] advances [mepc] past the instruction and resumes there. *)
Definition skip_insn (rv : riscv) : riscv :=
  let mepc := add32 (csr_val rv csr_mepc) (if rv.(compressed) then 2 else 4) in
  set_PC mepc (set_csr csr_mepc mepc rv).

Definition rv_trap_default_handler (rv : riscv) : option riscv :=
  let cause := csr_val rv csr_mcause in
  let tval := csr_val rv csr_mtval in
  let insn_addr := csr_val rv csr_mepc in
  if (cause =? LOAD_MISALIGNED) || (cause =? STORE_MISALIGNED) then
    let? insn := memory_ifetch rv.(mem) insn_addr in
    if insn =? 0 then Some (skip_insn rv)
    else
      let? (ok, ir) := decode insn in
      if negb ok then Some (skip_insn rv)
      else
        let? (_, rv) := if cause =? LOAD_MISALIGNED then emulate_misaligned_load rv ir tval
                        else emulate_misaligned_store rv ir tval in
        Some (skip_insn rv) (* the same update whether the access was handled or not *)
  else Some (skip_insn rv).

(** * Trap entry *)

Definition _trap_handler (rv : riscv) : option riscv :=
  let vector base mode cause rv :=
    match mode with
    | 0 => set_PC base rv
    | 1 => set_PC (add32 base (4 * (cause .& 0x7fffffff))) rv
    | _ => rv
    end in
  if RV_PRIV_IS_U_OR_S_MODE rv then
    let sstatus := csr_val rv csr_sstatus in
    let sstatus_sie := (sstatus .& SSTATUS_SIE) ≫ SSTATUS_SIE_SHIFT in
    let sstatus := sstatus .| shl32 sstatus_sie SSTATUS_SPIE_SHIFT in
    let sstatus := sstatus .& not32 SSTATUS_SIE in
    let sstatus := sstatus .| shl32 rv.(priv_mode) SSTATUS_SPP_SHIFT in
    let rv := set_priv_mode RV_PRIV_S_MODE (set_csr csr_sstatus sstatus rv) in
    let base := csr_val rv csr_stvec .& not32 3 in
    let mode := csr_val rv csr_stvec .& 3 in
    let cause := csr_val rv csr_scause in
    let rv := set_csr csr_sepc rv.(PC) rv in
    Some (vector base mode cause rv)
  else
    let mstatus := csr_val rv csr_mstatus in
    let mstatus_mie := (mstatus .& MSTATUS_MIE) ≫ MSTATUS_MIE_SHIFT in
    let mstatus := mstatus .| shl32 mstatus_mie MSTATUS_MPIE_SHIFT in
    let mstatus := mstatus .& not32 MSTATUS_MIE in
    let mstatus := mstatus .| shl32 rv.(priv_mode) MSTATUS_MPP_SHIFT in
    let rv := set_priv_mode RV_PRIV_M_MODE (set_csr csr_mstatus mstatus rv) in
    let base := csr_val rv csr_mtvec .& not32 3 in
    let mode := csr_val rv csr_mtvec .& 3 in
    let cause := csr_val rv csr_mcause in
    let rv := set_csr csr_mepc rv.(PC) rv in
    if csr_val rv csr_mtvec =? 0 then rv_trap_default_handler rv
    else Some (vector base mode cause rv).

Definition trap_handler (rv : riscv) : option riscv := _trap_handler rv.

Definition SET_CAUSE_AND_TVAL_THEN_TRAP (cause tval : Z) (rv : riscv) : option riscv :=
  let rv :=
    if RV_PRIV_IS_U_OR_S_MODE rv then set_csr csr_stval tval (set_csr csr_scause cause rv)
    else set_csr csr_mtval tval (set_csr csr_mcause cause rv) in
  trap_handler rv.

Definition ebreak_handler (rv : riscv) : option riscv :=
  SET_CAUSE_AND_TVAL_THEN_TRAP BREAKPOINT rv.(PC) rv.

(** What the interpreter asks of the system-call layer (syscall.c). *)
Class Syscall : Type := {
  syscall_handler : riscv -> option riscv;
}.

Definition ecall_handler `{Syscall} (rv : riscv) : option riscv :=
  let? rv := SET_CAUSE_AND_TVAL_THEN_TRAP ECALL_M 0 rv in
  syscall_handler rv.

(** * Native routines the guest can call *)

Definition memset_handler (rv : riscv) : option riscv :=
  let m := rv.(mem) in
  let dest := xreg rv rv_reg_a0 in
  let value := xreg rv rv_reg_a1 in
  let count := xreg rv rv_reg_a2 in
  if (m.(mem_size) <=? dest) || (m.(mem_size) - dest <? count) then
    SET_CAUSE_AND_TVAL_THEN_TRAP STORE_MISALIGNED dest rv
  else
    let rv := set_mem (store_bytes m dest (replicate (Z.to_nat count) (u8 value))) rv in
    Some (set_PC (xreg rv rv_reg_ra .& not32 1) rv).

(** [memcpy] on overlapping ranges is undefined. *)
Definition memcpy_handler (rv : riscv) : option riscv :=
  let m := rv.(mem) in
  let dest := xreg rv rv_reg_a0 in
  let src := xreg rv rv_reg_a1 in
  let count := xreg rv rv_reg_a2 in
  if (m.(mem_size) <=? dest) || (m.(mem_size) - dest <? count) then
    SET_CAUSE_AND_TVAL_THEN_TRAP STORE_MISALIGNED dest rv
  else if (m.(mem_size) <=? src) || (m.(mem_size) - src <? count) then
    SET_CAUSE_AND_TVAL_THEN_TRAP LOAD_MISALIGNED src rv
  else if (count =? 0) || (dest + count <=? src) || (src + count <=? dest) then
    let rv := set_mem (store_bytes m dest (load_bytes (Z.to_nat count) m src)) rv in
    Some (set_PC (xreg rv rv_reg_ra .& not32 1) rv)
  else None.
