(* ===== verification/Csr.v ===== *)
(** Control and status registers (the Zicsr part of emulate.c). *)

From stdpp Require Import base list option numbers gmap.
From Stdlib Require Import ZArith Lia Bool.
From S2P Require Import Prelude Bits Insn Decode Mem State Trap.
#[local] Open Scope Z_scope.

(** * CSR numbers (riscv_private.h) *)

Definition CSR_FFLAGS : Z := 0x001.
Definition CSR_FRM : Z := 0x002.
Definition CSR_FCSR : Z := 0x003.
Definition CSR_SSTATUS : Z := 0x100.
Definition CSR_SIE : Z := 0x104.
Definition CSR_STVEC : Z := 0x105.
Definition CSR_SCOUNTEREN : Z := 0x106.
Definition CSR_SSCRATCH : Z := 0x140.
Definition CSR_SEPC : Z := 0x141.
Definition CSR_SCAUSE : Z := 0x142.
Definition CSR_STVAL : Z := 0x143.
Definition CSR_SIP : Z := 0x144.
Definition CSR_SATP : Z := 0x180.
Definition CSR_MSTATUS : Z := 0x300.
Definition CSR_MISA : Z := 0x301.
Definition CSR_MEDELEG : Z := 0x302.
Definition CSR_MIDELEG : Z := 0x303.
Definition CSR_MIE : Z := 0x304.
Definition CSR_MTVEC : Z := 0x305.
Definition CSR_MSCRATCH : Z := 0x340.
Definition CSR_MEPC : Z := 0x341.
Definition CSR_MCAUSE : Z := 0x342.
Definition CSR_MTVAL : Z := 0x343.
Definition CSR_MIP : Z := 0x344.
Definition CSR_CYCLE : Z := 0xC00.
Definition CSR_TIME : Z := 0xC01.
Definition CSR_INSTRET : Z := 0xC02.
Definition CSR_CYCLEH : Z := 0xC80.
Definition CSR_TIMEH : Z := 0xC81.
Definition CSR_INSTRETH : Z := 0xC82.

Definition FFLAG_MASK : Z := 0x1f.

(** The host clock: seconds and microseconds of [rv_gettimeofday] at a read in
    a given state. *)
Class HostClock : Type := {
  gettimeofday : riscv -> Z * Z;
}.

Section Zicsr.
Context `{HostClock}.

(** [update_time]; the product is exact below 2^53 microseconds. *)
Definition update_time (rv : riscv) : riscv :=
  let (tv_sec, tv_usec) := gettimeofday rv in
  let rv := set_timer (u64 (tv_sec * 1000000 + u32 tv_usec)) rv in
  let rv := set_csr csr_time0 (rv.(timer) .& 0xFFFFFFFF) rv in
  set_csr csr_time1 (rv.(timer) ≫ 32) rv.

(** A [uint32_t *] into the state: a CSR word or a half of [csr_cycle]. *)
Inductive csr_ptr : Type :=
| PtrCsr (r : csr_reg)
| PtrCycle (hi : bool).

Definition load_ptr (rv : riscv) (p : csr_ptr) : Z :=
  match p with
  | PtrCsr r => csr_val rv r
  | PtrCycle false => u32 rv.(csr_cycle)
  | PtrCycle true => rv.(csr_cycle) ≫ 32
  end.

Definition store_ptr (p : csr_ptr) (v : Z) (rv : riscv) : riscv :=
  match p with
  | PtrCsr r => set_csr r v rv
  | PtrCycle false => set_csr_cycle (((rv.(csr_cycle) ≫ 32) ≪ 32) .| v) rv
  | PtrCycle true => set_csr_cycle (u32 rv.(csr_cycle) .| (v ≪ 32)) rv
  end.

Definition csr_get_ptr (rv : riscv) (csr : Z) : option csr_ptr * riscv :=
  let at_ r := (Some (PtrCsr r), rv) in
  match csr .& 0xFFF with
  | 0x300 => at_ csr_mstatus
  | 0x305 => at_ csr_mtvec
  | 0x301 => at_ csr_misa
  | 0x302 => at_ csr_medeleg
  | 0x303 => at_ csr_mideleg
  | 0x340 => at_ csr_mscratch
  | 0x341 => at_ csr_mepc
  | 0x342 => at_ csr_mcause
  | 0x343 => at_ csr_mtval
  | 0x344 => at_ csr_mip
  | 0xC00 => (Some (PtrCycle false), rv)
  | 0xC80 => (Some (PtrCycle true), rv)
  | 0xC01 => (Some (PtrCsr csr_time0), update_time rv)
  | 0xC81 => (Some (PtrCsr csr_time1), update_time rv)
  | 0xC02 => (Some (PtrCycle false), rv)
  | 0xC82 => (Some (PtrCycle true), rv)
  | 0x001 => at_ csr_fcsr
  | 0x003 => at_ csr_fcsr
  | 0x100 => at_ csr_sstatus
  | 0x104 => at_ csr_sie
  | 0x105 => at_ csr_stvec
  | 0x106 => at_ csr_scounteren
  | 0x140 => at_ csr_sscratch
  | 0x141 => at_ csr_sepc
  | 0x142 => at_ csr_scause
  | 0x143 => at_ csr_stval
  | 0x144 => at_ csr_sip
  | 0x180 => at_ csr_satp
  | _ => (None, rv)
  end.

(** Sync cycle counter for cycle-related CSRs only. *)
Definition sync_cycle (csr cycle : Z) (rv : riscv) : riscv :=
  match csr .& 0xFFF with
  | 0xC00 | 0xC80 | 0xC02 | 0xC82 => set_csr_cycle cycle rv
  | _ => rv
  end.

(** The three read-modify-write primitives differ in the new value. *)
Definition csr_rmw (f : Z -> Z) (rv : riscv) (csr cycle : Z) : Z * riscv :=
  let rv := sync_cycle csr cycle rv in
  match csr_get_ptr rv csr with
  | (None, rv) => (0, rv)
  | (Some c, rv) =>
      let out := load_ptr rv c in
      (if csr =? CSR_FFLAGS then out .& FFLAG_MASK else out, store_ptr c (f out) rv)
  end.

Definition csr_csrrw (rv : riscv) (csr val cycle : Z) : Z * riscv :=
  csr_rmw (fun _ => val) rv csr cycle.
Definition csr_csrrs (rv : riscv) (csr val cycle : Z) : Z * riscv :=
  csr_rmw (fun c => c .| val) rv csr cycle.
Definition csr_csrrc (rv : riscv) (csr val cycle : Z) : Z * riscv :=
  csr_rmw (fun c => c .& not32 val) rv csr cycle.
End Zicsr.
