(* ===== verification/Fp.v ===== *)
(** Single-precision support (softfp.h).

    Berkeley SoftFloat is a submodule of the repository: its operations and
    constants are the parameters [SoftFloat].  An operation takes the rounding
    mode where it uses one and returns its result with the exception flags it
    raises; the global flag word accumulates them. *)

From stdpp Require Import base list option numbers gmap.
From Stdlib Require Import ZArith Lia Bool.
From S2P Require Import Prelude Bits Insn Mem State.
#[local] Open Scope Z_scope.

Definition FMASK_SIGN : Z := 0x80000000.
Definition FMASK_EXPN : Z := 0x7f800000.
Definition FMASK_FRAC : Z := 0x007fffff.
Definition FMASK_QNAN : Z := 0x00400000.
Definition FFLAG_INVALID_OP : Z := 0x10.
Definition FFLAG_DIV_BY_ZERO : Z := 0x08.
Definition FFLAG_OVERFLOW : Z := 0x04.
Definition FFLAG_UNDERFLOW : Z := 0x02.
Definition FFLAG_INEXACT : Z := 0x01.
Definition RV_NAN : Z := 0x7fc00000.

Class SoftFloat : Type := {
  softfloat_round_near_even : Z;
  softfloat_round_minMag : Z;
  softfloat_round_min : Z;
  softfloat_round_max : Z;
  softfloat_round_near_maxMag : Z;
  softfloat_flag_inexact : Z;
  softfloat_flag_underflow : Z;
  softfloat_flag_overflow : Z;
  softfloat_flag_infinite : Z;
  softfloat_flag_invalid : Z;
  f32_mulAdd : Z -> Z -> Z -> Z -> Z * Z;
  f32_add : Z -> Z -> Z -> Z * Z;
  f32_sub : Z -> Z -> Z -> Z * Z;
  f32_mul : Z -> Z -> Z -> Z * Z;
  f32_div : Z -> Z -> Z -> Z * Z;
  f32_sqrt : Z -> Z -> Z * Z;
  f32_to_i32 : Z -> Z -> Z * Z;
  f32_to_ui32 : Z -> Z -> Z * Z;
  i32_to_f32 : Z -> Z -> Z * Z;
  ui32_to_f32 : Z -> Z -> Z * Z;
  f32_eq : Z -> Z -> bool * Z;
  f32_lt : Z -> Z -> bool * Z;
  f32_le : Z -> Z -> bool * Z;
  f32_lt_quiet : Z -> Z -> bool * Z;
  f32_isSignalingNaN : Z -> bool;
}.

(** compute the fclass result *)
Definition calc_fclass (f : Z) : Z :=
  let sign := f .& FMASK_SIGN in
  let expn := f .& FMASK_EXPN in
  let frac := f .& FMASK_FRAC in
  if truthy expn then
    if negb (expn =? FMASK_EXPN) then (if truthy sign then 0x002 else 0x040)
    else if truthy frac then (if truthy (frac .& FMASK_QNAN) then 0x200 else 0x100)
    else if negb (truthy sign) then 0x080
    else 0x001
  else if truthy frac then (if truthy sign then 0x004 else 0x020)
  else (if truthy sign then 0x008 else 0x010).

Definition is_nan (f : Z) : bool :=
  let expn := f .& FMASK_EXPN in
  let frac := f .& FMASK_FRAC in
  (expn =? FMASK_EXPN) && truthy frac.

Section SoftFp.
Context `{SoftFloat}.

Definition set_fflag (rv : riscv) : riscv :=
  let add mask flag rv :=
    if truthy (rv.(softfloat_exceptionFlags) .& mask)
    then set_csr csr_fcsr (csr_val rv csr_fcsr .| flag) rv else rv in
  let rv := add softfloat_flag_invalid FFLAG_INVALID_OP rv in
  let rv := add softfloat_flag_infinite FFLAG_DIV_BY_ZERO rv in
  let rv := add softfloat_flag_overflow FFLAG_OVERFLOW rv in
  let rv := add softfloat_flag_underflow FFLAG_UNDERFLOW rv in
  let rv := add softfloat_flag_inexact FFLAG_INEXACT rv in
  set_softfloat_exceptionFlags 0 rv.

(** [None] is the [__UNREACHABLE] default. *)
Definition set_rounding_mode (rv : riscv) (rm : Z) : option riscv :=
  let frm := (csr_val rv csr_fcsr ≫ 5) .& not32 (1 ≪ 3) in
  let rm := if rm =? 7 then u8 frm else rm in
  match rm with
  | 0 => Some (set_softfloat_roundingMode softfloat_round_near_even rv)
  | 1 => Some (set_softfloat_roundingMode softfloat_round_minMag rv)
  | 2 => Some (set_softfloat_roundingMode softfloat_round_min rv)
  | 3 => Some (set_softfloat_roundingMode softfloat_round_max rv)
  | 4 => Some (set_softfloat_roundingMode softfloat_round_near_maxMag rv)
  | _ => None
  end.

(** Accumulate the flags a SoftFloat call raises. *)
Definition raise (flags : Z) (rv : riscv) : riscv :=
  set_softfloat_exceptionFlags (rv.(softfloat_exceptionFlags) .| flags) rv.
End SoftFp.
