(* ===== verification/Alu.v ===== *)
(** The value computations of the instruction bodies in rv32_template.c.

    [alu_X] is the expression instruction [X] assigns to its destination, on
    [uint32_t] operands, with every conversion of the C code written out.  A
    shift by 32 or more is undefined in C and gives [None]. *)

From stdpp Require Import base list option numbers.
From Stdlib Require Import ZArith Lia Bool.
From S2P Require Import Prelude Bits.
#[local] Open Scope Z_scope.

(** * Shifts with the C side condition *)

Definition c_shl (x n : Z) : option Z := if n <? 32 then Some (shl32 x n) else None.
Definition c_shr (x n : Z) : option Z := if n <? 32 then Some (x ≫ n) else None.

(** * RV32I *)

Definition alu_addi (x imm : Z) : Z := add32 x imm.
Definition alu_slti (x imm : Z) : Z := b2z (i32 x <? imm).
Definition alu_sltiu (x imm : Z) : Z := b2z (x <? u32 imm).
Definition alu_xori (x imm : Z) : Z := x .^ u32 imm.
Definition alu_ori (x imm : Z) : Z := x .| u32 imm.
Definition alu_andi (x imm : Z) : Z := x .& u32 imm.
Definition alu_slli (x imm : Z) : Z := shl32 x (imm .& 0x1f).
Definition alu_srli (x imm : Z) : Z := x ≫ (imm .& 0x1f).
Definition alu_srai (x imm : Z) : Z := u32 (i32 x ≫ (imm .& 0x1f)).
Definition alu_add (x y : Z) : Z := add32 x y.
Definition alu_sub (x y : Z) : Z := sub32 x y.
Definition alu_sll (x y : Z) : Z := shl32 x (y .& 0x1f).
Definition alu_slt (x y : Z) : Z := b2z (i32 x <? i32 y).
Definition alu_sltu (x y : Z) : Z := b2z (x <? y).
Definition alu_xor (x y : Z) : Z := x .^ y.
Definition alu_srl (x y : Z) : Z := x ≫ (y .& 0x1f).
Definition alu_sra (x y : Z) : Z := u32 (i32 x ≫ (y .& 0x1f)).
Definition alu_or (x y : Z) : Z := x .| y.
Definition alu_and (x y : Z) : Z := x .& y.

(** * RV32M *)

Definition alu_mul (x y : Z) : Z :=
  let multiplicand := i32 x in
  let multiplier := i32 y in
  u64 (multiplicand * multiplier) .& ((1 ≪ 32) - 1).

Definition alu_mulh (x y : Z) : Z :=
  let multiplicand := i32 x in
  let multiplier := i32 y in
  u32 (u64 (multiplicand * multiplier) ≫ 32).

Definition alu_mulhsu (x y : Z) : Z :=
  let multiplicand := i32 x in
  let umultiplier := y in
  u32 (u64 (u64 multiplicand * umultiplier) ≫ 32).

Definition alu_mulhu (x y : Z) : Z := u32 (u64 (x * y) ≫ 32).

Definition alu_div (x y : Z) : Z :=
  let dividend := i32 x in
  let divisor := i32 y in
  if divisor =? 0 then not32 0
  else if (divisor =? -1) && (x =? 0x80000000) then x
  else u32 (Z.quot dividend divisor).

Definition alu_divu (x y : Z) : Z := if y =? 0 then not32 0 else Z.quot x y.

Definition alu_rem (x y : Z) : Z :=
  let dividend := i32 x in
  let divisor := i32 y in
  u32 (if divisor =? 0 then dividend
       else if (divisor =? -1) && (x =? 0x80000000) then 0
       else Z.rem dividend divisor).

Definition alu_remu (x y : Z) : Z := if y =? 0 then x else Z.rem x y.

(** * RV32A: the value an AMO stores *)

Definition amo_add (v1 v2 : Z) : Z := add32 v1 v2.
Definition amo_min (v1 v2 : Z) : Z := if i32 v1 <? i32 v2 then v1 else v2.
Definition amo_max (v1 v2 : Z) : Z := if i32 v1 >? i32 v2 then v1 else v2.
Definition amo_minu (v1 v2 : Z) : Z := if v1 <? v2 then v1 else v2.
Definition amo_maxu (v1 v2 : Z) : Z := if v1 >? v2 then v1 else v2.

(** * RV32C *)

Definition alu_caddi4spn (sp imm : Z) : Z := add32 sp (u16 imm).
Definition alu_caddi (x imm : Z) : Z := add32 x (i16 imm).
Definition alu_caddi16sp (x imm : Z) : Z := add32 x imm.
Definition alu_csrli (x shamt : Z) : option Z := c_shr x shamt.

Definition alu_csrai (x shamt : Z) : option Z :=
  let mask := 0x80000000 .& x in
  let? x := c_shr x shamt in
  Some (fold_left (fun x i => x .| (mask ≫ i)) (seqZ 0 shamt) x).

Definition alu_candi (x imm : Z) : Z := x .& u32 imm.
Definition alu_cslli (x imm : Z) : option Z := c_shl x (u8 imm).

(** * Zba *)

Definition alu_sh1add (x y : Z) : Z := add32 (shl32 x 1) y.
Definition alu_sh2add (x y : Z) : Z := add32 (shl32 x 2) y.
Definition alu_sh3add (x y : Z) : Z := add32 (shl32 x 3) y.

(** * Zbb *)

Definition alu_andn (x y : Z) : Z := x .& not32 y.
Definition alu_orn (x y : Z) : Z := x .| not32 y.
Definition alu_xnor (x y : Z) : Z := not32 (x .^ y).

(** [__builtin_clz], [__builtin_ctz] and [__builtin_popcount] (common.h); the
    first two are only called on a nonzero value. *)
Definition rv_clz (v : Z) : Z := 31 - Z.log2 v.

Fixpoint ctz_pos (p : positive) : Z :=
  match p with xO q => 1 + ctz_pos q | _ => 0 end.
Definition rv_ctz (v : Z) : Z := match v with Zpos p => ctz_pos p | _ => 0 end.

Fixpoint popcount_pos (p : positive) : Z :=
  match p with xO q => popcount_pos q | xI q => 1 + popcount_pos q | xH => 1 end.
Definition rv_popcount (v : Z) : Z := match v with Zpos p => popcount_pos p | _ => 0 end.

Definition alu_clz (x : Z) : Z := if truthy x then rv_clz x else 32.
Definition alu_ctz (x : Z) : Z := if truthy x then rv_ctz x else 32.
Definition alu_cpop (x : Z) : Z := rv_popcount x.
Definition alu_max (x y : Z) : Z := if i32 x >? i32 y then x else y.
Definition alu_min (x y : Z) : Z := if i32 x <? i32 y then x else y.
Definition alu_maxu (x y : Z) : Z := if x >? y then x else y.
Definition alu_minu (x y : Z) : Z := if x <? y then x else y.
Definition alu_zexth (x : Z) : Z := x .& 0x0000ffff.

Definition alu_rol (x y : Z) : option Z :=
  let shamt := y .& 0x1f in
  let? a := c_shl x shamt in
  let? b := c_shr x (32 - shamt) in
  Some (a .| b).

Definition alu_ror (x y : Z) : option Z :=
  let shamt := y .& 0x1f in
  let? a := c_shr x shamt in
  let? b := c_shl x (32 - shamt) in
  Some (a .| b).

Definition alu_rori (x imm : Z) : option Z := alu_ror x imm.

Definition alu_orcb (x : Z) : Z :=
  fold_left (fun out i =>
      if truthy (x .& shl32 0xff (i * 8)) then out .| shl32 0xff (i * 8) else out)
    [0; 1; 2; 3] 0.

Definition alu_rev8 (x : Z) : Z :=
  shl32 (x .& 0xff) 24 .| shl32 (x .& 0xff00) 8 .| ((x .& 0xff0000) ≫ 8)
  .| ((x .& 0xff000000) ≫ 24).

(** * Zbc *)

Definition alu_clmul (x y : Z) : Z :=
  fold_left (fun output i => if truthy ((y ≫ i) .& 1) then output .^ shl32 x i else output)
    (seqZ 0 32) 0.

Definition alu_clmulh (x y : Z) : Z :=
  fold_left (fun output i => if truthy ((y ≫ i) .& 1) then output .^ (x ≫ (32 - i)) else output)
    (seqZ 1 31) 0.

Definition alu_clmulr (x y : Z) : Z :=
  fold_left (fun output i =>
      if truthy ((y ≫ i) .& 1) then output .^ (x ≫ (32 - i - 1)) else output)
    (seqZ 0 32) 0.

(** * Zbs *)

Definition alu_bclr (x y : Z) : Z := x .& not32 (shl32 1 (y .& (32 - 1))).
Definition alu_bext (x y : Z) : Z := (x ≫ (y .& (32 - 1))) .& 1.
Definition alu_binv (x y : Z) : Z := x .^ shl32 1 (y .& (32 - 1)).
Definition alu_bset (x y : Z) : Z := x .| shl32 1 (y .& (32 - 1)).
