(* ===== verification/AluSpec.v ===== *)
(** The computations of [Alu] against reference definitions: multiplication and
    division of RV32M over the integers, counting and rotation by their bits,
    and carry-less multiplication as a product of polynomials. *)

From stdpp Require Import base list option numbers.
From Stdlib Require Import ZArith Lia Bool.
From S2P Require Import Prelude Bits Alu.
#[local] Open Scope Z_scope.

(** * Multiplication and division *)

(** The high half of a 64-bit product. *)
Lemma high_half (a : Z) : u32 (u64 a ≫ 32) = (a / 2 ^ 32) mod 2 ^ 32.
Proof.
  unfold u32, u64. rewrite <- (Z.shiftr_div_pow2 a 32) by lia.
  apply Z.bits_inj'. intros i Hi. rewrite !testbit_mod, !Z.shiftr_spec, testbit_mod by lia.
  destruct (Z.ltb_spec i 32), (Z.ltb_spec (i + 32) 64); try lia; done.
Qed.

Lemma low_half (a : Z) : u64 a .& ((1 ≪ 32) - 1) = a mod 2 ^ 32.
Proof.
  change ((1 ≪ 32) - 1) with (Z.ones 32). rewrite Z.land_ones by lia.
  unfold u64. apply mod_pow2_mod. lia.
Qed.

Lemma mul_i32_mod (x y : Z) : (i32 x * i32 y) mod 2 ^ 32 = (x * y) mod 2 ^ 32.
Proof.
  rewrite Zmult_mod. fold (u32 (i32 x)) (u32 (i32 y)). rewrite !u32_i32.
  unfold u32. by rewrite <- Zmult_mod.
Qed.

Lemma mul_values (x y : Z) :
  is_u32 x -> is_u32 y ->
  alu_mul x y = (x * y) mod 2 ^ 32 /\
  alu_mulh x y = (i32 x * i32 y / 2 ^ 32) mod 2 ^ 32 /\
  alu_mulhsu x y = (i32 x * y / 2 ^ 32) mod 2 ^ 32 /\
  alu_mulhu x y = x * y / 2 ^ 32.
Proof.
  intros Hx Hy. unfold alu_mul, alu_mulh, alu_mulhsu, alu_mulhu.
  rewrite low_half, !high_half, mul_i32_mod. split_and!; [done|done| |].
  - rewrite <- high_half, <- (high_half (i32 x * y)). do 2 f_equal.
    unfold u64. rewrite Zmult_mod_idemp_l. done.
  - apply Z.mod_small. unfold is_u32 in *. split.
    + apply Z.div_pos; nia.
    + apply Z.div_lt_upper_bound; nia.
Qed.

(** RV32M products: [MUL] is the low word of the product, [MULH], [MULHSU]
    and [MULHU] the high words of the signed, mixed and unsigned 64-bit
    products. *)
Theorem mul_correct (x y : Z) :
  is_u32 x -> is_u32 y ->
  alu_mul x y = (x * y) mod 2 ^ 32 /\
  alu_mulh x y = (i32 x * i32 y / 2 ^ 32) mod 2 ^ 32 /\
  alu_mulhsu x y = (i32 x * y / 2 ^ 32) mod 2 ^ 32 /\
  alu_mulhu x y = x * y / 2 ^ 32.
Proof. apply mul_values. Qed.

Lemma mul_correct_witness :
  alu_mulh 0xffffffff 0x7fffffff = (i32 0xffffffff * i32 0x7fffffff / 2 ^ 32) mod 2 ^ 32 /\
  alu_mulh 0xffffffff 0x7fffffff = 0xffffffff.
Proof.
  destruct (mul_correct 0xffffffff 0x7fffffff) as (_ & H & _); [by vm_compute|by vm_compute|].
  split; [exact H|]. rewrite H. reflexivity.
Defined.

Lemma i32_zero_iff (x : Z) : is_u32 x -> i32 x = 0 <-> x = 0.
Proof.
  intros Hx. split; [|by intros ->]. intros H.
  rewrite <- (u32_id x Hx), <- u32_i32, H. done.
Qed.

Lemma i32_min_iff (x : Z) : is_u32 x -> i32 x = - 2 ^ 31 <-> x = 0x80000000.
Proof.
  intros Hx. split; [|by intros ->]. intros H.
  rewrite <- (u32_id x Hx), <- u32_i32, H. done.
Qed.

(** RV32M division: dividing by zero gives all ones and the dividend, the
    one overflowing quotient gives the dividend and remainder 0, and otherwise
    quotient and remainder satisfy the division equation, with a remainder
    smaller than the divisor and of the sign of the dividend. *)
Theorem div_rem_correct (x y : Z) :
  is_u32 x -> is_u32 y ->
  (y = 0 -> alu_div x y = 2 ^ 32 - 1 /\ alu_rem x y = x /\
            alu_divu x y = 2 ^ 32 - 1 /\ alu_remu x y = x) /\
  (y = 2 ^ 32 - 1 -> x = 2 ^ 31 -> alu_div x y = x /\ alu_rem x y = 0) /\
  (y <> 0 -> ~ (y = 2 ^ 32 - 1 /\ x = 2 ^ 31) ->
   i32 x = i32 y * i32 (alu_div x y) + i32 (alu_rem x y) /\
   Z.abs (i32 (alu_rem x y)) < Z.abs (i32 y) /\ 0 <= i32 (alu_rem x y) * i32 x) /\
  (y <> 0 -> x = y * alu_divu x y + alu_remu x y /\ 0 <= alu_remu x y < y).
Proof.
  intros Hx Hy. unfold alu_div, alu_rem, alu_divu, alu_remu.
  pose proof (i32_range x) as Rx. pose proof (i32_range y) as Ry. unfold is_i32 in *.
  split_and!.
  - intros ->. change (i32 0 =? 0) with true. cbv iota. rewrite u32_i32, u32_id by done. done.
  - intros -> ->. by vm_compute.
  - intros Hy0 Hov. assert (Hi : i32 y <> 0) by (by rewrite i32_zero_iff).
    rewrite (proj2 (Z.eqb_neq _ _) Hi).
    assert ((i32 y =? -1) && (x =? 0x80000000) = false) as ->.
    { apply andb_false_iff. destruct (Z.eqb_spec (i32 y) (-1)) as [E|]; [|by left].
      right. apply Z.eqb_neq. intros ->. apply Hov. split; [|done].
      rewrite <- (u32_id y Hy), <- u32_i32, E. done. }
    pose proof (Z.quot_rem (i32 x) (i32 y) Hi) as E.
    pose proof (Z.rem_bound_abs (i32 x) (i32 y) Hi) as B.
    pose proof (Z.rem_sign_mul (i32 x) (i32 y) Hi) as S.
    assert (Hr : is_i32 (Z.rem (i32 x) (i32 y))) by (unfold is_i32; lia).
    assert (Hq : is_i32 (Z.quot (i32 x) (i32 y))).
    { unfold is_i32. set (q := Z.quot _ _) in *. set (r := Z.rem _ _) in *.
      assert (~ (i32 y = -1 /\ i32 x = - 2 ^ 31)).
      { intros [E1 E2]. apply Hov. rewrite i32_min_iff in E2 by done. split; [|done].
        rewrite <- (u32_id y Hy), <- u32_i32, E1. done. }
      destruct (Z.eq_dec (i32 y) (-1)) as [E1|]; [rewrite E1 in *; lia|]. nia. }
    rewrite !i32_u32, (i32_id _ Hr), (i32_id _ Hq). lia.
  - intros Hy0. rewrite (proj2 (Z.eqb_neq _ _) Hy0).
    pose proof (Z.quot_rem x y Hy0). pose proof (Z.rem_bound_pos x y). unfold is_u32 in *. lia.
Qed.

Lemma div_rem_correct_witness :
  alu_div 0xfffffff9 2 = 0xfffffffd /\ alu_rem 0xfffffff9 2 = 0xffffffff /\
  i32 0xfffffff9 = i32 2 * i32 (alu_div 0xfffffff9 2) + i32 (alu_rem 0xfffffff9 2).
Proof.
  split; [reflexivity|]. split; [reflexivity|].
  destruct (div_rem_correct 0xfffffff9 2) as (_ & _ & H & _); [by vm_compute|by vm_compute|].
  apply H; [by vm_compute|]. intros [E _]. vm_compute in E. discriminate E.
Defined.

(** * Counting bits *)

Fixpoint bit_count (n : nat) (x : Z) : Z :=
  match n with
  | O => 0
  | S n' => b2z (Z.testbit x (Z.of_nat n')) + bit_count n' x
  end.

(** Removing the low bit shifts the count. *)
Lemma bit_count_div2 (n : nat) (x : Z) :
  bit_count (S n) x = b2z (Z.odd x) + bit_count n (Z.div2 x).
Proof.
  induction n as [|n IH].
  - cbn [bit_count]. by rewrite Z.bit0_odd.
  - cbn [bit_count] in IH |- *. rewrite IH. rewrite Z.div2_spec, Z.shiftr_spec by lia.
    rewrite Nat2Z.inj_succ. unfold Z.succ. lia.
Qed.

Lemma popcount_step (x : Z) : 0 <= x -> rv_popcount x = b2z (Z.odd x) + rv_popcount (Z.div2 x).
Proof. destruct x as [|[p|p|]|]; simpl; lia. Qed.

Lemma popcount_bits (n : nat) (x : Z) :
  0 <= x < 2 ^ Z.of_nat n -> rv_popcount x = bit_count n x.
Proof.
  revert x. induction n as [|n IH]; intros x Hx.
  - replace x with 0 by (simpl in Hx; lia). done.
  - rewrite Nat2Z.inj_succ, Z.pow_succ_r in Hx by lia.
    rewrite popcount_step, bit_count_div2, IH by
      (try rewrite Z.div2_div; Z.to_euclidean_division_equations; lia). done.
Qed.

Lemma ctz_pos_spec (p : positive) :
  0 <= ctz_pos p /\ Z.testbit (Zpos p) (ctz_pos p) = true /\
  forall i, 0 <= i < ctz_pos p -> Z.testbit (Zpos p) i = false.
Proof.
  induction p as [p IH|p IH|]; cbn [ctz_pos]; [repeat split; try lia; done| |repeat split; lia || done].
  destruct IH as (H0 & H1 & H2). change (Z.pos p~0) with (2 * Z.pos p).
  split_and!; [lia| |].
  - replace (1 + ctz_pos p) with (Z.succ (ctz_pos p)) by lia. by rewrite Z.double_bits_succ.
  - intros i Hi. destruct (Z.eq_dec i 0) as [->|]; [apply Z.testbit_even_0|].
    replace i with (Z.succ (i - 1)) by lia. rewrite Z.double_bits_succ by lia. apply H2. lia.
Qed.

Lemma log2_u32 (x : Z) : is_u32 x -> x <> 0 -> 0 <= Z.log2 x < 32.
Proof.
  unfold is_u32. intros. split; [apply Z.log2_nonneg|]. apply Z.log2_lt_pow2; lia.
Qed.

(** * Bytes *)

Lemma land_byte (x k : Z) :
  0 <= k <= 24 -> truthy (x .& (0xff ≪ k)) = negb (field x k 8 =? 0).
Proof.
  intros Hk. unfold truthy. f_equal.
  assert (x .& (0xff ≪ k) = field x k 8 ≪ k) as ->.
  { unfold field. apply Z.bits_inj'. intros i Hi.
    rewrite Z.land_spec, !Z.shiftl_spec by lia.
    destruct (Z.lt_ge_cases i k).
    - rewrite !(Z.testbit_neg_r _ (i - k)) by lia. apply andb_false_r.
    - rewrite testbit_mod, Z.shiftr_spec by lia. change 0xff with (Z.ones 8).
      rewrite Z.testbit_ones by lia. replace (i - k + k) with i by lia.
      destruct (Z.leb_spec 0 (i - k)); [|lia]. rewrite andb_comm. done. }
  rewrite Z.shiftl_mul_pow2 by lia. pose proof (Z.pow_pos_nonneg 2 k).
  apply eq_true_iff_eq. rewrite !Z.eqb_eq. nia.
Qed.

(** The OR-combine of one byte. *)
Definition orc_byte (b : Z) : Z := if b =? 0 then 0 else 0xff.

Lemma alu_orcb_bytes (x : Z) :
  alu_orcb x = orc_byte (field x 0 8) .| (orc_byte (field x 8 8) ≪ 8)
               .| (orc_byte (field x 16 8) ≪ 16) .| (orc_byte (field x 24 8) ≪ 24).
Proof.
  unfold alu_orcb, orc_byte. cbn [fold_left].
  change (shl32 0xff (0 * 8)) with (0xff ≪ 0). change (shl32 0xff (1 * 8)) with (0xff ≪ 8).
  change (shl32 0xff (2 * 8)) with (0xff ≪ 16). change (shl32 0xff (3 * 8)) with (0xff ≪ 24).
  rewrite !land_byte by lia.
  destruct (field x 0 8 =? 0), (field x 8 8 =? 0), (field x 16 8 =? 0), (field x 24 8 =? 0); done.
Qed.

(** Zbb: [CLZ] and [CTZ] locate the highest and lowest set bit (and give 32
    on zero), [CPOP] counts the set bits, [REV8] reverses the bytes, and [ORC.B]
    turns every nonzero byte into 0xff. *)
Theorem zbb_correct (x : Z) :
  is_u32 x ->
  alu_clz 0 = 32 /\ alu_ctz 0 = 32 /\
  (x <> 0 ->
   0 <= alu_clz x < 32 /\ Z.testbit x (31 - alu_clz x) = true /\
   (forall i, 31 - alu_clz x < i -> Z.testbit x i = false) /\
   0 <= alu_ctz x < 32 /\ Z.testbit x (alu_ctz x) = true /\
   (forall i, 0 <= i < alu_ctz x -> Z.testbit x i = false)) /\
  alu_cpop x = bit_count 32 x /\
  (field (alu_rev8 x) 0 8 = field x 24 8 /\ field (alu_rev8 x) 8 8 = field x 16 8 /\
   field (alu_rev8 x) 16 8 = field x 8 8 /\ field (alu_rev8 x) 24 8 = field x 0 8) /\
  alu_orcb x = orc_byte (field x 0 8) .| (orc_byte (field x 8 8) ≪ 8)
               .| (orc_byte (field x 16 8) ≪ 16) .| (orc_byte (field x 24 8) ≪ 24).
Proof.
  intros Hx. split_and!; [done|done| | | | | | |apply alu_orcb_bytes].
  - intros Hx0. unfold alu_clz, alu_ctz, truthy. rewrite (proj2 (Z.eqb_neq x 0) Hx0). simpl negb.
    cbv iota. pose proof (log2_u32 x Hx Hx0) as Hl. unfold rv_clz.
    replace (31 - (31 - Z.log2 x)) with (Z.log2 x) by lia.
    assert (0 < x) by (unfold is_u32 in Hx; lia).
    destruct x as [|p|]; try lia. cbn [rv_ctz].
    destruct (ctz_pos_spec p) as (H0 & H1 & H2).
    split_and!; try lia; try done.
    + by apply Z.bit_log2.
    + intros. by apply Z.bits_above_log2; lia.
    + destruct (Z.lt_ge_cases (ctz_pos p) 32); [done|].
      rewrite u32_testbit_high in H1 by done. done.
  - apply (popcount_bits 32). apply Hx.
  - unfold alu_rev8, shl32. bits_eq [x].
  - unfold alu_rev8, shl32. bits_eq [x].
  - unfold alu_rev8, shl32. bits_eq [x].
  - unfold alu_rev8, shl32. bits_eq [x].
Qed.

Lemma zbb_correct_witness :
  is_u32 0x00f00010 /\ alu_clz 0x00f00010 = 8 /\ alu_ctz 0x00f00010 = 4 /\
  alu_cpop 0x00f00010 = bit_count 32 0x00f00010.
Proof.
  split; [by vm_compute|]. split; [reflexivity|]. split; [reflexivity|].
  apply (zbb_correct 0x00f00010). by vm_compute.
Defined.

(** * Carry-less multiplication *)

(** The product of two polynomials over GF(2), untruncated. *)
Definition clmul_full (x y : Z) : Z :=
  fold_left (fun acc i => if Z.testbit y i then acc .^ (x ≪ i) else acc) (seqZ 0 32) 0.

(** A truncation that distributes over xor commutes with the loop. *)
Lemma clmul_fold (h : Z -> Z) (t : Z -> Z) (x y : Z) (l : list Z) (acc : Z) :
  (forall a b, h (a .^ b) = h a .^ h b) ->
  (forall i, i ∈ l -> 0 <= i /\ t i = h (x ≪ i)) ->
  fold_left (fun o i => if truthy ((y ≫ i) .& 1) then o .^ t i else o) l (h acc)
  = h (fold_left (fun acc i => if Z.testbit y i then acc .^ (x ≪ i) else acc) l acc).
Proof.
  intros Hh. revert acc. induction l as [|i l IH]; intros acc Ht; cbn [fold_left]; [done|].
  destruct (Ht i) as [Hi Hti]; [apply list_elem_of_here|].
  rewrite (truthy_land_bit (y ≫ i) 1 0) by reflexivity. rewrite Z.shiftr_spec, Z.add_0_l by done.
  rewrite Hti. rewrite <- IH by (intros; apply Ht; by apply list_elem_of_further).
  destruct (Z.testbit y i); [|done]. by rewrite Hh.
Qed.

Lemma fold_left_cons {A B : Type} (f : A -> B -> A) (b : B) (l : list B) (a : A) :
  fold_left f (b :: l) a = fold_left f l (f a b).
Proof. done. Qed.

Lemma lxor_mod (a b n : Z) : 0 <= n -> (a .^ b) mod 2 ^ n = (a mod 2 ^ n) .^ (b mod 2 ^ n).
Proof.
  intros. apply Z.bits_inj'. intros i Hi. rewrite Z.lxor_spec, !testbit_mod, Z.lxor_spec by lia.
  destruct (i <? n); done.
Qed.

Lemma clmul_values (x y : Z) :
  is_u32 x -> is_u32 y ->
  alu_clmul x y = clmul_full x y mod 2 ^ 32 /\
  alu_clmulh x y = clmul_full x y ≫ 32 /\
  alu_clmulr x y = clmul_full x y ≫ 31.
Proof.
  intros Hx Hy. unfold alu_clmul, alu_clmulh, alu_clmulr, clmul_full. split_and!.
  - apply (clmul_fold (fun a => a mod 2 ^ 32) (fun i => shl32 x i) x y (seqZ 0 32) 0).
    + intros. apply lxor_mod. lia.
    + intros i Hi%elem_of_seqZ. split; [lia|done].
  - rewrite (eq_refl : seqZ 0 32 = 0 :: seqZ 1 31), fold_left_cons.
    transitivity (fold_left (fun o i => if truthy ((y ≫ i) .& 1) then o .^ (x ≫ (32 - i)) else o)
                    (seqZ 1 31) ((if Z.testbit y 0 then 0 .^ (x ≪ 0) else 0) ≫ 32)).
    + f_equal. destruct (Z.testbit y 0); [|done]. rewrite Z.lxor_0_l, Z.shiftl_0_r.
      rewrite Z.shiftr_div_pow2 by lia. unfold is_u32 in Hx. by rewrite Z.div_small by lia.
    + apply (clmul_fold (fun a => a ≫ 32) (fun i => x ≫ (32 - i))).
      * intros. apply Z.shiftr_lxor.
      * intros i Hi%elem_of_seqZ. split; [lia|]. rewrite Z.shiftr_shiftl_r by lia. done.
  - apply (clmul_fold (fun a => a ≫ 31) (fun i => x ≫ (32 - i - 1)) x y (seqZ 0 32) 0).
    + intros. apply Z.shiftr_lxor.
    + intros i Hi%elem_of_seqZ. split; [lia|]. rewrite Z.shiftr_shiftl_r by lia. f_equal. lia.
Qed.

(** Zbc: [CLMUL], [CLMULH] and [CLMULR] are bits 31:0, 63:32 and 62:31 of
    the carry-less product. *)
Theorem zbc_correct (x y : Z) :
  is_u32 x -> is_u32 y ->
  alu_clmul x y = clmul_full x y mod 2 ^ 32 /\
  alu_clmulh x y = clmul_full x y ≫ 32 /\
  alu_clmulr x y = clmul_full x y ≫ 31.
Proof. apply clmul_values. Qed.

Lemma zbc_correct_witness :
  is_u32 0x80000001 /\ alu_clmulr 0x80000001 0x80000001 = clmul_full 0x80000001 0x80000001 ≫ 31.
Proof. split; [by vm_compute|]. apply zbc_correct; by vm_compute. Defined.

(** * Single bits, rotations and the shift loop of C.SRAI *)

Lemma land_31 (y : Z) : (y .& 0x1f) = y mod 2 ^ 5.
Proof. change 0x1f with (Z.ones 5). by apply Z.land_ones. Qed.

Lemma shl32_1 (k : Z) : 0 <= k < 32 -> shl32 1 k = 2 ^ k.
Proof.
  intros. unfold shl32. rewrite Z.shiftl_1_l. apply u32_id. unfold is_u32.
  split; [apply Z.pow_nonneg; lia|]. apply Z.pow_lt_mono_r; lia.
Qed.

Lemma shl32_testbit (x k i : Z) :
  0 <= k -> 0 <= i < 32 -> Z.testbit (shl32 x k) i = Z.testbit x (i - k).
Proof.
  intros. unfold shl32, u32. rewrite testbit_mod, Z.shiftl_spec by lia.
  destruct (Z.ltb_spec i 32); [done|lia].
Qed.

Lemma not32_testbit (x i : Z) : 0 <= i < 32 -> Z.testbit (not32 x) i = negb (Z.testbit x i).
Proof.
  intros. unfold not32, u32. rewrite testbit_mod, Z.lnot_spec by lia.
  destruct (Z.ltb_spec i 32); [done|lia].
Qed.

Lemma pow2_testbit (k i : Z) : 0 <= k -> Z.testbit (2 ^ k) i = (k =? i).
Proof.
  intros. destruct (Z.eqb_spec k i) as [->|]; [by apply Z.pow2_bits_true|].
  by apply Z.pow2_bits_false.
Qed.

Lemma bext_value (x y : Z) : alu_bext x y = b2z (Z.testbit x (y mod 32)).
Proof.
  unfold alu_bext. change (32 - 1) with 0x1f. rewrite land_31. change (2 ^ 5) with 32.
  pose proof (Z.mod_pos_bound y 32).
  change 1 with (Z.ones 1). rewrite Z.land_ones by lia. change (2 ^ 1) with 2.
  rewrite <- (Z.bit0_mod (x ≫ (y mod 32))), Z.shiftr_spec, Z.add_0_l by lia.
  unfold b2z, Z.b2z. done.
Qed.

(** The Zbs instructions clear, invert, set and extract the bit selected by
    the low five bits of the operand. *)
Theorem zbs_correct (x y i : Z) :
  is_u32 x -> 0 <= i < 32 ->
  Z.testbit (alu_bclr x y) i = Z.testbit x i && negb (y mod 32 =? i) /\
  Z.testbit (alu_binv x y) i = xorb (Z.testbit x i) (y mod 32 =? i) /\
  Z.testbit (alu_bset x y) i = Z.testbit x i || (y mod 32 =? i) /\
  alu_bext x y = b2z (Z.testbit x (y mod 32)).
Proof.
  intros Hx Hi. rewrite bext_value. unfold alu_bclr, alu_binv, alu_bset. change (32 - 1) with 0x1f.
  rewrite land_31. change (2 ^ 5) with 32. pose proof (Z.mod_pos_bound y 32).
  rewrite shl32_1 by lia.
  rewrite Z.land_spec, Z.lxor_spec, Z.lor_spec, not32_testbit, pow2_testbit by lia. done.
Qed.

Lemma zbs_correct_witness : is_u32 0xff /\ Z.testbit (alu_bclr 0xff 0x23) 3 = false.
Proof.
  split; [by vm_compute|].
  rewrite (proj1 (zbs_correct 0xff 0x23 3 ltac:(by vm_compute) ltac:(lia))). reflexivity.
Defined.

(** The loop of C.SRAI ors the sign bit into the vacated positions. *)
Lemma csrai_fold_testbit (x a j : Z) (n : nat) :
  0 <= j ->
  Z.testbit (fold_left (fun a i => a .| ((0x80000000 .& x) ≫ i)) (seqZ 0 (Z.of_nat n)) a) j
  = Z.testbit a j || (Z.testbit x 31 && (31 - Z.of_nat n <? j) && (j <=? 31)).
Proof.
  intros Hj. induction n as [|n IH].
  - change (Z.of_nat 0) with 0. rewrite Z.sub_0_r. change (seqZ 0 0) with (@nil Z). cbn [fold_left].
    destruct (Z.ltb_spec 31 j), (Z.leb_spec j 31); try lia;
      destruct (Z.testbit x 31), (Z.testbit a j); done.
  - rewrite seqZ_S, Nat2Z.inj_succ, fold_left_app. cbn [fold_left].
    rewrite Z.lor_spec, IH, Z.shiftr_spec, Z.land_spec by lia. rewrite Z.add_0_l.
    change 0x80000000 with (2 ^ 31). rewrite pow2_testbit by lia.
    destruct (Z.eqb_spec 31 (j + Z.of_nat n)) as [E|].
    + rewrite <- E.
      destruct (Z.ltb_spec (31 - Z.of_nat n) j), (Z.ltb_spec (31 - Z.succ (Z.of_nat n)) j),
        (Z.leb_spec j 31); try lia; destruct (Z.testbit x 31), (Z.testbit a j); done.
    + destruct (Z.ltb_spec (31 - Z.of_nat n) j), (Z.ltb_spec (31 - Z.succ (Z.of_nat n)) j),
        (Z.leb_spec j 31); try lia; destruct (Z.testbit x 31), (Z.testbit a j); done.
Qed.

Lemma csrai_loop (x s : Z) :
  is_u32 x -> 0 <= s < 32 -> alu_csrai x s = Some (u32 (i32 x ≫ s)).
Proof.
  intros Hx Hs. unfold alu_csrai, c_shr.
  destruct (Z.ltb_spec s 32); [|lia]. f_equal.
  apply Z.bits_inj'. intros j Hj. rewrite <- (Z2Nat.id s) at 1 by lia.
  rewrite csrai_fold_testbit, Z.shiftr_spec, Z2Nat.id by lia.
  unfold u32. rewrite testbit_mod, Z.shiftr_spec by lia. unfold i32. rewrite testbit_sx by lia.
  destruct (Z.ltb_spec j 32).
  - destruct (Z.lt_ge_cases (31 - s) j).
    + destruct (Z.ltb_spec (31 - s) j), (Z.leb_spec j 31); try lia.
      rewrite Z.min_r by lia. rewrite u32_testbit_high by (done || lia).
      by rewrite !andb_true_r.
    + destruct (Z.ltb_spec (31 - s) j); [lia|]. rewrite Z.min_l by lia.
      by rewrite andb_false_r, orb_false_r.
  - destruct (Z.leb_spec j 31); [lia|]. rewrite u32_testbit_high by (done || lia).
    by rewrite andb_false_r.
Qed.

(** Rotation by [s] places: bit [i] comes from bit [i - s] modulo 32. *)
Lemma rotate_bits (x s : Z) :
  is_u32 x -> 0 < s < 32 ->
  forall i, 0 <= i < 32 ->
  Z.testbit (shl32 x s .| (x ≫ (32 - s))) i = Z.testbit x ((i - s) mod 32).
Proof.
  intros Hx Hs i Hi. rewrite Z.lor_spec, shl32_testbit, Z.shiftr_spec by lia.
  destruct (Z.lt_ge_cases i s).
  - rewrite (Z.testbit_neg_r x (i - s)) by lia. simpl. f_equal.
    apply Z.mod_unique with (-1); lia.
  - rewrite (u32_testbit_high x (i + (32 - s))) by (done || lia).
    rewrite orb_false_r, Z.mod_small by lia. done.
Qed.

(** C22. The shifts by a variable amount: C.SRAI's loop is an arithmetic shift;
    [ROL] and [ROR] (and [RORI]) rotate when the amount is nonzero modulo 32,
    and shift by 32, which C leaves undefined, when it is zero; C.SLLI is
    undefined for the amounts of 32 and more the decoder lets through. *)
Theorem shift_rotate_correct (x y : Z) :
  is_u32 x ->
  (forall s, 0 <= s < 32 -> alu_csrai x s = Some (u32 (i32 x ≫ s))) /\
  (y mod 32 = 0 -> alu_rol x y = None /\ alu_ror x y = None) /\
  (y mod 32 <> 0 ->
   exists l r, alu_rol x y = Some l /\ alu_ror x y = Some r /\
   forall i, 0 <= i < 32 ->
     Z.testbit l i = Z.testbit x ((i - y) mod 32) /\
     Z.testbit r i = Z.testbit x ((i + y) mod 32)) /\
  (forall s, 32 <= s < 2 ^ 6 -> alu_cslli x s = None).
Proof.
  intros Hx. unfold alu_rol, alu_ror, c_shl, c_shr. rewrite land_31. change (2 ^ 5) with 32.
  pose proof (Z.mod_pos_bound y 32) as Hy. split_and!.
  - intros s Hs. by apply csrai_loop.
  - intros ->. done.
  - intros Hne. destruct (Z.ltb_spec (y mod 32) 32), (Z.ltb_spec (32 - y mod 32) 32); try lia.
    eexists _, _. split; [done|]. split; [done|]. intros i Hi. split.
    + rewrite rotate_bits by (done || lia). f_equal. apply Zminus_mod_idemp_r.
    + rewrite Z.lor_comm. replace (y mod 32) with (32 - (32 - y mod 32)) at 2 by lia.
      rewrite rotate_bits by (done || lia). f_equal.
      replace (i - (32 - y mod 32)) with (i + y mod 32 + (-1) * 32) by lia.
      rewrite Z_mod_plus_full. apply Zplus_mod_idemp_r.
  - intros s Hs. unfold alu_cslli, c_shl, u8. rewrite Z.mod_small by lia.
    destruct (Z.ltb_spec s 32); [lia|done].
Qed.

Lemma shift_rotate_correct_witness :
  is_u32 0x80000001 /\ alu_csrai 0x80000001 4 = Some 0xf8000000 /\
  alu_ror 0x80000001 32 = None.
Proof.
  destruct (shift_rotate_correct 0x80000001 32 ltac:(by vm_compute)) as (H1 & H2 & _).
  split; [by vm_compute|]. split; [rewrite H1 by lia; reflexivity|].
  apply H2. reflexivity.
Defined.
