(* ===== verification/Exec.v ===== *)
(** The instruction handlers of the interpreter (rv32_template.c and the
    [RVOP] macro of emulate.c).

    [code_X] is the body of [RVOP(X, ...)]; [rvop] is the rest of the macro:
    tracing, counting, the advance of the program counter.  The body gets the
    incremented cycle count, as in the source. *)

From stdpp Require Import base list option numbers gmap.
From Stdlib Require Import ZArith Lia Bool.
From S2P Require Import Prelude Bits Insn Decode Mem State Trap Csr Fp Alu.
#[local] Open Scope Z_scope.

(** * Outcomes

    How a handler leaves: it reaches [nextop] and continues with the next
    instruction of the block ([Next]), returns to [rv_step] ([Exit]), tail-calls
    the handler of a chained block ([Jump]), looks the target of an indirect
    jump up in the branch history table and the block map ([Lookup]), or runs
    into undefined behaviour or a failed assertion ([Undef]). *)

Inductive outcome : Type :=
| Next (rv : riscv) (cycle pc : Z)
| Exit (rv : riscv) (ret : bool)
| Jump (rv : riscv) (cycle pc : Z) (target : irptr)
| Lookup (rv : riscv) (cycle pc : Z)
| Undef.

Notation "'let!' x := e 'in' k" :=
  (match e with Some x => k | None => Undef end)
  (at level 10, x pattern, e at level 100, k at level 200).

Definition handler : Type := riscv -> rv_insn_t -> Z -> Z -> outcome.

(** [end_op:] store the cycle count and the program counter, return true. *)
Definition end_op (rv : riscv) (cycle PC : Z) : outcome :=
  Exit (set_PC PC (set_csr_cycle cycle rv)) true.

(** [RVOP]. *)
Definition rvop (inst : opcode_t) (code : handler) : handler := fun rv ir cycle PC =>
  let rv := rv_trace_record cycle PC RV_TRACE_INSN 0 rv in
  let cycle := u64 (cycle + 1) in
  let rv := count_insn ir.(opcode) rv in
  match code rv ir cycle PC with
  | Next rv cycle PC => Next rv cycle (add32 PC (insn_len inst))
  | o => o
  end.

(** [rv->X[ir->rd] = v] and fall through to [nextop]. *)
Definition write_rd (rv : riscv) (ir : rv_insn_t) (cycle PC v : Z) : outcome :=
  Next (set_xreg ir.(rd) v rv) cycle PC.

(** * Misaligned accesses *)

Definition misaligned (rv : riscv) (addr mask : Z) : bool :=
  negb rv.(allow_misalign) && truthy (addr .& mask).

(** The block of [RV_EXC_MISALIGN_HANDLER]. *)
Definition exc_misaligned (cause : Z) (compress : bool) (addr : Z) (rv : riscv) (cycle PC : Z)
  : outcome :=
  let rv := set_PC PC (set_csr_cycle cycle (set_compressed compress rv)) in
  let! rv := SET_CAUSE_AND_TVAL_THEN_TRAP cause addr rv in
  Exit rv false.

(** A load or store whose address is traced, then checked. *)
Definition access (addr mask cause : Z) (compress : bool) (rv : riscv) (cycle PC : Z)
    (k : riscv -> outcome) : outcome :=
  let rv := rv_trace_record cycle PC RV_TRACE_MEM addr rv in
  if misaligned rv addr mask then exc_misaligned cause compress addr rv cycle PC
  else k rv.

(** * RV32I *)

Definition code_nop : handler := fun rv ir cycle PC => Next (set_xreg rv_reg_zero 0 rv) cycle PC.

Definition code_lui : handler := fun rv ir cycle PC => write_rd rv ir cycle PC (u32 ir.(imm)).

Definition code_auipc : handler := fun rv ir cycle PC =>
  write_rd rv ir cycle PC (add32 ir.(imm) PC).

(** Tail call of a chained block, or [goto end_op]. *)
Definition chain (target : option irptr) (rv : riscv) (cycle PC : Z) : outcome :=
  match target with
  | Some t => Jump (set_last_pc PC rv) cycle PC t
  | None => end_op rv cycle PC
  end.

Definition code_jal : handler := fun rv ir cycle PC =>
  let pc := PC in
  let PC := add32 PC ir.(imm) in
  let rv := prof_call (prof_on_jal PC (ir.(rd) =? 0)) rv in
  let rv := if truthy ir.(rd) then set_xreg ir.(rd) (add32 pc 4) rv else rv in
  chain ir.(branch_taken) rv cycle PC.

Definition code_jalr : handler := fun rv ir cycle PC =>
  let pc := PC in
  let PC := add32 (xreg rv ir.(rs1)) ir.(imm) .& not32 1 in
  let is_ret := (ir.(rd) =? 0) && (ir.(rs1) =? 1) in
  let rv := prof_call (prof_on_jalr PC is_ret (ir.(rd) =? 0)) rv in
  let rv := if truthy ir.(rd) then set_xreg ir.(rd) (add32 pc 4) rv else rv in
  Lookup rv cycle PC.

(** [BRANCH_FUNC]: [untaken x y] is the condition under which the branch is
    not taken.  A chained successor only shortens the way to [end_op]. *)
Definition BRANCH_FUNC (untaken : Z -> Z -> bool) : handler := fun rv ir cycle PC =>
  if untaken (xreg rv ir.(rs1)) (xreg rv ir.(rs2)) then
    let rv := set_branch_untaken_forward (u64 (rv.(branch_untaken_forward) + 1)) rv in
    let rv := set_is_branch_taken false rv in
    match ir.(branch_untaken) with
    | None => Next rv cycle PC
    | Some _ => end_op rv cycle (add32 PC 4)
    end
  else
    let rv := if ir.(imm) <? 0
              then set_branch_taken_backward (u64 (rv.(branch_taken_backward) + 1)) rv
              else set_branch_taken_forward (u64 (rv.(branch_taken_forward) + 1)) rv in
    let rv := set_is_branch_taken true rv in
    end_op rv cycle (add32 PC ir.(imm)).

Definition code_beq : handler := BRANCH_FUNC (fun x y => negb (x =? y)).
Definition code_bne : handler := BRANCH_FUNC (fun x y => x =? y).
Definition code_blt : handler := BRANCH_FUNC (fun x y => i32 x >=? i32 y).
Definition code_bge : handler := BRANCH_FUNC (fun x y => i32 x <? i32 y).
Definition code_bltu : handler := BRANCH_FUNC (fun x y => x >=? y).
Definition code_bgeu : handler := BRANCH_FUNC (fun x y => x <? y).

Definition code_lb : handler := fun rv ir cycle PC =>
  let addr := add32 (xreg rv ir.(rs1)) ir.(imm) in
  let rv := rv_trace_record cycle PC RV_TRACE_MEM addr rv in
  let! v := ram_read_b rv.(mem) addr in
  write_rd rv ir cycle PC (sign_extend_b v).

Definition code_lh : handler := fun rv ir cycle PC =>
  let addr := add32 (xreg rv ir.(rs1)) ir.(imm) in
  access addr 1 LOAD_MISALIGNED false rv cycle PC (fun rv =>
    let! v := ram_read_s rv.(mem) addr in
    write_rd rv ir cycle PC (sign_extend_h v)).

Definition code_lw : handler := fun rv ir cycle PC =>
  let addr := add32 (xreg rv ir.(rs1)) ir.(imm) in
  access addr 3 LOAD_MISALIGNED false rv cycle PC (fun rv =>
    let! v := ram_read_w rv.(mem) addr in
    write_rd rv ir cycle PC v).

Definition code_lbu : handler := fun rv ir cycle PC =>
  let addr := add32 (xreg rv ir.(rs1)) ir.(imm) in
  let rv := rv_trace_record cycle PC RV_TRACE_MEM addr rv in
  let! v := ram_read_b rv.(mem) addr in
  write_rd rv ir cycle PC v.

Definition code_lhu : handler := fun rv ir cycle PC =>
  let addr := add32 (xreg rv ir.(rs1)) ir.(imm) in
  access addr 1 LOAD_MISALIGNED false rv cycle PC (fun rv =>
    let! v := ram_read_s rv.(mem) addr in
    write_rd rv ir cycle PC v).

Definition code_sb : handler := fun rv ir cycle PC =>
  let addr := add32 (xreg rv ir.(rs1)) ir.(imm) in
  let rv := rv_trace_record cycle PC RV_TRACE_MEM addr rv in
  let! m := ram_write_b rv.(mem) addr (xreg rv ir.(rs2)) in
  Next (set_mem m rv) cycle PC.

Definition code_sh : handler := fun rv ir cycle PC =>
  let addr := add32 (xreg rv ir.(rs1)) ir.(imm) in
  access addr 1 STORE_MISALIGNED false rv cycle PC (fun rv =>
    let! m := ram_write_s rv.(mem) addr (xreg rv ir.(rs2)) in
    Next (set_mem m rv) cycle PC).

Definition code_sw : handler := fun rv ir cycle PC =>
  let addr := add32 (xreg rv ir.(rs1)) ir.(imm) in
  access addr 3 STORE_MISALIGNED false rv cycle PC (fun rv =>
    let! m := ram_write_w rv.(mem) addr (xreg rv ir.(rs2)) in
    Next (set_mem m rv) cycle PC).

(** [X[rd] = f(X[rs1], imm)] and [X[rd] = f(X[rs1], X[rs2])]. *)
Definition op_imm (f : Z -> Z -> Z) : handler := fun rv ir cycle PC =>
  write_rd rv ir cycle PC (f (xreg rv ir.(rs1)) ir.(imm)).
Definition op_reg (f : Z -> Z -> Z) : handler := fun rv ir cycle PC =>
  write_rd rv ir cycle PC (f (xreg rv ir.(rs1)) (xreg rv ir.(rs2))).

Definition code_addi : handler := op_imm alu_addi.
Definition code_slti : handler := op_imm alu_slti.
Definition code_sltiu : handler := op_imm alu_sltiu.
Definition code_xori : handler := op_imm alu_xori.
Definition code_ori : handler := op_imm alu_ori.
Definition code_andi : handler := op_imm alu_andi.

(** [shift_func] switches on the opcode of the instruction. *)
Definition shift_func : handler := fun rv ir cycle PC =>
  match ir.(opcode) with
  | rv_insn_slli => op_imm alu_slli rv ir cycle PC
  | rv_insn_srli => op_imm alu_srli rv ir cycle PC
  | rv_insn_srai => op_imm alu_srai rv ir cycle PC
  | _ => Undef
  end.

Definition code_slli : handler := shift_func.
Definition code_srli : handler := shift_func.
Definition code_srai : handler := shift_func.
Definition code_add : handler := op_reg alu_add.
Definition code_sub : handler := op_reg alu_sub.
Definition code_sll : handler := op_reg alu_sll.
Definition code_slt : handler := op_reg alu_slt.
Definition code_sltu : handler := op_reg alu_sltu.
Definition code_xor : handler := op_reg alu_xor.
Definition code_srl : handler := op_reg alu_srl.
Definition code_sra : handler := op_reg alu_sra.
Definition code_or : handler := op_reg alu_or.
Definition code_and : handler := op_reg alu_and.

Definition code_fence : handler := fun rv ir cycle PC => end_op rv cycle (add32 PC 4).
Definition code_wfi : handler := fun rv ir cycle PC => end_op rv cycle (add32 PC 4).
Definition code_sfencevma : handler := fun rv ir cycle PC => end_op rv cycle (add32 PC 4).
Definition code_uret : handler := fun rv ir cycle PC => Exit rv false.
Definition code_hret : handler := fun rv ir cycle PC => Exit rv false.

Definition code_ebreak : handler := fun rv ir cycle PC =>
  let rv := set_PC PC (set_csr_cycle cycle (set_compressed false rv)) in
  let! rv := ebreak_handler rv in
  Exit rv true.

Definition code_mret : handler := fun rv ir cycle PC =>
  let mstatus := csr_val rv csr_mstatus in
  let rv := set_priv_mode ((mstatus .& MSTATUS_MPP) ≫ MSTATUS_MPP_SHIFT) rv in
  let mstatus := mstatus .& not32 MSTATUS_MPP in
  let mstatus_mpie := (mstatus .& MSTATUS_MPIE) ≫ MSTATUS_MPIE_SHIFT in
  let mstatus := mstatus .| shl32 mstatus_mpie MSTATUS_MIE_SHIFT in
  let mstatus := mstatus .| MSTATUS_MPIE in
  let rv := set_csr csr_mstatus mstatus rv in
  Exit (set_PC (csr_val rv csr_mepc) rv) true.

Definition code_fencei : handler := fun rv ir cycle PC =>
  Exit (set_PC (add32 PC 4) (set_csr_cycle cycle rv)) true.

(** * RV32M *)

Definition code_mul : handler := op_reg alu_mul.
Definition code_mulh : handler := op_reg alu_mulh.
Definition code_mulhsu : handler := op_reg alu_mulhsu.
Definition code_mulhu : handler := op_reg alu_mulhu.
Definition code_div : handler := op_reg alu_div.
Definition code_divu : handler := op_reg alu_divu.
Definition code_rem : handler := op_reg alu_rem.
Definition code_remu : handler := op_reg alu_remu.

(** * RV32A *)

Definition code_lrw : handler := fun rv ir cycle PC =>
  let addr := xreg rv ir.(rs1) in
  access addr 3 LOAD_MISALIGNED false rv cycle PC (fun rv =>
    if truthy ir.(rd) then
      let! v := ram_read_w rv.(mem) addr in
      write_rd rv ir cycle PC v
    else Next rv cycle PC).

Definition code_scw : handler := fun rv ir cycle PC =>
  let addr := xreg rv ir.(rs1) in
  access addr 3 STORE_MISALIGNED false rv cycle PC (fun rv =>
    let! m := ram_write_w rv.(mem) addr (xreg rv ir.(rs2)) in
    write_rd (set_mem m rv) ir cycle PC 0).

(** Read [value1], write it to [rd] and store [f value1 value2]. *)
Definition amo (f : Z -> Z -> Z) : handler := fun rv ir cycle PC =>
  let addr := xreg rv ir.(rs1) in
  access addr 3 LOAD_MISALIGNED false rv cycle PC (fun rv =>
    let! value1 := ram_read_w rv.(mem) addr in
    let value2 := xreg rv ir.(rs2) in
    let rv := if truthy ir.(rd) then set_xreg ir.(rd) value1 rv else rv in
    let! m := ram_write_w rv.(mem) addr (f value1 value2) in
    Next (set_mem m rv) cycle PC).

Definition code_amoswapw : handler := amo (fun _ v2 => v2).
Definition code_amoaddw : handler := amo amo_add.
Definition code_amoxorw : handler := amo alu_xor.
Definition code_amoandw : handler := amo alu_and.
Definition code_amoorw : handler := amo alu_or.
Definition code_amominw : handler := amo amo_min.
Definition code_amomaxw : handler := amo amo_max.
Definition code_amominuw : handler := amo amo_minu.
Definition code_amomaxuw : handler := amo amo_maxu.

(** * RV32F loads, stores and moves *)

(** [rv->F[rd].v = MEM_READ_W(addr)] and the store of [rv->F[rs2].v]. *)
Definition fload (addr : Z) : handler := fun rv ir cycle PC =>
  access addr 3 LOAD_MISALIGNED false rv cycle PC (fun rv =>
    let! v := ram_read_w rv.(mem) addr in
    Next (set_freg ir.(rd) v rv) cycle PC).
Definition fstore (addr : Z) : handler := fun rv ir cycle PC =>
  access addr 3 STORE_MISALIGNED false rv cycle PC (fun rv =>
    let! m := ram_write_w rv.(mem) addr (freg rv ir.(rs2)) in
    Next (set_mem m rv) cycle PC).

Definition code_flw : handler := fun rv ir cycle PC =>
  fload (add32 (xreg rv ir.(rs1)) ir.(imm)) rv ir cycle PC.
Definition code_fsw : handler := fun rv ir cycle PC =>
  fstore (add32 (xreg rv ir.(rs1)) ir.(imm)) rv ir cycle PC.

Definition code_fsgnjs : handler := fun rv ir cycle PC =>
  Next (set_freg ir.(rd) ((freg rv ir.(rs1) .& not32 FMASK_SIGN)
                          .| (freg rv ir.(rs2) .& FMASK_SIGN)) rv) cycle PC.
Definition code_fsgnjns : handler := fun rv ir cycle PC =>
  Next (set_freg ir.(rd) ((freg rv ir.(rs1) .& not32 FMASK_SIGN)
                          .| (not32 (freg rv ir.(rs2)) .& FMASK_SIGN)) rv) cycle PC.
Definition code_fsgnjxs : handler := fun rv ir cycle PC =>
  Next (set_freg ir.(rd) (freg rv ir.(rs1) .^ (freg rv ir.(rs2) .& FMASK_SIGN)) rv) cycle PC.

(** [if (ir->rd) rv->X[ir->rd] = v]. *)
Definition write_rd_nz (rv : riscv) (ir : rv_insn_t) (v : Z) : riscv :=
  if truthy ir.(rd) then set_xreg ir.(rd) v rv else rv.

Definition code_fmvxw : handler := fun rv ir cycle PC =>
  Next (write_rd_nz rv ir (freg rv ir.(rs1))) cycle PC.
Definition code_fclasss : handler := fun rv ir cycle PC =>
  Next (write_rd_nz rv ir (calc_fclass (freg rv ir.(rs1)))) cycle PC.
Definition code_fmvwx : handler := fun rv ir cycle PC =>
  Next (set_freg ir.(rd) (xreg rv ir.(rs1)) rv) cycle PC.

(** * RV32F arithmetic *)

Section FloatCode.
Context `{SoftFloat}.

(** Set the rounding mode, compute, write the result, collect the flags. *)
Definition fp_op (op : riscv -> rv_insn_t -> Z * Z) (write : Z -> riscv -> rv_insn_t -> riscv)
  : handler := fun rv ir cycle PC =>
  let! rv := set_rounding_mode rv ir.(rm) in
  let (v, flags) := op rv ir in
  Next (set_fflag (write v (raise flags rv) ir)) cycle PC.

Definition to_freg (v : Z) (rv : riscv) (ir : rv_insn_t) : riscv := set_freg ir.(rd) (u32 v) rv.
Definition to_xreg (v : Z) (rv : riscv) (ir : rv_insn_t) : riscv := write_rd_nz rv ir (u32 v).

Definition code_fmadds : handler := fp_op (fun rv ir =>
  f32_mulAdd rv.(softfloat_roundingMode) (freg rv ir.(rs1)) (freg rv ir.(rs2))
    (freg rv (rs3 ir))) to_freg.
Definition code_fmsubs : handler := fp_op (fun rv ir =>
  let tmp := freg rv (rs3 ir) .^ FMASK_SIGN in
  f32_mulAdd rv.(softfloat_roundingMode) (freg rv ir.(rs1)) (freg rv ir.(rs2)) tmp) to_freg.
Definition code_fnmsubs : handler := fp_op (fun rv ir =>
  let tmp := freg rv ir.(rs1) .^ FMASK_SIGN in
  f32_mulAdd rv.(softfloat_roundingMode) tmp (freg rv ir.(rs2)) (freg rv (rs3 ir))) to_freg.
Definition code_fnmadds : handler := fp_op (fun rv ir =>
  let tmp1 := freg rv ir.(rs1) .^ FMASK_SIGN in
  let tmp2 := freg rv (rs3 ir) .^ FMASK_SIGN in
  f32_mulAdd rv.(softfloat_roundingMode) tmp1 (freg rv ir.(rs2)) tmp2) to_freg.
Definition code_fadds : handler := fp_op (fun rv ir =>
  f32_add rv.(softfloat_roundingMode) (freg rv ir.(rs1)) (freg rv ir.(rs2))) to_freg.
Definition code_fsubs : handler := fp_op (fun rv ir =>
  f32_sub rv.(softfloat_roundingMode) (freg rv ir.(rs1)) (freg rv ir.(rs2))) to_freg.
Definition code_fmuls : handler := fp_op (fun rv ir =>
  f32_mul rv.(softfloat_roundingMode) (freg rv ir.(rs1)) (freg rv ir.(rs2))) to_freg.
Definition code_fdivs : handler := fp_op (fun rv ir =>
  f32_div rv.(softfloat_roundingMode) (freg rv ir.(rs1)) (freg rv ir.(rs2))) to_freg.
Definition code_fsqrts : handler := fp_op (fun rv ir =>
  f32_sqrt rv.(softfloat_roundingMode) (freg rv ir.(rs1))) to_freg.
Definition code_fcvtws : handler := fp_op (fun rv ir =>
  f32_to_i32 rv.(softfloat_roundingMode) (freg rv ir.(rs1))) to_xreg.
Definition code_fcvtwus : handler := fp_op (fun rv ir =>
  f32_to_ui32 rv.(softfloat_roundingMode) (freg rv ir.(rs1))) to_xreg.
Definition code_fcvtsw : handler := fp_op (fun rv ir =>
  i32_to_f32 rv.(softfloat_roundingMode) (i32 (xreg rv ir.(rs1)))) to_freg.
Definition code_fcvtswu : handler := fp_op (fun rv ir =>
  ui32_to_f32 rv.(softfloat_roundingMode) (xreg rv ir.(rs1))) to_freg.

(** A comparison into an integer register. *)
Definition fp_cmp (cmp : Z -> Z -> bool * Z) : handler := fun rv ir cycle PC =>
  let (ret, flags) := cmp (freg rv ir.(rs1)) (freg rv ir.(rs2)) in
  Next (set_fflag (write_rd_nz (raise flags rv) ir (b2z ret))) cycle PC.

Definition code_feqs : handler := fp_cmp f32_eq.
Definition code_flts : handler := fp_cmp f32_lt.
Definition code_fles : handler := fp_cmp f32_le.

(** [f32_lt_quiet(a, b) || (f32_eq(rs1, rs2) && sign)]: the equality test only
    runs when the first comparison fails. *)
Definition ordered (a b f1 f2 sign : Z) (rv : riscv) : bool * riscv :=
  let (lt, flags) := f32_lt_quiet a b in
  let rv := raise flags rv in
  if lt then (true, rv)
  else
    let (eq, flags) := f32_eq f1 f2 in
    (eq && truthy (sign .& FMASK_SIGN), raise flags rv).

Definition minmax (less : Z -> Z -> riscv -> bool * riscv) : handler := fun rv ir cycle PC =>
  let f1 := freg rv ir.(rs1) in
  let f2 := freg rv ir.(rs2) in
  let rv := if f32_isSignalingNaN f1 || f32_isSignalingNaN f2
            then set_csr csr_fcsr (csr_val rv csr_fcsr .| FFLAG_INVALID_OP) rv else rv in
  let (less, rv) := less f1 f2 rv in
  let v := if is_nan f1 && is_nan f2 then RV_NAN
           else if less || is_nan f2 then f1 else f2 in
  Next (set_freg ir.(rd) v rv) cycle PC.

Definition code_fmins : handler := minmax (fun f1 f2 => ordered f1 f2 f1 f2 f1).
Definition code_fmaxs : handler := minmax (fun f1 f2 => ordered f2 f1 f1 f2 f2).
End FloatCode.

(** * RV32C *)

Definition code_caddi4spn : handler := fun rv ir cycle PC =>
  write_rd rv ir cycle PC (alu_caddi4spn (xreg rv rv_reg_sp) ir.(imm)).

(** Loads and stores of a word with a 2-byte encoding. *)
Definition cload (addr : Z) : handler := fun rv ir cycle PC =>
  access addr 3 LOAD_MISALIGNED true rv cycle PC (fun rv =>
    let! v := ram_read_w rv.(mem) addr in
    write_rd rv ir cycle PC v).
Definition cstore (addr : Z) : handler := fun rv ir cycle PC =>
  access addr 3 STORE_MISALIGNED true rv cycle PC (fun rv =>
    let! m := ram_write_w rv.(mem) addr (xreg rv ir.(rs2)) in
    Next (set_mem m rv) cycle PC).

Definition code_clw : handler := fun rv ir cycle PC =>
  cload (add32 (xreg rv ir.(rs1)) (u32 ir.(imm))) rv ir cycle PC.
Definition code_csw : handler := fun rv ir cycle PC =>
  cstore (add32 (xreg rv ir.(rs1)) (u32 ir.(imm))) rv ir cycle PC.
Definition code_clwsp : handler := fun rv ir cycle PC =>
  cload (add32 (xreg rv rv_reg_sp) ir.(imm)) rv ir cycle PC.
Definition code_cswsp : handler := fun rv ir cycle PC =>
  cstore (add32 (xreg rv rv_reg_sp) ir.(imm)) rv ir cycle PC.

Definition code_cnop : handler := fun rv ir cycle PC => Next rv cycle PC.

Definition code_caddi : handler := fun rv ir cycle PC =>
  write_rd rv ir cycle PC (alu_caddi (xreg rv ir.(rd)) ir.(imm)).
Definition code_caddi16sp : handler := fun rv ir cycle PC =>
  write_rd rv ir cycle PC (alu_caddi16sp (xreg rv ir.(rd)) ir.(imm)).
Definition code_cli : handler := fun rv ir cycle PC => write_rd rv ir cycle PC (u32 ir.(imm)).
Definition code_clui : handler := fun rv ir cycle PC => write_rd rv ir cycle PC (u32 ir.(imm)).

Definition code_csrli : handler := fun rv ir cycle PC =>
  let! v := alu_csrli (xreg rv ir.(rs1)) ir.(shamt) in
  Next (set_xreg ir.(rs1) v rv) cycle PC.
Definition code_csrai : handler := fun rv ir cycle PC =>
  let! v := alu_csrai (xreg rv ir.(rs1)) ir.(shamt) in
  Next (set_xreg ir.(rs1) v rv) cycle PC.
Definition code_candi : handler := fun rv ir cycle PC =>
  Next (set_xreg ir.(rs1) (alu_candi (xreg rv ir.(rs1)) ir.(imm)) rv) cycle PC.
Definition code_cslli : handler := fun rv ir cycle PC =>
  let! v := alu_cslli (xreg rv ir.(rd)) ir.(imm) in
  write_rd rv ir cycle PC v.

Definition code_csub : handler := op_reg alu_sub.
Definition code_cxor : handler := op_reg alu_xor.
Definition code_cor : handler := op_reg alu_or.
Definition code_cand : handler := op_reg alu_and.
Definition code_cadd : handler := op_reg alu_add.
Definition code_cmv : handler := fun rv ir cycle PC => write_rd rv ir cycle PC (xreg rv ir.(rs2)).

Definition code_cj : handler := fun rv ir cycle PC =>
  chain ir.(branch_taken) rv cycle (add32 PC ir.(imm)).
Definition code_cjal : handler := fun rv ir cycle PC =>
  let rv := set_xreg rv_reg_ra (add32 PC 2) rv in
  chain ir.(branch_taken) rv cycle (add32 PC ir.(imm)).
Definition code_cjr : handler := fun rv ir cycle PC => Lookup rv cycle (xreg rv ir.(rs1)).
Definition code_cjalr : handler := fun rv ir cycle PC =>
  let jump_to := xreg rv ir.(rs1) in
  Lookup (set_xreg rv_reg_ra (add32 PC 2) rv) cycle jump_to.

(** The compressed branches do chain their untaken successor. *)
Definition cbranch (untaken : Z -> bool) : handler := fun rv ir cycle PC =>
  if untaken (xreg rv ir.(rs1)) then
    let rv := set_is_branch_taken false rv in
    match ir.(branch_untaken) with
    | None => Next rv cycle PC
    | Some t => Jump (set_last_pc (add32 PC 2) rv) cycle (add32 PC 2) t
    end
  else
    let rv := set_is_branch_taken true rv in
    chain ir.(branch_taken) rv cycle (add32 PC ir.(imm)).

Definition code_cbeqz : handler := cbranch truthy.
Definition code_cbnez : handler := cbranch (fun x => negb (truthy x)).

Definition code_cebreak : handler := fun rv ir cycle PC =>
  let rv := set_PC PC (set_csr_cycle cycle (set_compressed true rv)) in
  let! rv := ebreak_handler rv in
  Exit rv true.

Definition code_cflwsp : handler := fun rv ir cycle PC =>
  fload (add32 (xreg rv rv_reg_sp) ir.(imm)) rv ir cycle PC.
Definition code_cfswsp : handler := fun rv ir cycle PC =>
  fstore (add32 (xreg rv rv_reg_sp) ir.(imm)) rv ir cycle PC.
Definition code_cflw : handler := fun rv ir cycle PC =>
  fload (add32 (xreg rv ir.(rs1)) (u32 ir.(imm))) rv ir cycle PC.
Definition code_cfsw : handler := fun rv ir cycle PC =>
  fstore (add32 (xreg rv ir.(rs1)) (u32 ir.(imm))) rv ir cycle PC.

(** * Zba, Zbb, Zbc, Zbs *)

Definition op_una (f : Z -> Z) : handler := fun rv ir cycle PC =>
  write_rd rv ir cycle PC (f (xreg rv ir.(rs1))).

Definition code_sh1add : handler := op_reg alu_sh1add.
Definition code_sh2add : handler := op_reg alu_sh2add.
Definition code_sh3add : handler := op_reg alu_sh3add.
Definition code_andn : handler := op_reg alu_andn.
Definition code_orn : handler := op_reg alu_orn.
Definition code_xnor : handler := op_reg alu_xnor.
Definition code_clz : handler := op_una alu_clz.
Definition code_ctz : handler := op_una alu_ctz.
Definition code_cpop : handler := op_una alu_cpop.
Definition code_max : handler := op_reg alu_max.
Definition code_min : handler := op_reg alu_min.
Definition code_maxu : handler := op_reg alu_maxu.
Definition code_minu : handler := op_reg alu_minu.

(** [X[rd] = X[rs1] & low; if (X[rs1] & sign) X[rd] |= high]: the second read
    sees the first write when [rd] is [rs1]. *)
Definition sext (low sign high : Z) : handler := fun rv ir cycle PC =>
  let rv := set_xreg ir.(rd) (xreg rv ir.(rs1) .& low) rv in
  let rv := if truthy (xreg rv ir.(rs1) .& sign)
            then set_xreg ir.(rd) (xreg rv ir.(rd) .| high) rv else rv in
  Next rv cycle PC.

Definition code_sextb : handler := sext 0xff (1 ≪ 7) 0xffffff00.
Definition code_sexth : handler := sext 0xffff (1 ≪ 15) 0xffff0000.
Definition code_zexth : handler := op_una alu_zexth.

Definition code_rol : handler := fun rv ir cycle PC =>
  let! v := alu_rol (xreg rv ir.(rs1)) (xreg rv ir.(rs2)) in
  write_rd rv ir cycle PC v.
Definition code_ror : handler := fun rv ir cycle PC =>
  let! v := alu_ror (xreg rv ir.(rs1)) (xreg rv ir.(rs2)) in
  write_rd rv ir cycle PC v.
Definition code_rori : handler := fun rv ir cycle PC =>
  let! v := alu_rori (xreg rv ir.(rs1)) ir.(imm) in
  write_rd rv ir cycle PC v.
Definition code_orcb : handler := op_una alu_orcb.
Definition code_rev8 : handler := op_una alu_rev8.

Definition code_clmul : handler := op_reg alu_clmul.
Definition code_clmulh : handler := op_reg alu_clmulh.
Definition code_clmulr : handler := op_reg alu_clmulr.
Definition code_bclr : handler := op_reg alu_bclr.
Definition code_bclri : handler := op_imm alu_bclr.
Definition code_bext : handler := op_reg alu_bext.
Definition code_bexti : handler := op_imm alu_bext.
Definition code_binv : handler := op_reg alu_binv.
Definition code_binvi : handler := op_imm alu_binv.
Definition code_bset : handler := op_reg alu_bset.
Definition code_bseti : handler := op_imm alu_bset.

(** * Zicsr and ECALL *)

Section SystemCode.
Context `{HostClock} `{Syscall}.

(** [X[rd] = rd ? tmp : X[rd]]. *)
Definition csr_op (f : riscv -> rv_insn_t -> Z -> Z * riscv) : handler := fun rv ir cycle PC =>
  let (tmp, rv) := f rv ir cycle in
  write_rd rv ir cycle PC (if truthy ir.(rd) then tmp else xreg rv ir.(rd)).

Definition code_csrrw : handler := csr_op (fun rv ir cycle =>
  csr_csrrw rv (u32 ir.(imm)) (xreg rv ir.(rs1)) cycle).
Definition code_csrrs : handler := csr_op (fun rv ir cycle =>
  csr_csrrs rv (u32 ir.(imm)) (if ir.(rs1) =? rv_reg_zero then 0 else xreg rv ir.(rs1)) cycle).
Definition code_csrrc : handler := csr_op (fun rv ir cycle =>
  csr_csrrc rv (u32 ir.(imm)) (if ir.(rs1) =? rv_reg_zero then 0 else xreg rv ir.(rs1)) cycle).
Definition code_csrrwi : handler := csr_op (fun rv ir cycle =>
  csr_csrrw rv (u32 ir.(imm)) ir.(rs1) cycle).
Definition code_csrrsi : handler := csr_op (fun rv ir cycle =>
  csr_csrrs rv (u32 ir.(imm)) ir.(rs1) cycle).
Definition code_csrrci : handler := csr_op (fun rv ir cycle =>
  csr_csrrc rv (u32 ir.(imm)) ir.(rs1) cycle).

Definition code_ecall : handler := fun rv ir cycle PC =>
  let rv := set_PC PC (set_csr_cycle cycle (set_compressed false rv)) in
  let! rv := ecall_handler rv in
  Exit rv true.

(** * Fused handlers

    They count the fused opcode once, add the number of fused instructions
    to the cycle count and are not traced. *)

(** [fuse_next_or_stop] tail-calls the next handler as [nextop] does. *)
Definition fuse_next_or_stop (rv : riscv) (ir : rv_insn_t) (cycle PC : Z) : outcome :=
  Next rv cycle PC.

(** The elements [fuse[0 .. imm2-1]]. *)
Definition fused (ir : rv_insn_t) : option (list opcode_fuse_t) :=
  let? l := ir.(fuse) in
  if ir.(imm2) <=? Z.of_nat (length l) then Some (take (Z.to_nat ir.(imm2)) l) else None.

Definition do_fuse1 : handler := fun rv ir cycle PC =>
  let rv := count_insn ir.(opcode) rv in
  let cycle := u64 (cycle + ir.(imm2)) in
  let! fuse := fused ir in
  let rv := fold_left (fun rv f => set_xreg f.(f_rd) (u32 f.(f_imm)) rv) fuse rv in
  fuse_next_or_stop rv ir cycle (add32 PC (ir.(imm2) * 4)).

Definition do_fuse2 : handler := fun rv ir cycle PC =>
  let rv := count_insn ir.(opcode) rv in
  let cycle := u64 (cycle + 2) in
  let rv := set_xreg ir.(rd) (u32 ir.(imm)) rv in
  let rv := set_xreg ir.(rs2) (add32 (xreg rv ir.(rd)) (xreg rv ir.(rs1))) rv in
  fuse_next_or_stop rv ir cycle (add32 PC 8).

(** The loops of [do_fuse3] and [do_fuse4] leave through the misaligned
    handler with the program counter of the whole sequence. *)
Fixpoint fuse_stores (l : list opcode_fuse_t) (rv : riscv) (cycle PC : Z) (k : riscv -> outcome)
  : outcome :=
  match l with
  | [] => k rv
  | f :: l' =>
      let addr := add32 (xreg rv f.(f_rs1)) f.(f_imm) in
      if misaligned rv addr 3 then exc_misaligned STORE_MISALIGNED false addr rv cycle PC
      else
        let! m := ram_write_w rv.(mem) addr (xreg rv f.(f_rs2)) in
        fuse_stores l' (set_mem m rv) cycle PC k
  end.

Definition do_fuse3 : handler := fun rv ir cycle PC =>
  let rv := count_insn ir.(opcode) rv in
  let cycle := u64 (cycle + ir.(imm2)) in
  let! fuse := fused ir in
  fuse_stores fuse rv cycle PC (fun rv =>
    fuse_next_or_stop rv ir cycle (add32 PC (ir.(imm2) * 4))).

Fixpoint fuse_loads (l : list opcode_fuse_t) (rv : riscv) (cycle PC : Z) (k : riscv -> outcome)
  : outcome :=
  match l with
  | [] => k rv
  | f :: l' =>
      let addr := add32 (xreg rv f.(f_rs1)) f.(f_imm) in
      if misaligned rv addr 3 then exc_misaligned LOAD_MISALIGNED false addr rv cycle PC
      else
        let! v := ram_read_w rv.(mem) addr in
        fuse_loads l' (set_xreg f.(f_rd) v rv) cycle PC k
  end.

Definition do_fuse4 : handler := fun rv ir cycle PC =>
  let rv := count_insn ir.(opcode) rv in
  let cycle := u64 (cycle + ir.(imm2)) in
  let! fuse := fused ir in
  fuse_loads fuse rv cycle PC (fun rv =>
    fuse_next_or_stop rv ir cycle (add32 PC (ir.(imm2) * 4))).

Definition fuse_shift_exec (rv : riscv) (f : opcode_fuse_t) : option riscv :=
  match f.(f_opcode) with
  | rv_insn_slli => Some (set_xreg f.(f_rd) (shl32 (xreg rv f.(f_rs1)) (f.(f_imm) .& 0x1f)) rv)
  | rv_insn_srli => Some (set_xreg f.(f_rd) (xreg rv f.(f_rs1) ≫ (f.(f_imm) .& 0x1f)) rv)
  | rv_insn_srai => Some (set_xreg f.(f_rd) (u32 (i32 (xreg rv f.(f_rs1)) ≫ (f.(f_imm) .& 0x1f))) rv)
  | _ => None
  end.

Definition do_fuse5 : handler := fun rv ir cycle PC =>
  let rv := count_insn ir.(opcode) rv in
  let cycle := u64 (cycle + ir.(imm2)) in
  let! fuse := fused ir in
  let! rv := fold_left (fun acc f => let? rv := acc in fuse_shift_exec rv f) fuse (Some rv) in
  fuse_next_or_stop rv ir cycle (add32 PC (ir.(imm2) * 4)).

Definition do_fuse6 : handler := fun rv ir cycle PC =>
  let rv := count_insn ir.(opcode) rv in
  let cycle := u64 (cycle + 2) in
  let rv := set_xreg rv_reg_a7 (u32 ir.(imm)) rv in
  let rv := set_PC (add32 PC 4) (set_csr_cycle cycle (set_compressed false rv)) in
  let! rv := ecall_handler rv in
  Exit rv true.

Definition do_fuse7 : handler := fun rv ir cycle PC =>
  let rv := count_insn ir.(opcode) rv in
  let cycle := u64 (cycle + ir.(imm2)) in
  let! fuse := fused ir in
  let rv := fold_left (fun rv f =>
    set_xreg f.(f_rd) (add32 (xreg rv f.(f_rs1)) (u32 f.(f_imm))) rv) fuse rv in
  fuse_next_or_stop rv ir cycle (add32 PC (ir.(imm2) * 4)).

Definition do_fuse8 : handler := fun rv ir cycle PC =>
  let rv := count_insn ir.(opcode) rv in
  let cycle := u64 (cycle + 2) in
  let rv := set_xreg ir.(rd) (add32 (u32 ir.(imm)) (u32 ir.(imm2))) rv in
  fuse_next_or_stop rv ir cycle (add32 PC 8).

Definition do_fuse9 : handler := fun rv ir cycle PC =>
  let rv := count_insn ir.(opcode) rv in
  let cycle := u64 (cycle + 2) in
  let rv := set_xreg ir.(rd) (u32 ir.(imm)) rv in
  let addr := add32 (u32 ir.(imm)) (u32 ir.(imm2)) in
  if misaligned rv addr 3 then exc_misaligned LOAD_MISALIGNED false addr rv cycle PC
  else
    let! v := ram_read_w rv.(mem) addr in
    fuse_next_or_stop (set_xreg ir.(rs2) v rv) ir cycle (add32 PC 8).

Definition do_fuse10 : handler := fun rv ir cycle PC =>
  let rv := count_insn ir.(opcode) rv in
  let cycle := u64 (cycle + 2) in
  let rv := set_xreg ir.(rd) (u32 ir.(imm)) rv in
  let addr := add32 (u32 ir.(imm)) (u32 ir.(imm2)) in
  if misaligned rv addr 3 then exc_misaligned STORE_MISALIGNED false addr rv cycle PC
  else
    let! m := ram_write_w rv.(mem) addr (xreg rv ir.(rs1)) in
    fuse_next_or_stop (set_mem m rv) ir cycle (add32 PC 8).

Definition do_fuse11 : handler := fun rv ir cycle PC =>
  let rv := count_insn ir.(opcode) rv in
  let cycle := u64 (cycle + 2) in
  let addr := add32 (xreg rv ir.(rs1)) ir.(imm) in
  if misaligned rv addr 3 then exc_misaligned LOAD_MISALIGNED false addr rv cycle PC
  else
    let! v := ram_read_w rv.(mem) addr in
    let rv := set_xreg ir.(rd) v rv in
    let rv := set_xreg ir.(rs1) (add32 (xreg rv ir.(rs1)) ir.(imm2)) rv in
    fuse_next_or_stop rv ir cycle (add32 PC 8).

Definition do_fuse12 : handler := fun rv ir cycle PC =>
  let rv := count_insn ir.(opcode) rv in
  let cycle := u64 (cycle + 2) in
  let rv := set_xreg ir.(rd) (add32 (xreg rv ir.(rs1)) ir.(imm)) rv in
  if truthy (xreg rv ir.(rd)) then
    chain ir.(branch_taken) (set_is_branch_taken true rv) cycle (add32 PC (4 + ir.(imm2)))
  else
    chain ir.(branch_untaken) (set_is_branch_taken false rv) cycle (add32 PC 8).
End SystemCode.

(** * Dispatch *)

Section Dispatch.
Context `{HostClock} `{Syscall} `{SoftFloat}.

(** The body of each instruction. *)
Definition code_of (o : opcode_t) : handler :=
  match o with
  | rv_insn_nop => code_nop | rv_insn_lui => code_lui | rv_insn_auipc => code_auipc
  | rv_insn_jal => code_jal | rv_insn_jalr => code_jalr | rv_insn_beq => code_beq
  | rv_insn_bne => code_bne | rv_insn_blt => code_blt | rv_insn_bge => code_bge
  | rv_insn_bltu => code_bltu | rv_insn_bgeu => code_bgeu | rv_insn_lb => code_lb
  | rv_insn_lh => code_lh | rv_insn_lw => code_lw | rv_insn_lbu => code_lbu
  | rv_insn_lhu => code_lhu | rv_insn_sb => code_sb | rv_insn_sh => code_sh
  | rv_insn_sw => code_sw | rv_insn_addi => code_addi | rv_insn_slti => code_slti
  | rv_insn_sltiu => code_sltiu | rv_insn_xori => code_xori | rv_insn_ori => code_ori
  | rv_insn_andi => code_andi | rv_insn_slli => code_slli | rv_insn_srli => code_srli
  | rv_insn_srai => code_srai | rv_insn_add => code_add | rv_insn_sub => code_sub
  | rv_insn_sll => code_sll | rv_insn_slt => code_slt | rv_insn_sltu => code_sltu
  | rv_insn_xor => code_xor | rv_insn_srl => code_srl | rv_insn_sra => code_sra
  | rv_insn_or => code_or | rv_insn_and => code_and | rv_insn_fence => code_fence
  | rv_insn_ecall => code_ecall | rv_insn_ebreak => code_ebreak | rv_insn_wfi => code_wfi
  | rv_insn_uret => code_uret | rv_insn_hret => code_hret | rv_insn_mret => code_mret
  | rv_insn_sfencevma => code_sfencevma | rv_insn_fencei => code_fencei
  | rv_insn_csrrw => code_csrrw | rv_insn_csrrs => code_csrrs | rv_insn_csrrc => code_csrrc
  | rv_insn_csrrwi => code_csrrwi | rv_insn_csrrsi => code_csrrsi
  | rv_insn_csrrci => code_csrrci | rv_insn_sh1add => code_sh1add
  | rv_insn_sh2add => code_sh2add | rv_insn_sh3add => code_sh3add | rv_insn_andn => code_andn
  | rv_insn_orn => code_orn | rv_insn_xnor => code_xnor | rv_insn_clz => code_clz
  | rv_insn_ctz => code_ctz | rv_insn_cpop => code_cpop | rv_insn_max => code_max
  | rv_insn_maxu => code_maxu | rv_insn_min => code_min | rv_insn_minu => code_minu
  | rv_insn_sextb => code_sextb | rv_insn_sexth => code_sexth | rv_insn_zexth => code_zexth
  | rv_insn_rol => code_rol | rv_insn_ror => code_ror | rv_insn_rori => code_rori
  | rv_insn_orcb => code_orcb | rv_insn_rev8 => code_rev8 | rv_insn_clmul => code_clmul
  | rv_insn_clmulh => code_clmulh | rv_insn_clmulr => code_clmulr | rv_insn_bclr => code_bclr
  | rv_insn_bclri => code_bclri | rv_insn_bext => code_bext | rv_insn_bexti => code_bexti
  | rv_insn_binv => code_binv | rv_insn_binvi => code_binvi | rv_insn_bset => code_bset
  | rv_insn_bseti => code_bseti | rv_insn_mul => code_mul | rv_insn_mulh => code_mulh
  | rv_insn_mulhsu => code_mulhsu | rv_insn_mulhu => code_mulhu | rv_insn_div => code_div
  | rv_insn_divu => code_divu | rv_insn_rem => code_rem | rv_insn_remu => code_remu
  | rv_insn_lrw => code_lrw | rv_insn_scw => code_scw | rv_insn_amoswapw => code_amoswapw
  | rv_insn_amoaddw => code_amoaddw | rv_insn_amoxorw => code_amoxorw
  | rv_insn_amoandw => code_amoandw | rv_insn_amoorw => code_amoorw
  | rv_insn_amominw => code_amominw | rv_insn_amomaxw => code_amomaxw
  | rv_insn_amominuw => code_amominuw | rv_insn_amomaxuw => code_amomaxuw
  | rv_insn_flw => code_flw | rv_insn_fsw => code_fsw | rv_insn_fmadds => code_fmadds
  | rv_insn_fmsubs => code_fmsubs | rv_insn_fnmsubs => code_fnmsubs
  | rv_insn_fnmadds => code_fnmadds | rv_insn_fadds => code_fadds
  | rv_insn_fsubs => code_fsubs | rv_insn_fmuls => code_fmuls | rv_insn_fdivs => code_fdivs
  | rv_insn_fsqrts => code_fsqrts | rv_insn_fsgnjs => code_fsgnjs
  | rv_insn_fsgnjns => code_fsgnjns | rv_insn_fsgnjxs => code_fsgnjxs
  | rv_insn_fmins => code_fmins | rv_insn_fmaxs => code_fmaxs | rv_insn_fcvtws => code_fcvtws
  | rv_insn_fcvtwus => code_fcvtwus | rv_insn_fmvxw => code_fmvxw | rv_insn_feqs => code_feqs
  | rv_insn_flts => code_flts | rv_insn_fles => code_fles | rv_insn_fclasss => code_fclasss
  | rv_insn_fcvtsw => code_fcvtsw | rv_insn_fcvtswu => code_fcvtswu
  | rv_insn_fmvwx => code_fmvwx | rv_insn_caddi4spn => code_caddi4spn
  | rv_insn_clw => code_clw | rv_insn_csw => code_csw | rv_insn_cnop => code_cnop
  | rv_insn_caddi => code_caddi | rv_insn_cjal => code_cjal | rv_insn_cli => code_cli
  | rv_insn_caddi16sp => code_caddi16sp | rv_insn_clui => code_clui
  | rv_insn_csrli => code_csrli | rv_insn_csrai => code_csrai | rv_insn_candi => code_candi
  | rv_insn_csub => code_csub | rv_insn_cxor => code_cxor | rv_insn_cor => code_cor
  | rv_insn_cand => code_cand | rv_insn_cj => code_cj | rv_insn_cbeqz => code_cbeqz
  | rv_insn_cbnez => code_cbnez | rv_insn_cslli => code_cslli | rv_insn_clwsp => code_clwsp
  | rv_insn_cjr => code_cjr | rv_insn_cmv => code_cmv | rv_insn_cebreak => code_cebreak
  | rv_insn_cjalr => code_cjalr | rv_insn_cadd => code_cadd | rv_insn_cswsp => code_cswsp
  | rv_insn_cflwsp => code_cflwsp | rv_insn_cfswsp => code_cfswsp | rv_insn_cflw => code_cflw
  | rv_insn_cfsw => code_cfsw
  | _ => fun _ _ _ _ => Undef (* the fused handlers are no RVOPs *)
  end.

(** [do_X] for every X: what [dispatch_table[op]] points to. *)
Definition do_insn (impl : opcode_t) : handler :=
  match impl with
  | rv_insn_fuse1 => do_fuse1 | rv_insn_fuse2 => do_fuse2 | rv_insn_fuse3 => do_fuse3
  | rv_insn_fuse4 => do_fuse4 | rv_insn_fuse5 => do_fuse5 | rv_insn_fuse6 => do_fuse6
  | rv_insn_fuse7 => do_fuse7 | rv_insn_fuse8 => do_fuse8 | rv_insn_fuse9 => do_fuse9
  | rv_insn_fuse10 => do_fuse10 | rv_insn_fuse11 => do_fuse11 | rv_insn_fuse12 => do_fuse12
  | o => rvop o (code_of o)
  end.

(** [ir->impl(rv, ir, cycle, PC)] up to the next handler call. *)
Definition exec_ir (rv : riscv) (ir : rv_insn_t) (cycle PC : Z) : outcome :=
  do_insn ir.(impl) rv ir cycle PC.

(** The handlers of a block, called one after the other: the tail calls along
    [ir->next], and [end_op] at the last instruction. *)
Fixpoint exec_irs (irs : list rv_insn_t) (rv : riscv) (cycle PC : Z) : outcome :=
  match irs with
  | [] => end_op rv cycle PC
  | ir :: irs' =>
      match exec_ir rv ir cycle PC with
      | Next rv cycle PC => exec_irs irs' rv cycle PC
      | o => o
      end
  end.
End Dispatch.
