(* ===== verification/Samples.v ===== *)
(** Concrete environments and states on which theorems are exercised: a stopped
    clock, a system-call layer that changes nothing, a floating-point unit that
    answers every operation with the canonical NaN, and a hart with 4 KiB of
    RAM. *)

From stdpp Require Import base list option numbers gmap.
From Stdlib Require Import ZArith Lia Bool.
From S2P Require Import Prelude Bits Insn Decode Mem State Trap Csr Fp.
#[local] Open Scope Z_scope.

Definition stopped_clock : HostClock := {| gettimeofday _ := (0, 0) |}.

Definition no_syscall : Syscall := {| syscall_handler rv := Some rv |}.

(** Rounding modes and flags are numbered as in SoftFloat's documentation. *)
Definition nan_unit : SoftFloat := {|
  softfloat_round_near_even := 0;
  softfloat_round_minMag := 1;
  softfloat_round_min := 2;
  softfloat_round_max := 3;
  softfloat_round_near_maxMag := 4;
  softfloat_flag_inexact := 1;
  softfloat_flag_underflow := 2;
  softfloat_flag_overflow := 4;
  softfloat_flag_infinite := 8;
  softfloat_flag_invalid := 16;
  f32_mulAdd _ _ _ _ := (RV_NAN, 16);
  f32_add _ _ _ := (RV_NAN, 16);
  f32_sub _ _ _ := (RV_NAN, 16);
  f32_mul _ _ _ := (RV_NAN, 16);
  f32_div _ _ _ := (RV_NAN, 16);
  f32_sqrt _ _ := (RV_NAN, 16);
  f32_to_i32 _ _ := (0x7fffffff, 16);
  f32_to_ui32 _ _ := (0xffffffff, 16);
  i32_to_f32 _ _ := (RV_NAN, 0);
  ui32_to_f32 _ _ := (RV_NAN, 0);
  f32_eq _ _ := (false, 0);
  f32_lt _ _ := (false, 16);
  f32_le _ _ := (false, 16);
  f32_lt_quiet _ _ := (false, 0);
  f32_isSignalingNaN _ := false;
|}.

(** A hart in machine mode, registers [X], 4 KiB of zeroed RAM. *)
Definition hart_with (regs : list Z) : riscv :=
  mk_riscv false regs 0 (replicate 256 0) 0 0 0 0 0 0 1 None (replicate 32 0)
    (fun _ => 0) 0 RV_PRIV_M_MODE false (mk_memory ∅ 4096) false 0 0 false 0 [].

Definition hart : riscv := hart_with (replicate 32 0).

(** The hart with one register set. *)
Definition hart_at (r v : Z) : riscv := set_xreg r v hart.

Lemma hart_with_wf (regs : list Z) :
  length regs = 32%nat -> Forall is_u32 regs -> riscv_wf (hart_with regs).
Proof.
  intros Hl Hr. constructor; try done.
  by apply Forall_replicate.
Qed.

Lemma hart_at_wf (r v : Z) : is_u32 v -> riscv_wf (hart_at r v).
Proof.
  intros Hv. apply (hart_with_wf (<[Z.to_nat r := v]> (replicate 32 0))).
  - by rewrite length_insert.
  - apply Forall_insert; [by apply Forall_replicate|done].
Qed.

(** The hart with a program at address 0. *)
Definition hart_running (words : list Z) : riscv :=
  set_mem (foldr (fun w '(a, m) => (a - 4, store_le 4 m (a - 4) w))
             (4 * Z.of_nat (length words), hart.(mem)) words).2 hart.

Lemma hart_running_wf (words : list Z) : riscv_wf (hart_running words).
Proof.
  apply set_mem_wf; [by apply hart_with_wf; [|by apply Forall_replicate]|].
  generalize (4 * Z.of_nat (length words)). intros a.
  assert (H : mem_wf hart.(mem)) by (by apply (hart_with_wf (replicate 32 0)); [|apply Forall_replicate]).
  induction words as [|w l IH]; [done|]. cbn [foldr]. destruct (foldr _ _ l) as [b m].
  by apply store_le_wf.
Qed.
