(* ===== verification/Isa.v ===== *)
(** An abstract RV32 hart and the meaning of the integer instructions, after
    the ISA manual: RV32I, M, Zba, Zbb, Zbc and Zbs over mathematical integers,
    and every compressed instruction through the base instruction it expands
    to.  [arch] forgets everything of the emulator state but the registers, the
    program counter and the bytes of memory. *)

From stdpp Require Import base list option numbers gmap.
From Stdlib Require Import ZArith Lia Bool.
From S2P Require Import Prelude Bits Insn Decode Mem MemSpec State Alu AluSpec.
#[local] Open Scope Z_scope.

(** * Architectural states *)

Record arch : Type := mk_arch {
  a_reg : Z -> Z;
  a_pc : Z;
  a_byte : Z -> Z;
}.

(** States are compared on the 32 registers and on memory pointwise. *)
#[export] Instance arch_equiv : Equiv arch := fun s t =>
  (forall r, 0 <= r < 32 -> a_reg s r = a_reg t r) /\ a_pc s = a_pc t /\
  (forall a, a_byte s a = a_byte t a).

#[export] Instance arch_equivalence : Equivalence (≡@{arch}).
Proof.
  split.
  - by intros s.
  - intros s t (H1 & H2 & H3). repeat split; intros; symmetry; auto.
  - intros s t u (H1 & H2 & H3) (G1 & G2 & G3). repeat split.
    + intros. rewrite H1 by done. auto.
    + congruence.
    + intros. rewrite H3. auto.
Qed.

(** The abstraction of an emulator state at program counter [pc]. *)
Definition arch_of (rv : riscv) (pc : Z) : arch :=
  mk_arch (xreg rv) pc (mem_byte rv.(mem)).

(** Writes to x0 are discarded. *)
Definition a_write (r v : Z) (s : arch) : arch :=
  mk_arch (fun i => if (i =? r) && negb (r =? 0) then v else a_reg s i) (a_pc s) (a_byte s).
Definition a_goto (pc : Z) (s : arch) : arch := mk_arch (a_reg s) pc (a_byte s).
Definition a_store (n a v : Z) (s : arch) : arch :=
  mk_arch (a_reg s) (a_pc s)
    (fun b => if (a <=? b) && (b <? a + n) then (v / 2 ^ (8 * (b - a))) mod 2 ^ 8 else a_byte s b).

(** A little-endian load of [n] bytes. *)
Fixpoint a_load (n : nat) (s : arch) (a : Z) : Z :=
  match n with
  | O => 0
  | S n' => a_byte s a + 2 ^ 8 * a_load n' s (a + 1)
  end.

(** * Values *)

Definition isa_div (x y : Z) : Z :=
  if y =? 0 then 2 ^ 32 - 1 else Z.quot (sx 32 x) (sx 32 y) mod 2 ^ 32.
Definition isa_rem (x y : Z) : Z := if y =? 0 then x else Z.rem (sx 32 x) (sx 32 y) mod 2 ^ 32.
Definition isa_rotl (x s : Z) : Z := (x * 2 ^ s) mod 2 ^ 32 + x / 2 ^ (32 - s).
Definition isa_rev8 (x : Z) : Z :=
  field x 24 8 + 2 ^ 8 * field x 16 8 + 2 ^ 16 * field x 8 8 + 2 ^ 24 * field x 0 8.
Definition isa_orcb (x : Z) : Z :=
  orc_byte (field x 0 8) + 2 ^ 8 * orc_byte (field x 8 8) + 2 ^ 16 * orc_byte (field x 16 8)
  + 2 ^ 24 * orc_byte (field x 24 8).

(** Register-register instructions. *)
Definition isa_rr (o : opcode_t) : option (Z -> Z -> Z) :=
  match o with
  | rv_insn_add => Some (fun x y => (x + y) mod 2 ^ 32)
  | rv_insn_sub => Some (fun x y => (x - y) mod 2 ^ 32)
  | rv_insn_sll => Some (fun x y => (x * 2 ^ (y mod 32)) mod 2 ^ 32)
  | rv_insn_slt => Some (fun x y => b2z (sx 32 x <? sx 32 y))
  | rv_insn_sltu => Some (fun x y => b2z (x <? y))
  | rv_insn_xor => Some Z.lxor
  | rv_insn_srl => Some (fun x y => x / 2 ^ (y mod 32))
  | rv_insn_sra => Some (fun x y => (sx 32 x / 2 ^ (y mod 32)) mod 2 ^ 32)
  | rv_insn_or => Some Z.lor
  | rv_insn_and => Some Z.land
  | rv_insn_mul => Some (fun x y => (x * y) mod 2 ^ 32)
  | rv_insn_mulh => Some (fun x y => (sx 32 x * sx 32 y / 2 ^ 32) mod 2 ^ 32)
  | rv_insn_mulhsu => Some (fun x y => (sx 32 x * y / 2 ^ 32) mod 2 ^ 32)
  | rv_insn_mulhu => Some (fun x y => x * y / 2 ^ 32)
  | rv_insn_div => Some isa_div
  | rv_insn_divu => Some (fun x y => if y =? 0 then 2 ^ 32 - 1 else x / y)
  | rv_insn_rem => Some isa_rem
  | rv_insn_remu => Some (fun x y => if y =? 0 then x else x mod y)
  | rv_insn_sh1add => Some (fun x y => (2 * x + y) mod 2 ^ 32)
  | rv_insn_sh2add => Some (fun x y => (4 * x + y) mod 2 ^ 32)
  | rv_insn_sh3add => Some (fun x y => (8 * x + y) mod 2 ^ 32)
  | rv_insn_andn => Some Z.ldiff
  | rv_insn_orn => Some (fun x y => Z.lor x (Z.lnot y) mod 2 ^ 32)
  | rv_insn_xnor => Some (fun x y => Z.lnot (Z.lxor x y) mod 2 ^ 32)
  | rv_insn_max => Some (fun x y => if sx 32 x <? sx 32 y then y else x)
  | rv_insn_min => Some (fun x y => if sx 32 x <? sx 32 y then x else y)
  | rv_insn_maxu => Some Z.max
  | rv_insn_minu => Some Z.min
  | rv_insn_rol => Some (fun x y => isa_rotl x (y mod 32))
  | rv_insn_ror => Some (fun x y => isa_rotl x ((32 - y mod 32) mod 32))
  | rv_insn_clmul => Some (fun x y => clmul_full x y mod 2 ^ 32)
  | rv_insn_clmulh => Some (fun x y => clmul_full x y / 2 ^ 32)
  | rv_insn_clmulr => Some (fun x y => clmul_full x y / 2 ^ 31)
  | rv_insn_bclr => Some (fun x y => Z.clearbit x (y mod 32))
  | rv_insn_bext => Some (fun x y => b2z (Z.testbit x (y mod 32)))
  | rv_insn_binv => Some (fun x y => Z.lxor x (2 ^ (y mod 32)))
  | rv_insn_bset => Some (fun x y => Z.setbit x (y mod 32))
  | rv_insn_zexth => Some (fun x y => x mod 2 ^ 16)
  | _ => None
  end.

(** Register-immediate instructions. *)
Definition isa_ri (o : opcode_t) : option (Z -> Z -> Z) :=
  match o with
  | rv_insn_addi => isa_rr rv_insn_add
  | rv_insn_slti => Some (fun x i => b2z (sx 32 x <? i))
  | rv_insn_sltiu => Some (fun x i => b2z (x <? i mod 2 ^ 32))
  | rv_insn_xori => Some (fun x i => Z.lxor x i mod 2 ^ 32)
  | rv_insn_ori => Some (fun x i => Z.lor x i mod 2 ^ 32)
  | rv_insn_andi => Some (fun x i => Z.land x i mod 2 ^ 32)
  | rv_insn_slli => isa_rr rv_insn_sll
  | rv_insn_srli => isa_rr rv_insn_srl
  | rv_insn_srai => isa_rr rv_insn_sra
  | rv_insn_rori => isa_rr rv_insn_ror
  | rv_insn_bclri => isa_rr rv_insn_bclr
  | rv_insn_bexti => isa_rr rv_insn_bext
  | rv_insn_binvi => isa_rr rv_insn_binv
  | rv_insn_bseti => isa_rr rv_insn_bset
  | rv_insn_clz => Some (fun x _ => if x =? 0 then 32 else 31 - Z.log2 x)
  | rv_insn_ctz => Some (fun x _ => if x =? 0 then 32 else Z.log2 (Z.land x (- x)))
  | rv_insn_cpop => Some (fun x _ => bit_count 32 x)
  | rv_insn_sextb => Some (fun x _ => sx 8 x mod 2 ^ 32)
  | rv_insn_sexth => Some (fun x _ => sx 16 x mod 2 ^ 32)
  | rv_insn_orcb => Some (fun x _ => isa_orcb x)
  | rv_insn_rev8 => Some (fun x _ => isa_rev8 x)
  | _ => None
  end.

(** The condition under which a branch is taken. *)
Definition isa_taken (o : opcode_t) : option (Z -> Z -> bool) :=
  match o with
  | rv_insn_beq => Some Z.eqb
  | rv_insn_bne => Some (fun x y => negb (x =? y))
  | rv_insn_blt => Some (fun x y => sx 32 x <? sx 32 y)
  | rv_insn_bge => Some (fun x y => sx 32 y <=? sx 32 x)
  | rv_insn_bltu => Some Z.ltb
  | rv_insn_bgeu => Some (fun x y => y <=? x)
  | _ => None
  end.

(** Width and extension of the loads, width of the stores. *)
Definition isa_load (o : opcode_t) : option (nat * (Z -> Z)) :=
  match o with
  | rv_insn_lb => Some (1%nat, fun v => sx 8 v mod 2 ^ 32)
  | rv_insn_lh => Some (2%nat, fun v => sx 16 v mod 2 ^ 32)
  | rv_insn_lw => Some (4%nat, fun v => v)
  | rv_insn_lbu => Some (1%nat, fun v => v)
  | rv_insn_lhu => Some (2%nat, fun v => v)
  | _ => None
  end.
Definition isa_store (o : opcode_t) : option Z :=
  match o with
  | rv_insn_sb => Some 1
  | rv_insn_sh => Some 2
  | rv_insn_sw => Some 4
  | _ => None
  end.

(** * Steps *)

(** One base instruction whose encoding is [len] bytes long. *)
Definition isa_step (len : Z) (ir : rv_insn_t) (s : arch) : option arch :=
  let x := a_reg s ir.(rs1) in
  let y := a_reg s ir.(rs2) in
  let next := (a_pc s + len) mod 2 ^ 32 in
  let addr := (x + ir.(imm)) mod 2 ^ 32 in
  match isa_rr ir.(opcode), isa_ri ir.(opcode), isa_taken ir.(opcode), isa_load ir.(opcode),
        isa_store ir.(opcode) with
  | Some f, _, _, _, _ => Some (a_goto next (a_write ir.(rd) (f x y) s))
  | _, Some f, _, _, _ => Some (a_goto next (a_write ir.(rd) (f x ir.(imm)) s))
  | _, _, Some taken, _, _ =>
      Some (a_goto (if taken x y then (a_pc s + ir.(imm)) mod 2 ^ 32 else next) s)
  | _, _, _, Some (n, ext), _ => Some (a_goto next (a_write ir.(rd) (ext (a_load n s addr)) s))
  | _, _, _, _, Some n => Some (a_goto next (a_store n addr y s))
  | None, None, None, None, None =>
      match ir.(opcode) with
      | rv_insn_lui => Some (a_goto next (a_write ir.(rd) (ir.(imm) mod 2 ^ 32) s))
      | rv_insn_auipc =>
          Some (a_goto next (a_write ir.(rd) ((a_pc s + ir.(imm)) mod 2 ^ 32) s))
      | rv_insn_jal =>
          Some (a_goto ((a_pc s + ir.(imm)) mod 2 ^ 32) (a_write ir.(rd) next s))
      | rv_insn_jalr =>
          Some (a_goto (2 * ((x + ir.(imm)) mod 2 ^ 32 / 2)) (a_write ir.(rd) next s))
      | _ => None
      end
  end.

(** The base instruction a compressed one expands to. *)
Definition expand (ir : rv_insn_t) : rv_insn_t :=
  let i o r r1 r2 im := set_imm im (set_rs2 r2 (set_rs1 r1 (set_rd r (set_opcode o ir)))) in
  match ir.(opcode) with
  | rv_insn_nop | rv_insn_cnop => i rv_insn_addi 0 0 0 0
  | rv_insn_caddi4spn => i rv_insn_addi ir.(rd) rv_reg_sp 0 ir.(imm)
  | rv_insn_clw => i rv_insn_lw ir.(rd) ir.(rs1) 0 ir.(imm)
  | rv_insn_csw => i rv_insn_sw 0 ir.(rs1) ir.(rs2) ir.(imm)
  | rv_insn_caddi => i rv_insn_addi ir.(rd) ir.(rd) 0 ir.(imm)
  | rv_insn_cjal => i rv_insn_jal rv_reg_ra 0 0 ir.(imm)
  | rv_insn_cli => i rv_insn_addi ir.(rd) 0 0 ir.(imm)
  | rv_insn_caddi16sp => i rv_insn_addi ir.(rd) ir.(rd) 0 ir.(imm)
  | rv_insn_clui => i rv_insn_lui ir.(rd) 0 0 ir.(imm)
  | rv_insn_csrli => i rv_insn_srli ir.(rs1) ir.(rs1) 0 ir.(shamt)
  | rv_insn_csrai => i rv_insn_srai ir.(rs1) ir.(rs1) 0 ir.(shamt)
  | rv_insn_candi => i rv_insn_andi ir.(rs1) ir.(rs1) 0 ir.(imm)
  | rv_insn_csub => i rv_insn_sub ir.(rd) ir.(rs1) ir.(rs2) 0
  | rv_insn_cxor => i rv_insn_xor ir.(rd) ir.(rs1) ir.(rs2) 0
  | rv_insn_cor => i rv_insn_or ir.(rd) ir.(rs1) ir.(rs2) 0
  | rv_insn_cand => i rv_insn_and ir.(rd) ir.(rs1) ir.(rs2) 0
  | rv_insn_cj => i rv_insn_jal 0 0 0 ir.(imm)
  | rv_insn_cbeqz => i rv_insn_beq 0 ir.(rs1) 0 ir.(imm)
  | rv_insn_cbnez => i rv_insn_bne 0 ir.(rs1) 0 ir.(imm)
  | rv_insn_cslli => i rv_insn_slli ir.(rd) ir.(rd) 0 ir.(imm)
  | rv_insn_clwsp => i rv_insn_lw ir.(rd) rv_reg_sp 0 ir.(imm)
  | rv_insn_cjr => i rv_insn_jalr 0 ir.(rs1) 0 0
  | rv_insn_cmv => i rv_insn_add ir.(rd) 0 ir.(rs2) 0
  | rv_insn_cjalr => i rv_insn_jalr rv_reg_ra ir.(rs1) 0 0
  | rv_insn_cadd => i rv_insn_add ir.(rd) ir.(rs1) ir.(rs2) 0
  | rv_insn_cswsp => i rv_insn_sw 0 rv_reg_sp ir.(rs2) ir.(imm)
  | _ => ir
  end.

(** The architectural meaning of an instruction in the IR. *)
Definition isa_exec (ir : rv_insn_t) (s : arch) : option arch :=
  isa_step (insn_len ir.(opcode)) (expand ir) s.
