(* ===== verification/IsaValues.v ===== *)
(** The values the instruction bodies compute are those of the ISA manual: each
    [alu_X] agrees with the reference function of Isa.v. *)

From stdpp Require Import base list option numbers gmap.
From Stdlib Require Import ZArith Lia Bool.
From S2P Require Import Prelude Bits Insn Decode Mem MemSpec State Alu AluSpec Isa.
#[local] Open Scope Z_scope.

(** * Values *)

Lemma mod_32 (y : Z) : (y .& 0x1f) = y mod 32.
Proof. apply land_31. Qed.

Lemma u32_not32 (x : Z) : is_u32 (not32 x).
Proof. apply u32_range. Qed.

Lemma land_not32 (x y : Z) : is_u32 x -> x .& not32 y = Z.ldiff x y.
Proof.
  intros Hx. apply Z.bits_inj'. intros i Hi. rewrite Z.land_spec, Z.ldiff_spec.
  destruct (Z.lt_ge_cases i 32).
  - by rewrite not32_testbit by lia.
  - by rewrite (u32_testbit_high x) by done.
Qed.

Lemma lor_not32 (x y : Z) : is_u32 x -> x .| not32 y = Z.lor x (Z.lnot y) mod 2 ^ 32.
Proof.
  intros Hx. apply Z.bits_inj'. intros i Hi. rewrite testbit_mod, !Z.lor_spec by lia.
  destruct (Z.ltb_spec i 32).
  - by rewrite not32_testbit, Z.lnot_spec by lia.
  - rewrite (u32_testbit_high x), (u32_testbit_high (not32 y)) by (done || apply u32_range). done.
Qed.

(** Truncating the immediate commutes with the bitwise operations. *)
Lemma bitwise_imm (x i : Z) :
  is_u32 x ->
  x .^ u32 i = Z.lxor x i mod 2 ^ 32 /\ x .| u32 i = Z.lor x i mod 2 ^ 32 /\
  x .& u32 i = Z.land x i mod 2 ^ 32.
Proof.
  intros Hx. unfold u32.
  split_and!; apply Z.bits_inj'; intros k Hk;
    rewrite !testbit_mod, ?Z.lxor_spec, ?Z.lor_spec, ?Z.land_spec, ?testbit_mod by lia;
    destruct (Z.ltb_spec k 32); rewrite ?(u32_testbit_high x k) by (done || lia); done.
Qed.

Lemma shl32_mul (x k : Z) : 0 <= k -> shl32 x k = (x * 2 ^ k) mod 2 ^ 32.
Proof. intros. unfold shl32, u32. by rewrite Z.shiftl_mul_pow2. Qed.

Lemma lor_add (a b n : Z) : 0 <= n -> 0 <= a < 2 ^ n -> a .| (b ≪ n) = a + 2 ^ n * b.
Proof.
  intros Hn Ha.
  assert (Hd : a .& (b ≪ n) = 0).
  { apply Z.bits_inj'. intros i Hi. rewrite Z.land_spec, Z.shiftl_spec, Z.bits_0 by done.
    rewrite <- (Z.mod_small a (2 ^ n)), testbit_mod by done.
    destruct (Z.ltb_spec i n); [|done].
    rewrite (Z.testbit_neg_r b) by lia. apply andb_false_r. }
  rewrite <- Z.lxor_lor, <- Z.add_nocarry_lxor by done. f_equal.
  rewrite Z.shiftl_mul_pow2 by done. lia.
Qed.

Lemma load_le_a_load (n : nat) (rv : riscv) (pc a : Z) :
  mem_wf rv.(mem) -> load_le n rv.(mem) a = a_load n (arch_of rv pc) a.
Proof.
  intros Hm. revert a. induction n as [|n IH]; intros a; cbn [load_le a_load]; [done|].
  rewrite IH. apply lor_add; [lia|]. by apply mem_byte_range.
Qed.

Lemma rotl_correct (x s : Z) :
  is_u32 x -> 0 < s < 32 -> shl32 x s .| (x ≫ (32 - s)) = isa_rotl x s.
Proof.
  intros Hx Hs. unfold isa_rotl. rewrite <- shl32_mul, <- Z.shiftr_div_pow2 by lia.
  assert (E : shl32 x s = (x mod 2 ^ (32 - s)) ≪ s).
  { apply Z.bits_inj'. intros i Hi. unfold shl32, u32.
    rewrite testbit_mod, !Z.shiftl_spec by lia.
    destruct (Z.lt_ge_cases (i - s) 0).
    - rewrite !(Z.testbit_neg_r _ (i - s)) by lia. apply andb_false_r.
    - rewrite testbit_mod by lia.
      destruct (Z.ltb_spec i 32), (Z.ltb_spec (i - s) (32 - s)); try lia; done. }
  rewrite E, Z.lor_comm, lor_add; [|lia|].
  - rewrite Z.shiftl_mul_pow2 by lia. lia.
  - rewrite Z.shiftr_div_pow2 by lia. unfold is_u32 in Hx. split; [apply Z.div_pos; lia|].
    apply Z.div_lt_upper_bound; [lia|]. rewrite <- Z.pow_add_r by lia.
    replace (32 - s + s) with 32 by lia. lia.
Qed.

Lemma div_isa (x y : Z) : is_u32 x -> is_u32 y -> alu_div x y = isa_div x y.
Proof.
  intros Hx Hy. unfold alu_div, isa_div. fold (i32 x) (i32 y).
  destruct (Z.eqb_spec (i32 y) 0) as [E|E]; rewrite i32_zero_iff in E by done.
  - by rewrite E.
  - rewrite (proj2 (Z.eqb_neq y 0) E).
    destruct ((i32 y =? -1) && (x =? 0x80000000)) eqn:Ho; [|done].
    apply andb_true_iff in Ho as [Ey%Z.eqb_eq ->%Z.eqb_eq]. by rewrite Ey.
Qed.

Lemma rem_isa (x y : Z) : is_u32 x -> is_u32 y -> alu_rem x y = isa_rem x y.
Proof.
  intros Hx Hy. unfold alu_rem, isa_rem. fold (i32 x) (i32 y).
  destruct (Z.eqb_spec (i32 y) 0) as [E|E]; rewrite i32_zero_iff in E by done.
  - rewrite E. simpl. rewrite u32_i32. by apply u32_id.
  - rewrite (proj2 (Z.eqb_neq y 0) E).
    destruct ((i32 y =? -1) && (x =? 0x80000000)) eqn:Ho; [|done].
    apply andb_true_iff in Ho as [Ey%Z.eqb_eq ->%Z.eqb_eq]. by rewrite Ey.
Qed.

(** [x & -x] isolates the lowest set bit. *)
Lemma lowest_bit (p : positive) : Z.land (Zpos p) (- Zpos p) = 2 ^ ctz_pos p.
Proof.
  induction p as [p _|p IH|]; cbn [ctz_pos]; [| |done].
  - apply Z.bits_inj'. intros i Hi. rewrite Z.pow_0_r, Z.land_spec.
    change (Z.pos p~1) with (2 * Z.pos p + 1).
    replace (- (2 * Z.pos p + 1)) with (2 * Z.lnot (Z.pos p) + 1) by (unfold Z.lnot; lia).
    destruct (Z.eq_dec i 0) as [->|]; [by rewrite !Z.testbit_odd_0|].
    replace i with (Z.succ (i - 1)) by lia. rewrite !Z.testbit_odd_succ, Z.lnot_spec by lia.
    change 1 with (2 * 0 + 1). rewrite Z.testbit_odd_succ, Z.bits_0 by lia. apply andb_negb_r.
  - change (Z.pos p~0) with (2 * Z.pos p). replace (- (2 * Z.pos p)) with (2 * - Z.pos p) by lia.
    rewrite !(Z.mul_comm 2), <- !(Z.shiftl_mul_pow2 _ 1) by lia.
    rewrite <- Z.shiftl_land, IH, Z.shiftl_mul_pow2, <- Z.pow_add_r by (lia || apply ctz_pos_spec).
    f_equal. lia.
Qed.

Lemma ctz_isa (x : Z) : is_u32 x -> alu_ctz x = if x =? 0 then 32 else Z.log2 (Z.land x (- x)).
Proof.
  intros Hx. unfold alu_ctz, truthy. destruct (Z.eqb_spec x 0); [done|]. simpl negb. cbv iota.
  destruct x as [|p|p]; [done| |unfold is_u32 in Hx; lia].
  rewrite lowest_bit, Z.log2_pow2 by apply ctz_pos_spec. done.
Qed.

Lemma bytes_add (a b c d : Z) :
  0 <= a < 2 ^ 8 -> 0 <= b < 2 ^ 8 -> 0 <= c < 2 ^ 8 ->
  a .| (b ≪ 8) .| (c ≪ 16) .| (d ≪ 24) = a + 2 ^ 8 * b + 2 ^ 16 * c + 2 ^ 24 * d.
Proof.
  intros. rewrite (lor_add a b 8), (lor_add (a + 2 ^ 8 * b) c 16), (lor_add _ d 24) by lia. done.
Qed.

Lemma rev8_isa (x : Z) : is_u32 x -> alu_rev8 x = isa_rev8 x.
Proof.
  intros Hx. unfold isa_rev8.
  replace (alu_rev8 x) with (field x 24 8 .| (field x 16 8 ≪ 8) .| (field x 8 8 ≪ 16) .| (field x 0 8 ≪ 24))
    by (unfold alu_rev8, shl32; bits_eq [x]).
  pose proof (field_range x 24 8). pose proof (field_range x 16 8). pose proof (field_range x 8 8).
  rewrite bytes_add by lia. lia.
Qed.

Lemma orcb_isa (x : Z) : alu_orcb x = isa_orcb x.
Proof.
  rewrite alu_orcb_bytes. unfold isa_orcb.
  assert (H : forall b, 0 <= orc_byte b < 2 ^ 8) by (intros b; unfold orc_byte; case_match; lia).
  pose proof (H (field x 0 8)). pose proof (H (field x 8 8)). pose proof (H (field x 16 8)).
  rewrite bytes_add by lia. lia.
Qed.

(** Sign extension with a mask. *)
Lemma sext_value (k x : Z) :
  0 < k < 32 ->
  sx k x mod 2 ^ 32
  = if Z.testbit x (k - 1) then (x .& Z.ones k) .| u32 ((-1) ≪ k) else x .& Z.ones k.
Proof.
  intros Hk. apply Z.bits_inj'. intros i Hi. unfold u32. rewrite testbit_mod, testbit_sx by lia.
  assert (Hhi : Z.testbit ((-1) ≪ k) i = (k <=? i)).
  { rewrite Z.shiftl_spec by lia. destruct (Z.leb_spec k i).
    - apply Z.bits_m1. lia.
    - apply Z.testbit_neg_r. lia. }
  assert (Hlo : Z.testbit (x .& Z.ones k) i = Z.testbit x i && (i <? k)).
  { rewrite Z.land_spec, Z.testbit_ones by lia. by rewrite (proj2 (Z.leb_le 0 i) Hi). }
  destruct (Z.testbit x (k - 1)) eqn:Ht; rewrite ?Z.lor_spec, ?testbit_mod, Hlo, ?Hhi by lia;
    destruct (Z.lt_ge_cases i k); rewrite ?Z.min_l, ?Z.min_r by lia; rewrite ?Ht;
    destruct (Z.leb_spec k i), (Z.ltb_spec i k), (Z.ltb_spec i 32); try lia;
    destruct (Z.testbit x i); done.
Qed.

(** * Register-register and register-immediate instructions *)

(** The computation of each handler of the shape [X[rd] = f(X[rs1], X[rs2])]. *)
Definition alu_rr (o : opcode_t) : option (Z -> Z -> option Z) :=
  let t f := Some (fun x y => Some (f x y)) in
  match o with
  | rv_insn_add | rv_insn_cadd => t alu_add
  | rv_insn_sub | rv_insn_csub => t alu_sub
  | rv_insn_sll => t alu_sll | rv_insn_slt => t alu_slt | rv_insn_sltu => t alu_sltu
  | rv_insn_xor | rv_insn_cxor => t alu_xor
  | rv_insn_srl => t alu_srl | rv_insn_sra => t alu_sra
  | rv_insn_or | rv_insn_cor => t alu_or
  | rv_insn_and | rv_insn_cand => t alu_and
  | rv_insn_mul => t alu_mul | rv_insn_mulh => t alu_mulh | rv_insn_mulhsu => t alu_mulhsu
  | rv_insn_mulhu => t alu_mulhu | rv_insn_div => t alu_div | rv_insn_divu => t alu_divu
  | rv_insn_rem => t alu_rem | rv_insn_remu => t alu_remu
  | rv_insn_sh1add => t alu_sh1add | rv_insn_sh2add => t alu_sh2add
  | rv_insn_sh3add => t alu_sh3add | rv_insn_andn => t alu_andn | rv_insn_orn => t alu_orn
  | rv_insn_xnor => t alu_xnor | rv_insn_max => t alu_max | rv_insn_min => t alu_min
  | rv_insn_maxu => t alu_maxu | rv_insn_minu => t alu_minu
  | rv_insn_rol => Some alu_rol | rv_insn_ror => Some alu_ror
  | rv_insn_clmul => t alu_clmul | rv_insn_clmulh => t alu_clmulh | rv_insn_clmulr => t alu_clmulr
  | rv_insn_bclr => t alu_bclr | rv_insn_bext => t alu_bext | rv_insn_binv => t alu_binv
  | rv_insn_bset => t alu_bset
  | rv_insn_zexth => t (fun x _ => alu_zexth x)
  | _ => None
  end.

(** ... and of the shape [X[rd] = f(X[rs1], imm)]. *)
Definition alu_ri (o : opcode_t) : option (Z -> Z -> option Z) :=
  let t f := Some (fun x i => Some (f x i)) in
  match o with
  | rv_insn_addi => t alu_addi | rv_insn_slti => t alu_slti | rv_insn_sltiu => t alu_sltiu
  | rv_insn_xori => t alu_xori | rv_insn_ori => t alu_ori | rv_insn_andi => t alu_andi
  | rv_insn_slli => t alu_slli | rv_insn_srli => t alu_srli | rv_insn_srai => t alu_srai
  | rv_insn_rori => Some alu_rori
  | rv_insn_bclri => t alu_bclr | rv_insn_bexti => t alu_bext | rv_insn_binvi => t alu_binv
  | rv_insn_bseti => t alu_bset
  | rv_insn_clz => t (fun x _ => alu_clz x) | rv_insn_ctz => t (fun x _ => alu_ctz x)
  | rv_insn_cpop => t (fun x _ => alu_cpop x)
  | rv_insn_orcb => t (fun x _ => alu_orcb x) | rv_insn_rev8 => t (fun x _ => alu_rev8 x)
  | _ => None
  end.

Section RegReg.
Context (x y : Z) (Hx : is_u32 x) (Hy : is_u32 y).

Lemma sll_isa (z : Z) : shl32 x (z .& 0x1f) = (x * 2 ^ (z mod 32)) mod 2 ^ 32.
Proof. rewrite mod_32. apply shl32_mul. by apply Z.mod_pos_bound. Qed.
Lemma srl_isa (z : Z) : x ≫ (z .& 0x1f) = x / 2 ^ (z mod 32).
Proof. rewrite mod_32. apply Z.shiftr_div_pow2. by apply Z.mod_pos_bound. Qed.
Lemma sra_isa (z : Z) : u32 (i32 x ≫ (z .& 0x1f)) = (sx 32 x / 2 ^ (z mod 32)) mod 2 ^ 32.
Proof. rewrite mod_32, Z.shiftr_div_pow2 by (by apply Z.mod_pos_bound). done. Qed.
Lemma divu_isa : alu_divu x y = if y =? 0 then 2 ^ 32 - 1 else x / y.
Proof.
  unfold alu_divu, is_u32 in *. destruct (Z.eqb_spec y 0); [done|]. apply Z.quot_div_nonneg; lia.
Qed.
Lemma remu_isa : alu_remu x y = if y =? 0 then x else x mod y.
Proof.
  unfold alu_remu, is_u32 in *. destruct (Z.eqb_spec y 0); [done|]. apply Z.rem_mod_nonneg; lia.
Qed.
Lemma shadd_isa (k : Z) : 0 <= k -> add32 (shl32 x k) y = (2 ^ k * x + y) mod 2 ^ 32.
Proof.
  intros. unfold add32, shl32. rewrite u32_add_l, Z.shiftl_mul_pow2 by done. unfold u32. f_equal. lia.
Qed.
Lemma xnor_isa : alu_xnor x y = Z.lnot (Z.lxor x y) mod 2 ^ 32.
Proof. done. Qed.
Lemma max_isa : alu_max x y = if sx 32 x <? sx 32 y then y else x.
Proof.
  unfold alu_max, i32. destruct (Z.gtb_spec (sx 32 x) (sx 32 y)) as [|Hle],
    (Z.ltb_spec (sx 32 x) (sx 32 y)); try lia; try done.
  assert (E : i32 x = i32 y) by (unfold i32; lia).
  rewrite <- (u32_id x Hx), <- (u32_id y Hy), <- (u32_i32 x), E. symmetry. apply u32_i32.
Qed.
Lemma maxu_isa : alu_maxu x y = Z.max x y.
Proof. unfold alu_maxu. destruct (Z.gtb_spec x y); lia. Qed.
Lemma minu_isa : alu_minu x y = Z.min x y.
Proof. unfold alu_minu. destruct (Z.ltb_spec x y); lia. Qed.
Lemma rol_isa (v : Z) : alu_rol x y = Some v -> v = isa_rotl x (y mod 32).
Proof.
  unfold alu_rol, c_shl, c_shr. rewrite mod_32.
  destruct (Z.ltb_spec (y mod 32) 32), (Z.ltb_spec (32 - y mod 32) 32); intros [= <-].
  apply rotl_correct; [done|lia].
Qed.
Lemma ror_isa (z v : Z) : alu_ror x z = Some v -> v = isa_rotl x ((32 - z mod 32) mod 32).
Proof.
  pose proof (Z.mod_pos_bound z 32 ltac:(lia)).
  unfold alu_ror, c_shl, c_shr. rewrite mod_32.
  destruct (Z.ltb_spec (z mod 32) 32), (Z.ltb_spec (32 - z mod 32) 32); intros [= <-].
  rewrite (Z.mod_small (32 - z mod 32)) by lia. rewrite Z.lor_comm.
  replace (x ≫ (z mod 32)) with (x ≫ (32 - (32 - z mod 32))) by (f_equal; lia).
  apply rotl_correct; [done|lia].
Qed.
Lemma bit_mask (z : Z) : shl32 1 (z .& (32 - 1)) = 2 ^ (z mod 32).
Proof. change (32 - 1) with 0x1f. rewrite mod_32. apply shl32_1. by apply Z.mod_pos_bound. Qed.
Lemma bclr_isa (z : Z) : alu_bclr x z = Z.clearbit x (z mod 32).
Proof. unfold alu_bclr. rewrite bit_mask, land_not32, Z.clearbit_spec' by done. done. Qed.
Lemma bset_isa (z : Z) : alu_bset x z = Z.setbit x (z mod 32).
Proof. unfold alu_bset. rewrite bit_mask, Z.setbit_spec'. done. Qed.
Lemma binv_isa (z : Z) : alu_binv x z = Z.lxor x (2 ^ (z mod 32)).
Proof. unfold alu_binv. by rewrite bit_mask. Qed.
Lemma bext_isa (z : Z) : alu_bext x z = b2z (Z.testbit x (z mod 32)).
Proof. apply bext_value. Qed.
Lemma zexth_isa : alu_zexth x = x mod 2 ^ 16.
Proof. unfold alu_zexth. change 0xffff with (Z.ones 16). by apply Z.land_ones. Qed.
Lemma clmul_isa :
  alu_clmul x y = clmul_full x y mod 2 ^ 32 /\ alu_clmulh x y = clmul_full x y / 2 ^ 32 /\
  alu_clmulr x y = clmul_full x y / 2 ^ 31.
Proof.
  destruct (clmul_values x y Hx Hy) as (-> & -> & ->). by rewrite !Z.shiftr_div_pow2 by lia.
Qed.
End RegReg.

(** The lemma for each computation. *)
Ltac value_isa Hx Hy :=
  lazymatch goal with
  | |- alu_sll _ _ = _ => apply sll_isa
  | |- alu_slli _ _ = _ => apply sll_isa
  | |- alu_srl _ _ = _ => apply srl_isa
  | |- alu_srli _ _ = _ => apply srl_isa
  | |- alu_sra _ _ = _ => apply sra_isa
  | |- alu_srai _ _ = _ => apply sra_isa
  | |- alu_mul _ _ = _ => apply (mul_values _ _ Hx Hy)
  | |- alu_mulh _ _ = _ => apply (mul_values _ _ Hx Hy)
  | |- alu_mulhsu _ _ = _ => apply (mul_values _ _ Hx Hy)
  | |- alu_mulhu _ _ = _ => apply (mul_values _ _ Hx Hy)
  | |- alu_div _ _ = _ => apply (div_isa _ _ Hx Hy)
  | |- alu_rem _ _ = _ => apply (rem_isa _ _ Hx Hy)
  | |- alu_divu _ _ = _ => apply (divu_isa _ _ Hx Hy)
  | |- alu_remu _ _ = _ => apply (remu_isa _ _ Hx Hy)
  | |- alu_sh1add _ _ = _ => apply (shadd_isa _ _ 1); lia
  | |- alu_sh2add _ _ = _ => apply (shadd_isa _ _ 2); lia
  | |- alu_sh3add _ _ = _ => apply (shadd_isa _ _ 3); lia
  | |- alu_andn _ _ = _ => apply (land_not32 _ _ Hx)
  | |- alu_orn _ _ = _ => apply (lor_not32 _ _ Hx)
  | |- alu_max _ _ = _ => apply (max_isa _ _ Hx Hy)
  | |- alu_maxu _ _ = _ => apply maxu_isa
  | |- alu_minu _ _ = _ => apply minu_isa
  | |- alu_rol _ _ = _ -> _ => apply (rol_isa _ _ Hx)
  | |- alu_ror _ _ = _ -> _ => apply (ror_isa _ Hx)
  | |- alu_rori _ _ = _ -> _ => apply (ror_isa _ Hx)
  | |- alu_clmul _ _ = _ => apply (clmul_isa _ _ Hx Hy)
  | |- alu_clmulh _ _ = _ => apply (clmul_isa _ _ Hx Hy)
  | |- alu_clmulr _ _ = _ => apply (clmul_isa _ _ Hx Hy)
  | |- alu_bclr _ _ = _ => apply (bclr_isa _ Hx)
  | |- alu_bset _ _ = _ => apply bset_isa
  | |- alu_binv _ _ = _ => apply binv_isa
  | |- alu_bext _ _ = _ => apply bext_isa
  | |- alu_zexth _ = _ => apply zexth_isa
  | |- alu_xori _ _ = _ => apply (bitwise_imm _ _ Hx)
  | |- alu_ori _ _ = _ => apply (bitwise_imm _ _ Hx)
  | |- alu_andi _ _ = _ => apply (bitwise_imm _ _ Hx)
  | |- alu_ctz _ = _ => apply (ctz_isa _ Hx)
  | |- alu_orcb _ = _ => apply orcb_isa
  | |- alu_rev8 _ = _ => apply (rev8_isa _ Hx)
  | |- alu_cpop _ = _ => apply (popcount_bits 32), Hx
  | |- alu_clz ?x = _ => unfold alu_clz, truthy, rv_clz; destruct (x =? 0); reflexivity
  | |- _ => reflexivity
  end.

(** Equations between options, without evaluating the values. *)
Ltac some_eq H :=
  lazymatch type of H with
  | None = Some _ => discriminate H
  | Some _ = Some _ => apply Some_inj in H; subst
  | _ => idtac
  end.

(** The equations that remain are those of the rotations. *)
Ltac opcode_values Hx Hy :=
  let Hf := fresh in let Hg := fresh in let Hv := fresh in
  intros Hf; some_eq Hf; intros Hg; some_eq Hg; cbv beta; intros Hv; some_eq Hv;
  lazymatch goal with
  | Hr : alu_rol _ _ = _ |- _ => revert Hr
  | Hr : alu_ror _ _ = _ |- _ => revert Hr
  | Hr : alu_rori _ _ = _ |- _ => revert Hr
  | |- _ => idtac
  end; value_isa Hx Hy.

Lemma rr_isa (o : opcode_t) (f : Z -> Z -> Z) (g : Z -> Z -> option Z) (x y v : Z) :
  is_u32 x -> is_u32 y -> isa_rr o = Some f -> alu_rr o = Some g -> g x y = Some v -> v = f x y.
Proof. intros Hx Hy. destruct o; cbn [isa_rr alu_rr]; opcode_values Hx Hy. Qed.

Lemma ri_isa (o : opcode_t) (f : Z -> Z -> Z) (g : Z -> Z -> option Z) (x i v : Z) :
  is_u32 x -> isa_ri o = Some f -> alu_ri o = Some g -> g x i = Some v -> v = f x i.
Proof. intros Hx. destruct o; cbn [isa_ri alu_ri isa_rr]; opcode_values Hx Hx. Qed.
