(* ===== verification/IsaRefine.v ===== *)
(** The instruction handlers implement the abstract hart: running the handler
    of an integer instruction and forgetting the bookkeeping is one step of
    [isa_exec]. *)

From stdpp Require Import base list option numbers gmap.
From Stdlib Require Import ZArith Lia Bool.
From S2P Require Import Prelude Bits Insn Decode DecodeWf Mem MemSpec State Trap Csr Fp Alu.
From S2P Require Import AluSpec Exec Isa IsaValues.
#[local] Open Scope Z_scope.

(** * Reaching an architectural state *)

(** The state and program counter a handler leaves behind. *)
Definition leaves (o : outcome) : option (riscv * Z) :=
  match o with
  | Next rv _ pc | Jump rv _ pc _ | Lookup rv _ pc => Some (rv, pc)
  | Exit rv _ => Some (rv, rv.(PC))
  | Undef => None
  end.

Definition reaches (o : outcome) (s : arch) : Prop :=
  exists rv pc, leaves o = Some (rv, pc) /\ arch_of rv pc ≡ s.

(** What [RVOP] does after the body. *)
Definition finish (len : Z) (o : outcome) : outcome :=
  match o with Next rv cycle pc => Next rv cycle (add32 pc len) | o => o end.

(** States that differ in bookkeeping only. *)
Definition similar (rv1 rv : riscv) : Prop :=
  rv1.(X) = rv.(X) /\ rv1.(mem) = rv.(mem) /\ rv1.(allow_misalign) = rv.(allow_misalign) /\
  rv1.(csrs) = rv.(csrs) /\ rv1.(priv_mode) = rv.(priv_mode).

Lemma similar_xreg (rv1 rv : riscv) (i : Z) : similar rv1 rv -> xreg rv1 i = xreg rv i.
Proof. intros (H & _). unfold xreg. by rewrite H. Qed.

Lemma similar_arch (rv1 rv : riscv) (pc : Z) : similar rv1 rv -> arch_of rv1 pc = arch_of rv pc.
Proof. intros (HX & Hm & _). unfold arch_of, xreg. by rewrite HX, Hm. Qed.

Lemma similar_set_xreg (rv1 rv : riscv) (r v : Z) :
  similar rv1 rv -> similar (set_xreg r v rv1) (set_xreg r v rv).
Proof. intros (HX & Hm & Ha). unfold similar, set_xreg. rv_simpl. by rewrite HX. Qed.

Lemma similar_trace (rv1 rv : riscv) (c p t a : Z) :
  similar rv1 rv -> similar (rv_trace_record c p t a rv1) rv.
Proof.
  intros. unfold rv_trace_record. destruct (history_log rv1); [|done].
  destruct (1 <? _); [destruct (negb _)|]; done.
Qed.

Lemma similar_count (rv : riscv) (o : opcode_t) : similar (count_insn o rv) rv.
Proof. done. Qed.

#[export] Hint Resolve similar_trace similar_count similar_set_xreg : rv.

Lemma rvop_reaches (o : opcode_t) (code : handler) (rv : riscv) (ir : rv_insn_t) (cycle pc : Z)
    (s : arch) :
  (forall rv1 c, similar rv1 rv -> reaches (finish (insn_len o) (code rv1 ir c pc)) s) ->
  reaches (rvop o code rv ir cycle pc) s.
Proof.
  intros H.
  assert (E : rvop o code rv ir cycle pc = finish (insn_len o)
    (code (count_insn ir.(opcode) (rv_trace_record cycle pc RV_TRACE_INSN 0 rv)) ir
       (u64 (cycle + 1)) pc)) by (unfold rvop; by destruct (code _ _ _ _)).
  rewrite E. apply (H (count_insn ir.(opcode) (rv_trace_record cycle pc RV_TRACE_INSN 0 rv)) (u64 (cycle + 1))).
  by apply similar_trace.
Qed.

(** * Handlers by shape *)

Section Shapes.
Context (rv rv1 : riscv) (cycle pc : Z).
Context (Hwf : riscv_wf rv) (Hx0 : xreg rv 0 = 0) (Hpc : is_u32 pc) (Hsim : similar rv1 rv).

(** A write of a register other than x0. *)
Lemma write_arch (r v pc' : Z) :
  0 < r < 32 -> arch_of (set_xreg r v rv1) pc' ≡ a_goto pc' (a_write r v (arch_of rv pc)).
Proof.
  intros Hr. destruct Hsim as (HX & Hm & _). split; [|split].
  - intros i Hi. cbn -[set_xreg]. unfold xreg, set_xreg. rv_simpl. rewrite HX.
    destruct (Z.eqb_spec r 0); [lia|]. destruct (Z.eqb_spec i r) as [->|]; simpl.
    + rewrite list_lookup_total_insert_eq; [done|]. rewrite (wf_X_len _ Hwf). lia.
    + rewrite list_lookup_total_insert_ne by lia. done.
  - done.
  - intros a. cbn. by rewrite Hm.
Qed.

Lemma write_x0_arch (v pc' : Z) :
  arch_of rv1 pc' ≡ a_goto pc' (a_write 0 v (arch_of rv pc)).
Proof.
  rewrite (similar_arch _ _ _ Hsim). split; [|done]. intros i Hi. cbn.
  by rewrite andb_false_r.
Qed.

(** The guarded write of jal and jalr. *)
Lemma write_nz_arch (r v pc' : Z) :
  0 <= r < 32 ->
  arch_of (if truthy r then set_xreg r v rv1 else rv1) pc'
  ≡ a_goto pc' (a_write r v (arch_of rv pc)).
Proof.
  intros Hr. unfold truthy. destruct (Z.eqb_spec r 0) as [->|]; simpl negb; cbv iota.
  - apply write_x0_arch.
  - apply write_arch. lia.
Qed.

Lemma goto_arch (pc' : Z) : arch_of rv1 pc' ≡ a_goto pc' (arch_of rv pc).
Proof. by rewrite (similar_arch _ _ _ Hsim). Qed.

Lemma store_arch (n : nat) (a v w pc' : Z) :
  w mod 2 ^ (8 * Z.of_nat n) = v mod 2 ^ (8 * Z.of_nat n) ->
  arch_of (set_mem (store_le n rv1.(mem) a w) rv1) pc'
  ≡ a_goto pc' (a_store (Z.of_nat n) a v (arch_of rv pc)).
Proof.
  intros Hv. destruct Hsim as (HX & Hm & _). split; [|split]; [|done|].
  - intros i Hi. cbn [arch_of a_goto a_store a_reg]. unfold xreg. rv_simpl. by rewrite HX.
  - intros b. cbn. rewrite <- (store_le_mod n _ a w), Hv, store_le_mod.
    rewrite mem_byte_store_le, Hm.
    destruct (Z.leb_spec a b); [|done]. simpl. destruct (b <? _); [|done].
    rewrite Z.shiftr_div_pow2 by lia. done.
Qed.

Lemma next_reaches (len : Z) (rv2 : riscv) (s : arch) :
  arch_of rv2 (add32 pc len) ≡ s -> reaches (finish len (Next rv2 cycle pc)) s.
Proof. intros. by exists rv2, (add32 pc len). Qed.

Lemma chain_reaches (len pc' : Z) (t : option irptr) (rv2 : riscv) (s : arch) :
  arch_of rv2 pc' ≡ s -> reaches (finish len (chain t rv2 cycle pc')) s.
Proof. intros. destruct t; unfold reaches; simpl; eexists _, _; (split; [done|]); done. Qed.

Lemma lookup_reaches (len pc' : Z) (rv2 : riscv) (s : arch) :
  arch_of rv2 pc' ≡ s -> reaches (finish len (Lookup rv2 cycle pc')) s.
Proof. intros. by exists rv2, pc'. Qed.

Lemma end_op_reaches (len pc' : Z) (rv2 : riscv) (s : arch) :
  arch_of rv2 pc' ≡ s -> reaches (finish len (end_op rv2 cycle pc')) s.
Proof. intros. by exists (set_PC pc' (set_csr_cycle cycle rv2)), pc'. Qed.
End Shapes.

(** * Which instructions are executed as specified *)

Definition aligned (rv : riscv) (a n : Z) : bool := rv.(allow_misalign) || (a mod n =? 0).

(** The access lies in RAM and is aligned, unless the emulator was configured
    to allow misaligned accesses. *)
Definition accessible (rv : riscv) (a n : Z) : bool :=
  GUEST_RAM_CONTAINS rv.(mem) a n && aligned rv a n.

(** The conditions under which the body of an instruction runs to its end: the
    destination is not x0 where the body writes it without a test, the accesses
    are in order, the shifts are by less than 32 and the immediates of the
    compressed instructions fit their encoding. *)
Definition executable (rv : riscv) (ir : rv_insn_t) : bool :=
  let e := expand ir in
  let x := xreg rv e.(rs1) in
  let addr := (x + e.(imm)) mod 2 ^ 32 in
  match isa_load e.(opcode), isa_store e.(opcode) with
  | Some (n, _), _ => negb (e.(rd) =? 0) && accessible rv addr (Z.of_nat n)
  | _, Some n => accessible rv addr n
  | None, None =>
      match ir.(opcode) with
      | rv_insn_nop | rv_insn_cnop | rv_insn_jal | rv_insn_jalr | rv_insn_cjal | rv_insn_cj
      | rv_insn_beq | rv_insn_bne | rv_insn_blt | rv_insn_bge | rv_insn_bltu | rv_insn_bgeu
      | rv_insn_cbeqz | rv_insn_cbnez => true
      | rv_insn_cjr | rv_insn_cjalr => x mod 2 =? 0
      | rv_insn_rol | rv_insn_ror =>
          negb (e.(rd) =? 0) && negb (xreg rv ir.(rs2) mod 32 =? 0)
      | rv_insn_rori => negb (e.(rd) =? 0) && negb (ir.(imm) mod 32 =? 0)
      | rv_insn_caddi4spn => negb (e.(rd) =? 0) && (0 <=? ir.(imm)) && (ir.(imm) <? 2 ^ 16)
      | rv_insn_caddi => negb (e.(rd) =? 0) && (- 2 ^ 15 <=? ir.(imm)) && (ir.(imm) <? 2 ^ 15)
      | rv_insn_cslli => negb (e.(rd) =? 0) && (0 <=? ir.(imm)) && (ir.(imm) <? 32)
      | rv_insn_csrli | rv_insn_csrai => negb (e.(rd) =? 0) && (ir.(shamt) <? 32)
      | _ => negb (e.(rd) =? 0)
      end
  end.

(** Registers of an instruction are in range. *)
Definition regs_ok (ir : rv_insn_t) : Prop :=
  0 <= ir.(rd) < 32 /\ 0 <= ir.(rs1) < 32 /\ 0 <= ir.(rs2) < 32 /\ 0 <= ir.(shamt).

Section Refine.
Context `{HostClock} `{Syscall} `{SoftFloat}.
Context (rv rv1 : riscv) (ir : rv_insn_t) (cycle pc : Z).
Context (Hwf : riscv_wf rv) (Hx0 : xreg rv 0 = 0) (Hpc : is_u32 pc) (Hsim : similar rv1 rv).
Context (Hir : regs_ok ir).

Lemma write_ok (len r v w : Z) (rv2 : riscv) :
  0 <= r < 32 -> negb (r =? 0) = true -> v = w -> similar rv2 rv ->
  reaches (finish len (Next (set_xreg r v rv2) cycle pc))
    (a_goto ((pc + len) mod 2 ^ 32) (a_write r w (arch_of rv pc))).
Proof.
  intros Hr Hnz%negb_true_iff%Z.eqb_neq -> Hs. apply next_reaches.
  apply write_arch; [done..|]. lia.
Qed.

Lemma op_reg_ok (len : Z) (f : Z -> Z -> option Z) (v w : Z) :
  negb (ir.(rd) =? 0) = true -> f (xreg rv ir.(rs1)) (xreg rv ir.(rs2)) = Some v -> v = w ->
  reaches (finish len
    (match f (xreg rv1 ir.(rs1)) (xreg rv1 ir.(rs2)) with
     | Some v => write_rd rv1 ir cycle pc v | None => Undef end))
    (a_goto ((pc + len) mod 2 ^ 32) (a_write ir.(rd) w (arch_of rv pc))).
Proof.
  intros Hnz Hv Hvw. rewrite !(similar_xreg _ _ _ Hsim), Hv. by apply write_ok; [apply Hir|..].
Qed.

Lemma op_imm_ok (len : Z) (f : Z -> Z -> option Z) (v w : Z) :
  negb (ir.(rd) =? 0) = true -> f (xreg rv ir.(rs1)) ir.(imm) = Some v -> v = w ->
  reaches (finish len
    (match f (xreg rv1 ir.(rs1)) ir.(imm) with
     | Some v => write_rd rv1 ir cycle pc v | None => Undef end))
    (a_goto ((pc + len) mod 2 ^ 32) (a_write ir.(rd) w (arch_of rv pc))).
Proof.
  intros Hnz Hv Hvw. rewrite !(similar_xreg _ _ _ Hsim), Hv. by apply write_ok; [apply Hir|..].
Qed.

(** Sign extension in two assignments. *)
Lemma sext_ok (len k : Z) :
  0 < k < 32 -> negb (ir.(rd) =? 0) = true ->
  reaches (finish len (sext (Z.ones k) (2 ^ (k - 1)) (u32 ((-1) ≪ k)) rv1 ir cycle pc))
    (a_goto ((pc + len) mod 2 ^ 32)
      (a_write ir.(rd) (sx k (xreg rv ir.(rs1)) mod 2 ^ 32) (arch_of rv pc))).
Proof.
  intros Hk Hnz. destruct Hir as (Hd & Hs & _). unfold sext.
  assert (Hl : length rv1.(X) = 32%nat) by (rewrite (proj1 Hsim); apply Hwf).
  rewrite truthy_land_pow2 by lia. rewrite !(xreg_set _ _ _ _ Hl) by lia.
  rewrite (similar_xreg _ _ _ Hsim), Z.eqb_refl.
  assert (Hb : Z.testbit (if ir.(rd) =? ir.(rs1) then xreg rv ir.(rs1) .& Z.ones k
                          else xreg rv ir.(rs1)) (k - 1) = Z.testbit (xreg rv ir.(rs1)) (k - 1)).
  { destruct (Z.eqb_spec (rd ir) (rs1 ir)); [|reflexivity]. rewrite Z.land_spec, Z.testbit_ones by lia.
    destruct (Z.leb_spec 0 (k - 1)), (Z.ltb_spec (k - 1) k); try lia. apply andb_true_r. }
  rewrite Hb. pose proof (sext_value k (xreg rv ir.(rs1)) Hk) as Hv.
  destruct (Z.testbit (xreg rv ir.(rs1)) (k - 1)); [|by apply write_ok].
  rewrite set_xreg_twice. by apply write_ok.
Qed.

(** An accessible address passes the alignment check. *)
Lemma access_ok (a n mask cause : Z) (compress : bool) (k : riscv -> outcome) :
  (n = 1 /\ mask = 0 \/ n = 2 /\ mask = 1 \/ n = 4 /\ mask = 3) -> accessible rv a n = true ->
  exists rv2, similar rv2 rv /\ access a mask cause compress rv1 cycle pc k = k rv2.
Proof.
  intros Hn Ha. eexists. split; [by apply similar_trace|]. unfold access, misaligned.
  destruct (similar_trace rv1 rv cycle pc RV_TRACE_MEM a Hsim) as (_ & _ & -> & _).
  apply andb_true_iff in Ha as [_ Ha]. unfold aligned in Ha.
  destruct (allow_misalign rv); [done|]. simpl in Ha |- *.
  assert (E : a .& mask = a mod n).
  { destruct Hn as [[-> ->]|[[-> ->]|[-> ->]]].
    - by rewrite Z.land_0_r, Z.mod_1_r.
    - by apply (Z.land_ones a 1).
    - by apply (Z.land_ones a 2). }
  by rewrite E, (proj1 (Z.eqb_eq _ _) Ha).
Qed.

Lemma load_ok (rv2 : riscv) (n : nat) (a : Z) :
  similar rv2 rv -> accessible rv a (Z.of_nat n) = true ->
  checked_load n rv2.(mem) a = Some (a_load n (arch_of rv pc) a).
Proof.
  intros (_ & Hm & _) [Hc _]%andb_true_iff. unfold checked_load. rewrite Hm, Hc. f_equal.
  apply load_le_a_load. apply Hwf.
Qed.

Lemma store_ok (len : Z) (rv2 : riscv) (n : nat) (a v w : Z) :
  similar rv2 rv -> accessible rv a (Z.of_nat n) = true ->
  w mod 2 ^ (8 * Z.of_nat n) = v mod 2 ^ (8 * Z.of_nat n) ->
  reaches (finish len
      (match checked_store n rv2.(mem) a w with
       | Some m => Next (set_mem m rv2) cycle pc
       | None => Undef
       end))
    (a_goto ((pc + len) mod 2 ^ 32) (a_store (Z.of_nat n) a v (arch_of rv pc))).
Proof.
  intros Hs [Hc _]%andb_true_iff Hv. unfold checked_store.
  rewrite (proj1 (proj2 Hs)), Hc. rewrite <- (proj1 (proj2 Hs)).
  apply next_reaches. by apply store_arch.
Qed.

Lemma branch_ok (untaken taken : Z -> Z -> bool) :
  taken (xreg rv ir.(rs1)) (xreg rv ir.(rs2))
  = negb (untaken (xreg rv ir.(rs1)) (xreg rv ir.(rs2))) ->
  reaches (finish 4 (BRANCH_FUNC untaken rv1 ir cycle pc))
    (a_goto (if taken (xreg rv ir.(rs1)) (xreg rv ir.(rs2)) then (pc + ir.(imm)) mod 2 ^ 32
             else (pc + 4) mod 2 ^ 32) (arch_of rv pc)).
Proof.
  intros ->. unfold BRANCH_FUNC. rewrite !(similar_xreg _ _ _ Hsim).
  destruct (untaken _ _); cbn [negb].
  - destruct (branch_untaken ir).
    + apply end_op_reaches. by apply goto_arch.
    + apply next_reaches. by apply goto_arch.
  - apply end_op_reaches. apply goto_arch. by destruct (imm ir <? 0).
Qed.

Lemma cbranch_ok (untaken : Z -> bool) (taken : bool) :
  taken = negb (untaken (xreg rv ir.(rs1))) ->
  reaches (finish 2 (cbranch untaken rv1 ir cycle pc))
    (a_goto (if taken then (pc + ir.(imm)) mod 2 ^ 32 else (pc + 2) mod 2 ^ 32) (arch_of rv pc)).
Proof.
  intros ->. unfold cbranch. rewrite (similar_xreg _ _ _ Hsim).
  destruct (untaken _); cbn [negb].
  - destruct (branch_untaken ir) as [t|].
    + apply (chain_reaches _ _ _ (Some t)). by apply goto_arch.
    + apply next_reaches. by apply goto_arch.
  - apply chain_reaches. by apply goto_arch.
Qed.

(** ** Register-register and register-immediate instructions *)

Lemma code_rr_eq (g : Z -> Z -> option Z) :
  alu_rr ir.(opcode) = Some g ->
  code_of ir.(opcode) rv1 ir cycle pc
  = match g (xreg rv1 ir.(rs1)) (xreg rv1 ir.(rs2)) with
    | Some v => write_rd rv1 ir cycle pc v
    | None => Undef
    end.
Proof.
  destruct (opcode ir); cbn [alu_rr]; intros Hg; some_eq Hg; reflexivity.
Qed.

Lemma code_ri_eq (g : Z -> Z -> option Z) :
  alu_ri ir.(opcode) = Some g ->
  code_of ir.(opcode) rv1 ir cycle pc
  = match g (xreg rv1 ir.(rs1)) ir.(imm) with
    | Some v => write_rd rv1 ir cycle pc v
    | None => Undef
    end.
Proof.
  destruct (opcode ir) eqn:Ho; cbn [alu_ri]; intros Hg; some_eq Hg;
    cbn [code_of]; unfold code_slli, code_srli, code_srai, shift_func; rewrite ?Ho; reflexivity.
Qed.

Lemma shift_defined (x n : Z) :
  0 <= n < 32 -> c_shl x n = Some (shl32 x n) /\ c_shr x n = Some (x ≫ n).
Proof. intros. unfold c_shl, c_shr. destruct (Z.ltb_spec n 32); [done|lia]. Qed.

(** Rotations by a nonzero amount are defined. *)
Lemma rotate_defined (x y : Z) :
  negb (y mod 32 =? 0) = true -> is_Some (alu_rol x y) /\ is_Some (alu_ror x y).
Proof.
  intros Hy%negb_true_iff%Z.eqb_neq. pose proof (Z.mod_pos_bound y 32 ltac:(lia)).
  unfold alu_rol, alu_ror. rewrite mod_32.
  destruct (shift_defined x (y mod 32)) as [-> ->]; [lia|].
  destruct (shift_defined x (32 - y mod 32)) as [-> ->]; [lia|]. split; by eexists.
Qed.

Lemma rr_defined (g : Z -> Z -> option Z) :
  alu_rr ir.(opcode) = Some g -> executable rv ir = true ->
  negb (ir.(rd) =? 0) = true /\ is_Some (g (xreg rv ir.(rs1)) (xreg rv ir.(rs2))).
Proof.
  unfold executable, expand.
  destruct (opcode ir) eqn:Ho; cbn [alu_rr]; intros Hg; some_eq Hg;
    cbn [opcode rs1 rs2 rd imm set_opcode set_rd set_rs1 set_rs2 set_imm];
    rewrite ?Ho; cbn [isa_load isa_store]; rewrite ?andb_true_iff; intros Hx; try (split; [exact Hx|by eexists]);
    (split; [apply Hx|]; apply rotate_defined, Hx).
Qed.

Lemma ri_defined (g : Z -> Z -> option Z) :
  alu_ri ir.(opcode) = Some g -> executable rv ir = true ->
  negb (ir.(rd) =? 0) = true /\ is_Some (g (xreg rv ir.(rs1)) ir.(imm)).
Proof.
  unfold executable, expand.
  destruct (opcode ir) eqn:Ho; cbn [alu_ri]; intros Hg; some_eq Hg; rewrite ?Ho;
    cbn [isa_load isa_store]; rewrite ?andb_true_iff; intros Hx;
    try (split; [exact Hx|by eexists]);
    (split; [apply Hx|]; apply rotate_defined, Hx).
Qed.

(** The compressed forms share the operands of their expansion. *)
Lemma rr_expand (g : Z -> Z -> option Z) :
  alu_rr ir.(opcode) = Some g ->
  (expand ir).(rd) = ir.(rd) /\ (expand ir).(rs1) = ir.(rs1) /\ (expand ir).(rs2) = ir.(rs2) /\
  alu_rr (expand ir).(opcode) = Some g /\ is_Some (isa_rr (expand ir).(opcode)).
Proof.
  unfold expand.
  destruct (opcode ir) eqn:Ho; cbn [alu_rr]; intros Hg; some_eq Hg; rewrite ?Ho;
    (split_and!; [reflexivity..|eexists; reflexivity]).
Qed.

Lemma ri_expand (g : Z -> Z -> option Z) :
  alu_ri ir.(opcode) = Some g ->
  expand ir = ir /\ isa_rr ir.(opcode) = None /\ is_Some (isa_ri ir.(opcode)).
Proof.
  unfold expand.
  destruct (opcode ir); cbn [alu_ri]; intros Hg; some_eq Hg;
    (split_and!; [reflexivity..|eexists; reflexivity]).
Qed.

Lemma rr_refines (g : Z -> Z -> option Z) (s : arch) :
  alu_rr ir.(opcode) = Some g -> executable rv ir = true ->
  isa_exec ir (arch_of rv pc) = Some s ->
  reaches (finish (insn_len ir.(opcode)) (code_of ir.(opcode) rv1 ir cycle pc)) s.
Proof.
  intros Hg Hx. destruct (rr_defined g Hg Hx) as [Hnz [v Hv]].
  destruct (rr_expand g Hg) as (Hd & H1' & H2' & Hg' & [f Hf]).
  rewrite (code_rr_eq g Hg). unfold isa_exec, isa_step. rewrite Hf, Hd, H1', H2'.
  intros Hs; some_eq Hs.
  apply (op_reg_ok _ g v); [done..|].
  eapply rr_isa; [by apply xreg_u32..|exact Hf|exact Hg'|exact Hv].
Qed.

Lemma ri_refines (g : Z -> Z -> option Z) (s : arch) :
  alu_ri ir.(opcode) = Some g -> executable rv ir = true ->
  isa_exec ir (arch_of rv pc) = Some s ->
  reaches (finish (insn_len ir.(opcode)) (code_of ir.(opcode) rv1 ir cycle pc)) s.
Proof.
  intros Hg Hx. destruct (ri_defined g Hg Hx) as [Hnz [v Hv]].
  destruct (ri_expand g Hg) as (He & Hrr & [f Hf]).
  rewrite (code_ri_eq g Hg). unfold isa_exec, isa_step. rewrite He, Hrr, Hf.
  intros Hs; some_eq Hs.
  apply (op_imm_ok _ g v); [done..|].
  eapply ri_isa; [by apply xreg_u32|exact Hf|exact Hg|exact Hv].
Qed.

(** ** Loads and stores *)

Lemma load_rd_ok (len : Z) (rv2 : riscv) (n : nat) (a : Z) (ext ext' : Z -> Z) :
  similar rv2 rv -> accessible rv a (Z.of_nat n) = true -> negb (ir.(rd) =? 0) = true ->
  (forall v, ext v = ext' v) ->
  reaches (finish len (match checked_load n rv2.(mem) a with
                       | Some v => write_rd rv2 ir cycle pc (ext v)
                       | None => Undef
                       end))
    (a_goto ((pc + len) mod 2 ^ 32)
      (a_write ir.(rd) (ext' (a_load n (arch_of rv pc) a)) (arch_of rv pc))).
Proof.
  intros Hs Ha Hnz He. rewrite (load_ok rv2 n a Hs Ha). by apply write_ok; [apply Hir|..].
Qed.

Lemma access_load_ok (len a mask cause : Z) (compress : bool) (n : nat) (ext ext' : Z -> Z) :
  Z.of_nat n = 2 /\ mask = 1 \/ Z.of_nat n = 4 /\ mask = 3 ->
  accessible rv a (Z.of_nat n) = true -> negb (ir.(rd) =? 0) = true ->
  (forall v, ext v = ext' v) ->
  reaches (finish len (access a mask cause compress rv1 cycle pc (fun rv2 =>
             match checked_load n rv2.(mem) a with
             | Some v => write_rd rv2 ir cycle pc (ext v)
             | None => Undef
             end)))
    (a_goto ((pc + len) mod 2 ^ 32)
      (a_write ir.(rd) (ext' (a_load n (arch_of rv pc) a)) (arch_of rv pc))).
Proof.
  intros Hn Ha Hnz He.
  edestruct (access_ok a (Z.of_nat n) mask cause compress) as (rv2 & Hs & ->); [lia|done|].
  by apply load_rd_ok.
Qed.

Lemma access_store_ok (len a mask cause : Z) (compress : bool) (n : nat) (w : riscv -> Z) (v : Z) :
  Z.of_nat n = 2 /\ mask = 1 \/ Z.of_nat n = 4 /\ mask = 3 ->
  accessible rv a (Z.of_nat n) = true ->
  (forall rv2, similar rv2 rv -> w rv2 mod 2 ^ (8 * Z.of_nat n) = v mod 2 ^ (8 * Z.of_nat n)) ->
  reaches (finish len (access a mask cause compress rv1 cycle pc (fun rv2 =>
             match checked_store n rv2.(mem) a (w rv2) with
             | Some m => Next (set_mem m rv2) cycle pc
             | None => Undef
             end)))
    (a_goto ((pc + len) mod 2 ^ 32) (a_store (Z.of_nat n) a v (arch_of rv pc))).
Proof.
  intros Hn Ha Hw.
  edestruct (access_ok a (Z.of_nat n) mask cause compress) as (rv2 & Hs & ->); [lia|done|].
  apply store_ok; auto.
Qed.

Lemma trunc_idem (n : nat) (x y : Z) :
  x = y -> (x mod 2 ^ (8 * Z.of_nat n)) mod 2 ^ (8 * Z.of_nat n) = y mod 2 ^ (8 * Z.of_nat n).
Proof. intros ->. apply Z.mod_mod. lia. Qed.

(** The address of a base load or store. *)
Lemma addr_eq : add32 (xreg rv1 ir.(rs1)) ir.(imm) = (xreg rv ir.(rs1) + ir.(imm)) mod 2 ^ 32.
Proof. by rewrite (similar_xreg _ _ _ Hsim). Qed.

Lemma base_load_refines (s : arch) :
  is_Some (isa_load ir.(opcode)) -> executable rv ir = true ->
  isa_exec ir (arch_of rv pc) = Some s ->
  reaches (finish (insn_len ir.(opcode)) (code_of ir.(opcode) rv1 ir cycle pc)) s.
Proof.
  intros [p Hp] Hx. assert (He : expand ir = ir).
  { unfold expand. destruct (opcode ir); (discriminate Hp || reflexivity). }
  revert Hx Hp. unfold executable, isa_exec, isa_step. rewrite He.
  destruct (opcode ir) eqn:Ho; cbn [isa_load]; intros Hx Hp; (discriminate Hp || some_eq Hp);
    apply andb_true_iff in Hx as [Hnz Ha];
    cbn [isa_rr isa_ri isa_taken]; intros Hs; some_eq Hs;
    cbn [code_of]; unfold code_lb, code_lh, code_lw, code_lbu, code_lhu; rewrite addr_eq.
  - apply (load_rd_ok 4 _ 1 _ sign_extend_b sign_extend_b); [by apply similar_trace|done..].
  - apply (access_load_ok _ _ _ _ _ 2 sign_extend_h sign_extend_h); [by left|done..].
  - apply (access_load_ok _ _ _ _ _ 4 (fun v => v) (fun v => v)); [by right|done..].
  - apply (load_rd_ok 4 _ 1 _ (fun v => v) (fun v => v)); [by apply similar_trace|done..].
  - apply (access_load_ok _ _ _ _ _ 2 (fun v => v) (fun v => v)); [by left|done..].
Qed.

Lemma base_store_refines (s : arch) :
  is_Some (isa_store ir.(opcode)) -> executable rv ir = true ->
  isa_exec ir (arch_of rv pc) = Some s ->
  reaches (finish (insn_len ir.(opcode)) (code_of ir.(opcode) rv1 ir cycle pc)) s.
Proof.
  intros [p Hp] Hx. assert (He : expand ir = ir).
  { unfold expand. destruct (opcode ir); (discriminate Hp || reflexivity). }
  revert Hx Hp. unfold executable, isa_exec, isa_step. rewrite He.
  destruct (opcode ir) eqn:Ho; cbn [isa_load isa_store]; intros Ha Hp;
    (discriminate Hp || some_eq Hp);
    cbn [isa_rr isa_ri isa_taken isa_load]; intros Hs; some_eq Hs;
    cbn [code_of]; unfold code_sb, code_sh, code_sw; rewrite addr_eq.
  - apply (store_ok 4 _ 1); [by apply similar_trace|done|].
    apply (trunc_idem 1). apply similar_xreg. by apply similar_trace.
  - apply (access_store_ok _ _ _ _ _ 2 (fun rv2 => u16 (xreg rv2 ir.(rs2)))); [by left|done|].
    intros rv2 Hs2. apply (trunc_idem 2). by apply similar_xreg.
  - apply (access_store_ok _ _ _ _ _ 4 (fun rv2 => xreg rv2 ir.(rs2))); [by right|done|].
    intros rv2 Hs2. by rewrite (similar_xreg _ _ _ Hs2).
Qed.

(** ** Jumps, branches and the rest of the base set *)

Lemma write_nz_ok (len r v pc' : Z) (rv2 : riscv) :
  0 <= r < 32 -> similar rv2 rv ->
  reaches (finish len (Lookup (if truthy r then set_xreg r v rv2 else rv2) cycle pc'))
    (a_goto pc' (a_write r v (arch_of rv pc))).
Proof. intros. apply lookup_reaches. by apply write_nz_arch. Qed.

Lemma x0_ok (w len : Z) (rv2 : riscv) :
  similar rv2 rv ->
  reaches (finish len (Next rv2 cycle pc)) (a_goto ((pc + len) mod 2 ^ 32) (a_write 0 w (arch_of rv pc))).
Proof. intros. apply next_reaches. by apply write_x0_arch. Qed.

(** [nop] stores zero in x0, which holds zero. *)
Lemma reset_x0_similar : similar (set_xreg 0 0 rv1) rv.
Proof.
  destruct Hsim as (HX & Hm & Ha). unfold similar, set_xreg. rv_simpl. split; [|done].
  rewrite HX. apply list_insert_id. revert Hx0. unfold xreg.
  rewrite list_lookup_total_alt. destruct (X rv !! Z.to_nat 0) eqn:E; simpl; [congruence|].
  apply lookup_ge_None in E. rewrite (wf_X_len _ Hwf) in E. lia.
Qed.

Lemma clear_bit0 (x : Z) : is_u32 x -> x .& not32 1 = 2 * (x / 2).
Proof.
  intros Hx. rewrite land_not32 by done. apply Z.bits_inj'. intros i Hi. rewrite Z.ldiff_spec.
  destruct (Z.eq_dec i 0) as [->|].
  - rewrite Z.testbit_even_0. apply andb_false_r.
  - replace i with (Z.succ (i - 1)) by lia. rewrite Z.testbit_even_succ, <- Z.div2_div, Z.div2_spec by lia.
    rewrite Z.shiftr_spec by lia. rewrite (Z.pow2_bits_false 0) by lia. rewrite andb_true_r.
    f_equal.
Qed.

Definition base_misc (o : opcode_t) : bool :=
  match o with
  | rv_insn_lui | rv_insn_auipc | rv_insn_jal | rv_insn_jalr | rv_insn_nop | rv_insn_sextb
  | rv_insn_sexth => true
  | _ => false
  end.

Lemma base_misc_refines (s : arch) :
  base_misc ir.(opcode) = true ->
  executable rv ir = true -> isa_exec ir (arch_of rv pc) = Some s ->
  reaches (finish (insn_len ir.(opcode)) (code_of ir.(opcode) rv1 ir cycle pc)) s.
Proof.
  intros Hin. pose proof Hir as (Hd & _). unfold executable, isa_exec, expand.
  destruct (opcode ir) eqn:Ho; (discriminate Hin || clear Hin);
    unfold isa_step;
    cbn [opcode rs1 rs2 rd imm set_opcode set_rd set_rs1 set_rs2 set_imm]; rewrite ?Ho;
    cbn [isa_load isa_store isa_rr isa_ri isa_taken]; intros Hx Hs; some_eq Hs; cbn [code_of].
  - apply x0_ok. apply reset_x0_similar.
  - by apply write_ok.
  - apply write_ok; [done..| |done]. cbn. unfold add32, u32. f_equal. lia.
  - apply chain_reaches. by apply write_nz_arch.
  - unfold code_jalr. rewrite (similar_xreg _ _ _ Hsim), clear_bit0 by apply u32_range.
    by apply write_nz_ok.
  - by apply (sext_ok 4 8).
  - by apply (sext_ok 4 16).
Qed.

Lemma branch_refines (s : arch) :
  is_Some (isa_taken ir.(opcode)) -> isa_exec ir (arch_of rv pc) = Some s ->
  reaches (finish (insn_len ir.(opcode)) (code_of ir.(opcode) rv1 ir cycle pc)) s.
Proof.
  intros [p Hp]. assert (He : expand ir = ir).
  { unfold expand. destruct (opcode ir); (discriminate Hp || reflexivity). }
  revert Hp. unfold isa_exec, isa_step. rewrite He.
  destruct (opcode ir) eqn:Ho; cbn [isa_taken]; intros Hp; (discriminate Hp || some_eq Hp);
    cbn [isa_rr isa_ri]; intros Hs; some_eq Hs; cbn [code_of].
  - apply (branch_ok _ Z.eqb). by rewrite negb_involutive.
  - by apply (branch_ok _ (fun x y => negb (x =? y))).
  - apply (branch_ok _ (fun x y => sx 32 x <? sx 32 y)). unfold i32. rewrite Z.geb_leb. apply Z.ltb_antisym.
  - apply (branch_ok _ (fun x y => sx 32 y <=? sx 32 x)). unfold i32. apply Z.leb_antisym.
  - apply (branch_ok _ Z.ltb). rewrite Z.geb_leb. apply Z.ltb_antisym.
  - apply (branch_ok _ (fun x y => y <=? x)). apply Z.leb_antisym.
Qed.

(** ** Compressed instructions *)

Definition is_rvc (o : opcode_t) : bool :=
  match o with
  | rv_insn_caddi4spn | rv_insn_clw | rv_insn_csw | rv_insn_cnop | rv_insn_caddi | rv_insn_cjal
  | rv_insn_cli | rv_insn_caddi16sp | rv_insn_clui | rv_insn_csrli | rv_insn_csrai
  | rv_insn_candi | rv_insn_cj | rv_insn_cbeqz | rv_insn_cbnez | rv_insn_cslli | rv_insn_clwsp
  | rv_insn_cjr | rv_insn_cmv | rv_insn_cjalr | rv_insn_cswsp => true
  | _ => false
  end.

Lemma shift_amount (n : Z) : 0 <= n < 32 -> n mod 32 = n.
Proof. intros. by apply Z.mod_small. Qed.

Lemma even_target (x : Z) : (x mod 2 =? 0) = true -> is_u32 x -> 2 * ((x + 0) mod 2 ^ 32 / 2) = x.
Proof.
  intros He%Z.eqb_eq Hx. rewrite Z.add_0_r, Z.mod_small by exact Hx.
  rewrite (Z.div_mod x 2) at 2 by lia. lia.
Qed.

Lemma cload_ok (a : Z) :
  accessible rv a 4 = true -> negb (ir.(rd) =? 0) = true ->
  reaches (finish 2 (cload a rv1 ir cycle pc))
    (a_goto ((pc + 2) mod 2 ^ 32) (a_write ir.(rd) (a_load 4 (arch_of rv pc) a) (arch_of rv pc))).
Proof. intros. apply (access_load_ok _ _ _ _ _ 4 (fun v => v) (fun v => v)); [by right|done..]. Qed.

Lemma cstore_ok (a : Z) :
  accessible rv a 4 = true ->
  reaches (finish 2 (cstore a rv1 ir cycle pc))
    (a_goto ((pc + 2) mod 2 ^ 32) (a_store 4 a (xreg rv ir.(rs2)) (arch_of rv pc))).
Proof.
  intros. apply (access_store_ok _ _ _ _ _ 4 (fun rv2 => xreg rv2 ir.(rs2))); [by right|done|].
  intros rv2 Hs2. by rewrite (similar_xreg _ _ _ Hs2).
Qed.

Ltac rvc_case Ho :=
  unfold isa_step;
  cbn [opcode rs1 rs2 rd imm set_opcode set_rd set_rs1 set_rs2 set_imm]; rewrite ?Ho;
  cbn [isa_load isa_store isa_rr isa_ri isa_taken]; rewrite ?andb_true_iff;
  let Hx := fresh "Hx" in let Hs := fresh in intros Hx Hs; some_eq Hs; cbn [code_of];
  cbn [a_pc a_reg arch_of].

(** Immediates that fit their width are not changed by the casts. *)
Lemma u16_fits (i : Z) : (0 <=? i) = true -> (i <? 2 ^ 16) = true -> u16 i = i.
Proof. intros ?%Z.leb_le ?%Z.ltb_lt. by apply Z.mod_small. Qed.

Lemma i16_fits (i : Z) : (- 2 ^ 15 <=? i) = true -> (i <? 2 ^ 15) = true -> i16 i = i.
Proof. intros ?%Z.leb_le ?%Z.ltb_lt. by apply sx_id. Qed.

Lemma rvc_refines (s : arch) :
  is_rvc ir.(opcode) = true ->
  executable rv ir = true -> isa_exec ir (arch_of rv pc) = Some s ->
  reaches (finish (insn_len ir.(opcode)) (code_of ir.(opcode) rv1 ir cycle pc)) s.
Proof.
  intros Hin. pose proof Hir as (Hd & Hr1 & Hr2 & Hsh). unfold executable, isa_exec, expand.
  assert (HX : forall i, xreg rv1 i = xreg rv i) by (intros; by apply similar_xreg).
  destruct (opcode ir) eqn:Ho; (discriminate Hin || clear Hin); rvc_case Ho.
  - (* caddi4spn *)
    destruct Hx as [[Hnz Hlo] Hhi]. apply write_ok; [done..| |done].
    rewrite HX. unfold alu_caddi4spn. by rewrite u16_fits.
  - (* clw *)
    unfold code_clw. rewrite HX, (u32_add_r _ _ : add32 _ _ = _). apply cload_ok; [exact (proj2 Hx)|exact (proj1 Hx)].
  - (* csw *)
    unfold code_csw. rewrite HX, (u32_add_r _ _ : add32 _ _ = _). apply cstore_ok. exact Hx.
  - (* cnop *)
    by apply x0_ok.
  - (* caddi *)
    destruct Hx as [[Hnz Hlo] Hhi]. apply write_ok; [done..| |done].
    rewrite HX. unfold alu_caddi. by rewrite i16_fits.
  - (* cjal *)
    apply chain_reaches. by apply write_arch.
  - (* cli *)
    apply write_ok; [done..| |done]. by rewrite Hx0.
  - (* caddi16sp *)
    apply write_ok; [done..| |done]. by rewrite HX.
  - (* clui *)
    by apply write_ok.
  - (* csrli *)
    destruct Hx as [Hnz Hlt%Z.ltb_lt]. unfold code_csrli, alu_csrli.
    destruct (shift_defined (xreg rv1 (rs1 ir)) (shamt ir)) as [_ ->]; [lia|].
    apply write_ok; [done..| |done]. rewrite HX, shift_amount by lia.
    by apply Z.shiftr_div_pow2.
  - (* csrai *)
    destruct Hx as [Hnz Hlt%Z.ltb_lt]. unfold code_csrai. rewrite HX, csrai_loop;
      [|by apply xreg_u32|lia].
    apply write_ok; [done..| |done]. rewrite shift_amount by lia.
    by rewrite Z.shiftr_div_pow2.
  - (* candi *)
    apply write_ok; [done..| |done]. rewrite HX. apply bitwise_imm. by apply xreg_u32.
  - (* cj *)
    apply chain_reaches. by apply write_x0_arch.
  - (* cbeqz *)
    apply (cbranch_ok truthy). rewrite Hx0. unfold truthy. by rewrite negb_involutive.
  - (* cbnez *)
    apply (cbranch_ok (fun x => negb (truthy x))). rewrite Hx0. unfold truthy.
    by rewrite negb_involutive.
  - (* cslli *)
    destruct Hx as [[Hnz Hlo%Z.leb_le] Hhi%Z.ltb_lt]. unfold code_cslli, alu_cslli, u8.
    rewrite (Z.mod_small (imm ir)) by lia.
    destruct (shift_defined (xreg rv1 (rd ir)) (imm ir)) as [-> _]; [lia|].
    apply write_ok; [done..| |done]. rewrite HX, shift_amount by lia. by apply shl32_mul.
  - (* clwsp *)
    unfold code_clwsp. rewrite HX. apply cload_ok; [exact (proj2 Hx)|exact (proj1 Hx)].
  - (* cjr *)
    unfold code_cjr. rewrite HX, even_target by (done || by apply xreg_u32).
    apply lookup_reaches. by apply write_x0_arch.
  - (* cmv *)
    apply write_ok; [done..| |done]. rewrite HX, Hx0. symmetry. apply u32_id. by apply xreg_u32.
  - (* cjalr *)
    unfold code_cjalr. rewrite HX, even_target by (done || by apply xreg_u32).
    apply lookup_reaches. by apply write_arch.
  - (* cswsp *)
    unfold code_cswsp. rewrite HX. apply cstore_ok. exact Hx.
Qed.

(** Every instruction the ISA model covers is of one of these shapes. *)
Lemma isa_shape (s : arch) :
  isa_exec ir (arch_of rv pc) = Some s ->
  is_Some (alu_rr ir.(opcode)) \/ is_Some (alu_ri ir.(opcode)) \/ is_Some (isa_load ir.(opcode)) \/
  is_Some (isa_store ir.(opcode)) \/ base_misc ir.(opcode) = true \/
  is_Some (isa_taken ir.(opcode)) \/ is_rvc ir.(opcode) = true.
Proof.
  unfold isa_exec, isa_step, expand.
  destruct (opcode ir) eqn:Ho; rewrite ?Ho;
    cbn [isa_load isa_store isa_rr isa_ri isa_taken alu_rr alu_ri base_misc is_rvc];
    intros Hs; first
      [ discriminate Hs
      | left; eexists; reflexivity
      | do 1 right; left; eexists; reflexivity
      | do 2 right; left; eexists; reflexivity
      | do 3 right; left; eexists; reflexivity
      | do 4 right; left; reflexivity
      | do 5 right; left; eexists; reflexivity
      | do 6 right; reflexivity ].
Qed.

Lemma code_refines (s : arch) :
  executable rv ir = true -> isa_exec ir (arch_of rv pc) = Some s ->
  reaches (finish (insn_len ir.(opcode)) (code_of ir.(opcode) rv1 ir cycle pc)) s.
Proof.
  intros Hx Hs. destruct (isa_shape s Hs) as [[g Hg]|[[g Hg]|[Ho|[Ho|[Ho|[Ho|Ho]]]]]].
  - by eapply rr_refines.
  - by eapply ri_refines.
  - by apply base_load_refines.
  - by apply base_store_refines.
  - by apply base_misc_refines.
  - by apply branch_refines.
  - by apply rvc_refines.
Qed.
End Refine.

(** Instructions of the ISA model are not fused. *)
Lemma do_insn_rvop `{HostClock} `{Syscall} `{SoftFloat} (ir : rv_insn_t) (s t : arch) :
  isa_exec ir s = Some t -> do_insn ir.(opcode) = rvop ir.(opcode) (code_of ir.(opcode)).
Proof.
  unfold isa_exec, isa_step, expand.
  destruct (opcode ir) eqn:Ho; rewrite ?Ho; cbn [isa_load isa_store isa_rr isa_ri isa_taken];
    intros Hs; first [discriminate Hs | reflexivity].
Qed.

(** The handler the dispatch table gives runs without undefined behaviour, and
    the registers, memory and program counter it leaves are those of one
    architectural step, whatever the chaining state of the block. *)
Lemma exec_ir_refines `{HostClock} `{Syscall} `{SoftFloat}
    (rv : riscv) (ir : rv_insn_t) (cycle pc : Z) (s : arch) :
  riscv_wf rv -> xreg rv 0 = 0 -> regs_ok ir -> ir.(impl) = ir.(opcode) ->
  executable rv ir = true -> isa_exec ir (arch_of rv pc) = Some s ->
  reaches (exec_ir rv ir cycle pc) s.
Proof.
  intros Hwf Hx0 Hir Hi Hx Hs. unfold exec_ir. rewrite Hi, (do_insn_rvop _ _ _ Hs).
  apply rvop_reaches. intros rv1 c Hsim. by eapply code_refines.
Qed.
