(* ===== verification/DecodeExec.v ===== *)
(** From the fetched word to the architectural step: the decoder establishes
    the static side conditions of the handlers (destinations other than x0,
    immediates and shift amounts in range), so that only conditions on the
    run-time state remain. *)

From stdpp Require Import base list option numbers gmap.
From Stdlib Require Import ZArith Lia Bool.
From S2P Require Import Prelude Bits Insn Decode DecodeSpec DecodeWf Mem MemSpec State Trap Csr Fp.
From S2P Require Import Alu AluSpec Exec Samples Isa IsaValues IsaRefine.
#[local] Open Scope Z_scope.

(** * Static conditions *)

(** Handlers that assign [X[rd]] without testing [rd] and that the decoder
    does not select for x0. *)
Definition unguarded (o : opcode_t) : bool :=
  match alu_rr o, alu_ri o with
  | None, None =>
      match o with
      | rv_insn_lui | rv_insn_auipc | rv_insn_sextb | rv_insn_sexth | rv_insn_caddi4spn
      | rv_insn_clw | rv_insn_caddi | rv_insn_caddi16sp | rv_insn_clui | rv_insn_cslli
      | rv_insn_clwsp | rv_insn_cmv => true
      | _ => false
      end
  | _, _ => true
  end.

Definition static_ok (ir : rv_insn_t) : bool :=
  (negb (unguarded ir.(opcode)) || negb (ir.(rd) =? 0)) &&
  match ir.(opcode) with
  | rv_insn_caddi4spn => (0 <=? ir.(imm)) && (ir.(imm) <? 2 ^ 16)
  | rv_insn_caddi => (- 2 ^ 15 <=? ir.(imm)) && (ir.(imm) <? 2 ^ 15)
  | rv_insn_cslli => 0 <=? ir.(imm)
  | rv_insn_csrli | rv_insn_csrai => negb (ir.(rs1) =? 0) && (ir.(shamt) <? 32)
  | rv_insn_candi => negb (ir.(rs1) =? 0)
  | _ => true
  end.

(** What is left to check when the instruction runs. *)
Definition runtime_ok (rv : riscv) (ir : rv_insn_t) : bool :=
  let e := expand ir in
  let x := xreg rv e.(rs1) in
  let addr := (x + e.(imm)) mod 2 ^ 32 in
  match isa_load e.(opcode), isa_store e.(opcode) with
  | Some (n, _), _ => negb (e.(rd) =? 0) && accessible rv addr (Z.of_nat n)
  | _, Some n => accessible rv addr n
  | None, None =>
      match ir.(opcode) with
      | rv_insn_cjr | rv_insn_cjalr => x mod 2 =? 0
      | rv_insn_rol | rv_insn_ror => negb (xreg rv ir.(rs2) mod 32 =? 0)
      | rv_insn_rori => negb (ir.(imm) mod 32 =? 0)
      | rv_insn_cslli => ir.(imm) <? 32
      | rv_insn_cli => negb (ir.(rd) =? 0)
      | _ => true
      end
  end.

Lemma executable_split (rv : riscv) (ir : rv_insn_t) (s t : arch) :
  isa_exec ir s = Some t -> static_ok ir = true -> runtime_ok rv ir = true ->
  executable rv ir = true.
Proof.
  unfold isa_exec, isa_step, static_ok, runtime_ok, executable, expand.
  destruct (opcode ir) eqn:Ho; rewrite ?Ho;
    cbn [opcode rs1 rs2 rd imm set_opcode set_rd set_rs1 set_rs2 set_imm
         isa_load isa_store isa_rr isa_ri isa_taken unguarded alu_rr alu_ri negb orb andb];
    rewrite ?Ho; cbn [isa_load isa_store isa_rr isa_ri isa_taken];
    intros Ht; first [discriminate Ht | clear Ht]; rewrite ?andb_true_iff; tauto.
Qed.

(** * The decoder establishes them *)

Definition out_static (r : option (bool * rv_insn_t)) : Prop :=
  match r with Some (true, ir) => static_ok ir = true | _ => True end.

Definition handler_static (h : decode_t) : Prop :=
  forall insn, is_u32 insn -> out_static (h rv_insn_zero insn).

(** Register fields with bit 3 set are not x0. *)
Lemma rvc_reg_nz (x : Z) : (x .| 0x08 =? 0) = false.
Proof.
  apply Z.eqb_neq. intros H0. apply (f_equal (fun y => Z.testbit y 3)) in H0.
  rewrite Z.lor_spec, Z.bits_0, orb_true_r in H0. discriminate.
Qed.

Ltac static_cases :=
  repeat match goal with
  | |- out_static (match ?x with _ => _ end) => destruct x eqn:?
  | |- out_static (accept (if ?x then _ else _) _) => destruct x eqn:?
  | |- out_static (Some (true, set_opcode (if ?x then _ else _) _)) => destruct x
  | |- out_static (Some (?a || ?b, _)) => destruct (a || b)
  end.

Ltac static_fields :=
  cbn [opcode rd rs1 rs2 imm shamt set_opcode set_rd set_rs1 set_rs2 set_imm set_shamt set_rm set_rs3
       decode_itype decode_utype decode_stype decode_rtype decode_btype decode_jtype
       decode_r4type unguarded alu_rr alu_ri negb orb andb] in *.

(** The destination register from the test that selected the opcode. *)
Ltac static_rd :=
  match goal with
  | H : (?x =? rv_reg_zero) = false |- context [?x =? 0] => change rv_reg_zero with 0 in H; rewrite H
  | H : ?x = Z.pos _ |- context [?x =? 0] => rewrite H
  | H : ?x = Z.neg _ |- context [?x =? 0] => rewrite H
  | H : truthy ?x = true |- context [?x =? 0] => apply negb_true_iff in H; rewrite H
  | |- context [Z.lor ?x 0x08 =? 0] => rewrite (rvc_reg_nz x)
  end.

Ltac static_leaf :=
  unfold accept, reject, out_static;
  lazymatch goal with
  | |- True => exact I
  | |- _ => unfold static_ok; static_fields; try static_rd; cbn [negb andb]; try reflexivity
  end.

Ltac handler_static :=
  intros insn Hinsn; autounfold with handlers; cbv beta zeta; static_cases; static_leaf.

(** Immediates and shift amounts of the compressed instructions. *)
Section RvcRanges.
Context (insn : Z) (Hinsn : is_u32 insn).

Lemma caddi4spn_imm_fits :
  (0 <=? c_decode_caddi4spn_nzuimm insn) && (c_decode_caddi4spn_nzuimm insn <? 2 ^ 16) = true.
Proof.
  assert (0 <= c_decode_caddi4spn_nzuimm insn < 2 ^ 16) by (apply mod_range; [lia|bits_eq [insn]]).
  rewrite andb_true_iff, Z.leb_le, Z.ltb_lt. lia.
Qed.

Lemma caddi_imm_fits :
  (- 2 ^ 15 <=? c_decode_citype_imm insn) && (c_decode_citype_imm insn <? 2 ^ 15) = true.
Proof.
  assert (E : c_decode_citype_imm insn = sx 16 (c_decode_citype_imm insn)) by bits_eq [insn].
  pose proof (sx_range 16 (c_decode_citype_imm insn) ltac:(lia)) as Hr. rewrite <- E in Hr.
  rewrite andb_true_iff, Z.leb_le, Z.ltb_lt. simpl Z.sub in Hr. lia.
Qed.

Lemma csrai_rs1_nz :
  u8 ((insn .& 0x0C00) ≫ 10) = 1 -> (c_decode_rs1 insn =? 0) = false.
Proof.
  intros Hf. apply Z.eqb_neq. intros H0.
  assert (E : u8 ((insn .& 0x0C00) ≫ 10) = c_decode_rs1 insn ≫ 3) by bits_eq [insn].
  rewrite H0, Hf in E. discriminate.
Qed.
End RvcRanges.

Lemma op_caddi4spn_static : handler_static op_caddi4spn.
Proof. handler_static. by apply caddi4spn_imm_fits. Qed.

Lemma op_caddi_static : handler_static op_caddi.
Proof. handler_static; by apply caddi_imm_fits. Qed.

Lemma op_cslli_static : handler_static op_cslli.
Proof.
  handler_static. apply Z.leb_le. apply (mod_range _ 6); [lia|bits_eq [insn]].
Qed.

Lemma op_cmisc_alu_static : handler_static op_cmisc_alu.
Proof.
  intros insn Hinsn. unfold op_cmisc_alu. static_cases; static_leaf;
    try (rewrite csrai_rs1_nz by done; cbn [negb andb]);
    apply Z.ltb_lt; eapply shamt_5bit; auto with rv.
Qed.

Ltac static_entry :=
  lazymatch goal with
  | |- handler_static op_caddi4spn => exact op_caddi4spn_static
  | |- handler_static op_caddi => exact op_caddi_static
  | |- handler_static op_cslli => exact op_cslli_static
  | |- handler_static op_cmisc_alu => exact op_cmisc_alu_static
  | |- _ => handler_static
  end.

Lemma rv_jump_table_static : Forall handler_static rv_jump_table.
Proof. repeat (apply List.Forall_cons; [static_entry|]). apply List.Forall_nil. Qed.

Lemma rvc_jump_table_static : Forall handler_static rvc_jump_table.
Proof. repeat (apply List.Forall_cons; [static_entry|]). apply List.Forall_nil. Qed.

Lemma table_lookup_static (t : list decode_t) (i : Z) :
  Forall handler_static t -> handler_static (table_lookup t i).
Proof.
  intros Ht. unfold table_lookup.
  destruct (nth_in_or_default (Z.to_nat i) t op_unimp) as [Hin| ->].
  - apply (proj1 (List.Forall_forall _ _) Ht _ Hin).
  - handler_static.
Qed.

Lemma decode_static (insn : Z) (ir : rv_insn_t) :
  is_u32 insn -> decode insn = Some (true, ir) -> static_ok ir = true.
Proof.
  intros Hinsn Hd. assert (Hs : out_static (decode insn)).
  { unfold decode, rv_decode. destruct (is_compressed insn).
    - apply (table_lookup_static _ _ rvc_jump_table_static). by apply u32_land_l.
    - by apply (table_lookup_static _ _ rv_jump_table_static). }
  by rewrite Hd in Hs.
Qed.

Lemma decode_regs (insn : Z) (ir : rv_insn_t) :
  is_u32 insn -> decode insn = Some (true, ir) -> regs_ok ir.
Proof.
  intros Hinsn Hd. assert (Hw : out_wf (if is_compressed insn then 2 else 4) (decode insn)).
  { by apply decode_out_wf. }
  rewrite Hd in Hw. destruct Hw as [[] _]. unfold regs_ok. repeat split; lia.
Qed.

(** * Decode and execute *)

(** The handler field does not change the meaning of an instruction. *)
Lemma isa_exec_impl (ir : rv_insn_t) (o : opcode_t) (s : arch) :
  isa_exec (set_impl o ir) s = isa_exec ir s.
Proof.
  destruct ir as [im r1 r2 r3 op sh rm0 i2 f p im0 bt bu bb].
  destruct op; reflexivity.
Qed.

Lemma executable_impl (rv : riscv) (ir : rv_insn_t) (o : opcode_t) :
  executable rv (set_impl o ir) = executable rv ir.
Proof.
  destruct ir as [im r1 r2 r3 op sh rm0 i2 f p im0 bt bu bb].
  destruct op; reflexivity.
Qed.

(** C1. The interpreter implements the ISA: take any 32-bit word the decoder
    accepts as an instruction of RV32IM, Zba, Zbb, Zbc or Zbs, or as an integer
    instruction of the C extension (which means its expansion).  The handler
    the dispatch table gives for it runs without undefined behaviour and leaves
    exactly the registers, memory and program counter of one architectural
    step, provided that its accesses are in RAM and aligned, that x0 is not the
    destination of a load or C.LI, that rotations and C.SLLI have an amount the
    C code can shift by, and that C.JR and C.JALR have an even target. *)
Theorem decode_exec_refines `{HostClock} `{Syscall} `{SoftFloat}
    (insn : Z) (ir : rv_insn_t) (rv : riscv) (cycle pc : Z) (s : arch) :
  is_u32 insn -> decode insn = Some (true, ir) -> riscv_wf rv -> xreg rv 0 = 0 ->
  runtime_ok rv ir = true -> isa_exec ir (arch_of rv pc) = Some s ->
  reaches (exec_ir rv (set_impl ir.(opcode) ir) cycle pc) s.
Proof.
  intros Hinsn Hd Hwf Hx0 Hr Hs. apply exec_ir_refines; [done..|exact (decode_regs _ _ Hinsn Hd)|done| |].
  - rewrite executable_impl. eapply executable_split; [exact Hs| |exact Hr]. by eapply decode_static.
  - by rewrite isa_exec_impl.
Qed.

(** [lw a0, 8(a1)] with a1 = 0x100. *)
Lemma decode_exec_refines_witness :
  let lw := mk_rv_insn 8 10 11 0 rv_insn_lw 0 0 0 None 0 rv_insn_nop None None None in
  let rv := hart_at 11 0x100 in
  decode 0x0085a503 = Some (true, lw) /\ runtime_ok rv lw = true /\
  reaches (@exec_ir stopped_clock no_syscall nan_unit rv (set_impl rv_insn_lw lw) 0 0x40)
    (a_goto ((0x40 + 4) mod 2 ^ 32)
      (a_write 10 (a_load 4 (arch_of rv 0x40) 0x108) (arch_of rv 0x40))).
Proof.
  intros lw rv. split; [by vm_compute|]. split; [by vm_compute|].
  apply (decode_exec_refines 0x0085a503 lw rv);
    [by vm_compute|by vm_compute|by apply hart_at_wf|by vm_compute|by vm_compute|done].
Defined.
