(* ===== verification/ExecWf.v ===== *)
(** Every handler preserves the well-formedness of the processor state: the
    registers stay 32 words of 32 bits, memory holds bytes, the counters stay
    in range. *)

From stdpp Require Import base list option numbers gmap.
From Stdlib Require Import ZArith Lia Bool.
From S2P Require Import Prelude Bits Insn Decode DecodeWf Mem MemSpec State Trap Csr Fp Alu AluSpec.
From S2P Require Import Exec Samples Isa IsaValues IsaRefine.
#[local] Open Scope Z_scope.

(** * The system-call layer *)

(** What the interpreter relies on: a system call returns a well-formed state. *)
Class SyscallWf `{Syscall} : Prop := {
  syscall_wf : forall rv rv', riscv_wf rv -> syscall_handler rv = Some rv' -> riscv_wf rv';
}.

(** * Values are 32-bit words *)

Lemma is_u32_small (x : Z) (n : Z) : 0 <= x < 2 ^ n -> n <= 32 -> is_u32 x.
Proof.
  intros [H1 H2] Hn. split; [done|]. apply Z.lt_le_trans with (2 ^ n); [done|].
  apply Z.pow_le_mono_r; lia.
Qed.

Lemma is_u32_0 : is_u32 0.
Proof. done. Qed.

Lemma b2z_u32 (b : bool) : is_u32 (b2z b).
Proof. by destruct b. Qed.

Lemma not32_u32 (x : Z) : is_u32 (not32 x).
Proof. apply u32_range. Qed.

Lemma add32_u32 (x y : Z) : is_u32 (add32 x y).
Proof. apply u32_range. Qed.

Lemma shl32_u32 (x y : Z) : is_u32 (shl32 x y).
Proof. apply u32_range. Qed.

Lemma u32_land_r (x y : Z) : is_u32 y -> is_u32 (x .& y).
Proof. intros. rewrite Z.land_comm. by apply u32_land_l. Qed.

Lemma shr_and31_u32 (x y : Z) : is_u32 x -> is_u32 (x ≫ (y .& 0x1f)).
Proof. intros. apply u32_shiftr; [|done]. rewrite land_31. by apply Z.mod_pos_bound. Qed.

#[export] Hint Resolve u32_range is_u32_0 b2z_u32 not32_u32 add32_u32 shl32_u32 u32_lor u32_lxor
  shr_and31_u32 is_u32_u16 : rv.

Section Values.
Context (x y : Z) (Hx : is_u32 x) (Hy : is_u32 y).

Lemma alu_mul_u32 : is_u32 (alu_mul x y).
Proof. rewrite (proj1 (mul_values x y Hx Hy)). apply u32_range. Qed.

Lemma alu_divu_u32 : is_u32 (alu_divu x y).
Proof.
  rewrite divu_isa by done. destruct (Z.eqb_spec y 0); [done|]. unfold is_u32 in *.
  split; [apply Z.div_pos; lia|]. apply Z.div_lt_upper_bound; nia.
Qed.

Lemma alu_remu_u32 : is_u32 (alu_remu x y).
Proof.
  rewrite remu_isa by done. destruct (Z.eqb_spec y 0); [done|]. unfold is_u32 in *.
  pose proof (Z.mod_pos_bound x y). lia.
Qed.

Lemma alu_div_u32 : is_u32 (alu_div x y).
Proof. unfold alu_div. repeat case_match; auto with rv. Qed.

Lemma choice_u32 (b : bool) : is_u32 (if b then x else y).
Proof. by destruct b. Qed.

Lemma alu_clz_u32 : is_u32 (alu_clz x).
Proof.
  unfold alu_clz, truthy, rv_clz. destruct (Z.eqb_spec x 0); [done|]. simpl.
  pose proof (Z.log2_nonneg x). unfold is_u32 in *.
  assert (Z.log2 x < 32) by (apply Z.log2_lt_pow2; lia). lia.
Qed.

Lemma alu_ctz_u32 : is_u32 (alu_ctz x).
Proof.
  rewrite ctz_isa by done. destruct (Z.eqb_spec x 0); [done|].
  assert (is_u32 (Z.land x (- x))) by (by apply u32_land_l).
  pose proof (Z.log2_nonneg (Z.land x (- x))). unfold is_u32 in *.
  split; [lia|]. assert (Z.log2 (Z.land x (- x)) <= Z.log2 (2 ^ 32)) by (apply Z.log2_le_mono; lia).
  rewrite Z.log2_pow2 in * by lia. lia.
Qed.

Lemma bit_count_bounds (n : nat) (z : Z) : 0 <= bit_count n z <= Z.of_nat n.
Proof. induction n; cbn [bit_count]; [lia|]. destruct (Z.testbit _ _); simpl b2z; lia. Qed.

Lemma alu_cpop_u32 : is_u32 (alu_cpop x).
Proof.
  unfold alu_cpop. rewrite (popcount_bits 32 x Hx).
  pose proof (bit_count_bounds 32 x). unfold is_u32. lia.
Qed.

Lemma alu_orcb_u32 : is_u32 (alu_orcb x).
Proof.
  rewrite orcb_isa. unfold isa_orcb, is_u32.
  assert (H : forall b, 0 <= orc_byte b < 2 ^ 8) by (intros b; unfold orc_byte; case_match; lia).
  pose proof (H (field x 0 8)). pose proof (H (field x 8 8)). pose proof (H (field x 16 8)).
  pose proof (H (field x 24 8)). lia.
Qed.

Lemma alu_rev8_u32 : is_u32 (alu_rev8 x).
Proof.
  rewrite rev8_isa by done. unfold isa_rev8, is_u32.
  pose proof (field_range x 0 8). pose proof (field_range x 8 8). pose proof (field_range x 16 8).
  pose proof (field_range x 24 8). lia.
Qed.

Lemma alu_clmul_u32 : is_u32 (alu_clmul x y).
Proof. rewrite (proj1 (clmul_isa x y Hx Hy)). apply u32_range. Qed.

(** The loops that xor right shifts of [x] stay below 2^32. *)
Lemma clmul_fold_u32 (f : Z -> Z) (g : Z -> bool) (l : list Z) (a : Z) :
  (forall i, i ∈ l -> 0 <= f i) -> is_u32 a ->
  is_u32 (fold_left (fun out i => if g i then out .^ (x ≫ f i) else out) l a).
Proof.
  revert a. induction l as [|i l IH]; intros a Hf Ha; simpl; [done|].
  apply IH; [set_solver|]. destruct (g i); [|done]. apply u32_lxor; [done|].
  apply u32_shiftr; [|done]. apply Hf. set_solver.
Qed.

Lemma alu_clmulh_u32 : is_u32 (alu_clmulh x y).
Proof.
  apply (clmul_fold_u32 (fun i => 32 - i) (fun i => truthy ((y ≫ i) .& 1))); [|done].
  intros i Hi%elem_of_seqZ. lia.
Qed.

Lemma alu_clmulr_u32 : is_u32 (alu_clmulr x y).
Proof.
  apply (clmul_fold_u32 (fun i => 32 - i - 1) (fun i => truthy ((y ≫ i) .& 1))); [|done].
  intros i Hi%elem_of_seqZ. lia.
Qed.

Lemma alu_bext_u32 : is_u32 (alu_bext x y).
Proof. apply u32_land_r. done. Qed.

Lemma c_shl_u32 (n v : Z) : c_shl x n = Some v -> is_u32 v.
Proof. unfold c_shl. case_match; [|done]. intros [= <-]. apply u32_range. Qed.

Lemma c_shr_u32 (n v : Z) : 0 <= n -> c_shr x n = Some v -> is_u32 v.
Proof. unfold c_shr. case_match; [|done]. intros ? [= <-]. by apply u32_shiftr. Qed.

Lemma rotate_u32 (z v : Z) : alu_rol x z = Some v \/ alu_ror x z = Some v -> is_u32 v.
Proof.
  pose proof (Z.mod_pos_bound z 32 ltac:(lia)). unfold alu_rol, alu_ror. rewrite mod_32.
  intros [Hv|Hv]; revert Hv.
  - destruct (c_shl x _) eqn:E1; [|done]. destruct (c_shr x _) eqn:E2; [|done]. intros [= <-].
    apply u32_lor; [by eapply c_shl_u32|]. eapply c_shr_u32; [|done]. lia.
  - destruct (c_shr x _) eqn:E1; [|done]. destruct (c_shl x _) eqn:E2; [|done]. intros [= <-].
    apply u32_lor; [|by eapply c_shl_u32]. eapply c_shr_u32; [|done]. lia.
Qed.
End Values.

#[export] Hint Resolve alu_mul_u32 alu_divu_u32 alu_remu_u32 alu_div_u32 choice_u32 alu_clz_u32
  alu_ctz_u32 alu_cpop_u32 alu_orcb_u32 alu_clmul_u32 alu_clmulh_u32 alu_clmulr_u32 alu_bext_u32
  alu_rev8_u32 : rv.

Ltac value_u32 :=
  lazymatch goal with
  | |- is_u32 (alu_mulhu _ _) => apply u32_range
  | |- is_u32 (alu_and _ _) => by apply u32_land_l
  | |- is_u32 (alu_andi _ _) => by apply u32_land_l
  | |- is_u32 (alu_andn _ _) => by apply u32_land_l
  | |- is_u32 (alu_bclr _ _) => by apply u32_land_l
  | |- is_u32 (alu_zexth _) => by apply u32_land_l
  | |- is_u32 (alu_xor _ _) => by apply u32_lxor
  | |- is_u32 (alu_or _ _) => by apply u32_lor
  | |- is_u32 (alu_xori _ _) => apply u32_lxor; auto with rv
  | |- is_u32 (alu_ori _ _) => apply u32_lor; auto with rv
  | |- is_u32 (alu_orn _ _) => apply u32_lor; auto with rv
  | |- is_u32 (alu_binv _ _) => apply u32_lxor; auto with rv
  | |- is_u32 (alu_bset _ _) => apply u32_lor; auto with rv
  | |- is_u32 (alu_srl _ _) => by apply shr_and31_u32
  | |- is_u32 (alu_srli _ _) => by apply shr_and31_u32
  | |- is_u32 (alu_max _ _) => by apply choice_u32
  | |- is_u32 (alu_min _ _) => by apply choice_u32
  | |- is_u32 (alu_maxu _ _) => by apply choice_u32
  | |- is_u32 (alu_minu _ _) => by apply choice_u32
  | |- is_u32 (alu_slt _ _) => apply b2z_u32
  | |- is_u32 (alu_sltu _ _) => apply b2z_u32
  | |- is_u32 (alu_slti _ _) => apply b2z_u32
  | |- is_u32 (alu_sltiu _ _) => apply b2z_u32
  | |- _ => first [solve [auto with rv] | apply u32_range]
  end.

Lemma rr_u32 (o : opcode_t) (g : Z -> Z -> option Z) (x y v : Z) :
  is_u32 x -> is_u32 y -> alu_rr o = Some g -> g x y = Some v -> is_u32 v.
Proof.
  intros Hx Hy.
  destruct o; cbn [alu_rr]; intros Hg; some_eq Hg; cbv beta; intros Hv; some_eq Hv;
    lazymatch goal with
    | _ : _ = Some v |- _ => eapply (rotate_u32 x Hx); eauto
    | |- _ => value_u32
    end.
Qed.

Lemma ri_u32 (o : opcode_t) (g : Z -> Z -> option Z) (x i v : Z) :
  is_u32 x -> alu_ri o = Some g -> g x i = Some v -> is_u32 v.
Proof.
  intros Hx.
  destruct o; cbn [alu_ri]; intros Hg; some_eq Hg; cbv beta; intros Hv; some_eq Hv;
    lazymatch goal with
    | _ : _ = Some v |- _ => eapply (rotate_u32 x Hx); eauto
    | |- _ => value_u32
    end.
Qed.

(** * Handlers *)

Definition outcome_wf (o : outcome) : Prop :=
  match o with
  | Next rv cycle pc | Jump rv cycle pc _ | Lookup rv cycle pc =>
      riscv_wf rv /\ 0 <= cycle < 2 ^ 64 /\ is_u32 pc
  | Exit rv _ => riscv_wf rv
  | Undef => True
  end.

Section Handlers.
Context `{HostClock} `{Syscall} `{SoftFloat} `{!SyscallWf}.
Context (rv : riscv) (ir : rv_insn_t) (cycle pc : Z).
Context (Hwf : riscv_wf rv) (Hir : regs_ok ir) (Hc : 0 <= cycle < 2 ^ 64) (Hpc : is_u32 pc).

Lemma next_wf (rv' : riscv) : riscv_wf rv' -> outcome_wf (Next rv' cycle pc).
Proof. by intros. Qed.

Lemma write_rd_wf (rv' : riscv) (v : Z) :
  riscv_wf rv' -> is_u32 v -> outcome_wf (write_rd rv' ir cycle pc v).
Proof. intros. apply next_wf. auto with rv. Qed.

Lemma rr_code_wf (g : Z -> Z -> option Z) :
  alu_rr ir.(opcode) = Some g -> outcome_wf (code_of ir.(opcode) rv ir cycle pc).
Proof.
  intros Hg. rewrite (code_rr_eq _ _ _ _ g Hg). destruct (g _ _) eqn:Hv; [|done].
  apply write_rd_wf; [done|]. eapply rr_u32; [| |exact Hg|exact Hv]; auto with rv.
Qed.

Lemma ri_code_wf (g : Z -> Z -> option Z) :
  alu_ri ir.(opcode) = Some g -> outcome_wf (code_of ir.(opcode) rv ir cycle pc).
Proof.
  intros Hg. rewrite (code_ri_eq _ _ _ _ g Hg). destruct (g _ _) eqn:Hv; [|done].
  apply write_rd_wf; [done|]. eapply ri_u32; [|exact Hg|exact Hv]; auto with rv.
Qed.

(** Branches and jumps. *)
Lemma end_op_wf (rv' : riscv) (pc' : Z) :
  riscv_wf rv' -> is_u32 pc' -> outcome_wf (end_op rv' cycle pc').
Proof. intros. simpl. auto with rv. Qed.

Lemma chain_wf (t : option irptr) (rv' : riscv) (pc' : Z) :
  riscv_wf rv' -> is_u32 pc' -> outcome_wf (chain t rv' cycle pc').
Proof. intros. destruct t; simpl; auto with rv. Qed.

Lemma write_nz_wf (rv' : riscv) (r v : Z) :
  riscv_wf rv' -> is_u32 v -> riscv_wf (if truthy r then set_xreg r v rv' else rv').
Proof. intros. destruct (truthy r); auto with rv. Qed.

Lemma BRANCH_FUNC_wf (untaken : Z -> Z -> bool) : outcome_wf (BRANCH_FUNC untaken rv ir cycle pc).
Proof.
  unfold BRANCH_FUNC. destruct (untaken _ _).
  - destruct (branch_untaken ir); [apply end_op_wf|apply next_wf]; auto with rv.
  - apply end_op_wf; [|auto with rv]. apply set_is_branch_taken_wf. destruct (_ <? 0); auto with rv.
Qed.

Lemma cbranch_wf (untaken : Z -> bool) : outcome_wf (cbranch untaken rv ir cycle pc).
Proof.
  unfold cbranch. destruct (untaken _).
  - destruct (branch_untaken ir); simpl; auto with rv.
  - apply chain_wf; auto with rv.
Qed.

(** ** Traps *)

Lemma checked_load_u32 (n : nat) (m : memory_t) (a v : Z) :
  mem_wf m -> (n <= 4)%nat -> checked_load n m a = Some v -> is_u32 v.
Proof.
  intros Hm Hn. unfold checked_load. case_match; [|done]. intros [= <-].
  eapply is_u32_small; [by apply load_le_range|]. lia.
Qed.

Lemma checked_store_wf (n : nat) (m m' : memory_t) (a v : Z) :
  mem_wf m -> checked_store n m a v = Some m' -> mem_wf m'.
Proof. intros Hm. unfold checked_store. case_match; [|done]. intros [= <-]. by apply store_le_wf. Qed.

Lemma fold_option_ind {A B} (P : A -> Prop) (f : A -> B -> option A) (l : list B) (a : option A) :
  (forall x b y, P x -> f x b = Some y -> P y) ->
  (forall x, a = Some x -> P x) ->
  forall y, fold_left (fun acc b => let? x := acc in f x b) l a = Some y -> P y.
Proof.
  intros Hf. revert a. induction l as [|b l IH]; intros a Ha y; simpl; [apply Ha|].
  apply IH. intros x Hx. destruct a as [z|]; [|done]. eapply Hf; [by apply Ha|done].
Qed.

Lemma read_bytes_u32 (rv' : riscv) (a v : Z) (n : nat) :
  riscv_wf rv' -> read_bytes rv' a n = Some v -> is_u32 v.
Proof.
  intros Hw. unfold read_bytes. apply (fold_option_ind is_u32).
  - intros x b y Hx. destruct (memory_read_b _ _) eqn:E; [|done]. intros [= <-]. auto with rv.
  - intros x [= <-]. auto with rv.
Qed.

Lemma write_bytes_wf (m m' : memory_t) (a v : Z) (n : nat) :
  mem_wf m -> write_bytes m a v n = Some m' -> mem_wf m'.
Proof.
  intros Hm. unfold write_bytes. apply (fold_option_ind mem_wf).
  - intros x b y Hx. by apply checked_store_wf.
  - by intros x [= <-].
Qed.

Lemma emulate_load_wf (rv' rv2 : riscv) (i : rv_insn_t) (a : Z) (b : bool) :
  riscv_wf rv' -> emulate_misaligned_load rv' i a = Some (b, rv2) -> riscv_wf rv2.
Proof.
  intros Hw. unfold emulate_misaligned_load.
  assert (Hword : forall v,
    (if a .& 1 =? 0 then
       let? lo := memory_read_s rv'.(mem) a in
       let? hi := memory_read_s rv'.(mem) (add32 a 2) in
       Some (lo .| shl32 hi 16)
     else read_bytes rv' a 4) = Some v -> is_u32 v).
  { intros v. destruct (_ =? 0); [|by apply read_bytes_u32].
    destruct (memory_read_s _ a) eqn:E1; [|done]. destruct (memory_read_s _ (add32 a 2)) eqn:E2; [|done].
    intros Hv; some_eq Hv. apply u32_lor; [|auto with rv].
    eapply (checked_load_u32 2); [apply Hw|lia|exact E1]. }
  destruct (opcode i);
    lazymatch goal with
    | |- Some (false, _) = _ -> _ => intros E; by simplify_eq
    | |- (match (if ?c then ?p else ?q) with _ => _ end) = _ -> _ =>
        destruct (if c then p else q) as [v|] eqn:E; [|done]; intros E'; simplify_eq;
        apply set_xreg_wf; [done|by apply Hword]
    | |- _ =>
        destruct (read_bytes rv' a 2) as [v|] eqn:E; [|done]; intros E'; simplify_eq;
        apply set_xreg_wf; [done|]; first [apply u32_range | by eapply read_bytes_u32]
    end.
Qed.

Lemma emulate_store_wf (rv' rv2 : riscv) (i : rv_insn_t) (a : Z) (b : bool) :
  riscv_wf rv' -> emulate_misaligned_store rv' i a = Some (b, rv2) -> riscv_wf rv2.
Proof.
  intros Hw. pose proof (wf_mem _ Hw) as Hm. unfold emulate_misaligned_store.
  destruct (opcode i);
    lazymatch goal with
    | |- Some (false, _) = _ -> _ => intros E; by simplify_eq
    | |- (match (if ?c then ?p else ?q) with _ => _ end) = _ -> _ =>
        destruct (if c then p else q) as [m|] eqn:E; [|done]; intros E'; simplify_eq;
        apply set_mem_wf; [done|]; destruct (_ =? 0); [|by eapply write_bytes_wf];
        destruct (memory_write_s _ a _) as [m1|] eqn:E1; [|done];
        eapply checked_store_wf; [|exact E]; eapply checked_store_wf; [exact Hm|exact E1]
    | |- _ =>
        destruct (write_bytes _ _ _ 2) as [m|] eqn:E; [|done]; intros E'; simplify_eq;
        apply set_mem_wf; [done|by eapply write_bytes_wf]
    end.
Qed.

Lemma skip_insn_wf (rv' : riscv) : riscv_wf rv' -> riscv_wf (skip_insn rv').
Proof. intros. unfold skip_insn. auto with rv. Qed.

Lemma default_handler_wf (rv' rv2 : riscv) :
  riscv_wf rv' -> rv_trap_default_handler rv' = Some rv2 -> riscv_wf rv2.
Proof.
  intros Hw. unfold rv_trap_default_handler.
  destruct (_ || _); [|intros [= <-]; by apply skip_insn_wf].
  destruct (memory_ifetch _ _) as [insn|]; [|done].
  destruct (insn =? 0); [intros [= <-]; by apply skip_insn_wf|].
  destruct (decode insn) as [[ok i]|]; [|done].
  destruct (negb ok); [intros [= <-]; by apply skip_insn_wf|].
  destruct (if _ =? LOAD_MISALIGNED then _ else _) as [[b rv3]|] eqn:E; [|done]. intros [= <-].
  apply skip_insn_wf. destruct (_ =? LOAD_MISALIGNED).
  - by eapply emulate_load_wf.
  - by eapply emulate_store_wf.
Qed.

Lemma trap_handler_wf (rv' rv2 : riscv) :
  riscv_wf rv' -> trap_handler rv' = Some rv2 -> riscv_wf rv2.
Proof.
  intros Hw. unfold trap_handler, _trap_handler.
  assert (Hb : forall r, is_u32 (csr_val rv' r)) by (intros; apply Hw).
  assert (Hv : forall base mode cause r, riscv_wf r -> is_u32 base ->
    riscv_wf (match mode with
              | 0 => set_PC base r
              | 1 => set_PC (add32 base (4 * (cause .& 0x7fffffff))) r
              | _ => r
              end)).
  { intros base mode cause r Hr Hbs. repeat case_match; auto with rv. }
  destruct (RV_PRIV_IS_U_OR_S_MODE rv').
  - intros [= <-]. apply Hv.
    + apply set_csr_wf; [|apply Hw]. apply set_priv_mode_wf, set_csr_wf; [done|].
      apply u32_lor; [|auto with rv]. apply u32_land_l, u32_lor; auto with rv.
    + apply u32_land_l, Hw.
  - set (mst := Z.lor _ _). assert (is_u32 mst).
    { apply u32_lor; [|auto with rv]. apply u32_land_l, u32_lor; auto with rv. }
    assert (Hr : riscv_wf (set_csr csr_mepc rv'.(PC)
      (set_priv_mode RV_PRIV_M_MODE (set_csr csr_mstatus mst rv')))).
    { apply set_csr_wf; [|apply Hw]. auto with rv. }
    destruct (_ =? 0); [by apply default_handler_wf|]. intros [= <-]. apply Hv; [done|].
    apply u32_land_l, Hw.
Qed.

Lemma trap_wf (cause tval : Z) (rv' rv2 : riscv) :
  riscv_wf rv' -> is_u32 cause -> is_u32 tval ->
  SET_CAUSE_AND_TVAL_THEN_TRAP cause tval rv' = Some rv2 -> riscv_wf rv2.
Proof.
  intros Hw Hc1 Ht. unfold SET_CAUSE_AND_TVAL_THEN_TRAP. apply trap_handler_wf.
  destruct (RV_PRIV_IS_U_OR_S_MODE rv'); auto with rv.
Qed.

(** ** Control and status registers *)

Lemma shiftr32_u32 (x : Z) : 0 <= x < 2 ^ 64 -> is_u32 (x ≫ 32).
Proof.
  intros. rewrite Z.shiftr_div_pow2 by lia. split; [apply Z.div_pos; lia|].
  apply Z.div_lt_upper_bound; lia.
Qed.

Lemma set_csr_cycle_u64 (rv' : riscv) (v : Z) :
  riscv_wf rv' -> 0 <= v < 2 ^ 64 -> riscv_wf (set_csr_cycle v rv').
Proof. apply set_csr_cycle_wf. Qed.

Lemma u64_range (x : Z) : 0 <= u64 x < 2 ^ 64.
Proof. unfold u64. apply Z.mod_pos_bound. lia. Qed.

Lemma update_time_wf (rv' : riscv) : riscv_wf rv' -> riscv_wf (update_time rv').
Proof.
  intros Hw. unfold update_time. destruct (gettimeofday rv').
  apply set_csr_wf; [apply set_csr_wf; [auto with rv|]|].
  - by apply u32_land_r.
  - apply shiftr32_u32. apply u64_range.
Qed.

Lemma csr_get_ptr_wf (rv' rv2 : riscv) (csr : Z) (p : option csr_ptr) :
  riscv_wf rv' -> csr_get_ptr rv' csr = (p, rv2) -> riscv_wf rv2.
Proof.
  intros Hw. unfold csr_get_ptr.
  repeat case_match; intros E; simplify_eq; auto using update_time_wf.
Qed.

Lemma load_ptr_u32 (rv' : riscv) (p : csr_ptr) : riscv_wf rv' -> is_u32 (load_ptr rv' p).
Proof.
  intros Hw. destruct p as [r|[]]; simpl; [apply Hw| |apply u32_range]. apply shiftr32_u32, Hw.
Qed.

Lemma store_ptr_wf (rv' : riscv) (p : csr_ptr) (v : Z) :
  riscv_wf rv' -> is_u32 v -> riscv_wf (store_ptr p v rv').
Proof.
  intros Hw Hv. pose proof (shiftr32_u32 _ (wf_cycle _ Hw)) as Hh. unfold is_u32 in *.
  destruct p as [r|[]]; simpl; [by apply set_csr_wf| |]; apply set_csr_cycle_wf; try done;
    (apply lor_range; [lia| |]).
  - pose proof (u32_range (csr_cycle rv')). unfold is_u32 in *. lia.
  - rewrite Z.shiftl_mul_pow2; lia.
  - rewrite Z.shiftl_mul_pow2; lia.
  - lia.
Qed.

Lemma csr_rmw_wf (f : Z -> Z) (rv' rv2 : riscv) (csr out : Z) :
  riscv_wf rv' -> (forall x, is_u32 x -> is_u32 (f x)) ->
  csr_rmw f rv' csr cycle = (out, rv2) -> is_u32 out /\ riscv_wf rv2.
Proof.
  intros Hw Hf. unfold csr_rmw.
  assert (Hs : riscv_wf (sync_cycle csr cycle rv')).
  { unfold sync_cycle. repeat case_match; auto with rv. }
  destruct (csr_get_ptr _ csr) as [[p|] rv3] eqn:E; intros E'; simplify_eq;
    pose proof (csr_get_ptr_wf _ _ _ _ Hs E) as H3; [|done].
  pose proof (load_ptr_u32 _ p H3). split; [|apply store_ptr_wf; auto].
  case_match; [|done]. by apply u32_land_l.
Qed.

Lemma csr_op_wf (f : Z -> Z) (rd' : rv_insn_t) (csr : Z) :
  (forall x, is_u32 x -> is_u32 (f x)) ->
  outcome_wf (csr_op (fun rv ir cycle => csr_rmw f rv csr cycle) rv ir cycle pc).
Proof.
  intros Hf. unfold csr_op. destruct (csr_rmw f rv csr cycle) as [tmp rv2] eqn:E.
  destruct (csr_rmw_wf _ _ _ _ _ Hwf Hf E). apply write_rd_wf; [done|].
  case_match; auto with rv.
Qed.

(** ** Floating point *)

Lemma set_fflag_wf (rv' : riscv) : riscv_wf rv' -> riscv_wf (set_fflag rv').
Proof.
  intros Hw. unfold set_fflag.
  assert (Ha : forall mask flag r, riscv_wf r -> is_u32 flag ->
    riscv_wf (if truthy (r.(softfloat_exceptionFlags) .& mask)
              then set_csr csr_fcsr (csr_val r csr_fcsr .| flag) r else r)).
  { intros mask flag r Hr Hf. case_match; [|done]. apply set_csr_wf; [done|].
    apply u32_lor; [apply Hr|done]. }
  apply set_softfloat_exceptionFlags_wf. repeat (apply Ha; [|done]). done.
Qed.

Lemma set_rounding_mode_wf (rv' rv2 : riscv) (m : Z) :
  riscv_wf rv' -> set_rounding_mode rv' m = Some rv2 -> riscv_wf rv2.
Proof.
  intros Hw. unfold set_rounding_mode. repeat case_match; intros E; simplify_eq; auto with rv.
Qed.

Lemma fp_op_wf (op : riscv -> rv_insn_t -> Z * Z) (write : Z -> riscv -> rv_insn_t -> riscv) :
  (forall v r i, riscv_wf r -> riscv_wf (write v r i)) -> outcome_wf (fp_op op write rv ir cycle pc).
Proof.
  intros Hwr. unfold fp_op. destruct (set_rounding_mode rv (rm ir)) as [rv2|] eqn:E; [|done].
  pose proof (set_rounding_mode_wf _ _ _ Hwf E). destruct (op rv2 ir).
  apply next_wf, set_fflag_wf, Hwr. unfold raise. auto with rv.
Qed.

Lemma to_freg_wf (v : Z) (r : riscv) (i : rv_insn_t) : riscv_wf r -> riscv_wf (to_freg v r i).
Proof. intros. unfold to_freg. auto with rv. Qed.

Lemma write_rd_nz_wf (r : riscv) (i : rv_insn_t) (v : Z) :
  riscv_wf r -> is_u32 v -> riscv_wf (write_rd_nz r i v).
Proof. apply write_nz_wf. Qed.

Lemma to_xreg_wf (v : Z) (r : riscv) (i : rv_insn_t) : riscv_wf r -> riscv_wf (to_xreg v r i).
Proof. intros. apply write_rd_nz_wf; auto with rv. Qed.

Lemma fp_cmp_wf (cmp : Z -> Z -> bool * Z) : outcome_wf (fp_cmp cmp rv ir cycle pc).
Proof.
  unfold fp_cmp. destruct (cmp _ _). apply next_wf, set_fflag_wf, write_rd_nz_wf; [|auto with rv].
  unfold raise. auto with rv.
Qed.

Lemma ordered_wf (a b f1 f2 sign : Z) (r r' : riscv) (x : bool) :
  riscv_wf r -> ordered a b f1 f2 sign r = (x, r') -> riscv_wf r'.
Proof.
  intros Hr. unfold ordered, raise.
  destruct (f32_lt_quiet a b) as [[] ?]; [|destruct (f32_eq f1 f2)]; intros E; simplify_eq; auto with rv.
Qed.

Lemma minmax_wf (less : Z -> Z -> riscv -> bool * riscv) :
  (forall f1 f2 r x r', riscv_wf r -> less f1 f2 r = (x, r') -> riscv_wf r') ->
  outcome_wf (minmax less rv ir cycle pc).
Proof.
  intros Hl. unfold minmax. set (rv1 := if _ || _ then _ else _).
  assert (H1' : riscv_wf rv1).
  { unfold rv1. case_match; [|done]. apply set_csr_wf; [done|]. apply u32_lor; [apply Hwf|done]. }
  destruct (less _ _ rv1) as [x rv2] eqn:E. pose proof (Hl _ _ _ _ _ H1' E).
  apply next_wf, set_freg_wf; [done|]. repeat case_match; auto with rv. done.
Qed.

(** ** Memory *)

Lemma exc_misaligned_wf (cause a : Z) (c : bool) (r : riscv) :
  riscv_wf r -> is_u32 cause -> is_u32 a -> outcome_wf (exc_misaligned cause c a r cycle pc).
Proof.
  intros Hr Hcs Ha. unfold exc_misaligned.
  destruct (SET_CAUSE_AND_TVAL_THEN_TRAP _ _ _) as [rv2|] eqn:E; [|done]. simpl.
  eapply trap_wf; [| | |exact E]; auto with rv.
Qed.

Lemma access_wf (a mask cause : Z) (c : bool) (k : riscv -> outcome) :
  is_u32 a -> is_u32 cause -> (forall r, riscv_wf r -> outcome_wf (k r)) ->
  outcome_wf (access a mask cause c rv cycle pc k).
Proof.
  intros Ha Hcs Hk. unfold access. case_match; [apply exc_misaligned_wf|apply Hk]; auto with rv.
Qed.

Lemma load_rd_wf (n : nat) (r : riscv) (a : Z) (ext : Z -> Z) :
  riscv_wf r -> (n <= 4)%nat -> (forall v, is_u32 v -> is_u32 (ext v)) ->
  outcome_wf (match checked_load n r.(mem) a with
              | Some v => write_rd r ir cycle pc (ext v)
              | None => Undef
              end).
Proof.
  intros Hr Hn He. destruct (checked_load n _ a) as [v|] eqn:E; [|done].
  apply write_rd_wf; [done|]. apply He. eapply checked_load_u32; [apply Hr|exact Hn|exact E].
Qed.

Lemma store_wf (n : nat) (r : riscv) (a v : Z) (k : riscv -> riscv) :
  riscv_wf r -> (forall r, riscv_wf r -> riscv_wf (k r)) ->
  outcome_wf (match checked_store n r.(mem) a v with
              | Some m => Next (k (set_mem m r)) cycle pc
              | None => Undef
              end).
Proof.
  intros Hr Hk. destruct (checked_store n _ a v) as [m|] eqn:E; [|done].
  apply next_wf, Hk, set_mem_wf; [done|]. eapply checked_store_wf; [apply Hr|exact E].
Qed.

Lemma amo_wf (f : Z -> Z -> Z) : outcome_wf (amo f rv ir cycle pc).
Proof.
  unfold amo. apply access_wf; [auto with rv|done|]. intros r Hr.
  destruct (ram_read_w _ _) as [v1|] eqn:E; [|done].
  apply (store_wf 4 _ _ _ (fun r => r)); [|done]. apply write_nz_wf; [done|].
  eapply (checked_load_u32 4); [apply Hr|lia|exact E].
Qed.

Lemma fload_wf (a : Z) : is_u32 a -> outcome_wf (fload a rv ir cycle pc).
Proof.
  intros Ha. unfold fload. apply access_wf; [done|done|]. intros r Hr.
  destruct (ram_read_w _ _) as [v1|] eqn:E; [|done]. apply next_wf, set_freg_wf; [done|].
  eapply (checked_load_u32 4); [apply Hr|lia|exact E].
Qed.

Lemma fstore_wf (a : Z) : is_u32 a -> outcome_wf (fstore a rv ir cycle pc).
Proof.
  intros Ha. unfold fstore. apply access_wf; [done|done|]. intros r Hr.
  by apply (store_wf 4 _ _ _ (fun r => r)).
Qed.

Lemma cload_wf (a : Z) : is_u32 a -> outcome_wf (cload a rv ir cycle pc).
Proof.
  intros Ha. unfold cload. apply access_wf; [done|done|]. intros r Hr.
  apply (load_rd_wf 4 _ _ (fun v => v)); [done|lia|done].
Qed.

Lemma cstore_wf (a : Z) : is_u32 a -> outcome_wf (cstore a rv ir cycle pc).
Proof.
  intros Ha. unfold cstore. apply access_wf; [done|done|]. intros r Hr.
  by apply (store_wf 4 _ _ _ (fun r => r)).
Qed.

Lemma sext_wf (low sign high : Z) :
  is_u32 low -> is_u32 high -> outcome_wf (sext low sign high rv ir cycle pc).
Proof.
  intros Hl Hh. unfold sext. apply next_wf.
  assert (Hw : riscv_wf (set_xreg (rd ir) (xreg rv (rs1 ir) .& low) rv)).
  { apply set_xreg_wf; [done|]. by apply u32_land_r. }
  case_match; [|done]. apply set_xreg_wf; [done|]. apply u32_lor; auto with rv.
Qed.

Lemma trap_code_wf (cause tval : Z) (c : bool) :
  is_u32 cause -> is_u32 tval ->
  outcome_wf (match SET_CAUSE_AND_TVAL_THEN_TRAP cause tval
                      (set_PC pc (set_csr_cycle cycle (set_compressed c rv))) with
              | Some r => Exit r true
              | None => Undef
              end).
Proof.
  intros Hcs Ht. destruct (SET_CAUSE_AND_TVAL_THEN_TRAP _ _ _) as [r|] eqn:E; [|done]. simpl.
  eapply trap_wf; [| | |exact E]; auto with rv.
Qed.

Lemma ecall_wf (r r2 : riscv) : riscv_wf r -> ecall_handler r = Some r2 -> riscv_wf r2.
Proof.
  intros Hr. unfold ecall_handler.
  destruct (SET_CAUSE_AND_TVAL_THEN_TRAP _ _ _) as [r1|] eqn:E; [|done].
  intros E2. eapply syscall_wf; [|exact E2]. eapply trap_wf; [| | |exact E]; done.
Qed.

Lemma mret_wf : outcome_wf (code_mret rv ir cycle pc).
Proof.
  unfold code_mret. cbn [outcome_wf]. set (ms := Z.lor (Z.lor _ _) _).
  assert (is_u32 ms).
  { apply u32_lor; [|done]. apply u32_lor; [|auto with rv]. apply u32_land_l, Hwf. }
  apply set_PC_wf; [auto with rv|]. unfold set_csr, csr_val, csr_upd. rv_simpl.
  case_decide; [done|]. apply Hwf.
Qed.

Lemma csrli_wf : outcome_wf (code_csrli rv ir cycle pc).
Proof.
  unfold code_csrli. destruct (alu_csrli _ _) as [v|] eqn:E; [|done]. apply next_wf, set_xreg_wf; [done|].
  eapply c_shr_u32; [| |exact E]; [auto with rv|]. apply Hir.
Qed.

Lemma csrai_wf : outcome_wf (code_csrai rv ir cycle pc).
Proof.
  unfold code_csrai. destruct (Z.ltb_spec (shamt ir) 32).
  - rewrite csrai_loop; [|auto with rv|destruct Hir; lia]. apply next_wf. auto with rv.
  - unfold alu_csrai, c_shr. destruct (Z.ltb_spec (shamt ir) 32); [lia|done].
Qed.

Lemma cslli_wf : outcome_wf (code_cslli rv ir cycle pc).
Proof.
  unfold code_cslli. destruct (alu_cslli _ _) as [v|] eqn:E; [|done].
  apply write_rd_wf; [done|]. by eapply c_shl_u32.
Qed.

Lemma prof_call_wf (e : prof_event) (r : riscv) : riscv_wf r -> riscv_wf (prof_call e r).
Proof. intros. unfold prof_call. auto with rv. Qed.

Lemma sign_extend_u32 (v : Z) : is_u32 (sign_extend_b v) /\ is_u32 (sign_extend_h v).
Proof. split; apply u32_range. Qed.

Lemma calc_fclass_u32 (f : Z) : is_u32 (calc_fclass f).
Proof. unfold calc_fclass. repeat case_match; done. Qed.

Lemma rvc_values_u32 (x i : Z) :
  is_u32 x -> is_u32 (alu_caddi4spn x i) /\ is_u32 (alu_caddi x i) /\ is_u32 (alu_candi x i).
Proof. intros. split_and!; [apply u32_range..|by apply u32_land_l]. Qed.

#[local] Hint Resolve calc_fclass_u32 prof_call_wf write_nz_wf write_rd_nz_wf u32_land_l u32_land_r : rv.

(** ** The bodies that are not arithmetic *)

Lemma jump_code_wf : outcome_wf (code_jal rv ir cycle pc) /\ outcome_wf (code_jalr rv ir cycle pc).
Proof.
  split; [apply chain_wf; auto with rv|]. cbn [outcome_wf code_jalr]. split_and!; auto with rv; lia.
Qed.

Lemma load_code_wf :
  outcome_wf (code_lb rv ir cycle pc) /\ outcome_wf (code_lh rv ir cycle pc) /\
  outcome_wf (code_lw rv ir cycle pc) /\ outcome_wf (code_lbu rv ir cycle pc) /\
  outcome_wf (code_lhu rv ir cycle pc) /\ outcome_wf (code_lrw rv ir cycle pc).
Proof.
  split_and!.
  - apply (load_rd_wf 1 _ _ sign_extend_b); [auto with rv|lia|intros; apply sign_extend_u32].
  - apply access_wf; [auto with rv|done|]. intros r Hr.
    apply (load_rd_wf 2 _ _ sign_extend_h); [done|lia|intros; apply sign_extend_u32].
  - apply access_wf; [auto with rv|done|]. intros r Hr.
    apply (load_rd_wf 4 _ _ (fun v => v)); [done|lia|done].
  - apply (load_rd_wf 1 _ _ (fun v => v)); [auto with rv|lia|done].
  - apply access_wf; [auto with rv|done|]. intros r Hr.
    apply (load_rd_wf 2 _ _ (fun v => v)); [done|lia|done].
  - apply access_wf; [auto with rv|done|]. intros r Hr. destruct (truthy _); [|by apply next_wf].
    apply (load_rd_wf 4 _ _ (fun v => v)); [done|lia|done].
Qed.

Lemma store_code_wf :
  outcome_wf (code_sb rv ir cycle pc) /\ outcome_wf (code_sh rv ir cycle pc) /\
  outcome_wf (code_sw rv ir cycle pc) /\ outcome_wf (code_scw rv ir cycle pc).
Proof.
  split_and!.
  - apply (store_wf 1 _ _ _ (fun r => r)); auto with rv.
  - apply access_wf; [auto with rv|done|]. intros r Hr. by apply (store_wf 2 _ _ _ (fun r => r)).
  - apply access_wf; [auto with rv|done|]. intros r Hr. by apply (store_wf 4 _ _ _ (fun r => r)).
  - apply access_wf; [auto with rv|done|]. intros r Hr.
    apply (store_wf 4 _ _ _ (set_xreg ir.(rd) 0)); auto with rv.
Qed.

Lemma csr_code_wf :
  outcome_wf (code_csrrw rv ir cycle pc) /\ outcome_wf (code_csrrs rv ir cycle pc) /\
  outcome_wf (code_csrrc rv ir cycle pc) /\ outcome_wf (code_csrrwi rv ir cycle pc) /\
  outcome_wf (code_csrrsi rv ir cycle pc) /\ outcome_wf (code_csrrci rv ir cycle pc).
Proof.
  assert (Hi : is_u32 (rs1 ir)) by (destruct Hir; unfold is_u32; lia).
  assert (Hv : is_u32 (if rs1 ir =? rv_reg_zero then 0 else xreg rv (rs1 ir)))
    by (case_match; auto with rv).
  unfold code_csrrw, code_csrrs, code_csrrc, code_csrrwi, code_csrrsi, code_csrrci,
    csr_csrrw, csr_csrrs, csr_csrrc.
  split_and!; apply (csr_op_wf _ ir); auto with rv.
Qed.

Lemma ecall_code_wf : outcome_wf (code_ecall rv ir cycle pc).
Proof.
  unfold code_ecall. destruct (ecall_handler _) as [r|] eqn:E; [|done]. simpl.
  eapply ecall_wf; [|exact E]. auto with rv.
Qed.

Ltac code_wf :=
  lazymatch goal with
  | |- outcome_wf (BRANCH_FUNC _ _ _ _ _) => apply BRANCH_FUNC_wf
  | |- outcome_wf (cbranch _ _ _ _ _) => apply cbranch_wf
  | |- outcome_wf (amo _ _ _ _ _) => apply amo_wf
  | |- outcome_wf (fload _ _ _ _ _) => apply fload_wf; auto with rv
  | |- outcome_wf (fstore _ _ _ _ _) => apply fstore_wf; auto with rv
  | |- outcome_wf (cload _ _ _ _ _) => apply cload_wf; auto with rv
  | |- outcome_wf (cstore _ _ _ _ _) => apply cstore_wf; auto with rv
  | |- outcome_wf (sext _ _ _ _ _ _ _) => by apply sext_wf
  | |- outcome_wf (fp_op _ _ _ _ _ _) => apply fp_op_wf; auto using to_freg_wf, to_xreg_wf
  | |- outcome_wf (fp_cmp _ _ _ _ _) => apply fp_cmp_wf
  | |- outcome_wf (minmax _ _ _ _ _) => apply minmax_wf; intros; by eapply ordered_wf
  | |- outcome_wf (chain _ _ _ _) => apply chain_wf; auto with rv
  | |- outcome_wf (end_op _ _ _) => apply end_op_wf; auto with rv
  | |- outcome_wf (write_rd _ _ _ _ _) => apply write_rd_wf; auto with rv
  | |- outcome_wf (Next _ _ _) => apply next_wf; auto with rv
  | |- outcome_wf (Exit _ _) => cbn [outcome_wf]; auto with rv
  | |- outcome_wf (Lookup _ _ _) => cbn [outcome_wf]; split_and!; auto with rv; lia
  end.

Ltac body_wf :=
  lazymatch goal with
  | |- outcome_wf (code_jal _ _ _ _) => apply jump_code_wf
  | |- outcome_wf (code_jalr _ _ _ _) => apply jump_code_wf
  | |- outcome_wf (code_ebreak _ _ _ _) => by apply (trap_code_wf BREAKPOINT pc)
  | |- outcome_wf (code_cebreak _ _ _ _) => by apply (trap_code_wf BREAKPOINT pc)
  | |- outcome_wf (code_ecall _ _ _ _) => apply ecall_code_wf
  | |- outcome_wf (code_mret _ _ _ _) => apply mret_wf
  | |- outcome_wf (code_csrli _ _ _ _) => apply csrli_wf
  | |- outcome_wf (code_csrai _ _ _ _) => apply csrai_wf
  | |- outcome_wf (code_cslli _ _ _ _) => apply cslli_wf
  | |- outcome_wf (code_candi _ _ _ _) => apply next_wf, set_xreg_wf; [done|]; apply rvc_values_u32; auto with rv
  | |- outcome_wf (code_caddi _ _ _ _) => apply write_rd_wf; [done|]; apply rvc_values_u32; auto with rv
  | |- outcome_wf (code_caddi4spn _ _ _ _) => apply write_rd_wf; [done|]; apply rvc_values_u32; auto with rv
  | |- outcome_wf (?h _ _ _ _) =>
      first [ apply load_code_wf | apply store_code_wf | apply csr_code_wf
            | lazymatch h with ?f _ => unfold f | _ => unfold h end; code_wf ]
  end.

Lemma code_of_wf : outcome_wf (code_of ir.(opcode) rv ir cycle pc).
Proof.
  destruct (alu_rr ir.(opcode)) as [g|] eqn:Hrr; [by apply (rr_code_wf g)|].
  destruct (alu_ri ir.(opcode)) as [g|] eqn:Hri; [by apply (ri_code_wf g)|].
  revert Hrr Hri. destruct (opcode ir) eqn:Ho; cbn [alu_rr alu_ri]; intros Hrr Hri;
    first [discriminate Hrr | discriminate Hri | clear Hrr Hri]; cbn [code_of];
    try exact I.
  all: body_wf.
Qed.

(** ** Fused handlers *)

Lemma fold_wf {A} (f : riscv -> A -> riscv) (l : list A) (r : riscv) :
  (forall r a, riscv_wf r -> riscv_wf (f r a)) -> riscv_wf r -> riscv_wf (fold_left f l r).
Proof. intros Hf. revert r. induction l; simpl; auto. Qed.

Lemma fuse_stores_wf (l : list opcode_fuse_t) (r : riscv) (k : riscv -> outcome) :
  riscv_wf r -> (forall r, riscv_wf r -> outcome_wf (k r)) ->
  outcome_wf (fuse_stores l r cycle pc k).
Proof.
  intros Hr Hk. revert r Hr. induction l as [|f l IH]; intros r Hr; cbn [fuse_stores]; [auto|].
  destruct (misaligned _ _ _); [apply exc_misaligned_wf; auto with rv; done|].
  destruct (ram_write_w _ _ _) as [m|] eqn:E; [|done]. apply IH, set_mem_wf; [done|].
  eapply (checked_store_wf 4); [apply Hr|exact E].
Qed.

Lemma fuse_loads_wf (l : list opcode_fuse_t) (r : riscv) (k : riscv -> outcome) :
  riscv_wf r -> (forall r, riscv_wf r -> outcome_wf (k r)) ->
  outcome_wf (fuse_loads l r cycle pc k).
Proof.
  intros Hr Hk. revert r Hr. induction l as [|f l IH]; intros r Hr; cbn [fuse_loads]; [auto|].
  destruct (misaligned _ _ _); [apply exc_misaligned_wf; auto with rv; done|].
  destruct (ram_read_w _ _) as [v|] eqn:E; [|done]. apply IH, set_xreg_wf; [done|].
  eapply (checked_load_u32 4); [apply Hr|lia|exact E].
Qed.

Lemma fuse_shift_wf (l : list opcode_fuse_t) (r r2 : riscv) :
  riscv_wf r ->
  fold_left (fun acc f => let? rv := acc in fuse_shift_exec rv f) l (Some r) = Some r2 ->
  riscv_wf r2.
Proof.
  intros Hr. apply (fold_option_ind riscv_wf); [|by intros ? [= <-]].
  intros x f y Hx. unfold fuse_shift_exec.
  repeat case_match; intros E; simplify_eq; auto with rv.
Qed.
End Handlers.

#[export] Hint Resolve fold_wf u64_range : rv.

Section Exec.
Context `{HostClock} `{Syscall} `{SoftFloat} `{!SyscallWf}.

Lemma fuse_next_wf (rv : riscv) (ir : rv_insn_t) (cycle pc : Z) :
  riscv_wf rv -> 0 <= cycle < 2 ^ 64 -> is_u32 pc -> outcome_wf (fuse_next_or_stop rv ir cycle pc).
Proof. by intros. Qed.

(** Setting [rd] to the upper immediate and accessing memory at a constant. *)
Lemma fuse_access_wf (rv : riscv) (cycle pc a cause : Z) (k : riscv -> outcome) :
  riscv_wf rv -> 0 <= cycle < 2 ^ 64 -> is_u32 pc -> is_u32 a -> is_u32 cause ->
  outcome_wf (k rv) ->
  outcome_wf (if misaligned rv a 3 then exc_misaligned cause false a rv cycle pc else k rv).
Proof. intros. case_match; [|done]. by apply exc_misaligned_wf. Qed.

Lemma load_reg_wf (rv : riscv) (a : Z) (f : Z -> riscv) (cycle pc : Z) :
  riscv_wf rv -> 0 <= cycle < 2 ^ 64 -> is_u32 pc -> (forall v, is_u32 v -> riscv_wf (f v)) ->
  outcome_wf (match ram_read_w rv.(mem) a with Some v => Next (f v) cycle pc | None => Undef end).
Proof.
  intros Hr Hc Hpc Hf. destruct (ram_read_w _ a) as [v|] eqn:E; [|done].
  split; [|done]. apply Hf. eapply (checked_load_u32 4); [apply Hr|lia|exact E].
Qed.

Ltac fuse_next := apply fuse_next_wf; [auto 8 with rv|apply u64_range|apply u32_range].

Lemma batch_wf (rv : riscv) (ir : rv_insn_t) (cycle pc : Z) :
  riscv_wf rv -> is_u32 pc ->
  outcome_wf (do_fuse1 rv ir cycle pc) /\ outcome_wf (do_fuse3 rv ir cycle pc) /\
  outcome_wf (do_fuse4 rv ir cycle pc) /\ outcome_wf (do_fuse5 rv ir cycle pc) /\
  outcome_wf (do_fuse7 rv ir cycle pc).
Proof.
  intros Hr Hpc. assert (Hct : riscv_wf (count_insn ir.(opcode) rv)) by auto with rv.
  unfold do_fuse1, do_fuse3, do_fuse4, do_fuse5, do_fuse7. destruct (fused ir) as [l|]; [|done].
  split_and!.
  - fuse_next.
  - apply fuse_stores_wf; [apply u64_range|done|done|]. intros. fuse_next.
  - apply fuse_loads_wf; [apply u64_range|done|done|]. intros. fuse_next.
  - destruct (fold_left _ l _) as [r|] eqn:E; [|done].
    pose proof (fuse_shift_wf l _ r Hct E). fuse_next.
  - fuse_next.
Qed.

Lemma pair_wf (rv : riscv) (ir : rv_insn_t) (cycle pc : Z) :
  riscv_wf rv -> is_u32 pc ->
  outcome_wf (do_fuse2 rv ir cycle pc) /\ outcome_wf (do_fuse8 rv ir cycle pc) /\
  outcome_wf (do_fuse9 rv ir cycle pc) /\ outcome_wf (do_fuse10 rv ir cycle pc) /\
  outcome_wf (do_fuse11 rv ir cycle pc) /\ outcome_wf (do_fuse12 rv ir cycle pc).
Proof.
  intros Hr Hpc. unfold do_fuse2, do_fuse8, do_fuse9, do_fuse10, do_fuse11, do_fuse12.
  split_and!.
  - fuse_next.
  - fuse_next.
  - apply (fuse_access_wf _ _ _ _ _ (fun r => match ram_read_w r.(mem) _ with Some v =>
      Next (set_xreg ir.(rs2) v r) _ _ | None => Undef end));
      [auto with rv|apply u64_range|done|auto with rv|done|].
    apply load_reg_wf; auto with rv; apply u64_range.
  - apply (fuse_access_wf _ _ _ _ _ (fun r => match ram_write_w r.(mem) _ (xreg r ir.(rs1)) with
      Some m => Next (set_mem m r) _ _ | None => Undef end)); [auto with rv|apply u64_range|done|auto with rv|done|].
    apply (store_wf _ _ (u64_range _) (u32_range _) 4 _ _ _ (fun r => r)); auto with rv.
  - apply (fuse_access_wf _ _ _ _ _ (fun r => match ram_read_w r.(mem) _ with Some v =>
      Next (set_xreg ir.(rs1) (add32 (xreg (set_xreg ir.(rd) v r) ir.(rs1)) ir.(imm2))
             (set_xreg ir.(rd) v r)) _ _ | None => Undef end));
      [auto with rv|apply u64_range|done|auto with rv|done|].
    apply load_reg_wf; auto with rv; apply u64_range.
  - case_match; apply chain_wf; auto with rv; apply u64_range.
Qed.

Lemma do_fuse6_wf (rv : riscv) (ir : rv_insn_t) (cycle pc : Z) :
  riscv_wf rv -> outcome_wf (do_fuse6 rv ir cycle pc).
Proof.
  intros Hr. unfold do_fuse6. destruct (ecall_handler _) as [r|] eqn:E; [|done]. simpl.
  eapply ecall_wf; [|exact E]. auto 8 with rv.
Qed.

Lemma rvop_wf (o : opcode_t) (code : handler) (rv : riscv) (ir : rv_insn_t) (cycle pc : Z) :
  (forall rv c, riscv_wf rv -> 0 <= c < 2 ^ 64 -> outcome_wf (code rv ir c pc)) ->
  riscv_wf rv -> outcome_wf (rvop o code rv ir cycle pc).
Proof.
  intros Hcode Hr. unfold rvop.
  assert (Ho : outcome_wf (code (count_insn ir.(opcode) (rv_trace_record cycle pc RV_TRACE_INSN 0 rv))
                     ir (u64 (cycle + 1)) pc)) by (apply Hcode; [auto with rv|apply u64_range]).
  destruct (code _ _ _ _); try done. destruct Ho as (? & ? & _).
  split; [done|]. split; [done|apply u32_range].
Qed.

(** C9. No handler, plain or fused, ever leaves a malformed state: from 32
    registers of 32 bits, bytes in memory and counters in range, every outcome
    (falling through, returning to the run loop, jumping, trapping) is again
    such a state, with a 32-bit program counter and a 64-bit cycle count.  The
    system-call layer is assumed to return a well-formed state. *)
Theorem exec_ir_wf (rv : riscv) (ir : rv_insn_t) (cycle pc : Z) :
  riscv_wf rv -> regs_ok ir -> ir.(impl) = ir.(opcode) -> 0 <= cycle < 2 ^ 64 -> is_u32 pc ->
  outcome_wf (exec_ir rv ir cycle pc).
Proof.
  intros Hr Hir Hi Hc Hpc. unfold exec_ir. rewrite Hi.
  assert (Hop : outcome_wf (rvop ir.(opcode) (code_of ir.(opcode)) rv ir cycle pc)).
  { apply rvop_wf; [|done]. intros. by apply code_of_wf. }
  destruct (opcode ir); try exact Hop; first [by apply batch_wf | by apply pair_wf | by apply do_fuse6_wf].
Qed.
End Exec.

Lemma no_syscall_wf : @SyscallWf no_syscall.
Proof. constructor. simpl. by intros rv rv' Hr [= <-]. Qed.

(** A misaligned [lw a0, 2(a1)] enters the trap handler. *)
Lemma exec_ir_wf_witness :
  let ir := mk_rv_insn 2 10 11 0 rv_insn_lw 0 0 0 None 0 rv_insn_lw None None None in
  outcome_wf (@exec_ir stopped_clock no_syscall nan_unit (hart_at 11 0x100) ir 0 0x40).
Proof.
  apply (@exec_ir_wf stopped_clock no_syscall nan_unit no_syscall_wf);
    [by apply hart_at_wf| |done|done|done].
  repeat split; by vm_compute.
Defined.
