(* ===== verification/TrapSpec.v ===== *)
(** Traps: the default handler makes misaligned accesses transparent, and trap
    entry and MRET save and restore the interrupted context. *)

From stdpp Require Import base list option numbers gmap.
From Stdlib Require Import ZArith Lia Bool.
From S2P Require Import Prelude Bits Insn Decode DecodeSpec DecodeWf Mem MemSpec State Trap Csr Fp.
From S2P Require Import Alu AluSpec Exec Samples Isa IsaValues IsaRefine DecodeExec.
#[local] Open Scope Z_scope.

(** * Byte-wise accesses *)

Section Bytes.
Context (m : memory_t) (a : Z) (Hm : mem_wf m) (Ha : 0 <= a).

Lemma addr_no_wrap (n i : Z) :
  GUEST_RAM_CONTAINS m a n = true -> 0 <= i < n -> add32 a i = a + i.
Proof.
  intros Hc Hi. apply contains_spec in Hc; [|lia]. unfold add32, u32. apply Z.mod_small.
  pose proof (mwf_size _ Hm). lia.
Qed.

Lemma contains_sub (n i k : Z) :
  GUEST_RAM_CONTAINS m a n = true -> 0 <= i -> 0 < k -> i + k <= n ->
  GUEST_RAM_CONTAINS m (a + i) k = true.
Proof. intros Hc ? ? ?. apply contains_spec in Hc; [|lia]. apply contains_spec; lia. Qed.

Lemma checked_sub (n i : Z) (k : nat) :
  GUEST_RAM_CONTAINS m a n = true -> 0 <= i -> (0 < k)%nat -> i + Z.of_nat k <= n ->
  checked_load k m (a + i) = Some (load_le k m (a + i)) /\
  forall v, checked_store k m (a + i) v = Some (store_le k m (a + i) v).
Proof.
  intros. unfold checked_load, checked_store. by rewrite (contains_sub n) by (done || lia).
Qed.
End Bytes.

(** Appending one byte to a little-endian load. *)
Lemma load_le_snoc (n : nat) (m : memory_t) (a : Z) :
  load_le (S n) m a = load_le n m a .| (mem_byte m (a + Z.of_nat n) ≪ (8 * Z.of_nat n)).
Proof.
  replace (S n) with (n + 1)%nat by lia. rewrite load_le_split. do 2 f_equal.
  simpl. by rewrite Z.shiftl_0_l, Z.lor_0_r.
Qed.

Lemma seqZ_one (k : Z) : seqZ k 1 = [k].
Proof. rewrite seqZ_cons, seqZ_nil by lia. done. Qed.

Lemma load_byte (m : memory_t) (a : Z) : load_le 1 m a = mem_byte m a.
Proof. simpl. by rewrite Z.shiftl_0_l, Z.lor_0_r. Qed.

(** The byte loop of [emulate_misaligned_load]. *)
Lemma read_bytes_correct (rv : riscv) (a : Z) (n k : nat) :
  mem_wf rv.(mem) -> 0 <= a -> (k <= n)%nat -> (n <= 4)%nat ->
  GUEST_RAM_CONTAINS rv.(mem) a (Z.of_nat n) = true ->
  read_bytes rv a k = Some (load_le k rv.(mem) a).
Proof.
  intros Hm Ha Hk Hn Hc. unfold read_bytes. induction k as [|k IH]; [done|].
  replace (Z.of_nat (S k)) with (Z.of_nat k + 1) by lia.
  rewrite seqZ_app, fold_left_app by lia. rewrite IH by lia. clear IH.
  rewrite Z.add_0_l, seqZ_one. cbn [fold_left]. unfold memory_read_b.
  rewrite (addr_no_wrap _ _ Hm Ha (Z.of_nat n)) by (done || lia).
  destruct (checked_sub rv.(mem) a (Z.of_nat n) (Z.of_nat k) 1) as [-> _]; [done|lia..|].
  rewrite load_byte, load_le_snoc. do 2 f_equal. unfold shl32, u32.
  rewrite (Z.mul_comm 8). apply Z.mod_small.
  pose proof (mem_byte_range rv.(mem) (a + Z.of_nat k) Hm) as Hb.
  rewrite Z.shiftl_mul_pow2 by lia. split; [apply Z.mul_nonneg_nonneg; lia|].
  apply Z.lt_le_trans with (2 ^ 8 * 2 ^ (Z.of_nat k * 8)).
  - apply Z.mul_lt_mono_pos_r; lia.
  - rewrite <- Z.pow_add_r by lia. apply Z.pow_le_mono_r; lia.
Qed.

Lemma store_le_snoc (n : nat) (m : memory_t) (a v : Z) :
  store_le (S n) m a v = store_le 1 (store_le n m a v) (a + Z.of_nat n) (v ≫ (8 * Z.of_nat n)).
Proof. replace (S n) with (n + 1)%nat by lia. apply store_le_split. Qed.

(** The byte loop of [emulate_misaligned_store]. *)
Lemma write_bytes_correct (m : memory_t) (a v : Z) (n k : nat) :
  mem_wf m -> 0 <= a -> (k <= n)%nat -> GUEST_RAM_CONTAINS m a (Z.of_nat n) = true ->
  write_bytes m a v k = Some (store_le k m a v).
Proof.
  intros Hm Ha Hk Hc. unfold write_bytes. induction k as [|k IH]; [done|].
  replace (Z.of_nat (S k)) with (Z.of_nat k + 1) by lia.
  rewrite seqZ_app, fold_left_app by lia. rewrite IH by lia. clear IH.
  rewrite Z.add_0_l, seqZ_one. cbn [fold_left]. unfold memory_write_b.
  rewrite (addr_no_wrap _ _ Hm Ha (Z.of_nat n)) by (done || lia).
  unfold checked_store. rewrite contains_store, (contains_sub _ _ (Z.of_nat n)) by (done || lia).
  apply (f_equal Some). rewrite (store_le_snoc k), (Z.mul_comm 8).
    rewrite <- (store_le_mod 1 _ _ (v ≫ _)). f_equal.
  change 0xff with (Z.ones 8). by rewrite Z.land_ones.
Qed.

(** * Emulated accesses *)

Section Emulate.
Context (rv : riscv) (a : Z) (Hm : mem_wf rv.(mem)) (Ha : 0 <= a).

(** Both ways of reading a word: two halves on an even address, bytes on an
    odd one. *)
Lemma emulate_word_load :
  GUEST_RAM_CONTAINS rv.(mem) a 4 = true ->
  (if a .& 1 =? 0 then
     let? lo := memory_read_s rv.(mem) a in
     let? hi := memory_read_s rv.(mem) (add32 a 2) in
     Some (lo .| shl32 hi 16)
   else read_bytes rv a 4) = Some (load_le 4 rv.(mem) a).
Proof.
  intros Hc. destruct (_ =? 0); [|by apply (read_bytes_correct _ _ 4); [..|lia| |]].
  unfold memory_read_s. rewrite (addr_no_wrap _ _ Hm Ha 4) by (done || lia).
  destruct (checked_sub rv.(mem) a 4 0 2) as [H1 _]; [done|lia..|]. rewrite Z.add_0_r in H1.
  destruct (checked_sub rv.(mem) a 4 2 2) as [H2 _]; [done|lia..|]. rewrite H1, H2.
  rewrite (load_le_split 2 2). do 2 f_equal. unfold shl32, u32. apply Z.mod_small.
  pose proof (load_le_range 2 rv.(mem) (a + 2) Hm) as Hr. change (8 * Z.of_nat 2) with 16 in *.
  change (Z.of_nat 2) with 2. rewrite Z.shiftl_mul_pow2 by lia. lia.
Qed.

Lemma emulate_word_store (v : Z) :
  GUEST_RAM_CONTAINS rv.(mem) a 4 = true ->
  (if a .& 1 =? 0 then
     let? m := memory_write_s rv.(mem) a (v .& 0xffff) in
     memory_write_s m (add32 a 2) ((v ≫ 16) .& 0xffff)
   else write_bytes rv.(mem) a v 4) = Some (store_le 4 rv.(mem) a v).
Proof.
  intros Hc. destruct (_ =? 0); [|by apply (write_bytes_correct _ _ _ 4); [..|lia|]].
  unfold memory_write_s. rewrite (addr_no_wrap _ _ Hm Ha 4) by (done || lia).
  destruct (checked_sub rv.(mem) a 4 0 2) as [_ H1]; [done|lia..|]. rewrite Z.add_0_r in H1.
  rewrite H1. unfold checked_store. rewrite contains_store, (contains_sub _ _ 4) by (done || lia).
  apply (f_equal Some). rewrite (store_le_split 2 2). change 0xffff with (Z.ones 16).
  rewrite !Z.land_ones by lia. rewrite (store_le_mod 2 _ a v).
  by rewrite (store_le_mod 2 _ _ (v ≫ 16)).
Qed.
End Emulate.

(** * The trap path of a misaligned access *)

Lemma csr_val_set (r r' : csr_reg) (v : Z) (rv : riscv) :
  csr_val (set_csr r v rv) r' = if decide (r = r') then v else csr_val rv r'.
Proof. done. Qed.

(** The status word and state saved on entry to machine mode. *)
Definition entry_mstatus (rv : riscv) : Z :=
  let mstatus := csr_val rv csr_mstatus in
  ((mstatus .| shl32 ((mstatus .& MSTATUS_MIE) ≫ MSTATUS_MIE_SHIFT) MSTATUS_MPIE_SHIFT)
   .& not32 MSTATUS_MIE) .| shl32 rv.(priv_mode) MSTATUS_MPP_SHIFT.

Definition m_entry (rv : riscv) : riscv :=
  set_csr csr_mepc rv.(PC)
    (set_priv_mode RV_PRIV_M_MODE (set_csr csr_mstatus (entry_mstatus rv) rv)).

Lemma trap_handler_m (rv : riscv) :
  rv.(priv_mode) = RV_PRIV_M_MODE ->
  trap_handler rv =
    let base := csr_val rv csr_mtvec .& not32 3 in
    let mode := csr_val rv csr_mtvec .& 3 in
    if csr_val rv csr_mtvec =? 0 then rv_trap_default_handler (m_entry rv)
    else Some (match mode with
               | 0 => set_PC base (m_entry rv)
               | 1 => set_PC (add32 base (4 * (csr_val rv csr_mcause .& 0x7fffffff))) (m_entry rv)
               | _ => m_entry rv
               end).
Proof.
  intros Hp. unfold trap_handler, _trap_handler, RV_PRIV_IS_U_OR_S_MODE. rewrite Hp.
  unfold m_entry, entry_mstatus. rewrite Hp. reflexivity.
Qed.

Lemma set_cause_m (cause tval : Z) (rv : riscv) :
  rv.(priv_mode) = RV_PRIV_M_MODE ->
  SET_CAUSE_AND_TVAL_THEN_TRAP cause tval rv
  = trap_handler (set_csr csr_mtval tval (set_csr csr_mcause cause rv)).
Proof.
  intros Hp. unfold SET_CAUSE_AND_TVAL_THEN_TRAP, RV_PRIV_IS_U_OR_S_MODE. by rewrite Hp.
Qed.

(** In machine mode without a trap vector, the trap decodes the faulting
    instruction again and emulates the access. *)
Lemma misaligned_trap (rv : riscv) (cause a cycle pc insn : Z) (c : bool) (ir : rv_insn_t) :
  rv.(priv_mode) = RV_PRIV_M_MODE -> csr_val rv csr_mtvec = 0 ->
  cause = LOAD_MISALIGNED \/ cause = STORE_MISALIGNED ->
  memory_ifetch rv.(mem) pc = Some insn -> insn <> 0 -> decode insn = Some (true, ir) ->
  exists rv2,
    rv2.(X) = rv.(X) /\ rv2.(mem) = rv.(mem) /\ csr_val rv2 csr_mepc = pc /\
    rv2.(compressed) = c /\
    exc_misaligned cause c a rv cycle pc =
      match (if cause =? LOAD_MISALIGNED then emulate_misaligned_load rv2 ir a
             else emulate_misaligned_store rv2 ir a) with
      | Some (_, rv3) => Exit (skip_insn rv3) false
      | None => Undef
      end.
Proof.
  intros Hp Hv Hc Hf Hi Hd.
  set (rv1 := set_PC pc (set_csr_cycle cycle (set_compressed c rv))).
  exists (m_entry (set_csr csr_mtval a (set_csr csr_mcause cause rv1))).
  split_and!; [done..|]. unfold exc_misaligned. rewrite set_cause_m by done.
  rewrite trap_handler_m by done.
  assert (Hv' : csr_val (set_csr csr_mtval a (set_csr csr_mcause cause rv1)) csr_mtvec = 0) by done.
  fold rv1. rewrite Hv'. cbv zeta. change (0 =? 0) with true. cbv iota.
  set (rv2 := m_entry _). unfold rv_trap_default_handler.
  change (csr_val rv2 csr_mcause) with cause. change (csr_val rv2 csr_mepc) with pc.
  change (csr_val rv2 csr_mtval) with a. change (mem rv2) with (mem rv). rewrite Hf.
  rewrite (proj2 (Z.eqb_neq insn 0) Hi), Hd. cbn [negb].
  destruct Hc as [-> | ->]; cbn [Z.eqb LOAD_MISALIGNED STORE_MISALIGNED Pos.eqb orb].
  - by destruct (emulate_misaligned_load rv2 ir a) as [[]|].
  - by destruct (emulate_misaligned_store rv2 ir a) as [[]|].
Qed.

Section Transparent.
Context `{HostClock} `{Syscall} `{SoftFloat}.
Context (rv : riscv) (ir : rv_insn_t) (pc insn a : Z).
Context (Hwf : riscv_wf rv) (Hir : regs_ok ir).
Context (Hp : rv.(priv_mode) = RV_PRIV_M_MODE) (Hv : csr_val rv csr_mtvec = 0).
Context (Hf : memory_ifetch rv.(mem) pc = Some insn) (Hd : decode insn = Some (true, ir)).
Context (Hmis : rv.(allow_misalign) = false).

Lemma fetched_nonzero : insn <> 0.
Proof. intros ->. discriminate Hd. Qed.

Lemma arch_of_ext (r1 r2 : riscv) (p : Z) :
  r1.(X) = r2.(X) -> r1.(mem) = r2.(mem) -> arch_of r1 p = arch_of r2 p.
Proof. intros HX Hm. unfold arch_of, xreg. by rewrite HX, Hm. Qed.

Lemma similar_refl : similar rv rv.
Proof. done. Qed.

(** A load whose emulation succeeds with the value of the ISA. *)
Lemma transparent_load (rv1 : riscv) (cycle mask len v : Z) (c : bool) (k : riscv -> outcome) :
  similar rv1 rv -> len = (if c then 2 else 4) -> (a .& mask =? 0) = false ->
  negb (ir.(rd) =? 0) = true ->
  (forall r, r.(mem) = rv.(mem) -> emulate_misaligned_load r ir a = Some (true, set_xreg ir.(rd) v r)) ->
  reaches (finish len (access a mask LOAD_MISALIGNED c rv1 cycle pc k))
    (a_goto ((pc + len) mod 2 ^ 32) (a_write ir.(rd) v (arch_of rv pc))).
Proof.
  intros Hs Hlen Hmask Hnz%negb_true_iff%Z.eqb_neq He. unfold access, misaligned.
  pose proof (similar_trace rv1 rv cycle pc RV_TRACE_MEM a Hs) as (HX & Hm & Hal & Hcs & Hpr).
  set (rt := rv_trace_record _ _ _ _ _) in *. rewrite Hal, Hmis. unfold truthy. rewrite Hmask.
  cbn [negb andb].
  destruct (misaligned_trap rt LOAD_MISALIGNED a cycle pc insn c ir) as (rv2 & HX2 & Hm2 & Hepc & Hc2 & ->);
    [by rewrite Hpr|unfold csr_val; by rewrite Hcs|by left|by rewrite Hm|apply fetched_nonzero|done|].
  rewrite Z.eqb_refl, (He rv2) by congruence.
  eexists _, _. split; [reflexivity|].
  assert (HPC : PC (skip_insn (set_xreg (rd ir) v rv2)) = (pc + len) mod 2 ^ 32).
  { unfold skip_insn. rv_simpl. unfold set_xreg, csr_val in *. rv_simpl. by rewrite Hepc, Hc2, Hlen. }
  rewrite HPC, (arch_of_ext _ (set_xreg (rd ir) v rv)).
  - apply write_arch; [done|done|]. destruct Hir. lia.
  - unfold skip_insn, set_xreg. rv_simpl. by rewrite HX2, HX.
  - change (mem rv2 = mem rv). congruence.
Qed.

Lemma transparent_store (rv1 : riscv) (cycle mask len v w : Z) (n : nat) (c : bool)
    (k : riscv -> outcome) :
  similar rv1 rv -> len = (if c then 2 else 4) -> (a .& mask =? 0) = false ->
  w mod 2 ^ (8 * Z.of_nat n) = v mod 2 ^ (8 * Z.of_nat n) ->
  (forall r, r.(mem) = rv.(mem) -> r.(X) = rv.(X) ->
     emulate_misaligned_store r ir a = Some (true, set_mem (store_le n rv.(mem) a w) r)) ->
  reaches (finish len (access a mask STORE_MISALIGNED c rv1 cycle pc k))
    (a_goto ((pc + len) mod 2 ^ 32) (a_store (Z.of_nat n) a v (arch_of rv pc))).
Proof.
  intros Hs Hlen Hmask Hw He. unfold access, misaligned.
  pose proof (similar_trace rv1 rv cycle pc RV_TRACE_MEM a Hs) as (HX & Hm & Hal & Hcs & Hpr).
  set (rt := rv_trace_record _ _ _ _ _) in *. rewrite Hal, Hmis. unfold truthy. rewrite Hmask.
  cbn [negb andb].
  destruct (misaligned_trap rt STORE_MISALIGNED a cycle pc insn c ir) as (rv2 & HX2 & Hm2 & Hepc & Hc2 & ->);
    [by rewrite Hpr|unfold csr_val; by rewrite Hcs|by right|by rewrite Hm|apply fetched_nonzero|done|].
  change (STORE_MISALIGNED =? LOAD_MISALIGNED) with false. cbv iota.
  rewrite (He rv2) by congruence. eexists _, _. split; [reflexivity|].
  set (m := store_le n (mem rv) a w).
  assert (HPC : PC (skip_insn (set_mem m rv2)) = (pc + len) mod 2 ^ 32).
  { unfold skip_insn. rv_simpl. unfold csr_val in *. rv_simpl. by rewrite Hepc, Hc2, Hlen. }
  rewrite HPC, (arch_of_ext _ (set_mem m rv)).
  - by apply store_arch.
  - change (X rv2 = X rv). congruence.
  - done.
Qed.
End Transparent.

(** The number of bytes an instruction accesses. *)
Definition access_width (ir : rv_insn_t) : option Z :=
  match isa_load (expand ir).(opcode), isa_store (expand ir).(opcode) with
  | Some (n, _), _ => Some (Z.of_nat n)
  | None, Some n => Some n
  | None, None => None
  end.

Definition access_addr (rv : riscv) (ir : rv_insn_t) : Z :=
  (xreg rv (expand ir).(rs1) + (expand ir).(imm)) mod 2 ^ 32.

Lemma mask_nonzero (a n mask : Z) :
  n = 2 /\ mask = 1 \/ n = 4 /\ mask = 3 -> a mod n <> 0 -> (a .& mask =? 0) = false.
Proof.
  intros Hn Ha. apply Z.eqb_neq. destruct Hn as [[-> ->]|[-> ->]].
  - change 1 with (Z.ones 1). by rewrite Z.land_ones.
  - change 3 with (Z.ones 2). by rewrite Z.land_ones.
Qed.

Section Emulations.
Context (rv r : riscv) (ir : rv_insn_t) (a : Z).
Context (Hwf : riscv_wf rv) (Ha : 0 <= a) (Hm : r.(mem) = rv.(mem)).

Lemma emulate_load_word :
  ir.(opcode) = rv_insn_lw \/ ir.(opcode) = rv_insn_clw \/ ir.(opcode) = rv_insn_clwsp ->
  GUEST_RAM_CONTAINS rv.(mem) a 4 = true ->
  emulate_misaligned_load r ir a = Some (true, set_xreg ir.(rd) (load_le 4 rv.(mem) a) r).
Proof.
  intros Ho Hc. unfold emulate_misaligned_load.
  destruct Ho as [-> |[-> | ->]]; rewrite emulate_word_load by (rewrite ?Hm; done || apply Hwf);
    by rewrite Hm.
Qed.

Lemma emulate_load_half (f : Z -> Z) :
  ir.(opcode) = rv_insn_lh /\ f = sign_extend_h \/ ir.(opcode) = rv_insn_lhu /\ f = (fun v => v) ->
  GUEST_RAM_CONTAINS rv.(mem) a 2 = true ->
  emulate_misaligned_load r ir a = Some (true, set_xreg ir.(rd) (f (load_le 2 rv.(mem) a)) r).
Proof.
  intros Ho Hc. unfold emulate_misaligned_load.
  destruct Ho as [[-> ->]|[-> ->]];
    rewrite (read_bytes_correct r a 2 2) by (rewrite ?Hm; done || lia || apply Hwf);
    by rewrite Hm.
Qed.

Lemma emulate_store_word :
  ir.(opcode) = rv_insn_sw \/ ir.(opcode) = rv_insn_csw \/ ir.(opcode) = rv_insn_cswsp ->
  r.(X) = rv.(X) -> GUEST_RAM_CONTAINS rv.(mem) a 4 = true ->
  emulate_misaligned_store r ir a
  = Some (true, set_mem (store_le 4 rv.(mem) a (xreg rv ir.(rs2))) r).
Proof.
  intros Ho HX Hc. unfold emulate_misaligned_store.
  replace (xreg r (rs2 ir)) with (xreg rv (rs2 ir)) by (unfold xreg; by rewrite HX).
  destruct Ho as [-> |[-> | ->]]; rewrite emulate_word_store by (rewrite ?Hm; done || apply Hwf);
    by rewrite Hm.
Qed.

Lemma emulate_store_half :
  ir.(opcode) = rv_insn_sh -> r.(X) = rv.(X) -> GUEST_RAM_CONTAINS rv.(mem) a 2 = true ->
  emulate_misaligned_store r ir a
  = Some (true, set_mem (store_le 2 rv.(mem) a (xreg rv ir.(rs2))) r).
Proof.
  intros Ho HX Hc. unfold emulate_misaligned_store. rewrite Ho.
  replace (xreg r (rs2 ir)) with (xreg rv (rs2 ir)) by (unfold xreg; by rewrite HX).
  rewrite (write_bytes_correct _ a _ 2 2) by (rewrite ?Hm; done || lia || apply Hwf). by rewrite Hm.
Qed.
End Emulations.

Section MisalignedCode.
Context `{HostClock} `{Syscall} `{SoftFloat}.
Context (rv rv1 : riscv) (ir : rv_insn_t) (cycle pc insn : Z).
Context (Hwf : riscv_wf rv) (Hir : regs_ok ir) (Hsim : similar rv1 rv).
Context (Hp : rv.(priv_mode) = RV_PRIV_M_MODE) (Hv : csr_val rv csr_mtvec = 0).
Context (Hf : memory_ifetch rv.(mem) pc = Some insn) (Hd : decode insn = Some (true, ir)).
Context (Hmis : rv.(allow_misalign) = false).

Let load_at (a mask : Z) (c : bool) :=
  transparent_load rv ir pc insn a Hwf Hir Hp Hv Hf Hd Hmis rv1 cycle mask (if c then 2 else 4).
Let store_at (a mask : Z) (c : bool) :=
  transparent_store rv ir pc insn a Hp Hv Hf Hd Hmis rv1 cycle mask (if c then 2 else 4).

Lemma word_load_code (a : Z) (c : bool) (k : riscv -> outcome) :
  0 <= a -> a mod 4 <> 0 -> GUEST_RAM_CONTAINS rv.(mem) a 4 = true -> negb (ir.(rd) =? 0) = true ->
  ir.(opcode) = rv_insn_lw \/ ir.(opcode) = rv_insn_clw \/ ir.(opcode) = rv_insn_clwsp ->
  reaches (finish (if c then 2 else 4) (access a 3 LOAD_MISALIGNED c rv1 cycle pc k))
    (a_goto ((pc + if c then 2 else 4) mod 2 ^ 32)
      (a_write ir.(rd) (a_load 4 (arch_of rv pc) a) (arch_of rv pc))).
Proof.
  intros Ha Hm Hc Hnz Ho. rewrite <- load_le_a_load by apply Hwf.
  apply load_at; [done|done| |done|intros; by apply emulate_load_word].
  apply (mask_nonzero _ 4); [by right|done].
Qed.

Lemma half_load_code (a : Z) (f : Z -> Z) (k : riscv -> outcome) :
  0 <= a -> a mod 2 <> 0 -> GUEST_RAM_CONTAINS rv.(mem) a 2 = true -> negb (ir.(rd) =? 0) = true ->
  ir.(opcode) = rv_insn_lh /\ f = sign_extend_h \/ ir.(opcode) = rv_insn_lhu /\ f = (fun v => v) ->
  reaches (finish 4 (access a 1 LOAD_MISALIGNED false rv1 cycle pc k))
    (a_goto ((pc + 4) mod 2 ^ 32)
      (a_write ir.(rd) (f (a_load 2 (arch_of rv pc) a)) (arch_of rv pc))).
Proof.
  intros Ha Hm Hc Hnz Ho. rewrite <- load_le_a_load by apply Hwf.
  apply (load_at a 1 false); [done|done| |done|intros; by apply emulate_load_half].
  apply (mask_nonzero _ 2); [by left|done].
Qed.

Lemma word_store_code (a : Z) (c : bool) (k : riscv -> outcome) :
  0 <= a -> a mod 4 <> 0 -> GUEST_RAM_CONTAINS rv.(mem) a 4 = true ->
  ir.(opcode) = rv_insn_sw \/ ir.(opcode) = rv_insn_csw \/ ir.(opcode) = rv_insn_cswsp ->
  reaches (finish (if c then 2 else 4) (access a 3 STORE_MISALIGNED c rv1 cycle pc k))
    (a_goto ((pc + if c then 2 else 4) mod 2 ^ 32)
      (a_store 4 a (xreg rv ir.(rs2)) (arch_of rv pc))).
Proof.
  intros Ha Hm Hc Ho.
  apply (store_at a 3 c _ (xreg rv ir.(rs2)) 4); [done|done| |done|intros; by apply emulate_store_word].
  apply (mask_nonzero _ 4); [by right|done].
Qed.

Lemma half_store_code (a : Z) (k : riscv -> outcome) :
  0 <= a -> a mod 2 <> 0 -> GUEST_RAM_CONTAINS rv.(mem) a 2 = true -> ir.(opcode) = rv_insn_sh ->
  reaches (finish 4 (access a 1 STORE_MISALIGNED false rv1 cycle pc k))
    (a_goto ((pc + 4) mod 2 ^ 32) (a_store 2 a (xreg rv ir.(rs2)) (arch_of rv pc))).
Proof.
  intros Ha Hm Hc Ho.
  apply (store_at a 1 false _ (xreg rv ir.(rs2)) 2); [done|done| |done|intros; by apply emulate_store_half].
  apply (mask_nonzero _ 2); [by left|done].
Qed.
End MisalignedCode.

(** C11. Misaligned accesses are transparent: in machine mode without a trap
    vector, a load or store of 2 or 4 bytes (compressed forms included) at a
    misaligned address inside RAM traps to the default handler, which decodes
    the instruction again from memory, performs the access in halves or bytes
    and resumes after the instruction, leaving exactly the registers, memory
    and program counter of the architectural step. *)
Theorem misaligned_refines `{HostClock} `{Syscall} `{SoftFloat}
    (insn : Z) (ir : rv_insn_t) (rv : riscv) (cycle pc n : Z) (s : arch) :
  is_u32 insn -> decode insn = Some (true, ir) -> memory_ifetch rv.(mem) pc = Some insn ->
  riscv_wf rv -> rv.(priv_mode) = RV_PRIV_M_MODE -> csr_val rv csr_mtvec = 0 ->
  rv.(allow_misalign) = false -> access_width ir = Some n -> access_addr rv ir mod n <> 0 ->
  GUEST_RAM_CONTAINS rv.(mem) (access_addr rv ir) n = true ->
  ir.(rd) <> 0 \/ is_Some (isa_store (expand ir).(opcode)) ->
  isa_exec ir (arch_of rv pc) = Some s ->
  reaches (exec_ir rv (set_impl ir.(opcode) ir) cycle pc) s.
Proof.
  intros Hi Hd Hf Hwf Hp Hv Hmis Hn Hal Hc Hrd Hs.
  unfold exec_ir. cbn [impl set_impl]. rewrite (do_insn_rvop _ _ _ Hs).
  apply rvop_reaches. intros rv1 c1 Hsim. pose proof (decode_regs _ _ Hi Hd) as Hir.
  assert (HX : forall i, xreg rv1 i = xreg rv i) by (intros; by apply similar_xreg).
  assert (Ha : 0 <= access_addr rv ir) by (by apply Z.mod_pos_bound).
  assert (Hnz : negb (ir.(rd) =? 0) = true \/ is_Some (isa_store (expand ir).(opcode))).
  { destruct Hrd as [Hrd|]; [left|by right]. by apply negb_true_iff, Z.eqb_neq. }
  clear Hrd. revert Hn Hal Hc Ha Hnz Hs. unfold access_width, access_addr, isa_exec, isa_step, expand.
  destruct (opcode ir) eqn:Ho;
    cbn [opcode rs1 rs2 rd imm set_opcode set_rd set_rs1 set_rs2 set_imm];
    rewrite ?Ho; cbn [isa_load isa_store isa_rr isa_ri isa_taken];
    intros Hn Hal Hc Ha Hnz Hs; first [discriminate Hn | apply Some_inj in Hn as <-]; some_eq Hs.
  all: try (destruct Hnz as [Hnz|[? Hnz]]; [|discriminate Hnz]).
  all: cbn [code_of]; unfold code_lb, code_lh, code_lw, code_lbu, code_lhu, code_sb, code_sh, code_sw,
    code_clw, code_csw, code_clwsp, code_cswsp; cbn [rs1 imm set_impl]; rewrite ?HX.
  all: rewrite ?(u32_add_r _ _ : add32 _ (u32 _) = _).
  1, 4, 6: destruct Hal; apply Z.mod_1_r.
  - apply (half_load_code rv rv1 ir c1 pc insn) with (f := sign_extend_h); eauto.
  - by apply (word_load_code rv rv1 ir c1 pc insn) with (c := false); eauto.
  - apply (half_load_code rv rv1 ir c1 pc insn) with (f := fun v => v); eauto.
  - by apply (half_store_code rv rv1 ir c1 pc insn).
  - apply (word_store_code rv rv1 ir c1 pc insn) with (c := false); eauto.
  - apply (word_load_code rv rv1 ir c1 pc insn) with (c := true); eauto.
  - apply (word_store_code rv rv1 ir c1 pc insn) with (c := true); eauto.
  - apply (word_load_code rv rv1 ir c1 pc insn) with (c := true); eauto.
  - apply (word_store_code rv rv1 ir c1 pc insn) with (c := true); eauto.
Qed.

(** [lw a0, 2(a1)] at 0x40 with a1 = 0x100. *)
Lemma misaligned_refines_witness :
  let lw := mk_rv_insn 2 10 11 0 rv_insn_lw 0 0 0 None 0 rv_insn_nop None None None in
  let hart := hart_at 11 0x100 in
  let rv := set_mem (store_le 4 hart.(mem) 0x40 0x0025a503) hart in
  access_addr rv lw mod 4 <> 0 /\
  reaches (@exec_ir stopped_clock no_syscall nan_unit rv (set_impl rv_insn_lw lw) 0 0x40)
    (a_goto ((0x40 + 4) mod 2 ^ 32)
      (a_write 10 (a_load 4 (arch_of rv 0x40) 0x102) (arch_of rv 0x40))).
Proof.
  intros lw hart rv. split; [by vm_compute|].
  apply (misaligned_refines 0x0025a503 lw rv 0 0x40 4);
    [by vm_compute|by vm_compute|by vm_compute| |done|done|done|done|by vm_compute|by vm_compute| |done].
  - apply set_mem_wf; [by apply hart_at_wf|]. apply store_le_wf. by apply (hart_at_wf 11 0x100).
  - left. done.
Defined.

(** * Trap entry and return *)

Section Status.
Context (ms : Z) (Hms : is_u32 ms).

(** The status word after a trap from machine mode and after MRET, bit by
    bit. *)
Definition trap_mstatus : Z :=
  ((ms .| shl32 ((ms .& MSTATUS_MIE) ≫ MSTATUS_MIE_SHIFT) MSTATUS_MPIE_SHIFT)
   .& not32 MSTATUS_MIE) .| shl32 RV_PRIV_M_MODE MSTATUS_MPP_SHIFT.

Lemma trap_mstatus_fields :
  trap_mstatus = (ms .& not32 0x1888) .| (field ms 7 1 .| field ms 3 1) ≪ 7 .| 3 ≪ 11.
Proof.
  unfold trap_mstatus, shl32, not32.
  change MSTATUS_MIE with 8; change MSTATUS_MIE_SHIFT with 3; change MSTATUS_MPIE_SHIFT with 7;
  change RV_PRIV_M_MODE with 3; change MSTATUS_MPP_SHIFT with 11.
  bits_eq [ms].
Qed.

Definition mret_mstatus : Z :=
  let m := ms .& not32 MSTATUS_MPP in
  m .| shl32 ((m .& MSTATUS_MPIE) ≫ MSTATUS_MPIE_SHIFT) MSTATUS_MIE_SHIFT .| MSTATUS_MPIE.

Lemma mret_mstatus_fields :
  mret_mstatus = (ms .& not32 0x1888) .| (field ms 3 1 .| field ms 7 1) ≪ 3 .| 1 ≪ 7.
Proof.
  unfold mret_mstatus, shl32, not32. cbv zeta.
  change MSTATUS_MPP with 0x1800; change MSTATUS_MPIE with 0x80; change MSTATUS_MIE_SHIFT with 3;
  change MSTATUS_MPIE_SHIFT with 7.
  bits_eq [ms].
Qed.
End Status.

(** Interrupts were enabled, or no enable bit is left over from an earlier
    trap. *)
Definition mpie_fresh (ms : Z) : Prop := field ms 3 1 = 1 \/ field ms 7 1 = 0.

Lemma mpie_restores (ms : Z) : mpie_fresh ms -> field ms 3 1 .| field ms 7 1 = field ms 3 1.
Proof.
  intros [-> | ->]; [|apply Z.lor_0_r]. pose proof (field_range ms 7 1 ltac:(lia)) as Hb.
  assert (field ms 7 1 = 0 \/ field ms 7 1 = 1) as [-> | ->] by lia; reflexivity.
Qed.

(** The stack of enable bits and modes after a trap, and the word MRET makes of
    it: the manual sets MPIE and leaves the least privileged mode in MPP. *)
Lemma mret_after_trap (ms : Z) :
  is_u32 ms -> mpie_fresh ms ->
  mret_mstatus (trap_mstatus ms) = (ms .& not32 0x1880) .| 1 ≪ 7 /\
  (trap_mstatus ms .& MSTATUS_MPP) ≫ MSTATUS_MPP_SHIFT = RV_PRIV_M_MODE /\
  field (trap_mstatus ms) 3 1 = 0 /\ field (trap_mstatus ms) 7 1 = field ms 3 1 /\
  field (trap_mstatus ms) 11 2 = RV_PRIV_M_MODE /\
  trap_mstatus ms .& not32 0x1888 = ms .& not32 0x1888.
Proof.
  intros Hms Hf.
  assert (Ht : is_u32 (trap_mstatus ms)).
  { unfold trap_mstatus. apply u32_lor; [|apply u32_range]. apply u32_land_l, u32_lor; [done|apply u32_range]. }
  rewrite mret_mstatus_fields, trap_mstatus_fields, (Z.lor_comm (field ms 7 1)), (mpie_restores _ Hf) by done.
  unfold not32. change MSTATUS_MPP with 0x1800. change MSTATUS_MPP_SHIFT with 11. change RV_PRIV_M_MODE with 3.
  split_and!; bits_eq [ms].
Qed.

(** Where the manual sends a trap: to the base of the vector, or in vectored mode,
    for an interrupt (the top bit of the cause), to the entry of its code. *)
Definition trap_target (tvec cause : Z) : Z :=
  let base := tvec / 4 * 4 in
  if (tvec mod 4 =? 1) && (2 ^ 31 <=? cause) then (base + 4 * (cause - 2 ^ 31)) mod 2 ^ 32 else base.

(** The vector the code jumps to is that one in direct mode, and in vectored mode
    for interrupts. *)
Lemma trap_target_ok (tvec cause : Z) :
  is_u32 tvec -> is_u32 cause -> tvec mod 4 = 0 \/ (tvec mod 4 = 1 /\ 2 ^ 31 <= cause) ->
  (if tvec .& 3 =? 1 then add32 (tvec .& not32 3) (4 * (cause .& 0x7fffffff)) else tvec .& not32 3) =
  trap_target tvec cause /\ (tvec .& 3 = 0 \/ tvec .& 3 = 1).
Proof.
  intros Ht Hc Hm. unfold trap_target. change 3 with (Z.ones 2) at 1 4 5. rewrite Z.land_ones by lia. change (2 ^ 2) with 4.
  assert (Hb : tvec .& not32 3 = tvec / 4 * 4).
  { change 4 with (2 ^ 2). rewrite <- Z.shiftr_div_pow2, <- Z.shiftl_mul_pow2 by lia. unfold not32. bits_eq [tvec]. }
  rewrite Hb. change 0x7fffffff with (Z.ones 31). rewrite Z.land_ones by lia.
  destruct Hm as [-> | [-> Hi]]; [by split; [|left]|]. split; [|by right]. rewrite (proj2 (Z.leb_le _ _) Hi). cbn [Z.eqb Pos.eqb andb].
  unfold add32, u32. replace (cause mod 2 ^ 31) with (cause - 2 ^ 31); [done|].
  unfold is_u32 in Hc. apply Z.mod_unique with 1; lia.
Qed.

(** C24. Trap entry and return. A trap in machine mode, with the trap vector in
    direct mode, or in vectored mode for an interrupt, records cause, value and
    interrupted program counter, pushes the interrupt-enable bit and the mode onto
    the stack in mstatus, masks interrupts and jumps where the manual says,
    touching neither the registers nor memory nor the other bits of mstatus. When
    the handler leaves mstatus and mepc as it found them, MRET resumes at the
    interrupted program counter in machine mode with the interrupt-enable bit as
    before the trap: mstatus is the old word with MPIE set and MPP cleared. The bit
    is assumed to be set before the trap, or MPIE to be clear: trap entry does
    not clear MPIE. *)
Theorem trap_mret_roundtrip (rv : riscv) (cause tval : Z) :
  let ms := csr_val rv csr_mstatus in
  let tvec := csr_val rv csr_mtvec in
  riscv_wf rv -> rv.(priv_mode) = RV_PRIV_M_MODE -> is_u32 cause -> tvec <> 0 ->
  tvec mod 4 = 0 \/ (tvec mod 4 = 1 /\ 2 ^ 31 <= cause) ->
  mpie_fresh ms ->
  exists rv1,
    SET_CAUSE_AND_TVAL_THEN_TRAP cause tval rv = Some rv1 /\
    rv1.(PC) = trap_target tvec cause /\ rv1.(priv_mode) = RV_PRIV_M_MODE /\
    csr_val rv1 csr_mepc = rv.(PC) /\ csr_val rv1 csr_mcause = cause /\ csr_val rv1 csr_mtval = tval /\
    field (csr_val rv1 csr_mstatus) 3 1 = 0 /\
    field (csr_val rv1 csr_mstatus) 7 1 = field ms 3 1 /\
    field (csr_val rv1 csr_mstatus) 11 2 = RV_PRIV_M_MODE /\
    csr_val rv1 csr_mstatus .& not32 0x1888 = ms .& not32 0x1888 /\
    rv1.(X) = rv.(X) /\ rv1.(F) = rv.(F) /\ rv1.(mem) = rv.(mem) /\
    forall rvh ir cycle pc,
      csr_val rvh csr_mstatus = csr_val rv1 csr_mstatus -> csr_val rvh csr_mepc = csr_val rv1 csr_mepc ->
      exists rv2, code_mret rvh ir cycle pc = Exit rv2 true /\
        rv2.(PC) = rv.(PC) /\ rv2.(priv_mode) = rv.(priv_mode) /\
        csr_val rv2 csr_mstatus = (ms .& not32 0x1880) .| 1 ≪ 7 /\
        field (csr_val rv2 csr_mstatus) 3 1 = field ms 3 1 /\
        rv2.(X) = rvh.(X) /\ rv2.(F) = rvh.(F) /\ rv2.(mem) = rvh.(mem).
Proof.
  intros ms tvec Hwf Hp Hc Hv Hm Hf.
  set (rvt := set_csr csr_mtval tval (set_csr csr_mcause cause rv)).
  assert (Hms : entry_mstatus rvt = trap_mstatus ms).
  { unfold entry_mstatus, trap_mstatus. change (priv_mode rvt) with (priv_mode rv). by rewrite Hp. }
  destruct (mret_after_trap ms (wf_csrs _ Hwf _) Hf) as (Hr & Hpp & Hmie & Hmpie & Hmpp & Hrest).
  destruct (trap_target_ok tvec cause (wf_csrs _ Hwf _) Hc Hm) as [Htg Hmode].
  assert (Ht : SET_CAUSE_AND_TVAL_THEN_TRAP cause tval rv = Some (set_PC (trap_target tvec cause) (m_entry rvt))).
  { rewrite set_cause_m by done. fold rvt. rewrite trap_handler_m by done.
    change (csr_val rvt csr_mtvec) with tvec. change (csr_val rvt csr_mcause) with cause. cbv zeta.
    rewrite (proj2 (Z.eqb_neq _ 0) Hv), <- Htg. by destruct Hmode as [-> | ->]. }
  set (rv1 := set_PC (trap_target tvec cause) (m_entry rvt)) in *.
  assert (Hm1 : csr_val rv1 csr_mstatus = trap_mstatus ms) by exact Hms.
  exists rv1. rewrite Hm1. split_and!; try done. intros rvh ir cycle pc Es Ee.
  set (rv2 := set_PC (csr_val rvh csr_mepc) (set_csr csr_mstatus (mret_mstatus (csr_val rvh csr_mstatus))
    (set_priv_mode ((csr_val rvh csr_mstatus .& MSTATUS_MPP) ≫ MSTATUS_MPP_SHIFT) rvh))).
  assert (Hm2 : csr_val rv2 csr_mstatus = (ms .& not32 0x1880) .| 1 ≪ 7).
  { change (csr_val rv2 csr_mstatus) with (mret_mstatus (csr_val rvh csr_mstatus)). by rewrite Es. }
  exists rv2. split_and!; try done.
  - change (priv_mode rv2) with ((csr_val rvh csr_mstatus .& MSTATUS_MPP) ≫ MSTATUS_MPP_SHIFT). by rewrite Es, Hpp.
  - rewrite Hm2. assert (Hu : is_u32 ms) by apply (wf_csrs _ Hwf). unfold not32. clearbody ms. bits_eq [ms].
Qed.

(** A breakpoint with MIE set, MPIE clear and a direct handler that returns at
    once. *)
Lemma trap_mret_roundtrip_witness :
  let rv := set_PC 0x40 (set_csr csr_mstatus 8 (set_csr csr_mtvec 0x200 hart)) in
  exists rv1 rv2,
    SET_CAUSE_AND_TVAL_THEN_TRAP BREAKPOINT 0x40 rv = Some rv1 /\ rv1.(PC) = 0x200 /\
    code_mret rv1 rv_insn_zero 7 0x200 = Exit rv2 true /\ rv2.(PC) = 0x40 /\
    csr_val rv2 csr_mstatus = 0x88.
Proof.
  intros rv.
  destruct (trap_mret_roundtrip rv BREAKPOINT 0x40)
    as (rv1 & H1 & H2 & _ & _ & _ & _ & _ & _ & _ & _ & _ & _ & _ & Hret).
  - repeat apply set_csr_wf || apply set_PC_wf; [|done..]. by apply (hart_with_wf (replicate 32 0)); [|apply Forall_replicate].
  - done.
  - done.
  - done.
  - by left.
  - by left.
  - destruct (Hret rv1 rv_insn_zero 7 0x200 eq_refl eq_refl) as (rv2 & H3 & H4 & _ & H5 & _).
    exists rv1, rv2. by rewrite H2, H4, H5.
Defined.

(** Interrupts off and MPIE left set by an earlier MRET: the trap keeps MPIE, and
    MRET turns interrupts on. *)
Example stale_mpie_enables_interrupts :
  let rv := set_csr csr_mstatus 0x80 (set_csr csr_mtvec 0x200 hart) in
  (let? rv1 := SET_CAUSE_AND_TVAL_THEN_TRAP BREAKPOINT 0x40 rv in
   match code_mret rv1 rv_insn_zero 7 0x200 with Exit rv2 _ => Some (csr_val rv2 csr_mstatus) | _ => None end)
  = Some 0x88.
Proof. by vm_compute. Qed.
