(* ===== verification/CsrSpec.v ===== *)
(** The CSR instructions and the floating-point classification. *)

From stdpp Require Import base list option numbers gmap.
From Stdlib Require Import ZArith Lia Bool.
From S2P Require Import Prelude Bits Insn Decode Mem State Trap Csr Fp Exec Samples.
#[local] Open Scope Z_scope.

(** * The CSR file *)

(** The numbers the privileged architecture gives to the registers the hart keeps
    as words of its state. *)
Definition csr_numbers : list (Z * csr_reg) :=
  [(0x003, csr_fcsr);
   (0x100, csr_sstatus); (0x104, csr_sie); (0x105, csr_stvec); (0x106, csr_scounteren);
   (0x140, csr_sscratch); (0x141, csr_sepc); (0x142, csr_scause); (0x143, csr_stval); (0x144, csr_sip);
   (0x180, csr_satp);
   (0x300, csr_mstatus); (0x301, csr_misa); (0x302, csr_medeleg); (0x303, csr_mideleg); (0x305, csr_mtvec);
   (0x340, csr_mscratch); (0x341, csr_mepc); (0x342, csr_mcause); (0x343, csr_mtval); (0x344, csr_mip)].


(** ** The instructions, after the manual *)






(** Everything but the integer registers and the CSRs of the table is the same. *)
Record csr_frame (rv rv' : riscv) : Prop := {
  cf_rest : rv' = set_csrs rv'.(csrs) (set_X rv'.(X) rv);
  cf_csrs : forall r, r ∉ csr_numbers.*2 -> csr_val rv' r = csr_val rv r }.

#[export] Instance csr_frame_preorder : PreOrder csr_frame.
Proof.
  split.
  - intros rv. by split; [destruct rv|].
  - intros a b c [E1 C1] [E2 C2]. split.
    + rewrite E2, E1. by destruct c, b, a.
    + intros r Hr. by rewrite C2, C1.
Qed.

(** ** The read-modify-write primitives *)

Section Rmw.
Context `{HostClock}.


End Rmw.






(** ** One instruction *)

Section Insn.
Context `{HostClock} `{Syscall} `{SoftFloat}.



(** ** A program of CSR instructions *)



End Insn.




(** A number the emulator does not know reads as zero, and a write to it is
    ignored: no illegal-instruction trap is raised. *)
Example unknown_csr_ignored : @csr_csrrw stopped_clock hart 0x7ff 1 5 = (0, hart).
Proof. reflexivity. Qed.

(** FRM and MIE are unknown, and FFLAGS is all of fcsr. *)
Example fflags_is_fcsr :
  @csr_csrrw stopped_clock hart CSR_FRM 1 5 = (0, hart) /\ @csr_csrrw stopped_clock hart CSR_MIE 8 5 = (0, hart) /\
  csr_val (@csr_csrrw stopped_clock hart CSR_FFLAGS 0xff 5).2 csr_fcsr = 0xff.
Proof. split_and!; reflexivity. Qed.

(** * Counters *)

Lemma word_pair (x : Z) : 0 <= x < 2 ^ 64 -> u32 x + 2 ^ 32 * (x ≫ 32) = x.
Proof.
  intros. rewrite Z.shiftr_div_pow2 by lia. unfold u32. pose proof (Z.div_mod x (2 ^ 32)). lia.
Qed.

(** The counters are read consistently: the two halves of CYCLE (and of
    INSTRET) make up the cycle count of the handler that reads them, not the
    stale count stored in the state, and the two halves of TIME make up the
    microseconds of the host clock. *)
Theorem counters_correct `{HostClock} (rv : riscv) (cycle : Z) :
  0 <= cycle < 2 ^ 64 ->
  let read csr := (csr_csrrs rv csr 0 cycle).1 in
  read CSR_CYCLE + 2 ^ 32 * read CSR_CYCLEH = cycle /\
  read CSR_INSTRET + 2 ^ 32 * read CSR_INSTRETH = cycle /\
  read CSR_TIME + 2 ^ 32 * read CSR_TIMEH
  = ((gettimeofday rv).1 * 1000000 + (gettimeofday rv).2 mod 2 ^ 32) mod 2 ^ 64.
Proof.
  intros Hc. cbv zeta. split_and!.
  - exact (word_pair cycle Hc).
  - exact (word_pair cycle Hc).
  - assert (E : forall csr (hi : bool) r,
      csr_get_ptr rv csr = (Some (PtrCsr r), update_time rv) -> sync_cycle csr cycle rv = rv ->
      (csr =? CSR_FFLAGS) = false -> (csr_csrrs rv csr 0 cycle).1 = csr_val (update_time rv) r).
    { intros csr hi r Hp Hs Hn. unfold csr_csrrs, csr_rmw. by rewrite Hs, Hp, Hn. }
    rewrite (E CSR_TIME false csr_time0), (E CSR_TIMEH true csr_time1) by done.
    unfold update_time. destruct (gettimeofday rv) as [sec usec]. cbn [fst snd].
    set (t := u64 (sec * 1000000 + u32 usec)).
    change (Z.land t 0xFFFFFFFF + 2 ^ 32 * (t ≫ 32) = t).
    change 0xFFFFFFFF with (Z.ones 32). rewrite Z.land_ones by lia. apply word_pair.
    apply Z.mod_pos_bound. lia.
Qed.

Lemma counters_correct_witness :
  let C := stopped_clock in
  (csr_csrrs hart CSR_CYCLE 0 (2 ^ 32 + 5)).1 + 2 ^ 32 * (csr_csrrs hart CSR_CYCLEH 0 (2 ^ 32 + 5)).1
  = 2 ^ 32 + 5.
Proof. intros C. apply (counters_correct hart (2 ^ 32 + 5)). lia. Defined.

(** * Classification of single-precision values *)

(** The classes of FCLASS.S, from the sign, exponent and fraction fields. *)
Inductive float_class : Type :=
| NegInf | NegNormal | NegSubnormal | NegZero | PosZero | PosSubnormal | PosNormal | PosInf
| SignalingNaN | QuietNaN.

Definition class_of (sign expn frac : Z) : float_class :=
  if expn =? 255 then
    if frac =? 0 then (if sign =? 0 then PosInf else NegInf)
    else if frac <? 2 ^ 22 then SignalingNaN else QuietNaN
  else if expn =? 0 then
    if frac =? 0 then (if sign =? 0 then PosZero else NegZero)
    else (if sign =? 0 then PosSubnormal else NegSubnormal)
  else (if sign =? 0 then PosNormal else NegNormal).

(** The bit the instruction sets for each class. *)
Definition class_bit (c : float_class) : Z :=
  match c with
  | NegInf => 0 | NegNormal => 1 | NegSubnormal => 2 | NegZero => 3 | PosZero => 4
  | PosSubnormal => 5 | PosNormal => 6 | PosInf => 7 | SignalingNaN => 8 | QuietNaN => 9
  end.

Section Fields.
Context (f : Z) (Hf : is_u32 f).

Lemma sign_field : (f .& FMASK_SIGN =? 0) = (field f 31 1 =? 0).
Proof.
  replace (f .& FMASK_SIGN) with (field f 31 1 ≪ 31) by bits_eq [f].
  rewrite Z.shiftl_mul_pow2 by lia. pose proof (field_range f 31 1).
  destruct (Z.eqb_spec (field f 31 1) 0), (Z.eqb_spec (field f 31 1 * 2 ^ 31) 0); lia || done.
Qed.

Lemma expn_field : f .& FMASK_EXPN = field f 23 8 * 2 ^ 23.
Proof. rewrite <- Z.shiftl_mul_pow2 by lia. bits_eq [f]. Qed.

Lemma frac_field : f .& FMASK_FRAC = field f 0 23.
Proof. bits_eq [f]. Qed.

Lemma quiet_field : truthy (field f 0 23 .& FMASK_QNAN) = negb (field f 0 23 <? 2 ^ 22).
Proof.
  pose proof (field_range f 0 23 ltac:(lia)) as Hr. set (x := field f 0 23) in *.
  unfold truthy. f_equal. change FMASK_QNAN with (2 ^ 22).
  replace (x .& 2 ^ 22 =? 0) with (negb (Z.testbit x 22)).
  - destruct (Z.ltb_spec x (2 ^ 22)) as [Hx|Hx].
    + destruct (Z.eq_dec x 0) as [->|]; [done|]. rewrite Z.bits_above_log2; [done|lia|].
      apply Z.log2_lt_pow2; lia.
    + assert (Hb : Z.testbit x 22 = true); [|by rewrite Hb].
      apply Z.testbit_true; [lia|]. replace (x / 2 ^ 22) with 1; [done|].
      apply Z.div_unique with (x - 2 ^ 22); lia.
  - rewrite <- (truthy_land_pow2 x 22) by lia. apply negb_involutive.
Qed.
End Fields.

(** FCLASS.S sets exactly the bit of the class the sign, exponent and
    fraction of the operand determine, and [is_nan] holds exactly on the two
    NaN classes. *)
Theorem fclass_correct (f : Z) :
  is_u32 f ->
  let c := class_of (field f 31 1) (field f 23 8) (field f 0 23) in
  calc_fclass f = 2 ^ class_bit c /\
  is_nan f = match c with SignalingNaN | QuietNaN => true | _ => false end.
Proof.
  intros Hf. cbv zeta. unfold calc_fclass, is_nan, class_of.
  rewrite !expn_field, !frac_field, quiet_field by done. unfold truthy. rewrite !sign_field by done.
  change FMASK_EXPN with (255 * 2 ^ 23).
  pose proof (field_range f 23 8 ltac:(lia)) as He.
  assert (E0 : (field f 23 8 * 2 ^ 23 =? 0) = (field f 23 8 =? 0)).
  { destruct (Z.eqb_spec (field f 23 8) 0), (Z.eqb_spec (field f 23 8 * 2 ^ 23) 0); lia || done. }
  assert (E1 : (field f 23 8 * 2 ^ 23 =? 255 * 2 ^ 23) = (field f 23 8 =? 255)).
  { destruct (Z.eqb_spec (field f 23 8) 255), (Z.eqb_spec (field f 23 8 * 2 ^ 23) (255 * 2 ^ 23));
      lia || done. }
  rewrite E0, E1. clear E0 E1.
  destruct (Z.eqb_spec (field f 23 8) 0), (Z.eqb_spec (field f 23 8) 255); try lia;
    destruct (field f 0 23 =? 0), (field f 31 1 =? 0), (field f 0 23 <? 2 ^ 22); done.
Qed.

Lemma fclass_correct_witness :
  is_u32 0xff800000 /\ calc_fclass 0xff800000 = 2 ^ 0 /\ calc_fclass 0x7fc00001 = 2 ^ 9.
Proof.
  split_and!; [done| |].
  - by apply (fclass_correct 0xff800000).
  - by apply (fclass_correct 0x7fc00001).
Defined.
