(* ===== verification/Equiv.v ===== *)
(** Harts that differ in statistics only.

    The instruction counters, the branch counters, the trace and the profile
    are written by the handlers and never read back by guest-visible code.
    [rv1 ≡ rv2] says that two states agree on everything else, and every
    handler maps equivalent states to equivalent outcomes.  The optimisation
    passes (Constopt, Fusion) are correct up to this equivalence. *)

From stdpp Require Import base list option numbers gmap.
From Stdlib Require Import ZArith Lia Bool.
From S2P Require Import Prelude Bits Insn Decode Mem State Trap Csr Fp Alu Exec Samples.
#[local] Open Scope Z_scope.

(** * Statistics *)

Record stats : Type := mk_stats {
  st_insn_counter : list Z;
  st_branch : Z * Z * Z * Z;
  st_trace_record_count : Z;
  st_history_log : option (list rv_trace_record_t);
  st_is_branch_taken : bool;
  st_last_pc : Z;
  st_prof_log : list prof_event;
}.

Definition stats_of (rv : riscv) : stats :=
  mk_stats rv.(insn_counter)
    (rv.(branch_taken_forward), rv.(branch_taken_backward), rv.(branch_untaken_forward),
     rv.(branch_untaken_backward))
    rv.(trace_record_count) rv.(history_log) rv.(is_branch_taken) rv.(last_pc) rv.(prof_log).

(** The state with other statistics. *)
Definition put (s : stats) (rv : riscv) : riscv :=
  mk_riscv (halt rv) (X rv) (PC rv) s.(st_insn_counter) (timer rv)
    s.(st_branch).1.1.1 s.(st_branch).1.1.2 s.(st_branch).1.2 s.(st_branch).2
    s.(st_trace_record_count) (trace_sample_every rv) s.(st_history_log) (F rv)
    (csrs rv) (csr_cycle rv) (priv_mode rv) (compressed rv) (mem rv)
    (allow_misalign rv) (softfloat_roundingMode rv)
    (softfloat_exceptionFlags rv) s.(st_is_branch_taken) s.(st_last_pc) s.(st_prof_log).

Definition no_stats : stats := mk_stats [] (0, 0, 0, 0) 0 None false 0 [].

Definition erase (rv : riscv) : riscv := put no_stats rv.

#[export] Instance riscv_equiv : Equiv riscv := fun rv1 rv2 => erase rv1 = erase rv2.

#[export] Instance riscv_equivalence : Equivalence (≡@{riscv}).
Proof.
  split; unfold equiv, riscv_equiv.
  - by intros x.
  - by intros x y ->.
  - by intros x y z -> ->.
Qed.

Lemma put_stats_of (rv : riscv) : put (stats_of rv) rv = rv.
Proof. by destruct rv. Qed.

Lemma put_put (s s' : stats) (rv : riscv) : put s (put s' rv) = put s rv.
Proof. reflexivity. Qed.

Lemma erase_put (s : stats) (rv : riscv) : erase (put s rv) = erase rv.
Proof. reflexivity. Qed.

Lemma equiv_put (rv1 rv2 : riscv) : rv1 ≡ rv2 -> rv2 = put (stats_of rv2) rv1.
Proof.
  unfold equiv, riscv_equiv, erase. intros H. rewrite <- (put_put _ no_stats rv1), H, put_put.
  by rewrite put_stats_of.
Qed.

Lemma put_equiv (s : stats) (rv : riscv) : put s rv ≡ rv.
Proof. reflexivity. Qed.

(** * Accessors and updates *)

Create Rewrite HintDb put.

Section Put.
Context (s : stats) (rv : riscv).

Lemma xreg_put (i : Z) : xreg (put s rv) i = xreg rv i. Proof. reflexivity. Qed.
Lemma freg_put (i : Z) : freg (put s rv) i = freg rv i. Proof. reflexivity. Qed.
Lemma csr_val_put (r : csr_reg) : csr_val (put s rv) r = csr_val rv r. Proof. reflexivity. Qed.
Lemma mem_put : mem (put s rv) = mem rv. Proof. reflexivity. Qed.
Lemma PC_put : PC (put s rv) = PC rv. Proof. reflexivity. Qed.
Lemma timer_put : timer (put s rv) = timer rv. Proof. reflexivity. Qed.
Lemma csr_cycle_put : csr_cycle (put s rv) = csr_cycle rv. Proof. reflexivity. Qed.
Lemma priv_mode_put : priv_mode (put s rv) = priv_mode rv. Proof. reflexivity. Qed.
Lemma compressed_put : compressed (put s rv) = compressed rv. Proof. reflexivity. Qed.
Lemma roundingMode_put : softfloat_roundingMode (put s rv) = softfloat_roundingMode rv.
Proof. reflexivity. Qed.
Lemma exceptionFlags_put : softfloat_exceptionFlags (put s rv) = softfloat_exceptionFlags rv.
Proof. reflexivity. Qed.
Lemma u_or_s_put : RV_PRIV_IS_U_OR_S_MODE (put s rv) = RV_PRIV_IS_U_OR_S_MODE rv.
Proof. reflexivity. Qed.
Lemma misaligned_put (a m : Z) : misaligned (put s rv) a m = misaligned rv a m.
Proof. reflexivity. Qed.

Lemma set_xreg_put (i v : Z) : set_xreg i v (put s rv) = put s (set_xreg i v rv).
Proof. reflexivity. Qed.
Lemma set_freg_put (i v : Z) : set_freg i v (put s rv) = put s (set_freg i v rv).
Proof. reflexivity. Qed.
Lemma set_csr_put (r : csr_reg) (v : Z) : set_csr r v (put s rv) = put s (set_csr r v rv).
Proof. reflexivity. Qed.
Lemma set_mem_put (m : memory_t) : set_mem m (put s rv) = put s (set_mem m rv).
Proof. reflexivity. Qed.
Lemma set_PC_put (v : Z) : set_PC v (put s rv) = put s (set_PC v rv). Proof. reflexivity. Qed.
Lemma set_timer_put (v : Z) : set_timer v (put s rv) = put s (set_timer v rv).
Proof. reflexivity. Qed.
Lemma set_csr_cycle_put (v : Z) : set_csr_cycle v (put s rv) = put s (set_csr_cycle v rv).
Proof. reflexivity. Qed.
Lemma set_priv_mode_put (v : Z) : set_priv_mode v (put s rv) = put s (set_priv_mode v rv).
Proof. reflexivity. Qed.
Lemma set_compressed_put (v : bool) : set_compressed v (put s rv) = put s (set_compressed v rv).
Proof. reflexivity. Qed.
Lemma set_roundingMode_put (v : Z) :
  set_softfloat_roundingMode v (put s rv) = put s (set_softfloat_roundingMode v rv).
Proof. reflexivity. Qed.
Lemma set_exceptionFlags_put (v : Z) :
  set_softfloat_exceptionFlags v (put s rv) = put s (set_softfloat_exceptionFlags v rv).
Proof. reflexivity. Qed.
Lemma if_put (b : bool) (r1 r2 : riscv) :
  (if b then put s r1 else put s r2) = put s (if b then r1 else r2).
Proof. by destruct b. Qed.
End Put.

#[export] Hint Rewrite xreg_put freg_put csr_val_put mem_put PC_put timer_put csr_cycle_put
  priv_mode_put compressed_put roundingMode_put exceptionFlags_put u_or_s_put misaligned_put
  set_xreg_put set_freg_put set_csr_put set_mem_put set_PC_put set_timer_put set_csr_cycle_put
  set_priv_mode_put set_compressed_put set_roundingMode_put set_exceptionFlags_put if_put : put.

(** Counting, tracing and profiling change the statistics only. *)
Section Statistics.
Context (rv : riscv).

Lemma count_equiv (o : opcode_t) : count_insn o rv ≡ rv. Proof. reflexivity. Qed.
Lemma prof_call_equiv (e : prof_event) : prof_call e rv ≡ rv. Proof. reflexivity. Qed.
Lemma set_last_pc_equiv (v : Z) : set_last_pc v rv ≡ rv. Proof. reflexivity. Qed.
Lemma set_is_branch_taken_equiv (v : bool) : set_is_branch_taken v rv ≡ rv.
Proof. reflexivity. Qed.
Lemma set_branch_taken_forward_equiv (v : Z) : set_branch_taken_forward v rv ≡ rv.
Proof. reflexivity. Qed.
Lemma set_branch_taken_backward_equiv (v : Z) : set_branch_taken_backward v rv ≡ rv.
Proof. reflexivity. Qed.
Lemma set_branch_untaken_forward_equiv (v : Z) : set_branch_untaken_forward v rv ≡ rv.
Proof. reflexivity. Qed.

Lemma trace_equiv (c p t a : Z) : rv_trace_record c p t a rv ≡ rv.
Proof.
  unfold rv_trace_record. destruct (history_log rv); [|done].
  destruct (1 <? _); [destruct (negb _)|]; reflexivity.
Qed.
End Statistics.

(** * Outcomes *)

Definition oerase (o : outcome) : outcome :=
  match o with
  | Next rv c p => Next (erase rv) c p
  | Exit rv b => Exit (erase rv) b
  | Jump rv c p t => Jump (erase rv) c p t
  | Lookup rv c p => Lookup (erase rv) c p
  | Undef => Undef
  end.

#[export] Instance outcome_equiv : Equiv outcome := fun o1 o2 => oerase o1 = oerase o2.

#[export] Instance outcome_equivalence : Equivalence (≡@{outcome}).
Proof.
  split; unfold equiv, outcome_equiv.
  - by intros x.
  - by intros x y ->.
  - by intros x y z -> ->.
Qed.

Lemma next_equiv (rv1 rv2 : riscv) (c p : Z) : rv1 ≡ rv2 -> Next rv1 c p ≡ Next rv2 c p.
Proof. unfold equiv, riscv_equiv, outcome_equiv. simpl. by intros ->. Qed.

Lemma lookup_equiv (rv1 rv2 : riscv) (c p : Z) : rv1 ≡ rv2 -> Lookup rv1 c p ≡ Lookup rv2 c p.
Proof. unfold equiv, riscv_equiv, outcome_equiv. simpl. by intros ->. Qed.

Lemma exit_equiv (rv1 rv2 : riscv) (b : bool) : rv1 ≡ rv2 -> Exit rv1 b ≡ Exit rv2 b.
Proof. unfold equiv, riscv_equiv, outcome_equiv. simpl. by intros ->. Qed.

Lemma chain_equiv (rv1 rv2 : riscv) (t : option irptr) (c p : Z) :
  rv1 ≡ rv2 -> chain t rv1 c p ≡ chain t rv2 c p.
Proof. intros ->%equiv_put. by destruct t. Qed.

Lemma end_op_equiv (rv1 rv2 : riscv) (c p : Z) : rv1 ≡ rv2 -> end_op rv1 c p ≡ end_op rv2 c p.
Proof. by intros ->%equiv_put. Qed.

(** A handler that does not read the statistics. *)
Definition blind (h : handler) : Prop :=
  forall s rv ir cycle pc, h (put s rv) ir cycle pc ≡ h rv ir cycle pc.

Lemma blind_equiv (h : handler) (rv1 rv2 : riscv) (ir : rv_insn_t) (cycle pc : Z) :
  blind h -> rv1 ≡ rv2 -> h rv1 ir cycle pc ≡ h rv2 ir cycle pc.
Proof. intros Hh ->%equiv_put. symmetry. apply Hh. Qed.

(** * Traps *)

Ltac put_cases :=
  repeat (autorewrite with put; cbn beta iota zeta;
    match goal with
    | |- context [match ?x with _ => _ end] =>
        lazymatch x with context [match _ with _ => _ end] => fail | _ => destruct x eqn:? end
    end).

Lemma read_bytes_put (s : stats) (rv : riscv) (a : Z) (n : nat) :
  read_bytes (put s rv) a n = read_bytes rv a n.
Proof. reflexivity. Qed.

Lemma skip_insn_put (s : stats) (rv : riscv) : skip_insn (put s rv) = put s (skip_insn rv).
Proof. reflexivity. Qed.

#[export] Hint Rewrite read_bytes_put skip_insn_put : put.

Lemma emulate_misaligned_load_put (s : stats) (rv : riscv) (ir : rv_insn_t) (a : Z) :
  emulate_misaligned_load (put s rv) ir a
  = let? (b, rv') := emulate_misaligned_load rv ir a in Some (b, put s rv').
Proof.
  unfold emulate_misaligned_load. destruct (opcode ir); try reflexivity; autorewrite with put;
    repeat case_match; simplify_eq; reflexivity.
Qed.

Lemma emulate_misaligned_store_put (s : stats) (rv : riscv) (ir : rv_insn_t) (a : Z) :
  emulate_misaligned_store (put s rv) ir a
  = let? (b, rv') := emulate_misaligned_store rv ir a in Some (b, put s rv').
Proof.
  unfold emulate_misaligned_store. destruct (opcode ir); try reflexivity; autorewrite with put;
    repeat case_match; simplify_eq; reflexivity.
Qed.

Lemma default_handler_put (s : stats) (rv : riscv) :
  rv_trap_default_handler (put s rv) = put s <$> rv_trap_default_handler rv.
Proof.
  unfold rv_trap_default_handler. autorewrite with put.
  destruct (_ || _); [|done]. destruct (memory_ifetch _ _) as [insn|]; [|done].
  destruct (insn =? 0); [done|]. destruct (decode insn) as [[ok ir]|]; [|done].
  destruct (negb ok); [done|]. destruct (_ =? _).
  - rewrite emulate_misaligned_load_put. destruct (emulate_misaligned_load _ _ _) as [[? ?]|]; done.
  - rewrite emulate_misaligned_store_put.
    destruct (emulate_misaligned_store _ _ _) as [[? ?]|]; done.
Qed.

Lemma trap_handler_put (s : stats) (rv : riscv) :
  trap_handler (put s rv) = put s <$> trap_handler rv.
Proof.
  unfold trap_handler, _trap_handler. autorewrite with put.
  destruct (RV_PRIV_IS_U_OR_S_MODE rv).
  - repeat case_match; reflexivity.
  - destruct (csr_val _ csr_mtvec =? 0); [apply default_handler_put|].
    repeat case_match; reflexivity.
Qed.

Lemma trap_put (s : stats) (cause tval : Z) (rv : riscv) :
  SET_CAUSE_AND_TVAL_THEN_TRAP cause tval (put s rv)
  = put s <$> SET_CAUSE_AND_TVAL_THEN_TRAP cause tval rv.
Proof.
  unfold SET_CAUSE_AND_TVAL_THEN_TRAP. autorewrite with put. apply trap_handler_put.
Qed.

Lemma ebreak_put (s : stats) (rv : riscv) : ebreak_handler (put s rv) = put s <$> ebreak_handler rv.
Proof. apply trap_put. Qed.

(** * The environment *)

(** The system-call layer and the clock do not look at the statistics. *)
Class EnvBlind `{HostClock} `{Syscall} : Prop := {
  syscall_blind : forall s rv, option_map erase (syscall_handler (put s rv))
                               = option_map erase (syscall_handler rv);
  clock_blind : forall s rv, gettimeofday (put s rv) = gettimeofday rv;
}.

Lemma option_exit_equiv (r1 r2 : option riscv) (b : bool) :
  option_map erase r1 = option_map erase r2 ->
  match r1 with Some rv => Exit rv b | None => Undef end
  ≡ match r2 with Some rv => Exit rv b | None => Undef end.
Proof.
  destruct r1, r2; cbn [option_map]; intros E; try discriminate E; [|done].
  apply exit_equiv. exact (Some_inj _ _ E).
Qed.

Section Env.
Context `{HostClock} `{Syscall} `{SoftFloat} `{!EnvBlind}.

Lemma ecall_put (s : stats) (rv : riscv) :
  option_map erase (ecall_handler (put s rv)) = option_map erase (ecall_handler rv).
Proof.
  unfold ecall_handler. rewrite trap_put.
  destruct (SET_CAUSE_AND_TVAL_THEN_TRAP ECALL_M 0 rv); [apply syscall_blind|done].
Qed.

Lemma update_time_put (s : stats) (rv : riscv) : update_time (put s rv) = put s (update_time rv).
Proof. unfold update_time. rewrite clock_blind. by destruct (gettimeofday rv). Qed.

Lemma csr_get_ptr_put (s : stats) (rv : riscv) (csr : Z) :
  csr_get_ptr (put s rv) csr = let (p, rv') := csr_get_ptr rv csr in (p, put s rv').
Proof. unfold csr_get_ptr. rewrite update_time_put. repeat case_match; simplify_eq; reflexivity. Qed.

Lemma sync_cycle_put (s : stats) (csr cycle : Z) (rv : riscv) :
  sync_cycle csr cycle (put s rv) = put s (sync_cycle csr cycle rv).
Proof. unfold sync_cycle. repeat case_match; reflexivity. Qed.

Lemma csr_rmw_put (f : Z -> Z) (s : stats) (rv : riscv) (csr cycle : Z) :
  csr_rmw f (put s rv) csr cycle = let (v, rv') := csr_rmw f rv csr cycle in (v, put s rv').
Proof.
  unfold csr_rmw. rewrite sync_cycle_put, csr_get_ptr_put.
  destruct (csr_get_ptr (sync_cycle csr cycle rv) csr) as [[[r|[]]|] rv']; reflexivity.
Qed.

Lemma set_fflag_put (s : stats) (rv : riscv) : set_fflag (put s rv) = put s (set_fflag rv).
Proof. unfold set_fflag. autorewrite with put. reflexivity. Qed.

Lemma set_rounding_mode_put (s : stats) (rv : riscv) (rm : Z) :
  set_rounding_mode (put s rv) rm = put s <$> set_rounding_mode rv rm.
Proof. unfold set_rounding_mode. autorewrite with put. repeat case_match; reflexivity. Qed.

Lemma raise_put (s : stats) (rv : riscv) (flags : Z) : raise flags (put s rv) = put s (raise flags rv).
Proof. reflexivity. Qed.
End Env.

(** * Handlers *)

Section Shapes.
Context (cycle pc : Z).

Lemma exc_misaligned_equiv (cause : Z) (compress : bool) (addr : Z) (rv1 rv2 : riscv) :
  rv1 ≡ rv2 ->
  exc_misaligned cause compress addr rv1 cycle pc ≡ exc_misaligned cause compress addr rv2 cycle pc.
Proof.
  intros ->%equiv_put. unfold exc_misaligned. autorewrite with put. rewrite trap_put.
  by destruct (SET_CAUSE_AND_TVAL_THEN_TRAP _ _ _).
Qed.

Lemma access_equiv (addr mask cause : Z) (compress : bool) (rv1 rv2 : riscv)
    (k : riscv -> outcome) :
  rv1 ≡ rv2 -> (forall s rv, k (put s rv) ≡ k rv) ->
  access addr mask cause compress rv1 cycle pc k ≡ access addr mask cause compress rv2 cycle pc k.
Proof.
  intros Hrv Hk. unfold access.
  assert (E : rv_trace_record cycle pc RV_TRACE_MEM addr rv1
              ≡ rv_trace_record cycle pc RV_TRACE_MEM addr rv2) by (by rewrite !trace_equiv).
  pose proof (equiv_put _ _ E) as ->. rewrite misaligned_put.
  destruct (misaligned _ _ _); [by apply exc_misaligned_equiv|]. by rewrite Hk.
Qed.

End Shapes.

(** Handlers without a scrutinee that depends on the state. *)
Ltac blind_direct := intros s rv ir cycle pc; unfold equiv, outcome_equiv; reflexivity.

Lemma op_imm_blind (f : Z -> Z -> Z) : blind (op_imm f). Proof. blind_direct. Qed.
Lemma op_reg_blind (f : Z -> Z -> Z) : blind (op_reg f). Proof. blind_direct. Qed.
Lemma op_una_blind (f : Z -> Z) : blind (op_una f). Proof. blind_direct. Qed.

Lemma shift_func_blind : blind shift_func.
Proof. intros s rv ir cycle pc. unfold shift_func. case_match; (done || apply op_imm_blind). Qed.

Lemma BRANCH_FUNC_blind (u : Z -> Z -> bool) : blind (BRANCH_FUNC u).
Proof. intros s rv ir cycle pc. unfold BRANCH_FUNC. autorewrite with put. repeat case_match; reflexivity. Qed.

Lemma cbranch_blind (u : Z -> bool) : blind (cbranch u).
Proof.
  intros s rv ir cycle pc. unfold cbranch. autorewrite with put.
  destruct (u _); [by destruct (branch_untaken ir)|by apply chain_equiv].
Qed.

Lemma sext_blind (a b c : Z) : blind (sext a b c).
Proof. intros s rv ir cycle pc. unfold sext. autorewrite with put. reflexivity. Qed.

Lemma amo_blind (f : Z -> Z -> Z) : blind (amo f).
Proof.
  intros s rv ir cycle pc. unfold amo. rewrite xreg_put. apply access_equiv; [done|].
  intros s' rv'. autorewrite with put. destruct (ram_read_w _ _); [|done].
  autorewrite with put. by destruct (ram_write_w _ _ _).
Qed.

Lemma fload_blind (a : Z) : blind (fload a).
Proof.
  intros s rv ir cycle pc. apply access_equiv; [done|]. intros s' rv'.
  autorewrite with put. by destruct (ram_read_w _ _).
Qed.

Lemma fstore_blind (a : Z) : blind (fstore a).
Proof.
  intros s rv ir cycle pc. apply access_equiv; [done|]. intros s' rv'.
  autorewrite with put. by destruct (ram_write_w _ _ _).
Qed.

Lemma cload_blind (a : Z) : blind (cload a).
Proof.
  intros s rv ir cycle pc. apply access_equiv; [done|]. intros s' rv'.
  autorewrite with put. by destruct (ram_read_w _ _).
Qed.

Lemma cstore_blind (a : Z) : blind (cstore a).
Proof.
  intros s rv ir cycle pc. apply access_equiv; [done|]. intros s' rv'.
  autorewrite with put. by destruct (ram_write_w _ _ _).
Qed.

(** The remaining loads and stores. *)
Ltac blind_access :=
  intros s rv ir cycle pc; cbv beta zeta; rewrite ?xreg_put; apply access_equiv; [done|];
  intros s' rv'; autorewrite with put; repeat case_match; done.

Lemma memory_blind :
  blind code_lh /\ blind code_lw /\ blind code_lhu /\ blind code_sh /\ blind code_sw /\
  blind code_lrw /\ blind code_scw.
Proof. split_and!; unfold blind, code_lh, code_lw, code_lhu, code_sh, code_sw, code_lrw, code_scw, write_rd; blind_access. Qed.

Lemma byte_blind : blind code_lb /\ blind code_lbu /\ blind code_sb.
Proof.
  split_and!; intros s rv ir cycle pc; unfold code_lb, code_lbu, code_sb, write_rd;
    rewrite xreg_put; cbv zeta; set (a := add32 _ _);
    (assert (E : rv_trace_record cycle pc RV_TRACE_MEM a rv
       ≡ rv_trace_record cycle pc RV_TRACE_MEM a (put s rv)) by (by rewrite !trace_equiv));
    pose proof (equiv_put _ _ E) as ->; autorewrite with put; repeat case_match; done.
Qed.

(** Shifts and rotations whose value can be undefined. *)
Lemma partial_blind (m : riscv -> rv_insn_t -> option Z) (r : rv_insn_t -> Z) :
  (forall s rv ir, m (put s rv) ir = m rv ir) ->
  blind (fun rv ir cycle pc =>
    match m rv ir with Some v => Next (set_xreg (r ir) v rv) cycle pc | None => Undef end).
Proof. intros Hm s rv ir cycle pc. rewrite Hm. by destruct (m rv ir). Qed.

Section Blind.
Context `{HostClock} `{Syscall} `{SoftFloat} `{!EnvBlind}.

Lemma fp_op_blind (op : riscv -> rv_insn_t -> Z * Z) (w : Z -> riscv -> rv_insn_t -> riscv) :
  (forall s rv ir, op (put s rv) ir = op rv ir) ->
  (forall s v rv ir, w v (put s rv) ir = put s (w v rv ir)) -> blind (fp_op op w).
Proof.
  intros Hop Hw s rv ir cycle pc. unfold fp_op. rewrite set_rounding_mode_put.
  destruct (set_rounding_mode rv _) as [rv'|]; [simpl|done]. rewrite Hop.
  destruct (op rv' ir). by rewrite raise_put, Hw, set_fflag_put.
Qed.

Lemma to_freg_put (s : stats) (v : Z) (rv : riscv) (ir : rv_insn_t) :
  to_freg v (put s rv) ir = put s (to_freg v rv ir).
Proof. reflexivity. Qed.

Lemma write_rd_nz_put (s : stats) (rv : riscv) (ir : rv_insn_t) (v : Z) :
  write_rd_nz (put s rv) ir v = put s (write_rd_nz rv ir v).
Proof. unfold write_rd_nz. by destruct (truthy _). Qed.

Lemma to_xreg_put (s : stats) (v : Z) (rv : riscv) (ir : rv_insn_t) :
  to_xreg v (put s rv) ir = put s (to_xreg v rv ir).
Proof. apply write_rd_nz_put. Qed.

Lemma fp_cmp_blind (cmp : Z -> Z -> bool * Z) : blind (fp_cmp cmp).
Proof.
  intros s rv ir cycle pc. unfold fp_cmp. autorewrite with put. destruct (cmp _ _).
  by rewrite raise_put, write_rd_nz_put, set_fflag_put.
Qed.

Lemma ordered_put (a b f1 f2 sign : Z) (s : stats) (rv : riscv) :
  ordered a b f1 f2 sign (put s rv)
  = let (r, rv') := ordered a b f1 f2 sign rv in (r, put s rv').
Proof.
  unfold ordered. destruct (f32_lt_quiet a b) as [lt fl]. destruct lt; [done|].
  by destruct (f32_eq f1 f2).
Qed.

Lemma minmax_blind (less : Z -> Z -> riscv -> bool * riscv) :
  (forall f1 f2 s rv, less f1 f2 (put s rv) = let (r, rv') := less f1 f2 rv in (r, put s rv')) ->
  blind (minmax less).
Proof.
  intros Hl s rv ir cycle pc. unfold minmax. autorewrite with put. rewrite Hl.
  by destruct (less _ _ _).
Qed.

Lemma csr_op_blind (f : riscv -> rv_insn_t -> Z -> Z * riscv) :
  (forall s rv ir c, f (put s rv) ir c = let (v, rv') := f rv ir c in (v, put s rv')) ->
  blind (csr_op f).
Proof. intros Hf s rv ir cycle pc. unfold csr_op. rewrite Hf. by destruct (f rv ir cycle). Qed.

Lemma csr_blind :
  blind code_csrrw /\ blind code_csrrs /\ blind code_csrrc /\ blind code_csrrwi /\
  blind code_csrrsi /\ blind code_csrrci.
Proof. split_and!; apply csr_op_blind; intros; apply csr_rmw_put. Qed.

Lemma float_blind :
  blind code_fmadds /\ blind code_fmsubs /\ blind code_fnmsubs /\ blind code_fnmadds /\
  blind code_fadds /\ blind code_fsubs /\ blind code_fmuls /\ blind code_fdivs /\
  blind code_fsqrts /\ blind code_fcvtws /\ blind code_fcvtwus /\ blind code_fcvtsw /\
  blind code_fcvtswu.
Proof. split_and!; apply fp_op_blind; intros; first [reflexivity|apply to_xreg_put]. Qed.

Lemma minmax_codes_blind : blind code_fmins /\ blind code_fmaxs.
Proof. split; apply minmax_blind; intros; apply ordered_put. Qed.

Lemma jumps_blind :
  blind code_jal /\ blind code_jalr /\ blind code_cj /\ blind code_cjal /\ blind code_cjr /\
  blind code_cjalr.
Proof.
  split_and!; intros s rv ir cycle pc;
    unfold code_jal, code_jalr, code_cj, code_cjal, code_cjr, code_cjalr;
    autorewrite with put; first [apply chain_equiv | apply lookup_equiv | idtac];
    try destruct (truthy (rd ir)); reflexivity.
Qed.

Lemma traps_blind : blind code_ebreak /\ blind code_cebreak /\ blind code_ecall.
Proof.
  split_and!; intros s rv ir cycle pc; unfold code_ebreak, code_cebreak, code_ecall;
    autorewrite with put; apply option_exit_equiv; [by rewrite ebreak_put; destruct (ebreak_handler _)
    |by rewrite ebreak_put; destruct (ebreak_handler _)|apply ecall_put].
Qed.

Lemma guarded_blind :
  blind code_fmvxw /\ blind code_fclasss.
Proof.
  split_and!; intros s rv ir cycle pc; unfold code_fmvxw, code_fclasss;
    by rewrite write_rd_nz_put.
Qed.

(** The handlers of each instruction. *)
Ltac blind_code :=
  lazymatch goal with
  | |- blind code_scw => apply memory_blind
  | |- blind code_fsw => intros ? ? ? ? ?; apply fstore_blind
  | |- blind code_cfsw => intros ? ? ? ? ?; apply fstore_blind
  | |- blind code_cfswsp => intros ? ? ? ? ?; apply fstore_blind
  | |- blind code_clw => intros ? ? ? ? ?; apply cload_blind
  | |- blind code_clwsp => intros ? ? ? ? ?; apply cload_blind
  | |- blind code_csw => intros ? ? ? ? ?; apply cstore_blind
  | |- blind code_cswsp => intros ? ? ? ? ?; apply cstore_blind
  | |- _ => first
    [ solve [blind_direct] | apply op_imm_blind | apply op_reg_blind | apply op_una_blind
    | apply shift_func_blind | apply BRANCH_FUNC_blind | apply cbranch_blind | apply sext_blind
    | apply amo_blind | solve [apply memory_blind] | solve [apply byte_blind] | solve [apply csr_blind]
    | solve [apply float_blind] | solve [apply minmax_codes_blind] | apply fp_cmp_blind
    | solve [apply jumps_blind] | solve [apply traps_blind] | solve [apply guarded_blind]
    | intros ? ? ? ? ?; apply fload_blind
    | apply (partial_blind (fun rv ir => _) (fun ir => _)); reflexivity ]
  end.

Lemma code_of_blind (o : opcode_t) : blind (code_of o).
Proof. destruct o; cbn [code_of]; blind_code. Qed.

(** The fused handlers. *)
Lemma fold_put {A} (g : riscv -> A -> riscv) (l : list A) (s : stats) (rv : riscv) :
  (forall rv a, g (put s rv) a = put s (g rv a)) ->
  fold_left g l (put s rv) = put s (fold_left g l rv).
Proof. intros Hg. revert rv. induction l as [|a l IH]; intros rv; simpl; [done|]. by rewrite Hg. Qed.

Lemma fuse_shift_put (l : list opcode_fuse_t) (s : stats) (r : option riscv) :
  fold_left (fun acc f => let? rv := acc in fuse_shift_exec rv f) l (put s <$> r)
  = put s <$> fold_left (fun acc f => let? rv := acc in fuse_shift_exec rv f) l r.
Proof.
  revert r. induction l as [|f l IH]; intros r; [done|]. cbn [fold_left]. rewrite <- IH. f_equal.
  destruct r as [rv|]; [|done]. cbn. unfold fuse_shift_exec. by destruct (f_opcode f).
Qed.

Lemma fuse_stores_equiv (l : list opcode_fuse_t) (cycle pc : Z) (k : riscv -> outcome)
    (s : stats) (rv : riscv) :
  (forall s rv, k (put s rv) ≡ k rv) ->
  fuse_stores l (put s rv) cycle pc k ≡ fuse_stores l rv cycle pc k.
Proof.
  intros Hk. revert rv. induction l as [|f l IH]; intros rv; [apply Hk|]. cbn [fuse_stores].
  autorewrite with put. destruct (misaligned _ _ _); [by apply exc_misaligned_equiv|].
  destruct (ram_write_w _ _ _); [rewrite set_mem_put; apply IH|done].
Qed.

Lemma fuse_loads_equiv (l : list opcode_fuse_t) (cycle pc : Z) (k : riscv -> outcome)
    (s : stats) (rv : riscv) :
  (forall s rv, k (put s rv) ≡ k rv) ->
  fuse_loads l (put s rv) cycle pc k ≡ fuse_loads l rv cycle pc k.
Proof.
  intros Hk. revert rv. induction l as [|f l IH]; intros rv; [apply Hk|]. cbn [fuse_loads].
  autorewrite with put. destruct (misaligned _ _ _); [by apply exc_misaligned_equiv|].
  destruct (ram_read_w _ _); [rewrite set_xreg_put; apply IH|done].
Qed.

(** The counted state is the state with other statistics. *)
Lemma count_put (o : opcode_t) (rv : riscv) : exists s, count_insn o rv = put s rv.
Proof. exists (stats_of (count_insn o rv)). by rewrite <- (put_stats_of (count_insn o rv)) at 1. Qed.

Ltac count_put :=
  match goal with
  | |- context [count_insn ?o (put ?s ?rv)] =>
      let E1 := fresh in let E2 := fresh in
      destruct (count_put o (put s rv)) as [? E1]; destruct (count_put o rv) as [? E2];
      rewrite E1, E2, put_put; clear E1 E2
  end.

Lemma batch_blind :
  blind do_fuse1 /\ blind do_fuse3 /\ blind do_fuse4 /\ blind do_fuse5 /\ blind do_fuse7.
Proof.
  split_and!; intros s rv ir cycle pc;
    unfold do_fuse1, do_fuse3, do_fuse4, do_fuse5, do_fuse7; count_put;
    (destruct (fused ir) as [l|]; [|done]).
  - rewrite !fold_put by done. by apply next_equiv.
  - by rewrite !fuse_stores_equiv by done.
  - by rewrite !fuse_loads_equiv by done.
  - pose proof (fuse_shift_put l x (Some rv)) as E1. pose proof (fuse_shift_put l x0 (Some rv)) as E2.
    cbn [fmap option_fmap option_map] in E1, E2. rewrite E1, E2.
    destruct (fold_left _ l (Some rv)); [by apply next_equiv|done].
  - rewrite !fold_put by done. by apply next_equiv.
Qed.

Lemma pair_blind :
  blind do_fuse2 /\ blind do_fuse6 /\ blind do_fuse8 /\ blind do_fuse9 /\ blind do_fuse10 /\
  blind do_fuse11 /\ blind do_fuse12.
Proof.
  split_and!; intros s rv ir cycle pc;
    unfold do_fuse2, do_fuse6, do_fuse8, do_fuse9, do_fuse10, do_fuse11, do_fuse12; count_put;
    autorewrite with put.
  - by apply next_equiv.
  - apply option_exit_equiv. by rewrite !ecall_put.
  - by apply next_equiv.
  - destruct (misaligned _ _ _); [by apply exc_misaligned_equiv|].
    destruct (ram_read_w _ _); [by apply next_equiv|done].
  - destruct (misaligned _ _ _); [by apply exc_misaligned_equiv|].
    destruct (ram_write_w _ _ _); [by apply next_equiv|done].
  - destruct (misaligned _ _ _); [by apply exc_misaligned_equiv|].
    destruct (ram_read_w _ _); [by apply next_equiv|done].
  - destruct (truthy _); by apply chain_equiv.
Qed.

Lemma rvop_blind (o : opcode_t) : blind (rvop o (code_of o)).
Proof.
  intros s rv ir cycle pc. unfold rvop.
  assert (E : code_of o (count_insn ir.(opcode) (rv_trace_record cycle pc RV_TRACE_INSN 0 (put s rv)))
                ir (u64 (cycle + 1)) pc
              ≡ code_of o (count_insn ir.(opcode) (rv_trace_record cycle pc RV_TRACE_INSN 0 rv))
                  ir (u64 (cycle + 1)) pc).
  { apply blind_equiv; [apply code_of_blind|]. by rewrite !count_equiv, !trace_equiv. }
  revert E. unfold equiv, outcome_equiv.
  destruct (code_of _ _ _ _ _), (code_of _ _ _ _ _); cbn [oerase]; intros E; try discriminate E; congruence.
Qed.

Lemma do_insn_blind (o : opcode_t) : blind (do_insn o).
Proof.
  destruct o; cbn [do_insn]; try apply rvop_blind;
    first [apply batch_blind | apply pair_blind].
Qed.

(** Equivalent states stay equivalent under every handler ... *)
#[export] Instance exec_ir_proper : Proper ((≡) ==> (=) ==> (=) ==> (=) ==> (≡)) exec_ir.
Proof.
  intros rv1 rv2 Hrv ir ? <- c ? <- p ? <-.
  apply (blind_equiv (do_insn ir.(impl))); [apply do_insn_blind|done].
Qed.

(** ... and under every sequence of handlers. *)
Lemma exec_irs_equiv (irs : list rv_insn_t) (rv1 rv2 : riscv) (cycle pc : Z) :
  rv1 ≡ rv2 -> exec_irs irs rv1 cycle pc ≡ exec_irs irs rv2 cycle pc.
Proof.
  revert rv1 rv2 cycle pc. induction irs as [|ir irs IH]; intros rv1 rv2 cycle pc Hrv.
  - by apply end_op_equiv.
  - cbn [exec_irs]. assert (E : exec_ir rv1 ir cycle pc ≡ exec_ir rv2 ir cycle pc) by (by rewrite Hrv).
    unfold equiv, outcome_equiv in E.
    destruct (exec_ir rv1 ir cycle pc), (exec_ir rv2 ir cycle pc); cbn [oerase] in E; try discriminate E; try exact E.
    assert (rv ≡ rv0) by (unfold equiv, riscv_equiv; congruence).
    assert (cycle0 = cycle1) as <- by congruence. assert (pc0 = pc1) as <- by congruence.
    by apply IH.
Qed.

#[export] Instance exec_irs_proper : Proper ((=) ==> (≡) ==> (=) ==> (=) ==> (≡)) exec_irs.
Proof. intros irs ? <- rv1 rv2 Hrv c ? <- p ? <-. by apply exec_irs_equiv. Qed.
End Blind.

(** The sample environment is blind. *)
#[export] Instance no_syscall_blind : @EnvBlind stopped_clock no_syscall.
Proof. split; [reflexivity|done]. Qed.
