(* ===== verification/Frame.v ===== *)
(** Which integer register an instruction can change when it falls through to
    the next one, and the handler of an instruction up to statistics. *)

From stdpp Require Import base list option numbers gmap.
From Stdlib Require Import ZArith Lia Bool.
From S2P Require Import Prelude Bits Insn Decode Mem State Trap Csr Fp Alu Exec IsaRefine ExecWf Equiv.
#[local] Open Scope Z_scope.

(** * The destination of an instruction *)

(** The register the handler of [ir] assigns; the A and F extensions test for
    x0 first. *)
Definition dest (ir : rv_insn_t) : option Z :=
  match ir.(opcode) with
  | rv_insn_nop => Some rv_reg_zero
  | rv_insn_sb | rv_insn_sh | rv_insn_sw | rv_insn_flw | rv_insn_fsw | rv_insn_fmadds
  | rv_insn_fmsubs | rv_insn_fnmsubs | rv_insn_fnmadds | rv_insn_fadds | rv_insn_fsubs
  | rv_insn_fmuls | rv_insn_fdivs | rv_insn_fsqrts | rv_insn_fsgnjs | rv_insn_fsgnjns
  | rv_insn_fsgnjxs | rv_insn_fmins | rv_insn_fmaxs | rv_insn_fcvtsw | rv_insn_fcvtswu
  | rv_insn_fmvwx | rv_insn_csw | rv_insn_cnop | rv_insn_cswsp | rv_insn_cflwsp
  | rv_insn_cfswsp | rv_insn_cflw | rv_insn_cfsw => None
  | rv_insn_lrw | rv_insn_amoswapw | rv_insn_amoaddw | rv_insn_amoxorw | rv_insn_amoandw
  | rv_insn_amoorw | rv_insn_amominw | rv_insn_amomaxw | rv_insn_amominuw | rv_insn_amomaxuw
  | rv_insn_fcvtws | rv_insn_fcvtwus | rv_insn_fmvxw | rv_insn_feqs | rv_insn_flts
  | rv_insn_fles | rv_insn_fclasss => if truthy ir.(rd) then Some ir.(rd) else None
  | rv_insn_csrli | rv_insn_csrai | rv_insn_candi => Some ir.(rs1)
  | _ => Some ir.(rd)
  end.

(** Falling through leaves every register but [d], the cycle count and the
    program counter alone. *)
Definition frame (d : option Z) (rv : riscv) (cycle pc : Z) (o : outcome) : Prop :=
  match o with
  | Next rv' c p =>
      c = cycle /\ p = pc /\ forall r, 0 <= r -> d <> Some r -> xreg rv' r = xreg rv r
  | _ => True
  end.

(** * Shapes *)

Section Shapes.
Context (d : option Z) (rv rv1 : riscv) (ir : rv_insn_t) (cycle pc : Z) (HX : rv1.(X) = rv.(X)).

Lemma next_frame : frame d rv cycle pc (Next rv1 cycle pc).
Proof. split; [done|]. split; [done|]. intros r _ _. unfold xreg. by rewrite HX. Qed.

Lemma write_frame (r v : Z) : 0 <= r -> frame (Some r) rv cycle pc (Next (set_xreg r v rv1) cycle pc).
Proof.
  intros Hr. split; [done|]. split; [done|]. intros i Hi Hne. rewrite xreg_set_ne; [|done|done|congruence]. unfold xreg. by rewrite HX.
Qed.

End Shapes.

Section Frames.
Context `{HostClock} `{Syscall} `{SoftFloat}.
Context (rv : riscv) (ir : rv_insn_t) (cycle pc : Z) (Hrd : 0 <= ir.(rd)) (Hrs1 : 0 <= ir.(rs1)).

Lemma X_trace (r : riscv) (c p t a : Z) : X (rv_trace_record c p t a r) = X r.
Proof. pose proof (trace_equiv r c p t a) as E. exact (f_equal X E). Qed.

Lemma access_frame (d : option Z) (a m cause : Z) (c : bool) (k : riscv -> outcome) :
  (forall rv1, rv1.(X) = rv.(X) -> frame d rv cycle pc (k rv1)) ->
  frame d rv cycle pc (access a m cause c rv cycle pc k).
Proof.
  intros Hk. unfold access. destruct (misaligned _ _ _).
  - unfold exc_misaligned. by destruct (SET_CAUSE_AND_TVAL_THEN_TRAP _ _ _).
  - apply Hk, X_trace.
Qed.

Lemma X_csr_rmw (f : Z -> Z) (csr c : Z) : X (csr_rmw f rv csr c).2 = X rv.
Proof.
  unfold csr_rmw, csr_get_ptr, sync_cycle, update_time.
  repeat case_match; simplify_eq/=; try done; by repeat match goal with p : csr_ptr |- _ => destruct p
    | b : bool |- _ => destruct b end.
Qed.

Lemma X_set_fflag (r : riscv) : X (set_fflag r) = X r.
Proof. unfold set_fflag. repeat case_match; done. Qed.

Lemma X_set_rounding_mode (r r' : riscv) (m : Z) : set_rounding_mode r m = Some r' -> X r' = X r.
Proof. unfold set_rounding_mode. repeat case_match; intros E; simplify_eq; done. Qed.

Definition guarded : option Z := if truthy ir.(rd) then Some ir.(rd) else None.

Lemma write_nz_frame (r : riscv) (v : Z) :
  X r = X rv -> frame guarded rv cycle pc (Next (write_rd_nz r ir v) cycle pc).
Proof.
  intros HX. unfold write_rd_nz, guarded. destruct (truthy _).
  - by apply write_frame.
  - by apply next_frame.
Qed.

Lemma fp_op_frame (d : option Z) (op : riscv -> rv_insn_t -> Z * Z)
    (w : Z -> riscv -> rv_insn_t -> riscv) :
  (forall v r, X r = X rv -> frame d rv cycle pc (Next (w v r ir) cycle pc)) ->
  frame d rv cycle pc (fp_op op w rv ir cycle pc).
Proof.
  intros Hw. unfold fp_op. destruct (set_rounding_mode rv _) as [r|] eqn:E; [|done].
  apply X_set_rounding_mode in E. destruct (op r ir) as [v fl].
  destruct (Hw v (raise fl r) E) as (? & ? & Hx). split; [done|]. split; [done|].
  intros i Hi Hne. unfold xreg. rewrite X_set_fflag. by apply Hx.
Qed.

Lemma fp_cmp_frame (cmp : Z -> Z -> bool * Z) : frame guarded rv cycle pc (fp_cmp cmp rv ir cycle pc).
Proof.
  unfold fp_cmp. destruct (cmp _ _) as [b fl].
  destruct (write_nz_frame (raise fl rv) (b2z b) eq_refl) as (? & ? & Hx). split; [done|]. split; [done|].
  intros i Hi Hne. unfold xreg. rewrite X_set_fflag. by apply Hx.
Qed.

Lemma X_ordered (a b f1 f2 s : Z) (r : riscv) : X (ordered a b f1 f2 s r).2 = X r.
Proof. unfold ordered. repeat case_match; simplify_eq; done. Qed.

Lemma minmax_frame (less : Z -> Z -> riscv -> bool * riscv) (d : option Z) :
  (forall a b r, X (less a b r).2 = X r) -> frame d rv cycle pc (minmax less rv ir cycle pc).
Proof.
  intros Hl. unfold minmax. set (r := if _ || _ then _ else rv).
  assert (X r = X rv) by (unfold r; by case_match).
  specialize (Hl (freg rv ir.(rs1)) (freg rv ir.(rs2)) r). destruct (less _ _ r) as [b r'].
  apply next_frame. change (X r' = X rv). cbn [snd] in Hl. congruence.
Qed.

Lemma amo_frame (f : Z -> Z -> Z) : frame guarded rv cycle pc (amo f rv ir cycle pc).
Proof.
  apply access_frame. intros rv1 HX. destruct (ram_read_w _ _) as [v|]; [|done]. cbv zeta.
  destruct (ram_write_w _ _ _) as [m|]; [|done]. unfold guarded. destruct (truthy _).
  - exact (write_frame rv (set_mem m rv1) cycle pc HX ir.(rd) v Hrd).
  - by apply next_frame.
Qed.

Lemma csr_op_frame (f : riscv -> rv_insn_t -> Z -> Z * riscv) :
  X (f rv ir cycle).2 = X rv -> frame (Some ir.(rd)) rv cycle pc (csr_op f rv ir cycle pc).
Proof. unfold csr_op. destruct (f rv ir cycle) as [v r]. intros HX. by apply write_frame. Qed.

Lemma sext_frame (a b c : Z) : frame (Some ir.(rd)) rv cycle pc (sext a b c rv ir cycle pc).
Proof.
  unfold sext. cbv zeta. destruct (truthy _).
  - rewrite set_xreg_twice. by apply write_frame.
  - by apply write_frame.
Qed.

(** Loads write [rd], stores write nothing. *)
Ltac frame_access :=
  apply access_frame; intros rv1 HX;
  repeat case_match; first [exact I | by apply write_frame | by apply next_frame].

Ltac frame_code :=
  first
  [ exact I
  | by apply write_frame
  | by apply next_frame
  | by apply amo_frame
  | by apply fp_cmp_frame
  | by apply write_nz_frame
  | apply sext_frame
  | solve [apply fp_op_frame; intros; first [by apply write_nz_frame | by apply next_frame]]
  | solve [apply csr_op_frame; apply X_csr_rmw]
  | solve [apply minmax_frame; intros; apply X_ordered]
  | solve [frame_access] ].

Lemma partial_frame (r : Z) (o : option Z) :
  0 <= r ->
  frame (Some r) rv cycle pc (match o with Some v => Next (set_xreg r v rv) cycle pc | None => Undef end).
Proof. intros Hr. destruct o; [by apply write_frame|done]. Qed.

Lemma byte_frames :
  frame (Some ir.(rd)) rv cycle pc (code_lb rv ir cycle pc) /\
  frame (Some ir.(rd)) rv cycle pc (code_lbu rv ir cycle pc) /\ frame None rv cycle pc (code_sb rv ir cycle pc).
Proof.
  unfold code_lb, code_lbu, code_sb. cbv zeta.
  split_and!; case_match; try done; [apply write_frame; [apply X_trace|done]..|].
  apply next_frame, X_trace.
Qed.

Lemma reservation_frames :
  frame guarded rv cycle pc (code_lrw rv ir cycle pc) /\ frame (Some ir.(rd)) rv cycle pc (code_scw rv ir cycle pc).
Proof.
  split; apply access_frame; intros rv1 HX.
  - unfold guarded. destruct (truthy _); [|by apply next_frame].
    destruct (ram_read_w _ _); [by apply write_frame|done].
  - destruct (ram_write_w _ _ _) as [m|]; [|done].
    exact (write_frame rv (set_mem m rv1) cycle pc HX ir.(rd) 0 Hrd).
Qed.

Lemma shift_frame : frame (Some ir.(rd)) rv cycle pc (shift_func rv ir cycle pc).
Proof. unfold shift_func. case_match; first [exact I | by apply write_frame]. Qed.

Lemma code_frame :
  insn_is_branch ir.(opcode) = false -> frame (dest ir) rv cycle pc (code_of ir.(opcode) rv ir cycle pc).
Proof.
  unfold dest. fold guarded. destruct (opcode ir) eqn:Ho; cbn [code_of]; intros Hb;
    try discriminate Hb; clear Hb;
    first [ frame_code | apply shift_frame | solve [apply byte_frames]
          | solve [apply reservation_frames] | by apply partial_frame ].
Qed.
End Frames.

(** * Handlers up to statistics *)

Definition is_fused (o : opcode_t) : bool := N_RV_INSNS <? opcode_num o.

Lemma do_insn_plain `{HostClock} `{Syscall} `{SoftFloat} (o : opcode_t) :
  is_fused o = false -> do_insn o = rvop o (code_of o).
Proof. by destruct o. Qed.

Lemma finish_equiv (len : Z) (o1 o2 : outcome) : o1 ≡ o2 -> finish len o1 ≡ finish len o2.
Proof.
  unfold equiv, outcome_equiv. destruct o1, o2; cbn [oerase finish]; intros E; try discriminate E; congruence.
Qed.

(** Register fields in range, a handler that belongs to the opcode, not fused. *)
Record plain (ir : rv_insn_t) : Prop := {
  pl_regs : regs_ok ir;
  pl_impl : ir.(impl) = ir.(opcode);
  pl_fused : is_fused ir.(opcode) = false;
}.

Lemma equiv_xreg (rv1 rv2 : riscv) (r : Z) : rv1 ≡ rv2 -> xreg rv1 r = xreg rv2 r.
Proof. intros ->%equiv_put. done. Qed.

Section Plain.
Context `{HostClock} `{Syscall} `{SoftFloat} `{!EnvBlind}.

(** A plain handler is its body and the advance of the program counter. *)
Lemma exec_ir_code (rv : riscv) (ir : rv_insn_t) (cycle pc : Z) :
  ir.(impl) = ir.(opcode) -> is_fused ir.(opcode) = false ->
  exec_ir rv ir cycle pc
  ≡ finish (insn_len ir.(opcode)) (code_of ir.(opcode) rv ir (u64 (cycle + 1)) pc).
Proof.
  intros Hi Hf. unfold exec_ir. rewrite Hi, do_insn_plain by done. unfold rvop. cbv zeta.
  transitivity (finish (insn_len (opcode ir))
    (code_of (opcode ir) (count_insn (opcode ir) (rv_trace_record cycle pc RV_TRACE_INSN 0 rv)) ir
       (u64 (cycle + 1)) pc)).
  { by destruct (code_of _ _ _ _ _). }
  apply finish_equiv, blind_equiv; [apply code_of_blind|]. by rewrite count_equiv, trace_equiv.
Qed.

(** * Instructions as [block_translate] leaves them *)

Section Steps.
Context (rv : riscv) (ir : rv_insn_t) (cycle pc : Z) (Hir : plain ir).

Lemma next_code (rv' : riscv) (c' p' : Z) :
  exec_ir rv ir cycle pc = Next rv' c' p' ->
  exists rv1 q, code_of ir.(opcode) rv ir (u64 (cycle + 1)) pc = Next rv1 c' q /\ rv1 ≡ rv' /\
    p' = add32 q (insn_len ir.(opcode)).
Proof.
  intros E. pose proof (exec_ir_code rv ir cycle pc (pl_impl _ Hir) (pl_fused _ Hir)) as Hc.
  rewrite E in Hc. unfold equiv, outcome_equiv in Hc.
  destruct (code_of _ _ _ _ _) as [rv1 c1 q| | | |]; cbn [finish oerase] in Hc; try discriminate Hc.
  exists rv1, q. split; [|split]; [f_equal; congruence| |congruence].
  unfold equiv, riscv_equiv. congruence.
Qed.

Lemma next_frame_dest (rv' : riscv) (c' p' r : Z) :
  insn_is_branch ir.(opcode) = false -> exec_ir rv ir cycle pc = Next rv' c' p' -> 0 <= r ->
  dest ir <> Some r -> xreg rv' r = xreg rv r.
Proof.
  intros Hb (rv1 & q & E & Hrv & _)%next_code Hr Hd. rewrite <- (equiv_xreg _ _ _ Hrv).
  pose proof (pl_regs _ Hir) as (? & ? & ? & ?).
  pose proof (code_frame rv ir (u64 (cycle + 1)) pc ltac:(lia) ltac:(lia) Hb) as Hf.
  rewrite E in Hf. by apply Hf.
Qed.

Lemma next_pc (rv' : riscv) (c' p' : Z) :
  insn_is_branch ir.(opcode) = false -> exec_ir rv ir cycle pc = Next rv' c' p' ->
  c' = u64 (cycle + 1) /\ p' = add32 pc (insn_len ir.(opcode)).
Proof.
  intros Hb (rv1 & q & E & _ & ->)%next_code. pose proof (pl_regs _ Hir) as (? & ? & ? & ?).
  pose proof (code_frame rv ir (u64 (cycle + 1)) pc ltac:(lia) ltac:(lia) Hb) as Hf.
  rewrite E in Hf. by destruct Hf as (-> & -> & _).
Qed.

Lemma exec_next_wf `{!SyscallWf} (rv' : riscv) (c p : Z) :
  riscv_wf rv -> is_u32 pc -> exec_ir rv ir cycle pc = Next rv' c p -> riscv_wf rv'.
Proof.
  intros Hwf Hpc E. assert (Ho : outcome_wf (exec_ir rv ir cycle pc)).
  { unfold exec_ir. rewrite (pl_impl _ Hir), do_insn_plain by apply Hir. apply rvop_wf; [|done].
    intros. apply code_of_wf; [done|apply Hir|done|done]. }
  rewrite E in Ho. apply Ho.
Qed.
End Steps.
End Plain.

(** * Returning to the run loop *)

(** The state [rv_step] would see if control returned to it now, up to
    statistics, and the value the handler returns. *)
Definition settle (o : outcome) : option (riscv * bool) :=
  match o with
  | Next rv c p | Jump rv c p _ | Lookup rv c p => Some (erase (set_PC p (set_csr_cycle c rv)), true)
  | Exit rv b => Some (erase rv, b)
  | Undef => None
  end.

#[export] Instance settle_proper : Proper ((≡) ==> (=)) settle.
Proof.
  intros o1 o2. unfold equiv, outcome_equiv.
  assert (Hs : forall c p r r', erase r = erase r' ->
    erase (set_PC p (set_csr_cycle c r)) = erase (set_PC p (set_csr_cycle c r'))).
  { intros c p r r' E. exact (f_equal (fun x => set_PC p (set_csr_cycle c x)) E). }
  destruct o1 as [r ? ?|r ?|r ? ? ?|r ? ?|], o2 as [r' ? ?|r' ?|r' ? ? ?|r' ? ?|];
    cbn [oerase settle]; intros E; try discriminate E; [| | | |done];
    assert (Er : erase r = erase r') by congruence;
    [rewrite (Hs _ _ _ _ Er)| |rewrite (Hs _ _ _ _ Er)|rewrite (Hs _ _ _ _ Er)]; congruence.
Qed.

Lemma settle_end_op (rv : riscv) (c p : Z) : settle (end_op rv c p) = settle (Next rv c p).
Proof. reflexivity. Qed.
