(* ===== verification/Constopt.v ===== *)
(** The constant-propagation pass (rv32_constopt.c and [optimize_constant] of
    emulate.c).

    [constopt_X] is [CONSTOPT(X, ...)]: it gets an instruction and what is known
    of the registers before it, may replace the instruction by a load of a
    constant or by an unconditional jump, and updates what is known.  [None] is
    undefined behaviour of the C code, as its partial operators have it: division
    by zero, signed overflow and shifts by 32 or more. *)

From stdpp Require Import base list option numbers gmap.
From Stdlib Require Import ZArith Lia Bool.
From S2P Require Import Prelude Bits Insn Mem State Alu.
#[local] Open Scope Z_scope.

(** * Partial operators of C *)

(** [int64_t] multiplication, [int32_t] and [uint32_t] division and remainder; the
    shifts are [c_shl] and [c_shr]. *)
Definition c_mul64 (a b : Z) : option Z :=
  let p := a * b in if (- 2 ^ 63 <=? p) && (p <? 2 ^ 63) then Some p else None.
Definition c_div32 (a b : Z) : option Z :=
  if (b =? 0) || ((a =? - 2 ^ 31) && (b =? -1)) then None else Some (Z.quot a b).
Definition c_rem32 (a b : Z) : option Z :=
  if (b =? 0) || ((a =? - 2 ^ 31) && (b =? -1)) then None else Some (Z.rem a b).
Definition c_divu32 (a b : Z) : option Z := if b =? 0 then None else Some (Z.quot a b).
Definition c_remu32 (a b : Z) : option Z := if b =? 0 then None else Some (Z.rem a b).

(** * What is known of the registers *)

Record constopt_info_t : Type := mk_constopt_info {
  is_constant : list bool; (* bool is_constant[N_RV_REGS] *)
  const_val : list Z; (* uint32_t const_val[N_RV_REGS] *)
}.

(** [info->is_constant[r]], [info->const_val[r]] and their assignments. *)
Definition known (info : constopt_info_t) (r : Z) : bool := info.(is_constant) !!! Z.to_nat r.
Definition value (info : constopt_info_t) (r : Z) : Z := info.(const_val) !!! Z.to_nat r.
Definition set_known (r : Z) (b : bool) (info : constopt_info_t) : constopt_info_t :=
  mk_constopt_info (<[Z.to_nat r := b]> info.(is_constant)) info.(const_val).
Definition set_value (r v : Z) (info : constopt_info_t) : constopt_info_t :=
  mk_constopt_info info.(is_constant) (<[Z.to_nat r := v]> info.(const_val)).

Definition constopt_func_t : Type :=
  rv_insn_t -> constopt_info_t -> option (rv_insn_t * constopt_info_t).

(** [ir->opcode = op; ir->impl = dispatch_table[ir->opcode]]. *)
Definition replace (o : opcode_t) (ir : rv_insn_t) : rv_insn_t :=
  set_impl (dispatch_table o) (set_opcode o ir).

(** [is_constant[rd] = true; ir->imm = v; const_val[rd] = ir->imm] and the
    replacement by a load of the immediate. *)
Definition load_const (o : opcode_t) (v : Z) : constopt_func_t := fun ir info =>
  let ir := set_imm (i32 v) ir in
  let info := set_value ir.(rd) (u32 ir.(imm)) (set_known ir.(rd) true info) in
  Some (replace o ir, info).

(** [info->is_constant[ir->rd] = false]. *)
Definition forget_rd : constopt_func_t := fun ir info =>
  Some (ir, set_known ir.(rd) false info).

(** [if (ir->rd) info->is_constant[ir->rd] = false]. *)
Definition forget_rd_nz : constopt_func_t := fun ir info =>
  Some (ir, if truthy ir.(rd) then set_known ir.(rd) false info else info).

(** [{}]. *)
Definition unchanged : constopt_func_t := fun ir info => Some (ir, info).

(** * RV32I *)

Definition constopt_lui : constopt_func_t := fun ir info =>
  Some (ir, set_value ir.(rd) (u32 ir.(imm)) (set_known ir.(rd) true info)).

Definition constopt_auipc : constopt_func_t := fun ir info =>
  load_const rv_insn_lui (add32 ir.(imm) ir.(pc)) ir info.

(** The link register of [jal] and [jalr]. *)
Definition link_rd : constopt_func_t := fun ir info =>
  Some (ir, if truthy ir.(rd)
            then set_value ir.(rd) (add32 ir.(pc) 4) (set_known ir.(rd) true info) else info).

Definition constopt_jal : constopt_func_t := link_rd.
Definition constopt_jalr : constopt_func_t := link_rd.

(** [untaken x y]: the branch falls through. *)
Definition OPT_BRANCH_FUNC (untaken : Z -> Z -> bool) : constopt_func_t := fun ir info =>
  if known info ir.(rs1) && known info ir.(rs2) then
    let ir := if untaken (value info ir.(rs1)) (value info ir.(rs2)) then set_imm 4 ir else ir in
    Some (replace rv_insn_jal ir, info)
  else Some (ir, info).

Definition constopt_beq : constopt_func_t := OPT_BRANCH_FUNC (fun x y => negb (x =? y)).
Definition constopt_bne : constopt_func_t := OPT_BRANCH_FUNC (fun x y => x =? y).
Definition constopt_blt : constopt_func_t := OPT_BRANCH_FUNC (fun x y => i32 x >=? i32 y).
Definition constopt_bge : constopt_func_t := OPT_BRANCH_FUNC (fun x y => i32 x <? i32 y).
Definition constopt_bltu : constopt_func_t := OPT_BRANCH_FUNC (fun x y => x >=? y).
Definition constopt_bgeu : constopt_func_t := OPT_BRANCH_FUNC (fun x y => x <? y).

(** An operation of a known register and the immediate. *)
Definition opt_imm (o : opcode_t) (f : Z -> Z -> option Z) : constopt_func_t := fun ir info =>
  if known info ir.(rs1) then
    let? v := f (value info ir.(rs1)) ir.(imm) in
    load_const o v ir info
  else forget_rd ir info.

(** An operation of two known registers. *)
Definition opt_reg (o : opcode_t) (f : Z -> Z -> option Z) : constopt_func_t := fun ir info =>
  if known info ir.(rs1) && known info ir.(rs2) then
    let? v := f (value info ir.(rs1)) (value info ir.(rs2)) in
    load_const o v ir info
  else forget_rd ir info.

Definition constopt_addi : constopt_func_t := opt_imm rv_insn_lui (fun x imm => Some (add32 imm x)).
Definition constopt_slti : constopt_func_t := opt_imm rv_insn_lui (fun x imm => Some (if i32 x <? imm then 1 else 0)).
Definition constopt_sltiu : constopt_func_t := opt_imm rv_insn_lui (fun x imm => Some (if x <? u32 imm then 1 else 0)).
Definition constopt_xori : constopt_func_t := opt_imm rv_insn_lui (fun x imm => Some (u32 imm .^ x)).
Definition constopt_ori : constopt_func_t := opt_imm rv_insn_lui (fun x imm => Some (u32 imm .| x)).
Definition constopt_andi : constopt_func_t := opt_imm rv_insn_lui (fun x imm => Some (u32 imm .& x)).
Definition constopt_slli : constopt_func_t := opt_imm rv_insn_lui (fun x imm => c_shl x (imm .& 0x1f)).
Definition constopt_srli : constopt_func_t := opt_imm rv_insn_lui (fun x imm => c_shr x (imm .& 0x1f)).
Definition constopt_srai : constopt_func_t := opt_imm rv_insn_lui (fun x imm => c_shr (i32 x) (imm .& 0x1f)).

Definition constopt_add : constopt_func_t := opt_reg rv_insn_lui (fun x y => Some (add32 x y)).
Definition constopt_sub : constopt_func_t := opt_reg rv_insn_lui (fun x y => Some (sub32 x y)).
Definition constopt_sll : constopt_func_t := opt_reg rv_insn_lui (fun x y => c_shl x (y .& 0x1f)).
Definition constopt_slt : constopt_func_t := opt_reg rv_insn_lui (fun x y => Some (if i32 x <? i32 y then 1 else 0)).
Definition constopt_sltu : constopt_func_t := opt_reg rv_insn_lui (fun x y => Some (if x <? y then 1 else 0)).
Definition constopt_xor : constopt_func_t := opt_reg rv_insn_lui (fun x y => Some (i32 x .^ i32 y)).
Definition constopt_srl : constopt_func_t := opt_reg rv_insn_lui (fun x y => c_shr x (y .& 0x1f)).
Definition constopt_sra : constopt_func_t := opt_reg rv_insn_lui (fun x y => c_shr (i32 x) (y .& 0x1f)).
Definition constopt_or : constopt_func_t := opt_reg rv_insn_lui (fun x y => Some (i32 x .| i32 y)).
Definition constopt_and : constopt_func_t := opt_reg rv_insn_lui (fun x y => Some (i32 x .& i32 y)).

(** * RV32M *)

Definition constopt_mul : constopt_func_t := opt_reg rv_insn_lui (fun x y =>
  let? p := c_mul64 (i32 x) (i32 y) in
  Some (u64 p .& ((1 ≪ 32) - 1))).
Definition constopt_mulh : constopt_func_t := opt_reg rv_insn_lui (fun x y =>
  let? p := c_mul64 (i32 x) (i32 y) in
  Some (u64 p ≫ 32)).
Definition constopt_mulhsu : constopt_func_t := opt_reg rv_insn_lui (fun x y =>
  let? p := c_mul64 (i32 x) y in
  Some (u64 p ≫ 32)).

(** Both operands are converted to [int64_t], so that the product can overflow. *)
Definition constopt_mulhu : constopt_func_t := opt_reg rv_insn_lui (fun x y =>
  let? p := c_mul64 x y in
  Some (p ≫ 32)).

Definition constopt_div : constopt_func_t := opt_reg rv_insn_lui (fun x y =>
  let dividend := i32 x in
  let divisor := i32 y in
  if divisor =? 0 then Some (not32 0)
  else if (divisor =? -1) && (x =? 0x80000000) then Some x
  else
    let? q := c_div32 dividend divisor in
    Some (u32 q)).
Definition constopt_divu : constopt_func_t := opt_reg rv_insn_lui (fun x y =>
  if y =? 0 then Some (not32 0) else c_divu32 x y).
Definition constopt_rem : constopt_func_t := opt_reg rv_insn_lui (fun x y =>
  let dividend := i32 x in
  let divisor := i32 y in
  if divisor =? 0 then Some dividend
  else if (divisor =? -1) && (x =? 0x80000000) then Some 0
  else c_rem32 dividend divisor).
Definition constopt_remu : constopt_func_t := opt_reg rv_insn_lui (fun x y =>
  if y =? 0 then Some x else c_remu32 x y).

(** * RV32C *)

Definition constopt_caddi4spn : constopt_func_t := fun ir info =>
  if known info rv_reg_sp
  then load_const rv_insn_clui (add32 (value info rv_reg_sp) (u16 ir.(imm))) ir info
  else forget_rd ir info.

(** [ir->imm = v; const_val[r] = ir->imm; ir->rd = r]: the register is known
    already and is both source and destination. *)
Definition update_const (r v : Z) : constopt_func_t := fun ir info =>
  let ir := set_imm (i32 v) ir in
  let info := set_value r (u32 ir.(imm)) info in
  Some (replace rv_insn_clui (set_rd r ir), info).

Definition constopt_caddi : constopt_func_t := fun ir info =>
  if known info ir.(rd)
  then update_const ir.(rd) (add32 (value info ir.(rd)) (i16 ir.(imm))) ir info
  else Some (ir, info).

Definition constopt_cjal : constopt_func_t := fun ir info =>
  Some (ir, set_value rv_reg_ra (add32 ir.(pc) 2) (set_known rv_reg_ra true info)).

Definition constopt_cli : constopt_func_t := fun ir info =>
  Some (ir, set_value ir.(rd) (u32 ir.(imm)) (set_known ir.(rd) true info)).

Definition constopt_caddi16sp : constopt_func_t := fun ir info =>
  if known info ir.(rd)
  then update_const ir.(rd) (add32 (value info ir.(rd)) ir.(imm)) ir info
  else Some (ir, info).

Definition constopt_clui : constopt_func_t := fun ir info =>
  Some (ir, set_value ir.(rd) (u32 ir.(imm)) (set_known ir.(rd) true info)).

Definition constopt_csrli : constopt_func_t := fun ir info =>
  if known info ir.(rs1) then
    let? v := c_shr (value info ir.(rs1)) ir.(shamt) in
    update_const ir.(rs1) v ir info
  else Some (ir, info).

(** [imm |= mask >> i] for [i = 0 .. shamt-1], on the [int32_t] immediate. *)
Definition constopt_csrai : constopt_func_t := fun ir info =>
  if known info ir.(rs1) then
    let mask := 0x80000000 .& value info ir.(rs1) in
    let? v := c_shr (value info ir.(rs1)) ir.(shamt) in
    let v := fold_left (fun imm i => i32 (u32 imm .| (mask ≫ i))) (seqZ 0 ir.(shamt)) (i32 v) in
    update_const ir.(rs1) v ir info
  else Some (ir, info).

Definition constopt_candi : constopt_func_t := fun ir info =>
  if known info ir.(rs1)
  then update_const ir.(rs1) (value info ir.(rs1) .& u32 ir.(imm)) ir info
  else Some (ir, info).

Definition constopt_csub : constopt_func_t := opt_reg rv_insn_clui (fun x y => Some (sub32 x y)).
Definition constopt_cxor : constopt_func_t := opt_reg rv_insn_clui (fun x y => Some (x .^ y)).
Definition constopt_cor : constopt_func_t := opt_reg rv_insn_clui (fun x y => Some (x .| y)).
Definition constopt_cand : constopt_func_t := opt_reg rv_insn_clui (fun x y => Some (x .& y)).
Definition constopt_cadd : constopt_func_t := opt_reg rv_insn_clui (fun x y => Some (add32 x y)).

(** A compressed branch on a known register. *)
Definition opt_cbranch (untaken : Z -> bool) : constopt_func_t := fun ir info =>
  if known info ir.(rs1) then
    let ir := if untaken (value info ir.(rs1)) then set_imm 2 ir else ir in
    Some (replace rv_insn_cj ir, info)
  else Some (ir, info).

Definition constopt_cbeqz : constopt_func_t := opt_cbranch truthy.
Definition constopt_cbnez : constopt_func_t := opt_cbranch (fun x => negb (truthy x)).

Definition constopt_cslli : constopt_func_t := fun ir info =>
  if known info ir.(rd) then
    let? v := c_shl (value info ir.(rd)) (u8 ir.(imm)) in
    update_const ir.(rd) v ir info
  else Some (ir, info).

Definition constopt_cmv : constopt_func_t := fun ir info =>
  if known info ir.(rs2) then load_const rv_insn_clui (value info ir.(rs2)) ir info
  else forget_rd ir info.

(** The value is stored for [rd], which C.JALR does not have, not for ra. *)
Definition constopt_cjalr : constopt_func_t := fun ir info =>
  Some (ir, set_value ir.(rd) (add32 ir.(pc) 2) (set_known rv_reg_ra true info)).

(** * Instructions that are not optimised *)

Definition constopt_nop : constopt_func_t := unchanged.
Definition constopt_lb : constopt_func_t := forget_rd.
Definition constopt_lh : constopt_func_t := forget_rd.
Definition constopt_lw : constopt_func_t := forget_rd.
Definition constopt_lbu : constopt_func_t := forget_rd.
Definition constopt_lhu : constopt_func_t := forget_rd.
Definition constopt_sb : constopt_func_t := unchanged.
Definition constopt_sh : constopt_func_t := unchanged.
Definition constopt_sw : constopt_func_t := unchanged.
Definition constopt_fence : constopt_func_t := unchanged.
Definition constopt_ecall : constopt_func_t := unchanged.
Definition constopt_ebreak : constopt_func_t := unchanged.
Definition constopt_wfi : constopt_func_t := unchanged.
Definition constopt_uret : constopt_func_t := unchanged.
Definition constopt_hret : constopt_func_t := unchanged.
Definition constopt_mret : constopt_func_t := unchanged.
Definition constopt_sfencevma : constopt_func_t := unchanged.
Definition constopt_fencei : constopt_func_t := unchanged.
Definition constopt_csrrw : constopt_func_t := forget_rd.
Definition constopt_csrrs : constopt_func_t := forget_rd.
Definition constopt_csrrc : constopt_func_t := forget_rd.
Definition constopt_csrrwi : constopt_func_t := forget_rd.
Definition constopt_csrrsi : constopt_func_t := forget_rd.
Definition constopt_csrrci : constopt_func_t := forget_rd.
Definition constopt_lrw : constopt_func_t := forget_rd_nz.
Definition constopt_scw : constopt_func_t := unchanged.
Definition constopt_amoswapw : constopt_func_t := forget_rd_nz.
Definition constopt_amoaddw : constopt_func_t := forget_rd_nz.
Definition constopt_amoxorw : constopt_func_t := forget_rd_nz.
Definition constopt_amoandw : constopt_func_t := forget_rd_nz.
Definition constopt_amoorw : constopt_func_t := forget_rd_nz.
Definition constopt_amominw : constopt_func_t := forget_rd_nz.
Definition constopt_amomaxw : constopt_func_t := forget_rd_nz.
Definition constopt_amominuw : constopt_func_t := forget_rd_nz.
Definition constopt_amomaxuw : constopt_func_t := forget_rd_nz.
Definition constopt_flw : constopt_func_t := unchanged.
Definition constopt_fsw : constopt_func_t := unchanged.
Definition constopt_fmadds : constopt_func_t := unchanged.
Definition constopt_fmsubs : constopt_func_t := unchanged.
Definition constopt_fnmsubs : constopt_func_t := unchanged.
Definition constopt_fnmadds : constopt_func_t := unchanged.
Definition constopt_fadds : constopt_func_t := unchanged.
Definition constopt_fsubs : constopt_func_t := unchanged.
Definition constopt_fmuls : constopt_func_t := unchanged.
Definition constopt_fdivs : constopt_func_t := unchanged.
Definition constopt_fsqrts : constopt_func_t := unchanged.
Definition constopt_fsgnjs : constopt_func_t := unchanged.
Definition constopt_fsgnjns : constopt_func_t := unchanged.
Definition constopt_fsgnjxs : constopt_func_t := unchanged.
Definition constopt_fmins : constopt_func_t := unchanged.
Definition constopt_fmaxs : constopt_func_t := unchanged.
Definition constopt_fcvtws : constopt_func_t := forget_rd_nz.
Definition constopt_fcvtwus : constopt_func_t := forget_rd_nz.
Definition constopt_fmvxw : constopt_func_t := forget_rd_nz.
Definition constopt_feqs : constopt_func_t := forget_rd_nz.
Definition constopt_flts : constopt_func_t := forget_rd_nz.
Definition constopt_fles : constopt_func_t := forget_rd_nz.
Definition constopt_fclasss : constopt_func_t := forget_rd_nz.
Definition constopt_fcvtsw : constopt_func_t := unchanged.
Definition constopt_fcvtswu : constopt_func_t := unchanged.
Definition constopt_fmvwx : constopt_func_t := unchanged.
Definition constopt_clw : constopt_func_t := forget_rd.
Definition constopt_csw : constopt_func_t := unchanged.
Definition constopt_cnop : constopt_func_t := unchanged.
Definition constopt_cj : constopt_func_t := unchanged.
Definition constopt_clwsp : constopt_func_t := forget_rd.
Definition constopt_cjr : constopt_func_t := unchanged.
Definition constopt_cebreak : constopt_func_t := unchanged.
Definition constopt_cswsp : constopt_func_t := unchanged.
Definition constopt_cflwsp : constopt_func_t := unchanged.
Definition constopt_cfswsp : constopt_func_t := unchanged.
Definition constopt_cflw : constopt_func_t := unchanged.
Definition constopt_cfsw : constopt_func_t := unchanged.
Definition constopt_sh1add : constopt_func_t := forget_rd_nz.
Definition constopt_sh2add : constopt_func_t := forget_rd_nz.
Definition constopt_sh3add : constopt_func_t := forget_rd_nz.
Definition constopt_andn : constopt_func_t := forget_rd_nz.
Definition constopt_orn : constopt_func_t := forget_rd_nz.
Definition constopt_xnor : constopt_func_t := forget_rd_nz.
Definition constopt_clz : constopt_func_t := forget_rd_nz.
Definition constopt_ctz : constopt_func_t := forget_rd_nz.
Definition constopt_cpop : constopt_func_t := forget_rd_nz.
Definition constopt_max : constopt_func_t := forget_rd_nz.
Definition constopt_maxu : constopt_func_t := forget_rd_nz.
Definition constopt_min : constopt_func_t := forget_rd_nz.
Definition constopt_minu : constopt_func_t := forget_rd_nz.
Definition constopt_sextb : constopt_func_t := forget_rd_nz.
Definition constopt_sexth : constopt_func_t := forget_rd_nz.
Definition constopt_zexth : constopt_func_t := forget_rd_nz.
Definition constopt_rol : constopt_func_t := forget_rd_nz.
Definition constopt_ror : constopt_func_t := forget_rd_nz.
Definition constopt_rori : constopt_func_t := forget_rd_nz.
Definition constopt_orcb : constopt_func_t := forget_rd_nz.
Definition constopt_rev8 : constopt_func_t := forget_rd_nz.
Definition constopt_clmul : constopt_func_t := forget_rd_nz.
Definition constopt_clmulh : constopt_func_t := forget_rd_nz.
Definition constopt_clmulr : constopt_func_t := forget_rd_nz.
Definition constopt_bclr : constopt_func_t := forget_rd_nz.
Definition constopt_bclri : constopt_func_t := forget_rd_nz.
Definition constopt_bext : constopt_func_t := forget_rd_nz.
Definition constopt_bexti : constopt_func_t := forget_rd_nz.
Definition constopt_binv : constopt_func_t := forget_rd_nz.
Definition constopt_binvi : constopt_func_t := forget_rd_nz.
Definition constopt_bset : constopt_func_t := forget_rd_nz.
Definition constopt_bseti : constopt_func_t := forget_rd_nz.

(** * The pass *)

(** [constopt_table]; it has no entry for the fused opcodes, which are made
    by a later pass. *)
Definition constopt_table (o : opcode_t) : constopt_func_t :=
  match o with
  | rv_insn_nop => constopt_nop | rv_insn_lui => constopt_lui | rv_insn_auipc => constopt_auipc
  | rv_insn_jal => constopt_jal | rv_insn_jalr => constopt_jalr | rv_insn_beq => constopt_beq
  | rv_insn_bne => constopt_bne | rv_insn_blt => constopt_blt | rv_insn_bge => constopt_bge
  | rv_insn_bltu => constopt_bltu | rv_insn_bgeu => constopt_bgeu | rv_insn_lb => constopt_lb
  | rv_insn_lh => constopt_lh | rv_insn_lw => constopt_lw | rv_insn_lbu => constopt_lbu
  | rv_insn_lhu => constopt_lhu | rv_insn_sb => constopt_sb | rv_insn_sh => constopt_sh
  | rv_insn_sw => constopt_sw | rv_insn_addi => constopt_addi | rv_insn_slti => constopt_slti
  | rv_insn_sltiu => constopt_sltiu | rv_insn_xori => constopt_xori | rv_insn_ori => constopt_ori
  | rv_insn_andi => constopt_andi | rv_insn_slli => constopt_slli | rv_insn_srli => constopt_srli
  | rv_insn_srai => constopt_srai | rv_insn_add => constopt_add | rv_insn_sub => constopt_sub
  | rv_insn_sll => constopt_sll | rv_insn_slt => constopt_slt | rv_insn_sltu => constopt_sltu
  | rv_insn_xor => constopt_xor | rv_insn_srl => constopt_srl | rv_insn_sra => constopt_sra
  | rv_insn_or => constopt_or | rv_insn_and => constopt_and | rv_insn_fence => constopt_fence
  | rv_insn_ecall => constopt_ecall | rv_insn_ebreak => constopt_ebreak
  | rv_insn_wfi => constopt_wfi | rv_insn_uret => constopt_uret | rv_insn_hret => constopt_hret
  | rv_insn_mret => constopt_mret | rv_insn_sfencevma => constopt_sfencevma
  | rv_insn_fencei => constopt_fencei | rv_insn_csrrw => constopt_csrrw
  | rv_insn_csrrs => constopt_csrrs | rv_insn_csrrc => constopt_csrrc
  | rv_insn_csrrwi => constopt_csrrwi | rv_insn_csrrsi => constopt_csrrsi
  | rv_insn_csrrci => constopt_csrrci | rv_insn_mul => constopt_mul
  | rv_insn_mulh => constopt_mulh | rv_insn_mulhsu => constopt_mulhsu
  | rv_insn_mulhu => constopt_mulhu | rv_insn_div => constopt_div | rv_insn_divu => constopt_divu
  | rv_insn_rem => constopt_rem | rv_insn_remu => constopt_remu | rv_insn_lrw => constopt_lrw
  | rv_insn_scw => constopt_scw | rv_insn_amoswapw => constopt_amoswapw
  | rv_insn_amoaddw => constopt_amoaddw | rv_insn_amoxorw => constopt_amoxorw
  | rv_insn_amoandw => constopt_amoandw | rv_insn_amoorw => constopt_amoorw
  | rv_insn_amominw => constopt_amominw | rv_insn_amomaxw => constopt_amomaxw
  | rv_insn_amominuw => constopt_amominuw | rv_insn_amomaxuw => constopt_amomaxuw
  | rv_insn_flw => constopt_flw | rv_insn_fsw => constopt_fsw | rv_insn_fmadds => constopt_fmadds
  | rv_insn_fmsubs => constopt_fmsubs | rv_insn_fnmsubs => constopt_fnmsubs
  | rv_insn_fnmadds => constopt_fnmadds | rv_insn_fadds => constopt_fadds
  | rv_insn_fsubs => constopt_fsubs | rv_insn_fmuls => constopt_fmuls
  | rv_insn_fdivs => constopt_fdivs | rv_insn_fsqrts => constopt_fsqrts
  | rv_insn_fsgnjs => constopt_fsgnjs | rv_insn_fsgnjns => constopt_fsgnjns
  | rv_insn_fsgnjxs => constopt_fsgnjxs | rv_insn_fmins => constopt_fmins
  | rv_insn_fmaxs => constopt_fmaxs | rv_insn_fcvtws => constopt_fcvtws
  | rv_insn_fcvtwus => constopt_fcvtwus | rv_insn_fmvxw => constopt_fmvxw
  | rv_insn_feqs => constopt_feqs | rv_insn_flts => constopt_flts | rv_insn_fles => constopt_fles
  | rv_insn_fclasss => constopt_fclasss | rv_insn_fcvtsw => constopt_fcvtsw
  | rv_insn_fcvtswu => constopt_fcvtswu | rv_insn_fmvwx => constopt_fmvwx
  | rv_insn_caddi4spn => constopt_caddi4spn | rv_insn_clw => constopt_clw
  | rv_insn_csw => constopt_csw | rv_insn_cnop => constopt_cnop | rv_insn_caddi => constopt_caddi
  | rv_insn_cjal => constopt_cjal | rv_insn_cli => constopt_cli
  | rv_insn_caddi16sp => constopt_caddi16sp | rv_insn_clui => constopt_clui
  | rv_insn_csrli => constopt_csrli | rv_insn_csrai => constopt_csrai
  | rv_insn_candi => constopt_candi | rv_insn_csub => constopt_csub
  | rv_insn_cxor => constopt_cxor | rv_insn_cor => constopt_cor | rv_insn_cand => constopt_cand
  | rv_insn_cj => constopt_cj | rv_insn_cbeqz => constopt_cbeqz | rv_insn_cbnez => constopt_cbnez
  | rv_insn_cslli => constopt_cslli | rv_insn_clwsp => constopt_clwsp
  | rv_insn_cjr => constopt_cjr | rv_insn_cmv => constopt_cmv
  | rv_insn_cebreak => constopt_cebreak | rv_insn_cjalr => constopt_cjalr
  | rv_insn_cadd => constopt_cadd | rv_insn_cswsp => constopt_cswsp
  | rv_insn_cflwsp => constopt_cflwsp | rv_insn_cfswsp => constopt_cfswsp
  | rv_insn_cflw => constopt_cflw | rv_insn_cfsw => constopt_cfsw
  | rv_insn_sh1add => constopt_sh1add | rv_insn_sh2add => constopt_sh2add
  | rv_insn_sh3add => constopt_sh3add | rv_insn_andn => constopt_andn
  | rv_insn_orn => constopt_orn | rv_insn_xnor => constopt_xnor | rv_insn_clz => constopt_clz
  | rv_insn_ctz => constopt_ctz | rv_insn_cpop => constopt_cpop | rv_insn_max => constopt_max
  | rv_insn_maxu => constopt_maxu | rv_insn_min => constopt_min | rv_insn_minu => constopt_minu
  | rv_insn_sextb => constopt_sextb | rv_insn_sexth => constopt_sexth
  | rv_insn_zexth => constopt_zexth | rv_insn_rol => constopt_rol | rv_insn_ror => constopt_ror
  | rv_insn_rori => constopt_rori | rv_insn_orcb => constopt_orcb | rv_insn_rev8 => constopt_rev8
  | rv_insn_clmul => constopt_clmul | rv_insn_clmulh => constopt_clmulh
  | rv_insn_clmulr => constopt_clmulr | rv_insn_bclr => constopt_bclr
  | rv_insn_bclri => constopt_bclri | rv_insn_bext => constopt_bext
  | rv_insn_bexti => constopt_bexti | rv_insn_binv => constopt_binv
  | rv_insn_binvi => constopt_binvi | rv_insn_bset => constopt_bset
  | rv_insn_bseti => constopt_bseti
  | _ => fun _ _ => None
  end.

(** [constopt_info_t info = {.is_constant[0] = true}]. *)
Definition constopt_info_0 : constopt_info_t :=
  mk_constopt_info (<[0%nat := true]> (replicate 32 false)) (replicate 32 0).

(** The loop over the instructions of a block. *)
Fixpoint optimize_irs (irs : list rv_insn_t) (info : constopt_info_t) : option (list rv_insn_t) :=
  match irs with
  | [] => Some []
  | ir :: irs' =>
      let? (ir, info) := constopt_table ir.(opcode) ir info in
      let? irs' := optimize_irs irs' info in
      Some (ir :: irs')
  end.

(** [None] is also the failed [assert(rv->X[0] == 0)]. *)
Definition optimize_constant (rv : riscv) (irs : list rv_insn_t) : option (list rv_insn_t) :=
  if xreg rv rv_reg_zero =? 0 then optimize_irs irs constopt_info_0 else None.
