(* ===== verification/Fusion.v ===== *)
(** Macro-operation fusion ([match_pattern] of emulate.c and its helpers).

    The pass walks over the instructions of a block and replaces sequences by
    one fused instruction.  Allocation of the copied sequence does not fail in
    the model. *)

From stdpp Require Import base list option numbers gmap.
From Stdlib Require Import ZArith Lia Bool.
From S2P Require Import Prelude Bits Insn.
#[local] Open Scope Z_scope.

(** [IF_insn(ir, o)]. *)
Definition IF_insn (ir : rv_insn_t) (o : opcode_t) : bool := opcode_eqb ir.(opcode) o.

(** [remove_next_nth_ir(rv, ir, block, n)] on the instructions after [ir]; [n]
    is a [uint8_t]. *)
Definition remove_next_nth_ir (rest : list rv_insn_t) (n : Z) : list rv_insn_t :=
  drop (Z.to_nat (u8 n)) rest.

(** Both counting loops: one more than the number of instructions after [ir]
    with the property. *)
Fixpoint count_while (p : rv_insn_t -> bool) (rest : list rv_insn_t) : Z :=
  match rest with
  | [] => 0
  | next :: rest' => if p next then 1 + count_while p rest' else 0
  end.

Definition count_consecutive_insn (rest : list rv_insn_t) (o : opcode_t) : Z :=
  1 + count_while (fun ir => IF_insn ir o) rest.

Definition is_shift_imm (ir : rv_insn_t) : bool :=
  IF_insn ir rv_insn_slli || IF_insn ir rv_insn_srli || IF_insn ir rv_insn_srai.

Definition count_consecutive_shift (rest : list rv_insn_t) : Z := 1 + count_while is_shift_imm rest.

(** [memcpy(fuse, ir, sizeof(opcode_fuse_t))]. *)
Definition fuse_copy (ir : rv_insn_t) : opcode_fuse_t :=
  mk_opcode_fuse ir.(imm) ir.(rd) ir.(rs1) ir.(rs2) ir.(opcode).

(** [ir->opcode = o; ir->impl = dispatch_table[ir->opcode]]. *)
Definition refuse (o : opcode_t) (ir : rv_insn_t) : rv_insn_t :=
  set_impl (dispatch_table o) (set_opcode o ir).

(** The new instruction and the instructions left after it. *)
Definition try_fuse_sequence (ir : rv_insn_t) (rest : list rv_insn_t) (count : Z) (o : opcode_t)
  : rv_insn_t * list rv_insn_t :=
  if count <=? 1 then (ir, rest)
  else
    let data := fuse_copy ir :: (fuse_copy <$> take (Z.to_nat (count - 1)) rest) in
    (refuse o (set_imm2 count (set_fuse (Some data) ir)), remove_next_nth_ir rest (count - 1)).

(** One iteration of [match_pattern] at an instruction with a successor. *)
Definition fuse_at (ir next : rv_insn_t) (rest : list rv_insn_t) : rv_insn_t * list rv_insn_t :=
  let all := next :: rest in
  let keep := (ir, all) in
  match ir.(opcode) with
  | rv_insn_lui =>
      match next.(opcode) with
      | rv_insn_add =>
          if (ir.(rd) =? next.(rs2)) || (ir.(rd) =? next.(rs1)) then
            let ir' := set_rs2 next.(rd) ir in
            let ir' := set_rs1 (if ir.(rd) =? next.(rs2) then next.(rs1) else next.(rs2)) ir' in
            (refuse rv_insn_fuse2 ir', remove_next_nth_ir all 1)
          else keep
      | rv_insn_addi =>
          if negb (ir.(rd) =? rv_reg_zero) && (ir.(rd) =? next.(rs1)) && (ir.(rd) =? next.(rd)) then
            (refuse rv_insn_fuse8 (set_imm2 next.(imm) ir), remove_next_nth_ir all 1)
          else keep
      | rv_insn_lw =>
          if negb (ir.(rd) =? rv_reg_zero) && (ir.(rd) =? next.(rs1)) then
            (refuse rv_insn_fuse9 (set_rs2 next.(rd) (set_imm2 next.(imm) ir)),
             remove_next_nth_ir all 1)
          else keep
      | rv_insn_sw =>
          if negb (ir.(rd) =? rv_reg_zero) && (ir.(rd) =? next.(rs1)) then
            (refuse rv_insn_fuse10 (set_rs1 next.(rs2) (set_imm2 next.(imm) ir)),
             remove_next_nth_ir all 1)
          else keep
      | rv_insn_lui =>
          try_fuse_sequence ir all (count_consecutive_insn all rv_insn_lui) rv_insn_fuse1
      | _ => keep
      end
  | rv_insn_sw => try_fuse_sequence ir all (count_consecutive_insn all rv_insn_sw) rv_insn_fuse3
  | rv_insn_lw =>
      if IF_insn next rv_insn_addi && (ir.(rs1) =? next.(rs1)) && (next.(rs1) =? next.(rd))
         && negb (ir.(rd) =? ir.(rs1))
      then (refuse rv_insn_fuse11 (set_imm2 next.(imm) ir), remove_next_nth_ir all 1)
      else try_fuse_sequence ir all (count_consecutive_insn all rv_insn_lw) rv_insn_fuse4
  | rv_insn_slli | rv_insn_srli | rv_insn_srai =>
      try_fuse_sequence ir all (count_consecutive_shift all) rv_insn_fuse5
  | rv_insn_addi =>
      if (ir.(rd) =? rv_reg_a7) && (ir.(rs1) =? rv_reg_zero) && IF_insn next rv_insn_ecall then
        (refuse rv_insn_fuse6 ir, remove_next_nth_ir all 1)
      else if IF_insn next rv_insn_bne && negb (ir.(rd) =? rv_reg_zero)
              && (ir.(rd) =? next.(rs1)) && (next.(rs2) =? rv_reg_zero) then
        let ir := refuse rv_insn_fuse12 (set_imm2 next.(imm) ir) in
        let ir := set_branch_untaken next.(branch_untaken) (set_branch_taken next.(branch_taken) ir) in
        (ir, remove_next_nth_ir all 1)
      else try_fuse_sequence ir all (count_consecutive_insn all rv_insn_addi) rv_insn_fuse7
  | _ => keep
  end.

(** The loop: [i < n_insn - 1] says that the instruction has a successor.  The
    fuel bounds the number of iterations; a block of [n] instructions takes
    less than [n]. *)
Fixpoint match_loop (fuel : nat) (irs : list rv_insn_t) : option (list rv_insn_t) :=
  match irs with
  | [] | [_] => Some irs
  | ir :: next :: rest =>
      match fuel with
      | O => None
      | S fuel =>
          let (ir', rest') := fuse_at ir next rest in
          let? l := match_loop fuel rest' in
          Some (ir' :: l)
      end
  end.

Definition match_pattern (irs : list rv_insn_t) : option (list rv_insn_t) :=
  match_loop (length irs) irs.
