(* ===== verification/Block.v ===== *)
(** Basic blocks: translation from guest memory and the block map (emulate.c,
    riscv.c, utils.h).

    A block holds its instructions in order; the [next] pointers are the
    positions in the list.  Allocation of blocks and instructions does not
    fail in the model. *)

From stdpp Require Import base list option numbers gmap.
From Stdlib Require Import ZArith Lia Bool.
From S2P Require Import Prelude Bits Insn Decode Mem State Trap.
#[local] Open Scope Z_scope.

(** * Kinds of branches *)

Definition insn_is_unconditional_branch (o : opcode_t) : bool :=
  match o with
  | rv_insn_ecall | rv_insn_ebreak | rv_insn_jal | rv_insn_jalr | rv_insn_mret | rv_insn_csrrw
  | rv_insn_cj | rv_insn_cjalr | rv_insn_cjal | rv_insn_cjr | rv_insn_cebreak => true
  | _ => false
  end.

Definition insn_is_direct_branch (o : opcode_t) : bool :=
  match o with
  | rv_insn_jal | rv_insn_cjal | rv_insn_cj => true
  | _ => false
  end.

Definition insn_is_indirect_branch (o : opcode_t) : bool :=
  match o with
  | rv_insn_jalr | rv_insn_cjalr | rv_insn_cjr => true
  | _ => false
  end.

(** * Translation *)

Record block_t : Type := mk_block {
  n_insn : Z;
  pc_start : Z;
  pc_end : Z;
  ir_list : list rv_insn_t; (* ir_head ... ir_tail *)
}.

(** The table of a new indirect jump: no target recorded, every PC is -1. *)
Definition bht_init : branch_history_table_t :=
  mk_bht (replicate (Z.to_nat HISTORY_SIZE) 0xffffffff) 0
    (replicate (Z.to_nat HISTORY_SIZE) None).

(** The loop of [block_translate] with the block's instructions so far.  [None]
    is a fetch outside of the memory, a failed assertion of the decoder, or no
    fuel left. *)
Fixpoint translate_loop (fuel : nat) (rv : riscv) (pc_end : Z) (irs : list rv_insn_t)
  : option (riscv * Z * list rv_insn_t) :=
  match fuel with
  | O => None
  | S fuel =>
      let? insn := memory_ifetch rv.(mem) pc_end in
      if insn =? 0 then Some (rv, pc_end, irs)
      else
        let? (ok, ir) := decode insn in
        if negb ok then
          let rv := set_compressed (is_compressed insn) rv in
          let? rv := SET_CAUSE_AND_TVAL_THEN_TRAP ILLEGAL_INSN insn rv in
          Some (rv, pc_end, irs)
        else
          let ir := set_impl (dispatch_table ir.(opcode)) ir in
          let ir := set_pc pc_end ir in
          let pc_end := add32 pc_end (if is_compressed insn then 2 else 4) in
          if insn_is_branch ir.(opcode) then
            let ir := if insn_is_indirect_branch ir.(opcode)
                      then set_branch_table (Some bht_init) ir else ir in
            Some (rv, pc_end, irs ++ [ir])
          else translate_loop fuel rv pc_end (irs ++ [ir])
  end.

(** [None] in the result: no instruction was decoded and the function returns
    false. *)
Definition block_translate (fuel : nat) (rv : riscv) : option (riscv * option block_t) :=
  let start := rv.(PC) in
  let? (rv, pc_end, irs) := translate_loop fuel rv start [] in
  match irs with
  | [] => Some (rv, None)
  | _ => Some (rv, Some (mk_block (Z.of_nat (length irs)) start pc_end irs))
  end.

(** * The block map

    An open-addressing hash table with linear probing.  A [block_t *] is the
    index of the block in the store of translated blocks. *)

Record block_map_t : Type := mk_block_map {
  block_capacity : Z; (* a power of two *)
  size : Z;
  map : list (option irptr); (* block_t *map[block_capacity] *)
}.

Definition BLOCK_MAP_CAPACITY_BITS : Z := 10.

Definition block_map_init (bits : Z) : block_map_t :=
  mk_block_map (1 ≪ bits) 0 (replicate (Z.to_nat (1 ≪ bits)) None).

(** [HASH_FUNC_IMPL(map_hash, ...)] on [uint32_t]; builds with JIT do not have the
    block map. *)
Definition map_hash (val : Z) : Z :=
  (u32 (val * 0x61C88647) ≫ (32 - BLOCK_MAP_CAPACITY_BITS)) .& ((1 ≪ BLOCK_MAP_CAPACITY_BITS) - 1).

(** [map->map[index & mask]]. *)
Definition slot (m : block_map_t) (index : Z) : nat := Z.to_nat (index .& (m.(block_capacity) - 1)).

(** The probing loops; [None] when the fuel runs out. *)
Fixpoint insert_probe (fuel : nat) (m : block_map_t) (index : Z) (b : irptr) : option block_map_t :=
  match fuel with
  | O => None
  | S fuel =>
      match m.(map) !!! slot m index with
      | None => Some (mk_block_map m.(block_capacity) (u32 (m.(size) + 1))
                        (<[slot m index := Some b]> m.(map)))
      | Some _ => insert_probe fuel m (u32 (index + 1)) b
      end
  end.

Section Store.
Context (blocks : list block_t).

Definition block_insert (fuel : nat) (m : block_map_t) (b : irptr) : option block_map_t :=
  let? blk := blocks !! b in
  insert_probe fuel m (map_hash blk.(pc_start)) b.

Fixpoint find_probe (fuel : nat) (m : block_map_t) (index addr : Z) : option (option irptr) :=
  match fuel with
  | O => None
  | S fuel =>
      match m.(map) !!! slot m index with
      | None => Some None
      | Some b =>
          let? blk := blocks !! b in
          if blk.(pc_start) =? addr then Some (Some b)
          else find_probe fuel m (u32 (index + 1)) addr
      end
  end.

Definition block_find (fuel : nat) (m : block_map_t) (addr : Z) : option (option irptr) :=
  find_probe fuel m (map_hash addr) addr.
End Store.

(** [block_map_clear]: every entry is emptied and every block freed. *)
Definition block_map_clear (m : block_map_t) : block_map_t :=
  mk_block_map m.(block_capacity) 0 (replicate (length m.(map)) None).

(** [map->size * 1.25 > map->block_capacity], in exact arithmetic. *)
Definition map_crowded (m : block_map_t) : bool := 4 * m.(block_capacity) <? 5 * m.(size).
