(* ===== verification/BlockSpec.v ===== *)
(** The block map is a finite map from start addresses to blocks, and
    translation yields the straight-line code at the program counter. *)

From stdpp Require Import base list option numbers gmap.
From Stdlib Require Import ZArith Lia Bool.
From S2P Require Import Prelude Bits Insn Decode DecodeWf Mem MemSpec State Trap Block Samples.
From S2P Require Import TrapSpec.
#[local] Open Scope Z_scope.

(** * The block map implements a finite map *)

Definition capacity : Z := 2 ^ BLOCK_MAP_CAPACITY_BITS.

(** The slot [k] places after the home slot of [addr]. *)
Definition probe (addr : Z) (k : nat) : nat := Z.to_nat ((map_hash addr + Z.of_nat k) mod capacity).

(** [m] holds the blocks of [g], each under its start address and reachable
    from its home slot without crossing an empty slot. *)
Record map_repr (blocks : list block_t) (m : block_map_t) (g : gmap Z irptr) : Prop := {
  mr_capacity : m.(block_capacity) = capacity;
  mr_length : Z.of_nat (length m.(map)) = capacity;
  mr_size : m.(size) = Z.of_nat (length (filter is_Some m.(map)));
  mr_sound : forall j b, m.(map) !! j = Some (Some b) ->
    exists blk, blocks !! b = Some blk /\ g !! blk.(pc_start) = Some b;
  mr_stored : forall addr b, g !! addr = Some b ->
    (exists blk, blocks !! b = Some blk /\ blk.(pc_start) = addr) /\
    exists d, Z.of_nat d < capacity /\ m.(map) !!! probe addr d = Some b /\
      forall k, (k < d)%nat -> m.(map) !!! probe addr k <> None;
}.

Lemma map_hash_range (addr : Z) : 0 <= map_hash addr < capacity.
Proof.
  unfold map_hash, capacity, BLOCK_MAP_CAPACITY_BITS.
  change ((1 ≪ 10) - 1) with (Z.ones 10). rewrite Z.land_ones by lia. by apply Z.mod_pos_bound.
Qed.

Lemma slot_probe (m : block_map_t) (addr : Z) (k : nat) :
  m.(block_capacity) = capacity -> Z.of_nat k < 2 ^ 16 ->
  slot m (u32 (map_hash addr + Z.of_nat k)) = probe addr k.
Proof.
  intros Hc Hk. unfold slot, probe. rewrite Hc. f_equal.
  pose proof (map_hash_range addr). unfold capacity, BLOCK_MAP_CAPACITY_BITS in *.
  rewrite u32_id by (unfold is_u32; lia). change (2 ^ 10 - 1) with (Z.ones 10).
  by rewrite Z.land_ones by lia.
Qed.

Lemma probe_lt (addr : Z) (k : nat) : Z.of_nat (probe addr k) < capacity.
Proof. unfold probe. pose proof (Z.mod_pos_bound (map_hash addr + Z.of_nat k) capacity ltac:(done)). lia. Qed.

(** Every slot is some number of places after the home slot. *)
Lemma probe_onto (addr : Z) (j : nat) :
  Z.of_nat j < capacity -> exists d, Z.of_nat d < capacity /\ probe addr d = j.
Proof.
  intros Hj. exists (Z.to_nat ((Z.of_nat j - map_hash addr) mod capacity)).
  pose proof (Z.mod_pos_bound (Z.of_nat j - map_hash addr) capacity ltac:(done)).
  split; [lia|]. unfold probe. rewrite Z2Nat.id by lia. rewrite Zplus_mod_idemp_r.
  replace (_ + _) with (Z.of_nat j) by lia. rewrite Z.mod_small by lia. lia.
Qed.

(** * Probing *)

(** The first place with a property. *)
Lemma first_place (P : nat -> Prop) `{forall k, Decision (P k)} (d : nat) :
  P d -> exists e, (e <= d)%nat /\ P e /\ forall k, (k < e)%nat -> ~ P k.
Proof.
  intros Hd. assert (Hs : (exists e, (e <= d)%nat /\ P e /\ forall k, (k < e)%nat -> ~ P k)
                         \/ forall k, (k <= d)%nat -> ~ P k).
  { clear Hd. induction d as [|d IH].
    - destruct (decide (P 0%nat)); [left; exists 0%nat|right; intros k ?; by replace k with 0%nat by lia].
      split; [lia|]. split; [done|lia].
    - destruct IH as [(e & ? & ?)|Hno]; [left; exists e; split; [lia|done]|].
      destruct (decide (P (S d))).
      + left. exists (S d). split; [lia|]. split; [done|]. intros k ?. apply Hno. lia.
      + right. intros k Hk. destruct (decide (k = S d)) as [->|]; [done|]. apply Hno. lia. }
  destruct Hs as [Hs|Hno]; [done|]. by destruct (Hno d).
Qed.

Section Probing.
Context (blocks : list block_t) (m : block_map_t) (addr : Z).
Context (Hcap : m.(block_capacity) = capacity).

Definition miss (k : nat) : Prop :=
  exists b blk, m.(map) !!! probe addr k = Some b /\ blocks !! b = Some blk /\ blk.(pc_start) <> addr.

Lemma find_skip (d k fuel : nat) :
  (forall i, (k <= i < k + d)%nat -> miss i) -> Z.of_nat (k + d) <= capacity ->
  find_probe blocks (d + fuel) m (u32 (map_hash addr + Z.of_nat k)) addr
  = find_probe blocks fuel m (u32 (map_hash addr + Z.of_nat (k + d))) addr.
Proof.
  revert k. induction d as [|d IH]; intros k Hm Hd; [by rewrite Nat.add_0_r|].
  destruct (Hm k ltac:(lia)) as (b & blk & Hb & Hblk & Hne). cbn [find_probe Nat.add].
  rewrite slot_probe, Hb, Hblk by (done || unfold capacity, BLOCK_MAP_CAPACITY_BITS in *; lia).
  destruct (Z.eqb_spec blk.(pc_start) addr); [done|]. rewrite u32_add_l, <- Z.add_assoc.
  replace (Z.of_nat k + 1) with (Z.of_nat (S k)) by lia. rewrite IH; [do 3 f_equal; lia| |lia].
  intros. apply Hm. lia.
Qed.

Lemma insert_skip (d k fuel : nat) (b : irptr) :
  (forall i, (k <= i < k + d)%nat -> m.(map) !!! probe addr i <> None) ->
  Z.of_nat (k + d) <= capacity ->
  insert_probe (d + fuel) m (u32 (map_hash addr + Z.of_nat k)) b
  = insert_probe fuel m (u32 (map_hash addr + Z.of_nat (k + d))) b.
Proof.
  revert k. induction d as [|d IH]; intros k Hm Hd; [by rewrite Nat.add_0_r|].
  cbn [insert_probe Nat.add]. specialize (Hm k ltac:(lia)) as Hk.
  rewrite slot_probe by (done || unfold capacity, BLOCK_MAP_CAPACITY_BITS in *; lia).
  destruct (map m !!! probe addr k); [|done]. rewrite u32_add_l, <- Z.add_assoc.
  replace (Z.of_nat k + 1) with (Z.of_nat (S k)) by lia. rewrite IH; [do 3 f_equal; lia| |lia].
  intros. apply Hm. lia.
Qed.
End Probing.

(** * Counting used slots *)

Lemma empty_slot {A} (l : list (option A)) :
  (length (filter is_Some l) < length l)%nat -> exists j, l !! j = Some None.
Proof.
  induction l as [|[a|] l IH].
  - simpl. lia.
  - rewrite filter_cons_True by eauto. simpl. intros Hl. destruct IH as [j Hj]; [lia|]. by exists (S j).
  - intros _. by exists 0%nat.
Qed.

Lemma fill_slot {A} (l : list (option A)) (j : nat) (a : A) :
  l !! j = Some None -> length (filter is_Some (<[j := Some a]> l)) = S (length (filter is_Some l)).
Proof.
  revert j. induction l as [|o l IH]; intros [|j] Hj; cbn [lookup list_lookup] in Hj; simplify_eq; cbn [insert list_insert].
  - rewrite filter_cons_True by eauto. by rewrite filter_cons_False by (intros [? ?]; discriminate).
  - destruct o; [rewrite !filter_cons_True by eauto|rewrite !filter_cons_False by (intros [? ?]; discriminate)];
      cbn [length]; rewrite IH by done; done.
Qed.

(** * Correctness of the operations *)

Section Operations.
Context (blocks : list block_t) (m : block_map_t) (g : gmap Z irptr).
Context (Hm : map_repr blocks m g).

Lemma slot_lookup (j : nat) (o : option irptr) :
  Z.of_nat j < capacity -> m.(map) !!! j = o -> m.(map) !! j = Some o.
Proof.
  intros Hj Ho. apply list_lookup_alt. split; [|done]. pose proof (mr_length _ _ _ Hm). lia.
Qed.

(** Every occupied slot before the entry of [addr] holds another block. *)
Lemma occupied_miss (addr : Z) (k : nat) :
  m.(map) !!! probe addr k <> None ->
  (forall b, g !! addr = Some b -> m.(map) !!! probe addr k <> Some b) ->
  miss blocks m addr k.
Proof.
  intros Hk Ha. destruct (m.(map) !!! probe addr k) as [b|] eqn:Hb; [|done].
  destruct (mr_sound _ _ _ Hm (probe addr k) b) as (blk & Hblk & Hg).
  { apply slot_lookup; [apply probe_lt|done]. }
  exists b, blk. split; [done|]. split; [done|]. intros <-. by destruct (Ha b Hg).
Qed.

Lemma free_slot :
  m.(size) < capacity -> exists j, Z.of_nat j < capacity /\ m.(map) !!! j = None.
Proof.
  intros Hs. rewrite (mr_size _ _ _ Hm) in Hs. pose proof (mr_length _ _ _ Hm) as Hl.
  destruct (empty_slot m.(map)) as [j Hj]; [lia|]. exists j.
  pose proof (lookup_lt_Some _ _ _ Hj). split; [lia|]. by apply list_lookup_total_correct.
Qed.

(** The distance from the home slot to the first free slot. *)
Lemma free_probe (addr : Z) :
  m.(size) < capacity ->
  exists d, Z.of_nat d < capacity /\ m.(map) !!! probe addr d = None /\
    forall k, (k < d)%nat -> m.(map) !!! probe addr k <> None.
Proof.
  intros (j & Hj & Hn)%free_slot. destruct (probe_onto addr j Hj) as (d & Hd & <-).
  destruct (first_place (fun k => m.(map) !!! probe addr k = None) d Hn) as (e & ? & ? & ?).
  exists e. split; [lia|done].
Qed.

Lemma find_from_home (fuel : nat) (addr : Z) :
  block_find blocks fuel m addr
  = find_probe blocks fuel m (u32 (map_hash addr + Z.of_nat 0)) addr.
Proof.
  unfold block_find. rewrite Z.add_0_r, u32_id; [done|].
  pose proof (map_hash_range addr). unfold is_u32, capacity, BLOCK_MAP_CAPACITY_BITS in *. lia.
Qed.

Lemma find_correct (fuel : nat) (addr : Z) :
  m.(size) < capacity -> capacity <= Z.of_nat fuel ->
  block_find blocks fuel m addr = Some (g !! addr).
Proof.
  intros Hs Hf. rewrite find_from_home. destruct (g !! addr) as [b|] eqn:Hg.
  - destruct (mr_stored _ _ _ Hm addr b Hg) as [(blk & Hblk & Hpc) (d & Hd & Hb & Hk)].
    destruct (first_place (fun k => m.(map) !!! probe addr k = Some b) d Hb) as (e & He & Hb' & Hf').
    replace fuel with (e + S (fuel - e - 1))%nat by lia. rewrite find_skip; [|apply Hm| |lia].
    + cbn [find_probe Nat.add].
      rewrite slot_probe, Hb', Hblk by (apply Hm || unfold capacity, BLOCK_MAP_CAPACITY_BITS in *; lia).
      by rewrite Hpc, Z.eqb_refl.
    + intros i Hi. apply occupied_miss; [apply Hk; lia|]. intros b' Hb''.
      rewrite Hg in Hb''. simplify_eq. apply Hf'. lia.
  - destruct (free_probe addr Hs) as (d & Hd & Hn & Hk).
    replace fuel with (d + S (fuel - d - 1))%nat by lia. rewrite find_skip; [|apply Hm| |lia].
    + cbn [find_probe Nat.add].
      by rewrite slot_probe, Hn by (apply Hm || unfold capacity, BLOCK_MAP_CAPACITY_BITS in *; lia).
    + intros i Hi. apply occupied_miss; [apply Hk; lia|]. intros b Hb. by rewrite Hg in Hb.
Qed.

(** Storing a block in the first free slot of its probe sequence. *)
Lemma insert_repr (b : irptr) (blk : block_t) (d : nat) :
  blocks !! b = Some blk -> g !! blk.(pc_start) = None ->
  m.(map) !!! probe blk.(pc_start) d = None -> Z.of_nat d < capacity ->
  (forall k, (k < d)%nat -> m.(map) !!! probe blk.(pc_start) k <> None) ->
  map_repr blocks (mk_block_map m.(block_capacity) (m.(size) + 1)
                     (<[probe blk.(pc_start) d := Some b]> m.(map))) (<[blk.(pc_start) := b]> g).
Proof.
  set (addr := blk.(pc_start)). intros Hblk Hg Hn Hd Hk.
  assert (Hlen : (probe addr d < length m.(map))%nat).
  { pose proof (mr_length _ _ _ Hm). pose proof (probe_lt addr d). lia. }
  pose proof (slot_lookup _ _ (probe_lt addr d) Hn) as Hfree.
  constructor; cbn [block_capacity size map].
  - apply Hm.
  - rewrite length_insert. apply Hm.
  - rewrite fill_slot by done. rewrite (mr_size _ _ _ Hm). lia.
  - intros j b' Hj. destruct (decide (j = probe addr d)) as [->|Hne].
    + rewrite list_lookup_insert_eq in Hj by done. simplify_eq. exists blk.
      split; [done|]. apply lookup_insert_eq.
    + rewrite list_lookup_insert_ne in Hj by done.
      destruct (mr_sound _ _ _ Hm j b' Hj) as (blk' & ? & Hg'). exists blk'. split; [done|].
      rewrite lookup_insert_ne; [done|]. intros E. fold addr in E. congruence.
  - intros addr' b' Hb'. destruct (decide (addr' = addr)) as [->|Hne].
    + rewrite lookup_insert_eq in Hb'. simplify_eq. split; [by exists blk|]. exists d.
      split; [done|]. split; [by apply list_lookup_total_insert_eq|]. intros k Hlt.
      destruct (decide (probe addr k = probe addr d)) as [->|].
      * by rewrite list_lookup_total_insert_eq by done.
      * rewrite list_lookup_total_insert_ne by done. by apply Hk.
    + rewrite lookup_insert_ne in Hb' by done.
      destruct (mr_stored _ _ _ Hm addr' b' Hb') as [? (d' & ? & Hd' & Hk')]. split; [done|].
      exists d'. split; [done|].
      assert (Hkeep : forall k, m.(map) !!! probe addr' k <> None ->
        <[probe addr d := Some b]> m.(map) !!! probe addr' k = m.(map) !!! probe addr' k).
      { intros k Hnz. apply list_lookup_total_insert_ne. congruence. }
      split; [rewrite Hkeep; [done|congruence]|]. intros k Hlt. rewrite Hkeep; by apply Hk'.
Qed.

Lemma insert_correct (fuel : nat) (b : irptr) (blk : block_t) :
  m.(size) < capacity -> capacity <= Z.of_nat fuel -> blocks !! b = Some blk ->
  g !! blk.(pc_start) = None ->
  exists m', block_insert blocks fuel m b = Some m' /\ m'.(size) = m.(size) + 1 /\
    map_repr blocks m' (<[blk.(pc_start) := b]> g).
Proof.
  intros Hs Hf Hblk Hg. destruct (free_probe blk.(pc_start) Hs) as (d & Hd & Hn & Hk).
  unfold block_insert. rewrite Hblk. set (addr := blk.(pc_start)) in *.
  rewrite <- (u32_id (map_hash addr)), <- (Z.add_0_r (map_hash addr))
    by (pose proof (map_hash_range addr); unfold is_u32, capacity, BLOCK_MAP_CAPACITY_BITS in *; lia).
  change 0 with (Z.of_nat 0). replace fuel with (d + S (fuel - d - 1))%nat by lia.
  rewrite insert_skip; [|apply Hm| |lia]; [|intros; apply Hk; lia]. cbn [insert_probe Nat.add].
  rewrite slot_probe, Hn by (apply Hm || unfold capacity, BLOCK_MAP_CAPACITY_BITS in *; lia).
  rewrite (u32_id (m.(size) + 1)).
  - eexists. split; [done|]. split; [done|]. by apply insert_repr.
  - rewrite (mr_size _ _ _ Hm) in *. unfold is_u32, capacity, BLOCK_MAP_CAPACITY_BITS in *. lia.
Qed.

Lemma clear_correct : map_repr [] (block_map_clear m) ∅.
Proof.
  constructor; cbn [block_map_clear block_capacity size map].
  - apply Hm.
  - rewrite length_replicate. apply Hm.
  - induction (length m.(map)) as [|n IH]; [done|]. cbn [replicate].
    by rewrite filter_cons_False by (intros [? ?]; discriminate).
  - intros j b [? _]%lookup_replicate. done.
  - intros addr b. by rewrite lookup_empty.
Qed.
End Operations.

Lemma init_correct : map_repr [] (block_map_init BLOCK_MAP_CAPACITY_BITS) ∅.
Proof.
  constructor; [done|done|by vm_compute| |].
  - intros j b [? _]%lookup_replicate. done.
  - intros addr b. by rewrite lookup_empty.
Qed.

(** C12. The open-addressing block map is a finite map: from the empty map on,
    as long as it is cleared when its load passes 80% (the test before a block
    is translated), a lookup probes at most [block_capacity] slots and answers
    with the block that starts at the address, if any; an insertion of a block
    with a new start address terminates and adds exactly that entry; clearing
    forgets every entry. *)
Theorem block_map_refines (blocks : list block_t) (m : block_map_t) (g : gmap Z irptr) :
  map_repr blocks m g -> map_crowded m = false ->
  (forall addr, block_find blocks (Z.to_nat capacity) m addr = Some (g !! addr)) /\
  (forall b blk, blocks !! b = Some blk -> g !! blk.(pc_start) = None ->
     exists m', block_insert blocks (Z.to_nat capacity) m b = Some m' /\
       m'.(size) = m.(size) + 1 /\ map_repr blocks m' (<[blk.(pc_start) := b]> g)) /\
  map_repr [] (block_map_clear m) ∅ /\ map_crowded (block_map_clear m) = false.
Proof.
  intros Hm Hload. assert (Hs : m.(size) < capacity).
  { unfold map_crowded in Hload. rewrite (mr_capacity _ _ _ Hm) in Hload. apply Z.ltb_ge in Hload.
    assert (0 < capacity) by done. lia. }
  split; [|split; [|split]].
  - intros addr. apply find_correct; [done..|lia].
  - intros b blk Hb Hg. by apply insert_correct; [..|lia| |].
  - by eapply clear_correct.
  - unfold map_crowded. cbn. rewrite (mr_capacity _ _ _ Hm). done.
Qed.

(** One block in an empty map. *)
Lemma block_map_refines_witness :
  let blocks := [mk_block 1 0x1000 0x1004 []] in
  let m := block_map_init BLOCK_MAP_CAPACITY_BITS in
  exists m', block_insert blocks (Z.to_nat capacity) m 0%nat = Some m' /\
    map_repr blocks m' {[0x1000 := 0%nat]}.
Proof.
  intros blocks m. assert (Hm : map_repr blocks m ∅).
  { destruct init_correct as [? ? ? Hs ?]. constructor; [done..| |].
    - intros j b [? _]%lookup_replicate. done.
    - intros addr b. by rewrite lookup_empty. }
  destruct (block_map_refines blocks m ∅ Hm) as (_ & Hi & _); [by vm_compute|].
  destruct (Hi 0%nat (mk_block 1 0x1000 0x1004 []) eq_refl eq_refl) as (m' & ? & ? & Hr).
  exists m'. split; [done|exact Hr].
Defined.

(** * Translation yields the code at the program counter *)

(** The instruction of the word [insn] at [pc]. *)
Definition translated (pc : Z) (ir : rv_insn_t) : rv_insn_t :=
  let ir' := set_pc pc (set_impl ir.(opcode) ir) in
  if insn_is_indirect_branch ir.(opcode) then set_branch_table (Some bht_init) ir' else ir'.

(** [code_at m pc irs e]: [irs] are the instructions of the words from [pc] to
    [e], one after the other, and only the last one may be a branch. *)
Inductive code_at (m : memory_t) : Z -> list rv_insn_t -> Z -> Prop :=
| code_nil (pc : Z) : code_at m pc [] pc
| code_cons (pc e insn : Z) (ir : rv_insn_t) (irs : list rv_insn_t) :
    memory_ifetch m pc = Some insn -> insn <> 0 -> decode insn = Some (true, ir) ->
    (insn_is_branch ir.(opcode) = true -> irs = []) ->
    code_at m (add32 pc (if is_compressed insn then 2 else 4)) irs e ->
    code_at m pc (translated pc ir :: irs) e.

(** Why translation stopped, and what it did to the state. *)
Inductive stops (rv : riscv) (irs : list rv_insn_t) (e : Z) : riscv -> Prop :=
| stops_branch (ir : rv_insn_t) :
    last irs = Some ir -> insn_is_branch ir.(opcode) = true -> stops rv irs e rv
| stops_zero : memory_ifetch rv.(mem) e = Some 0 -> stops rv irs e rv
| stops_illegal (insn : Z) (ir : rv_insn_t) (rv' : riscv) :
    memory_ifetch rv.(mem) e = Some insn -> insn <> 0 -> decode insn = Some (false, ir) ->
    SET_CAUSE_AND_TVAL_THEN_TRAP ILLEGAL_INSN insn (set_compressed (is_compressed insn) rv) = Some rv' ->
    stops rv irs e rv'.

Lemma indirect_is_branch (o : opcode_t) : insn_is_indirect_branch o = true -> insn_is_branch o = true.
Proof. by destruct o. Qed.

Lemma stops_cons (rv rv' : riscv) (ir : rv_insn_t) (irs : list rv_insn_t) (e : Z) :
  irs <> [] \/ (forall ir, last irs <> Some ir) -> stops rv irs e rv' -> stops rv (ir :: irs) e rv'.
Proof.
  intros Hne [ir' Hl Hb|Hz|insn ir' rv'' ? ? ? ?].
  - apply (stops_branch _ _ _ ir'); [|done]. by destruct irs.
  - by apply stops_zero.
  - by eapply stops_illegal.
Qed.

Lemma translate_loop_correct (fuel : nat) (rv rv' : riscv) (pc e : Z) (irs all : list rv_insn_t) :
  translate_loop fuel rv pc irs = Some (rv', e, all) ->
  exists new, all = irs ++ new /\ code_at rv.(mem) pc new e /\ stops rv new e rv'.
Proof.
  revert pc irs. induction fuel as [|fuel IH]; intros pc irs; cbn [translate_loop]; [done|].
  destruct (memory_ifetch rv.(mem) pc) as [insn|] eqn:Hf; [|done].
  destruct (Z.eqb_spec insn 0) as [->|Hnz].
  { intros [= <- <- <-]. exists []. rewrite app_nil_r. repeat split; [constructor|by apply stops_zero]. }
  destruct (decode insn) as [[ok ir]|] eqn:Hd; [|done]. destruct ok; cbn [negb].
  - rewrite (eq_refl : opcode (set_pc pc (set_impl (dispatch_table (opcode ir)) ir)) = opcode ir).
    set (e1 := add32 pc _). destruct (insn_is_branch ir.(opcode)) eqn:Hb.
    + intros H. simplify_eq. exists [translated pc ir]. split; [done|]. split.
      * eapply code_cons; try done. constructor.
      * apply (stops_branch _ _ _ (translated pc ir)); [done|].
        unfold translated. by destruct (insn_is_indirect_branch _).
    + intros (new & -> & Hc & Hs)%IH. exists (translated pc ir :: new).
      assert (Hi : insn_is_indirect_branch ir.(opcode) = false).
      { destruct (insn_is_indirect_branch ir.(opcode)) eqn:Hi; [|done].
        apply indirect_is_branch in Hi. congruence. }
      split; [|split].
      * rewrite <- app_assoc. unfold translated. by rewrite Hi.
      * eapply code_cons; try done. congruence.
      * apply stops_cons; [|done]. destruct new; [by right|by left].
  - destruct (SET_CAUSE_AND_TVAL_THEN_TRAP _ _ _) as [rv1|] eqn:Ht; [|done]. intros [= <- <- <-].
    exists []. rewrite app_nil_r. repeat split; [constructor|]. by eapply stops_illegal.
Qed.

(** * Translation terminates *)

Lemma ifetch_bound (m : memory_t) (pc insn : Z) :
  memory_ifetch m pc = Some insn -> pc + 4 <= m.(mem_size).
Proof.
  unfold memory_ifetch, checked_load, GUEST_RAM_CONTAINS.
  destruct (_ && _) eqn:E; [|done]. intros _.
  apply andb_true_iff in E. rewrite Z.ltb_lt, Z.leb_le in E. lia.
Qed.

(** The ways translation can fail to return. *)
Inductive stuck (rv : riscv) (e : Z) : Prop :=
| stuck_fetch : memory_ifetch rv.(mem) e = None -> stuck rv e
| stuck_decode (insn : Z) :
    memory_ifetch rv.(mem) e = Some insn -> insn <> 0 -> decode insn = None -> stuck rv e
| stuck_trap (insn : Z) (ir : rv_insn_t) :
    memory_ifetch rv.(mem) e = Some insn -> insn <> 0 -> decode insn = Some (false, ir) ->
    SET_CAUSE_AND_TVAL_THEN_TRAP ILLEGAL_INSN insn (set_compressed (is_compressed insn) rv) = None ->
    stuck rv e.

Lemma translate_loop_total (fuel : nat) (rv : riscv) (pc : Z) (irs : list rv_insn_t) :
  rv.(mem).(mem_size) < 2 ^ 32 -> 0 <= pc -> rv.(mem).(mem_size) - pc <= 2 * Z.of_nat fuel ->
  translate_loop fuel rv pc irs = None ->
  exists new e, code_at rv.(mem) pc new e /\ stuck rv e.
Proof.
  intros Hm. revert pc irs. induction fuel as [|fuel IH]; intros pc irs Hpc Hf.
  { intros _. exists [], pc. split; [constructor|]. apply stuck_fetch.
    destruct (memory_ifetch rv.(mem) pc) eqn:E; [|done]. apply ifetch_bound in E. lia. }
  cbn [translate_loop]. destruct (memory_ifetch rv.(mem) pc) as [insn|] eqn:Ei.
  2:{ intros _. exists [], pc. split; [constructor|by apply stuck_fetch]. }
  pose proof (ifetch_bound _ _ _ Ei). destruct (Z.eqb_spec insn 0); [done|].
  destruct (decode insn) as [[ok ir]|] eqn:Hd.
  2:{ intros _. exists [], pc. split; [constructor|by eapply stuck_decode]. }
  destruct ok; cbn [negb].
  - cbn [opcode set_pc set_impl]. destruct (insn_is_branch ir.(opcode)) eqn:Hb; [done|].
    intros (new & e & Hc & Hs)%IH.
    + exists (translated pc ir :: new), e. split; [|done]. eapply code_cons; try done. congruence.
    + apply u32_range.
    + unfold add32. rewrite u32_id by (unfold is_u32; destruct (is_compressed insn); lia).
      destruct (is_compressed insn); lia.
  - destruct (SET_CAUSE_AND_TVAL_THEN_TRAP _ _ _) eqn:Ht; [done|]. intros _.
    exists [], pc. split; [constructor|by eapply stuck_trap].
Qed.

(** C13. A translated block is exactly the straight-line code at the program
    counter: one instruction per fetched word, at consecutive addresses, with
    the handler of its opcode, a fresh branch history table on an indirect jump
    and at most one branch, which is the last instruction.  Translation ends at
    a branch, at a zero word or at an illegal instruction, for which the trap
    is taken immediately; it returns false when no instruction was decoded. *)
Theorem block_translate_correct (fuel : nat) (rv rv' : riscv) (r : option block_t) :
  block_translate fuel rv = Some (rv', r) ->
  exists irs e, code_at rv.(mem) rv.(PC) irs e /\ stops rv irs e rv' /\
    r = if decide (irs = []) then None
        else Some (mk_block (Z.of_nat (length irs)) rv.(PC) e irs).
Proof.
  unfold block_translate. destruct (translate_loop _ _ _ _) as [[[rv1 e] irs]|] eqn:E; [|done].
  apply translate_loop_correct in E. destruct E as (new & -> & Hc & Hs). cbn [app].
  intros H. exists new, e. split; [done|]. by destruct new; simplify_eq.
Qed.

(** Translation terminates: with memory below 4 GiB and fuel for one
    instruction per two bytes, the only ways not to return are a fetch outside
    of the memory, an assertion of the decoder and a trap handler that runs
    into undefined behaviour. *)
Theorem block_translate_terminates (fuel : nat) (rv : riscv) :
  rv.(mem).(mem_size) < 2 ^ 32 -> is_u32 rv.(PC) -> rv.(mem).(mem_size) <= 2 * Z.of_nat fuel ->
  block_translate fuel rv = None ->
  exists irs e, code_at rv.(mem) rv.(PC) irs e /\ stuck rv e.
Proof.
  intros Hm Hpc Hf. unfold block_translate.
  destruct (translate_loop _ _ _ _) as [[[rv1 e] irs]|] eqn:E; [by destruct irs|]. intros _.
  eapply translate_loop_total; [done| | |done]; unfold is_u32 in *; lia.
Qed.

(** * Concrete translations *)

(** [addi a0, x0, 1; j 0]. *)
Lemma block_translate_correct_witness :
  let rv := hart_running [0x00100513; 0x0000006f] in
  exists rv' b, block_translate 8 rv = Some (rv', Some b) /\ n_insn b = 2 /\
    code_at rv.(mem) 0 b.(ir_list) b.(pc_end).
Proof.
  intros rv. destruct (block_translate 8 rv) as [[rv' [b|]]|] eqn:E;
    [|vm_compute in E; discriminate E..].
  destruct (block_translate_correct 8 rv rv' (Some b) E) as (irs & e & Hc & Hs & Hb).
  destruct irs as [|ir irs]; [discriminate Hb|]. rewrite decide_False in Hb by done.
  apply (inj Some) in Hb. exists rv', b. split; [done|]. rewrite Hb. split; [|exact Hc].
  rewrite <- (f_equal n_insn Hb). clear -E. revert E. vm_compute. by intros [= <- <-].
Defined.

(** A fetch across the end of the memory. *)
Lemma block_translate_terminates_witness :
  let rv := set_PC 4094 hart in
  exists irs e, code_at rv.(mem) 4094 irs e /\ stuck rv e.
Proof.
  intros rv. apply (block_translate_terminates (Z.to_nat 2048) rv); by vm_compute.
Defined.

(** * Illegal instructions *)

Lemma trap_entry_m (cause tval : Z) (rv rv' : riscv) :
  rv.(priv_mode) = RV_PRIV_M_MODE -> csr_val rv csr_mtvec <> 0 -> csr_val rv csr_mtvec .& 3 = 0 ->
  SET_CAUSE_AND_TVAL_THEN_TRAP cause tval rv = Some rv' ->
  rv'.(PC) = csr_val rv csr_mtvec .& not32 3 /\ csr_val rv' csr_mepc = rv.(PC) /\
  csr_val rv' csr_mcause = cause /\ csr_val rv' csr_mtval = tval /\
  rv'.(X) = rv.(X) /\ rv'.(mem) = rv.(mem).
Proof.
  intros Hp Hv Hm. rewrite set_cause_m, trap_handler_m by done. cbv zeta.
  change (csr_val (set_csr _ _ (set_csr _ _ _)) csr_mtvec) with (csr_val rv csr_mtvec).
  rewrite (proj2 (Z.eqb_neq _ 0) Hv), Hm. intros [= <-]. done.
Qed.

(** C23. An illegal instruction behind a legal prefix traps while the block is
    being translated: in machine mode with a direct-mode trap vector, [mepc] is
    the start of the block instead of the address of the illegal instruction,
    the program counter already points to the trap handler, and none of the
    instructions of the block, which is still returned for execution, has run. *)
Theorem block_translate_illegal (fuel : nat) (rv rv' : riscv) (b : block_t) (insn : Z) :
  rv.(priv_mode) = RV_PRIV_M_MODE -> csr_val rv csr_mtvec <> 0 -> csr_val rv csr_mtvec .& 3 = 0 ->
  block_translate fuel rv = Some (rv', Some b) ->
  (forall ir, last b.(ir_list) = Some ir -> insn_is_branch ir.(opcode) = false) ->
  memory_ifetch rv.(mem) b.(pc_end) = Some insn -> insn <> 0 ->
  b.(pc_start) = rv.(PC) /\ csr_val rv' csr_mepc = b.(pc_start) /\
  csr_val rv' csr_mcause = ILLEGAL_INSN /\ csr_val rv' csr_mtval = insn /\
  rv'.(PC) = csr_val rv csr_mtvec .& not32 3 /\ rv'.(X) = rv.(X).
Proof.
  intros Hp Hv Hm Ht Hb Hf Hi. unfold block_translate in Ht.
  destruct (translate_loop _ _ _ _) as [[[rv1 e] irs]|] eqn:E; [|done].
  apply translate_loop_correct in E. destruct E as (new & -> & Hc & Hs). cbn [app] in Ht.
  destruct new as [|ir new]; [done|]. simplify_eq. cbn [ir_list pc_end pc_start] in *.
  destruct Hs as [ir' Hl Hbr|Hz|insn' ir' rv1 Hf' Hnz Hd Htr].
  - rewrite (Hb ir' Hl) in Hbr. done.
  - congruence.
  - assert (insn' = insn) as -> by congruence.
    by destruct (trap_entry_m _ _ (set_compressed (is_compressed insn) rv) _ Hp Hv Hm Htr) as (? & ? & ? & ? & ? & _).
Qed.

(** [addi a0, x0, 1] and an illegal word, trap vector 0x100. *)
Lemma block_translate_illegal_witness :
  let rv := set_csr csr_mtvec 0x100 (hart_running [0x00100513; 0xffffffff]) in
  exists rv' b, block_translate 8 rv = Some (rv', Some b) /\ pc_end b = 4 /\
    csr_val rv' csr_mepc = 0 /\ rv'.(PC) = 0x100 /\ rv'.(X) = rv.(X).
Proof.
  intros rv. destruct (block_translate 8 rv) as [[rv' [b|]]|] eqn:E;
    [|vm_compute in E; discriminate E..].
  assert (Hb : pc_end b = 4 /\ forall ir, last b.(ir_list) = Some ir -> insn_is_branch ir.(opcode) = false).
  { clear -E. revert E. vm_compute. intros [= <- <-]. split; [done|]. by intros ir [= <-]. }
  destruct Hb as [He Hb]. exists rv', b. split; [done|]. split; [done|].
  destruct (block_translate_illegal 8 rv rv' b 0xffffffff) as (H1 & H2 & _ & _ & H3 & H4);
    [done|done|done|done|done|by rewrite He|done|].
  rewrite H2, H1, H3. done.
Defined.
