(* ===== verification/ConstoptSpec.v ===== *)
(** Constant propagation is sound: the optimised block computes what the
    translated block computes.

    The analysis and the machine are related by [info_ok]: a register the
    analysis calls constant holds the recorded value.  Each rewritten
    instruction has the effect of the original one, and executing it keeps the
    relation. *)

From stdpp Require Import base list option numbers gmap.
From Stdlib Require Import ZArith Lia Bool.
From S2P Require Import Prelude Bits Insn Decode DecodeSpec DecodeWf Mem MemSpec State Trap Csr Fp Alu.
From S2P Require Import AluSpec Exec Samples Isa IsaValues IsaRefine DecodeExec ExecWf Equiv Frame.
From S2P Require Import Constopt Block BlockSpec.
#[local] Open Scope Z_scope.

(** * The analysis describes the machine *)

Record info_ok (info : constopt_info_t) (rv : riscv) : Prop := {
  ok_known_len : length info.(is_constant) = 32%nat;
  ok_value_len : length info.(const_val) = 32%nat;
  ok_known : forall r, 0 <= r < 32 -> known info r = true -> xreg rv r = value info r;
  ok_zero : known info 0 = true -> value info 0 = 0;
}.

Section Info.
Context (info : constopt_info_t) (rv rv' : riscv) (Hok : info_ok info rv).

Lemma known_set (r r' : Z) (b : bool) :
  0 <= r < 32 -> 0 <= r' < 32 ->
  known (set_known r b info) r' = if r' =? r then b else known info r'.
Proof.
  intros Hr Hr'. unfold known, set_known. cbn [is_constant].
  destruct (Z.eqb_spec r' r) as [->|].
  - apply list_lookup_total_insert_eq. rewrite (ok_known_len _ _ Hok). lia.
  - apply list_lookup_total_insert_ne. lia.
Qed.

Lemma value_set (r r' v : Z) :
  0 <= r < 32 -> 0 <= r' < 32 ->
  value (set_value r v info) r' = if r' =? r then v else value info r'.
Proof.
  intros Hr Hr'. unfold value, set_value. cbn [const_val].
  destruct (Z.eqb_spec r' r) as [->|].
  - apply list_lookup_total_insert_eq. rewrite (ok_value_len _ _ Hok). lia.
  - apply list_lookup_total_insert_ne. lia.
Qed.

(** No register changed. *)
Lemma keep_ok :
  (forall r, 0 <= r < 32 -> xreg rv' r = xreg rv r) -> info_ok info rv'.
Proof.
  intros Hx. destruct Hok as [? ? Hk ?]. constructor; try done.
  intros r Hr Hkn. rewrite Hx by done. by apply Hk.
Qed.

(** Register [r] changed and is forgotten. *)
Lemma forget_ok (r : Z) :
  0 <= r < 32 -> (forall r', 0 <= r' < 32 -> r' <> r -> xreg rv' r' = xreg rv r') ->
  info_ok (set_known r false info) rv'.
Proof.
  intros Hr Hx. destruct Hok as [Hl ? Hk Hz]. constructor.
  - cbn. by rewrite length_insert.
  - done.
  - intros r' Hr'. rewrite known_set by done. destruct (Z.eqb_spec r' r); [done|].
    intros Hkn. rewrite Hx by done. by apply Hk.
  - rewrite known_set by lia. destruct (0 =? r); done.
Qed.

(** Register [r] got the value [v], which is recorded. *)
Lemma learn_ok (r v : Z) :
  0 < r < 32 -> (forall r', 0 <= r' < 32 -> r' <> r -> xreg rv' r' = xreg rv r') -> xreg rv' r = v ->
  info_ok (set_value r v (set_known r true info)) rv'.
Proof.
  intros Hr Hx Hv. destruct Hok as [Hl Hl' Hk Hz]. constructor.
  - cbn. by rewrite length_insert.
  - cbn. by rewrite length_insert.
  - intros r' Hr'. change (known (set_value _ _ _)) with (known (set_known r true info)).
    change (value (set_value r v (set_known r true info))) with (value (set_value r v info)).
    rewrite known_set, value_set by lia. destruct (Z.eqb_spec r' r) as [->|]; [done|].
    intros Hkn. rewrite Hx by done. by apply Hk.
  - change (known (set_value _ _ _)) with (known (set_known r true info)).
    change (value (set_value r v (set_known r true info))) with (value (set_value r v info)).
    rewrite known_set, value_set by lia. destruct (Z.eqb_spec 0 r); [lia|done].
Qed.

(** Register [r] was known and got the value [v]. *)
Lemma update_ok (r v : Z) :
  0 < r < 32 -> known info r = true ->
  (forall r', 0 <= r' < 32 -> r' <> r -> xreg rv' r' = xreg rv r') -> xreg rv' r = v ->
  info_ok (set_value r v info) rv'.
Proof.
  intros Hr Hkr Hx Hv. destruct Hok as [Hl Hl' Hk Hz]. constructor.
  - done.
  - cbn. by rewrite length_insert.
  - intros r' Hr'. change (known (set_value r v info)) with (known info).
    rewrite value_set by lia. destruct (Z.eqb_spec r' r) as [->|]; [done|].
    intros Hkn. rewrite Hx by done. by apply Hk.
  - change (known (set_value r v info)) with (known info).
    rewrite value_set by lia. destruct (Z.eqb_spec 0 r); [lia|done].
Qed.
End Info.

Lemma info_0_ok (rv : riscv) : xreg rv 0 = 0 -> info_ok constopt_info_0 rv.
Proof.
  intros Hx. constructor; [done|done| |done]. intros r Hr. unfold known. cbn [is_constant constopt_info_0].
  destruct (decide (r = 0)) as [->|Hne]; [done|].
  rewrite list_lookup_total_insert_ne by lia. by rewrite list_lookup_total_alt, lookup_replicate_2 by lia.
Qed.

(** * The instructions the pass is sound for *)

(** Beyond the decoder's guarantees: [sc.w] with a destination and [c.li] to x0
    are excluded, because the pass misses their effect; conditional branches
    have no destination field. *)
Definition constopt_static (ir : rv_insn_t) : bool :=
  match ir.(opcode) with
  | rv_insn_scw => ir.(rd) =? 0
  | rv_insn_cli => negb (ir.(rd) =? 0)
  | rv_insn_beq | rv_insn_bne | rv_insn_blt | rv_insn_bge | rv_insn_bltu | rv_insn_bgeu =>
      ir.(rd) =? 0
  | _ => true
  end.

Record ir_ok (ir : rv_insn_t) : Prop := {
  io_plain : plain ir;
  io_static : static_ok ir = true;
  io_constopt : constopt_static ir = true;
}.

(** * Values *)

Section Values.
Context (x y : Z) (Hx : is_u32 x) (Hy : is_u32 y).

Lemma u32_lxor_i32 : u32 (i32 x .^ i32 y) = x .^ y.
Proof. unfold u32, i32. bits_eq [x; y]. Qed.
Lemma u32_lor_i32 : u32 (i32 x .| i32 y) = x .| y.
Proof. unfold u32, i32. bits_eq [x; y]. Qed.
Lemma u32_land_i32 : u32 (i32 x .& i32 y) = x .& y.
Proof. unfold u32, i32. bits_eq [x; y]. Qed.

Lemma mulhsu_value : u32 (u64 (i32 x * y) ≫ 32) = alu_mulhsu x y.
Proof. unfold alu_mulhsu, u64. by rewrite Zmult_mod_idemp_l. Qed.

Lemma mulhu_value : x * y < 2 ^ 63 -> u32 ((x * y) ≫ 32) = alu_mulhu x y.
Proof.
  intros Hp. unfold alu_mulhu, u64. rewrite (Z.mod_small (x * y)); [done|]. unfold is_u32 in *. nia.
Qed.

Lemma mul_value : u32 (u64 (i32 x * i32 y) .& ((1 ≪ 32) - 1)) = alu_mul x y.
Proof. apply u32_id. by apply alu_mul_u32. Qed.

Lemma imm_comm (i : Z) :
  u32 (add32 i x) = add32 x i /\ u32 (u32 i .^ x) = x .^ u32 i /\
  u32 (u32 i .| x) = x .| u32 i /\ u32 (u32 i .& x) = x .& u32 i.
Proof.
  pose proof (u32_range i). split_and!.
  - unfold add32. rewrite u32_u32. f_equal. lia.
  - rewrite Z.lxor_comm. apply u32_id. by apply u32_lxor.
  - rewrite Z.lor_comm. apply u32_id. by apply u32_lor.
  - rewrite Z.land_comm. apply u32_id. by apply u32_land_l.
Qed.

Lemma u32_bool (b : bool) : u32 (if b then 1 else 0) = b2z b.
Proof. by destruct b. Qed.
End Values.

(** * One instruction *)

Section Step.
Context `{HostClock} `{Syscall} `{SoftFloat} `{!EnvBlind}.
Context (rv : riscv) (info : constopt_info_t) (ir : rv_insn_t) (cycle pc : Z).
Context (Hwf : riscv_wf rv) (Hok : info_ok info rv) (Hir : ir_ok ir).

(** The rewritten instruction has the same effect, and when it falls through
    the analysis describes the new state. *)
Definition step_ok (ir' : rv_insn_t) (info' : constopt_info_t) : Prop :=
  exec_ir rv ir' cycle pc ≡ exec_ir rv ir cycle pc /\
  forall rv' c' p', exec_ir rv ir cycle pc = Next rv' c' p' -> info_ok info' rv'.

(** The instruction is kept. *)
Lemma kept (info' : constopt_info_t) :
  (forall rv' c' p', exec_ir rv ir cycle pc = Next rv' c' p' -> info_ok info' rv') ->
  step_ok ir info'.
Proof. by split. Qed.

Lemma kept_none :
  insn_is_branch ir.(opcode) = false -> dest ir = None -> step_ok ir info.
Proof.
  intros Hb Hd. apply kept. intros rv' c' p' E. apply (keep_ok _ rv); [done|]. intros r Hr.
  eapply (next_frame_dest rv ir cycle pc (io_plain _ Hir)); [done|done|lia|]. by rewrite Hd.
Qed.

Lemma kept_forget (r : Z) :
  insn_is_branch ir.(opcode) = false -> dest ir = Some r -> 0 <= r < 32 ->
  step_ok ir (set_known r false info).
Proof.
  intros Hb Hd Hr. apply kept. intros rv' c' p' E. apply (forget_ok _ rv); [done|done|].
  intros r' Hr' Hne. eapply (next_frame_dest rv ir cycle pc (io_plain _ Hir)); [done|done|lia|]. rewrite Hd. congruence.
Qed.

Lemma kept_unknown (r : Z) :
  insn_is_branch ir.(opcode) = false -> dest ir = Some r -> known info r = false -> step_ok ir info.
Proof.
  intros Hb Hd Hk. apply kept. intros rv' c' p' E. destruct Hok as [? ? Hkn Hz].
  constructor; [done|done| |done]. intros r' Hr' Hk'. rewrite <- Hkn by done.
  eapply (next_frame_dest rv ir cycle pc (io_plain _ Hir)); [done|done|lia|]. rewrite Hd. congruence.
Qed.

Lemma kept_exit :
  (forall c, match code_of ir.(opcode) rv ir c pc with Next _ _ _ => False | _ => True end) ->
  step_ok ir info.
Proof.
  intros Hx. apply kept. intros rv' c' p' (rv1 & q & E & _)%(next_code rv ir cycle pc (io_plain _ Hir)).
  specialize (Hx (u64 (cycle + 1))). by rewrite E in Hx.
Qed.

(** The instruction assigns a value to a register and nothing else. *)
Definition assigns (r v : Z) : Prop :=
  forall c, code_of ir.(opcode) rv ir c pc = Next (set_xreg r v rv) c pc.

Lemma assigns_next (r v : Z) (rv' : riscv) (c' p' : Z) :
  assigns r v -> exec_ir rv ir cycle pc = Next rv' c' p' -> rv' ≡ set_xreg r v rv.
Proof.
  intros Ha (rv1 & q & E & Hrv & _)%(next_code rv ir cycle pc (io_plain _ Hir)). rewrite Ha in E. by simplify_eq.
Qed.

Lemma assigns_regs (r v : Z) (rv' : riscv) (c' p' : Z) :
  assigns r v -> 0 <= r < 32 -> exec_ir rv ir cycle pc = Next rv' c' p' ->
  xreg rv' r = v /\ forall r', 0 <= r' < 32 -> r' <> r -> xreg rv' r' = xreg rv r'.
Proof.
  intros Ha Hr E. pose proof (assigns_next _ _ _ _ _ Ha E) as Hrv. split.
  - rewrite (equiv_xreg _ _ _ Hrv). apply xreg_set_eq; [apply Hwf|done].
  - intros r' Hr' Hne. rewrite (equiv_xreg _ _ _ Hrv). apply xreg_set_ne; lia.
Qed.

(** x0 is reset. *)
Lemma kept_zero : assigns 0 0 -> step_ok ir info.
Proof.
  intros Ha. apply kept. intros rv' c' p' E.
  destruct (assigns_regs _ _ _ _ _ Ha ltac:(lia) E) as [Hzero Hr]. destruct Hok as [? ? Hk Hz].
  constructor; [done|done| |done]. intros r Hr' Hkn. destruct (decide (r = 0)) as [->|].
  - by rewrite Hzero, Hz.
  - rewrite Hr by done. by apply Hk.
Qed.

(** A constant is recorded. *)
Lemma kept_learn (r v : Z) :
  assigns r v -> 0 < r < 32 -> step_ok ir (set_value r v (set_known r true info)).
Proof.
  intros Ha Hr. apply kept. intros rv' c' p' E.
  destruct (assigns_regs _ _ _ _ _ Ha ltac:(lia) E) as [Hv Hr']. by apply (learn_ok _ rv).
Qed.

(** The load of a constant that replaces an instruction. *)
Lemma replaced (ir' : rv_insn_t) (r v : Z) :
  assigns r (u32 v) -> ir'.(opcode) = rv_insn_lui \/ ir'.(opcode) = rv_insn_clui ->
  ir'.(impl) = ir'.(opcode) -> insn_len ir'.(opcode) = insn_len ir.(opcode) ->
  ir'.(rd) = r -> ir'.(imm) = i32 v ->
  exec_ir rv ir' cycle pc ≡ exec_ir rv ir cycle pc.
Proof.
  intros Ha Ho Hi Hl Hr Hv. rewrite (exec_ir_code rv ir) by apply Hir. rewrite Ha, <- Hl.
  rewrite exec_ir_code; [|done|by destruct Ho as [-> | ->]].
  assert (code_of (opcode ir') rv ir' (u64 (cycle + 1)) pc
          = Next (set_xreg r (u32 v) rv) (u64 (cycle + 1)) pc) as ->; [|done].
  destruct Ho as [-> | ->]; cbn [code_of]; unfold code_lui, code_clui, write_rd;
    by rewrite Hr, Hv, u32_i32.
Qed.

Lemma loaded (o : opcode_t) (v : Z) (ir' : rv_insn_t) (info' : constopt_info_t) :
  assigns ir.(rd) (u32 v) -> o = rv_insn_lui \/ o = rv_insn_clui ->
  insn_len o = insn_len ir.(opcode) -> ir.(rd) <> 0 ->
  load_const o v ir info = Some (ir', info') -> step_ok ir' info'.
Proof.
  intros Ha Ho Hl Hnz [= <- <-]. pose proof (pl_regs _ (io_plain _ Hir)) as (? & _). split.
  - by apply (replaced _ ir.(rd) v).
  - intros rv' c' p' E. cbn. rewrite u32_i32.
    destruct (assigns_regs _ _ _ _ _ Ha ltac:(lia) E) as [Hv Hr]. apply (learn_ok _ rv); [done|lia|done|done].
Qed.

Lemma updated (r v : Z) (ir' : rv_insn_t) (info' : constopt_info_t) :
  assigns r (u32 v) -> insn_len rv_insn_clui = insn_len ir.(opcode) -> 0 < r < 32 ->
  known info r = true -> update_const r v ir info = Some (ir', info') -> step_ok ir' info'.
Proof.
  intros Ha Hl Hr Hk [= <- <-]. split.
  - apply (replaced _ r v); auto.
  - intros rv' c' p' E. rewrite u32_i32.
    destruct (assigns_regs _ _ _ _ _ Ha ltac:(lia) E) as [Hv Hr']. by apply (update_ok _ rv).
Qed.

Lemma known_value (r : Z) : 0 <= r < 32 -> known info r = true -> value info r = xreg rv r.
Proof. intros. symmetry. by apply Hok. Qed.

Lemma value_u32 (r : Z) : 0 <= r < 32 -> known info r = true -> is_u32 (value info r).
Proof. intros. rewrite known_value by done. by apply xreg_u32. Qed.

Lemma unguarded_rd : unguarded ir.(opcode) = true -> ir.(rd) <> 0.
Proof.
  intros Hu. pose proof (io_static _ Hir) as Hs. unfold static_ok in Hs. rewrite Hu in Hs.
  apply andb_true_iff in Hs as [Hs _]. destruct (Z.eqb_spec ir.(rd) 0); done.
Qed.

Lemma opt_imm_step (o : opcode_t) (f : Z -> Z -> option Z) (g : Z -> Z -> Z) (ir' : rv_insn_t) (info' : constopt_info_t) :
  (forall c, code_of ir.(opcode) rv ir c pc = op_imm g rv ir c pc) ->
  (forall x v, is_u32 x -> f x ir.(imm) = Some v -> u32 v = g x ir.(imm)) ->
  o = rv_insn_lui \/ o = rv_insn_clui -> insn_len o = insn_len ir.(opcode) ->
  unguarded ir.(opcode) = true -> insn_is_branch ir.(opcode) = false -> dest ir = Some ir.(rd) ->
  opt_imm o f ir info = Some (ir', info') -> step_ok ir' info'.
Proof.
  intros Hc Hf Ho Hl Hu Hb Hd. pose proof (pl_regs _ (io_plain _ Hir)) as (? & ? & _). unfold opt_imm.
  destruct (known info ir.(rs1)) eqn:Hk.
  - destruct (f _ _) as [v|] eqn:Ev; [|done].
    apply loaded; [|done|done|by apply unguarded_rd]. intros c. rewrite Hc, (fun H1 => Hf _ _ H1 Ev) by (by apply value_u32).
    unfold op_imm, write_rd. by rewrite known_value.
  - intros [= <- <-]. by apply kept_forget.
Qed.

Lemma opt_reg_step (o : opcode_t) (f : Z -> Z -> option Z) (g : Z -> Z -> Z) (ir' : rv_insn_t) (info' : constopt_info_t) :
  (forall c, code_of ir.(opcode) rv ir c pc = op_reg g rv ir c pc) ->
  (forall x y v, is_u32 x -> is_u32 y -> f x y = Some v -> u32 v = g x y) ->
  o = rv_insn_lui \/ o = rv_insn_clui -> insn_len o = insn_len ir.(opcode) ->
  unguarded ir.(opcode) = true -> insn_is_branch ir.(opcode) = false -> dest ir = Some ir.(rd) ->
  opt_reg o f ir info = Some (ir', info') -> step_ok ir' info'.
Proof.
  intros Hc Hf Ho Hl Hu Hb Hd. pose proof (pl_regs _ (io_plain _ Hir)) as (? & ? & ? & _). unfold opt_reg.
  destruct (known info ir.(rs1)) eqn:Hk1; [destruct (known info ir.(rs2)) eqn:Hk2|]; cbn [andb].
  - destruct (f _ _) as [v|] eqn:Ev; [|done].
    apply loaded; [|done|done|by apply unguarded_rd]. intros c.
    rewrite Hc, (fun H1 H2 => Hf _ _ _ H1 H2 Ev) by (by apply value_u32).
    unfold op_reg, write_rd. by rewrite !known_value.
  - intros [= <- <-]. by apply kept_forget.
  - intros [= <- <-]. by apply kept_forget.
Qed.
End Step.

(** The partial operators where they are defined. *)
Lemma c_shl_some (x n v : Z) : c_shl x n = Some v -> v = shl32 x n.
Proof. unfold c_shl. case_match; [|done]. by intros [= <-]. Qed.
Lemma c_shr_some (x n v : Z) : c_shr x n = Some v -> v = x ≫ n.
Proof. unfold c_shr. case_match; [|done]. by intros [= <-]. Qed.
Lemma c_mul64_some (a b p : Z) : c_mul64 a b = Some p -> p = a * b /\ a * b < 2 ^ 63.
Proof.
  unfold c_mul64. cbv zeta. destruct (_ && _) eqn:E; [|done]. apply andb_true_iff in E as [_ E%Z.ltb_lt]. by intros [= <-].
Qed.
Lemma c_div_some (a b v : Z) :
  (c_div32 a b = Some v -> v = Z.quot a b) /\ (c_rem32 a b = Some v -> v = Z.rem a b) /\
  (c_divu32 a b = Some v -> v = Z.quot a b) /\ (c_remu32 a b = Some v -> v = Z.rem a b).
Proof. unfold c_div32, c_rem32, c_divu32, c_remu32. split_and!; (case_match; [done|]); by intros [= <-]. Qed.

Lemma quot_rem_u32 (x y : Z) :
  is_u32 x -> is_u32 y -> (y =? 0) = false -> is_u32 (Z.quot x y) /\ is_u32 (Z.rem x y).
Proof.
  intros Hx Hy E. pose proof (alu_divu_u32 x y Hx Hy) as H1. pose proof (alu_remu_u32 x y Hx Hy) as H2.
  unfold alu_divu, alu_remu in *. by rewrite E in *.
Qed.

(** Values of the rewritten instructions. *)
Ltac opt_defined :=
  repeat match goal with
  | H : Some _ = Some _ |- _ => injection H as <-
  | H : None = Some _ |- _ => discriminate H
  | H : c_shl _ _ = Some _ |- _ => apply c_shl_some in H as ->
  | H : c_shr _ _ = Some _ |- _ => apply c_shr_some in H as ->
  | H : c_mul64 _ _ = Some _ |- _ => apply c_mul64_some in H as [-> ?]
  | H : c_div32 _ _ = Some _ |- _ => apply c_div_some in H as ->
  | H : c_rem32 _ _ = Some _ |- _ => apply c_div_some in H as ->
  | H : c_divu32 _ _ = Some _ |- _ => apply c_div_some in H as ->
  | H : c_remu32 _ _ = Some _ |- _ => apply c_div_some in H as ->
  | H : (match ?x with Some _ => _ | None => _ end) = Some _ |- _ => destruct x eqn:?
  | H : (if ?b then _ else _) = Some _ |- _ => destruct b eqn:?
  end.

Ltac opt_cases :=
  unfold alu_div, alu_divu, alu_rem, alu_remu; cbv zeta;
  repeat match goal with H : ?b = _ :> bool |- context [?b] => rewrite H end.

Ltac opt_value :=
  intros; cbv beta zeta in *; opt_defined;
  lazymatch goal with
  | |- _ = alu_mul _ _ => by apply mul_value
  | |- _ = alu_mulh _ _ => reflexivity
  | |- _ = alu_mulhsu _ _ => by apply mulhsu_value
  | |- _ = alu_mulhu _ _ => by apply mulhu_value
  | |- _ =>
      first [ apply imm_comm; assumption | apply u32_bool | by apply u32_lxor_i32 | by apply u32_lor_i32
            | by apply u32_land_i32
            | opt_cases; apply u32_id; first [apply u32_range | done | by apply quot_rem_u32 | by apply shr_and31_u32
                                             | by apply u32_lxor | by apply u32_lor | by apply u32_land_l]
            | opt_cases; reflexivity ]
  end.

Section Instructions.
Context `{HostClock} `{Syscall} `{SoftFloat} `{!EnvBlind}.
Context (rv : riscv) (info : constopt_info_t) (ir : rv_insn_t) (cycle pc : Z).
Context (Hwf : riscv_wf rv) (Hok : info_ok info rv) (Hir : ir_ok ir).

Ltac opt_side Ho :=
  first [ by intros; rewrite Ho | by left | by right | by rewrite Ho | by unfold dest; rewrite Ho ].

Ltac opt_imm Ho g :=
  eapply (opt_imm_step rv info ir cycle pc Hwf Hok Hir _ _ g);
    [intros; rewrite Ho; cbn [code_of]; unfold code_slli, code_srli, code_srai, shift_func; rewrite ?Ho; reflexivity
    |opt_value|opt_side Ho..].
Ltac opt_reg Ho g :=
  eapply (opt_reg_step rv info ir cycle pc Hwf Hok Hir _ _ g); [opt_side Ho|opt_value|opt_side Ho..].

Lemma imm_steps (ir' : rv_insn_t) (info' : constopt_info_t) :
  ir.(opcode) ∈ [rv_insn_addi; rv_insn_slti; rv_insn_sltiu; rv_insn_xori; rv_insn_ori; rv_insn_andi;
                 rv_insn_slli; rv_insn_srli; rv_insn_srai] ->
  constopt_table ir.(opcode) ir info = Some (ir', info') -> step_ok rv ir cycle pc ir' info'.
Proof.
  rewrite !elem_of_cons. intros Hin. destruct_or!; try (by apply elem_of_nil in Hin);
    rewrite Hin; cbn [constopt_table].
  - opt_imm Hin alu_addi.
  - opt_imm Hin alu_slti.
  - opt_imm Hin alu_sltiu.
  - opt_imm Hin alu_xori.
  - opt_imm Hin alu_ori.
  - opt_imm Hin alu_andi.
  - opt_imm Hin alu_slli.
  - opt_imm Hin alu_srli.
  - opt_imm Hin alu_srai.
Qed.

Lemma reg_steps (ir' : rv_insn_t) (info' : constopt_info_t) :
  ir.(opcode) ∈ [rv_insn_add; rv_insn_sub; rv_insn_sll; rv_insn_slt; rv_insn_sltu; rv_insn_xor;
                 rv_insn_srl; rv_insn_sra; rv_insn_or; rv_insn_and; rv_insn_mul; rv_insn_mulh;
                 rv_insn_mulhsu; rv_insn_mulhu; rv_insn_div; rv_insn_divu; rv_insn_rem; rv_insn_remu;
                 rv_insn_csub; rv_insn_cxor; rv_insn_cor; rv_insn_cand; rv_insn_cadd] ->
  constopt_table ir.(opcode) ir info = Some (ir', info') -> step_ok rv ir cycle pc ir' info'.
Proof.
  rewrite !elem_of_cons. intros Hin. destruct_or!; try (by apply elem_of_nil in Hin);
    rewrite Hin; cbn [constopt_table].
  - opt_reg Hin alu_add.
  - opt_reg Hin alu_sub.
  - opt_reg Hin alu_sll.
  - opt_reg Hin alu_slt.
  - opt_reg Hin alu_sltu.
  - opt_reg Hin alu_xor.
  - opt_reg Hin alu_srl.
  - opt_reg Hin alu_sra.
  - opt_reg Hin alu_or.
  - opt_reg Hin alu_and.
  - opt_reg Hin alu_mul.
  - opt_reg Hin alu_mulh.
  - opt_reg Hin alu_mulhsu.
  - opt_reg Hin alu_mulhu.
  - opt_reg Hin alu_div.
  - opt_reg Hin alu_divu.
  - opt_reg Hin alu_rem.
  - opt_reg Hin alu_remu.
  - opt_reg Hin alu_sub.
  - opt_reg Hin alu_xor.
  - opt_reg Hin alu_or.
  - opt_reg Hin alu_and.
  - opt_reg Hin alu_add.
Qed.

Lemma csrai_fold (mask : Z) (l : list Z) (a : Z) :
  is_u32 mask -> is_u32 a -> Forall (fun i => 0 <= i) l ->
  u32 (fold_left (fun imm i => i32 (u32 imm .| (mask ≫ i))) l (i32 a))
  = fold_left (fun x i => x .| (mask ≫ i)) l a.
Proof.
  intros Hm. revert a. induction l as [|i l IH]; intros a Ha Hl; cbn [fold_left].
  - by rewrite u32_i32, u32_id.
  - apply Forall_cons in Hl as [Hi Hl]. rewrite u32_i32, (u32_id a) by done.
    apply IH; [|done]. apply u32_lor; [done|]. by apply u32_shiftr.
Qed.

Lemma upper_steps (ir' : rv_insn_t) (info' : constopt_info_t) :
  ir.(Insn.pc) = pc ->
  ir.(opcode) ∈ [rv_insn_lui; rv_insn_auipc; rv_insn_cli; rv_insn_clui] ->
  constopt_table ir.(opcode) ir info = Some (ir', info') -> step_ok rv ir cycle pc ir' info'.
Proof.
  pose proof (pl_regs _ (io_plain _ Hir)) as (? & ? & ? & _). intros Hpc.
  assert (Hnz : ir.(opcode) ∈ [rv_insn_lui; rv_insn_auipc; rv_insn_cli; rv_insn_clui] -> ir.(rd) <> 0).
  { pose proof (io_constopt _ Hir) as Hc. unfold constopt_static in Hc. rewrite !elem_of_cons.
    intros Hin. destruct_or!; try (by apply elem_of_nil in Hin); rewrite Hin in Hc;
      first [by destruct (Z.eqb_spec ir.(rd) 0) | apply (unguarded_rd ir Hir); by rewrite Hin]. }
  intros Hin. specialize (Hnz Hin). revert Hin. rewrite !elem_of_cons.
  intros Hin. destruct_or!; try (by apply elem_of_nil in Hin); rewrite Hin; cbn [constopt_table].
  - intros [= <- <-]. apply (kept_learn rv info ir cycle pc Hwf Hok Hir); [|lia].
    intros c. by rewrite Hin.
  - apply (loaded rv info ir cycle pc Hwf Hok Hir); [|by left|by rewrite Hin|done].
    intros c. rewrite Hin, Hpc. cbn [code_of]. unfold code_auipc, write_rd, add32. by rewrite u32_u32.
  - intros [= <- <-]. apply (kept_learn rv info ir cycle pc Hwf Hok Hir); [|lia].
    intros c. by rewrite Hin.
  - intros [= <- <-]. apply (kept_learn rv info ir cycle pc Hwf Hok Hir); [|lia].
    intros c. by rewrite Hin.
Qed.

Lemma compressed_steps (ir' : rv_insn_t) (info' : constopt_info_t) :
  ir.(opcode) ∈ [rv_insn_caddi4spn; rv_insn_cmv] ->
  constopt_table ir.(opcode) ir info = Some (ir', info') -> step_ok rv ir cycle pc ir' info'.
Proof.
  pose proof (pl_regs _ (io_plain _ Hir)) as (? & ? & ? & _). rewrite !elem_of_cons. intros Hin.
  destruct_or!; try (by apply elem_of_nil in Hin); rewrite Hin; cbn [constopt_table].
  - unfold constopt_caddi4spn. destruct (known info rv_reg_sp) eqn:Hk.
    + apply (loaded rv info ir cycle pc Hwf Hok Hir); [|by right|by rewrite Hin|].
      * intros c. rewrite Hin. cbn [code_of]. unfold code_caddi4spn, write_rd, alu_caddi4spn, add32.
        by rewrite u32_u32, (known_value rv info Hok).
      * apply (unguarded_rd ir Hir). by rewrite Hin.
    + intros [= <- <-]. apply (kept_forget rv info ir cycle pc Hok Hir);
        [by rewrite Hin|by unfold dest; rewrite Hin|done].
  - unfold constopt_cmv. destruct (known info ir.(rs2)) eqn:Hk.
    + apply (loaded rv info ir cycle pc Hwf Hok Hir); [|by right|by rewrite Hin|].
      * intros c. rewrite Hin. cbn [code_of]. unfold code_cmv, write_rd.
        rewrite (known_value rv info Hok) by done. rewrite u32_id by (by apply xreg_u32). done.
      * apply (unguarded_rd ir Hir). by rewrite Hin.
    + intros [= <- <-]. apply (kept_forget rv info ir cycle pc Hok Hir);
        [by rewrite Hin|by unfold dest; rewrite Hin|done].
Qed.

(** Instructions with one register as source and destination. *)
Lemma update_step (r : Z) (v : option Z) (ir' : rv_insn_t) (info' : constopt_info_t) :
  (forall w, v = Some w -> known info r = true -> assigns rv ir pc r (u32 w)) ->
  0 < r < 32 -> insn_len ir.(opcode) = 2 -> insn_is_branch ir.(opcode) = false ->
  dest ir = Some r ->
  (if known info r then let? w := v in update_const r w ir info else Some (ir, info))
    = Some (ir', info') ->
  step_ok rv ir cycle pc ir' info'.
Proof.
  intros Ha Hr Hl Hb Hd. destruct (known info r) eqn:Hk.
  - destruct v as [w|]; [|done]. apply (updated rv info ir cycle pc Hwf Hok Hir); try done. by apply Ha.
  - intros [= <- <-]. by apply (kept_unknown rv info ir cycle pc Hok Hir r).
Qed.

Lemma static_rs1 :
  ir.(opcode) ∈ [rv_insn_csrli; rv_insn_csrai; rv_insn_candi] -> ir.(rs1) <> 0.
Proof.
  pose proof (io_static _ Hir) as Hs. unfold static_ok in Hs.
  apply andb_true_iff in Hs as [_ Hs]. rewrite !elem_of_cons. intros Hin Hz. rewrite Hz in Hs.
  destruct_or!; try (by apply elem_of_nil in Hin); rewrite Hin in Hs; done.
Qed.

Lemma rd_update_steps (ir' : rv_insn_t) (info' : constopt_info_t) :
  ir.(opcode) ∈ [rv_insn_caddi; rv_insn_caddi16sp; rv_insn_cslli] ->
  constopt_table ir.(opcode) ir info = Some (ir', info') -> step_ok rv ir cycle pc ir' info'.
Proof.
  pose proof (pl_regs _ (io_plain _ Hir)) as (? & ? & ? & _). intros Hin.
  assert (Hnz : ir.(rd) <> 0).
  { apply (unguarded_rd ir Hir). revert Hin. rewrite !elem_of_cons.
    intros Hin. destruct_or!; try (by apply elem_of_nil in Hin); by rewrite Hin. }
  revert Hin. rewrite !elem_of_cons. intros Hin.
  destruct_or!; try (by apply elem_of_nil in Hin); rewrite Hin; cbn [constopt_table].
  - apply (update_step ir.(rd) (Some _)); [|lia|by rewrite Hin|by rewrite Hin|by unfold dest; rewrite Hin].
    intros w [= <-] Hk c. rewrite Hin. cbn [code_of]. unfold code_caddi, write_rd, alu_caddi, add32.
    by rewrite u32_u32, (known_value rv info Hok).
  - apply (update_step ir.(rd) (Some _)); [|lia|by rewrite Hin|by rewrite Hin|by unfold dest; rewrite Hin].
    intros w [= <-] Hk c. rewrite Hin. cbn [code_of]. unfold code_caddi16sp, write_rd, alu_caddi16sp, add32.
    by rewrite u32_u32, (known_value rv info Hok).
  - apply (update_step ir.(rd)); [|lia|by rewrite Hin|by rewrite Hin|by unfold dest; rewrite Hin].
    intros w Hw Hk c. rewrite (known_value rv info Hok) in Hw by done. rewrite Hin. cbn [code_of].
    unfold code_cslli, write_rd, alu_cslli. rewrite Hw.
    rewrite u32_id by (by eapply c_shl_u32). done.
Qed.

Lemma rs1_update_steps (ir' : rv_insn_t) (info' : constopt_info_t) :
  ir.(opcode) ∈ [rv_insn_csrli; rv_insn_csrai; rv_insn_candi] ->
  constopt_table ir.(opcode) ir info = Some (ir', info') -> step_ok rv ir cycle pc ir' info'.
Proof.
  pose proof (pl_regs _ (io_plain _ Hir)) as (? & ? & ? & ?). intros Hin. pose proof (static_rs1 Hin) as Hnz.
  pose proof (xreg_u32 rv ir.(rs1) Hwf) as Hu. revert Hin. rewrite !elem_of_cons. intros Hin.
  destruct_or!; try (by apply elem_of_nil in Hin); rewrite Hin; cbn [constopt_table].
  - apply (update_step ir.(rs1)); [|lia|by rewrite Hin|by rewrite Hin|by unfold dest; rewrite Hin].
    intros w Hw Hk c. rewrite (known_value rv info Hok) in Hw by done. rewrite Hin. cbn [code_of].
    unfold code_csrli, alu_csrli. rewrite Hw. rewrite u32_id by (eapply c_shr_u32; done). done.
  - unfold constopt_csrai. intros Hc.
    apply (update_step ir.(rs1) (let? v := c_shr (value info ir.(rs1)) ir.(shamt) in
      Some (fold_left (fun imm i => i32 (u32 imm .| ((0x80000000 .& value info ir.(rs1)) ≫ i)))
              (seqZ 0 ir.(shamt)) (i32 v))));
      [|lia|by rewrite Hin|by rewrite Hin|by unfold dest; rewrite Hin|
       destruct (known _ _); [destruct (c_shr _ _); exact Hc|exact Hc]].
    intros w Hw Hk c. rewrite (known_value rv info Hok) in Hw by done. rewrite Hin. cbn [code_of].
    unfold code_csrai, alu_csrai. revert Hw.
    destruct (c_shr (xreg rv ir.(rs1)) ir.(shamt)) as [v|] eqn:Hv; intros Hw; [|discriminate Hw].
    apply Some_inj in Hw. subst w. rewrite csrai_fold; [done| | |].
    + apply u32_land_r. done.
    + eapply c_shr_u32; done.
    + apply (proj2 (list.Forall_forall _ _)). intros i Hi%elem_of_seqZ. lia.
  - apply (update_step ir.(rs1) (Some _)); [|lia|by rewrite Hin|by rewrite Hin|by unfold dest; rewrite Hin].
    intros w [= <-] Hk c. rewrite Hin. cbn [code_of]. unfold code_candi, alu_candi.
    rewrite (known_value rv info Hok) by done. rewrite (u32_id (_ .& _)) by (by apply u32_land_l). done.
Qed.

(** Instructions that assign a register and are not analysed. *)
Lemma forget_nz_step (ir' : rv_insn_t) (info' : constopt_info_t) :
  insn_is_branch ir.(opcode) = false ->
  dest ir = (if truthy ir.(rd) then Some ir.(rd) else None)
  \/ (dest ir = Some ir.(rd) /\ ir.(rd) <> 0) ->
  forget_rd_nz ir info = Some (ir', info') -> step_ok rv ir cycle pc ir' info'.
Proof.
  pose proof (pl_regs _ (io_plain _ Hir)) as (? & _). intros Hb Hd [= <- <-]. unfold truthy in *.
  destruct (Z.eqb_spec ir.(rd) 0) as [Hz|Hz]; cbn [negb] in *.
  - apply (kept_none rv info ir cycle pc Hok Hir); [done|]. by destruct Hd as [Hd|[_ ?]].
  - apply (kept_forget rv info ir cycle pc Hok Hir); [done| |done]. by destruct Hd as [Hd|[Hd _]].
Qed.

Lemma zero_steps :
  ir.(opcode) = rv_insn_nop -> step_ok rv ir cycle pc ir info.
Proof. intros Ho. apply (kept_zero rv info ir cycle pc Hwf Hok Hir). intros c. by rewrite Ho. Qed.

(** [sc.w] with destination x0 resets x0. *)
Lemma scw_step : ir.(opcode) = rv_insn_scw -> step_ok rv ir cycle pc ir info.
Proof.
  intros Ho. assert (Hz : ir.(rd) = 0).
  { pose proof (io_constopt _ Hir) as Hc. unfold constopt_static in Hc. rewrite Ho in Hc.
    by apply Z.eqb_eq. }
  apply kept. intros rv' c' p' E. destruct Hok as [? ? Hk Hz0].
  assert (Hb : insn_is_branch ir.(opcode) = false) by (by rewrite Ho).
  constructor; [done|done| |done]. intros r Hr Hkn. destruct (decide (r = 0)) as [->|Hne].
  - rewrite Hz0 by done. destruct (next_code rv ir cycle pc (io_plain _ Hir) rv' c' p' E) as (rv1 & q & Hc & Hrv & _).
    rewrite <- (equiv_xreg _ _ _ Hrv). rewrite Ho in Hc. cbn [code_of] in Hc. revert Hc.
    unfold code_scw, access, exc_misaligned, write_rd. rewrite Hz.
    destruct (misaligned _ _ _); [by destruct (SET_CAUSE_AND_TVAL_THEN_TRAP _ _ _)|].
    destruct (ram_write_w _ _ _) as [m|]; [|done]. intros [= <- _ _].
    apply xreg_set_eq; [|lia]. cbn [X set_mem]. rewrite X_trace. apply Hwf.
  - rewrite <- Hk by done. eapply (next_frame_dest rv ir cycle pc (io_plain _ Hir)); [done|exact E|lia|].
    unfold dest. rewrite Ho, Hz. congruence.
Qed.

Ltac in_list Ho := rewrite Ho; repeat constructor.

(** Every instruction that falls through. *)
Lemma constopt_step (ir' : rv_insn_t) (info' : constopt_info_t) :
  ir.(Insn.pc) = pc -> insn_is_branch ir.(opcode) = false ->
  constopt_table ir.(opcode) ir info = Some (ir', info') -> step_ok rv ir cycle pc ir' info'.
Proof.
  pose proof (pl_regs _ (io_plain _ Hir)) as (? & _). intros Hpc Hb.
  destruct (opcode ir) eqn:Ho; try discriminate Hb; rewrite <- Ho; intros Hc;
    first
    [ solve [apply imm_steps; [in_list Ho|exact Hc]]
    | solve [apply reg_steps; [in_list Ho|exact Hc]]
    | solve [apply upper_steps; [done|in_list Ho|exact Hc]]
    | solve [apply compressed_steps; [in_list Ho|exact Hc]]
    | solve [apply rd_update_steps; [in_list Ho|exact Hc]]
    | solve [apply rs1_update_steps; [in_list Ho|exact Hc]]
    | idtac ];
    rewrite Ho in Hc; cbn [constopt_table] in Hc;
    first
    [ discriminate Hc
    | apply Some_inj, pair_equal_spec in Hc as [<- <-];
      first
      [ exact (zero_steps Ho) | exact (scw_step Ho)
      | apply (kept_none rv info ir cycle pc Hok Hir); [by rewrite Ho|by unfold dest; rewrite Ho]
      | apply (kept_forget rv info ir cycle pc Hok Hir); [by rewrite Ho|by unfold dest; rewrite Ho|done]
      | apply (kept_exit rv info ir cycle pc Hir); intros c; rewrite Ho; exact I ]
    | apply forget_nz_step;
      [by rewrite Ho|unfold dest; rewrite Ho; (by left) || (right; split; [done|apply (unguarded_rd ir Hir); by rewrite Ho])
      |exact Hc] ].
Qed.
End Instructions.

(** * Branches *)

Section Branches.
Context `{HostClock} `{Syscall} `{SoftFloat} `{!EnvBlind}.
Context (rv : riscv) (info : constopt_info_t) (ir : rv_insn_t) (cycle pc : Z).
Context (Hwf : riscv_wf rv) (Hok : info_ok info rv) (Hir : ir_ok ir).

(** Control goes to [p] and nothing else changes. *)
Definition goes (p c : Z) : option (riscv * bool) := settle (Next rv c p).

Lemma goes_jal (ir' : rv_insn_t) (c : Z) :
  ir'.(rd) = 0 -> settle (finish 4 (code_jal rv ir' c pc)) = goes (add32 pc ir'.(imm)) c.
Proof. intros Hrd. unfold code_jal. rewrite Hrd. by destruct (branch_taken ir'). Qed.

Lemma goes_cj (ir' : rv_insn_t) (c : Z) :
  settle (finish 2 (code_cj rv ir' c pc)) = goes (add32 pc ir'.(imm)) c.
Proof. unfold code_cj. by destruct (branch_taken ir'). Qed.

Lemma goes_branch (u : Z -> Z -> bool) (c : Z) :
  settle (finish 4 (BRANCH_FUNC u rv ir c pc))
  = goes (add32 pc (if u (xreg rv ir.(rs1)) (xreg rv ir.(rs2)) then 4 else ir.(imm))) c.
Proof.
  unfold BRANCH_FUNC. destruct (u _ _).
  - by destruct (branch_untaken ir).
  - by destruct (ir.(imm) <? 0).
Qed.

Lemma goes_cbranch (u : Z -> bool) (c : Z) :
  settle (finish 2 (cbranch u rv ir c pc))
  = goes (add32 pc (if u (xreg rv ir.(rs1)) then 2 else ir.(imm))) c.
Proof.
  unfold cbranch. destruct (u _).
  - by destruct (branch_untaken ir).
  - by destruct (branch_taken ir).
Qed.

Lemma opt_branch_sound (u : Z -> Z -> bool) (ir' : rv_insn_t) (info' : constopt_info_t) :
  code_of ir.(opcode) = BRANCH_FUNC u -> insn_len ir.(opcode) = 4 -> ir.(rd) = 0 ->
  OPT_BRANCH_FUNC u ir info = Some (ir', info') ->
  settle (exec_ir rv ir' cycle pc) = settle (exec_ir rv ir cycle pc).
Proof.
  intros Hc Hl Hrd. pose proof (pl_regs _ (io_plain _ Hir)) as (? & ? & ? & _). unfold OPT_BRANCH_FUNC.
  destruct (known info ir.(rs1)) eqn:Hk1; [destruct (known info ir.(rs2)) eqn:Hk2|]; cbn [andb];
    [|by intros [= <- <-]..].
  intros [= <- <-]. rewrite (exec_ir_code rv ir) by apply Hir. rewrite Hc, Hl, goes_branch.
  rewrite exec_ir_code by done. change (opcode (replace _ _)) with rv_insn_jal. cbn [code_of insn_len].
  rewrite !(known_value rv info Hok) by done. rewrite goes_jal.
  - by destruct (u _ _).
  - by destruct (u _ _).
Qed.

Lemma opt_cbranch_sound (u : Z -> bool) (ir' : rv_insn_t) (info' : constopt_info_t) :
  code_of ir.(opcode) = cbranch u -> insn_len ir.(opcode) = 2 ->
  opt_cbranch u ir info = Some (ir', info') ->
  settle (exec_ir rv ir' cycle pc) = settle (exec_ir rv ir cycle pc).
Proof.
  intros Hc Hl. pose proof (pl_regs _ (io_plain _ Hir)) as (? & ? & ? & _). unfold opt_cbranch.
  destruct (known info ir.(rs1)) eqn:Hk1; [|by intros [= <- <-]].
  intros [= <- <-]. rewrite (exec_ir_code rv ir) by apply Hir. rewrite Hc, Hl, goes_cbranch.
  rewrite exec_ir_code by done. change (opcode (replace _ _)) with rv_insn_cj. cbn [code_of insn_len].
  rewrite !(known_value rv info Hok) by done. rewrite goes_cj. by destruct (u _).
Qed.

Lemma constopt_branch (ir' : rv_insn_t) (info' : constopt_info_t) :
  insn_is_branch ir.(opcode) = true ->
  constopt_table ir.(opcode) ir info = Some (ir', info') ->
  settle (exec_ir rv ir' cycle pc) = settle (exec_ir rv ir cycle pc).
Proof.
  intros Hb. pose proof (io_constopt _ Hir) as Hs. unfold constopt_static in Hs.
  destruct (opcode ir) eqn:Ho; try discriminate Hb; cbn [constopt_table]; intros Hc;
    first
    [ by apply Some_inj, pair_equal_spec in Hc as [<- _]
    | eapply (opt_branch_sound _ ir' info');
        [rewrite Ho; reflexivity|by rewrite Ho|by apply Z.eqb_eq|exact Hc]
    | eapply (opt_cbranch_sound _ ir' info'); [rewrite Ho; reflexivity|by rewrite Ho|exact Hc] ].
Qed.
End Branches.

(** * Decoded instructions *)

(** Conditional branches have no destination field, and nothing is chained to a
    decoded instruction. *)
Definition branch_rd_0 (ir : rv_insn_t) : bool :=
  match ir.(opcode) with
  | rv_insn_beq | rv_insn_bne | rv_insn_blt | rv_insn_bge | rv_insn_bltu | rv_insn_bgeu =>
      ir.(rd) =? 0
  | _ => true
  end.

Definition out_branch (r : option (bool * rv_insn_t)) : Prop :=
  match r with
  | Some (true, ir) => branch_rd_0 ir = true /\ ir.(branch_taken) = None /\ ir.(branch_untaken) = None
  | _ => True
  end.

Definition handler_branch (h : decode_t) : Prop := forall insn, out_branch (h rv_insn_zero insn).

Ltac handler_branch :=
  intros insn; autounfold with handlers; unfold op_cmisc_alu, op_caddi4spn, op_caddi, op_cslli;
  cbv beta zeta;
  repeat match goal with
  | |- out_branch (match ?x with _ => _ end) => destruct x eqn:?
  | |- out_branch (accept (if ?x then _ else _) _) => destruct x eqn:?
  | |- out_branch (Some (true, set_opcode (if ?x then _ else _) _)) => destruct x
  | |- out_branch (Some (?a || ?b, _)) => destruct (a || b)
  end;
  unfold accept, reject, out_branch; try (split_and!; reflexivity); try exact I.

Lemma rv_jump_table_branch : Forall handler_branch rv_jump_table.
Proof. repeat (apply List.Forall_cons; [handler_branch|]). apply List.Forall_nil. Qed.

Lemma rvc_jump_table_branch : Forall handler_branch rvc_jump_table.
Proof. repeat (apply List.Forall_cons; [handler_branch|]). apply List.Forall_nil. Qed.

Lemma table_lookup_branch (t : list decode_t) (i : Z) :
  Forall handler_branch t -> handler_branch (table_lookup t i).
Proof.
  intros Ht. unfold table_lookup.
  destruct (nth_in_or_default (Z.to_nat i) t op_unimp) as [Hin| ->].
  - apply (proj1 (List.Forall_forall _ _) Ht _ Hin).
  - handler_branch.
Qed.

Lemma decode_branch_rd (insn : Z) (ir : rv_insn_t) :
  decode insn = Some (true, ir) ->
  branch_rd_0 ir = true /\ ir.(branch_taken) = None /\ ir.(branch_untaken) = None.
Proof.
  intros Hd. assert (Hs : out_branch (decode insn)).
  { unfold decode, rv_decode. destruct (is_compressed insn).
    - apply (table_lookup_branch _ _ rvc_jump_table_branch).
    - apply (table_lookup_branch _ _ rv_jump_table_branch). }
  by rewrite Hd in Hs.
Qed.

(** The two instructions the pass mishandles: [sc.w] with a destination and
    [c.li] to x0. *)
Definition handled (ir : rv_insn_t) : bool :=
  match ir.(opcode) with
  | rv_insn_scw => ir.(rd) =? 0
  | rv_insn_cli => negb (ir.(rd) =? 0)
  | _ => true
  end.

Lemma translated_fields (pc : Z) (ir : rv_insn_t) :
  (translated pc ir).(opcode) = ir.(opcode) /\ (translated pc ir).(impl) = ir.(opcode) /\
  (translated pc ir).(Insn.pc) = pc /\ (translated pc ir).(rd) = ir.(rd) /\
  (translated pc ir).(rs1) = ir.(rs1) /\ (translated pc ir).(rs2) = ir.(rs2) /\
  (translated pc ir).(imm) = ir.(imm) /\ (translated pc ir).(shamt) = ir.(shamt).
Proof. unfold translated. by destruct (insn_is_indirect_branch _). Qed.

Lemma decoded_plain (insn : Z) (ir : rv_insn_t) :
  is_u32 insn -> decode insn = Some (true, ir) -> is_fused ir.(opcode) = false.
Proof.
  intros Hi Hd. assert (Hw : out_wf (if is_compressed insn then 2 else 4) (decode insn))
    by (by apply decode_out_wf).
  rewrite Hd in Hw. destruct Hw as (_ & Hin & _). revert Hin.
  apply (proj1 (list.Forall_forall (fun o => is_fused o = false) RV_INSN_LIST)).
  repeat constructor.
Qed.

Lemma decoded_len (insn : Z) (ir : rv_insn_t) :
  is_u32 insn -> decode insn = Some (true, ir) -> insn_is_branch ir.(opcode) = false ->
  insn_len ir.(opcode) = if is_compressed insn then 2 else 4.
Proof.
  intros Hi Hd Hb. assert (Hw : out_wf (if is_compressed insn then 2 else 4) (decode insn))
    by (by apply decode_out_wf).
  rewrite Hd in Hw. destruct Hw as (_ & _ & Hl). destruct (Hl eq_refl) as [[?|Ho] _]; [done|].
  by rewrite Ho in Hb.
Qed.

Lemma translated_ok (insn pc : Z) (ir : rv_insn_t) :
  is_u32 insn -> decode insn = Some (true, ir) -> handled (translated pc ir) = true ->
  ir_ok (translated pc ir).
Proof.
  intros Hi Hd Hh. destruct (translated_fields pc ir) as (Ho & Him & _ & Hrd & H1 & H2 & Himm & Hsh).
  constructor; [constructor| |].
  - pose proof (decode_regs _ _ Hi Hd) as Hr. unfold regs_ok in *. by rewrite Hrd, H1, H2, Hsh.
  - by rewrite Ho, Him.
  - rewrite Ho. by eapply decoded_plain.
  - pose proof (decode_static _ _ Hi Hd) as Hs. unfold static_ok in *. by rewrite Ho, Hrd, H1, Himm, Hsh.
  - pose proof (decode_branch_rd _ _ Hd) as [Hb _]. unfold handled, branch_rd_0, constopt_static in *.
    rewrite Ho, Hrd in *. by destruct (opcode ir).
Qed.

(** * Blocks *)

Section Blocks.
Context `{HostClock} `{Syscall} `{SoftFloat} `{!EnvBlind} `{!SyscallWf}.

(** Falling off the end of a block returns to the run loop. *)
Lemma settle_last (ir : rv_insn_t) (rv : riscv) (cycle pc : Z) :
  settle (exec_irs [ir] rv cycle pc) = settle (exec_ir rv ir cycle pc).
Proof. cbn [exec_irs]. by destruct (exec_ir rv ir cycle pc). Qed.

Lemma optimize_irs_sound (m : memory_t) (pc e : Z) (irs irs' : list rv_insn_t)
    (info : constopt_info_t) (rv : riscv) (cycle : Z) :
  mem_wf m -> code_at m pc irs e -> Forall (fun ir => handled ir = true) irs ->
  riscv_wf rv -> is_u32 pc -> info_ok info rv -> optimize_irs irs info = Some irs' ->
  settle (exec_irs irs' rv cycle pc) = settle (exec_irs irs rv cycle pc).
Proof.
  intros Hm Hc. revert irs' info rv cycle.
  induction Hc as [pc|pc e insn ir irs Hf Hnz Hd Hb Hc IH]; intros irs' info rv cycle Hh Hwf Hpc Hok;
    cbn [optimize_irs]; [by intros [= <-]|].
  apply Forall_cons in Hh as [Hh Hhs].
  assert (Hi : is_u32 insn) by (eapply (checked_load_u32 4); [exact Hm|lia|exact Hf]).
  pose proof (translated_ok _ _ _ Hi Hd Hh) as Hir.
  destruct (translated_fields pc ir) as (Ho & _ & Hp & _).
  destruct (constopt_table _ _ _) as [[ir' info']|] eqn:Ht; [|done].
  destruct (optimize_irs irs info') as [irs1|] eqn:Hirs; [|done]. intros [= <-].
  destruct (insn_is_branch ir.(opcode)) eqn:Hbr.
  - rewrite (Hb eq_refl) in *. cbn in Hirs. apply Some_inj in Hirs as <-. rewrite !settle_last.
    exact (constopt_branch rv info _ cycle pc Hok Hir _ _ (eq_trans (f_equal _ Ho) Hbr) Ht).
  - assert (Hbr' : insn_is_branch (translated pc ir).(opcode) = false) by (by rewrite Ho).
    destruct (constopt_step rv info _ cycle pc Hwf Hok Hir _ _ Hp Hbr' Ht) as [He Hn].
    cbn [exec_irs]. destruct (exec_ir rv (translated pc ir) cycle pc) as [rv1 c1 p1| | | |] eqn:E.
    2-5: (unfold equiv, outcome_equiv in He; rewrite <- (settle_proper _ _ He);
          destruct (exec_ir rv ir' cycle pc); try discriminate He; done).
    destruct (exec_ir rv ir' cycle pc) as [rv2 c2 p2| | | |] eqn:E'; try discriminate He.
    assert (Hrv : rv2 ≡ rv1) by (unfold equiv, outcome_equiv in He; unfold equiv, riscv_equiv; cbn in He; congruence).
    assert (c2 = c1 /\ p2 = p1) as [-> ->] by (unfold equiv, outcome_equiv in He; cbn in He; split; congruence).
    rewrite (settle_proper _ _ (exec_irs_equiv irs1 rv2 rv1 c1 p1 Hrv)).
    destruct (next_pc rv _ cycle pc (io_plain _ Hir) _ _ _ Hbr' E) as [-> ->].
    rewrite Ho, (decoded_len insn ir Hi Hd Hbr). apply (IH irs1 info'); try done.
    + exact (exec_next_wf _ _ _ _ (io_plain _ Hir) _ _ _ Hwf Hpc E).
    + apply u32_range.
    + exact (Hn _ _ _ eq_refl).
Qed.

(** C8. Constant propagation preserves the meaning of a block.  Take the
    straight-line code at [pc] in which no [sc.w] has a destination and no
    [c.li] targets x0.  If the pass returns, then from every well-formed state
    with x0 = 0 the optimised instructions leave the run loop with the same
    registers, memory, CSRs, program counter and cycle count (everything but
    the statistics) and the same return value as the original ones. *)
Theorem optimize_constant_sound (m : memory_t) (pc e : Z) (irs irs' : list rv_insn_t)
    (rv0 rv : riscv) (cycle : Z) :
  mem_wf m -> is_u32 pc -> code_at m pc irs e -> Forall (fun ir => handled ir = true) irs ->
  optimize_constant rv0 irs = Some irs' -> riscv_wf rv -> xreg rv 0 = 0 ->
  settle (exec_irs irs' rv cycle pc) = settle (exec_irs irs rv cycle pc).
Proof.
  intros Hm Hpc Hc Hh Ho Hwf Hx. unfold optimize_constant in Ho.
  destruct (xreg rv0 rv_reg_zero =? 0); [|done].
  eapply optimize_irs_sound; [exact Hm|exact Hc|done..| |exact Ho]. by apply info_0_ok.
Qed.
End Blocks.

(** * When the pass is defined *)

(** The state of the pass: 32 registers, and constants of 32 bits. *)
Record info_wf (info : constopt_info_t) : Prop := {
  iw_known : length info.(is_constant) = 32%nat;
  iw_len : length info.(const_val) = 32%nat;
  iw_vals : Forall is_u32 info.(const_val) }.

Lemma info_0_wf : info_wf constopt_info_0.
Proof. split; [done|done|]. by apply Forall_replicate. Qed.

Lemma set_known_wf (r : Z) (b : bool) (info : constopt_info_t) : info_wf info -> info_wf (set_known r b info).
Proof. intros [Hk Hl Hv]. split; cbn; [by rewrite length_insert|done|done]. Qed.

Lemma set_value_wf (r v : Z) (info : constopt_info_t) : is_u32 v -> info_wf info -> info_wf (set_value r v info).
Proof. intros Hu [Hk Hl Hv]. split; cbn; [done|by rewrite length_insert|by apply Forall_insert]. Qed.

Lemma info_value_u32 (r : Z) (info : constopt_info_t) : info_wf info -> is_u32 (value info r).
Proof.
  intros [_ _ Hv]. unfold value. rewrite list_lookup_total_alt. destruct (const_val info !! Z.to_nat r) eqn:E; [|done].
  by eapply Forall_lookup_1.
Qed.

(** Where the C operators are defined. *)

Lemma masked_shift_defined (x n : Z) : c_shl x (n .& 0x1f) <> None /\ c_shr x (n .& 0x1f) <> None.
Proof.
  change 0x1f with (Z.ones 5). rewrite Z.land_ones by lia. pose proof (Z.mod_pos_bound n (2 ^ 5) ltac:(lia)) as Hn.
  change (2 ^ 5) with 32 in *. unfold c_shl, c_shr. by rewrite (proj2 (Z.ltb_lt _ _)) by lia.
Qed.

Lemma c_mul64_none (a b : Z) : c_mul64 a b = None <-> a * b < - 2 ^ 63 \/ 2 ^ 63 <= a * b.
Proof.
  unfold c_mul64. cbv zeta. generalize (a * b). intros p.
  destruct (Z.leb_spec (- 2 ^ 63) p), (Z.ltb_spec p (2 ^ 63)); cbn [andb]; (split; [intros|intros [|]]); try done; lia.
Qed.

Lemma mul_defined (x y : Z) : is_u32 y -> c_mul64 (i32 x) (i32 y) <> None /\ c_mul64 (i32 x) y <> None.
Proof.
  intros Hy. pose proof (i32_range x). pose proof (i32_range y). unfold is_u32 in *.
  rewrite !c_mul64_none. unfold is_i32 in *. split; intros [|]; nia.
Qed.

(** The code guards the two cases in which the quotient is undefined. *)
Lemma div_defined (x y : Z) :
  is_u32 x -> (i32 y =? 0) = false -> (i32 y =? -1) && (x =? 0x80000000) = false ->
  c_div32 (i32 x) (i32 y) <> None /\ c_rem32 (i32 x) (i32 y) <> None.
Proof.
  intros Hx Hz Ho. unfold c_div32, c_rem32. rewrite Hz. cbn [orb].
  assert (E : (i32 x =? - 2 ^ 31) && (i32 y =? -1) = false).
  { rewrite andb_comm. destruct (i32 y =? -1); [|done]. cbn [andb] in *. apply Z.eqb_neq in Ho. apply Z.eqb_neq.
    intros E. apply Ho. rewrite <- (u32_id x Hx), <- (u32_i32 x), E. reflexivity. }
  by rewrite E.
Qed.

Lemma opt_imm_none (o : opcode_t) (f : Z -> Z -> option Z) (ir : rv_insn_t) (info : constopt_info_t) :
  opt_imm o f ir info = None <-> known info ir.(rs1) = true /\ f (value info ir.(rs1)) ir.(imm) = None.
Proof. unfold opt_imm. destruct (known _ _); [|naive_solver]. destruct (f _ _); naive_solver. Qed.

Lemma opt_reg_none (o : opcode_t) (f : Z -> Z -> option Z) (ir : rv_insn_t) (info : constopt_info_t) :
  opt_reg o f ir info = None <->
  known info ir.(rs1) && known info ir.(rs2) = true /\ f (value info ir.(rs1)) (value info ir.(rs2)) = None.
Proof. unfold opt_reg. destruct (_ && _); [|naive_solver]. destruct (f _ _); naive_solver. Qed.

(** An operation that is never undefined on 32-bit constants. *)
Lemma opt_imm_defined (o : opcode_t) (f : Z -> Z -> option Z) (ir : rv_insn_t) (info : constopt_info_t) :
  info_wf info -> (forall x n, is_u32 x -> f x n <> None) -> opt_imm o f ir info <> None.
Proof. intros Hi Hf. rewrite opt_imm_none. intros [_ E]. by apply (Hf _ _ (info_value_u32 _ _ Hi) E). Qed.

Lemma opt_reg_defined (o : opcode_t) (f : Z -> Z -> option Z) (ir : rv_insn_t) (info : constopt_info_t) :
  info_wf info -> (forall x y, is_u32 x -> is_u32 y -> f x y <> None) -> opt_reg o f ir info <> None.
Proof.
  intros Hi Hf. rewrite opt_reg_none. intros [_ E].
  by apply (Hf _ _ (info_value_u32 _ _ Hi) (info_value_u32 _ _ Hi) E).
Qed.

Ltac op_defined :=
  intros; cbv beta zeta;
  repeat match goal with
  | |- Some _ <> None => done
  | |- c_shl _ (_ .& _) <> None => apply masked_shift_defined
  | |- c_shr _ (_ .& _) <> None => apply masked_shift_defined
  | |- c_rem32 _ _ <> None => by apply div_defined
  | H : (?y =? 0) = false |- c_divu32 _ ?y <> None => unfold c_divu32; by rewrite H
  | H : (?y =? 0) = false |- c_remu32 _ ?y <> None => unfold c_remu32; by rewrite H
  | H : is_u32 ?b |- context [match c_mul64 (i32 ?a) (i32 ?b) with _ => _ end] =>
      let E := fresh in destruct (c_mul64 (i32 a) (i32 b)) eqn:E; [|destruct (proj1 (mul_defined a b H) E)]
  | H : is_u32 ?b |- context [match c_mul64 (i32 ?a) ?b with _ => _ end] =>
      let E := fresh in destruct (c_mul64 (i32 a) b) eqn:E; [|destruct (proj2 (mul_defined a b H) E)]
  | |- context [match c_div32 ?a ?b with _ => _ end] =>
      let E := fresh in destruct (c_div32 a b) eqn:E; [|exfalso; revert E; by apply div_defined]
  | |- (if ?b then _ else _) <> None => let E := fresh in destruct b eqn:E
  end.

(** The cases of undefined behaviour: the product of two constants that does not
    fit [int64_t] and a compressed shift of a constant by 32 or more. The pass has no
    function for the fused instructions. *)
Definition constopt_undefined (info : constopt_info_t) (ir : rv_insn_t) : bool :=
  match ir.(opcode) with
  | rv_insn_mulhu =>
      known info ir.(rs1) && known info ir.(rs2) &&
      (2 ^ 63 <=? value info ir.(rs1) * value info ir.(rs2))
  | rv_insn_csrli | rv_insn_csrai => known info ir.(rs1) && (32 <=? ir.(shamt))
  | rv_insn_cslli => known info ir.(rd) && (32 <=? ir.(imm) mod 256)
  | o => is_fused o
  end.

Lemma mulhu_undefined (ir : rv_insn_t) (info : constopt_info_t) :
  info_wf info -> constopt_mulhu ir info = None <->
  known info ir.(rs1) && known info ir.(rs2) && (2 ^ 63 <=? value info ir.(rs1) * value info ir.(rs2)) = true.
Proof.
  intros Hi. unfold constopt_mulhu. rewrite opt_reg_none, (andb_true_iff _ (_ <=? _)), Z.leb_le.
  pose proof (info_value_u32 ir.(rs1) info Hi) as [H1 _]. pose proof (info_value_u32 ir.(rs2) info Hi) as [H2 _].
  apply and_iff_compat_l. pose proof (c_mul64_none (value info ir.(rs1)) (value info ir.(rs2))) as Hn.
  destruct (c_mul64 _ _); (split; [intros [=]|intros Hp]); try done.
  - by destruct Hn as [_ Hn]; specialize (Hn (or_intror Hp)).
  - destruct Hn as [Hn _]. destruct (Hn eq_refl); nia.
Qed.

(** A function of the table keeps the state of the pass well-formed. *)
Definition keeps_wf (f : constopt_func_t) : Prop :=
  forall ir info ir' info', info_wf info -> f ir info = Some (ir', info') -> info_wf info'.

Ltac keep_wf :=
  intros ? ? ? ? Hi; cbv zeta; repeat case_match; first
    [ by intros [= _ <-]
    | intros [= _ <-]; by repeat first [apply set_value_wf; [apply u32_range|] | apply set_known_wf]
    | done ].

Lemma keeps_load (o : opcode_t) (v : Z) : keeps_wf (load_const o v).
Proof. unfold load_const. keep_wf. Qed.
Lemma keeps_update (r v : Z) : keeps_wf (update_const r v).
Proof. unfold update_const. keep_wf. Qed.
Lemma keeps_unchanged : keeps_wf unchanged.
Proof. unfold unchanged. keep_wf. Qed.
Lemma keeps_forget : keeps_wf forget_rd.
Proof. unfold forget_rd. keep_wf. Qed.
Lemma keeps_forget_nz : keeps_wf forget_rd_nz.
Proof. unfold forget_rd_nz. keep_wf. Qed.
Lemma keeps_link : keeps_wf link_rd.
Proof. unfold link_rd. keep_wf. Qed.
Lemma keeps_branch (u : Z -> Z -> bool) : keeps_wf (OPT_BRANCH_FUNC u).
Proof. unfold OPT_BRANCH_FUNC. keep_wf. Qed.
Lemma keeps_cbranch (u : Z -> bool) : keeps_wf (opt_cbranch u).
Proof. unfold opt_cbranch. keep_wf. Qed.
Lemma keeps_imm (o : opcode_t) (f : Z -> Z -> option Z) : keeps_wf (opt_imm o f).
Proof.
  intros ir info ir' info' Hi. unfold opt_imm. case_match; [|by apply keeps_forget].
  case_match; [by apply keeps_load|done].
Qed.
Lemma keeps_reg (o : opcode_t) (f : Z -> Z -> option Z) : keeps_wf (opt_reg o f).
Proof.
  intros ir info ir' info' Hi. unfold opt_reg. case_match; [|by apply keeps_forget].
  case_match; [by apply keeps_load|done].
Qed.

Lemma constopt_keeps_wf (o : opcode_t) : keeps_wf (constopt_table o).
Proof.
  destruct o; cbn [constopt_table]; first
    [ done | apply keeps_unchanged | apply keeps_forget | apply keeps_forget_nz | apply keeps_link
    | apply keeps_branch | apply keeps_cbranch | apply keeps_imm | apply keeps_reg | idtac ].
  all: intros ir info ir' info' Hi;
    cbv delta [constopt_lui constopt_auipc constopt_caddi4spn constopt_caddi constopt_cjal constopt_cli
      constopt_caddi16sp constopt_clui constopt_csrli constopt_csrai constopt_candi constopt_cslli constopt_cmv
      constopt_cjalr]; cbv beta zeta; repeat case_match;
    first [ by apply keeps_load | by apply keeps_update | by apply keeps_forget
          | intros [= _ <-]; by repeat first [apply set_value_wf; [apply u32_range|] | apply set_known_wf] | done ].
Qed.

(** C26. Where the pass over one instruction is defined. With constants of 32 bits
    in its state, evaluating the C expressions of the function for the instruction
    runs into undefined behaviour exactly when [mulhu] is folded with a product of
    at least 2^63 and when a folded compressed shift has an amount of at least
    32; for the fused instructions there is no function. All other folds are
    defined on all operands, the guarded divisions and remainders included. The
    state keeps constants of 32 bits. *)
Theorem constopt_undefined_iff (info : constopt_info_t) (ir : rv_insn_t) :
  info_wf info ->
  (constopt_table ir.(opcode) ir info = None <-> constopt_undefined info ir = true) /\
  (forall ir' info', constopt_table ir.(opcode) ir info = Some (ir', info') -> info_wf info').
Proof.
  intros Hi. split; [|intros ir' info'; by apply constopt_keeps_wf].
  unfold constopt_undefined. destruct (opcode ir); cbn [constopt_table]; try done;
    try by apply mulhu_undefined.
  all: try (split; [intros E; exfalso; revert E|discriminate];
            first [ apply opt_imm_defined; [done|op_defined] | apply opt_reg_defined; [done|op_defined]
                  | unfold constopt_beq, constopt_bne, constopt_blt, constopt_bge, constopt_bltu, constopt_bgeu, OPT_BRANCH_FUNC;
                    by destruct (_ && _)
                  | unfold constopt_cbeqz, constopt_cbnez, opt_cbranch, constopt_caddi4spn, constopt_caddi,
                      constopt_caddi16sp, constopt_candi, constopt_cmv; by destruct (known _ _) ]).
  all: unfold constopt_csrli, constopt_csrai, constopt_cslli, c_shr, c_shl, u8; change (2 ^ 8) with 256;
    rewrite Z.leb_antisym; destruct (known _ _); [|done]; by destruct (_ <? _).
Qed.

(** A signed quotient of constants is defined, a product of large ones not. *)
Lemma constopt_undefined_iff_witness :
  let info := set_value 6 0xffffffff (set_known 6 true (set_value 5 0x80000000 (set_known 5 true constopt_info_0))) in
  let ir o := set_opcode o (set_rd 7 (set_rs1 5 (set_rs2 6 rv_insn_zero))) in
  constopt_div (ir rv_insn_div) info <> None /\ constopt_mulhu (ir rv_insn_mulhu) info <> None /\
  constopt_mulhu (set_rs1 6 (ir rv_insn_mulhu)) info = None.
Proof.
  intros info ir.
  assert (Hi : info_wf info) by (by repeat first [apply set_value_wf; [done|] | apply set_known_wf]; apply info_0_wf).
  split_and!.
  - intros E. destruct (constopt_undefined_iff info (ir rv_insn_div) Hi) as [[H _] _]. specialize (H E). by vm_compute in H.
  - intros E. destruct (constopt_undefined_iff info (ir rv_insn_mulhu) Hi) as [[H _] _]. specialize (H E). by vm_compute in H.
  - destruct (constopt_undefined_iff info (set_rs1 6 (ir rv_insn_mulhu)) Hi) as [[_ H] _]. apply H. by vm_compute.
Defined.

(** [lui a0, 1; addi a0, a0, 5; beq a0, x0, 8] becomes two loads of a constant
    and a jump to the next instruction. *)
Lemma optimize_constant_sound_witness :
  let rv := hart_running [0x00001537; 0x00550513; 0x00050463] in
  exists irs irs', code_at rv.(mem) 0 irs 12 /\ optimize_constant rv irs = Some irs' /\
    opcode <$> irs' = [rv_insn_lui; rv_insn_lui; rv_insn_jal] /\
    settle (@exec_irs stopped_clock no_syscall nan_unit irs' rv 0 0)
    = settle (@exec_irs stopped_clock no_syscall nan_unit irs rv 0 0).
Proof.
  intros rv. destruct (translate_loop 8 rv 0 []) as [[[rv' e] irs]|] eqn:E;
    [|vm_compute in E; discriminate E].
  pose proof (translate_loop_correct 8 rv rv' 0 e [] irs E) as (new & Hn & Hc & _).
  simpl in Hn. subst new. exists irs.
  destruct (optimize_constant rv irs) as [irs'|] eqn:Ho.
  - exists irs'. assert (He : e = 12 /\ Forall (fun ir => handled ir = true) irs /\
      opcode <$> irs' = [rv_insn_lui; rv_insn_lui; rv_insn_jal]).
    { clear Hc. revert E. vm_compute. intros [= <- <- <-]. vm_compute in Ho. injection Ho as <-.
      split; [done|]. split; [repeat constructor|done]. }
    destruct He as (-> & Hh & Hop). split; [done|]. split; [done|]. split; [done|].
    apply (@optimize_constant_sound stopped_clock no_syscall nan_unit no_syscall_blind
             no_syscall_wf rv.(mem) 0 12 irs irs' rv rv 0);
      [apply hart_running_wf|done|exact Hc|exact Hh|exact Ho|apply hart_running_wf|reflexivity].
  - exfalso. clear Hc. revert E. vm_compute. intros [= <- <- <-]. vm_compute in Ho. discriminate Ho.
Defined.

(** * A case the pass gets wrong

    [CONSTOPT(scw, {})] leaves the destination marked constant, although [sc.w]
    writes 0 to it: in [lui a0, 1; sc.w a0, x0, (x0); addi a1, a0, 0; j 0] the
    third instruction is folded to the old value of a0. *)
Definition stale_hart : riscv :=
  hart_running [0x00001537; 0x1800252f; 0x00050593; 0x0000006f].

Definition stale_irs : list rv_insn_t :=
  match translate_loop 8 stale_hart 0 [] with Some (_, _, irs) => irs | None => [] end.

(** a1 after running a list of instructions. *)
Definition stale_a1 (irs : option (list rv_insn_t)) : option Z :=
  let? irs := irs in
  let? (rv, _) := settle (@exec_irs stopped_clock no_syscall nan_unit irs stale_hart 0 0) in
  Some (xreg rv 11).

Theorem constopt_scw_stale :
  stale_a1 (Some stale_irs) = Some 0 /\
  stale_a1 (optimize_constant stale_hart stale_irs) = Some 0x1000.
Proof. split; by vm_compute. Qed.
