(* ===== verification/FusionSpec.v ===== *)
(** Macro-operation fusion is sound: when the original block runs through
    without a misaligned access, the fused block reaches the same state. *)

From stdpp Require Import base list option numbers gmap.
From Stdlib Require Import ZArith Lia Bool.
From S2P Require Import Prelude Bits Insn Decode DecodeSpec DecodeWf Mem MemSpec State Trap Csr Fp Alu.
From S2P Require Import AluSpec Exec Samples Isa IsaValues IsaRefine DecodeExec ExecWf Equiv Frame.
From S2P Require Import Constopt Fusion Block BlockSpec ConstoptSpec.
#[local] Open Scope Z_scope.

(** * Sequences that fall through *)

Section Sequences.
Context `{HostClock} `{Syscall} `{SoftFloat} `{!EnvBlind}.

(** The handlers of a sequence; [Next] when all of them fall through. *)
Fixpoint exec_seq (irs : list rv_insn_t) (rv : riscv) (cycle pc : Z) : outcome :=
  match irs with
  | [] => Next rv cycle pc
  | ir :: irs' =>
      match exec_ir rv ir cycle pc with
      | Next rv cycle pc => exec_seq irs' rv cycle pc
      | o => o
      end
  end.

Lemma exec_irs_app (l1 l2 : list rv_insn_t) (rv : riscv) (cycle pc : Z) :
  exec_irs (l1 ++ l2) rv cycle pc =
  match exec_seq l1 rv cycle pc with
  | Next rv cycle pc => exec_irs l2 rv cycle pc
  | o => o
  end.
Proof.
  revert rv cycle pc. induction l1 as [|ir l1 IH]; intros rv cycle pc; [done|].
  cbn [app exec_irs exec_seq]. destruct (exec_ir rv ir cycle pc); done || apply IH.
Qed.

Lemma outcome_next (o : outcome) (rv : riscv) (c p : Z) :
  o ≡ Next rv c p -> exists rv', o = Next rv' c p /\ rv' ≡ rv.
Proof.
  unfold equiv, outcome_equiv. destruct o; cbn [oerase]; intros E; try discriminate E.
  exists rv0. split; [f_equal; congruence|]. unfold equiv, riscv_equiv. congruence.
Qed.

Lemma exec_seq_equiv (irs : list rv_insn_t) (rv1 rv2 : riscv) (cycle pc : Z) :
  rv1 ≡ rv2 -> exec_seq irs rv1 cycle pc ≡ exec_seq irs rv2 cycle pc.
Proof.
  revert rv1 rv2 cycle pc. induction irs as [|ir irs IH]; intros rv1 rv2 cycle pc Hrv.
  - by apply next_equiv.
  - cbn [exec_seq]. assert (E : exec_ir rv1 ir cycle pc ≡ exec_ir rv2 ir cycle pc) by (by rewrite Hrv).
    destruct (exec_ir rv2 ir cycle pc) as [rv' c p| | | |].
    { apply outcome_next in E as (rv'' & -> & ?). by apply IH. }
    all: unfold equiv, outcome_equiv in E; destruct (exec_ir rv1 ir cycle pc); try discriminate E; exact E.
Qed.

Lemma seq_cons (ir : rv_insn_t) (irs : list rv_insn_t) (rv rv1 : riscv) (cycle pc c1 p1 : Z) :
  exec_ir rv ir cycle pc ≡ Next rv1 c1 p1 ->
  exec_seq (ir :: irs) rv cycle pc ≡ exec_seq irs rv1 c1 p1.
Proof. intros (rv' & E & Hrv)%outcome_next. cbn [exec_seq]. rewrite E. by apply exec_seq_equiv. Qed.

(** * Instructions that fall through or fail *)

Lemma settle_access (a m cause : Z) (c : bool) (rv : riscv) (cycle pc : Z) (k : riscv -> outcome)
    (len : Z) (s : riscv) :
  settle (finish len (access a m cause c rv cycle pc k)) = Some (s, true) ->
  misaligned rv a m = false /\
  access a m cause c rv cycle pc k = k (rv_trace_record cycle pc RV_TRACE_MEM a rv).
Proof.
  assert (Hm : misaligned (rv_trace_record cycle pc RV_TRACE_MEM a rv) a m = misaligned rv a m).
  { unfold misaligned. f_equal. f_equal. pose proof (trace_equiv rv cycle pc RV_TRACE_MEM a) as E.
    exact (f_equal allow_misalign E). }
  unfold access. rewrite Hm. destruct (misaligned rv a m); [|done]. unfold exc_misaligned.
  by destruct (SET_CAUSE_AND_TVAL_THEN_TRAP _ _ _).
Qed.

(** What a completed instruction did. *)
Lemma lui_next (ir : rv_insn_t) (rv : riscv) (c p : Z) :
  plain ir -> ir.(opcode) = rv_insn_lui ->
  exec_ir rv ir c p ≡ Next (set_xreg ir.(rd) (u32 ir.(imm)) rv) (u64 (c + 1)) (add32 p 4).
Proof. intros [] Ho. rewrite exec_ir_code by done. by rewrite Ho. Qed.

Lemma addi_next (ir : rv_insn_t) (rv : riscv) (c p : Z) :
  plain ir -> ir.(opcode) = rv_insn_addi ->
  exec_ir rv ir c p
  ≡ Next (set_xreg ir.(rd) (add32 (xreg rv ir.(rs1)) ir.(imm)) rv) (u64 (c + 1)) (add32 p 4).
Proof. intros [] Ho. rewrite exec_ir_code by done. by rewrite Ho. Qed.

Lemma add_next (ir : rv_insn_t) (rv : riscv) (c p : Z) :
  plain ir -> ir.(opcode) = rv_insn_add ->
  exec_ir rv ir c p
  ≡ Next (set_xreg ir.(rd) (add32 (xreg rv ir.(rs1)) (xreg rv ir.(rs2))) rv) (u64 (c + 1)) (add32 p 4).
Proof. intros [] Ho. rewrite exec_ir_code by done. by rewrite Ho. Qed.

Lemma shift_next (ir : rv_insn_t) (rv : riscv) (c p : Z) :
  plain ir -> is_shift_imm ir = true ->
  exists rv', fuse_shift_exec rv (fuse_copy ir) = Some rv' /\
    exec_ir rv ir c p ≡ Next rv' (u64 (c + 1)) (add32 p 4).
Proof.
  intros [] Ho. unfold is_shift_imm, IF_insn in Ho. rewrite !orb_true_iff, !opcode_eqb_eq in Ho.
  unfold fuse_shift_exec. cbn [fuse_copy f_opcode f_rd f_rs1 f_imm].
  destruct Ho as [[Ho|Ho]|Ho]; rewrite Ho; eexists; (split; [done|]); rewrite exec_ir_code by done;
    rewrite Ho; cbn [code_of finish insn_len]; unfold code_slli, code_srli, code_srai, shift_func;
    rewrite Ho; done.
Qed.

Lemma lw_next (ir : rv_insn_t) (rv s : riscv) (c p : Z) :
  plain ir -> ir.(opcode) = rv_insn_lw -> settle (exec_ir rv ir c p) = Some (s, true) ->
  let addr := add32 (xreg rv ir.(rs1)) ir.(imm) in
  exists v, misaligned rv addr 3 = false /\ ram_read_w rv.(mem) addr = Some v /\
    exec_ir rv ir c p ≡ Next (set_xreg ir.(rd) v rv) (u64 (c + 1)) (add32 p 4).
Proof.
  intros [Hr Hi Hf] Ho. rewrite (settle_proper _ _ (exec_ir_code rv ir c p Hi Hf)), Ho.
  cbn [code_of insn_len]. unfold code_lw. cbv zeta. set (addr := add32 _ _). intros Hs.
  destruct (settle_access _ _ _ _ _ _ _ _ _ _ Hs) as [Hm E]. rewrite E in Hs. cbv beta in Hs.
  set (rv1 := rv_trace_record _ _ _ _ _) in *.
  assert (Hrv : rv1 ≡ rv) by apply trace_equiv.
  assert (Hmem : rv1.(mem) = rv.(mem)) by exact (f_equal mem Hrv). rewrite Hmem in Hs.
  destruct (ram_read_w rv.(mem) addr) as [v|] eqn:Hv; [|done].
  exists v. split; [done|]. split; [done|].
  rewrite exec_ir_code by done. rewrite Ho. cbn [code_of insn_len]. unfold code_lw. cbv zeta.
  fold addr. rewrite E. fold rv1. rewrite Hmem, Hv. cbn [write_rd finish]. apply next_equiv.
  pose proof (equiv_put _ _ (symmetry Hrv)) as ->. by rewrite set_xreg_put.
Qed.

Lemma sw_next (ir : rv_insn_t) (rv s : riscv) (c p : Z) :
  plain ir -> ir.(opcode) = rv_insn_sw -> settle (exec_ir rv ir c p) = Some (s, true) ->
  let addr := add32 (xreg rv ir.(rs1)) ir.(imm) in
  exists m, misaligned rv addr 3 = false /\ ram_write_w rv.(mem) addr (xreg rv ir.(rs2)) = Some m /\
    exec_ir rv ir c p ≡ Next (set_mem m rv) (u64 (c + 1)) (add32 p 4).
Proof.
  intros [Hr Hi Hf] Ho. rewrite (settle_proper _ _ (exec_ir_code rv ir c p Hi Hf)), Ho.
  cbn [code_of insn_len]. unfold code_sw. cbv zeta. set (addr := add32 _ _). intros Hs.
  destruct (settle_access _ _ _ _ _ _ _ _ _ _ Hs) as [Hm E]. rewrite E in Hs. cbv beta in Hs.
  set (rv1 := rv_trace_record _ _ _ _ _) in *.
  assert (Hrv : rv1 ≡ rv) by apply trace_equiv.
  assert (Hmem : rv1.(mem) = rv.(mem)) by exact (f_equal mem Hrv).
  assert (Hx : xreg rv1 ir.(rs2) = xreg rv ir.(rs2)) by (by apply equiv_xreg).
  rewrite Hmem, Hx in Hs.
  destruct (ram_write_w rv.(mem) addr _) as [m|] eqn:Hv; [|done].
  exists m. split; [done|]. split; [done|].
  rewrite exec_ir_code by done. rewrite Ho. cbn [code_of insn_len]. unfold code_sw. cbv zeta.
  fold addr. rewrite E. fold rv1. rewrite Hmem, Hx, Hv. cbn [finish]. apply next_equiv.
  pose proof (equiv_put _ _ (symmetry Hrv)) as ->. by rewrite set_mem_put.
Qed.

(** * Batches *)

(** The state before a fused instruction: well-formed, with x0 = 0. *)
Definition inv (rv : riscv) : Prop := riscv_wf rv /\ xreg rv 0 = 0.

(** When the sequence falls through, so does the fused instruction, to the
    same state. *)
Definition through (seg : list rv_insn_t) (ir' : rv_insn_t) : Prop :=
  forall rv c p rv1 c1 p1, inv rv -> exec_seq seg rv c p = Next rv1 c1 p1 ->
    exec_ir rv ir' c p ≡ Next rv1 c1 p1.

Definition steps_by (g : riscv -> rv_insn_t -> riscv) (ir : rv_insn_t) : Prop :=
  forall rv c p, exec_ir rv ir c p ≡ Next (g rv ir) (u64 (c + 1)) (add32 p 4).

Lemma seq_batch (g : riscv -> rv_insn_t -> riscv) (irs : list rv_insn_t) (rv : riscv) (c p : Z) :
  Forall (steps_by g) irs ->
  exec_seq irs rv (u64 c) (u32 p)
  ≡ Next (fold_left g irs rv) (u64 (c + Z.of_nat (length irs))) (u32 (p + 4 * Z.of_nat (length irs))).
Proof.
  intros Hl. revert rv c p. induction Hl as [|ir irs Hi Hl IH]; intros rv c p.
  - cbn [exec_seq fold_left length]. change (Z.of_nat 0) with 0. by rewrite Z.mul_0_r, !Z.add_0_r.
  - rewrite seq_cons; [|apply Hi]. unfold add32. rewrite u32_add_l.
    replace (u64 (u64 c + 1)) with (u64 (c + 1)) by (unfold u64; symmetry; apply Zplus_mod_idemp_l).
    rewrite IH. cbn [fold_left length]. rewrite Nat2Z.inj_succ.
    replace (c + 1 + _) with (c + Z.succ (Z.of_nat (length irs))) by lia.
    by replace (p + 4 + _) with (p + 4 * Z.succ (Z.of_nat (length irs))) by lia.
Qed.

Lemma seq_batch_cons (g : riscv -> rv_insn_t -> riscv) (ir : rv_insn_t) (irs : list rv_insn_t)
    (rv : riscv) (c p : Z) :
  Forall (steps_by g) (ir :: irs) ->
  exec_seq (ir :: irs) rv c p
  ≡ Next (fold_left g (ir :: irs) rv) (u64 (c + Z.of_nat (length (ir :: irs))))
      (add32 p (Z.of_nat (length (ir :: irs)) * 4)).
Proof.
  intros [Hi Hl]%Forall_cons. rewrite seq_cons; [|apply Hi]. unfold add32.
  rewrite seq_batch by done. cbn [fold_left length]. rewrite Nat2Z.inj_succ.
  replace (c + 1 + _) with (c + Z.succ (Z.of_nat (length irs))) by lia.
  by replace (p + 4 + _) with (p + Z.succ (Z.of_nat (length irs)) * 4) by lia.
Qed.

(** The instruction [try_fuse_sequence] makes of a sequence. *)
Definition batch_of (o : opcode_t) (ir : rv_insn_t) (irs : list rv_insn_t) : rv_insn_t :=
  refuse o (set_imm2 (Z.of_nat (length (ir :: irs)))
              (set_fuse (Some (fuse_copy <$> ir :: irs)) ir)).

Lemma batch_fused (o : opcode_t) (ir : rv_insn_t) (irs : list rv_insn_t) :
  fused (batch_of o ir irs) = Some (fuse_copy <$> ir :: irs).
Proof.
  unfold fused. cbn [fuse imm2 batch_of refuse set_impl set_opcode set_imm2 set_fuse].
  rewrite length_fmap, Z.leb_refl, Nat2Z.id. f_equal. apply take_ge. by rewrite length_fmap.
Qed.

Lemma fold_copy {A} (h : A -> opcode_fuse_t -> A) (irs : list rv_insn_t) (a : A) :
  fold_left h (fuse_copy <$> irs) a = fold_left (fun a ir => h a (fuse_copy ir)) irs a.
Proof. revert a. induction irs as [|ir irs IH]; intros a; [done|]. cbn. apply IH. Qed.

Lemma next_inj (rv rv1 rv2 : riscv) (o : outcome) (c1 p1 c2 p2 : Z) :
  o = Next rv1 c1 p1 -> o ≡ Next rv2 c2 p2 -> Next rv2 c2 p2 ≡ Next rv1 c1 p1.
Proof. by intros -> ->. Qed.

Lemma fold_equiv {A} (g : riscv -> A -> riscv) (l : list A) (rv1 rv2 : riscv) :
  (forall s rv a, g (put s rv) a = put s (g rv a)) -> rv1 ≡ rv2 -> fold_left g l rv1 ≡ fold_left g l rv2.
Proof. intros Hg ->%equiv_put. by rewrite fold_put. Qed.

(** A batch whose handler computes the fold of its instructions' effects. *)
Lemma through_fold (g : riscv -> rv_insn_t -> riscv) (ir ir' : rv_insn_t) (irs : list rv_insn_t) :
  Forall (steps_by g) (ir :: irs) ->
  (forall rv c p, exec_ir rv ir' c p
    ≡ Next (fold_left g (ir :: irs) rv) (u64 (c + Z.of_nat (length (ir :: irs))))
        (add32 p (Z.of_nat (length (ir :: irs)) * 4))) ->
  through (ir :: irs) ir'.
Proof.
  intros Hs Hf rv c p rv1 c1 p1 _ E. rewrite Hf.
  exact (next_inj rv _ _ _ _ _ _ _ E (seq_batch_cons _ _ _ rv c p Hs)).
Qed.

Lemma all_steps (P : rv_insn_t -> Prop) (g : riscv -> rv_insn_t -> riscv) (irs : list rv_insn_t) :
  Forall plain irs -> Forall P irs -> (forall ir, plain ir -> P ir -> steps_by g ir) ->
  Forall (steps_by g) irs.
Proof.
  intros Hp HP Hg. induction Hp; [constructor|]. apply Forall_cons in HP as [? ?]. constructor; auto.
Qed.

Section Batches.
Context (ir : rv_insn_t) (irs : list rv_insn_t) (Hp : Forall plain (ir :: irs)).

Lemma through_lui :
  Forall (fun ir => ir.(opcode) = rv_insn_lui) (ir :: irs) ->
  through (ir :: irs) (batch_of rv_insn_fuse1 ir irs).
Proof.
  intros Ho. apply (through_fold (fun rv ir => set_xreg ir.(rd) (u32 ir.(imm)) rv)).
  - eapply all_steps; [done|exact Ho|]. intros i Hi Hoi rv c p. by apply lui_next.
  - intros rv c p. change (do_fuse1 rv (batch_of rv_insn_fuse1 ir irs) c p ≡
      Next (fold_left (fun rv ir => set_xreg ir.(rd) (u32 ir.(imm)) rv) (ir :: irs) rv)
        (u64 (c + Z.of_nat (length (ir :: irs)))) (add32 p (Z.of_nat (length (ir :: irs)) * 4))).
    unfold do_fuse1. rewrite batch_fused, fold_copy. apply next_equiv. by apply fold_equiv.
Qed.

Lemma through_addi :
  Forall (fun ir => ir.(opcode) = rv_insn_addi) (ir :: irs) ->
  through (ir :: irs) (batch_of rv_insn_fuse7 ir irs).
Proof.
  intros Ho. set (g := fun rv ir => set_xreg ir.(rd) (add32 (xreg rv ir.(rs1)) (u32 ir.(imm))) rv).
  apply (through_fold g).
  - eapply all_steps; [done|exact Ho|]. intros i Hi Hoi rv c p. unfold g, add32 at 1.
    rewrite u32_add_r. by apply addi_next.
  - intros rv c p. change (do_fuse7 rv (batch_of rv_insn_fuse7 ir irs) c p ≡
      Next (fold_left g (ir :: irs) rv)
        (u64 (c + Z.of_nat (length (ir :: irs)))) (add32 p (Z.of_nat (length (ir :: irs)) * 4))).
    unfold do_fuse7. rewrite batch_fused, fold_copy. apply next_equiv. by apply fold_equiv.
Qed.

Definition shifted (rv : riscv) (ir : rv_insn_t) : riscv :=
  default rv (fuse_shift_exec rv (fuse_copy ir)).

Lemma shift_fold (l : list rv_insn_t) (rv : riscv) :
  Forall plain l -> Forall (fun ir => is_shift_imm ir = true) l ->
  fold_left (fun acc f => let? rv := acc in fuse_shift_exec rv f) (fuse_copy <$> l) (Some rv)
  = Some (fold_left shifted l rv).
Proof.
  intros Hl Hs. revert rv. induction Hl as [|i l Hi Hl IH]; intros rv; [done|].
  apply Forall_cons in Hs as [Hsi Hs]. cbn [fmap list_fmap fold_left].
  destruct (shift_next i rv 0 0 Hi Hsi) as (rv' & E & _). unfold shifted at 2. rewrite E. cbn [default].
  by apply IH.
Qed.

Lemma shifted_put (s : stats) (rv : riscv) (i : rv_insn_t) : shifted (put s rv) i = put s (shifted rv i).
Proof.
  unfold shifted, fuse_shift_exec. by destruct (f_opcode (fuse_copy i)).
Qed.

Lemma through_shift :
  Forall (fun ir => is_shift_imm ir = true) (ir :: irs) ->
  through (ir :: irs) (batch_of rv_insn_fuse5 ir irs).
Proof.
  intros Ho. apply (through_fold shifted).
  - eapply all_steps; [done|exact Ho|]. intros i Hi Hoi rv c p.
    destruct (shift_next i rv c p Hi Hoi) as (rv' & E & Hn). unfold shifted. by rewrite E.
  - intros rv c p. change (do_fuse5 rv (batch_of rv_insn_fuse5 ir irs) c p ≡
      Next (fold_left shifted (ir :: irs) rv)
        (u64 (c + Z.of_nat (length (ir :: irs)))) (add32 p (Z.of_nat (length (ir :: irs)) * 4))).
    unfold do_fuse5. rewrite batch_fused, shift_fold by done. apply next_equiv.
    apply fold_equiv; [apply shifted_put|done].
Qed.
End Batches.

(** * Memory batches *)

Lemma seq_head (ir : rv_insn_t) (irs : list rv_insn_t) (rv rv1 : riscv) (c p c1 p1 : Z) :
  exec_seq (ir :: irs) rv c p = Next rv1 c1 p1 ->
  exists rv' c' p', exec_ir rv ir c p = Next rv' c' p' /\ exec_seq irs rv' c' p' = Next rv1 c1 p1.
Proof. cbn [exec_seq]. destruct (exec_ir rv ir c p); try done. eauto. Qed.

(** One step of [fuse_loads] and [fuse_stores] follows the handler. *)
Lemma lw_step (ir : rv_insn_t) (rv rv' : riscv) (c p c' p' : Z) :
  plain ir -> ir.(opcode) = rv_insn_lw -> exec_ir rv ir c p = Next rv' c' p' ->
  c' = u64 (c + 1) /\ p' = add32 p 4 /\
  forall l C P k, (forall s r, k (put s r) ≡ k r) ->
    fuse_loads (fuse_copy ir :: l) rv C P k ≡ fuse_loads l rv' C P k.
Proof.
  intros Hp Ho E. assert (Hs : settle (exec_ir rv ir c p)
    = Some (erase (set_PC p' (set_csr_cycle c' rv')), true)) by (by rewrite E).
  destruct (lw_next ir rv _ c p Hp Ho Hs) as (v & Hm & Hv & Hn). rewrite E in Hn.
  destruct (outcome_next _ _ _ _ Hn) as (rv'' & E' & Hrv). simplify_eq.
  split; [done|]. split; [done|]. intros l C P k Hk. cbn [fuse_loads fuse_copy f_rs1 f_imm f_rd].
  rewrite Hm, Hv. rewrite (equiv_put _ _ (symmetry Hrv)). symmetry. by apply fuse_loads_equiv.
Qed.

Lemma sw_step (ir : rv_insn_t) (rv rv' : riscv) (c p c' p' : Z) :
  plain ir -> ir.(opcode) = rv_insn_sw -> exec_ir rv ir c p = Next rv' c' p' ->
  c' = u64 (c + 1) /\ p' = add32 p 4 /\
  forall l C P k, (forall s r, k (put s r) ≡ k r) ->
    fuse_stores (fuse_copy ir :: l) rv C P k ≡ fuse_stores l rv' C P k.
Proof.
  intros Hp Ho E. assert (Hs : settle (exec_ir rv ir c p)
    = Some (erase (set_PC p' (set_csr_cycle c' rv')), true)) by (by rewrite E).
  destruct (sw_next ir rv _ c p Hp Ho Hs) as (v & Hm & Hv & Hn). rewrite E in Hn.
  destruct (outcome_next _ _ _ _ Hn) as (rv'' & E' & Hrv). simplify_eq.
  split; [done|]. split; [done|]. intros l C P k Hk. cbn [fuse_stores fuse_copy f_rs1 f_imm f_rs2].
  rewrite Hm, Hv. rewrite (equiv_put _ _ (symmetry Hrv)). symmetry. by apply fuse_stores_equiv.
Qed.

Section MemoryBatch.
Context (o : opcode_t).
Context (F : list opcode_fuse_t -> riscv -> Z -> Z -> (riscv -> outcome) -> outcome).
Context (F_nil : forall rv C P k, F [] rv C P k = k rv).
Context (F_cons : forall ir rv rv' c p c' p',
  plain ir -> ir.(opcode) = o -> exec_ir rv ir c p = Next rv' c' p' ->
  c' = u64 (c + 1) /\ p' = add32 p 4 /\
  forall l C P k, (forall s r, k (put s r) ≡ k r) ->
    F (fuse_copy ir :: l) rv C P k ≡ F l rv' C P k).

Lemma memory_seq (irs : list rv_insn_t) (rv rv1 : riscv) (c p c1 p1 : Z) :
  Forall plain irs -> Forall (fun ir => ir.(opcode) = o) irs ->
  exec_seq irs rv (u64 c) (u32 p) = Next rv1 c1 p1 ->
  c1 = u64 (c + Z.of_nat (length irs)) /\ p1 = u32 (p + Z.of_nat (length irs) * 4) /\
  forall C P k, (forall s r, k (put s r) ≡ k r) -> F (fuse_copy <$> irs) rv C P k ≡ k rv1.
Proof.
  intros Hp. revert rv c p. induction Hp as [|ir irs Hi Hp IH]; intros rv c p Ho E.
  - cbn [exec_seq length] in *. simplify_eq. change (Z.of_nat 0) with 0. rewrite Z.mul_0_l, !Z.add_0_r.
    split_and!; [done..|]. intros. cbn. by rewrite F_nil.
  - apply Forall_cons in Ho as [Hoi Ho]. apply seq_head in E as (rv' & c' & p' & E & Er).
    destruct (F_cons _ _ _ _ _ _ _ Hi Hoi E) as (-> & -> & Hstep). revert Er. unfold add32.
    rewrite u32_add_l.
    replace (u64 (u64 c + 1)) with (u64 (c + 1)) by (unfold u64; symmetry; apply Zplus_mod_idemp_l).
    intros Er. destruct (IH rv' (c + 1) (p + 4) Ho Er) as (-> & -> & Hk). cbn [length].
    rewrite Nat2Z.inj_succ. split_and!; [f_equal; lia|f_equal; lia|].
    intros C P k Hb. cbn [fmap list_fmap]. rewrite Hstep by done. by apply Hk.
Qed.

Lemma memory_batch (ir : rv_insn_t) (irs : list rv_insn_t) (rv rv1 : riscv) (c p c1 p1 : Z) :
  Forall plain (ir :: irs) -> Forall (fun ir => ir.(opcode) = o) (ir :: irs) ->
  exec_seq (ir :: irs) rv c p = Next rv1 c1 p1 ->
  c1 = u64 (c + Z.of_nat (length (ir :: irs))) /\ p1 = add32 p (Z.of_nat (length (ir :: irs)) * 4) /\
  forall C P k, (forall s r, k (put s r) ≡ k r) -> F (fuse_copy <$> ir :: irs) rv C P k ≡ k rv1.
Proof.
  intros [Hi Hp]%Forall_cons [Hoi Ho]%Forall_cons (rv' & c' & p' & E & Er)%seq_head.
  destruct (F_cons _ _ _ _ _ _ _ Hi Hoi E) as (-> & -> & Hstep). unfold add32 in *.
  destruct (memory_seq irs rv' rv1 (c + 1) (p + 4) c1 p1 Hp Ho Er) as (-> & -> & Hk).
  cbn [length]. rewrite Nat2Z.inj_succ. split_and!; [f_equal; lia|f_equal; lia|].
  intros C P k Hb. cbn [fmap list_fmap]. rewrite Hstep by done. by apply Hk.
Qed.
End MemoryBatch.

Lemma through_lw (ir : rv_insn_t) (irs : list rv_insn_t) :
  Forall plain (ir :: irs) -> Forall (fun ir => ir.(opcode) = rv_insn_lw) (ir :: irs) ->
  through (ir :: irs) (batch_of rv_insn_fuse4 ir irs).
Proof.
  intros Hp Ho rv c p rv1 c1 p1 _ E.
  destruct (memory_batch rv_insn_lw fuse_loads (fun _ _ _ _ => eq_refl) lw_step ir irs rv rv1 c p c1 p1
              Hp Ho E) as (-> & -> & Hk).
  change (exec_ir rv (batch_of rv_insn_fuse4 ir irs) c p) with (do_fuse4 rv (batch_of rv_insn_fuse4 ir irs) c p).
  unfold do_fuse4. rewrite batch_fused. destruct (count_put rv_insn_fuse4 rv) as [s Hs].
  change (opcode (batch_of rv_insn_fuse4 ir irs)) with rv_insn_fuse4. rewrite Hs, fuse_loads_equiv by done.
  by rewrite Hk by done.
Qed.

Lemma through_sw (ir : rv_insn_t) (irs : list rv_insn_t) :
  Forall plain (ir :: irs) -> Forall (fun ir => ir.(opcode) = rv_insn_sw) (ir :: irs) ->
  through (ir :: irs) (batch_of rv_insn_fuse3 ir irs).
Proof.
  intros Hp Ho rv c p rv1 c1 p1 _ E.
  destruct (memory_batch rv_insn_sw fuse_stores (fun _ _ _ _ => eq_refl) sw_step ir irs rv rv1 c p c1 p1
              Hp Ho E) as (-> & -> & Hk).
  change (exec_ir rv (batch_of rv_insn_fuse3 ir irs) c p) with (do_fuse3 rv (batch_of rv_insn_fuse3 ir irs) c p).
  unfold do_fuse3. rewrite batch_fused. destruct (count_put rv_insn_fuse3 rv) as [s Hs].
  change (opcode (batch_of rv_insn_fuse3 ir irs)) with rv_insn_fuse3. rewrite Hs, fuse_stores_equiv by done.
  by rewrite Hk by done.
Qed.

(** * Pairs *)

Lemma seq_one (ir : rv_insn_t) (rv : riscv) (c p : Z) : exec_seq [ir] rv c p = exec_ir rv ir c p.
Proof. cbn [exec_seq]. by destruct (exec_ir rv ir c p). Qed.

Lemma pair_from (ir next : rv_insn_t) (rv rv' rv1 : riscv) (c p c' p' c1 p1 : Z) :
  exec_ir rv ir c p ≡ Next rv' c' p' -> exec_seq [ir; next] rv c p = Next rv1 c1 p1 ->
  exec_ir rv' next c' p' ≡ Next rv1 c1 p1.
Proof. intros Hn E. rewrite <- E, (seq_cons _ _ _ _ _ _ _ _ Hn). by rewrite seq_one. Qed.

Lemma pair_counts (c p : Z) :
  u64 (u64 (c + 1) + 1) = u64 (c + 2) /\ add32 (add32 p 4) 4 = add32 p 8.
Proof.
  split.
  - unfold u64. rewrite Zplus_mod_idemp_l. f_equal. lia.
  - unfold add32. rewrite u32_add_l. f_equal. lia.
Qed.

(** The state of a step that is known to fall through. *)
Lemma settle_next (o : outcome) (rv : riscv) (c p : Z) :
  o ≡ Next rv c p -> settle o = Some (erase (set_PC p (set_csr_cycle c rv)), true).
Proof. by intros ->. Qed.

Section Pairs.
Context (ir next : rv_insn_t) (Hi : plain ir) (Hn : plain next).

Lemma through_lui_add :
  ir.(opcode) = rv_insn_lui -> next.(opcode) = rv_insn_add ->
  ir.(rd) = next.(rs2) \/ ir.(rd) = next.(rs1) ->
  through [ir; next]
    (refuse rv_insn_fuse2
       (set_rs1 (if ir.(rd) =? next.(rs2) then next.(rs1) else next.(rs2)) (set_rs2 next.(rd) ir))).
Proof.
  intros Ho1 Ho2 Hd rv c p rv1 c1 p1 _ E. rewrite <- (pair_from _ _ _ _ _ _ _ _ _ _ _ (lui_next ir rv c p Hi Ho1) E).
  rewrite (add_next next _ _ _ Hn Ho2). destruct (pair_counts c p) as [-> ->].
  match goal with |- exec_ir rv ?i c p ≡ _ => change (do_fuse2 rv i c p ≡ 
    Next (set_xreg next.(rd) (add32 (xreg (set_xreg ir.(rd) (u32 ir.(imm)) rv) next.(rs1))
      (xreg (set_xreg ir.(rd) (u32 ir.(imm)) rv) next.(rs2))) (set_xreg ir.(rd) (u32 ir.(imm)) rv))
      (u64 (c + 2)) (add32 p 8)) end.
  apply next_equiv.
  set (r := set_xreg ir.(rd) (u32 ir.(imm)) rv).
  assert (Hs : add32 (xreg r ir.(rd)) (xreg r (if ir.(rd) =? next.(rs2) then next.(rs1) else next.(rs2)))
    = add32 (xreg r next.(rs1)) (xreg r next.(rs2))).
  { destruct (Z.eqb_spec ir.(rd) next.(rs2)) as [->|Hne].
    - unfold add32. f_equal. lia.
    - destruct Hd as [?|Hd]; [done|by rewrite Hd]. }
  rewrite <- Hs. reflexivity.
Qed.

Lemma through_lui_addi :
  ir.(opcode) = rv_insn_lui -> next.(opcode) = rv_insn_addi ->
  ir.(rd) = next.(rs1) -> ir.(rd) = next.(rd) ->
  through [ir; next] (refuse rv_insn_fuse8 (set_imm2 next.(imm) ir)).
Proof.
  intros Ho1 Ho2 Hd1 Hd2 rv c p rv1 c1 p1 [Hwf _] E.
  rewrite <- (pair_from _ _ _ _ _ _ _ _ _ _ _ (lui_next ir rv c p Hi Ho1) E).
  rewrite (addi_next next _ _ _ Hn Ho2). destruct (pair_counts c p) as [-> ->].
  rewrite <- Hd1, <- Hd2, set_xreg_twice, xreg_set_eq by (apply Hwf || apply Hi).
  match goal with |- exec_ir rv ?i c p ≡ ?o => change (do_fuse8 rv i c p ≡ o) end.
  apply next_equiv. replace (add32 (u32 ir.(imm)) next.(imm))
    with (add32 (u32 ir.(imm)) (u32 next.(imm))) by (unfold add32; apply u32_add_r).
  reflexivity.
Qed.

Lemma through_lui_lw :
  ir.(opcode) = rv_insn_lui -> next.(opcode) = rv_insn_lw -> ir.(rd) = next.(rs1) ->
  through [ir; next] (refuse rv_insn_fuse9 (set_rs2 next.(rd) (set_imm2 next.(imm) ir))).
Proof.
  intros Ho1 Ho2 Hd rv c p rv1 c1 p1 [Hwf _] E.
  pose proof (pair_from _ _ _ _ _ _ _ _ _ _ _ (lui_next ir rv c p Hi Ho1) E) as En.
  destruct (lw_next next _ _ _ _ Hn Ho2 (settle_next _ _ _ _ En)) as (v & Hm & Hv & Hx).
  rewrite <- En, Hx. destruct (pair_counts c p) as [-> ->].
  rewrite <- Hd in Hm, Hv. rewrite xreg_set_eq in Hm, Hv by (apply Hwf || apply Hi).
  match goal with |- exec_ir rv ?i c p ≡ ?o => change (do_fuse9 rv i c p ≡ o); unfold do_fuse9 end.
  cbn [opcode imm imm2 rd rs2 refuse set_rs2 set_imm2 set_impl set_opcode].
  replace (add32 (u32 ir.(imm)) (u32 next.(imm)))
    with (add32 (u32 ir.(imm)) next.(imm)) by (unfold add32; symmetry; apply u32_add_r).
  change (misaligned (set_xreg ir.(rd) (u32 ir.(imm)) (count_insn rv_insn_fuse9 rv)))
    with (misaligned (set_xreg ir.(rd) (u32 ir.(imm)) rv)). rewrite Hm.
  change (mem (set_xreg ir.(rd) (u32 ir.(imm)) (count_insn rv_insn_fuse9 rv)))
    with (mem (set_xreg ir.(rd) (u32 ir.(imm)) rv)). rewrite Hv.
  apply next_equiv. reflexivity.
Qed.

Lemma through_lui_sw :
  ir.(opcode) = rv_insn_lui -> next.(opcode) = rv_insn_sw -> ir.(rd) = next.(rs1) ->
  through [ir; next] (refuse rv_insn_fuse10 (set_rs1 next.(rs2) (set_imm2 next.(imm) ir))).
Proof.
  intros Ho1 Ho2 Hd rv c p rv1 c1 p1 [Hwf _] E.
  pose proof (pair_from _ _ _ _ _ _ _ _ _ _ _ (lui_next ir rv c p Hi Ho1) E) as En.
  destruct (sw_next next _ _ _ _ Hn Ho2 (settle_next _ _ _ _ En)) as (m & Hm & Hv & Hx).
  rewrite <- En, Hx. destruct (pair_counts c p) as [-> ->].
  rewrite <- Hd in Hm, Hv. rewrite xreg_set_eq in Hm, Hv by (apply Hwf || apply Hi).
  match goal with |- exec_ir rv ?i c p ≡ ?o => change (do_fuse10 rv i c p ≡ o); unfold do_fuse10 end.
  cbn [opcode imm imm2 rd rs1 refuse set_rs1 set_imm2 set_impl set_opcode].
  replace (add32 (u32 ir.(imm)) (u32 next.(imm)))
    with (add32 (u32 ir.(imm)) next.(imm)) by (unfold add32; symmetry; apply u32_add_r).
  change (misaligned (set_xreg ir.(rd) (u32 ir.(imm)) (count_insn rv_insn_fuse10 rv)))
    with (misaligned (set_xreg ir.(rd) (u32 ir.(imm)) rv)). rewrite Hm.
  change (mem (set_xreg ir.(rd) (u32 ir.(imm)) (count_insn rv_insn_fuse10 rv)))
    with (mem (set_xreg ir.(rd) (u32 ir.(imm)) rv)).
  change (xreg (set_xreg ir.(rd) (u32 ir.(imm)) (count_insn rv_insn_fuse10 rv)))
    with (xreg (set_xreg ir.(rd) (u32 ir.(imm)) rv)). rewrite Hv.
  apply next_equiv. reflexivity.
Qed.

Lemma through_lw_addi :
  ir.(opcode) = rv_insn_lw -> next.(opcode) = rv_insn_addi ->
  ir.(rs1) = next.(rs1) -> next.(rs1) = next.(rd) ->
  through [ir; next] (refuse rv_insn_fuse11 (set_imm2 next.(imm) ir)).
Proof.
  intros Ho1 Ho2 Hd1 Hd2 rv c p rv1 c1 p1 _ E.
  destruct (seq_head _ _ _ _ _ _ _ _ E) as (rv' & c' & p' & E1 & _).
  assert (Hr : exec_ir rv ir c p ≡ Next rv' c' p') by (by rewrite E1).
  destruct (lw_next ir _ _ _ _ Hi Ho1 (settle_next _ _ _ _ Hr)) as (v & Hm & Hv & Hx).
  rewrite <- (pair_from _ _ _ _ _ _ _ _ _ _ _ Hx E), (addi_next next _ _ _ Hn Ho2).
  destruct (pair_counts c p) as [-> ->]. rewrite <- Hd2, <- Hd1.
  match goal with |- exec_ir rv ?i c p ≡ ?o => change (do_fuse11 rv i c p ≡ o); unfold do_fuse11 end.
  cbn [opcode imm imm2 rd rs1 refuse set_imm2 set_impl set_opcode].
  change (misaligned (count_insn rv_insn_fuse11 rv)) with (misaligned rv).
  change (xreg (count_insn rv_insn_fuse11 rv)) with (xreg rv).
  change (mem (count_insn rv_insn_fuse11 rv)) with (mem rv). rewrite Hm, Hv.
  apply next_equiv. reflexivity.
Qed.
End Pairs.

(** * Sequences stop with [false] or fall through *)

(** The opcodes of the fused sequences that are no branches. *)
Definition batchable (o : opcode_t) : bool :=
  match o with
  | rv_insn_lui | rv_insn_add | rv_insn_addi | rv_insn_lw | rv_insn_sw | rv_insn_slli
  | rv_insn_srli | rv_insn_srai => true
  | _ => false
  end.

Lemma batchable_next (ir : rv_insn_t) (rv s : riscv) (c p : Z) :
  plain ir -> batchable ir.(opcode) = true -> settle (exec_ir rv ir c p) = Some (s, true) ->
  exists rv' c' p', exec_ir rv ir c p = Next rv' c' p'.
Proof.
  intros Hp Hb Hs.
  assert (exists rv', exec_ir rv ir c p ≡ Next rv' (u64 (c + 1)) (add32 p 4))
    as (? & (? & ? & ?)%outcome_next); [|eauto].
  destruct (is_shift_imm ir) eqn:Hsh.
  { destruct (shift_next ir rv c p Hp Hsh) as (rv' & _ & ?). eauto. }
  unfold is_shift_imm, IF_insn in Hsh. destruct (opcode ir) eqn:Ho; try discriminate Hb;
    try discriminate Hsh.
  - eexists. by apply lui_next.
  - destruct (lw_next ir rv s c p Hp Ho Hs) as (v & _ & _ & Hn). eauto.
  - destruct (sw_next ir rv s c p Hp Ho Hs) as (v & _ & _ & Hn). eauto.
  - eexists. by apply addi_next.
  - eexists. by apply add_next.
Qed.

Lemma batchable_seq (irs : list rv_insn_t) (rv s : riscv) (c p : Z) :
  Forall plain irs -> Forall (fun ir => batchable ir.(opcode) = true) irs ->
  settle (exec_seq irs rv c p) = Some (s, true) ->
  exists rv' c' p', exec_seq irs rv c p = Next rv' c' p'.
Proof.
  intros Hp. revert rv c p. induction Hp as [|ir irs Hi Hp IH]; intros rv c p Hb Hs; [eauto|].
  apply Forall_cons in Hb as [Hbi Hb]. cbn [exec_seq] in *.
  assert (Hi' : exists rv' c' p', exec_ir rv ir c p = Next rv' c' p').
  { destruct (exec_ir rv ir c p) eqn:E; [eauto|..];
      (rewrite <- E; eapply batchable_next; [done|done|by rewrite E]). }
  destruct Hi' as (rv' & c' & p' & E). rewrite E in *. by apply IH.
Qed.

(** * The last two instructions of a block *)

Section Ends.
Context (ir next : rv_insn_t) (Hi : plain ir) (Hn : plain next) (Ho : ir.(opcode) = rv_insn_addi).
Context (rv : riscv) (c p : Z) (Hinv : inv rv).

Lemma end_pair :
  settle (exec_irs [ir; next] rv c p) =
  settle (finish (insn_len next.(opcode))
    (code_of next.(opcode) (set_xreg ir.(rd) (add32 (xreg rv ir.(rs1)) ir.(imm)) rv) next
       (u64 (c + 2)) (add32 p 4))).
Proof.
  destruct (outcome_next _ _ _ _ (addi_next ir rv c p Hi Ho)) as (rv' & E & Hrv).
  cbn [exec_irs]. rewrite E.
  change (settle (exec_irs [next] rv' (u64 (c + 1)) (add32 p 4)) = 
    settle (finish (insn_len next.(opcode))
    (code_of next.(opcode) (set_xreg ir.(rd) (add32 (xreg rv ir.(rs1)) ir.(imm)) rv) next
       (u64 (c + 2)) (add32 p 4)))).
  rewrite settle_last, (settle_proper _ _ (exec_ir_proper _ _ Hrv _ _ eq_refl _ _ eq_refl _ _ eq_refl)).
  rewrite (settle_proper _ _ (exec_ir_code _ next _ _ (pl_impl _ Hn) (pl_fused _ Hn))).
  destruct (pair_counts c p) as [-> _]. done.
Qed.

Lemma end_addi_ecall :
  next.(opcode) = rv_insn_ecall -> ir.(rd) = rv_reg_a7 -> ir.(rs1) = rv_reg_zero ->
  settle (exec_irs [ir; next] rv c p) = settle (exec_ir rv (refuse rv_insn_fuse6 ir) c p).
Proof.
  intros Hon Hd Hz. rewrite end_pair, Hon. change (exec_ir rv (refuse rv_insn_fuse6 ir) c p)
    with (do_fuse6 rv (refuse rv_insn_fuse6 ir) c p).
  unfold do_fuse6. cbn [code_of]. unfold code_ecall. rewrite Hd, Hz.
  change (xreg rv rv_reg_zero) with (xreg rv 0). rewrite (proj2 Hinv).
  destruct (count_put rv_insn_fuse6 rv) as [s Hs].
  change (opcode (refuse rv_insn_fuse6 ir)) with rv_insn_fuse6. rewrite Hs.
  change (add32 0 ir.(imm)) with (u32 ir.(imm)).
  change (imm (refuse rv_insn_fuse6 ir)) with (imm ir).
  autorewrite with put. cbn [finish insn_len].
  match goal with |- context [ecall_handler (put s ?r)] =>
    change (set_PC (add32 p 4) (set_csr_cycle (u64 (c + 2)) (set_compressed false
      (set_xreg rv_reg_a7 (u32 ir.(imm)) rv)))) with r;
    pose proof (option_exit_equiv _ _ true (ecall_put s r)) as He; generalize dependent (ecall_handler r)
  end.
  intros o He. rewrite (settle_proper _ _ He). by destruct o.
Qed.

Lemma end_addi_bne :
  next.(opcode) = rv_insn_bne -> ir.(rd) <> 0 -> ir.(rd) = next.(rs1) -> next.(rs2) = rv_reg_zero ->
  settle (exec_irs [ir; next] rv c p) =
  settle (exec_ir rv
    (set_branch_untaken next.(branch_untaken) (set_branch_taken next.(branch_taken)
       (refuse rv_insn_fuse12 (set_imm2 next.(imm) ir)))) c p).
Proof.
  intros Hon Hd Hd1 Hz. rewrite end_pair, Hon. destruct Hinv as [Hwf Hx].
  pose proof (pl_regs _ Hi) as (? & _).
  match goal with |- _ = settle (exec_ir rv ?i c p) =>
    change (exec_ir rv i c p) with (do_fuse12 rv i c p) end.
  unfold do_fuse12. cbn [opcode imm imm2 rd rs1 branch_taken branch_untaken refuse set_imm2 set_impl
    set_opcode set_branch_taken set_branch_untaken code_of].
  change (xreg (count_insn rv_insn_fuse12 rv)) with (xreg rv).
  unfold code_bne, BRANCH_FUNC. set (v := add32 (xreg rv ir.(rs1)) ir.(imm)).
  rewrite <- Hd1, Hz. change rv_reg_zero with 0. rewrite (xreg_set_ne _ ir.(rd) 0) by lia.
  rewrite Hx.
  rewrite !xreg_set_eq by (apply Hwf || done). unfold truthy.
  destruct (Z.eqb_spec v 0); cbn [negb].
  - replace (add32 p 8) with (add32 (add32 p 4) 4) by apply (pair_counts c p).
    destruct (branch_untaken next); reflexivity.
  - replace (add32 p (4 + next.(imm))) with (add32 (add32 p 4) next.(imm))
      by (unfold add32; rewrite u32_add_l; f_equal; lia).
    by destruct (branch_taken next), (imm next <? 0).
Qed.
End Ends.

(** * The invariant along a block *)

(** Loads and [c.li] are the only instructions that write to x0. *)
Definition x0_kept (ir : rv_insn_t) : bool :=
  match ir.(opcode) with
  | rv_insn_lb | rv_insn_lh | rv_insn_lw | rv_insn_lbu | rv_insn_lhu | rv_insn_cli =>
      negb (ir.(rd) =? 0)
  | _ => true
  end.

Record fusable (ir : rv_insn_t) : Prop := {
  fz_plain : plain ir;
  fz_static : static_ok ir = true;
  fz_x0 : x0_kept ir = true;
}.

Section Zero.
Context (rv : riscv) (ir : rv_insn_t) (c p : Z) (Hwf : riscv_wf rv) (Hx : xreg rv 0 = 0) (Hz : ir.(rd) = 0).

Definition zero_next (o : outcome) : Prop :=
  match o with Next rv' _ _ => xreg rv' 0 = 0 | _ => True end.

Lemma write_zero (rv' : riscv) (v : Z) :
  rv'.(X) = rv.(X) -> v = 0 -> zero_next (write_rd rv' ir c p v).
Proof.
  intros HX ->. unfold write_rd, zero_next. rewrite Hz. apply xreg_set_eq; [|lia]. rewrite HX. apply Hwf.
Qed.

Lemma csr_op_zero (f : riscv -> rv_insn_t -> Z -> Z * riscv) :
  X (f rv ir c).2 = X rv -> zero_next (csr_op f rv ir c p).
Proof.
  unfold csr_op. destruct (f rv ir c) as [v r]. intros HX. apply write_zero; [done|].
  rewrite Hz. change (truthy 0) with false. cbv iota. unfold xreg. cbn [snd] in HX. by rewrite HX.
Qed.

Lemma scw_zero : zero_next (code_scw rv ir c p).
Proof.
  unfold code_scw, access, exc_misaligned. destruct (misaligned _ _ _).
  - by destruct (SET_CAUSE_AND_TVAL_THEN_TRAP _ _ _).
  - destruct (ram_write_w _ _ _) as [m|]; [|done]. apply write_zero; [|done]. apply X_trace.
Qed.
End Zero.

(** Writes to x0 store 0. *)
Lemma dest_zero (ir : rv_insn_t) (rv : riscv) (c p : Z) :
  fusable ir -> insn_is_branch ir.(opcode) = false -> riscv_wf rv -> xreg rv 0 = 0 ->
  dest ir = Some 0 -> zero_next (code_of ir.(opcode) rv ir c p).
Proof.
  intros [Hp Hs Hz] Hb Hwf Hx. unfold dest, static_ok, x0_kept in *.
  destruct (opcode ir) eqn:Ho; try discriminate Hb; cbn [code_of];
    try (exact (fun _ => I)); intros Hd; try discriminate Hd;
    try (apply Some_inj in Hd; unfold rv_reg_zero in Hd);
    try (rewrite Hd in *; discriminate Hs);
    try (rewrite Hd in *; discriminate Hz);
    try (revert Hd; unfold truthy; case_match; intros Hd; [apply Some_inj in Hd|discriminate Hd];
         rewrite Hd in *; done);
    try (apply csr_op_zero; [done..|apply X_csr_rmw]).
  - apply xreg_set_eq; [apply Hwf|done].
  - by apply scw_zero.
Qed.

Lemma next_inv `{!SyscallWf} (ir : rv_insn_t) (rv rv' : riscv) (c p c' p' : Z) :
  fusable ir -> insn_is_branch ir.(opcode) = false -> is_u32 p -> inv rv ->
  exec_ir rv ir c p = Next rv' c' p' -> inv rv' /\ is_u32 p'.
Proof.
  intros Hf Hb Hp [Hwf Hx] E. pose proof (fz_plain _ Hf) as Hpl. split; [split|].
  - by eapply exec_next_wf.
  - destruct (decide (dest ir = Some 0)) as [Hd|Hd].
    + destruct (next_code rv ir c p Hpl _ _ _ E) as (rv1 & q & Ec & Hrv & _).
      rewrite <- (equiv_xreg _ _ _ Hrv).
      pose proof (dest_zero ir rv (u64 (c + 1)) p Hf Hb Hwf Hx Hd) as Hz. by rewrite Ec in Hz.
    + transitivity (xreg rv 0); [|exact Hx]. by eapply (next_frame_dest rv ir c p Hpl).
  - destruct (next_pc rv ir c p Hpl _ _ _ Hb E) as [_ ->]. apply u32_range.
Qed.

(** A block: branches come last. *)
Inductive straight : list rv_insn_t -> Prop :=
| straight_nil : straight []
| straight_cons (ir : rv_insn_t) (irs : list rv_insn_t) :
    fusable ir -> (insn_is_branch ir.(opcode) = true -> irs = []) -> straight irs ->
    straight (ir :: irs).

Lemma straight_fusable (irs : list rv_insn_t) : straight irs -> Forall fusable irs.
Proof. by induction 1; constructor. Qed.

Lemma straight_plain (irs : list rv_insn_t) : straight irs -> Forall plain irs.
Proof. intros Hs%straight_fusable. eapply Forall_impl; [exact Hs|]. apply fz_plain. Qed.

Lemma straight_app (l1 l2 : list rv_insn_t) : straight (l1 ++ l2) -> straight l1 /\ straight l2.
Proof.
  induction l1 as [|ir l1 IH]; cbn; [split; [constructor|done]|].
  inversion 1 as [|? ? Hf Hb Hs]; subst. destruct (IH Hs). split; [|done]. constructor; [done| |done].
  intros [??]%Hb%app_nil. done.
Qed.

Lemma seq_inv `{!SyscallWf} (irs : list rv_insn_t) (rv rv' : riscv) (c p c' p' : Z) :
  straight irs -> Forall (fun ir => insn_is_branch ir.(opcode) = false) irs -> is_u32 p -> inv rv ->
  exec_seq irs rv c p = Next rv' c' p' -> inv rv' /\ is_u32 p'.
Proof.
  intros Hs. revert rv c p. induction Hs as [|ir irs Hf _ Hs IH]; intros rv c p Hb Hp Hinv E.
  - cbn in E. by simplify_eq.
  - apply Forall_cons in Hb as [Hbi Hb]. apply seq_head in E as (rv1 & c1 & p1 & E1 & E).
    destruct (next_inv _ _ _ _ _ _ _ Hf Hbi Hp Hinv E1). by eapply IH.
Qed.

(** * One iteration *)

(** What an iteration does to the front of the block: nothing, a sequence of
    straight-line instructions, or the last two instructions. *)
Definition stands_for (seg : list rv_insn_t) (ir' : rv_insn_t) (rest : list rv_insn_t) : Prop :=
  (seg = [ir']) \/
  (Forall (fun ir => batchable ir.(opcode) = true) seg /\ through seg ir') \/
  (rest = [] /\ forall rv c p, inv rv -> settle (exec_irs seg rv c p) = settle (exec_ir rv ir' c p)).

Definition iteration (irs : list rv_insn_t) (r : rv_insn_t * list rv_insn_t) : Prop :=
  exists seg, irs = seg ++ r.2 /\ seg <> [] /\ stands_for seg r.1 r.2.

Lemma iteration_keep (ir : rv_insn_t) (rest : list rv_insn_t) : iteration (ir :: rest) (ir, rest).
Proof. exists [ir]. split_and!; [done|done|by left]. Qed.

Lemma iteration_pair (ir next ir' : rv_insn_t) (rest : list rv_insn_t) :
  batchable ir.(opcode) = true -> batchable next.(opcode) = true -> through [ir; next] ir' ->
  iteration (ir :: next :: rest) (ir', remove_next_nth_ir (next :: rest) 1).
Proof. intros. exists [ir; next]. split; [done|]. split; [done|]. right; left. split; [by repeat constructor|done]. Qed.

Lemma count_while_spec (P : rv_insn_t -> bool) (l : list rv_insn_t) :
  0 <= count_while P l <= Z.of_nat (length l) /\
  Forall (fun ir => P ir = true) (take (Z.to_nat (count_while P l)) l).
Proof.
  induction l as [|ir l [IH1 IH2]]; cbn [count_while length]; [split; [lia|constructor]|].
  destruct (P ir) eqn:E; [|split; [lia|constructor]]. split; [lia|].
  rewrite Z2Nat.inj_add by lia. change (Z.to_nat 1) with 1%nat. cbn [Nat.add take]. by constructor.
Qed.

(** Sequences of at most 256 instructions are removed completely. *)
Lemma iteration_sequence (P : rv_insn_t -> bool) (ir : rv_insn_t) (rest : list rv_insn_t) (o : opcode_t) :
  (length rest < 256)%nat -> Forall plain (ir :: rest) ->
  (forall i, P i = true -> batchable i.(opcode) = true) -> P ir = true ->
  (forall irs, Forall plain (ir :: irs) -> Forall (fun i => P i = true) (ir :: irs) ->
     through (ir :: irs) (batch_of o ir irs)) ->
  iteration (ir :: rest) (try_fuse_sequence ir rest (1 + count_while P rest) o).
Proof.
  intros Hlen Hp HP Hi Hth. destruct (count_while_spec P rest) as [Hc Hall].
  unfold try_fuse_sequence. destruct (Z.leb_spec (1 + count_while P rest) 1); [apply iteration_keep|].
  replace (1 + count_while P rest - 1) with (count_while P rest) by lia.
  set (n := count_while P rest) in *. exists (ir :: take (Z.to_nat n) rest). cbn [fst snd].
  assert (Hn : u8 n = n) by (apply Z.mod_small; lia).
  unfold remove_next_nth_ir. rewrite Hn. split; [by rewrite <- app_comm_cons, take_drop|]. split; [done|].
  right; left. split.
  - constructor; [by apply HP|]. eapply Forall_impl; [exact Hall|done].
  - replace (refuse o _) with (batch_of o ir (take (Z.to_nat n) rest)).
    + apply Hth; [|by constructor]. apply Forall_cons in Hp as [? Hp]. constructor; [done|].
      by apply Forall_take.
    + unfold batch_of. rewrite fmap_cons. do 2 f_equal. cbn [length]. rewrite length_take_le by lia. lia.
Qed.

Lemma if_insn (ir : rv_insn_t) (o : opcode_t) : IF_insn ir o = true <-> ir.(opcode) = o.
Proof. apply opcode_eqb_eq. Qed.

Lemma same_opcode (o : opcode_t) (irs : list rv_insn_t) :
  Forall (fun i => IF_insn i o = true) irs -> Forall (fun i => i.(opcode) = o) irs.
Proof. intros Hl. eapply Forall_impl; [exact Hl|]. intros i. apply if_insn. Qed.

(** Sequences with one opcode. *)
Lemma iteration_batch (ir : rv_insn_t) (rest : list rv_insn_t) (o o' : opcode_t) :
  (length rest < 256)%nat -> Forall plain (ir :: rest) -> batchable o = true -> ir.(opcode) = o ->
  (forall irs, Forall plain (ir :: irs) -> Forall (fun i => i.(opcode) = o) (ir :: irs) ->
     through (ir :: irs) (batch_of o' ir irs)) ->
  iteration (ir :: rest) (try_fuse_sequence ir rest (count_consecutive_insn rest o) o').
Proof.
  intros Hlen Hp Hb Ho Hth. apply iteration_sequence; [done|done| |by apply if_insn|].
  - by intros i ->%if_insn.
  - intros irs Hpl Hall. by apply Hth, same_opcode.
Qed.

Lemma iteration_shift (ir : rv_insn_t) (rest : list rv_insn_t) :
  (length rest < 256)%nat -> Forall plain (ir :: rest) -> is_shift_imm ir = true ->
  iteration (ir :: rest) (try_fuse_sequence ir rest (count_consecutive_shift rest) rv_insn_fuse5).
Proof.
  intros Hlen Hp Ho. apply iteration_sequence; [done|done| |done|].
  - intros i. unfold is_shift_imm. rewrite !orb_true_iff, !if_insn. by intros [[-> | ->] | ->].
  - intros irs. apply through_shift.
Qed.

Ltac zbools :=
  repeat match goal with
  | H : _ && _ = true |- _ => apply andb_prop in H as [? ?]
  | H : negb _ = true |- _ => apply negb_true_iff in H
  | H : (_ =? _) = true |- _ => apply Z.eqb_eq in H
  | H : (_ =? _) = false |- _ => apply Z.eqb_neq in H
  | H : IF_insn _ _ = true |- _ => apply if_insn in H
  end.

Ltac opcode_of i := by match goal with H : opcode i = _ |- _ => rewrite H end.

Lemma fuse_lui (ir next : rv_insn_t) (rest : list rv_insn_t) :
  (length (next :: rest) < 256)%nat -> straight (ir :: next :: rest) -> ir.(opcode) = rv_insn_lui ->
  iteration (ir :: next :: rest) (fuse_at ir next rest).
Proof.
  intros Hl Hs Ho. pose proof (straight_plain _ Hs) as Hp.
  pose proof (proj1 (proj1 (Forall_cons _ _ _) Hp)) as Hi.
  pose proof (proj1 (proj1 (Forall_cons _ _ _) (proj2 (proj1 (Forall_cons _ _ _) Hp)))) as Hn.
  unfold fuse_at. rewrite Ho. destruct (opcode next) eqn:Hon; try apply iteration_keep.
  - apply iteration_batch; [done..|]. intros irs. apply through_lui.
  - case_match; [|apply iteration_keep]. zbools.
    apply iteration_pair; [by rewrite Ho|by rewrite Hon|]. by apply through_lui_lw.
  - case_match; [|apply iteration_keep]. zbools.
    apply iteration_pair; [by rewrite Ho|by rewrite Hon|]. by apply through_lui_sw.
  - case_match; [|apply iteration_keep]. zbools.
    apply iteration_pair; [by rewrite Ho|by rewrite Hon|]. by apply through_lui_addi.
  - case_match; [|apply iteration_keep].
    apply iteration_pair; [by rewrite Ho|by rewrite Hon|]. apply through_lui_add; [done..|].
    rewrite orb_true_iff, !Z.eqb_eq in *. done.
Qed.

Lemma iteration_end (ir next ir' : rv_insn_t) (rest : list rv_insn_t) :
  straight (next :: rest) -> insn_is_branch next.(opcode) = true ->
  (forall rv c p, inv rv -> settle (exec_irs [ir; next] rv c p) = settle (exec_ir rv ir' c p)) ->
  iteration (ir :: next :: rest) (ir', remove_next_nth_ir (next :: rest) 1).
Proof.
  inversion 1 as [|? ? _ Hb _]; subst. intros ->%Hb He. exists [ir; next]. split; [done|]. split; [done|].
  right; right. by split.
Qed.

Lemma fuse_at_iteration (ir next : rv_insn_t) (rest : list rv_insn_t) :
  (length (next :: rest) < 256)%nat -> straight (ir :: next :: rest) ->
  iteration (ir :: next :: rest) (fuse_at ir next rest).
Proof.
  intros Hl Hs. pose proof (straight_plain _ Hs) as Hp.
  pose proof (proj1 (proj1 (Forall_cons _ _ _) Hp)) as Hi.
  pose proof (proj1 (proj1 (Forall_cons _ _ _) (proj2 (proj1 (Forall_cons _ _ _) Hp)))) as Hn.
  destruct (opcode ir) eqn:Ho; try by apply fuse_lui.
  all: unfold fuse_at; rewrite Ho; try apply iteration_keep.
  all: try (apply iteration_shift; [done|done|]; unfold is_shift_imm, IF_insn; by rewrite Ho).
  - case_match.
    + zbools. apply iteration_pair; [by rewrite Ho|opcode_of next|]. by apply through_lw_addi.
    + apply iteration_batch; [done..|]. intros irs. apply through_lw.
  - apply iteration_batch; [done..|]. intros irs. apply through_sw.
  - inversion Hs as [|? ? _ _ Hs']; subst. case_match; [|case_match].
    + zbools. apply iteration_end; [done|opcode_of next|]. intros. by apply end_addi_ecall.
    + zbools. apply iteration_end; [done|opcode_of next|]. intros. by apply end_addi_bne.
    + apply iteration_batch; [done..|]. intros irs. apply through_addi.
Qed.

(** * The loop *)

(** The second list follows the first as long as that runs through. *)
Definition follows (irs irs' : list rv_insn_t) : Prop :=
  forall rv c p s, inv rv -> is_u32 p ->
    settle (exec_irs irs rv c p) = Some (s, true) -> settle (exec_irs irs' rv c p) = Some (s, true).

Lemma follows_refl (irs : list rv_insn_t) : follows irs irs.
Proof. by intros rv c p s. Qed.

Lemma follows_keep `{!SyscallWf} (ir : rv_insn_t) (rest l : list rv_insn_t) :
  fusable ir -> insn_is_branch ir.(opcode) = false -> follows rest l -> follows (ir :: rest) (ir :: l).
Proof.
  intros Hf Hb Hl rv c p s Hinv Hp. cbn [exec_irs].
  destruct (exec_ir rv ir c p) as [rv1 c1 p1| | | |] eqn:E; try done.
  destruct (next_inv _ _ _ _ _ _ _ Hf Hb Hp Hinv E). by apply Hl.
Qed.

Lemma follows_through `{!SyscallWf} (seg : list rv_insn_t) (ir' : rv_insn_t) (rest l : list rv_insn_t) :
  straight seg -> Forall (fun ir => batchable ir.(opcode) = true) seg -> through seg ir' ->
  follows rest l -> follows (seg ++ rest) (ir' :: l).
Proof.
  intros Hs Hb Hth Hl rv c p s Hinv Hp. rewrite exec_irs_app. intros Hset.
  assert (exists rv1 c1 p1, exec_seq seg rv c p = Next rv1 c1 p1) as (rv1 & c1 & p1 & E).
  { destruct (exec_seq seg rv c p) eqn:E; [eauto|..];
      (rewrite <- E; eapply batchable_seq; [by apply straight_plain|done|by rewrite E]). }
  rewrite E in Hset. destruct (outcome_next _ _ _ _ (Hth _ _ _ _ _ _ Hinv E)) as (rv2 & E2 & Hrv).
  cbn [exec_irs]. rewrite E2, (settle_proper _ _ (exec_irs_equiv l rv2 rv1 c1 p1 Hrv)).
  assert (Hnb : Forall (fun ir => insn_is_branch ir.(opcode) = false) seg)
    by (eapply Forall_impl; [exact Hb|]; intros i Hbi; cbv beta in *; by destruct (opcode i)).
  destruct (seq_inv _ _ _ _ _ _ _ Hs Hnb Hp Hinv E). by apply Hl.
Qed.

Lemma match_loop_follows `{!SyscallWf} (fuel : nat) (irs : list rv_insn_t) :
  (length irs <= fuel)%nat -> (length irs <= 256)%nat -> straight irs ->
  exists irs', match_loop fuel irs = Some irs' /\ follows irs irs'.
Proof.
  revert irs. induction fuel as [|fuel IH]; intros [|ir [|next rest]] Hf Hl Hs;
    try (eexists; split; [done|apply follows_refl]); cbn [length] in Hf; [lia|].
  cbn [match_loop]. destruct (fuse_at_iteration ir next rest ltac:(cbn in *; lia) Hs) as (seg & Es & Hne & Hr).
  destruct (fuse_at ir next rest) as [ir' rest']. cbn [fst snd] in *.
  assert (Hlen : (S (length rest') <= length (ir :: next :: rest))%nat)
    by (rewrite Es, length_app; destruct seg; [by contradict Hne|cbn; lia]). cbn [length] in Hlen.
  rewrite Es in Hs |- *. apply straight_app in Hs as Hs'. destruct Hs' as [Hseg Hrest].
  destruct (IH rest' ltac:(lia) ltac:(cbn in Hl; lia) Hrest) as (l & El & Hfl).
  rewrite El. eexists. split; [done|]. destruct Hr as [-> | [[Hb Hth] | [-> He]]].
  - inversion Hs as [|? ? Hfz Hbr _]; subst. destruct (insn_is_branch ir'.(opcode)) eqn:Hb.
    + specialize (Hbr eq_refl). by destruct rest'.
    + by apply follows_keep.
  - by apply follows_through.
  - rewrite app_nil_r. intros rv c p s Hinv Hp. rewrite He by done.
    assert (l = []) as -> by (destruct fuel; by injection El). by rewrite settle_last.
Qed.
End Sequences.

Section Top.
Context `{HostClock} `{Syscall} `{SoftFloat} `{!EnvBlind} `{!SyscallWf}.

(** C7. Macro-operation fusion preserves the meaning of a block.  On a block of
    at most 256 instructions as translated (branches only at the end, no load
    or [c.li] into x0) the pass returns, and from every well-formed state with
    x0 = 0 from which the block runs to its end without stopping at a trap, the
    fused block leaves the run loop with the same registers, memory, CSRs,
    program counter and cycle count. *)
Theorem match_pattern_sound (irs : list rv_insn_t) :
  (length irs <= 256)%nat -> straight irs ->
  exists irs', match_pattern irs = Some irs' /\
    forall rv cycle pc s, riscv_wf rv -> xreg rv 0 = 0 -> is_u32 pc ->
      settle (exec_irs irs rv cycle pc) = Some (s, true) ->
      settle (exec_irs irs' rv cycle pc) = Some (s, true).
Proof.
  intros Hl Hs. destruct (match_loop_follows (length irs) irs ltac:(lia) Hl Hs) as (irs' & E & Hf).
  exists irs'. split; [exact E|]. intros rv cycle pc s Hwf Hx. by apply Hf.
Qed.
End Top.

(** A translated instruction with the fields that matter here. *)
Definition sample_ir (o : opcode_t) (i d a b : Z) : rv_insn_t :=
  mk_rv_insn i d a b o 0 0 0 None 0 o None None None.

(** [lui a0, 1; addi a0, a0, 1; slli a1, a0, 2; srli a1, a1, 1; addi a2, a2, -1;
    bne a2, x0, -20]: three fused instructions. *)
Definition sample_block : list rv_insn_t :=
  [sample_ir rv_insn_lui 0x1000 10 0 0; sample_ir rv_insn_addi 1 10 10 0;
   sample_ir rv_insn_slli 2 11 10 0; sample_ir rv_insn_srli 1 11 11 0;
   sample_ir rv_insn_addi (-1) 12 12 0; sample_ir rv_insn_bne (-20) 0 12 0].

Ltac straight_sample :=
  repeat (apply straight_cons || apply straight_nil);
  first [ intros; done
        | constructor; [constructor; [repeat split; done|done|done]|done|done] ].

Lemma sample_straight : straight sample_block.
Proof. straight_sample. Qed.

Lemma match_pattern_sound_witness :
  exists irs', match_pattern sample_block = Some irs' /\
    (opcode <$> irs') = [rv_insn_fuse8; rv_insn_fuse5; rv_insn_fuse12] /\
    exists s, settle (@exec_irs stopped_clock no_syscall nan_unit sample_block hart 0 0) = Some (s, true) /\
      settle (@exec_irs stopped_clock no_syscall nan_unit irs' hart 0 0) = Some (s, true).
Proof.
  destruct (@match_pattern_sound stopped_clock no_syscall nan_unit no_syscall_blind no_syscall_wf
              sample_block ltac:(cbn; lia) sample_straight) as (irs' & E & Hs).
  exists irs'. split; [exact E|]. split; [by apply Some_inj in E as <-|].
  destruct (settle (@exec_irs stopped_clock no_syscall nan_unit sample_block hart 0 0))
    as [[s b]|] eqn:Er; [|discriminate Er].
  exists s. destruct b; [|discriminate Er]. split; [done|].
  apply Hs; [apply hart_with_wf; [done|by apply Forall_replicate]|done|done|exact Er].
Defined.

(** * Longer sequences run twice

    [remove_next_nth_ir] takes the number of instructions to remove as a
    [uint8_t]: of 257 equal instructions, 256 are kept behind the fused one. *)
Definition long_block : list rv_insn_t := replicate 257 (sample_ir rv_insn_addi 1 10 10 0).

Definition a0_after (irs : option (list rv_insn_t)) : option Z :=
  let? irs := irs in
  let? (rv, _) := settle (@exec_irs stopped_clock no_syscall nan_unit irs hart 0 0) in
  Some (xreg rv 10).

Theorem fused_257_twice :
  a0_after (Some long_block) = Some 257 /\ a0_after (match_pattern long_block) = Some 513.
Proof. split; by vm_compute. Qed.

(** * Misaligned accesses inside a fused sequence

    A fused load that is not the first of its sequence traps with the program
    counter of the first, so the default handler emulates the wrong
    instruction: in [lw a0, 0(a1); lw a2, 0(a3); j .] with a1 = 12 and a3 = 18
    the second access is misaligned, and its value ends up in a0. *)
Definition misaligned_hart : riscv :=
  set_xreg 11 12 (set_xreg 13 18
    (hart_running [0x0005a503; 0x0006a603; 0x0000006f; 0x11111111; 0x22223333; 0x44445555])).

Definition misaligned_irs : list rv_insn_t :=
  match translate_loop 8 misaligned_hart 0 [] with Some (_, _, irs) => irs | None => [] end.

(** a0, a2 and the program counter after the trap. *)
Definition after_trap (irs : option (list rv_insn_t)) : option (Z * Z * Z) :=
  let? irs := irs in
  let? (rv, _) := settle (@exec_irs stopped_clock no_syscall nan_unit irs misaligned_hart 0 0) in
  Some (xreg rv 10, xreg rv 12, rv.(PC)).

Theorem fused_misaligned_wrong :
  after_trap (Some misaligned_irs) = Some (0x11111111, 0x55552222, 8) /\
  after_trap (match_pattern misaligned_irs) = Some (0x55552222, 0, 4).
Proof. split; by vm_compute. Qed.
