(* ===== verification/Pipeline.v ===== *)
(** The whole path of a block from memory to the handlers: translation, constant
    propagation and macro-operation fusion, composed as
    [block_find_or_translate] composes them. *)

From stdpp Require Import base list option numbers gmap.
From Stdlib Require Import ZArith Lia Bool.
From S2P Require Import Prelude Bits Insn Decode DecodeSpec DecodeWf Mem MemSpec State Trap Csr Fp Alu.
From S2P Require Import AluSpec Exec Samples Isa IsaValues IsaRefine DecodeExec ExecWf Equiv Frame.
From S2P Require Import Constopt Fusion Block BlockSpec ConstoptSpec FusionSpec.
#[local] Open Scope Z_scope.

(** * What constant propagation makes of an instruction *)

(** The instruction itself, the load of a constant into a register that is not
    x0, or an unconditional jump for a conditional one. *)
Inductive rewritten (ir : rv_insn_t) : rv_insn_t -> Prop :=
| rewritten_same : rewritten ir ir
| rewritten_load (o : opcode_t) (r v : Z) :
    insn_is_branch ir.(opcode) = false -> o = rv_insn_lui \/ o = rv_insn_clui -> 0 < r < 32 ->
    rewritten ir (Constopt.replace o (set_rd r (set_imm v ir)))
| rewritten_jump (o : opcode_t) (v : Z) :
    insn_is_branch ir.(opcode) = true -> o = rv_insn_jal \/ o = rv_insn_cj ->
    rewritten ir (Constopt.replace o (set_imm v ir)).

Lemma rewritten_fusable (ir ir' : rv_insn_t) :
  rewritten ir ir' -> fusable ir ->
  fusable ir' /\ insn_is_branch ir'.(opcode) = insn_is_branch ir.(opcode).
Proof.
  intros Hr [[Hreg Hi Hf] Hst Hx]. pose proof Hreg as (Hd & H1 & H2 & Hs). destruct Hr as [|o r v Hb Ho Hr|o v Hb Ho].
  - split; [|done]. constructor; [constructor|done|done]; [done..].
  - split; [|by destruct Ho as [-> | ->]]. constructor; [constructor|..].
    + repeat split; cbn; first [done|lia].
    + by destruct Ho as [-> | ->].
    + by destruct Ho as [-> | ->].
    + unfold static_ok. cbn [opcode rd Constopt.replace set_impl set_opcode set_rd].
      replace (r =? 0) with false by (symmetry; apply Z.eqb_neq; lia). by destruct Ho as [-> | ->].
    + by destruct Ho as [-> | ->].
  - split; [|by destruct Ho as [-> | ->]]. constructor; [constructor|..].
    + exact Hreg.
    + by destruct Ho as [-> | ->].
    + by destruct Ho as [-> | ->].
    + unfold static_ok. by destruct Ho as [-> | ->].
    + by destruct Ho as [-> | ->].
Qed.

Section Rewritten.
Context (ir : rv_insn_t) (info : constopt_info_t) (Hf : fusable ir).

Definition rewrites (r : option (rv_insn_t * constopt_info_t)) : Prop :=
  match r with Some (ir', _) => rewritten ir ir' | None => True end.

Lemma rewrites_load (o : opcode_t) (v : Z) :
  insn_is_branch ir.(opcode) = false -> unguarded ir.(opcode) = true ->
  o = rv_insn_lui \/ o = rv_insn_clui -> rewrites (load_const o v ir info).
Proof.
  intros Hb Hu Ho. pose proof (fz_static _ Hf) as Hs. unfold static_ok in Hs. rewrite Hu in Hs.
  apply andb_prop in Hs as [Hs _]. cbn in Hs. apply negb_true_iff, Z.eqb_neq in Hs.
  destruct Hf as [[(? & _) _ _] _ _].
  assert (Hr : rewritten ir (Constopt.replace o (set_rd ir.(rd) (set_imm (i32 v) ir))))
    by (apply rewritten_load; [done|done|lia]).
  unfold rewrites, load_const. replace (set_imm (i32 v) ir) with (set_rd ir.(rd) (set_imm (i32 v) ir));
    [exact Hr|by destruct ir].
Qed.

Lemma rewrites_update (r v : Z) :
  insn_is_branch ir.(opcode) = false -> 0 < r < 32 -> rewrites (update_const r v ir info).
Proof. intros Hb Hr. apply rewritten_load; [done|by right|done]. Qed.

Lemma rewrites_imm (o : opcode_t) (f : Z -> Z -> option Z) :
  insn_is_branch ir.(opcode) = false -> unguarded ir.(opcode) = true ->
  o = rv_insn_lui \/ o = rv_insn_clui -> rewrites (opt_imm o f ir info).
Proof. intros. unfold opt_imm. case_match; [|constructor]. case_match; [by apply rewrites_load|exact I]. Qed.

Lemma rewrites_reg (o : opcode_t) (f : Z -> Z -> option Z) :
  insn_is_branch ir.(opcode) = false -> unguarded ir.(opcode) = true ->
  o = rv_insn_lui \/ o = rv_insn_clui -> rewrites (opt_reg o f ir info).
Proof. intros. unfold opt_reg. case_match; [|constructor]. case_match; [by apply rewrites_load|exact I]. Qed.

Lemma set_imm_same (i : rv_insn_t) : set_imm i.(imm) i = i.
Proof. by destruct i. Qed.

Lemma rewrites_branch (u : Z -> Z -> bool) :
  insn_is_branch ir.(opcode) = true -> rewrites (OPT_BRANCH_FUNC u ir info).
Proof.
  intros Hb. unfold OPT_BRANCH_FUNC. case_match; [|constructor]. cbv zeta. case_match.
  - apply rewritten_jump; [done|by left].
  - pose proof (rewritten_jump ir rv_insn_jal ir.(imm) Hb (or_introl eq_refl)) as Hr.
    by rewrite set_imm_same in Hr.
Qed.

Lemma rewrites_cbranch (u : Z -> bool) :
  insn_is_branch ir.(opcode) = true -> rewrites (opt_cbranch u ir info).
Proof.
  intros Hb. unfold opt_cbranch. case_match; [|constructor]. cbv zeta. case_match.
  - apply rewritten_jump; [done|by right].
  - pose proof (rewritten_jump ir rv_insn_cj ir.(imm) Hb (or_intror eq_refl)) as Hr.
    by rewrite set_imm_same in Hr.
Qed.

Lemma rewrites_same (info' : constopt_info_t) : rewrites (Some (ir, info')).
Proof. constructor. Qed.

Lemma rs1_nonzero :
  ir.(opcode) = rv_insn_csrli \/ ir.(opcode) = rv_insn_csrai \/ ir.(opcode) = rv_insn_candi ->
  0 < ir.(rs1) < 32.
Proof.
  destruct Hf as [[(_ & ? & _) _ _] Hs _]. unfold static_ok in Hs.
  intros [Ho|[Ho|Ho]]; rewrite Ho in Hs; cbn in Hs;
    destruct (Z.eqb_spec ir.(rs1) 0); try discriminate Hs; lia.
Qed.

Lemma rd_nonzero : unguarded ir.(opcode) = true -> 0 < ir.(rd) < 32.
Proof.
  destruct Hf as [[(? & _) _ _] Hs _]. unfold static_ok in Hs. intros Hu. rewrite Hu in Hs.
  destruct (Z.eqb_spec ir.(rd) 0); [discriminate Hs|lia].
Qed.

Lemma constopt_rewrites : rewrites (constopt_table ir.(opcode) ir info).
Proof.
  destruct (opcode ir) eqn:Ho; cbn [constopt_table];
    first
    [ exact I
    | apply rewrites_same
    | apply rewrites_imm; [by rewrite Ho|by rewrite Ho|by left]
    | apply rewrites_reg; [by rewrite Ho|by rewrite Ho|auto]
    | apply rewrites_branch; by rewrite Ho
    | apply rewrites_cbranch; by rewrite Ho
    | apply rewrites_load; [by rewrite Ho|by rewrite Ho|by left]
    | idtac ].
  all: unfold constopt_caddi4spn, constopt_caddi, constopt_caddi16sp, constopt_csrli,
    constopt_csrai, constopt_candi, constopt_cslli, constopt_cmv; cbv zeta.
  all: repeat case_match; first
    [ exact I
    | apply rewrites_same
    | apply rewrites_load; [by rewrite Ho|by rewrite Ho|auto]
    | apply rewrites_update; [by rewrite Ho|apply rd_nonzero; by rewrite Ho]
    | apply rewrites_update; [by rewrite Ho|apply rs1_nonzero; auto] ].
Qed.
End Rewritten.

Lemma optimize_straight (irs irs' : list rv_insn_t) (info : constopt_info_t) :
  straight irs -> optimize_irs irs info = Some irs' ->
  straight irs' /\ length irs' = length irs.
Proof.
  intros Hs. revert irs' info. induction Hs as [|ir irs Hf Hb Hs IH]; intros irs' info; cbn [optimize_irs].
  { intros [= <-]. split; [constructor|done]. }
  pose proof (constopt_rewrites ir info Hf) as Hr. destruct (constopt_table _ _ _) as [[ir' info']|]; [|done].
  destruct (optimize_irs irs info') as [l|] eqn:El; [|done]. intros [= <-].
  destruct (IH _ _ El) as [Hl Hlen]. destruct (rewritten_fusable _ _ Hr Hf) as [Hf' Hbr].
  split; [|by cbn; f_equal]. constructor; [done| |done].
  rewrite Hbr. intros ->%Hb. by destruct l.
Qed.

(** * Translated code *)

Lemma translated_fusable (insn pc : Z) (ir : rv_insn_t) :
  is_u32 insn -> decode insn = Some (true, ir) -> x0_kept (translated pc ir) = true ->
  fusable (translated pc ir).
Proof.
  intros Hi Hd Hx. destruct (translated_fields pc ir) as (Ho & Him & _ & Hrd & H1 & H2 & Himm & Hsh).
  constructor; [constructor| |done].
  - pose proof (decode_regs _ _ Hi Hd) as Hr. unfold regs_ok in *. by rewrite Hrd, H1, H2, Hsh.
  - by rewrite Ho, Him.
  - rewrite Ho. by eapply decoded_plain.
  - pose proof (decode_static _ _ Hi Hd) as Hs. unfold static_ok in *. by rewrite Ho, Hrd, H1, Himm, Hsh.
Qed.

Lemma code_straight (m : memory_t) (pc e : Z) (irs : list rv_insn_t) :
  mem_wf m -> code_at m pc irs e -> Forall (fun ir => x0_kept ir = true) irs -> straight irs.
Proof.
  intros Hm Hc. induction Hc as [|pc e insn ir irs Hfe Hnz Hd Hb Hc IH]; intros Hx; [constructor|].
  apply Forall_cons in Hx as [Hx Hxs].
  assert (Hi : is_u32 insn) by (eapply (checked_load_u32 4); [exact Hm|lia|exact Hfe]).
  constructor; [by eapply translated_fusable| |by apply IH].
  destruct (translated_fields pc ir) as (-> & _). exact Hb.
Qed.

Section Top.
Context `{HostClock} `{Syscall} `{SoftFloat} `{!EnvBlind} `{!SyscallWf}.

(** The composition on the instructions of a block. *)
Lemma pipeline_follows (m : memory_t) (pc e : Z) (irs irs1 : list rv_insn_t) :
  mem_wf m -> is_u32 pc -> code_at m pc irs e -> (length irs <= 256)%nat ->
  Forall (fun ir => handled ir = true) irs -> Forall (fun ir => x0_kept ir = true) irs ->
  optimize_irs irs constopt_info_0 = Some irs1 ->
  exists irs2, match_pattern irs1 = Some irs2 /\
    forall rv cycle s, riscv_wf rv -> xreg rv 0 = 0 ->
      settle (exec_irs irs rv cycle pc) = Some (s, true) ->
      settle (exec_irs irs2 rv cycle pc) = Some (s, true).
Proof.
  intros Hm Hpc Hc Hl Hh Hx Ho.
  destruct (optimize_straight _ _ _ (code_straight _ _ _ _ Hm Hc Hx) Ho) as [Hs1 Hl1].
  destruct (match_loop_follows (length irs1) irs1 ltac:(lia) ltac:(lia) Hs1) as (irs2 & E & Hf).
  exists irs2. split; [exact E|]. intros rv cycle s Hwf Hx0 Hset. apply Hf; [done|done|].
  rewrite <- Hset. eapply optimize_irs_sound; [exact Hm|exact Hc|done|done|done| |exact Ho].
  by apply info_0_ok.
Qed.

(** C2. The optimised and fused block means what the code in memory means.
    Take the straight-line code at [pc], at most 256 instructions, without a
    load or [c.li] into x0 and without an [sc.w] that has a destination.  If
    constant propagation returns, fusion returns too, and whenever the original
    instructions run to the end of the block without stopping at a trap, the
    instructions the interpreter really runs reach the same registers, memory,
    CSRs, program counter and cycle count. *)
Theorem block_pipeline_sound (m : memory_t) (pc e : Z) (irs irs1 : list rv_insn_t) (rv0 : riscv) :
  mem_wf m -> is_u32 pc -> code_at m pc irs e -> (length irs <= 256)%nat ->
  Forall (fun ir => handled ir = true) irs -> Forall (fun ir => x0_kept ir = true) irs ->
  optimize_constant rv0 irs = Some irs1 ->
  exists irs2, match_pattern irs1 = Some irs2 /\
    forall rv cycle s, riscv_wf rv -> xreg rv 0 = 0 ->
      settle (exec_irs irs rv cycle pc) = Some (s, true) ->
      settle (exec_irs irs2 rv cycle pc) = Some (s, true).
Proof.
  intros Hm Hpc Hc Hl Hh Hx Ho. unfold optimize_constant in Ho.
  destruct (xreg rv0 rv_reg_zero =? 0); [|done]. by eapply pipeline_follows.
Qed.
End Top.

(** [lui a0, 1; addi a0, a0, 5; lw a1, 0(x0); lw a2, 4(x0); j .]: the first two
    become a batch of constants, the loads one instruction. *)
Definition pipeline_hart : riscv :=
  hart_running [0x00001537; 0x00550513; 0x00002583; 0x00402603; 0x0000006f].

Definition pipeline_irs : list rv_insn_t :=
  match translate_loop 8 pipeline_hart 0 [] with Some (_, _, irs) => irs | None => [] end.

Lemma pipeline_code : code_at pipeline_hart.(mem) 0 pipeline_irs 20.
Proof.
  unfold pipeline_irs. destruct (translate_loop 8 pipeline_hart 0 []) as [[[rv' e] irs]|] eqn:E;
    [|vm_compute in E; discriminate E].
  pose proof (translate_loop_correct 8 _ rv' 0 e [] irs E) as (new & Hn & Hc & _).
  simpl in Hn. subst new. replace 20 with e; [exact Hc|].
  assert (He : (let? (_, e, _) := translate_loop 8 pipeline_hart 0 [] in Some e) = Some 20) by (by vm_compute).
  rewrite E in He. by apply Some_inj in He.
Qed.

(** a0 and a2 at the end of a list of instructions. *)
Definition pipeline_result (irs : list rv_insn_t) : option (Z * Z * bool) :=
  let? (s, b) := settle (@exec_irs stopped_clock no_syscall nan_unit irs pipeline_hart 0 0) in
  Some (xreg s 10, xreg s 12, b).

Lemma block_pipeline_sound_witness :
  exists irs1 irs2, optimize_constant pipeline_hart pipeline_irs = Some irs1 /\
    match_pattern irs1 = Some irs2 /\
    opcode <$> irs2 = [rv_insn_fuse1; rv_insn_fuse4; rv_insn_jal] /\
    pipeline_result irs2 = Some (0x1005, 0x00550513, true).
Proof.
  destruct (optimize_constant pipeline_hart pipeline_irs) as [irs1|] eqn:Ho;
    [|vm_compute in Ho; discriminate Ho].
  assert (Hl : (length pipeline_irs <= 256)%nat) by (apply Nat.leb_le; by vm_compute).
  assert (Hh : Forall (fun ir => handled ir = true) pipeline_irs)
    by (apply List.Forall_forall, List.forallb_forall; by vm_compute).
  assert (Hx : Forall (fun ir => x0_kept ir = true) pipeline_irs)
    by (apply List.Forall_forall, List.forallb_forall; by vm_compute).
  destruct (@block_pipeline_sound stopped_clock no_syscall nan_unit no_syscall_blind no_syscall_wf
    pipeline_hart.(mem) 0 20 pipeline_irs irs1 pipeline_hart (wf_mem _ (hart_running_wf _)) (u32_range 0)
    pipeline_code Hl Hh Hx Ho) as (irs2 & E2 & Hr).
  assert (Hp : pipeline_result pipeline_irs = Some (0x1005, 0x00550513, true)) by (by vm_compute).
  exists irs1, irs2. split; [done|]. split; [done|]. split.
  - assert (Hm : (let? l := match_pattern irs1 in Some (opcode <$> l))
      = Some [rv_insn_fuse1; rv_insn_fuse4; rv_insn_jal]).
    { vm_compute in Ho. apply Some_inj in Ho as <-. by vm_compute. }
    rewrite E2 in Hm. by apply Some_inj in Hm.
  - unfold pipeline_result in *.
    destruct (settle (@exec_irs stopped_clock no_syscall nan_unit pipeline_irs pipeline_hart 0 0))
      as [[s b]|] eqn:Es; [|discriminate Hp].
    assert (Hb : b = true) by exact (f_equal (fun o => match o with Some (_, _, b) => b | None => true end) Hp).
    rewrite Hb in Es, Hp.
    rewrite (Hr pipeline_hart 0 s (hart_running_wf _) eq_refl Es). exact Hp.
Defined.
