(* ===== verification/Links.v ===== *)
(** Where handlers send control: which outcomes a handler has, how far it
    advances the program counter, and that the links the run loop adds to an
    instruction (chained blocks, branch history) do not change what it does. *)

From stdpp Require Import base list option numbers gmap.
From Stdlib Require Import ZArith Lia Bool.
From S2P Require Import Prelude Bits Insn Decode Mem State Trap Csr Fp Alu Exec IsaRefine ExecWf Equiv Frame.
#[local] Open Scope Z_scope.

(** * Kinds of instructions at the end of a block *)

Inductive kind : Type := Direct | Conditional | Indirect | Ends.

(** The conditional branches of RV32I end their block without using links. *)
Definition tail_kind (o : opcode_t) : kind :=
  match o with
  | rv_insn_jal | rv_insn_cj | rv_insn_cjal => Direct
  | rv_insn_cbeqz | rv_insn_cbnez | rv_insn_fuse12 => Conditional
  | rv_insn_jalr | rv_insn_cjr | rv_insn_cjalr => Indirect
  | _ => Ends
  end.

(** An instruction that may stand before the end of a block. *)
Definition inner_op (o : opcode_t) : bool :=
  match o with
  | rv_insn_wfi | rv_insn_fuse6 | rv_insn_fuse12 => false
  | _ => negb (insn_is_branch o)
  end.

(** How far it advances the program counter. *)
Definition advance (ir : rv_insn_t) : Z :=
  match ir.(impl) with
  | rv_insn_fuse1 | rv_insn_fuse3 | rv_insn_fuse4 | rv_insn_fuse5 | rv_insn_fuse7 => ir.(imm2) * 4
  | rv_insn_fuse2 | rv_insn_fuse8 | rv_insn_fuse9 | rv_insn_fuse10 | rv_insn_fuse11 => 8
  | o => insn_len o
  end.

(** * Outcomes of instruction bodies *)

(** No body that is not a jump leaves through a link; a body that returns true
    ends its block; one that falls through has not moved the program counter. *)
Definition plain_outcome (ends : bool) (p : Z) (o : outcome) : Prop :=
  match o with
  | Next _ _ p' => p' = p
  | Exit _ b => b = true -> ends = true
  | Jump _ _ _ _ | Lookup _ _ _ => False
  | Undef => True
  end.

Ltac head_of t := lazymatch t with ?f _ => head_of f | ?f => f end.

(** Unfold the definition an outcome is an application of, or split on what it
    depends on. *)
Ltac outcome_step :=
  lazymatch goal with
  | |- plain_outcome _ _ (match ?x with _ => _ end) => destruct x
  | |- plain_outcome _ _ (let _ := _ in _) => cbv zeta
  | |- plain_outcome _ _ ?t => let h := head_of t in unfold h
  end.

Ltac outcome_cases := repeat first [exact I | done | outcome_step].

Section Outcomes.
Context `{HostClock} `{Syscall} `{SoftFloat}.

Lemma code_outcome (o : opcode_t) (rv : riscv) (ir : rv_insn_t) (c p : Z) :
  tail_kind o = Ends -> plain_outcome (negb (inner_op o)) p (code_of o rv ir c p).
Proof.
  intros Hk. destruct o; try discriminate Hk; cbn [code_of inner_op insn_is_branch negb]; clear Hk; outcome_cases.
Qed.
(** ** Instructions inside a block *)

Definition inner_outcome (next : Z) (o : outcome) : Prop :=
  match o with
  | Next _ _ p => p = next
  | Exit _ b => b = false
  | Jump _ _ _ _ | Lookup _ _ _ => False
  | Undef => True
  end.

Lemma fuse_stores_inner (l : list opcode_fuse_t) (rv : riscv) (c p next : Z) (k : riscv -> outcome) :
  (forall r, inner_outcome next (k r)) -> inner_outcome next (fuse_stores l rv c p k).
Proof.
  intros Hk. revert rv. induction l as [|f l IH]; intros rv; cbn [fuse_stores]; [apply Hk|].
  unfold exc_misaligned. by repeat case_match.
Qed.

Lemma fuse_loads_inner (l : list opcode_fuse_t) (rv : riscv) (c p next : Z) (k : riscv -> outcome) :
  (forall r, inner_outcome next (k r)) -> inner_outcome next (fuse_loads l rv c p k).
Proof.
  intros Hk. revert rv. induction l as [|f l IH]; intros rv; cbn [fuse_loads]; [apply Hk|].
  unfold exc_misaligned. by repeat case_match.
Qed.

Lemma fused_inner (rv : riscv) (ir : rv_insn_t) (c p : Z) :
  is_fused ir.(impl) = true -> inner_op ir.(impl) = true ->
  inner_outcome (add32 p (advance ir)) (exec_ir rv ir c p).
Proof.
  intros Hf Hi. unfold exec_ir, advance. destruct (impl ir); try discriminate Hf; try discriminate Hi; clear Hf Hi;
    cbn [do_insn].
  all: unfold do_fuse1, do_fuse2, do_fuse3, do_fuse4, do_fuse5, do_fuse7, do_fuse8, do_fuse9, do_fuse10,
    do_fuse11, exc_misaligned, fuse_next_or_stop; cbv zeta.
  all: repeat case_match; try done.
  - by apply fuse_stores_inner.
  - by apply fuse_loads_inner.
Qed.

Lemma exec_inner (rv : riscv) (ir : rv_insn_t) (c p : Z) :
  inner_op ir.(impl) = true -> inner_outcome (add32 p (advance ir)) (exec_ir rv ir c p).
Proof.
  intros Hi. destruct (is_fused ir.(impl)) eqn:Hf; [by apply fused_inner|].
  unfold exec_ir. rewrite do_insn_plain by done. unfold rvop. cbv zeta.
  assert (Hk : tail_kind ir.(impl) = Ends) by (by destruct (impl ir)).
  assert (Ha : advance ir = insn_len ir.(impl)) by (unfold advance; by destruct (impl ir)).
  pose proof (code_outcome ir.(impl) (count_insn ir.(opcode) (rv_trace_record c p RV_TRACE_INSN 0 rv)) ir
    (u64 (c + 1)) p Hk) as Ho.
  rewrite Hi in Ho. destruct (code_of _ _ _ _ _) as [r c' p'|r b| | |]; cbn in Ho |- *; try done.
  - by rewrite Ho, Ha.
  - destruct b; [|done]. by specialize (Ho eq_refl).
Qed.

(** ** The last instruction *)

Definition taken_pc (ir : rv_insn_t) (p : Z) : Z :=
  match ir.(impl) with rv_insn_fuse12 => add32 p (4 + ir.(imm2)) | _ => add32 p ir.(imm) end.

Definition untaken_pc (ir : rv_insn_t) (p : Z) : Z :=
  match ir.(impl) with rv_insn_fuse12 => add32 p 8 | _ => add32 p 2 end.

(** Where the last instruction [ir], executed at [p], has sent control, as the
    run loop can tell from the program counter and [is_branch_taken]. *)
Definition went (ir : rv_insn_t) (p : Z) (rv : riscv) (pc : Z) : Prop :=
  match tail_kind ir.(impl) with
  | Direct => pc = taken_pc ir p
  | Conditional => pc = if rv.(is_branch_taken) then taken_pc ir p else untaken_pc ir p
  | Indirect | Ends => True
  end.

(** The block a link leads to. *)
Definition follows_link (ir : rv_insn_t) (rv : riscv) (t : irptr) : Prop :=
  match tail_kind ir.(impl) with
  | Direct => ir.(branch_taken) = Some t
  | Conditional => (if rv.(is_branch_taken) then ir.(branch_taken) else ir.(branch_untaken)) = Some t
  | Indirect | Ends => False
  end.

Definition tail_outcome (ir : rv_insn_t) (p : Z) (o : outcome) : Prop :=
  match o with
  | Next _ _ _ => False
  | Exit rv b => b = true -> went ir p rv rv.(PC)
  | Jump rv c pc t => rv.(last_pc) = pc /\ went ir p rv pc /\ follows_link ir rv t
  | Lookup _ _ _ => tail_kind ir.(impl) = Indirect
  | Undef => True
  end.

Lemma exec_tail (rv : riscv) (ir : rv_insn_t) (c p : Z) : tail_outcome ir p (exec_irs [ir] rv c p).
Proof.
  cbn [exec_irs]. destruct (tail_kind ir.(impl)) eqn:Hk; unfold tail_outcome, went, follows_link; rewrite Hk.
  - unfold exec_ir, taken_pc. destruct (impl ir); try discriminate Hk; clear Hk; cbn [do_insn];
      unfold rvop; cbn [code_of]; unfold code_jal, code_cj, code_cjal, chain; cbv zeta;
      destruct (branch_taken ir); done.
  - unfold exec_ir, taken_pc, untaken_pc. destruct (impl ir); try discriminate Hk; clear Hk; cbn [do_insn code_of].
    all: unfold rvop; cbn [code_of]; unfold code_cbeqz, code_cbnez, cbranch, do_fuse12, chain; cbv zeta.
    all: destruct (branch_taken ir), (branch_untaken ir); destruct (truthy _); done.
  - unfold exec_ir. destruct (impl ir); try discriminate Hk; clear Hk; cbn [do_insn]; unfold rvop; done.
  - destruct (exec_ir rv ir c p) as [r c' p'|r b|r c' p' t|r c' p'|] eqn:E; try done.
    all: exfalso; revert E; unfold exec_ir; destruct (is_fused ir.(impl)) eqn:Hf.
    all: try (rewrite do_insn_plain by done; unfold rvop; cbv zeta;
      pose proof (code_outcome ir.(impl) (count_insn ir.(opcode) (rv_trace_record c p RV_TRACE_INSN 0 rv)) ir
        (u64 (c + 1)) p Hk) as Ho;
      destruct (code_of _ _ _ _ _); by cbn in Ho).
    all: destruct (inner_op ir.(impl)) eqn:Hi;
      [pose proof (fused_inner rv ir c p Hf Hi) as Ho; unfold exec_ir in Ho; intros E; by rewrite E in Ho|].
    all: destruct (impl ir); try discriminate Hk; try discriminate Hf; try discriminate Hi; cbn [do_insn].
    all: unfold do_fuse6; cbv zeta; by case_match.
Qed.

(** * Links do not change what an instruction does *)

Definition relink (t u : option irptr) (bt : option branch_history_table_t) (ir : rv_insn_t) : rv_insn_t :=
  set_branch_table bt (set_branch_untaken u (set_branch_taken t ir)).

(** The handlers that look at the links. *)
Definition reads_links (o : opcode_t) : bool :=
  match o with
  | rv_insn_beq | rv_insn_bne | rv_insn_blt | rv_insn_bge | rv_insn_bltu | rv_insn_bgeu => true
  | _ => match tail_kind o with Direct | Conditional => true | _ => false end
  end.

Ltac on_fields :=
  cbn [relink set_branch_table set_branch_untaken set_branch_taken
       imm rd rs1 rs2 opcode shamt rm imm2 fuse pc impl branch_taken branch_untaken branch_table].

(** Unfold what is applied to an instruction until only its fields are left. *)
Ltac by_fields :=
  on_fields; repeat (match goal with
  | |- context [?f (mk_rv_insn _ _ _ _ _ _ _ _ _ _ _ _ _ _)] => let h := head_of f in unfold h
  end; cbv beta zeta; on_fields); reflexivity.

Lemma relink_exec (rv : riscv) (ir : rv_insn_t) (c p : Z) (t u : option irptr) (bt : option branch_history_table_t) :
  reads_links ir.(impl) = false -> exec_ir rv (relink t u bt ir) c p = exec_ir rv ir c p.
Proof.
  intros Hr. destruct ir as [i d s1 s2 o sh m i2 f q im t0 u0 bt0]. cbn [impl] in Hr.
  unfold exec_ir. on_fields. destruct im; try discriminate Hr; cbn [do_insn code_of]; by_fields.
Qed.

Lemma settle_branch (untaken : Z -> Z -> bool) (o : opcode_t) (rv : riscv) (ir : rv_insn_t) (c p : Z)
    (t u : option irptr) (bt : option branch_history_table_t) :
  insn_len o = 4 ->
  settle (rvop o (BRANCH_FUNC untaken) rv (relink t u bt ir) c p) = settle (rvop o (BRANCH_FUNC untaken) rv ir c p).
Proof.
  intros Hl. unfold rvop, BRANCH_FUNC. cbv zeta.
  cbn [relink set_branch_table set_branch_untaken set_branch_taken opcode rs1 rs2 imm branch_untaken].
  rewrite Hl. destruct (untaken _ _); destruct u, (branch_untaken ir); reflexivity.
Qed.

Lemma settle_chain (rv : riscv) (c p : Z) (t : option irptr) : settle (chain t rv c p) = settle (Next rv c p).
Proof. by destruct t. Qed.

Lemma settle_rvop_chain (o : opcode_t) (rv : riscv) (c p : Z) (t : option irptr) :
  settle (match chain t rv c p with Next r c p => Next r c (add32 p (insn_len o)) | x => x end) = settle (Next rv c p).
Proof. by destruct t. Qed.

Lemma settle_cbranch (untaken : Z -> bool) (o : opcode_t) (rv : riscv) (ir : rv_insn_t) (c p : Z)
    (t u : option irptr) (bt : option branch_history_table_t) :
  insn_len o = 2 ->
  settle (rvop o (cbranch untaken) rv (relink t u bt ir) c p) = settle (rvop o (cbranch untaken) rv ir c p).
Proof.
  intros Hl. unfold rvop, cbranch. cbv zeta.
  cbn [relink set_branch_table set_branch_untaken set_branch_taken opcode rs1 imm branch_taken branch_untaken].
  rewrite Hl. destruct (untaken _); [by destruct u, (branch_untaken ir)|]. by destruct t, (branch_taken ir).
Qed.

Lemma relink_settle (rv : riscv) (ir : rv_insn_t) (c p : Z) (t u : option irptr) (bt : option branch_history_table_t) :
  settle (exec_ir rv (relink t u bt ir) c p) = settle (exec_ir rv ir c p).
Proof.
  destruct (reads_links ir.(impl)) eqn:Hr; [|by rewrite relink_exec].
  unfold exec_ir. change (impl (relink t u bt ir)) with (impl ir).
  destruct (impl ir); try discriminate Hr; clear Hr; cbn [do_insn code_of].
  all: try (by apply settle_branch); try (by apply settle_cbranch).
  all: unfold rvop, code_jal, code_cj, code_cjal, do_fuse12; cbv zeta;
    cbn [relink set_branch_table set_branch_untaken set_branch_taken opcode rd rs1 imm imm2 branch_taken branch_untaken];
    try (by rewrite !settle_rvop_chain).
  destruct (truthy _); by rewrite !settle_chain.
Qed.

End Outcomes.
