(* ===== verification/Kept.v ===== *)
(** Only a jump to a chained block moves [last_pc]. *)

From stdpp Require Import base list option numbers gmap.
From Stdlib Require Import ZArith Lia Bool.
From S2P Require Import Prelude Bits Insn Decode Mem State Trap Csr Fp Alu Exec Samples IsaRefine ExecWf Equiv.
From S2P Require Import Frame Links.
#[local] Open Scope Z_scope.

(** [last_pc] is a static variable of emulate.c, which the system-call layer
    does not see. *)
Class SyscallLocal `{Syscall} : Prop := {
  syscall_last : forall rv rv', syscall_handler rv = Some rv' -> rv'.(last_pc) = rv.(last_pc);
}.

Definition last_kept (v : Z) (o : outcome) : Prop :=
  match o with
  | Next rv _ _ | Exit rv _ | Lookup rv _ _ => rv.(last_pc) = v
  | Jump _ _ _ _ | Undef => True
  end.

Definition keeps_last (h : handler) : Prop := forall rv ir c p, last_kept rv.(last_pc) (h rv ir c p).

(** What commutes with replacing the statistics keeps them. *)
Lemma last_put (f : riscv -> riscv) (rv : riscv) :
  (forall s r, f (put s r) = put s (f r)) -> (f rv).(last_pc) = rv.(last_pc).
Proof. intros Hf. by rewrite <- (put_stats_of rv) at 1; rewrite Hf. Qed.

Lemma last_put_option (f : riscv -> option riscv) (rv rv' : riscv) :
  (forall s r, f (put s r) = put s <$> f r) -> f rv = Some rv' -> rv'.(last_pc) = rv.(last_pc).
Proof.
  intros Hf E. pose proof (Hf (stats_of rv) rv) as Hp. rewrite put_stats_of, E in Hp. apply Some_inj in Hp.
  by rewrite Hp.
Qed.

Create Rewrite HintDb last.

Section Basics.
Context (rv : riscv).
Lemma last_trace (c p t a : Z) : last_pc (rv_trace_record c p t a rv) = last_pc rv.
Proof.
  unfold rv_trace_record. destruct (history_log rv); [|done]. cbv zeta. destruct (1 <? _); [|done].
  by destruct (negb _).
Qed.
Lemma last_set_xreg (i v : Z) : last_pc (set_xreg i v rv) = last_pc rv. Proof. reflexivity. Qed.
Lemma last_set_freg (i v : Z) : last_pc (set_freg i v rv) = last_pc rv. Proof. reflexivity. Qed.
Lemma last_set_mem (m : memory_t) : last_pc (set_mem m rv) = last_pc rv. Proof. reflexivity. Qed.
Lemma last_set_PC (v : Z) : last_pc (set_PC v rv) = last_pc rv. Proof. reflexivity. Qed.
Lemma last_set_csr_cycle (v : Z) : last_pc (set_csr_cycle v rv) = last_pc rv. Proof. reflexivity. Qed.
Lemma last_set_compressed (v : bool) : last_pc (set_compressed v rv) = last_pc rv. Proof. reflexivity. Qed.
Lemma last_set_is_branch_taken (v : bool) : last_pc (set_is_branch_taken v rv) = last_pc rv. Proof. reflexivity. Qed.
Lemma last_taken_forward (v : Z) : last_pc (set_branch_taken_forward v rv) = last_pc rv. Proof. reflexivity. Qed.
Lemma last_taken_backward (v : Z) : last_pc (set_branch_taken_backward v rv) = last_pc rv. Proof. reflexivity. Qed.
Lemma last_untaken_forward (v : Z) : last_pc (set_branch_untaken_forward v rv) = last_pc rv. Proof. reflexivity. Qed.
Lemma last_set_csr (r : csr_reg) (v : Z) : last_pc (set_csr r v rv) = last_pc rv. Proof. reflexivity. Qed.
Lemma last_set_priv_mode (v : Z) : last_pc (set_priv_mode v rv) = last_pc rv. Proof. reflexivity. Qed.
Lemma last_prof_call (e : prof_event) : last_pc (prof_call e rv) = last_pc rv. Proof. reflexivity. Qed.
Lemma last_count_insn (o : opcode_t) : last_pc (count_insn o rv) = last_pc rv. Proof. reflexivity. Qed.
Lemma last_write_rd_nz (ir : rv_insn_t) (v : Z) : last_pc (write_rd_nz rv ir v) = last_pc rv.
Proof. unfold write_rd_nz. by destruct (truthy _). Qed.
Lemma last_trap (cause tval : Z) (rv' : riscv) :
  SET_CAUSE_AND_TVAL_THEN_TRAP cause tval rv = Some rv' -> rv'.(last_pc) = rv.(last_pc).
Proof. apply last_put_option. intros. apply trap_put. Qed.
Lemma last_if (b : bool) (r1 r2 : riscv) : last_pc (if b then r1 else r2) = if b then last_pc r1 else last_pc r2.
Proof. by destruct b. Qed.
Lemma if_same (b : bool) (v : Z) : (if b then v else v) = v. Proof. by destruct b. Qed.
End Basics.

#[export] Hint Rewrite last_trace last_set_xreg last_set_freg last_set_mem last_set_PC last_set_csr_cycle
  last_set_compressed last_set_is_branch_taken last_taken_forward last_taken_backward last_untaken_forward
  last_set_csr last_set_priv_mode last_prof_call last_count_insn last_write_rd_nz last_if if_same : last.

Ltac last_leaf := cbn [last_kept]; autorewrite with last; done.

Ltac last_cases :=
  repeat first
    [ exact I
    | lazymatch goal with
      | |- last_kept _ (match ?x with _ => _ end) => destruct x eqn:?
      | |- last_kept _ (let _ := _ in _) => cbv zeta
      end ]; try last_leaf.

Lemma exc_misaligned_last (cause : Z) (z : bool) (a c p : Z) (rv : riscv) :
  last_kept rv.(last_pc) (exc_misaligned cause z a rv c p).
Proof.
  unfold exc_misaligned. cbv zeta. destruct (SET_CAUSE_AND_TVAL_THEN_TRAP _ _ _) as [r|] eqn:E; [|done].
  apply last_trap in E. exact E.
Qed.

Lemma access_last (a m cause : Z) (z : bool) (rv : riscv) (c p : Z) (k : riscv -> outcome) :
  (forall r, last_kept r.(last_pc) (k r)) -> last_kept rv.(last_pc) (access a m cause z rv c p k).
Proof.
  intros Hk. unfold access. cbv zeta. rewrite <- (last_trace rv c p RV_TRACE_MEM a).
  destruct (misaligned _ _ _); [apply exc_misaligned_last|apply Hk].
Qed.

Ltac last_body :=
  intros rv ir c p;
  repeat first
    [ exact I
    | lazymatch goal with
      | |- last_kept _ (access _ _ _ _ _ _ _ _) => apply access_last; intros r
      | |- last_kept _ (match ?x with _ => _ end) => destruct x eqn:?
      | |- last_kept _ (let _ := _ in _) => cbv zeta
      | |- last_kept _ (Next _ _ _) => last_leaf
      | |- last_kept _ (Exit _ _) => last_leaf
      | |- last_kept _ (Lookup _ _ _) => last_leaf
      | |- last_kept _ ?t => let h := head_of t in unfold h
      end ].

Section Codes.
Context `{HostClock} `{Syscall} `{SoftFloat} `{!EnvBlind} `{!SyscallLocal}.

Lemma last_set_fflag (rv : riscv) : last_pc (set_fflag rv) = last_pc rv.
Proof. apply last_put. intros. apply set_fflag_put. Qed.

Lemma last_raise (fl : Z) (rv : riscv) : last_pc (raise fl rv) = last_pc rv. Proof. reflexivity. Qed.

Lemma traps_keep_last : keeps_last code_ebreak /\ keeps_last code_cebreak /\ keeps_last code_ecall.
Proof.
  split_and!; intros rv ir c p; unfold code_ebreak, code_cebreak, code_ecall, ebreak_handler, ecall_handler; cbv zeta.
  - destruct (SET_CAUSE_AND_TVAL_THEN_TRAP _ _ _) as [r|] eqn:E; [|done]. apply last_trap in E. exact E.
  - destruct (SET_CAUSE_AND_TVAL_THEN_TRAP _ _ _) as [r|] eqn:E; [|done]. apply last_trap in E. exact E.
  - destruct (SET_CAUSE_AND_TVAL_THEN_TRAP _ _ _) as [r|] eqn:E; [|done]. apply last_trap in E.
    destruct (syscall_handler r) as [r'|] eqn:E'; [|done]. apply syscall_last in E'. cbn [last_kept]. by rewrite E'.
Qed.

Lemma csr_rmw_last (f : Z -> Z) (rv : riscv) (csr c : Z) : last_pc (csr_rmw f rv csr c).2 = last_pc rv.
Proof. apply (last_put (fun r => (csr_rmw f r csr c).2)). intros s r. rewrite csr_rmw_put. by destruct (csr_rmw f r csr c). Qed.

Lemma csr_op_keeps (f : riscv -> rv_insn_t -> Z -> Z * riscv) :
  (forall rv ir c, last_pc (f rv ir c).2 = last_pc rv) -> keeps_last (csr_op f).
Proof. intros Hf rv ir c p. unfold csr_op. specialize (Hf rv ir c). destruct (f rv ir c). exact Hf. Qed.

Lemma csr_keep_last :
  keeps_last code_csrrw /\ keeps_last code_csrrs /\ keeps_last code_csrrc /\ keeps_last code_csrrwi /\
  keeps_last code_csrrsi /\ keeps_last code_csrrci.
Proof. split_and!; apply csr_op_keeps; intros; apply csr_rmw_last. Qed.

Lemma fp_op_keeps (op : riscv -> rv_insn_t -> Z * Z) (w : Z -> riscv -> rv_insn_t -> riscv) :
  (forall v rv ir, last_pc (w v rv ir) = last_pc rv) -> keeps_last (fp_op op w).
Proof.
  intros Hw rv ir c p. unfold fp_op. destruct (set_rounding_mode rv _) as [r|] eqn:E; [|done].
  apply (last_put_option (fun r => set_rounding_mode r _)) in E; [|intros; apply set_rounding_mode_put].
  destruct (op r ir). cbn [last_kept]. by rewrite last_set_fflag, Hw.
Qed.

Lemma fp_cmp_keeps (f : Z -> Z -> bool * Z) : keeps_last (fp_cmp f).
Proof.
  intros rv ir c p. unfold fp_cmp. destruct (f _ _). cbn [last_kept]. by rewrite last_set_fflag, last_write_rd_nz.
Qed.

Lemma minmax_keeps (less : Z -> Z -> riscv -> bool * riscv) :
  (forall a b r, last_pc (less a b r).2 = last_pc r) -> keeps_last (minmax less).
Proof.
  intros Hl rv ir c p. unfold minmax. cbv zeta. match goal with |- context [less ?a ?b ?r] =>
    specialize (Hl a b r); destruct (less a b r) as [x r'] end. cbn [snd last_kept] in *.
  autorewrite with last. rewrite Hl. by case_match.
Qed.

Lemma last_ordered (a b f1 f2 sign : Z) (r : riscv) : last_pc (ordered a b f1 f2 sign r).2 = last_pc r.
Proof. unfold ordered. destruct (f32_lt_quiet a b) as [[] ?]; [done|]. by destruct (f32_eq f1 f2). Qed.

Lemma code_keeps_last (o : opcode_t) : keeps_last (code_of o).
Proof.
  destruct o; cbn [code_of];
    first
    [ solve [last_body] | solve [apply traps_keep_last] | solve [apply csr_keep_last]
    | apply fp_cmp_keeps
    | apply fp_op_keeps; intros; first [reflexivity | apply last_write_rd_nz]
    | apply minmax_keeps; intros; apply last_ordered ].
Qed.

(** * Fused handlers *)

Lemma fold_last {A} (g : riscv -> A -> riscv) (l : list A) (rv : riscv) :
  (forall r a, last_pc (g r a) = last_pc r) -> last_pc (fold_left g l rv) = last_pc rv.
Proof. intros Hg. revert rv. induction l as [|a l IH]; intros rv; cbn; [done|]. by rewrite IH. Qed.

Lemma fuse_stores_last (l : list opcode_fuse_t) (c p v : Z) (k : riscv -> outcome) (rv : riscv) :
  rv.(last_pc) = v -> (forall r, r.(last_pc) = v -> last_kept v (k r)) -> last_kept v (fuse_stores l rv c p k).
Proof.
  intros Hv Hk. revert rv Hv. induction l as [|f l IH]; intros rv Hv; [by apply Hk|]. cbn [fuse_stores]. cbv zeta.
  destruct (misaligned _ _ _); [rewrite <- Hv; apply exc_misaligned_last|].
  destruct (ram_write_w _ _ _); [by apply IH|done].
Qed.

Lemma fuse_loads_last (l : list opcode_fuse_t) (c p v : Z) (k : riscv -> outcome) (rv : riscv) :
  rv.(last_pc) = v -> (forall r, r.(last_pc) = v -> last_kept v (k r)) -> last_kept v (fuse_loads l rv c p k).
Proof.
  intros Hv Hk. revert rv Hv. induction l as [|f l IH]; intros rv Hv; [by apply Hk|]. cbn [fuse_loads]. cbv zeta.
  destruct (misaligned _ _ _); [rewrite <- Hv; apply exc_misaligned_last|].
  destruct (ram_read_w _ _); [by apply IH|done].
Qed.

Lemma fuse_shift_last (l : list opcode_fuse_t) (r r' : riscv) :
  fold_left (fun acc f => let? rv := acc in fuse_shift_exec rv f) l (Some r) = Some r' -> last_pc r' = last_pc r.
Proof.
  apply (last_put_option (fun r => fold_left (fun acc f => let? rv := acc in fuse_shift_exec rv f) l (Some r))).
  intros s x. exact (fuse_shift_put l s (Some x)).
Qed.

Ltac misaligned_last :=
  match goal with |- last_kept _ (exc_misaligned _ _ _ ?r _ _) => exact (exc_misaligned_last _ _ _ _ _ r) end.

Lemma fused_keep_last (o : opcode_t) : is_fused o = true -> keeps_last (do_insn o).
Proof.
  intros Hf rv ir c p. destruct o; try discriminate Hf; clear Hf; cbn [do_insn].
  all: unfold do_fuse1, do_fuse2, do_fuse3, do_fuse4, do_fuse5, do_fuse6, do_fuse7, do_fuse8, do_fuse9, do_fuse10,
    do_fuse11, do_fuse12, fuse_next_or_stop, chain, end_op; cbv zeta.
  - destruct (fused ir); [|done]. cbn [last_kept]. by rewrite fold_last.
  - done.
  - destruct (fused ir); [|done]. by apply fuse_stores_last.
  - destruct (fused ir); [|done]. by apply fuse_loads_last.
  - destruct (fused ir); [|done]. destruct (fold_left _ _ _) as [r|] eqn:E; [|done]. by apply fuse_shift_last in E.
  - unfold ecall_handler. destruct (SET_CAUSE_AND_TVAL_THEN_TRAP _ _ _) as [r|] eqn:E; [|done]. apply last_trap in E.
    destruct (syscall_handler r) as [r'|] eqn:E'; [|done]. apply syscall_last in E'. cbn [last_kept]. by rewrite E'.
  - destruct (fused ir); [|done]. cbn [last_kept]. by rewrite fold_last.
  - done.
  - destruct (misaligned _ _ _); [misaligned_last|]. by destruct (ram_read_w _ _).
  - destruct (misaligned _ _ _); [misaligned_last|]. by destruct (ram_write_w _ _ _).
  - destruct (misaligned _ _ _); [misaligned_last|]. by destruct (ram_read_w _ _).
  - destruct (truthy _); [by destruct (branch_taken ir)|by destruct (branch_untaken ir)].
Qed.

Lemma exec_ir_last (rv : riscv) (ir : rv_insn_t) (c p : Z) : last_kept rv.(last_pc) (exec_ir rv ir c p).
Proof.
  unfold exec_ir. destruct (is_fused ir.(impl)) eqn:Hf; [by apply fused_keep_last|].
  rewrite do_insn_plain by done. unfold rvop. cbv zeta.
  pose proof (code_keeps_last ir.(impl) (count_insn ir.(opcode) (rv_trace_record c p RV_TRACE_INSN 0 rv)) ir
    (u64 (c + 1)) p) as Hk. rewrite last_count_insn, last_trace in Hk. by destruct (code_of _ _ _ _ _).
Qed.

Lemma exec_irs_last (irs : list rv_insn_t) (rv : riscv) (c p : Z) : last_kept rv.(last_pc) (exec_irs irs rv c p).
Proof.
  revert rv c p. induction irs as [|ir irs IH]; intros rv c p; cbn [exec_irs]; [done|].
  pose proof (exec_ir_last rv ir c p) as Hk. destruct (exec_ir rv ir c p); try done.
  cbn [last_kept] in Hk. rewrite <- Hk. apply IH.
Qed.
End Codes.

#[export] Instance no_syscall_local : @SyscallLocal no_syscall.
Proof. split. simpl. by intros rv rv' [= <-]. Qed.
