(* ===== verification/Late.v ===== *)
(** The program counter and the cycle count are passed from handler to handler;
    their copies in the state are written late, when control returns to the run
    loop.  No handler but [mret] depends on the copies. *)

From stdpp Require Import base list option numbers gmap.
From Stdlib Require Import ZArith Lia Bool.
From S2P Require Import Prelude Bits Insn Decode Mem State Trap Csr Fp Alu Exec Samples IsaRefine ExecWf Equiv Frame Links.
#[local] Open Scope Z_scope.

(** The state with other copies. *)
Definition late (q d : Z) (rv : riscv) : riscv := set_PC q (set_csr_cycle d rv).

(** The state without its copies. *)
Definition norm (rv : riscv) : riscv := late 0 0 rv.

(** An outcome up to the copies; what returns true has written them. *)
Definition onorm (o : outcome) : outcome :=
  match o with
  | Next rv c p => Next (norm rv) c p
  | Jump rv c p t => Jump (norm rv) c p t
  | Lookup rv c p => Lookup (norm rv) c p
  | Exit rv true => Exit rv true
  | Exit _ false | Undef => Undef
  end.

Definition unread (h : handler) : Prop :=
  forall q d rv ir c p, onorm (h (late q d rv) ir c p) = onorm (h rv ir c p).

Create Rewrite HintDb late.

Section Put.
Context `{SoftFloat}.
Context (q d : Z) (rv : riscv).

Lemma late_late (q' d' : Z) : late q d (late q' d' rv) = late q d rv. Proof. reflexivity. Qed.
Lemma norm_late : norm (late q d rv) = norm rv. Proof. reflexivity. Qed.
Lemma over_late (p c : Z) : set_PC p (set_csr_cycle c (late q d rv)) = set_PC p (set_csr_cycle c rv).
Proof. reflexivity. Qed.
Lemma xreg_late (i : Z) : xreg (late q d rv) i = xreg rv i. Proof. reflexivity. Qed.
Lemma freg_late (i : Z) : freg (late q d rv) i = freg rv i. Proof. reflexivity. Qed.
Lemma csr_val_late (r : csr_reg) : csr_val (late q d rv) r = csr_val rv r. Proof. reflexivity. Qed.
Lemma mem_late : mem (late q d rv) = mem rv. Proof. reflexivity. Qed.
Lemma misaligned_late (a m : Z) : misaligned (late q d rv) a m = misaligned rv a m. Proof. reflexivity. Qed.
Lemma branch_taken_forward_late : branch_taken_forward (late q d rv) = branch_taken_forward rv.
Proof. reflexivity. Qed.
Lemma branch_taken_backward_late : branch_taken_backward (late q d rv) = branch_taken_backward rv.
Proof. reflexivity. Qed.
Lemma branch_untaken_forward_late : branch_untaken_forward (late q d rv) = branch_untaken_forward rv.
Proof. reflexivity. Qed.

Lemma set_xreg_late (i v : Z) : set_xreg i v (late q d rv) = late q d (set_xreg i v rv). Proof. reflexivity. Qed.
Lemma set_freg_late (i v : Z) : set_freg i v (late q d rv) = late q d (set_freg i v rv). Proof. reflexivity. Qed.
Lemma set_mem_late (m : memory_t) : set_mem m (late q d rv) = late q d (set_mem m rv). Proof. reflexivity. Qed.
Lemma set_compressed_late (v : bool) : set_compressed v (late q d rv) = late q d (set_compressed v rv).
Proof. reflexivity. Qed.
Lemma set_taken_forward_late (v : Z) : set_branch_taken_forward v (late q d rv) = late q d (set_branch_taken_forward v rv).
Proof. reflexivity. Qed.
Lemma set_taken_backward_late (v : Z) :
  set_branch_taken_backward v (late q d rv) = late q d (set_branch_taken_backward v rv).
Proof. reflexivity. Qed.
Lemma set_untaken_forward_late (v : Z) :
  set_branch_untaken_forward v (late q d rv) = late q d (set_branch_untaken_forward v rv).
Proof. reflexivity. Qed.
Lemma set_is_branch_taken_late (v : bool) : set_is_branch_taken v (late q d rv) = late q d (set_is_branch_taken v rv).
Proof. reflexivity. Qed.
Lemma set_last_pc_late (v : Z) : set_last_pc v (late q d rv) = late q d (set_last_pc v rv). Proof. reflexivity. Qed.
Lemma prof_call_late (e : prof_event) : prof_call e (late q d rv) = late q d (prof_call e rv). Proof. reflexivity. Qed.
Lemma count_insn_late (o : opcode_t) : count_insn o (late q d rv) = late q d (count_insn o rv). Proof. reflexivity. Qed.
Lemma raise_late (f : Z) : raise f (late q d rv) = late q d (raise f rv). Proof. reflexivity. Qed.
Lemma trace_late (c p t a : Z) : rv_trace_record c p t a (late q d rv) = late q d (rv_trace_record c p t a rv).
Proof.
  unfold rv_trace_record. rv_simpl. unfold late. rv_simpl.
  destruct (history_log rv); [|done]. destruct (1 <? _); [|done]. by destruct (negb _).
Qed.
Lemma set_csr_late (r : csr_reg) (v : Z) : set_csr r v (late q d rv) = late q d (set_csr r v rv).
Proof. reflexivity. Qed.
Lemma exceptionFlags_late : softfloat_exceptionFlags (late q d rv) = softfloat_exceptionFlags rv.
Proof. reflexivity. Qed.
Lemma set_roundingMode_late (v : Z) :
  set_softfloat_roundingMode v (late q d rv) = late q d (set_softfloat_roundingMode v rv).
Proof. reflexivity. Qed.
Lemma if_late (b : bool) (r1 r2 : riscv) : (if b then late q d r1 else late q d r2) = late q d (if b then r1 else r2).
Proof. by destruct b. Qed.
End Put.

#[export] Hint Rewrite over_late xreg_late freg_late csr_val_late mem_late misaligned_late
  branch_taken_forward_late branch_taken_backward_late branch_untaken_forward_late
  set_xreg_late set_freg_late set_mem_late set_compressed_late set_taken_forward_late set_taken_backward_late
  set_untaken_forward_late set_is_branch_taken_late set_last_pc_late prof_call_late count_insn_late raise_late
  trace_late set_csr_late exceptionFlags_late set_roundingMode_late if_late late_late norm_late : late.

Section Float.
Context `{SoftFloat} (q d : Z) (rv : riscv).

Lemma set_fflag_late : set_fflag (late q d rv) = late q d (set_fflag rv).
Proof. unfold set_fflag. autorewrite with late. reflexivity. Qed.
Lemma set_rounding_mode_late (m : Z) : set_rounding_mode (late q d rv) m = late q d <$> set_rounding_mode rv m.
Proof. unfold set_rounding_mode. autorewrite with late. repeat case_match; reflexivity. Qed.
Lemma write_rd_nz_late (ir : rv_insn_t) (v : Z) : write_rd_nz (late q d rv) ir v = late q d (write_rd_nz rv ir v).
Proof. unfold write_rd_nz. by destruct (truthy _). Qed.
End Float.

#[export] Hint Rewrite @set_fflag_late @set_rounding_mode_late write_rd_nz_late : late.

(** * Instruction bodies *)

Ltac unread_direct := intros q d rv ir c p; reflexivity.

(** Split on what both sides test. *)
Ltac late_cases :=
  repeat (autorewrite with late; cbn beta iota zeta delta [fmap option_fmap option_map];
    match goal with
    | |- onorm (match ?x with _ => _ end) = onorm (match ?x with _ => _ end) => destruct x
    end); autorewrite with late; cbn [onorm]; autorewrite with late; try reflexivity.

Lemma exc_misaligned_late (cause : Z) (z : bool) (a : Z) (rv : riscv) (c p q d : Z) :
  exc_misaligned cause z a (late q d rv) c p = exc_misaligned cause z a rv c p.
Proof. reflexivity. Qed.

Lemma access_late (a m cause : Z) (z : bool) (rv : riscv) (c p q d : Z) (k : riscv -> outcome) :
  (forall r, onorm (k (late q d r)) = onorm (k r)) ->
  onorm (access a m cause z (late q d rv) c p k) = onorm (access a m cause z rv c p k).
Proof.
  intros Hk. unfold access. autorewrite with late. destruct (misaligned _ _ _); [|apply Hk].
  by rewrite exc_misaligned_late.
Qed.

Lemma op_imm_unread (f : Z -> Z -> Z) : unread (op_imm f). Proof. unread_direct. Qed.
Lemma op_reg_unread (f : Z -> Z -> Z) : unread (op_reg f). Proof. unread_direct. Qed.
Lemma op_una_unread (f : Z -> Z) : unread (op_una f). Proof. unread_direct. Qed.

Lemma shift_func_unread : unread shift_func.
Proof. intros q d rv ir c p. unfold shift_func. case_match; (done || apply op_imm_unread). Qed.

Lemma BRANCH_FUNC_unread (u : Z -> Z -> bool) : unread (BRANCH_FUNC u).
Proof. intros q d rv ir c p. unfold BRANCH_FUNC, end_op. late_cases. Qed.

Lemma cbranch_unread (u : Z -> bool) : unread (cbranch u).
Proof. intros q d rv ir c p. unfold cbranch, chain, end_op. late_cases. Qed.

Lemma sext_unread (x y z : Z) : unread (sext x y z).
Proof. intros q d rv ir c p. unfold sext. cbv zeta. autorewrite with late. reflexivity. Qed.

Ltac unread_access :=
  intros q d rv ir c p; cbv beta zeta; rewrite ?xreg_late; apply access_late; intros r; late_cases.

Lemma amo_unread (f : Z -> Z -> Z) : unread (amo f).
Proof. unfold unread, amo. unread_access. Qed.
Lemma fload_unread (a : Z) : unread (fload a). Proof. unfold unread, fload. unread_access. Qed.
Lemma fstore_unread (a : Z) : unread (fstore a). Proof. unfold unread, fstore. unread_access. Qed.
Lemma cload_unread (a : Z) : unread (cload a). Proof. unfold unread, cload. unread_access. Qed.
Lemma cstore_unread (a : Z) : unread (cstore a). Proof. unfold unread, cstore. unread_access. Qed.

Lemma memory_unread :
  unread code_lh /\ unread code_lw /\ unread code_lhu /\ unread code_sh /\ unread code_sw /\
  unread code_lrw /\ unread code_scw.
Proof.
  split_and!; unfold unread, code_lh, code_lw, code_lhu, code_sh, code_sw, code_lrw, code_scw, write_rd;
    unread_access.
Qed.

Lemma byte_unread : unread code_lb /\ unread code_lbu /\ unread code_sb.
Proof. split_and!; intros q d rv ir c p; unfold code_lb, code_lbu, code_sb, write_rd; late_cases. Qed.

Lemma partial_unread (m : riscv -> rv_insn_t -> option Z) (r : rv_insn_t -> Z) :
  (forall q d rv ir, m (late q d rv) ir = m rv ir) ->
  unread (fun rv ir cycle pc =>
    match m rv ir with Some v => Next (set_xreg (r ir) v rv) cycle pc | None => Undef end).
Proof. intros Hm q d rv ir c p. rewrite Hm. by destruct (m rv ir). Qed.

(** The host's clock does not depend on the guest's program counter. *)
Class ClockLate `{HostClock} : Prop := {
  clock_late : forall q d rv, gettimeofday (late q d rv) = gettimeofday rv;
}.

Section Unread.
Context `{HostClock} `{Syscall} `{SoftFloat} `{!ClockLate}.

Lemma fp_op_unread (op : riscv -> rv_insn_t -> Z * Z) (w : Z -> riscv -> rv_insn_t -> riscv) :
  (forall q d rv ir, op (late q d rv) ir = op rv ir) ->
  (forall q d v rv ir, w v (late q d rv) ir = late q d (w v rv ir)) -> unread (fp_op op w).
Proof.
  intros Hop Hw q d rv ir c p. unfold fp_op. rewrite set_rounding_mode_late.
  destruct (set_rounding_mode rv _) as [r|]; [cbn|done]. rewrite Hop. destruct (op r ir).
  rewrite raise_late, Hw, set_fflag_late. cbn [onorm]. by rewrite norm_late.
Qed.

Lemma fp_cmp_unread (cmp : Z -> Z -> bool * Z) : unread (fp_cmp cmp).
Proof. intros q d rv ir c p. unfold fp_cmp. late_cases. Qed.

Lemma ordered_late (a b f1 f2 sign q d : Z) (rv : riscv) :
  ordered a b f1 f2 sign (late q d rv) = let (r, rv') := ordered a b f1 f2 sign rv in (r, late q d rv').
Proof. unfold ordered. destruct (f32_lt_quiet a b) as [lt fl]. destruct lt; [done|]. by destruct (f32_eq f1 f2). Qed.

Lemma minmax_unread (less : Z -> Z -> riscv -> bool * riscv) :
  (forall f1 f2 q d rv, less f1 f2 (late q d rv) = let (r, rv') := less f1 f2 rv in (r, late q d rv')) ->
  unread (minmax less).
Proof.
  intros Hl q d rv ir c p. unfold minmax. autorewrite with late. rewrite Hl. by destruct (less _ _ _).
Qed.

Lemma update_time_late (q d : Z) (rv : riscv) : update_time (late q d rv) = late q d (update_time rv).
Proof. unfold update_time. rewrite clock_late. by destruct (gettimeofday rv). Qed.

Lemma csr_get_ptr_late (q d : Z) (rv : riscv) (csr : Z) :
  csr_get_ptr (late q d rv) csr = let (p, rv') := csr_get_ptr rv csr in (p, late q d rv').
Proof. unfold csr_get_ptr. rewrite update_time_late. repeat case_match; simplify_eq; reflexivity. Qed.

(** The cycle counter is written before it is read. *)
Lemma sync_cycle_cases (csr c : Z) :
  (forall rv, sync_cycle csr c rv = rv /\ forall hi, (csr_get_ptr rv csr).1 <> Some (PtrCycle hi)) \/
  (exists hi, forall rv, sync_cycle csr c rv = set_csr_cycle c rv /\ csr_get_ptr rv csr = (Some (PtrCycle hi), rv)).
Proof.
  unfold sync_cycle, csr_get_ptr.
  repeat case_match; first [left; intros rv; split; [reflexivity|intros hi; discriminate]
                           | right; eexists; intros rv; split; reflexivity].
Qed.

Lemma csr_rmw_late (f : Z -> Z) (rv : riscv) (csr c q d : Z) :
  (csr_rmw f (late q d rv) csr c).1 = (csr_rmw f rv csr c).1 /\
  norm (csr_rmw f (late q d rv) csr c).2 = norm (csr_rmw f rv csr c).2.
Proof.
  unfold csr_rmw. destruct (sync_cycle_cases csr c) as [Hc|[hi Hc]].
  - destruct (Hc rv) as [-> Hn]. destruct (Hc (late q d rv)) as [-> _]. rewrite csr_get_ptr_late.
    destruct (csr_get_ptr rv csr) as [[[r|hi]|] rv']; [done| |done]. by destruct (Hn hi).
  - rewrite !(proj1 (Hc _)), !(proj2 (Hc _)). by destruct hi.
Qed.

Lemma csr_op_unread (f : riscv -> rv_insn_t -> Z -> Z * riscv) :
  (forall q d rv ir c, (f (late q d rv) ir c).1 = (f rv ir c).1 /\ norm (f (late q d rv) ir c).2 = norm (f rv ir c).2) ->
  unread (csr_op f).
Proof.
  intros Hf q d rv ir c p. unfold csr_op. destruct (Hf q d rv ir c) as [E1 E2].
  destruct (f (late q d rv) ir c) as [v1 r1], (f rv ir c) as [v2 r2]. cbn [fst snd] in E1, E2. subst v2.
  unfold write_rd. cbn [onorm]. f_equal.
  exact (f_equal (fun r => set_xreg ir.(rd) (if truthy ir.(rd) then v1 else xreg r ir.(rd)) r) E2).
Qed.

Lemma csr_unread :
  unread code_csrrw /\ unread code_csrrs /\ unread code_csrrc /\ unread code_csrrwi /\
  unread code_csrrsi /\ unread code_csrrci.
Proof. split_and!; apply csr_op_unread; intros; apply csr_rmw_late. Qed.
Lemma to_freg_late (q d v : Z) (rv : riscv) (ir : rv_insn_t) : to_freg v (late q d rv) ir = late q d (to_freg v rv ir).
Proof. reflexivity. Qed.

Lemma to_xreg_late (q d v : Z) (rv : riscv) (ir : rv_insn_t) : to_xreg v (late q d rv) ir = late q d (to_xreg v rv ir).
Proof. apply write_rd_nz_late. Qed.

Lemma float_unread :
  unread code_fmadds /\ unread code_fmsubs /\ unread code_fnmsubs /\ unread code_fnmadds /\
  unread code_fadds /\ unread code_fsubs /\ unread code_fmuls /\ unread code_fdivs /\
  unread code_fsqrts /\ unread code_fcvtws /\ unread code_fcvtwus /\ unread code_fcvtsw /\
  unread code_fcvtswu.
Proof. split_and!; apply fp_op_unread; intros; first [reflexivity|apply to_xreg_late]. Qed.

Lemma minmax_codes_unread : unread code_fmins /\ unread code_fmaxs.
Proof. split; apply minmax_unread; intros; apply ordered_late. Qed.

Lemma jumps_unread :
  unread code_jal /\ unread code_jalr /\ unread code_cj /\ unread code_cjal /\ unread code_cjr /\ unread code_cjalr.
Proof.
  split_and!; intros q d rv ir c p;
    unfold code_jal, code_jalr, code_cj, code_cjal, code_cjr, code_cjalr, chain, end_op; late_cases.
Qed.

Lemma traps_unread : unread code_ebreak /\ unread code_cebreak /\ unread code_ecall /\ unread code_fencei.
Proof.
  split_and!; intros q d rv ir c p; unfold code_ebreak, code_cebreak, code_ecall, code_fencei;
    cbv zeta; by autorewrite with late.
Qed.

Lemma guarded_unread : unread code_fmvxw /\ unread code_fclasss.
Proof.
  split_and!; intros q d rv ir c p; unfold code_fmvxw, code_fclasss; rewrite write_rd_nz_late; cbn [onorm];
    by rewrite norm_late.
Qed.

Ltac unread_code :=
  lazymatch goal with
  | |- unread code_scw => apply memory_unread
  | |- unread code_fsw => intros ? ? ? ? ? ?; apply fstore_unread
  | |- unread code_cfsw => intros ? ? ? ? ? ?; apply fstore_unread
  | |- unread code_cfswsp => intros ? ? ? ? ? ?; apply fstore_unread
  | |- unread code_clw => intros ? ? ? ? ? ?; apply cload_unread
  | |- unread code_clwsp => intros ? ? ? ? ? ?; apply cload_unread
  | |- unread code_csw => intros ? ? ? ? ? ?; apply cstore_unread
  | |- unread code_cswsp => intros ? ? ? ? ? ?; apply cstore_unread
  | |- _ => first
    [ apply op_imm_unread | apply op_reg_unread | apply op_una_unread
    | apply shift_func_unread | apply BRANCH_FUNC_unread | apply cbranch_unread | apply sext_unread
    | apply amo_unread | solve [apply memory_unread] | solve [apply byte_unread] | solve [apply csr_unread]
    | solve [apply float_unread] | solve [apply minmax_codes_unread] | apply fp_cmp_unread
    | solve [apply jumps_unread] | solve [apply traps_unread] | solve [apply guarded_unread]
    | solve [unread_direct]
    | intros ? ? ? ? ? ?; apply fload_unread
    | apply (partial_unread (fun rv ir => _) (fun ir => _)); reflexivity ]
  end.

Lemma code_of_unread (o : opcode_t) : o <> rv_insn_mret -> unread (code_of o).
Proof. intros Hm. destruct o; try done; cbn [code_of]; clear Hm; unread_code. Qed.

Lemma rvop_unread (o : opcode_t) : o <> rv_insn_mret -> unread (rvop o (code_of o)).
Proof.
  intros Hm q d rv ir c p. unfold rvop. cbv zeta. autorewrite with late.
  pose proof (code_of_unread o Hm q d (count_insn ir.(opcode) (rv_trace_record c p RV_TRACE_INSN 0 rv)) ir
    (u64 (c + 1)) p) as E.
  destruct (code_of _ (late _ _ _) _ _ _) as [| ? [] | | |], (code_of _ _ _ _ _) as [| ? [] | | |]; cbn [onorm] in E |- *;
    try discriminate E; try done; congruence.
Qed.

(** * Fused handlers *)

Lemma fold_late {A} (g : riscv -> A -> riscv) (l : list A) (q d : Z) (rv : riscv) :
  (forall rv a, g (late q d rv) a = late q d (g rv a)) -> fold_left g l (late q d rv) = late q d (fold_left g l rv).
Proof. intros Hg. revert rv. induction l as [|a l IH]; intros rv; cbn; [done|]. by rewrite Hg. Qed.

Lemma fuse_shift_late (l : list opcode_fuse_t) (q d : Z) (r : option riscv) :
  fold_left (fun acc f => let? rv := acc in fuse_shift_exec rv f) l (late q d <$> r)
  = late q d <$> fold_left (fun acc f => let? rv := acc in fuse_shift_exec rv f) l r.
Proof.
  revert r. induction l as [|f l IH]; intros r; [done|]. cbn [fold_left]. rewrite <- IH. f_equal.
  destruct r as [rv|]; [|done]. cbn. unfold fuse_shift_exec. by destruct (f_opcode f).
Qed.

Lemma fuse_stores_late (l : list opcode_fuse_t) (c p q d : Z) (k : riscv -> outcome) (rv : riscv) :
  (forall r, onorm (k (late q d r)) = onorm (k r)) ->
  onorm (fuse_stores l (late q d rv) c p k) = onorm (fuse_stores l rv c p k).
Proof.
  intros Hk. revert rv. induction l as [|f l IH]; intros rv; [apply Hk|]. cbn [fuse_stores].
  autorewrite with late. destruct (misaligned _ _ _); [by rewrite exc_misaligned_late|].
  destruct (ram_write_w _ _ _); [rewrite set_mem_late; apply IH|done].
Qed.

Lemma fuse_loads_late (l : list opcode_fuse_t) (c p q d : Z) (k : riscv -> outcome) (rv : riscv) :
  (forall r, onorm (k (late q d r)) = onorm (k r)) ->
  onorm (fuse_loads l (late q d rv) c p k) = onorm (fuse_loads l rv c p k).
Proof.
  intros Hk. revert rv. induction l as [|f l IH]; intros rv; [apply Hk|]. cbn [fuse_loads].
  autorewrite with late. destruct (misaligned _ _ _); [by rewrite exc_misaligned_late|].
  destruct (ram_read_w _ _); [rewrite set_xreg_late; apply IH|done].
Qed.

Lemma batch_unread :
  unread do_fuse1 /\ unread do_fuse3 /\ unread do_fuse4 /\ unread do_fuse5 /\ unread do_fuse7.
Proof.
  split_and!; intros q d rv ir c p; unfold do_fuse1, do_fuse3, do_fuse4, do_fuse5, do_fuse7; cbv zeta;
    rewrite count_insn_late; (destruct (fused ir) as [l|]; [|done]); generalize (count_insn ir.(opcode) rv); intros r.
  - rewrite fold_late by done. cbn. by rewrite norm_late.
  - by apply fuse_stores_late.
  - by apply fuse_loads_late.
  - pose proof (fuse_shift_late l q d (Some r)) as E. cbn [fmap option_fmap option_map] in E. rewrite E.
    destruct (fold_left _ l (Some r)); [|done]. cbn. by rewrite norm_late.
  - rewrite fold_late by done. cbn. by rewrite norm_late.
Qed.

Lemma pair_unread :
  unread do_fuse2 /\ unread do_fuse6 /\ unread do_fuse8 /\ unread do_fuse9 /\ unread do_fuse10 /\
  unread do_fuse11 /\ unread do_fuse12.
Proof.
  split_and!; intros q d rv ir c p;
    unfold do_fuse2, do_fuse6, do_fuse8, do_fuse9, do_fuse10, do_fuse11, do_fuse12, fuse_next_or_stop, chain, end_op;
    cbv zeta; late_cases; by rewrite ?exc_misaligned_late.
Qed.

Lemma do_insn_unread (o : opcode_t) : o <> rv_insn_mret -> unread (do_insn o).
Proof.
  intros Hm. destruct o; cbn [do_insn]; try (by apply rvop_unread);
    first [apply batch_unread | apply pair_unread].
Qed.

(** * Blocks *)

Definition reads_no_copy (ir : rv_insn_t) : Prop := ir.(impl) <> rv_insn_mret.

Lemma norm_eq (r1 r2 : riscv) (q d : Z) : norm r1 = norm r2 -> late q d r1 = late q d r2.
Proof. intros E. exact (f_equal (late q d) E). Qed.

Lemma exec_irs_late (irs : list rv_insn_t) (rv1 rv2 : riscv) (c p : Z) :
  Forall reads_no_copy irs -> norm rv1 = norm rv2 ->
  onorm (exec_irs irs rv1 c p) = onorm (exec_irs irs rv2 c p).
Proof.
  intros Hi. revert rv1 rv2 c p. induction Hi as [|ir irs Hir Hi IH]; intros rv1 rv2 c p E; cbn [exec_irs].
  { cbn [end_op onorm]. f_equal. by apply norm_eq. }
  assert (Eo : onorm (exec_ir rv1 ir c p) = onorm (exec_ir rv2 ir c p)).
  { unfold exec_ir. rewrite <- (do_insn_unread _ Hir 0 0 rv1), <- (do_insn_unread _ Hir 0 0 rv2).
    by fold (norm rv1) (norm rv2); rewrite E. }
  destruct (exec_ir rv1 ir c p) as [| ? [] | | |], (exec_ir rv2 ir c p) as [| ? [] | | |]; cbn [onorm] in Eo |- *;
    try discriminate Eo; try done.
  assert (norm rv = norm rv0) by congruence. assert (cycle = cycle0) as <- by congruence.
  assert (pc = pc0) as <- by congruence. by apply IH.
Qed.

Lemma settle_norm (o1 o2 : outcome) (s : riscv) :
  onorm o1 = onorm o2 -> settle o1 = Some (s, true) -> settle o2 = Some (s, true).
Proof.
  intros E Hs.
  assert (Hn : forall r1 r2 c p, norm r1 = norm r2 ->
    erase (set_PC p (set_csr_cycle c r1)) = erase (set_PC p (set_csr_cycle c r2))).
  { intros r1 r2 c p Er. exact (f_equal erase (norm_eq r1 r2 p c Er)). }
  destruct o1 as [r1 c1 p1| r1 [] |r1 c1 p1 t1|r1 c1 p1|], o2 as [r2 c2 p2| r2 [] |r2 c2 p2 t2|r2 c2 p2|];
    cbn [onorm settle] in *; try discriminate E; try discriminate Hs; try congruence.
  all: assert (Er : norm r1 = norm r2) by congruence; assert (c1 = c2) as <- by congruence;
    assert (p1 = p2) as <- by congruence; by rewrite <- (Hn _ _ _ _ Er).
Qed.
End Unread.

#[export] Instance stopped_clock_late : @ClockLate stopped_clock.
Proof. by split. Qed.
