(* ===== verification/Run.v ===== *)
(** The run loop of the interpreter: [rv_step] and [block_find_or_translate] of
    emulate.c, with block chaining and the branch history tables that the
    indirect jumps of rv32_template.c keep.

    The handlers of chained blocks call each other in tail position, so one
    call from [rv_step] can run any number of blocks.  The model makes this a
    transition system: [Loop] is the head of the loop in [rv_step], [Run] the
    first handler of a block about to be called, [Done] the return of
    [rv_step].  A [block_t *], and the [rv_insn_t *] to its first instruction,
    is the index of the block in the store [blocks]. *)

From stdpp Require Import base list option numbers gmap.
From Stdlib Require Import ZArith Lia Bool.
From S2P Require Import Prelude Bits Insn Decode Mem State Trap Csr Fp Alu Exec Constopt Fusion Block.
#[local] Open Scope Z_scope.

(** * State *)

Record machine : Type := mk_machine {
  rv : riscv;
  blocks : list block_t; (* the translated blocks *)
  block_map : block_map_t; (* rv->block_map *)
  prev : option irptr; (* static of emulate.c *)
  exit_addr : Z; (* PRIV(rv)->exit_addr *)
  on_exit : bool; (* PRIV(rv)->on_exit *)
  cycle_per_step : Z; (* PRIV(rv)->cycle_per_step *)
}.

Definition set_rv (r : riscv) (m : machine) : machine :=
  mk_machine r m.(blocks) m.(block_map) m.(prev) m.(exit_addr) m.(on_exit) m.(cycle_per_step).
Definition set_blocks (b : list block_t) (m : machine) : machine :=
  mk_machine m.(rv) b m.(block_map) m.(prev) m.(exit_addr) m.(on_exit) m.(cycle_per_step).
Definition set_block_map (x : block_map_t) (m : machine) : machine :=
  mk_machine m.(rv) m.(blocks) x m.(prev) m.(exit_addr) m.(on_exit) m.(cycle_per_step).
Definition set_prev (p : option irptr) (m : machine) : machine :=
  mk_machine m.(rv) m.(blocks) m.(block_map) p m.(exit_addr) m.(on_exit) m.(cycle_per_step).
Definition set_on_exit (b : bool) (m : machine) : machine :=
  mk_machine m.(rv) m.(blocks) m.(block_map) m.(prev) m.(exit_addr) b m.(cycle_per_step).

(** The number of slots a probe can visit. *)
Definition probe_fuel (m : machine) : nat := Z.to_nat m.(block_map).(block_capacity).

(** An instruction takes at least two bytes of the guest memory. *)
Definition translate_fuel (r : riscv) : nat := Z.to_nat r.(mem).(mem_size).

(** * Finding or translating a block *)

Definition set_ir_list (l : list rv_insn_t) (b : block_t) : block_t :=
  mk_block (Z.of_nat (length l)) b.(pc_start) b.(pc_end) l.

Definition block_find_or_translate (m : machine) : option (machine * option irptr) :=
  let? next_blk := block_find m.(blocks) (probe_fuel m) m.(block_map) m.(rv).(PC) in
  match next_blk with
  | Some b => Some (m, Some b)
  | None =>
      (* clear block list if it is going to be filled *)
      let m := if map_crowded m.(block_map)
               then set_prev None (set_blocks [] (set_block_map (block_map_clear m.(block_map)) m))
               else m in
      let? (r, blk) := block_translate (translate_fuel m.(rv)) m.(rv) in
      let m := set_rv r m in
      match blk with
      | None => Some (m, None)
      | Some blk =>
          let? irs := optimize_constant r blk.(ir_list) in
          let? irs := match_pattern irs in
          let b := length m.(blocks) in
          let m := set_blocks (m.(blocks) ++ [set_ir_list irs blk]) m in
          let? x := block_insert m.(blocks) (probe_fuel m) m.(block_map) b in
          Some (set_block_map x m, Some b)
      end
  end.

(** * Changing the last instruction of a block *)

Definition update_tail (f : rv_insn_t -> rv_insn_t) (b : block_t) : block_t :=
  mk_block b.(n_insn) b.(pc_start) b.(pc_end)
    (alter f (length b.(ir_list) - 1)%nat b.(ir_list)).

(** The chaining of [prev] to the block about to run. *)
Definition chain_tail (is_branch_taken : bool) (b : irptr) (last_ir : rv_insn_t) : rv_insn_t :=
  if negb (insn_is_unconditional_branch last_ir.(opcode)) then
    if is_branch_taken && bool_decide (last_ir.(branch_taken) = None)
    then set_branch_taken (Some b) last_ir
    else if negb is_branch_taken && bool_decide (last_ir.(branch_untaken) = None)
    then set_branch_untaken (Some b) last_ir
    else last_ir
  else if insn_is_direct_branch last_ir.(opcode) then
    if bool_decide (last_ir.(branch_taken) = None) then set_branch_taken (Some b) last_ir else last_ir
  else last_ir.

Definition chain_block (m : machine) (b : irptr) : option machine :=
  match m.(prev) with
  | None => Some m
  | Some p =>
      let? _ := m.(blocks) !! p in
      Some (set_blocks (alter (update_tail (chain_tail m.(rv).(is_branch_taken) b)) p m.(blocks)) m)
  end.

(** * The branch history table *)

(** The first entry recorded for [pc]. *)
Fixpoint bht_search (pcs : list Z) (targets : list (option irptr)) (pc : Z) : option (option irptr) :=
  match pcs, targets with
  | p :: pcs, t :: targets => if p =? pc then Some t else bht_search pcs targets pc
  | _, _ => None
  end.

Definition bht_update (pc : Z) (b : irptr) (t : branch_history_table_t) : branch_history_table_t :=
  let i := Z.to_nat t.(bht_idx) in
  mk_bht (<[i := pc]> t.(bht_PC)) ((t.(bht_idx) + 1) mod HISTORY_SIZE) (<[i := Some b]> t.(bht_target)).

(** * The transition system *)

Inductive config : Type :=
| Loop (m : machine)
| Run (m : machine) (entry b : irptr) (cycle pc : Z)
| Done (m : machine).

Section Step.
Context `{HostClock} `{Syscall} `{SoftFloat}.

(** [if (prev && prev->pc_start != last_pc) prev = block_find(..., last_pc)]. *)
Definition update_prev (m : machine) : option machine :=
  match m.(prev) with
  | None => Some m
  | Some p =>
      let? blk := m.(blocks) !! p in
      if blk.(pc_start) =? m.(rv).(last_pc) then Some m
      else
        let? p := block_find m.(blocks) (probe_fuel m) m.(block_map) m.(rv).(last_pc) in
        Some (set_prev p m)
  end.

(** One iteration of the loop, up to the call of the first handler. *)
Definition loop_step (cycles_target : Z) (m : machine) : option config :=
  if negb ((m.(rv).(csr_cycle) <? cycles_target) && negb m.(rv).(halt)) then Some (Done m)
  else
    let? m := update_prev m in
    let? (m, block) := block_find_or_translate m in
    match block with
    | None => Some (Done (set_rv (set_halt true m.(rv)) m))
    | Some b =>
        let? blk := m.(blocks) !! b in
        let? ir_head := head blk.(ir_list) in
        let m := if ir_head.(Insn.pc) =? m.(exit_addr) then set_on_exit true m else m in
        let? m := chain_block m b in
        let m := set_rv (set_last_pc m.(rv).(PC) m.(rv)) m in
        Some (Run m b b m.(rv).(csr_cycle) m.(rv).(PC))
    end.

(** [LOOKUP_OR_UPDATE_BRANCH_HISTORY_TABLE] in the indirect jump that ends
    block [b]; a miss goes to [end_op]. *)
Definition lookup_step (m : machine) (entry b : irptr) (blk : block_t) (cycle pc : Z) : option config :=
  let? ir := last blk.(ir_list) in
  let? table := ir.(branch_table) in
  match bht_search table.(bht_PC) table.(bht_target) pc with
  | Some target => let? t := target in Some (Run m entry t cycle pc)
  | None =>
      let? found := block_find m.(blocks) (probe_fuel m) m.(block_map) pc in
      match found with
      | Some t =>
          let m := set_blocks
            (alter (update_tail (set_branch_table (Some (bht_update pc t table)))) b m.(blocks)) m in
          Some (Run m entry t cycle pc)
      | None =>
          let r := set_PC pc (set_csr_cycle cycle m.(rv)) in
          Some (Loop (set_prev (Some entry) (set_rv (prof_call prof_on_inst r) m)))
      end
  end.

(** The handlers of block [b]. *)
Definition run_step (m : machine) (entry b : irptr) (cycle pc : Z) : option config :=
  let? blk := m.(blocks) !! b in
  match exec_irs blk.(ir_list) m.(rv) cycle pc with
  | Exit r true => Some (Loop (set_prev (Some entry) (set_rv (prof_call prof_on_inst r) m)))
  | Exit r false => Some (Done (set_prev None (set_rv r m)))
  | Jump r cycle pc t => Some (Run (set_rv r m) entry t cycle pc)
  | Lookup r cycle pc => lookup_step (set_rv r m) entry b blk cycle pc
  | Next _ _ _ | Undef => None
  end.

Definition step (cycles_target : Z) (c : config) : option config :=
  match c with
  | Loop m => loop_step cycles_target m
  | Run m entry b cycle pc => run_step m entry b cycle pc
  | Done m => Some c
  end.

Fixpoint steps (fuel : nat) (cycles_target : Z) (c : config) : option config :=
  match fuel with
  | O => Some c
  | S fuel => let? c := step cycles_target c in steps fuel cycles_target c
  end.

(** [rv_step], when it returns within [fuel] transitions. *)
Definition rv_step (fuel : nat) (m : machine) : option machine :=
  let cycles_target := u64 (m.(rv).(csr_cycle) + m.(cycle_per_step)) in
  let? c := steps fuel cycles_target (Loop m) in
  match c with Done m => Some m | _ => None end.
End Step.
