(* ===== verification/RunShape.v ===== *)
(** The shape of the blocks the run loop stores: the passes keep straight-line
    code straight, and leave the links of its last instruction unset. *)

From stdpp Require Import base list option numbers gmap.
From Stdlib Require Import ZArith Lia Bool.
From S2P Require Import Prelude Bits Insn Decode DecodeSpec DecodeWf Mem MemSpec State Trap Csr Fp Alu.
From S2P Require Import AluSpec Exec Samples Isa IsaValues IsaRefine DecodeExec ExecWf Equiv Frame.
From S2P Require Import Constopt Fusion Block BlockSpec ConstoptSpec FusionSpec Pipeline Links.
#[local] Open Scope Z_scope.

(** * Fresh instructions *)

(** No links yet, and an empty branch history at an indirect jump. *)
Record linkless (ir : rv_insn_t) : Prop := {
  ll_impl : ir.(impl) = ir.(opcode);
  ll_taken : ir.(branch_taken) = None;
  ll_untaken : ir.(branch_untaken) = None;
  ll_table : tail_kind ir.(opcode) = Indirect -> ir.(branch_table) = Some bht_init }.

(** Neither [wfi], which leaves a block in its middle, nor [mret], which does
    not store the cycle count. *)
Definition awake (ir : rv_insn_t) : Prop := ir.(opcode) <> rv_insn_wfi /\ ir.(opcode) <> rv_insn_mret.

Lemma indirect_kind (o : opcode_t) : tail_kind o = Indirect -> insn_is_indirect_branch o = true.
Proof. by destruct o. Qed.

Lemma translated_linkless (insn pc : Z) (ir : rv_insn_t) :
  decode insn = Some (true, ir) -> linkless (translated pc ir).
Proof.
  intros (_ & Ht & Hu)%decode_branch_rd. unfold translated.
  destruct (insn_is_indirect_branch ir.(opcode)) eqn:Hi; constructor; try done.
  cbn [opcode set_pc set_impl]. intros Hk%indirect_kind. congruence.
Qed.

Lemma code_linkless (m : memory_t) (pc e : Z) (irs : list rv_insn_t) :
  code_at m pc irs e -> Forall linkless irs.
Proof.
  induction 1 as [|pc e insn ir irs Hfe Hnz Hd Hb Hc IH]; [constructor|].
  constructor; [by eapply translated_linkless|done].
Qed.

Lemma rewritten_linkless (ir ir' : rv_insn_t) : rewritten ir ir' -> linkless ir -> linkless ir'.
Proof.
  intros Hr [Hi Ht Hu Hb]. destruct Hr as [|o r v Hbr Ho Hr|o v Hbr Ho]; [by constructor| |].
  all: destruct Ho as [-> | ->]; by constructor.
Qed.

Lemma refuse_linkless (o : opcode_t) (ir : rv_insn_t) :
  linkless ir -> tail_kind o <> Indirect -> dispatch_table o = o -> linkless (refuse o ir).
Proof. intros [Hi Ht Hu Hb] Hk Hd. constructor; try done. Qed.

Lemma inner_awake (ir : rv_insn_t) : inner_op ir.(opcode) = true -> awake ir.
Proof. unfold awake. by destruct (opcode ir). Qed.

(** * Shapes *)

(** Only the last instruction may leave the block. *)
Inductive shape : list rv_insn_t -> Prop :=
| shape_last (ir : rv_insn_t) : linkless ir -> awake ir -> shape [ir]
| shape_cons (ir : rv_insn_t) (irs : list rv_insn_t) :
    linkless ir -> inner_op ir.(impl) = true -> shape irs -> shape (ir :: irs).

Lemma shape_split (irs : list rv_insn_t) :
  shape irs -> exists body tail, irs = body ++ [tail] /\ linkless tail /\ awake tail /\
    Forall (fun ir => inner_op ir.(impl) = true) body.
Proof.
  induction 1 as [ir Hl Ha|ir irs Hl Hi Hs (body & tail & -> & Ht & Ha & Hb)].
  - by exists [], ir.
  - exists (ir :: body), tail. split; [done|]. split; [done|]. split; [done|]. by constructor.
Qed.

Lemma rewritten_awake (ir ir' : rv_insn_t) : rewritten ir ir' -> awake ir -> awake ir'.
Proof. intros Hr Ha. destruct Hr as [|o r v Hbr Ho Hr|o v Hbr Ho]; [done| |]; by destruct Ho as [-> | ->]. Qed.

Lemma straight_inner (ir next : rv_insn_t) (rest : list rv_insn_t) :
  straight (ir :: next :: rest) -> linkless ir -> awake ir -> inner_op ir.(impl) = true.
Proof.
  intros Hs Hl Ha. inversion_clear Hs as [|? ? Hf Hb _]. rewrite (ll_impl _ Hl). destruct Ha as [Ha _].
  destruct (insn_is_branch ir.(opcode)) eqn:E; [by specialize (Hb eq_refl)|].
  pose proof (pl_fused _ (fz_plain _ Hf)) as Hp. unfold inner_op.
  destruct (opcode ir); try done.
Qed.

(** One iteration of fusion: what it emits may stand inside a block, or nothing
    is left after it. *)
Lemma fuse_at_shape (ir next ir' : rv_insn_t) (rest rest' : list rv_insn_t) :
  straight (ir :: next :: rest) -> linkless ir -> linkless next -> awake ir ->
  fuse_at ir next rest = (ir', rest') ->
  linkless ir' /\ awake ir' /\ (inner_op ir'.(impl) = true \/ rest' = []) /\ exists k, rest' = drop k (next :: rest).
Proof.
  intros Hs Hl Hn Ha.
  assert (Hkeep : linkless ir /\ awake ir /\ (inner_op ir.(impl) = true \/ next :: rest = []) /\
    exists k, next :: rest = drop k (next :: rest)).
  { split; [done|]. split; [done|]. split; [left; by eapply straight_inner|by exists 0%nat]. }
  assert (Hlast : insn_is_branch next.(opcode) = true -> rest = []).
  { inversion_clear Hs as [|? ? _ _ Hs']. by inversion_clear Hs'. }
  assert (Hseq : forall count o i r, tail_kind o <> Indirect -> dispatch_table o = o -> inner_op o = true ->
    try_fuse_sequence ir (next :: rest) count o = (i, r) ->
    linkless i /\ awake i /\ (inner_op i.(impl) = true \/ r = []) /\ exists k, r = drop k (next :: rest)).
  { intros count o i r Hk Hd Hi. unfold try_fuse_sequence. case_match; intros [= <- <-]; [exact Hkeep|].
    split; [apply refuse_linkless; [by destruct Hl|done|done]|]. split; [by apply inner_awake|]. split; [|by eexists].
    left. cbn [impl refuse set_impl set_opcode]. by rewrite Hd. }
  assert (Hpair : forall o i, linkless i -> tail_kind o <> Indirect -> dispatch_table o = o -> awake (refuse o i) ->
    (inner_op o = true \/ rest = []) ->
    linkless (refuse o i) /\ awake (refuse o i) /\ (inner_op (refuse o i).(impl) = true \/ remove_next_nth_ir (next :: rest) 1 = []) /\
    exists k, remove_next_nth_ir (next :: rest) 1 = drop k (next :: rest)).
  { intros o i Hi Hk Hd Hw Hr. split; [by apply refuse_linkless|]. split; [done|]. split; [|by eexists].
    destruct Hr as [Hr|Hr]; [left|right; by rewrite Hr]. cbn [impl refuse set_impl set_opcode]. by rewrite Hd. }
  unfold fuse_at. cbv zeta.
  destruct (opcode ir) eqn:Eo; try (intros [= <- <-]; exact Hkeep); try (by apply Hseq).
  - (* lui *) destruct (opcode next); try (intros [= <- <-]; exact Hkeep); try (by apply Hseq);
      case_match; intros [= <- <-]; try exact Hkeep; apply Hpair; try done; try (by left); by destruct Hl.
  - (* lw *) case_match; [|by apply Hseq]. intros [= <- <-]. apply Hpair; try done; try (by left); by destruct Hl.
  - (* addi *) case_match eqn:E6.
    { intros [= <- <-]. apply andb_prop in E6 as [_ E6]. apply opcode_eqb_eq in E6.
      apply Hpair; try done. right. apply Hlast. by rewrite E6. }
    case_match eqn:E12; [|by apply Hseq]. intros [= <- <-].
    do 3 (apply andb_prop in E12 as [E12 _]). apply opcode_eqb_eq in E12.
    destruct Hn as [_ -> -> _]. destruct Hl as [Hi Ht Hu Hb]. split; [by constructor|]. split; [done|]. split; [|by eexists].
    right. by rewrite (Hlast ltac:(by rewrite E12)).
Qed.

Lemma straight_drop (k : nat) (irs : list rv_insn_t) : straight irs -> straight (drop k irs).
Proof.
  intros Hs. revert k. induction Hs as [|ir irs Hf Hb Hs IH]; intros [|k]; [constructor|constructor|by constructor|].
  apply IH.
Qed.

Lemma match_loop_shape (fuel : nat) (irs l : list rv_insn_t) :
  straight irs -> Forall linkless irs -> Forall awake irs -> irs <> [] ->
  match_loop fuel irs = Some l -> shape l.
Proof.
  revert irs l. induction fuel as [|fuel IH]; intros irs l Hs Hl Ha Hne.
  { destruct irs as [|ir [|next rest]]; [done| |done]. intros [= <-]. apply Forall_cons_iff in Hl as [? _].
    apply Forall_cons_iff in Ha as [? _]. by constructor. }
  destruct irs as [|ir [|next rest]]; [done| |].
  { intros [= <-]. apply Forall_cons_iff in Hl as [? _]. apply Forall_cons_iff in Ha as [? _]. by constructor. }
  cbn [match_loop]. destruct (fuse_at ir next rest) as [ir' rest'] eqn:Ef.
  apply Forall_cons_iff in Hl as [Hl Hls]. apply Forall_cons_iff in Ha as [Ha Has].
  pose proof Hls as Hls'. apply Forall_cons_iff in Hls' as [Hln _].
  destruct (fuse_at_shape _ _ _ _ _ Hs Hl Hln Ha Ef) as (Hl' & Ha' & Hi & k & Hk).
  destruct (match_loop fuel rest') as [l'|] eqn:El; [|done]. intros [= <-].
  destruct rest' as [|x rest''].
  { destruct fuel; cbn in El; injection El as <-; by constructor. }
  destruct Hi as [Hi|]; [|done]. apply shape_cons; [done|done|].
  inversion_clear Hs as [|? ? _ _ Hs']. eapply IH; [| | | |exact El].
  - rewrite Hk. by apply straight_drop.
  - rewrite Hk. by apply Forall_drop.
  - rewrite Hk. by apply Forall_drop.
  - done.
Qed.

Lemma optimize_keeps (P : rv_insn_t -> Prop) (irs irs' : list rv_insn_t) (info : constopt_info_t) :
  (forall ir ir', rewritten ir ir' -> P ir -> P ir') ->
  straight irs -> Forall P irs -> optimize_irs irs info = Some irs' -> Forall P irs'.
Proof.
  intros HP Hs. revert irs' info. induction Hs as [|ir irs Hf Hb Hs IH]; intros irs' info Hl; cbn [optimize_irs].
  { by intros [= <-]. }
  apply Forall_cons_iff in Hl as [Hl Hls]. pose proof (constopt_rewrites ir info Hf) as Hr.
  destruct (constopt_table _ _ _) as [[ir' info']|]; [|done].
  destruct (optimize_irs irs info') as [l|] eqn:El; [|done]. intros [= <-].
  constructor; [by eapply HP|by eapply IH].
Qed.

Lemma pipeline_shape (m : memory_t) (pc e : Z) (irs irs1 irs2 : list rv_insn_t) :
  mem_wf m -> code_at m pc irs e -> irs <> [] ->
  Forall (fun ir => x0_kept ir = true) irs -> Forall awake irs ->
  optimize_irs irs constopt_info_0 = Some irs1 -> match_pattern irs1 = Some irs2 -> shape irs2.
Proof.
  intros Hm Hc Hne Hx Ha Ho Hp. pose proof (code_straight _ _ _ _ Hm Hc Hx) as Hs.
  destruct (optimize_straight _ _ _ Hs Ho) as [Hs1 Hl1].
  eapply match_loop_shape; [exact Hs1| | | |exact Hp].
  - eapply optimize_keeps; [exact rewritten_linkless|exact Hs|by eapply code_linkless|exact Ho].
  - eapply optimize_keeps; [exact rewritten_awake|exact Hs|done|exact Ho].
  - by destruct irs1, irs.
Qed.
