(* ===== verification/RunSpec.v ===== *)
(** The run loop simulates the reference semantics: blocks of guest code, each
    translated afresh and run without any optimisation, chaining or caching. *)

From stdpp Require Import base list option numbers gmap.
From Stdlib Require Import ZArith Lia Bool.
From S2P Require Import Prelude Bits Insn Decode DecodeSpec DecodeWf Mem MemSpec State Trap Csr Fp Alu.
From S2P Require Import AluSpec Exec Samples Isa IsaValues IsaRefine DecodeExec ExecWf Equiv Frame.
From S2P Require Import Constopt Fusion Block BlockSpec ConstoptSpec FusionSpec Pipeline Links Late Run RunShape.
#[local] Open Scope Z_scope.

(** * Reference semantics *)

(** Translation of the block stops: at a branch or before a zero word. *)
Definition ended (m : memory_t) (irs : list rv_insn_t) (e : Z) : Prop :=
  (exists ir, last irs = Some ir /\ insn_is_branch ir.(opcode) = true) \/ memory_ifetch m e = Some 0.

(** The code at [pc] that the theorems cover. *)
Record good_code (m : memory_t) (pc : Z) (irs : list rv_insn_t) (e : Z) : Prop := {
  gc_code : code_at m pc irs e;
  gc_end : ended m irs e;
  gc_some : irs <> [];
  gc_length : (length irs <= 256)%nat;
  gc_handled : Forall (fun ir => handled ir = true) irs;
  gc_x0 : Forall (fun ir => x0_kept ir = true) irs;
  gc_awake : Forall awake irs;
  gc_defined : is_Some (optimize_irs irs constopt_info_0) }.

Lemma ended_tail (m : memory_t) (ir : rv_insn_t) (irs : list rv_insn_t) (e : Z) :
  insn_is_branch ir.(opcode) = false -> ended m (ir :: irs) e -> ended m irs e.
Proof.
  intros Hb [(x & Hl & Hx)|Hz]; [|by right]. left. exists x. split; [|done].
  destruct irs; [|done]. cbn in Hl. congruence.
Qed.

(** Translation is determined by the code. *)
Lemma translate_code (m : memory_t) (pc e : Z) (irs : list rv_insn_t) :
  code_at m pc irs e -> ended m irs e -> forall (fuel : nat) (rv : riscv) (acc : list rv_insn_t),
    rv.(mem) = m -> (length irs < fuel)%nat -> translate_loop fuel rv pc acc = Some (rv, e, acc ++ irs).
Proof.
  induction 1 as [pc|pc e insn ir irs Hfe Hnz Hd Hb Hc IH]; intros He [|fuel] rv acc Hm Hf; try (cbn in Hf; lia).
  { destruct He as [(x & Hl & _)|Hz]; [done|]. cbn [translate_loop]. by rewrite Hm, Hz, app_nil_r. }
  cbn [translate_loop]. rewrite Hm, Hfe, (proj2 (Z.eqb_neq _ _) Hnz), Hd. cbn [negb].
  change (opcode (set_pc pc (set_impl (dispatch_table (opcode ir)) ir))) with (opcode ir).
  destruct (insn_is_branch ir.(opcode)) eqn:Ebr.
  - specialize (Hb eq_refl) as ->. inversion_clear Hc. unfold translated.
    by destruct (insn_is_indirect_branch ir.(opcode)).
  - assert (Hi : insn_is_indirect_branch ir.(opcode) = false).
    { destruct (insn_is_indirect_branch ir.(opcode)) eqn:Hi; [|done]. apply indirect_is_branch in Hi. congruence. }
    rewrite IH; [|eapply ended_tail; [|exact He]|done|cbn in Hf; lia].
    + rewrite <- app_assoc. unfold translated. by rewrite Hi.
    + by destruct (translated_fields pc ir) as (-> & _).
Qed.

Lemma good_code_det (m : memory_t) (pc e e' : Z) (irs irs' : list rv_insn_t) :
  good_code m pc irs e -> good_code m pc irs' e' -> irs = irs' /\ e = e'.
Proof.
  intros H1 H2. set (fuel := S (Nat.max (length irs) (length irs'))). set (rv := set_mem m hart).
  pose proof (translate_code _ _ _ _ (gc_code _ _ _ _ H1) (gc_end _ _ _ _ H1) fuel rv [] eq_refl ltac:(lia)) as E1.
  pose proof (translate_code _ _ _ _ (gc_code _ _ _ _ H2) (gc_end _ _ _ _ H2) fuel rv [] eq_refl ltac:(lia)) as E2.
  rewrite E1 in E2. cbn [app] in E2. split; congruence.
Qed.

(** The fuel of the run loop is enough for such a block. *)
Lemma code_fits (m : memory_t) (pc e : Z) (irs : list rv_insn_t) :
  m.(mem_size) < 2 ^ 32 -> code_at m pc irs e -> 0 <= pc -> irs <> [] ->
  pc + 2 * Z.of_nat (length irs) + 2 <= m.(mem_size).
Proof.
  intros Hs. induction 1 as [pc|pc e insn ir irs Hfe Hnz Hd Hb Hc IH]; intros Hpc Hne; [done|].
  apply ifetch_bound in Hfe. cbn [length]. destruct irs as [|ir' irs]; [cbn; lia|].
  set (n := if is_compressed insn then 2 else 4) in *. assert (2 <= n <= 4) by (unfold n; destruct (is_compressed insn); lia).
  unfold add32 in IH. rewrite u32_id in IH by (unfold is_u32; lia). specialize (IH ltac:(lia) ltac:(done)). cbn [length] in *. lia.
Qed.

Lemma translate_good (rv : riscv) (irs : list rv_insn_t) (e : Z) :
  riscv_wf rv -> good_code rv.(mem) rv.(PC) irs e ->
  block_translate (translate_fuel rv) rv =
    Some (rv, Some (mk_block (Z.of_nat (length irs)) rv.(PC) e irs)).
Proof.
  intros Hwf Hg. pose proof (mwf_size _ (wf_mem _ Hwf)) as Hs. pose proof (wf_PC _ Hwf) as Hpc.
  unfold block_translate. rewrite (translate_code _ _ _ _ (gc_code _ _ _ _ Hg) (gc_end _ _ _ _ Hg)); [|done|].
  - cbn [app]. pose proof (gc_some _ _ _ _ Hg). by destruct irs.
  - unfold translate_fuel. destruct (decide (rv.(mem).(mem_size) = 2 ^ 32)) as [->|Hne].
    + pose proof (gc_length _ _ _ _ Hg). apply Nat2Z.inj_lt. rewrite Z2Nat.id by lia.
      apply Z.le_lt_trans with 256; [lia|done].
    + unfold is_u32 in Hpc. assert (Hlt : rv.(mem).(mem_size) < 2 ^ 32) by lia.
      pose proof (code_fits _ _ _ _ Hlt (gc_code _ _ _ _ Hg) (proj1 Hpc) (gc_some _ _ _ _ Hg)). lia.
Qed.

Section Run.
Context `{HostClock} `{Syscall} `{SoftFloat} `{!EnvBlind} `{!SyscallWf} `{!ClockLate}.

(** One block of the reference run from [r] to [s], without a trap: the code at
    the program counter, the same as in the memory image [code], executed as it
    was decoded.  At its start x0 is zero; its target is not the odd address
    that marks an unused entry of a branch history table. *)
Inductive ref_block (code : memory_t) (r s : riscv) : Prop :=
| ref_block_intro (irs : list rv_insn_t) (e : Z) :
    good_code code r.(PC) irs e -> good_code r.(mem) r.(PC) irs e -> xreg r 0 = 0 ->
    settle (exec_irs irs r r.(csr_cycle) r.(PC)) = Some (s, true) -> s.(PC) <> 0xffffffff ->
    ref_block code r s.

Inductive ref_run (code : memory_t) (r : riscv) : nat -> riscv -> Prop :=
| ref_run_O : ref_run code r 0 r
| ref_run_S (n : nat) (s t : riscv) : ref_run code r n s -> ref_block code s t -> ref_run code r (S n) t.

(** * The invariant *)

(** Block [b] of the store starts at [a]. *)
Definition starts (bl : list block_t) (b : irptr) (a : Z) : Prop :=
  exists blk, bl !! b = Some blk /\ blk.(pc_start) = a.

Record table_ok (bl : list block_t) (t : branch_history_table_t) : Prop := {
  to_pcs : length t.(bht_PC) = Z.to_nat HISTORY_SIZE;
  to_targets : length t.(bht_target) = Z.to_nat HISTORY_SIZE;
  to_idx : 0 <= t.(bht_idx) < HISTORY_SIZE;
  to_entry : forall i p g, t.(bht_PC) !! i = Some p -> t.(bht_target) !! i = Some g ->
    p = 0xffffffff \/ exists b, g = Some b /\ starts bl b p }.

Definition links_ok (bl : list block_t) (p : Z) (ir : rv_insn_t) : Prop :=
  match tail_kind ir.(impl) with
  | Direct => forall b, ir.(branch_taken) = Some b -> starts bl b (taken_pc ir p)
  | Conditional =>
      (forall b, ir.(branch_taken) = Some b -> starts bl b (taken_pc ir p)) /\
      (forall b, ir.(branch_untaken) = Some b -> starts bl b (untaken_pc ir p))
  | Indirect => exists t, ir.(branch_table) = Some t /\ table_ok bl t
  | Ends => True
  end.

(** The program counter at the last instruction of a body that starts at [p]. *)
Definition run_pc (p : Z) (body : list rv_insn_t) : Z := foldl (fun p ir => add32 p (advance ir)) p body.

(** A stored block: what the passes make of the code at its start, with links
    added to the last instruction. *)
Inductive block_ok (code : memory_t) (bl : list block_t) (blk : block_t) : Prop :=
| block_ok_intro (irs irs1 body : list rv_insn_t) (e : Z) (tail : rv_insn_t)
    (t u : option irptr) (bt : option branch_history_table_t) :
    good_code code blk.(pc_start) irs e ->
    optimize_irs irs constopt_info_0 = Some irs1 -> match_pattern irs1 = Some (body ++ [tail]) ->
    Forall (fun ir => inner_op ir.(impl) = true) body -> tail.(impl) = tail.(opcode) -> awake tail ->
    blk.(ir_list) = body ++ [relink t u bt tail] ->
    links_ok bl (run_pc blk.(pc_start) body) (relink t u bt tail) ->
    block_ok code bl blk.

Record store_ok (code : memory_t) (m : machine) : Prop := {
  so_map : exists g, map_repr m.(blocks) m.(block_map) g /\
    forall b blk, m.(blocks) !! b = Some blk -> g !! blk.(pc_start) = Some b;
  so_size : m.(block_map).(size) < capacity;
  so_blocks : forall b blk, m.(blocks) !! b = Some blk -> block_ok code m.(blocks) blk }.

(** The last instruction of the block has sent control to [pc]. *)
Definition block_went (blk : block_t) (rv : riscv) (pc : Z) : Prop :=
  exists body tail, blk.(ir_list) = body ++ [tail] /\ went tail (run_pc blk.(pc_start) body) rv pc.

Record loop_ok (code : memory_t) (m : machine) : Prop := {
  lo_store : store_ok code m;
  lo_prev : forall p, m.(prev) = Some p -> is_Some (m.(blocks) !! p);
  lo_went : m.(prev) <> None -> forall b blk, m.(blocks) !! b = Some blk ->
    blk.(pc_start) = m.(rv).(last_pc) -> block_went blk m.(rv) m.(rv).(PC) }.

(** While block [b] runs, either [last_pc] is its start, or the block at
    [last_pc] ended in an indirect jump. *)
Record run_ok (code : memory_t) (m : machine) (entry b : irptr) (pc : Z) : Prop := {
  ro_store : store_ok code m;
  ro_entry : is_Some (m.(blocks) !! entry);
  ro_block : starts m.(blocks) b pc;
  ro_last : m.(rv).(last_pc) = pc \/
    forall b blk, m.(blocks) !! b = Some blk -> blk.(pc_start) = m.(rv).(last_pc) ->
      forall rv' pc', block_went blk rv' pc' }.

(** The architectural state of a configuration. *)
Definition config_rv (c : config) : riscv :=
  match c with
  | Loop m | Done m => m.(rv)
  | Run m _ _ cycle pc => set_PC pc (set_csr_cycle cycle m.(rv))
  end.

Definition config_ok (code : memory_t) (c : config) : Prop :=
  match c with
  | Loop m | Done m => loop_ok code m
  | Run m entry b cycle pc => run_ok code m entry b pc
  end.
(** * Running a block *)

Lemma exec_body (body : list rv_insn_t) (x : rv_insn_t) (rv s : riscv) (c p : Z) :
  Forall (fun ir => inner_op ir.(impl) = true) body ->
  settle (exec_irs (body ++ [x]) rv c p) = Some (s, true) ->
  exists rv' c', exec_irs (body ++ [x]) rv c p = exec_irs [x] rv' c' (run_pc p body).
Proof.
  intros Hb. revert rv c p. induction Hb as [|ir body Hi Hb IH]; intros rv c p Hs; [by eexists _, _|].
  cbn [app exec_irs] in *. pose proof (exec_inner rv ir c p Hi) as Ho.
  destruct (exec_ir rv ir c p) as [r c' p'|r b|r c' p' t|r c' p'|]; cbn in Ho; try done.
  - subst p'. destruct (IH _ _ _ Hs) as (rv' & c1 & ->). by eexists _, _.
  - subst b. cbn in Hs. congruence.
Qed.

Lemma relink_body (body : list rv_insn_t) (x : rv_insn_t) (rv : riscv) (c p : Z)
    (t u : option irptr) (bt : option branch_history_table_t) :
  settle (exec_irs (body ++ [relink t u bt x]) rv c p) = settle (exec_irs (body ++ [x]) rv c p).
Proof.
  revert rv c p. induction body as [|ir body IH]; intros rv c p.
  - cbn [app]. rewrite !settle_last. apply relink_settle.
  - cbn [app exec_irs]. by destruct (exec_ir rv ir c p).
Qed.

Lemma exec_irs_wf (irs : list rv_insn_t) (rv : riscv) (c p : Z) :
  Forall plain irs -> riscv_wf rv -> 0 <= c < 2 ^ 64 -> is_u32 p -> outcome_wf (exec_irs irs rv c p).
Proof.
  intros Hp. revert rv c p. induction Hp as [|ir irs Hir Hp IH]; intros rv c p Hwf Hc Hpc.
  { by apply end_op_wf. }
  cbn [exec_irs]. assert (Ho : outcome_wf (exec_ir rv ir c p)).
  { unfold exec_ir. rewrite (pl_impl _ Hir), do_insn_plain by apply Hir. apply rvop_wf; [|done].
    intros. apply code_of_wf; [done|apply Hir|done|done]. }
  destruct (exec_ir rv ir c p); try done. destruct Ho as (? & ? & ?). by apply IH.
Qed.

Lemma erase_wf (rv : riscv) : riscv_wf rv -> riscv_wf (erase rv).
Proof. intros []. by constructor. Qed.

Lemma settle_wf (o : outcome) (s : riscv) (b : bool) : outcome_wf o -> settle o = Some (s, b) -> riscv_wf s.
Proof.
  intros Ho Hs. destruct o as [r c p|r b'|r c p t|r c p|]; cbn in Ho, Hs; try discriminate Hs;
    injection Hs as <- _; apply erase_wf; [|done|..]; destruct Ho as (? & ? & ?); auto with rv.
Qed.

Lemma good_plain (m : memory_t) (pc e : Z) (irs : list rv_insn_t) :
  mem_wf m -> good_code m pc irs e -> Forall plain irs.
Proof.
  intros Hm Hg. pose proof (code_straight _ _ _ _ Hm (gc_code _ _ _ _ Hg) (gc_x0 _ _ _ _ Hg)) as Hs.
  eapply Forall_impl; [exact (straight_fusable _ Hs)|]. by intros ir [].
Qed.

Lemma ref_block_wf (code : memory_t) (r s : riscv) : riscv_wf r -> ref_block code r s -> riscv_wf s.
Proof.
  intros Hwf [irs e _ Hg _ Hs _]. eapply settle_wf; [|exact Hs].
  apply exec_irs_wf; [|done|apply Hwf|apply Hwf]. eapply good_plain; [apply Hwf|exact Hg].
Qed.

Lemma ref_run_wf (code : memory_t) (r s : riscv) (n : nat) : riscv_wf r -> ref_run code r n s -> riscv_wf s.
Proof. intros Hwf. induction 1 as [|n s t Hr IH Hb]; [done|]. by eapply ref_block_wf. Qed.

Lemma inner_no_copy (body : list rv_insn_t) :
  Forall (fun ir => inner_op ir.(impl) = true) body -> Forall reads_no_copy body.
Proof. intros Hb. eapply Forall_impl; [exact Hb|]. intros ir Hi E. cbv beta in Hi. by rewrite E in Hi. Qed.

(** A stored block does what the reference block at its start does, whatever
    the copies of the program counter and the cycle count in the state, and
    leaves through a link only to a block that starts where control goes. *)
Lemma block_runs (code : memory_t) (bl : list block_t) (blk : block_t) (rv r s : riscv) :
  mem_wf code -> block_ok code bl blk -> ref_block code r s -> late r.(PC) r.(csr_cycle) rv ≡ r -> riscv_wf r ->
  blk.(pc_start) = r.(PC) ->
  settle (exec_irs blk.(ir_list) rv r.(csr_cycle) r.(PC)) = Some (s, true) /\
  exists body tail, blk.(ir_list) = body ++ [tail] /\ links_ok bl (run_pc blk.(pc_start) body) tail /\
    tail_outcome tail (run_pc blk.(pc_start) body) (exec_irs blk.(ir_list) rv r.(csr_cycle) r.(PC)).
Proof.
  intros Hm [irs irs1 body e tail t u bt Hg Ho Hp Hb Hi Ha Hl Hk] [irs' e' Hg' _ Hx Hs _] Hrv Hwf Hpc.
  rewrite Hpc in *. destruct (good_code_det _ _ _ _ _ _ Hg Hg') as [<- <-].
  destruct (pipeline_follows code r.(PC) e irs irs1 Hm (wf_PC _ Hwf) (gc_code _ _ _ _ Hg) (gc_length _ _ _ _ Hg)
    (gc_handled _ _ _ _ Hg) (gc_x0 _ _ _ _ Hg) Ho) as (irs2 & E2 & Hf).
  rewrite Hp in E2. apply Some_inj in E2 as <-.
  specialize (Hf r r.(csr_cycle) s Hwf Hx Hs). rewrite <- (relink_body _ _ _ _ _ t u bt), <- Hl in Hf.
  rewrite <- (settle_proper _ _ (exec_irs_equiv blk.(ir_list) _ r r.(csr_cycle) r.(PC) Hrv)) in Hf.
  assert (Hfr : settle (exec_irs blk.(ir_list) rv r.(csr_cycle) r.(PC)) = Some (s, true)).
  { refine (settle_norm _ _ _ (exec_irs_late _ _ _ _ _ _ _) Hf); [|reflexivity]. rewrite Hl. apply Forall_app.
    split; [by apply inner_no_copy|]. apply Forall_singleton. unfold reads_no_copy. cbn [impl relink].
    change (impl (relink t u bt tail)) with (impl tail). rewrite Hi. apply Ha. }
  clear Hf. split; [exact Hfr|]. exists body, (relink t u bt tail). split; [done|]. split; [done|].
  rewrite Hl in Hfr |- *. destruct (exec_body _ _ _ _ _ _ Hb Hfr) as (rv' & c' & ->). apply exec_tail.
Qed.

End Run.

(** * Changing the store *)

Definition extends (bl bl' : list block_t) : Prop := forall b a, starts bl b a -> starts bl' b a.

Lemma table_ok_mono (bl bl' : list block_t) (t : branch_history_table_t) :
  extends bl bl' -> table_ok bl t -> table_ok bl' t.
Proof.
  intros He [Hp Ht Hi Hen]. constructor; try done. intros i p g H1 H2.
  destruct (Hen i p g H1 H2) as [|(b & -> & Hb)]; [by left|]. right. exists b. split; [done|by apply He].
Qed.

Lemma links_ok_mono (bl bl' : list block_t) (p : Z) (ir : rv_insn_t) :
  extends bl bl' -> links_ok bl p ir -> links_ok bl' p ir.
Proof.
  intros He. unfold links_ok. destruct (tail_kind _); [| | |done].
  - intros Hl b Hb. by apply He, Hl.
  - intros [Ht Hu]. split; intros b Hb; apply He; [by apply Ht|by apply Hu].
  - intros (t & Ht & Hok). exists t. split; [done|by eapply table_ok_mono].
Qed.

Lemma block_ok_mono (code : memory_t) (bl bl' : list block_t) (blk : block_t) :
  extends bl bl' -> block_ok code bl blk -> block_ok code bl' blk.
Proof. intros He [irs irs1 body e tail t u bt ? ? ? ? ? ? ? Hl]. econstructor; try done. by eapply links_ok_mono. Qed.

Lemma extends_app (bl bl' : list block_t) : extends bl (bl ++ bl').
Proof. intros b a (blk & Hb & Ha). exists blk. split; [by apply lookup_app_l_Some|done]. Qed.

Lemma map_repr_app (bl bl' : list block_t) (m : block_map_t) (g : gmap Z irptr) :
  map_repr bl m g -> map_repr (bl ++ bl') m g.
Proof.
  intros [Hc Hl Hs Hsound Hst]. constructor; try done.
  - intros j b Hj. destruct (Hsound j b Hj) as (blk & Hb & Hg). exists blk. split; [by apply lookup_app_l_Some|done].
  - intros a b Hb. destruct (Hst a b Hb) as [(blk & H1 & H2) Hd]. split; [|done].
    exists blk. split; [by apply lookup_app_l_Some|done].
Qed.

Section Alter.
Context (f : rv_insn_t -> rv_insn_t) (p : irptr) (bl : list block_t).

Lemma alter_lookup (b : irptr) (blk : block_t) :
  alter (update_tail f) p bl !! b = Some blk ->
  exists blk0, bl !! b = Some blk0 /\ blk = (if decide (b = p) then update_tail f blk0 else blk0).
Proof.
  destruct (decide (b = p)) as [->|Hne].
  - rewrite list_lookup_alter_eq. intros (blk0 & Hb & ->)%fmap_Some. by exists blk0.
  - rewrite list_lookup_alter_ne by done. by exists blk.
Qed.

Lemma alter_start (b : irptr) (blk : block_t) :
  bl !! b = Some blk ->
  exists blk', alter (update_tail f) p bl !! b = Some blk' /\ blk'.(pc_start) = blk.(pc_start).
Proof.
  intros Hb. destruct (decide (b = p)) as [->|Hne].
  - exists (update_tail f blk). split; [|done]. rewrite list_lookup_alter_eq. exact (f_equal (fmap (update_tail f)) Hb).
  - exists blk. by rewrite list_lookup_alter_ne.
Qed.

Lemma extends_alter : extends bl (alter (update_tail f) p bl).
Proof. intros b a (blk & Hb & <-). destruct (alter_start b blk Hb) as (blk' & ? & ?). by exists blk'. Qed.

Lemma map_repr_alter (m : block_map_t) (g : gmap Z irptr) :
  map_repr bl m g -> map_repr (alter (update_tail f) p bl) m g.
Proof.
  intros [Hc Hl Hs Hsound Hst]. constructor; try done.
  - intros j b Hj. destruct (Hsound j b Hj) as (blk & Hb & Hg).
    destruct (alter_start b blk Hb) as (blk' & Hb' & Hp). exists blk'. by rewrite Hp.
  - intros a b Hb. destruct (Hst a b Hb) as [(blk & H1 & <-) Hd]. split; [|done].
    destruct (alter_start b blk H1) as (blk' & Hb' & Hp). by exists blk'.
Qed.
End Alter.

Lemma update_tail_snoc (f : rv_insn_t -> rv_insn_t) (blk : block_t) (body : list rv_insn_t) (x : rv_insn_t) :
  blk.(ir_list) = body ++ [x] -> (update_tail f blk).(ir_list) = body ++ [f x].
Proof.
  intros E. cbn [update_tail ir_list]. rewrite E, length_app. cbn [length].
  replace (length body + 1 - 1)%nat with (length body + 0)%nat by lia. by rewrite alter_app_r.
Qed.

(** Only the links of the last instruction change, to correct ones. *)
Definition relinks (bl : list block_t) (f : rv_insn_t -> rv_insn_t) (blk : block_t) : Prop :=
  forall body x, blk.(ir_list) = body ++ [x] -> x.(impl) = x.(opcode) ->
    links_ok bl (run_pc blk.(pc_start) body) x ->
    (exists t u bt, f x = relink t u bt x) /\ links_ok bl (run_pc blk.(pc_start) body) (f x).

Lemma block_ok_update (code : memory_t) (bl : list block_t) (blk : block_t) (f : rv_insn_t -> rv_insn_t) :
  relinks bl f blk -> block_ok code bl blk -> block_ok code bl (update_tail f blk).
Proof.
  intros Hf [irs irs1 body e tail t u bt Hg Ho Hp Hb Hi Ha Hl Hk].
  destruct (Hf _ _ Hl Hi Hk) as [(t' & u' & bt' & E) Hk'].
  eapply (block_ok_intro _ _ _ irs irs1 body e tail t' u' bt'); try done.
  - rewrite (update_tail_snoc _ _ _ _ Hl), E. done.
  - change (pc_start (update_tail f blk)) with (pc_start blk). by rewrite E in Hk'.
Qed.

Lemma store_alter (code : memory_t) (m : machine) (p : irptr) (f : rv_insn_t -> rv_insn_t) :
  store_ok code m -> (forall blk, m.(blocks) !! p = Some blk -> relinks m.(blocks) f blk) ->
  store_ok code (set_blocks (alter (update_tail f) p m.(blocks)) m).
Proof.
  intros [(g & Hg & Hall) Hsz Hbl] Hf. constructor; cbn [blocks block_map set_blocks]; [|done|].
  - exists g. split; [by apply map_repr_alter|]. intros b blk Hb.
    destruct (alter_lookup _ _ _ _ _ Hb) as (blk0 & Hb0 & ->). case_decide; exact (Hall _ _ Hb0).
  - intros b blk Hb. destruct (alter_lookup _ _ _ _ _ Hb) as (blk0 & Hb0 & ->).
    apply (block_ok_mono _ m.(blocks)); [apply extends_alter|]. case_decide as Hd; [|by eapply Hbl].
    apply block_ok_update; [|by eapply Hbl]. subst b. by apply Hf.
Qed.
