(* ===== verification/RunSim.v ===== *)
(** The simulation: every transition of the run loop is defined and either runs
    exactly one reference block or none. *)

From stdpp Require Import base list option numbers gmap.
From Stdlib Require Import ZArith Lia Bool.
From S2P Require Import Prelude Bits Insn Decode DecodeSpec DecodeWf Mem MemSpec State Trap Csr Fp Alu.
From S2P Require Import AluSpec Exec Samples Isa IsaValues IsaRefine DecodeExec ExecWf Equiv Frame.
From S2P Require Import Constopt Fusion Block BlockSpec ConstoptSpec FusionSpec Pipeline Links Kept Late Run RunShape RunSpec.
#[local] Open Scope Z_scope.

(** * Branch history tables *)

Lemma bht_search_spec (pcs : list Z) (targets : list (option irptr)) (pc : Z) (g : option irptr) :
  bht_search pcs targets pc = Some g -> exists i, pcs !! i = Some pc /\ targets !! i = Some g.
Proof.
  revert targets. induction pcs as [|p pcs IH]; intros [|t targets]; cbn [bht_search]; try done.
  destruct (Z.eqb_spec p pc) as [->|_].
  - intros [= ->]. by exists 0%nat.
  - intros (i & H1 & H2)%IH. by exists (S i).
Qed.

Lemma bht_hit (bl : list block_t) (t : branch_history_table_t) (pc : Z) (g : option irptr) :
  table_ok bl t -> pc <> 0xffffffff -> bht_search t.(bht_PC) t.(bht_target) pc = Some g ->
  exists b, g = Some b /\ starts bl b pc.
Proof.
  intros Ht Hpc (i & H1 & H2)%bht_search_spec. by destruct (to_entry _ _ Ht i pc g H1 H2).
Qed.

Lemma bht_update_ok (bl : list block_t) (t : branch_history_table_t) (pc : Z) (b : irptr) :
  table_ok bl t -> starts bl b pc -> table_ok bl (bht_update pc b t).
Proof.
  intros [Hp Ht Hi He] Hb. unfold bht_update. constructor; cbn [bht_PC bht_target bht_idx].
  - by rewrite length_insert.
  - by rewrite length_insert.
  - by apply Z.mod_pos_bound.
  - intros i p g H1 H2. apply list_lookup_insert_Some in H1 as [(<- & <- & _)|[Hne H1]].
    + apply list_lookup_insert_Some in H2 as [(_ & <- & _)|[? _]]; [|done]. right. by exists b.
    + apply list_lookup_insert_Some in H2 as [(? & _)|[_ H2]]; [done|]. by eapply He.
Qed.

Lemma bht_init_ok (bl : list block_t) : table_ok bl bht_init.
Proof.
  constructor; try done. intros i p g [-> _]%lookup_replicate_1 _. by left.
Qed.

(** * Chaining *)

Lemma kind_uncond (o : opcode_t) :
  match tail_kind o with
  | Direct => insn_is_unconditional_branch o = true /\ insn_is_direct_branch o = true
  | Conditional => insn_is_unconditional_branch o = false
  | Indirect => insn_is_unconditional_branch o = true /\ insn_is_direct_branch o = false
  | Ends => True
  end.
Proof. by destruct o. Qed.

Lemma relink_taken (t : option irptr) (x : rv_insn_t) :
  set_branch_taken t x = relink t x.(branch_untaken) x.(branch_table) x.
Proof. by destruct x. Qed.

Lemma relink_untaken (u : option irptr) (x : rv_insn_t) :
  set_branch_untaken u x = relink x.(branch_taken) u x.(branch_table) x.
Proof. by destruct x. Qed.

Lemma relink_table (bt : option branch_history_table_t) (x : rv_insn_t) :
  set_branch_table bt x = relink x.(branch_taken) x.(branch_untaken) bt x.
Proof. by destruct x. Qed.

Lemma relink_same (x : rv_insn_t) : x = relink x.(branch_taken) x.(branch_untaken) x.(branch_table) x.
Proof. by destruct x. Qed.

Lemma chain_tail_relink (d : bool) (b : irptr) (x : rv_insn_t) : exists t u bt, chain_tail d b x = relink t u bt x.
Proof.
  unfold chain_tail.
  repeat case_match; do 3 eexists; first [apply relink_taken | apply relink_untaken | apply relink_same].
Qed.

(** The link added to the block that has just run leads where it went. *)
Lemma chain_relinks (bl : list block_t) (blk : block_t) (b : irptr) (rv : riscv) (pc : Z) :
  block_went blk rv pc -> starts bl b pc -> relinks bl (chain_tail rv.(is_branch_taken) b) blk.
Proof.
  intros (body' & x' & E' & Hw) Hb body x E Hi Hl. rewrite E in E'. apply app_inj_tail in E' as [<- <-].
  split; [apply chain_tail_relink|].
  destruct (chain_tail_relink rv.(is_branch_taken) b x) as (t & u & bt & Er).
  unfold links_ok in Hl |- *. unfold went in Hw.
  assert (Hk : tail_kind (impl (chain_tail rv.(is_branch_taken) b x)) = tail_kind x.(impl)) by (by rewrite Er).
  rewrite Hk. pose proof (kind_uncond x.(opcode)) as Hu. rewrite Hi in *. clear Hk Er t u bt.
  destruct (tail_kind (opcode x)) eqn:Hk; [| | |done]; unfold chain_tail.
  - destruct Hu as [-> ->]. cbn [negb]. case_bool_decide as Hn; [|done].
    intros c [= <-]. by rewrite Hw in Hb.
  - rewrite Hu. cbn [negb]. destruct Hl as [Ht Hun]. destruct (is_branch_taken rv); cbn [andb negb].
    + case_bool_decide; [|done]. split; [|done]. intros c [= <-]. by rewrite Hw in Hb.
    + case_bool_decide; [|done]. split; [done|]. intros c [= <-]. by rewrite Hw in Hb.
  - by destruct Hu as [-> ->].
Qed.

(** * Finding blocks *)

Lemma lookup_det (bl : list block_t) (b : irptr) (x y : block_t) :
  bl !! b = Some x -> bl !! b = Some y -> x = y.
Proof. intros E1 E2. by injection (eq_trans (eq_sym E1) E2). Qed.

Lemma store_find (code : memory_t) (m : machine) (a : Z) :
  store_ok code m -> exists o, block_find m.(blocks) (probe_fuel m) m.(block_map) a = Some o /\
    (forall b, o = Some b <-> starts m.(blocks) b a).
Proof.
  intros [(g & Hg & Hall) Hsz _]. exists (g !! a). split.
  - apply find_correct; [done|done|]. unfold probe_fuel. rewrite (mr_capacity _ _ _ Hg).
    unfold capacity, BLOCK_MAP_CAPACITY_BITS. lia.
  - intros b. split.
    + intros Hb. destruct (mr_stored _ _ _ Hg a b Hb) as [(blk & H1 & H2) _]. by exists blk.
    + intros (blk & Hb & <-). by apply Hall.
Qed.

(** Starts are unique. *)
Lemma starts_inj (code : memory_t) (m : machine) (b b' : irptr) (a : Z) :
  store_ok code m -> starts m.(blocks) b a -> starts m.(blocks) b' a -> b = b'.
Proof.
  intros Hs H1 H2. destruct (store_find code m a Hs) as (o & _ & Ho).
  apply Ho in H1. apply Ho in H2. congruence.
Qed.

Lemma update_prev_ok (code : memory_t) (m : machine) :
  loop_ok code m ->
  exists p, update_prev m = Some (set_prev p m) /\
    forall q, p = Some q -> exists blk, m.(blocks) !! q = Some blk /\ block_went blk m.(rv) m.(rv).(PC).
Proof.
  intros [Hs Hp Hw]. unfold update_prev. destruct m as [r bl mp [p|] ea oe cps]; cbn [prev blocks rv] in *.
  2:{ exists None. by split. }
  destruct (Hp p eq_refl) as [blk Hb]. rewrite Hb. destruct (Z.eqb_spec blk.(pc_start) r.(last_pc)) as [E|E].
  - exists (Some p). split; [done|]. intros q [= <-]. exists blk. split; [done|]. by apply (Hw ltac:(done) p).
  - destruct (store_find code _ r.(last_pc) Hs) as (o & Ho & Hq). cbn [blocks block_map] in Ho, Hq |- *. rewrite Ho.
    exists o. split; [done|]. intros q ->. destruct (proj1 (Hq q) eq_refl) as (blk' & Hb' & Hl).
    exists blk'. split; [done|]. by apply (Hw ltac:(done) q).
Qed.

(** * New blocks *)

Lemma fresh_block_ok (code : memory_t) (bl : list block_t) (blk : block_t) (irs irs1 irs2 : list rv_insn_t) (e : Z) :
  mem_wf code -> good_code code blk.(pc_start) irs e -> optimize_irs irs constopt_info_0 = Some irs1 ->
  match_pattern irs1 = Some irs2 -> blk.(ir_list) = irs2 -> block_ok code bl blk.
Proof.
  intros Hm Hg Ho Hp Hl.
  destruct (shape_split irs2) as (body & tail & -> & [Hi Ht Hu Hb] & Ha & Hin).
  { eapply (pipeline_shape code); [done|apply Hg..|exact Ho|exact Hp]. }
  eapply (block_ok_intro _ _ _ irs irs1 body e tail _ _ _); try done.
  - rewrite Hl. do 2 f_equal. apply relink_same.
  - rewrite <- relink_same. unfold links_ok. rewrite Hi. destruct (tail_kind (opcode tail)); [| | |done].
    + intros b. by rewrite Ht.
    + split; intros b; by rewrite ?Ht, ?Hu.
    + exists bht_init. split; [by apply Hb|apply bht_init_ok].
Qed.

Lemma store_insert (code : memory_t) (m : machine) (blk : block_t) :
  store_ok code m -> m.(block_map).(size) + 1 < capacity ->
  (forall b, ~ starts m.(blocks) b blk.(pc_start)) ->
  (forall bl, block_ok code bl blk) ->
  exists x, block_insert (m.(blocks) ++ [blk]) (probe_fuel m) m.(block_map) (length m.(blocks)) = Some x /\
    store_ok code (set_block_map x (set_blocks (m.(blocks) ++ [blk]) m)).
Proof.
  intros [(g & Hg & Hall) Hsz Hbl] Hroom Hnew Hok.
  assert (Hnone : g !! blk.(pc_start) = None).
  { destruct (g !! blk.(pc_start)) as [b|] eqn:E; [|done]. destruct (mr_stored _ _ _ Hg _ _ E) as [(k & H1 & H2) _].
    destruct (Hnew b). by exists k. }
  assert (Hlast : (m.(blocks) ++ [blk]) !! length m.(blocks) = Some blk) by (by apply list_lookup_middle).
  destruct (insert_correct (m.(blocks) ++ [blk]) m.(block_map) g (map_repr_app _ _ _ _ Hg) (probe_fuel m)
    (length m.(blocks)) blk Hsz) as (x & Hx & Hsx & Hrx); [|done|done|].
  { unfold probe_fuel. rewrite (mr_capacity _ _ _ Hg). unfold capacity, BLOCK_MAP_CAPACITY_BITS. lia. }
  exists x. split; [done|]. constructor; cbn [blocks block_map set_block_map set_blocks].
  - exists (<[blk.(pc_start) := length m.(blocks)]> g). split; [done|]. intros b k Hk.
    apply lookup_snoc_Some in Hk as [[Hlt Hk]|[-> <-]].
    + rewrite lookup_insert_ne; [by apply Hall|]. intros E. apply Hall in Hk. rewrite E in Hnone. discriminate (eq_trans (eq_sym Hk) Hnone).
    + apply lookup_insert_eq.
  - lia.
  - intros b k Hk. apply lookup_snoc_Some in Hk as [[Hlt Hk]|[-> <-]]; [|apply Hok].
    eapply block_ok_mono; [apply extends_app|by eapply Hbl].
Qed.

Lemma crowded_size (code : memory_t) (m : machine) :
  store_ok code m -> map_crowded m.(block_map) = false -> m.(block_map).(size) + 1 < capacity.
Proof.
  intros [(g & Hg & _) _ _]. unfold map_crowded. rewrite (mr_capacity _ _ _ Hg), Z.ltb_ge.
  unfold capacity, BLOCK_MAP_CAPACITY_BITS. lia.
Qed.

(** [block_map_clear] frees every block. *)
Lemma store_clear (code : memory_t) (m : machine) :
  store_ok code m ->
  store_ok code (set_prev None (set_blocks [] (set_block_map (block_map_clear m.(block_map)) m))).
Proof.
  intros [(g & Hg & _) _ _]. constructor; cbn [blocks block_map set_prev set_blocks set_block_map].
  - exists ∅. split; [by eapply clear_correct|]. intros b blk. by rewrite lookup_nil.
  - done.
  - intros b blk. by rewrite lookup_nil.
Qed.

Lemma equiv_fields (rv r : riscv) :
  rv ≡ r -> rv.(PC) = r.(PC) /\ rv.(csr_cycle) = r.(csr_cycle) /\ rv.(halt) = r.(halt) /\ rv.(mem) = r.(mem).
Proof. intros ->%equiv_put. done. Qed.

Lemma equiv_wf (rv r : riscv) : rv ≡ r -> riscv_wf r -> riscv_wf rv.
Proof. intros E%symmetry%equiv_put []. rewrite E. by constructor. Qed.

(** The part of the machine that belongs to the translator. *)
Definition with_store (bl : list block_t) (x : block_map_t) (p : option irptr) (m : machine) : machine :=
  set_prev p (set_block_map x (set_blocks bl m)).

Lemma with_store_same (m : machine) : with_store m.(blocks) m.(block_map) m.(prev) m = m.
Proof. by destruct m. Qed.

Section Sim.
Context `{HostClock} `{Syscall} `{SoftFloat} `{!EnvBlind} `{!SyscallWf} `{!SyscallLocal} `{!ClockLate}.
Context (code : memory_t) (Hcode : mem_wf code).

(** ** block_find_or_translate *)

Lemma translate_step (m : machine) (r s : riscv) (p : option irptr) :
  store_ok code m -> m.(block_map).(size) + 1 < capacity -> m.(rv) ≡ r -> riscv_wf r -> ref_block code r s ->
  (forall b, ~ starts m.(blocks) b r.(PC)) ->
  exists blk x, blk.(pc_start) = r.(PC) /\
    (let? (r', blk) := block_translate (translate_fuel m.(rv)) m.(rv) in
     let m := set_rv r' m in
     match blk with
     | None => Some (m, None)
     | Some blk =>
         let? irs := optimize_constant r' blk.(ir_list) in
         let? irs := match_pattern irs in
         let b := length m.(blocks) in
         let m := set_blocks (m.(blocks) ++ [set_ir_list irs blk]) m in
         let? x := block_insert m.(blocks) (probe_fuel m) m.(block_map) b in
         Some (set_block_map x m, Some b)
     end) = Some (set_block_map x (set_blocks (m.(blocks) ++ [blk]) m), Some (length m.(blocks))) /\
    store_ok code (set_block_map x (set_blocks (m.(blocks) ++ [blk]) m)).
Proof.
  intros Hs Hsz Hrv Hwf [irs e Hg0 Hg Hx Hset _] Hnew.
  destruct (equiv_fields _ _ Hrv) as (Hpc & _ & _ & Hmem).
  assert (Hrg : good_code m.(rv).(mem) m.(rv).(PC) irs e) by (by rewrite Hpc, Hmem).
  rewrite (translate_good _ _ _ (equiv_wf _ _ Hrv Hwf) Hrg). cbv zeta beta. cbn [ir_list].
  unfold optimize_constant. rewrite (equiv_xreg _ _ rv_reg_zero Hrv). change rv_reg_zero with 0. rewrite Hx. cbn [Z.eqb].
  destruct (gc_defined _ _ _ _ Hg0) as [irs1 Ho]. rewrite Ho.
  destruct (pipeline_follows code r.(PC) e irs irs1 Hcode (wf_PC _ Hwf) (gc_code _ _ _ _ Hg0)
    (gc_length _ _ _ _ Hg0) (gc_handled _ _ _ _ Hg0) (gc_x0 _ _ _ _ Hg0) Ho) as (irs2 & Hp & _).
  rewrite Hp. set (blk := set_ir_list irs2 _).
  assert (Hb : blk.(pc_start) = r.(PC)) by exact Hpc.
  destruct (store_insert code m blk Hs Hsz) as (x & Hxi & Hok).
  - by rewrite Hb.
  - intros bl. apply (fresh_block_ok code bl blk irs irs1 irs2 e); [done|by rewrite Hb|done|done|done].
  - exists blk, x. split; [done|]. split; [|done]. destruct m as [rv0 bl mp pr ea oe cps].
    unfold probe_fuel in *. cbn in Hxi |- *. by rewrite Hxi.
Qed.

Lemma find_or_translate_ok (m : machine) (r s : riscv) :
  store_ok code m -> m.(rv) ≡ r -> riscv_wf r -> ref_block code r s ->
  exists bl x p b, block_find_or_translate m = Some (with_store bl x p m, Some b) /\
    store_ok code (with_store bl x p m) /\ starts bl b r.(PC) /\
    forall q, p = Some q -> m.(prev) = Some q /\ forall blk, m.(blocks) !! q = Some blk -> bl !! q = Some blk.
Proof.
  intros Hs Hrv Hwf Href. unfold block_find_or_translate.
  destruct (equiv_fields _ _ Hrv) as (Hpc & _).
  destruct (store_find code m m.(rv).(PC) Hs) as (o & -> & Ho). rewrite Hpc in Ho. destruct o as [b|].
  { exists m.(blocks), m.(block_map), m.(prev), b. rewrite with_store_same. split; [done|]. split; [done|].
    split; [by apply Ho|done]. }
  assert (Hnew : forall b, ~ starts m.(blocks) b r.(PC)) by (intros b Hb%Ho; discriminate).
  destruct (map_crowded m.(block_map)) eqn:Hc.
  - set (m1 := set_prev None (set_blocks [] (set_block_map (block_map_clear m.(block_map)) m))).
    destruct (translate_step m1 r s None (store_clear code m Hs)) as (blk & x & Hb & E & Hok); try done.
    { intros b (blk & Hb & _). by destruct b. }
    exists [blk], x, None, 0%nat. split; [exact E|]. split; [exact Hok|]. split; [by exists blk|done].
  - destruct (translate_step m r s None Hs) as (blk & x & Hb & E & Hok); try done.
    { by eapply crowded_size. }
    exists (m.(blocks) ++ [blk]), x, m.(prev), (length m.(blocks)). split; [destruct m; exact E|].
    split; [by destruct m|]. split; [exists blk; split; [by apply list_lookup_middle|done]|].
    intros q Hq. split; [done|]. intros blk' Hb'. by apply lookup_app_l_Some.
Qed.
(** ** The head of the loop *)

Lemma store_ext (m m' : machine) :
  store_ok code m -> m'.(blocks) = m.(blocks) -> m'.(block_map) = m.(block_map) -> store_ok code m'.
Proof. intros [? ? ?] Hb Hm. constructor; by rewrite ?Hb, ?Hm. Qed.

Lemma block_ok_head (bl : list block_t) (blk : block_t) : block_ok code bl blk -> is_Some (head blk.(ir_list)).
Proof. intros [irs irs1 body e tail t u bt ? ? ? ? ? ? Hl _]. rewrite Hl. destruct body; eauto. Qed.

Lemma chain_block_ok (m : machine) (b : irptr) (pc : Z) :
  store_ok code m -> starts m.(blocks) b pc ->
  (forall q, m.(prev) = Some q -> exists blk, m.(blocks) !! q = Some blk /\ block_went blk m.(rv) pc) ->
  exists bl, chain_block m b = Some (set_blocks bl m) /\ store_ok code (set_blocks bl m) /\ starts bl b pc.
Proof.
  intros Hs Hb Hq. unfold chain_block. destruct (prev m) as [q|] eqn:Hp.
  - destruct (Hq q eq_refl) as (blk & Hblk & Hw). rewrite Hblk. eexists. split; [done|]. split.
    + apply store_alter; [done|]. intros blk' Hblk'. rewrite Hblk in Hblk'. injection Hblk' as <-.
      by eapply chain_relinks.
    + by apply extends_alter.
  - exists m.(blocks). split; [by destruct m|]. split; [by destruct m|done].
Qed.

Lemma loop_step_ok (target : Z) (m : machine) (r s : riscv) :
  loop_ok code m -> m.(rv) ≡ r -> riscv_wf r -> ref_block code r s ->
  (m.(rv).(csr_cycle) <? target) && negb m.(rv).(halt) = true ->
  exists m' b, loop_step target m = Some (Run m' b b m'.(rv).(csr_cycle) m'.(rv).(PC)) /\
    m'.(rv) ≡ r /\ run_ok code m' b b r.(PC).
Proof.
  intros Hl Hrv Hwf Href Hgo. unfold loop_step. rewrite Hgo. cbn [negb].
  destruct (update_prev_ok code m Hl) as (p & -> & Hp). set (m1 := set_prev p m).
  assert (Hs1 : store_ok code m1) by (by apply (store_ext m); [apply Hl|..]).
  destruct (find_or_translate_ok m1 r s Hs1 Hrv Hwf Href) as (bl & x & p' & b & -> & Hs2 & Hb & Hkeep).
  set (m2 := with_store bl x p' m1) in *. destruct Hb as (blk & Hblk & Hpc).
  change (bl !! b) with (m2.(blocks) !! b) in Hblk. rewrite Hblk.
  destruct (block_ok_head _ _ (so_blocks _ _ Hs2 _ _ Hblk)) as [ir ->].
  set (m3 := if Insn.pc ir =? exit_addr m2 then set_on_exit true m2 else m2).
  assert (Hm3 : m3.(rv) = m.(rv) /\ m3.(blocks) = m2.(blocks) /\ m3.(block_map) = m2.(block_map) /\ m3.(prev) = p')
    by (unfold m3; by case_match).
  destruct Hm3 as (H3r & H3b & H3m & H3p).
  destruct (chain_block_ok m3 b r.(PC)) as (bl' & -> & Hs4 & Hb4).
  - by apply (store_ext m2).
  - exists blk. by rewrite H3b.
  - intros q Hq. rewrite H3p in Hq. destruct (Hkeep q Hq) as [Hq1 Hk].
    destruct (Hp q Hq1) as (blkq & Hbq & Hw). exists blkq. rewrite H3b, H3r. split; [by apply Hk|].
    by destruct (equiv_fields _ _ Hrv) as (<- & _).
  - eexists _, b. split; [done|]. cbn [rv set_rv set_blocks]. rewrite H3r. split; [exact Hrv|].
    destruct (equiv_fields _ _ Hrv) as (Hrpc & _). constructor.
    + by apply (store_ext (set_blocks bl' m3)).
    + destruct Hb4 as (k & Hk & _). by exists k.
    + exact Hb4.
    + left. exact Hrpc.
Qed.

(** ** A block runs *)

(** The links of an instruction do not say where it goes. *)
Lemma block_went_update (bt : option branch_history_table_t) (blk : block_t) (rv : riscv) (pc : Z) :
  block_went blk rv pc -> block_went (update_tail (set_branch_table bt) blk) rv pc.
Proof.
  intros (body & x & E & Hw). exists body, (set_branch_table bt x). split; [by apply update_tail_snoc|exact Hw].
Qed.

Lemma indirect_went (blk : block_t) (body : list rv_insn_t) (x : rv_insn_t) (rv : riscv) (pc : Z) :
  blk.(ir_list) = body ++ [x] -> tail_kind x.(impl) = Indirect -> block_went blk rv pc.
Proof. intros E Hk. exists body, x. split; [done|]. unfold went. by rewrite Hk. Qed.

(** The blocks at [a] leave through indirect jumps. *)
Definition ends_indirect (bl : list block_t) (a : Z) : Prop :=
  forall b blk, bl !! b = Some blk -> blk.(pc_start) = a -> forall rv pc, block_went blk rv pc.

Lemma table_relinks (bl : list block_t) (blk : block_t) (body : list rv_insn_t) (x : rv_insn_t)
    (t : branch_history_table_t) :
  blk.(ir_list) = body ++ [x] -> tail_kind x.(impl) = Indirect -> table_ok bl t ->
  relinks bl (set_branch_table (Some t)) blk.
Proof.
  intros E Hk Ht body' x' E' _ _. rewrite E in E'. apply app_inj_tail in E' as [_ <-].
  split; [do 3 eexists; apply relink_table|]. unfold links_ok. cbn [impl set_branch_table]. rewrite Hk. by exists t.
Qed.

(** After a block that ends in an indirect jump, the branch history table, the
    block map or the run loop finds the next block. *)
Lemma lookup_step_ok (m : machine) (entry b : irptr) (blk : block_t) (body : list rv_insn_t) (x : rv_insn_t) (cycle pc : Z) :
  store_ok code m -> is_Some (m.(blocks) !! entry) -> m.(blocks) !! b = Some blk ->
  blk.(ir_list) = body ++ [x] -> tail_kind x.(impl) = Indirect ->
  links_ok m.(blocks) (run_pc blk.(pc_start) body) x -> pc <> 0xffffffff ->
  ends_indirect m.(blocks) m.(rv).(last_pc) ->
  exists c, lookup_step m entry b blk cycle pc = Some c /\ config_ok code c /\
    config_rv c ≡ set_PC pc (set_csr_cycle cycle m.(rv)) /\ forall m', c <> Done m'.
Proof.
  intros Hs He Hb Hl Hk Hlk Hpc Hend. unfold lookup_step.
  rewrite Hl, last_snoc. unfold links_ok in Hlk. rewrite Hk in Hlk. destruct Hlk as (t & -> & Ht).
  destruct (bht_search _ _ pc) as [g|] eqn:Hg.
  { destruct (bht_hit _ _ _ _ Ht Hpc Hg) as (tb & -> & Htb). eexists. split; [done|]. split; [|done].
    constructor; try done. right. exact Hend. }
  destruct (store_find code m pc Hs) as (o & -> & Ho). destruct o as [tb|].
  - pose proof (proj1 (Ho tb) eq_refl) as Htb. eexists. split; [done|]. split; [|done]. constructor.
    + apply store_alter; [done|]. intros blk' Hb'. pose proof (lookup_det _ _ _ _ Hb Hb') as <-.
      eapply table_relinks; [exact Hl|exact Hk|]. by apply bht_update_ok.
    + destruct He as [k Hke]. destruct (alter_start (set_branch_table (Some (bht_update pc tb t))) b _ _ _ Hke) as (k' & ? & _).
      by exists k'.
    + by apply extends_alter.
    + right. intros b' blk' Hb' Hpc'. destruct (alter_lookup _ _ _ _ _ Hb') as (blk0 & Hb0 & ->).
      intros rv' pc'. case_decide; [apply block_went_update|]; by apply (Hend b').
  - eexists. split; [done|]. split; [|done]. constructor; cbn [prev blocks set_prev set_rv].
    + by apply (store_ext m).
    + by intros p [= <-].
    + intros _ b' blk' Hb' Hp'. by apply (Hend b').
Qed.

Lemma last_ends (m : machine) (entry b : irptr) (blk : block_t) (body : list rv_insn_t) (x : rv_insn_t) (pc : Z) :
  run_ok code m entry b pc -> m.(blocks) !! b = Some blk -> blk.(pc_start) = pc ->
  blk.(ir_list) = body ++ [x] -> tail_kind x.(impl) = Indirect -> ends_indirect m.(blocks) m.(rv).(last_pc).
Proof.
  intros [Hs _ Hb [Hv|Hv]] Hblk Hpc Hl Hk b' blk' Hb' Hp' rv' pc'; [|by apply (Hv b')].
  assert (b' = b) as ->.
  { apply (starts_inj code m _ _ pc Hs); [|done]. exists blk'. split; [exact Hb'|congruence]. }
  pose proof (lookup_det _ _ _ _ Hblk Hb') as <-. by eapply indirect_went.
Qed.

Lemma run_step_ok (m : machine) (entry b : irptr) (cycle pc : Z) (r s : riscv) :
  run_ok code m entry b pc -> config_rv (Run m entry b cycle pc) ≡ r -> riscv_wf r -> ref_block code r s ->
  exists c, run_step m entry b cycle pc = Some c /\ config_ok code c /\ config_rv c ≡ s /\ forall m', c <> Done m'.
Proof.
  intros Hok Hrv Hwf Href. destruct (equiv_fields _ _ Hrv) as (Epc & Ecy & _).
  cbn [config_rv PC csr_cycle set_PC set_csr_cycle] in Epc, Ecy. subst pc cycle.
  pose proof Hok as [Hs He (blk & Hb & Hst) Hlast].
  destruct (block_runs code _ _ _ r s Hcode (so_blocks _ _ Hs _ _ Hb) Href Hrv Hwf Hst)
    as (Hset & body & tail & Hl & Hlk & Ht).
  unfold run_step. rewrite Hb. pose proof (exec_irs_last blk.(ir_list) m.(rv) r.(csr_cycle) r.(PC)) as Hkept.
  assert (Hpc : s.(PC) <> 0xffffffff) by (by destruct Href).
  destruct (exec_irs _ _ _ _) as [r' c' p'|r' [] |r' c' p' t|r' c' p'|]; cbn [settle] in Hset;
    cbn [tail_outcome last_kept] in Ht, Hkept; try done; apply (f_equal (fmap fst)), Some_inj in Hset; cbn [fst] in Hset.
  - specialize (Ht eq_refl). eexists. split; [done|]. split; [|split; [by rewrite <- Hset|done]]. constructor.
    + by apply (store_ext m).
    + by intros p [= <-].
    + intros _ b' blk' Hb' Hp'. cbn [rv set_prev set_rv blocks] in Hb', Hp' |- *. rewrite last_prof_call, Hkept in Hp'.
      destruct Hlast as [Hv|Hv]; [|by apply (Hv b')].
      assert (b' = b) as ->.
      { apply (starts_inj code m _ _ r.(PC) Hs); [|by exists blk]. exists blk'. split; [exact Hb'|congruence]. }
      pose proof (lookup_det _ _ _ _ Hb Hb') as <-. exists body, tail. split; [done|]. exact Ht.
  - destruct Ht as (Hlp & Hw & Hf). eexists. split; [done|]. split; [|split; [by rewrite <- Hset|done]].
    constructor; [by apply (store_ext m)|done| |by left].
    cbn [blocks set_rv]. unfold links_ok in Hlk. unfold went in Hw. unfold follows_link in Hf.
    destruct (tail_kind _); [| |done|done]; rewrite Hw; [by apply Hlk|].
    destruct Hlk as [Htk Hun]. destruct (is_branch_taken r'); [by apply Htk|by apply Hun].
  - assert (Hp' : p' <> 0xffffffff) by (by rewrite <- Hset in Hpc).
    destruct (lookup_step_ok (set_rv r' m) entry b blk body tail c' p') as (c & E & Hc & Hr & Hd); try done.
    + by apply (store_ext m).
    + cbn [rv set_rv blocks]. rewrite Hkept. by eapply last_ends.
    + exists c. split; [exact E|]. split; [exact Hc|]. split; [|done]. rewrite Hr, <- Hset. reflexivity.
Qed.

End Sim.
