(* ===== verification/RunRefine.v ===== *)
(** The run loop, whatever its caches hold, runs the blocks of the reference
    semantics in order, and keeps running them until the cycle budget of
    [rv_step] is spent or the hart halts. *)

From stdpp Require Import base list option numbers gmap.
From Stdlib Require Import ZArith Lia Bool.
From S2P Require Import Prelude Bits Insn Decode DecodeSpec DecodeWf Mem MemSpec State Trap Csr Fp Alu.
From S2P Require Import AluSpec Exec Samples Isa IsaValues IsaRefine DecodeExec ExecWf Equiv Frame.
From S2P Require Import Constopt Fusion Block BlockSpec ConstoptSpec FusionSpec Pipeline Links Kept Late Run RunShape RunSpec RunSim.
#[local] Open Scope Z_scope.

(** The machine as [rv_create] leaves it. *)
Definition fresh_machine (r : riscv) (exit_at per_step : Z) : machine :=
  mk_machine r [] (block_map_init BLOCK_MAP_CAPACITY_BITS) None exit_at false per_step.

Lemma fresh_ok (code : memory_t) (r : riscv) (exit_at per_step : Z) :
  loop_ok code (fresh_machine r exit_at per_step).
Proof.
  constructor; [constructor|done|done]; cbn [blocks block_map fresh_machine].
  - exists ∅. split; [exact init_correct|]. intros b blk. by rewrite lookup_nil.
  - done.
  - intros b blk. by rewrite lookup_nil.
Qed.

(** The cycle budget is spent or the hart has halted. *)
Definition spent (target : Z) (rv : riscv) : Prop := target <= rv.(csr_cycle) \/ rv.(halt) = true.

Section Refine.
Context `{HostClock} `{Syscall} `{SoftFloat} `{!EnvBlind} `{!SyscallWf} `{!SyscallLocal} `{!ClockLate}.
Context (code : memory_t) (Hcode : mem_wf code).

Lemma ref_block_det (r s1 s2 : riscv) : ref_block code r s1 -> ref_block code r s2 -> s1 = s2.
Proof.
  intros [irs1 e1 Hg1 _ _ Hs1 _] [irs2 e2 Hg2 _ _ Hs2 _].
  destruct (good_code_det _ _ _ _ _ _ Hg1 Hg2) as [<- _]. rewrite Hs1 in Hs2. by injection Hs2.
Qed.

Lemma ref_run_det (r s1 s2 : riscv) (n : nat) : ref_run code r n s1 -> ref_run code r n s2 -> s1 = s2.
Proof.
  intros Hr. revert s2. induction Hr as [|n t u Ht IH Hb]; intros s2 Hr2; inversion_clear Hr2; [done|].
  assert (t = s) as -> by (by apply IH). by eapply ref_block_det.
Qed.

Lemma run_next (r s : riscv) (n k : nat) :
  ref_run code r n s -> (k < n)%nat -> exists t u, ref_run code r k t /\ ref_block code t u.
Proof.
  induction 1 as [|n s t Hr IH Hb]; intros Hk; [lia|].
  destruct (decide (k = n)) as [->|Hne]; [by exists s, t|]. apply IH. lia.
Qed.

(** A configuration stands at the state after [k] blocks, and [rv_step] has not
    returned too early. *)
Record stands (target : Z) (r : riscv) (c : config) (k : nat) : Prop := {
  st_ok : config_ok code c;
  st_ref : exists rk, ref_run code r k rk /\ config_rv c ≡ rk;
  st_done : forall m, c = Done m -> spent target m.(rv) }.

Definition running (c : config) : bool := match c with Run _ _ _ _ _ => true | _ => false end.
Definition finished (c : config) : bool := match c with Done _ => true | _ => false end.

(** One transition: from the head of the loop to a block or out of [rv_step];
    from a block to the next state. *)
Lemma step_ok (target : Z) (c : config) (r s t : riscv) (k : nat) :
  riscv_wf r -> ref_run code r k s -> ref_block code s t -> stands target r c k ->
  exists c', step target c = Some c' /\
    (stands target r c' (S k) /\ running c = true \/
     stands target r c' k /\ running c = false /\ (finished c' = true \/ running c' = true)).
Proof.
  intros Hwf Hk Hb [Hok (rk & Hk' & Hrk) Hd]. pose proof (ref_run_det _ _ _ _ Hk Hk') as <-.
  assert (Hwk : riscv_wf s) by (by eapply ref_run_wf).
  destruct c as [m|m entry b cycle pc|m]; cbn [step config_ok config_rv] in *.
  - destruct ((m.(rv).(csr_cycle) <? target) && negb m.(rv).(halt)) eqn:Hgo.
    + destruct (loop_step_ok code Hcode target m s t Hok Hrk Hwk Hb Hgo) as (m' & b & -> & Hrv' & Hrun).
      destruct (equiv_fields _ _ Hrv') as (Epc & Ecy & _).
      eexists. split; [reflexivity|]. right. split; [|by split; [|right]]. split; [by rewrite <- Epc in Hrun| |done].
      exists s. split; [done|]. destruct m' as [[] ? ? ? ? ? ?]. exact Hrv'.
    + exists (Done m). split; [unfold loop_step; by rewrite Hgo|]. right. split; [|by split; [|left]].
      split; [done|by exists s|]. intros m' [= <-]. unfold spent. apply andb_false_iff in Hgo as [Hgo|Hgo].
      * left. by apply Z.ltb_ge.
      * right. by apply negb_false_iff.
  - destruct (run_step_ok code Hcode m entry b cycle pc s t Hok Hrk Hwk Hb) as (c & -> & Hc & Ht & Hn).
    exists c. split; [done|]. left. split; [|done]. split; [done| |].
    + exists t. split; [by econstructor|done].
    + intros m' ->. by destruct (Hn m').
  - exists (Done m). split; [done|]. right. split; [|by split; [|left]]. split; [done|by exists s|done].
Qed.

Lemma steps_snoc (target : Z) (fuel : nat) (c c1 c2 : config) :
  steps fuel target c = Some c1 -> step target c1 = Some c2 -> steps (S fuel) target c = Some c2.
Proof.
  revert c. induction fuel as [|fuel IH]; intros c.
  - cbn. intros [= <-] ->. done.
  - intros E1 E2. cbn [steps] in E1 |- *. destruct (step target c) as [c'|]; [|done]. by apply (IH c').
Qed.

Lemma starts_standing (target : Z) (m : machine) (r : riscv) :
  loop_ok code m -> m.(rv) ≡ r -> stands target r (Loop m) 0.
Proof. intros Hl Hr. split; [done| |done]. exists r. split; [constructor|done]. Qed.

(** Transitions stay on the reference run. *)
Lemma steps_on_run (target : Z) (m : machine) (r s : riscv) (n fuel : nat) :
  riscv_wf r -> loop_ok code m -> m.(rv) ≡ r -> ref_run code r n s -> (fuel <= n)%nat ->
  exists c k, steps fuel target (Loop m) = Some c /\ (k <= fuel)%nat /\ stands target r c k.
Proof.
  intros Hwf Hl Hrv Hr. induction fuel as [|fuel IH]; intros Hf.
  { exists (Loop m), 0%nat. split; [done|]. split; [lia|]. by apply starts_standing. }
  destruct (IH ltac:(lia)) as (c & k & E & Hk & Hst).
  destruct (run_next r s n k Hr ltac:(lia)) as (t & u & Ht & Hb).
  destruct (step_ok target c r t u k Hwf Ht Hb Hst) as (c' & E' & [(Hst' & _)|(Hst' & _)]).
  - exists c', (S k). split; [by eapply steps_snoc|]. split; [lia|done].
  - exists c', k. split; [by eapply steps_snoc|]. split; [lia|done].
Qed.

(** Two transitions run a block, unless [rv_step] returns. *)
Lemma steps_reach (target : Z) (m : machine) (r s : riscv) (n : nat) :
  riscv_wf r -> loop_ok code m -> m.(rv) ≡ r -> ref_run code r n s ->
  exists c k fuel, steps fuel target (Loop m) = Some c /\ (fuel <= 2 * n)%nat /\ (k <= n)%nat /\
    stands target r c k /\ (k = n \/ finished c = true).
Proof.
  intros Hwf Hl Hrv. induction 1 as [|n s t Hr IH Hb].
  { exists (Loop m), 0%nat, 0%nat. split; [done|]. split; [lia|]. split; [lia|].
    split; [by apply starts_standing|by left]. }
  destruct IH as (c & k & fuel & E & Hf & Hk & Hst & Hor).
  destruct (finished c) eqn:Hd.
  { exists c, k, fuel. split; [done|]. split; [lia|]. split; [lia|]. split; [done|by right]. }
  assert (k = n) as -> by (by destruct Hor).
  assert (Hrun : forall c f, steps f target (Loop m) = Some c -> stands target r c n -> running c = true ->
    (f <= 2 * n + 1)%nat -> exists c k fuel, steps fuel target (Loop m) = Some c /\ (fuel <= 2 * S n)%nat /\
      (k <= S n)%nat /\ stands target r c k /\ (k = S n \/ finished c = true)).
  { intros c1 f E1 Hst1 Hrun Hf1.
    destruct (step_ok target c1 r s t n Hwf Hr Hb Hst1) as (c2 & E2 & [(Hst2 & _)|(_ & Hno & _)]); [|congruence].
    exists c2, (S n), (S f). split; [by eapply steps_snoc|]. split; [lia|]. split; [lia|]. split; [done|by left]. }
  destruct (running c) eqn:Hrc; [apply (Hrun c fuel); [done|done|done|lia]|].
  destruct (step_ok target c r s t n Hwf Hr Hb Hst) as (c1 & E1 & [(_ & Hno)|(Hst1 & _ & [Hd1|Hr1])]); [congruence| |].
  - exists c1, n, (S fuel). split; [by eapply steps_snoc|]. split; [lia|]. split; [lia|]. split; [done|by right].
  - apply (Hrun c1 (S fuel)); [by eapply steps_snoc|done|done|lia].
Qed.

(** C3. The run loop refines the reference semantics.  From a machine whose
    translated blocks, links and branch histories are sound for the code image
    [code] (a fresh machine, for one), every transition of [rv_step] is defined
    and leaves the machine, up to statistics, in the state that the reference
    run reaches after some number of blocks; the block cache stays sound, so the
    next call of [rv_step] starts from the same premises; and [rv_step] returns
    only when the cycle budget is spent or the hart has halted.  This covers the
    block cache, the clearing of a crowded cache, block chaining through
    [prev]/[last_pc], fusion, constant propagation and the branch history
    tables. *)
Theorem rv_step_refines (target : Z) (m : machine) (r s : riscv) (n : nat) :
  riscv_wf r -> loop_ok code m -> m.(rv) ≡ r -> ref_run code r n s ->
  exists c k rk, steps n target (Loop m) = Some c /\ (k <= n)%nat /\
    ref_run code r k rk /\ config_rv c ≡ rk /\ config_ok code c /\
    forall m', c = Done m' -> spent target m'.(rv).
Proof.
  intros Hwf Hl Hrv Hr. destruct (steps_on_run target m r s n n Hwf Hl Hrv Hr ltac:(lia))
    as (c & k & E & Hk & [Hok (rk & Href & Hrk) Hd]).
  by exists c, k, rk.
Qed.

(** C4. The run loop makes progress: within twice [n] transitions it has run the
    first [n] blocks of the reference run, unless [rv_step] has returned before
    with its cycle budget spent or the hart halted. *)
Theorem rv_step_progress (target : Z) (m : machine) (r s : riscv) (n : nat) :
  riscv_wf r -> loop_ok code m -> m.(rv) ≡ r -> ref_run code r n s ->
  exists c fuel, steps fuel target (Loop m) = Some c /\ (fuel <= 2 * n)%nat /\
    (config_rv c ≡ s \/ exists m', c = Done m' /\ spent target m'.(rv)).
Proof.
  intros Hwf Hl Hrv Hr. destruct (steps_reach target m r s n Hwf Hl Hrv Hr)
    as (c & k & fuel & E & Hf & _ & [_ (rk & Href & Hrk) Hd] & Hor).
  exists c, fuel. split; [done|]. split; [done|]. destruct Hor as [->|Hor].
  - left. by rewrite (ref_run_det _ _ _ _ Hr Href).
  - right. destruct c as [| |m']; try discriminate Hor. exists m'. split; [done|by apply Hd].
Qed.
End Refine.

(** * An executable reference step *)

Definition good_block (rv : riscv) (blk : block_t) : bool :=
  (match last blk.(ir_list) with Some ir => insn_is_branch ir.(opcode) | None => false end) &&
  (length blk.(ir_list) <=? 256)%nat &&
  forallb handled blk.(ir_list) && forallb x0_kept blk.(ir_list) &&
  forallb (fun ir => negb (opcode_eqb ir.(opcode) rv_insn_wfi || opcode_eqb ir.(opcode) rv_insn_mret)) blk.(ir_list) &&
  bool_decide (is_Some (optimize_irs blk.(ir_list) constopt_info_0)).

Definition ref_step `{HostClock} `{Syscall} `{SoftFloat} (rv : riscv) : option riscv :=
  match block_translate (translate_fuel rv) rv with
  | Some (_, Some blk) =>
      if good_block rv blk && (xreg rv 0 =? 0) then
        match settle (exec_irs blk.(ir_list) rv rv.(csr_cycle) rv.(PC)) with
        | Some (s, true) => if s.(PC) =? 0xffffffff then None else Some s
        | _ => None
        end
      else None
  | _ => None
  end.

Lemma good_block_sound (fuel : nat) (rv rv' : riscv) (blk : block_t) :
  block_translate fuel rv = Some (rv', Some blk) -> good_block rv blk = true ->
  good_code rv.(mem) rv.(PC) blk.(ir_list) blk.(pc_end).
Proof.
  intros Ht Hg. unfold block_translate in Ht. destruct (translate_loop _ _ _ _) as [[[rv1 e] irs]|] eqn:E; [|done].
  apply translate_loop_correct in E as (new & -> & Hc & _). cbn [app] in Ht.
  destruct new as [|ir new]; [done|]. injection Ht as _ <-. unfold good_block in Hg. cbn [ir_list pc_end] in *.
  repeat rewrite andb_true_iff in Hg. destruct Hg as [[[[[Hb Hl] Hh] Hx] Ha] Ho].
  constructor; [exact Hc| |done|by apply Nat.leb_le| | | |by apply bool_decide_eq_true in Ho].
  - left. destruct (last (ir :: new)) as [x|]; [|done]. by exists x.
  - by apply List.Forall_forall, List.forallb_forall.
  - by apply List.Forall_forall, List.forallb_forall.
  - apply List.Forall_forall. intros x Hin. rewrite List.forallb_forall in Ha. specialize (Ha x Hin).
    apply negb_true_iff, orb_false_iff in Ha as [H1 H2]. by split; intros Eo; rewrite Eo in *.
Qed.

Lemma ref_step_sound `{HostClock} `{Syscall} `{SoftFloat} (code : memory_t) (rv s : riscv) :
  rv.(mem) = code -> ref_step rv = Some s -> ref_block code rv s.
Proof.
  intros Hm. unfold ref_step. destruct (block_translate _ _) as [[rv' [blk|]]|] eqn:Et; try done.
  destruct (good_block rv blk && (xreg rv 0 =? 0)) eqn:Hg; [|done]. apply andb_prop in Hg as [Hg Hx].
  destruct (settle _) as [[s' []]|] eqn:Es; try done. destruct (Z.eqb_spec s'.(PC) 0xffffffff) as [|Hne]; [done|].
  intros [= <-]. pose proof (good_block_sound _ _ _ _ Et Hg) as Hc.
  apply (ref_block_intro _ _ _ blk.(ir_list) blk.(pc_end)); try done; [by rewrite <- Hm|]. by apply Z.eqb_eq.
Qed.

Fixpoint ref_steps `{HostClock} `{Syscall} `{SoftFloat} (n : nat) (rv : riscv) : option riscv :=
  match n with
  | O => Some rv
  | S n => let? s := ref_steps n rv in ref_step s
  end.

(** Code that does not change. *)
Fixpoint code_kept `{HostClock} `{Syscall} `{SoftFloat} (n : nat) (rv : riscv) : Prop :=
  match n with
  | O => True
  | S n => code_kept n rv /\ mem <$> ref_steps n rv = Some rv.(mem)
  end.

Lemma ref_steps_sound `{HostClock} `{Syscall} `{SoftFloat} (rv s : riscv) (n : nat) :
  code_kept n rv -> ref_steps n rv = Some s -> ref_run rv.(mem) rv n s.
Proof.
  revert s. induction n as [|n IH]; intros s Hk.
  { intros [= <-]. constructor. }
  destruct Hk as [Hk Hm]. cbn [ref_steps]. destruct (ref_steps n rv) as [t|]; [|done]. intros E.
  econstructor; [by apply IH|]. apply ref_step_sound; [|done]. by injection Hm.
Qed.

(** [li a0, 3; addi a0, a0, -1; c.bnez a0, -4; c.j .] *)
Definition countdown : riscv := hart_running [0x00300513; 0xfff50513; 0xa001fd75].

(** After seven transitions the counter is down to zero and control is in the
    last jump. *)
Lemma rv_step_refines_witness :
  exists c, @steps stopped_clock no_syscall nan_unit 7 100 (Loop (fresh_machine countdown 0 100)) = Some c /\
    xreg (config_rv c) 10 = 0 /\ (config_rv c).(PC) = 10.
Proof.
  set (m := fresh_machine countdown 0 100).
  destruct (@ref_steps stopped_clock no_syscall nan_unit 7 countdown) as [s|] eqn:E; [|vm_compute in E; discriminate E].
  assert (Hk : @code_kept stopped_clock no_syscall nan_unit 7 countdown) by (vm_compute; tauto).
  destruct (@rv_step_refines stopped_clock no_syscall nan_unit no_syscall_blind no_syscall_wf no_syscall_local
    stopped_clock_late countdown.(mem) (wf_mem _ (hart_running_wf _)) 100 m countdown s 7
    (hart_running_wf _) (fresh_ok _ _ _ _) (reflexivity _)
    (@ref_steps_sound stopped_clock no_syscall nan_unit _ _ _ Hk E)) as (c & k & rk & Es & _).
  exists c. split; [done|].
  assert (Hc : (let? c := @steps stopped_clock no_syscall nan_unit 7 100 (Loop m) in
    Some (xreg (config_rv c) 10, (config_rv c).(PC))) = Some (0, 10)) by (by vm_compute).
  rewrite Es in Hc. clear -Hc. by injection Hc.
Defined.

(** Within ten transitions the first five blocks have run: the loop is over. *)
Lemma rv_step_progress_witness :
  exists c fuel, @steps stopped_clock no_syscall nan_unit fuel 100 (Loop (fresh_machine countdown 0 100)) = Some c /\
    (fuel <= 10)%nat /\
    (xreg (config_rv c) 10 = 0 \/ exists m', c = Done m' /\ spent 100 m'.(rv)).
Proof.
  destruct (@ref_steps stopped_clock no_syscall nan_unit 5 countdown) as [s|] eqn:E; [|vm_compute in E; discriminate E].
  assert (Hk : @code_kept stopped_clock no_syscall nan_unit 5 countdown) by (vm_compute; tauto).
  destruct (@rv_step_progress stopped_clock no_syscall nan_unit no_syscall_blind no_syscall_wf no_syscall_local
    stopped_clock_late countdown.(mem) (wf_mem _ (hart_running_wf _)) 100 (fresh_machine countdown 0 100) countdown s 5
    (hart_running_wf _) (fresh_ok _ _ _ _) (reflexivity _)
    (@ref_steps_sound stopped_clock no_syscall nan_unit _ _ _ Hk E)) as (c & fuel & Es & Hf & Hor).
  exists c, fuel. split; [exact Es|]. split; [exact Hf|]. destruct Hor as [Hs|Hor]; [left|by right].
  assert (Hx : (fun s => xreg s 10) <$> @ref_steps stopped_clock no_syscall nan_unit 5 countdown = Some 0) by (by vm_compute).
  rewrite E in Hx. rewrite (equiv_xreg _ _ 10 Hs). clear -Hx. by injection Hx.
Defined.
