(* ===== verification/X64.v ===== *)
(** The host of the tier-1 JIT compiler: the x86-64 instructions that jit.c
    emits, and what they do.

    An instruction is what one [emit_] function of jit.c appends to the code
    buffer; opcode bytes and register numbers are those of the source.  The
    host memory that generated code touches is the emulator state [riscv_t],
    whose address is in the first parameter register, and the guest RAM. *)

From stdpp Require Import base list option numbers gmap.
From Stdlib Require Import ZArith Lia Bool.
From S2P Require Import Prelude Bits Insn Mem State Trap.
#[local] Open Scope Z_scope.

(** * Registers *)

(** [enum x64_reg] *)
Definition RAX : Z := 0.
Definition RCX : Z := 1.
Definition RDX : Z := 2.
Definition RBX : Z := 3.
Definition RSP : Z := 4.
Definition RBP : Z := 5.
Definition RSI : Z := 6.
Definition RDI : Z := 7.
Definition R8 : Z := 8.
Definition R9 : Z := 9.
Definition R10 : Z := 10.
Definition R11 : Z := 11.
Definition R12 : Z := 12.
Definition R13 : Z := 13.
Definition R14 : Z := 14.
Definition R15 : Z := 15.

(** [enum operand_size] *)
Inductive operand_size : Type := S8 | S16 | S32 | S64.

Definition size_bytes (s : operand_size) : nat :=
  match s with S8 => 1 | S16 => 2 | S32 => 4 | S64 => 8 end.

(** * Instructions *)

(** [w] is REX.W: 64-bit operands. *)
Inductive hinsn : Type :=
| Alu (w : bool) (op src dst : Z)
| Alu_imm32 (w : bool) (op src dst imm : Z)
| Alu_imm8 (w : bool) (op src dst imm : Z)
| Load (size : operand_size) (src dst offset : Z)
| Load_sext (size : operand_size) (src dst offset : Z)
| Sxtw (reg : Z)
| Load_imm (dst imm : Z)
| Movabs (dst imm : Z)
| Store (size : operand_size) (src dst offset : Z)
| Store_zero (size : operand_size) (dst offset : Z)
| Inc_field (offset : Z)
| Cmovz (src dst : Z)
| Push (r : Z)
| Pop (r : Z)
| Pushf
| Popf
| Jcc (code : Z) (skip : nat) (* forward, over so many instructions *)
| Jmp (target_pc : Z) (* to the code of a guest address *)
| Jmp_exit (* to the epilogue *)
| Call_rax.

(** * State *)

Record flags : Type := mk_flags { CF : bool; ZF : bool; SF : bool; OF : bool }.

(** Flags that an instruction leaves undefined are [None]. *)
Inductive slot : Type :=
| Word (v : Z)
| Flags (f : option flags).

Record host : Type := mk_host {
  hregs : Z -> Z; (* 64-bit *)
  hflags : option flags;
  hstack : list slot;
  hrv : riscv; (* the emulator state in host memory, with the guest RAM *)
}.

Definition upd (r v : Z) (f : Z -> Z) : Z -> Z := fun x => if x =? r then v else f x.

Definition set_hreg (r v : Z) (h : host) : host := mk_host (upd r v h.(hregs)) h.(hflags) h.(hstack) h.(hrv).
Definition set_hflags (f : option flags) (h : host) : host := mk_host h.(hregs) f h.(hstack) h.(hrv).
Definition set_hstack (s : list slot) (h : host) : host := mk_host h.(hregs) h.(hflags) s h.(hrv).
Definition set_hrv (r : riscv) (h : host) : host := mk_host h.(hregs) h.(hflags) h.(hstack) r.

(** * Memory *)

(** Layout of [struct riscv_internal]: [halt], [X], [PC], [insn_counter], [timer]. *)
Definition offsetof_X : Z := 4.
Definition offsetof_PC : Z := 132.
Definition offsetof_timer : Z := 2184.

(** Where things are in host memory, and which guest addresses have translated
    code. *)
Class HostEnv : Type := {
  rv_addr : Z;
  ram_addr : Z;
  on_ecall : Z;
  on_ebreak : Z;
  linked : Z -> bool;
}.

Section Host.
Context `{HostEnv}.

(** The index of the guest register at an address. *)
Definition x_index (a : Z) : option Z :=
  let d := a - (rv_addr + offsetof_X) in
  if (0 <=? d) && (d <? 4 * 32) && (d mod 4 =? 0) then Some (d / 4) else None.

Definition in_ram (m : memory_t) (a n : Z) : bool :=
  (ram_addr <=? a) && GUEST_RAM_CONTAINS m (a - ram_addr) n.

Definition hload (n : nat) (a : Z) (h : host) : option Z :=
  let m := h.(hrv).(mem) in
  if in_ram m a (Z.of_nat n) then Some (load_le n m (a - ram_addr))
  else if negb (n =? 4)%nat then None
  else match x_index a with
       | Some i => Some (xreg h.(hrv) i)
       | None => if a =? rv_addr + offsetof_PC then Some h.(hrv).(PC) else None
       end.

Definition hstore (n : nat) (a v : Z) (h : host) : option host :=
  let m := h.(hrv).(mem) in
  if in_ram m a (Z.of_nat n) then Some (set_hrv (set_mem (store_le n m (a - ram_addr) v) h.(hrv)) h)
  else if negb (n =? 4)%nat then None
  else match x_index a with
       | Some i => Some (set_hrv (set_xreg i (u32 v) h.(hrv)) h)
       | None => if a =? rv_addr + offsetof_PC then Some (set_hrv (set_PC (u32 v) h.(hrv)) h) else None
       end.

(** * Arithmetic *)

Definition width (w : bool) : Z := if w then 64 else 32.
Definition low (w : bool) (x : Z) : Z := x mod 2 ^ width w.
Definition signed (w : bool) (x : Z) : Z := sx (width w) x.
Definition msb (w : bool) (x : Z) : bool := Z.testbit x (width w - 1).

(** Flags of an addition or subtraction and of a bitwise operation. *)
Definition arith_flags (w : bool) (exact_u exact_s : Z) : flags :=
  let r := low w exact_u in
  mk_flags (negb (exact_u =? r)) (r =? 0) (msb w r) (negb (exact_s =? signed w r)).
Definition logic_flags (w : bool) (r : Z) : flags := mk_flags false (r =? 0) (msb w r) false.

(** The two-operand operations by their MR opcode, or by the opcode extension of
    0x81: result, if it is written, and flags. *)
Inductive alu_op : Type := ADD | OR | AND | SUB | XOR | CMP | TEST | MOV.

Definition mr_op (op : Z) : option alu_op :=
  match op with
  | 0x01 => Some ADD | 0x09 => Some OR | 0x21 => Some AND | 0x29 => Some SUB | 0x31 => Some XOR
  | 0x39 => Some CMP | 0x85 => Some TEST | 0x89 => Some MOV | _ => None
  end.

Definition mi_op (op ext : Z) : option alu_op :=
  match op, ext with
  | 0x81, 0 => Some ADD | 0x81, 1 => Some OR | 0x81, 4 => Some AND | 0x81, 5 => Some SUB
  | 0x81, 6 => Some XOR | 0x81, 7 => Some CMP | 0xc7, 0 => Some MOV | _, _ => None
  end.

(** [a] is the destination operand, [b] the source. *)
Definition alu_exec (w : bool) (o : alu_op) (a b dst : Z) (h : host) : host :=
  let arith e_u e_s := arith_flags w e_u e_s in
  match o with
  | ADD => set_hreg dst (low w (a + b)) (set_hflags (Some (arith (a + b) (signed w a + signed w b))) h)
  | SUB => set_hreg dst (low w (a - b)) (set_hflags (Some (arith (a - b) (signed w a - signed w b))) h)
  | CMP => set_hflags (Some (arith (a - b) (signed w a - signed w b))) h
  | OR => set_hreg dst (a .| b) (set_hflags (Some (logic_flags w (a .| b))) h)
  | AND => set_hreg dst (a .& b) (set_hflags (Some (logic_flags w (a .& b))) h)
  | XOR => set_hreg dst (a .^ b) (set_hflags (Some (logic_flags w (a .^ b))) h)
  | TEST => set_hflags (Some (logic_flags w (a .& b))) h
  | MOV => set_hreg dst b h
  end.

(** Shifts, by opcode extension; the count is masked.  The flags are left
    undefined unless the count is zero. *)
Definition shift_exec (w : bool) (ext a count dst : Z) (h : host) : option host :=
  let n := count mod width w in
  let h := if n =? 0 then h else set_hflags None h in
  match ext with
  | 4 => Some (set_hreg dst (low w (a ≪ n)) h)
  | 5 => Some (set_hreg dst (a ≫ n) h)
  | 7 => Some (set_hreg dst (low w (signed w a ≫ n)) h)
  | _ => None
  end.

(** [mul] and [div] of RDX:RAX; a quotient that does not fit is a fault. *)
Definition muldiv_exec (w : bool) (ext b : Z) (h : host) : option host :=
  let a := low w (h.(hregs) RAX) in
  let d := low w (h.(hregs) RDX) in
  match ext with
  | 4 => Some (set_hflags None (set_hreg RDX (a * b / 2 ^ width w) (set_hreg RAX (low w (a * b)) h)))
  | 6 =>
      let n := d * 2 ^ width w + a in
      if (b =? 0) || (2 ^ width w <=? n / b) then None
      else Some (set_hflags None (set_hreg RDX (n mod b) (set_hreg RAX (n / b) h)))
  | _ => None
  end.

(** * Execution *)

(** Everything but jumps and calls. *)
Definition hexec (i : hinsn) (h : host) : option host :=
  let r := h.(hregs) in
  match i with
  | Alu w op src dst =>
      match op with
      | 0xd3 => shift_exec w src (low w (r dst)) (u8 (r RCX)) dst h
      | 0xf7 => muldiv_exec w src (low w (r dst)) h
      | _ => let? o := mr_op op in Some (alu_exec w o (low w (r dst)) (low w (r src)) dst h)
      end
  | Alu_imm32 w op src dst imm =>
      let? o := mi_op op src in Some (alu_exec w o (low w (r dst)) (low w (i32 imm)) dst h)
  | Alu_imm8 w op src dst imm =>
      if op =? 0xc1 then shift_exec w src (low w (r dst)) (u8 imm) dst h else None
  | Load size src dst offset =>
      let? v := hload (size_bytes size) (u64 (r src + offset)) h in Some (set_hreg dst v h)
  | Load_sext size src dst offset =>
      let? v := hload (size_bytes size) (u64 (r src + offset)) h in
      match size with
      | S8 => Some (set_hreg dst (u32 (i8 v)) h)
      | S16 => Some (set_hreg dst (u32 (i16 v)) h)
      | S32 => Some (set_hreg dst (u64 (i32 v)) h)
      | S64 => None
      end
  | Sxtw reg => Some (set_hreg reg (u64 (i32 (u32 (r reg)))) h)
  | Load_imm dst imm => Some (set_hreg dst (u32 imm) h)
  | Movabs dst imm => Some (set_hreg dst (u64 imm) h)
  | Store size src dst offset => hstore (size_bytes size) (u64 (r dst + offset)) (r src) h
  | Store_zero size dst offset => hstore (size_bytes size) (u64 (r dst + offset)) 0 h
  | Inc_field offset =>
      if offset =? offsetof_timer then Some (set_hrv (set_timer (u64 (h.(hrv).(timer) + 1)) h.(hrv)) h) else None
  | Cmovz src dst =>
      let? f := h.(hflags) in Some (if f.(ZF) then set_hreg dst (r src) h else h)
  | Push x => Some (set_hstack (Word (r x) :: h.(hstack)) h)
  | Pop x => match h.(hstack) with Word v :: s => Some (set_hreg x v (set_hstack s h)) | _ => None end
  | Pushf => Some (set_hstack (Flags h.(hflags) :: h.(hstack)) h)
  | Popf => match h.(hstack) with Flags f :: s => Some (set_hflags f (set_hstack s h)) | _ => None end
  | Jcc _ _ | Jmp _ | Jmp_exit | Call_rax => None
  end.

(** The condition of a jump, by its second opcode byte; 0xe9 is the
    unconditional jump. *)
Definition jcc_cond (code : Z) (f : option flags) : option bool :=
  if code =? 0xe9 then Some true
  else
    let? f := f in
    match code with
    | 0x82 => Some f.(CF)
    | 0x83 => Some (negb f.(CF))
    | 0x84 => Some f.(ZF)
    | 0x85 => Some (negb f.(ZF))
    | 0x8c => Some (xorb f.(SF) f.(OF))
    | 0x8d => Some (negb (xorb f.(SF) f.(OF)))
    | _ => None
    end.

(** How a run of code ends: past its end, [skip] instructions into what
    follows; at the epilogue; in the code of another block; in a call; or in
    undefined behaviour. *)
Inductive hout : Type :=
| Fell (skip : nat) (h : host)
| Exited (h : host)
| Linked (h : host) (pc : Z)
| Called (h : host) (target : Z)
| Stuck.

Fixpoint hrun (skip : nat) (code : list hinsn) (h : host) : hout :=
  match code with
  | [] => Fell skip h
  | i :: code =>
      match skip with
      | S skip => hrun skip code h
      | O =>
          match i with
          | Jcc cc n =>
              match jcc_cond cc h.(hflags) with
              | Some b => hrun (if b then n else 0) code h
              | None => Stuck
              end
          | Jmp pc => if linked pc then Linked h pc else hrun 0 code h
          | Jmp_exit => Exited h
          | Call_rax => Called h (h.(hregs) RAX)
          | _ => match hexec i h with Some h => hrun 0 code h | None => Stuck end
          end
      end
  end.

Lemma hrun_app (skip : nat) (c1 c2 : list hinsn) (h : host) :
  hrun skip (c1 ++ c2) h = match hrun skip c1 h with Fell n h' => hrun n c2 h' | o => o end.
Proof.
  revert skip h. induction c1 as [|i c1 IH]; intros skip h; [done|]. cbn [app hrun].
  destruct skip; [|apply IH].
  destruct i; try (destruct (hexec _ h); [apply IH|done]); try done.
  - destruct (jcc_cond _ _); [apply IH|done].
  - destruct (linked _); [done|apply IH].
Qed.
End Host.
