(* ===== verification/Jit.v ===== *)
(** The tier-1 JIT compiler for x86-64 (jit.c, rv32_jit.c): the register
    allocator, the code of each instruction and the translation of a block.

    Code generation is a state monad with failure ([assert(NULL)],
    [__UNREACHABLE]) over the static data of jit.c: the code emitted so far,
    the register map, and the liveness table of the current block.  Code is a
    list of host instructions; a forward jump is patched when its target is
    known, as [resolve_jumps] does with the byte offsets. *)

From stdpp Require Import base list option numbers gmap.
From Stdlib Require Import ZArith Lia Bool.
From S2P Require Import Prelude Bits Insn Decode Mem State Trap Csr Fp Alu Exec Block X64.
#[local] Open Scope Z_scope.

(** * State *)

(** [struct host_reg] *)
Record host_reg : Type := mk_host_reg {
  reg_idx : Z; (* index to the host's register file *)
  vm_reg_idx : Z; (* index to the vm register, or -1 *)
  dirty : bool;
  alive : bool;
}.

Definition set_vm_reg_idx (v : Z) (r : host_reg) : host_reg := mk_host_reg r.(reg_idx) v r.(dirty) r.(alive).
Definition set_dirty_bit (b : bool) (r : host_reg) : host_reg := mk_host_reg r.(reg_idx) r.(vm_reg_idx) b r.(alive).
Definition set_alive (b : bool) (r : host_reg) : host_reg := mk_host_reg r.(reg_idx) r.(vm_reg_idx) r.(dirty) b.

(** The registers of [register_map], the scratch register and the pointer to
    the emulator state (System V calling convention). *)
Definition map_regs : list Z := [RAX; RBX; RDX; R8; R9; R10; R11; R13; R14; R15].
Definition temp_reg : Z := RCX.
Definition parameter_reg_0 : Z := RDI.
Definition n_host_regs : nat := length map_regs.
Definition N_RV_REGS : Z := 32.

Record jit_state : Type := mk_jit {
  code : list hinsn;
  register_map : list host_reg;
  liveness : list Z; (* of each vm register: the last instruction that reads it, or -1 *)
  candidate_queue : list Z;
}.

Definition set_code (c : list hinsn) (s : jit_state) : jit_state :=
  mk_jit c s.(register_map) s.(liveness) s.(candidate_queue).
Definition set_register_map (m : list host_reg) (s : jit_state) : jit_state :=
  mk_jit s.(code) m s.(liveness) s.(candidate_queue).
Definition set_liveness (l : list Z) (s : jit_state) : jit_state :=
  mk_jit s.(code) s.(register_map) l s.(candidate_queue).
Definition set_candidate_queue (q : list Z) (s : jit_state) : jit_state :=
  mk_jit s.(code) s.(register_map) s.(liveness) q.

(** * The monad *)

Definition jit (A : Type) : Type := jit_state -> option (A * jit_state).

Definition ret {A} (a : A) : jit A := fun s => Some (a, s).
Definition bind {A B} (m : jit A) (k : A -> jit B) : jit B := fun s => let? (a, s) := m s in k a s.
Definition fail {A} : jit A := fun _ => None.
Definition gets {A} (f : jit_state -> A) : jit A := fun s => Some (f s, s).
Definition modify (f : jit_state -> jit_state) : jit unit := fun s => Some (tt, f s).

Declare Scope jit_scope.
Delimit Scope jit_scope with jit.
Notation "x <- m ;; k" := (bind m (fun x => k)) (at level 100, m at next level, right associativity) : jit_scope.
Notation "m ;; k" := (bind m (fun _ => k)) (at level 100, right associativity) : jit_scope.
#[local] Open Scope jit_scope.

Fixpoint for_each {A} (l : list A) (f : A -> jit unit) : jit unit :=
  match l with
  | [] => ret tt
  | a :: l => f a;; for_each l f
  end.

Definition when (b : bool) (m : jit unit) : jit unit := if b then m else ret tt.

(** * Emitters *)

Definition emit (i : hinsn) : jit unit := modify (fun s => set_code (s.(code) ++ [i]) s).

(** [state->offset], counted in instructions. *)
Definition offset : jit nat := gets (fun s => length s.(code)).

(** The first entry of the register map for a host register. *)
Fixpoint alter_first (p : host_reg -> bool) (f : host_reg -> host_reg) (m : list host_reg) : list host_reg :=
  match m with
  | [] => []
  | r :: m => if p r then f r :: m else r :: alter_first p f m
  end.

Definition set_dirty (reg : Z) (is_dirty : bool) : jit unit :=
  modify (fun s => set_register_map (alter_first (fun r => r.(reg_idx) =? reg) (set_dirty_bit is_dirty) s.(register_map)) s).

(** The host register holds x0. *)
Definition holds_x0 (reg : Z) (m : list host_reg) : bool :=
  existsb (fun r => (r.(reg_idx) =? reg) && (r.(vm_reg_idx) =? 0)) m.

Definition emit_alu32 (op src dst : Z) : jit unit := emit (Alu false op src dst);; set_dirty dst true.
Definition emit_alu64 (op src dst : Z) : jit unit := emit (Alu true op src dst);; set_dirty dst true.
Definition emit_alu32_imm32 (op src dst imm : Z) : jit unit :=
  emit (Alu_imm32 false op src dst imm);; set_dirty dst true.
Definition emit_alu32_imm8 (op src dst imm : Z) : jit unit :=
  emit (Alu_imm8 false op src dst imm);; set_dirty dst true.
Definition emit_alu64_imm32 (op src dst imm : Z) : jit unit :=
  emit (Alu_imm32 true op src dst imm);; set_dirty dst true.
Definition emit_alu64_imm8 (op src dst imm : Z) : jit unit :=
  emit (Alu_imm8 true op src dst imm);; set_dirty dst true.
Definition emit_mov (src dst : Z) : jit unit := emit_alu64 0x89 src dst.
Definition emit_cmp_imm32 (dst imm : Z) : jit unit := emit_alu32_imm32 0x81 7 dst imm.
Definition emit_cmp32 (src dst : Z) : jit unit := emit_alu32 0x39 src dst.
Definition emit_load_imm (dst imm : Z) : jit unit := emit (Load_imm dst imm);; set_dirty dst true.

Definition emit_load_imm_sext (dst imm : Z) : jit unit :=
  (if i32 imm =? imm then emit_alu64_imm32 0xc7 0 dst imm else emit (Movabs dst imm));;
  set_dirty dst true.

Definition emit_load (size : operand_size) (src dst off : Z) : jit unit :=
  x0 <- gets (fun s => holds_x0 dst s.(register_map));;
  if x0 then emit_load_imm dst 0;; set_dirty dst true
  else emit (Load size src dst off);; set_dirty dst (off =? 0).

Definition emit_load_sext (size : operand_size) (src dst off : Z) : jit unit :=
  x0 <- gets (fun s => holds_x0 dst s.(register_map));;
  if x0 then emit_load_imm dst 0;; set_dirty dst true
  else emit (Load_sext size src dst off);; set_dirty dst (off =? 0).

Definition emit_sxtw (reg : Z) : jit unit := emit (Sxtw reg).

(** [emit_store] and [jit_store_x0]. *)
Definition emit_store (size : operand_size) (src dst off : Z) : jit unit :=
  x0 <- gets (fun s => holds_x0 src s.(register_map));;
  if x0 then emit (Store_zero size dst off);; set_dirty src false
  else emit (Store size src dst off);; when (negb (off =? 0)) (set_dirty src false).

Definition emit_jmp (target_pc : Z) : jit unit := emit (Jmp (u32 target_pc)).
Definition emit_exit : jit unit := emit Jmp_exit.
Definition emit_push (r : Z) : jit unit := emit (Push r).
Definition emit_pop (r : Z) : jit unit := emit (Pop r).
Definition emit_conditional_move (src dst : Z) : jit unit := emit (Cmovz src dst).
Definition emit_jit_inc_timer : jit unit := emit (Inc_field offsetof_timer).
Definition emit_jcc_offset (code : Z) : jit unit := emit (Jcc code 0).

Definition emit_call (target : Z) : jit unit := emit_load_imm_sext RAX target;; emit Call_rax.

(** The displacement of the jump at [loc] to [target], as [resolve_jumps] writes
    it. *)
Definition set_target (n : nat) (i : hinsn) : hinsn := match i with Jcc c _ => Jcc c n | i => i end.

Definition emit_jump_target_offset (loc target : nat) : jit unit :=
  modify (fun s => set_code (alter (set_target (target - (loc + 1))) loc s.(code)) s).

(** * Register allocation *)

Definition reset_reg : jit unit :=
  modify (fun s => set_register_map
    ((fun r => mk_host_reg r.(reg_idx) (-1) false false) <$> s.(register_map)) s).

(** [register_map[idx]] *)
Definition entry (idx : nat) : jit host_reg := fun s => let? r := s.(register_map) !! idx in Some (r, s).
Definition alter_entry (idx : nat) (f : host_reg -> host_reg) : jit unit :=
  modify (fun s => set_register_map (alter f idx s.(register_map)) s).

Definition save_reg (idx : nat) : jit unit :=
  r <- entry idx;;
  if r.(dirty) then
    emit_store S32 r.(reg_idx) parameter_reg_0 (offsetof_X + 4 * r.(vm_reg_idx));;
    alter_entry idx (set_dirty_bit false)
  else ret tt.

Definition store_back : jit unit :=
  for_each (seq 0 n_host_regs) (fun i =>
    r <- entry i;;
    if r.(vm_reg_idx) =? -1 then ret tt else save_reg i).

Definition regs_refresh (idx : Z) : jit unit :=
  modify (fun s => set_register_map
    ((fun r => if negb (r.(vm_reg_idx) =? -1) && (s.(liveness) !!! Z.to_nat r.(vm_reg_idx) <? idx)
               then set_alive false r else r) <$> s.(register_map)) s).

(** The first index whose entry satisfies [p]. *)
Fixpoint find_index (p : host_reg -> bool) (m : list host_reg) : option nat :=
  match m with
  | [] => None
  | r :: m => if p r then Some 0%nat else S <$> find_index p m
  end.

(** The entry of the first candidate that is mapped outside the reserved
    registers. *)
Fixpoint pick_candidate (reserved : list Z) (q : list Z) (m : list host_reg) : option nat :=
  match q with
  | [] => None
  | c :: q =>
      match find_index (fun r => negb (bool_decide (r.(reg_idx) ∈ reserved)) && (r.(vm_reg_idx) =? c)) m with
      | Some i => Some i
      | None => pick_candidate reserved q m
      end
  end.

(** [reg_pick] (one reserved register, -1 for none) and [reg_pick2]. *)
Definition reg_pick (reserved : list Z) : jit nat := fun s =>
  match find_index (fun r => negb (bool_decide (r.(reg_idx) ∈ reserved)) && negb r.(alive)) s.(register_map) with
  | Some i => Some (i, s)
  | None => let? i := pick_candidate reserved s.(candidate_queue) s.(register_map) in Some (i, s)
  end.

Definition unmap_vm_reg (idx : nat) : jit unit := alter_entry idx (set_vm_reg_idx (-1)).
Definition set_vm_reg (idx : nat) (vm : Z) : jit unit :=
  alter_entry idx (fun r => set_alive true (set_vm_reg_idx vm r)).

(** The first host register that holds a vm register. *)
Definition find_vm_reg (vm : Z) (m : list host_reg) : option Z :=
  let? i := find_index (fun r => r.(vm_reg_idx) =? vm) m in
  reg_idx <$> m !! i.

(** [map_vm_reg], [map_vm_reg_reserved] and [map_vm_reg_reserved2], which differ
    in the registers they do not evict. *)
Definition map_vm_reg_avoiding (reserved : list Z) (vm : Z) : jit Z :=
  found <- gets (fun s => find_vm_reg vm s.(register_map));;
  match found with
  | Some r => ret r
  | None =>
      idx <- reg_pick reserved;;
      r <- entry idx;;
      save_reg idx;;
      unmap_vm_reg idx;;
      set_vm_reg idx vm;;
      ret r.(reg_idx)
  end.

Definition map_vm_reg (vm : Z) : jit Z := map_vm_reg_avoiding [-1] vm.
Definition map_vm_reg_reserved (vm reserved : Z) : jit Z := map_vm_reg_avoiding [reserved] vm.
Definition map_vm_reg_reserved2 (vm reserved1 reserved2 : Z) : jit Z :=
  map_vm_reg_avoiding [reserved1; reserved2] vm.

(** The last host register that holds a vm register, or -1. *)
Definition origin_of (vm : Z) (m : list host_reg) : Z :=
  fold_left (fun o r => if r.(vm_reg_idx) =? vm then r.(reg_idx) else o) m (-1).

Definition ra_load (vm : Z) : jit Z :=
  origin <- gets (fun s => origin_of vm s.(register_map));;
  target_reg <- map_vm_reg vm;;
  when (negb (origin =? target_reg)) (emit_load S32 parameter_reg_0 target_reg (offsetof_X + 4 * vm));;
  ret target_reg.

(** The mapping part of [ra_load2] and [ra_load2_sext]. *)
Definition map_two (vm1 vm2 : Z) : jit (Z * Z) :=
  if vm1 =? vm2 then
    r <- map_vm_reg vm1;; ret (r, r)
  else
    r0 <- map_vm_reg vm1;;
    r1 <- map_vm_reg_reserved vm2 r0;;
    if r0 =? r1 then fail else ret (r0, r1).

Definition ra_load2 (vm1 vm2 : Z) : jit (Z * Z) :=
  origin1 <- gets (fun s => origin_of vm1 s.(register_map));;
  origin2 <- gets (fun s => origin_of vm2 s.(register_map));;
  r <- map_two vm1 vm2;;
  when (negb (origin1 =? r.1)) (emit_load S32 parameter_reg_0 r.1 (offsetof_X + 4 * vm1));;
  when (negb (origin2 =? r.2)) (emit_load S32 parameter_reg_0 r.2 (offsetof_X + 4 * vm2));;
  ret r.

Definition load_ext (sext : bool) (origin r vm : Z) : jit unit :=
  if negb (origin =? r) then
    if sext then emit_load_sext S32 parameter_reg_0 r (offsetof_X + 4 * vm)
    else emit_load S32 parameter_reg_0 r (offsetof_X + 4 * vm)
  else when sext (emit_sxtw r).

Definition ra_load2_sext (vm1 vm2 : Z) (sext1 sext2 : bool) : jit (Z * Z) :=
  origin1 <- gets (fun s => origin_of vm1 s.(register_map));;
  origin2 <- gets (fun s => origin_of vm2 s.(register_map));;
  r <- map_two vm1 vm2;;
  load_ext sext1 origin1 r.1 vm1;;
  load_ext sext2 origin2 r.2 vm2;;
  ret r.

(** * Multiplication and division *)

Definition JIT_CLS_MASK : Z := 0x07.
Definition JIT_ALU_OP_MASK : Z := 0xf0.
Definition JIT_CLS_ALU64 : Z := 0x07.

(** A forward jump over the code [body] emits. *)
Definition jump_over (cc : Z) (body : jit unit) : jit unit :=
  jump_loc_0 <- offset;;
  emit_jcc_offset cc;;
  body;;
  here <- offset;;
  emit_jump_target_offset jump_loc_0 here.

Definition muldivmod (op src dst : Z) (sign : bool) : jit unit :=
  let mul := (op .& JIT_ALU_OP_MASK) =? 0x20 in
  let div := (op .& JIT_ALU_OP_MASK) =? 0x30 in
  let mod_ := (op .& JIT_ALU_OP_MASK) =? 0x90 in
  let is64 := (op .& JIT_CLS_MASK) =? JIT_CLS_ALU64 in
  rax <- entry 0;;
  rdx <- entry 2;;
  when (negb (dst =? RAX)) (unmap_vm_reg 0;; emit_push RAX);;
  when (negb (dst =? RDX)) (unmap_vm_reg 2;; emit_push RDX);;
  emit_mov src RCX;;
  emit_mov dst RAX;;
  when (div || mod_) (
    when sign (emit_load_imm_sext RDX (-1);; emit_cmp32 RDX RCX;; emit Pushf);;
    when (mod_ || (div && sign)) (emit_push RAX);;
    emit_alu32 0x85 RCX RCX;;
    emit Pushf;;
    emit_load_imm RDX 1;;
    emit_conditional_move RDX RCX;;
    emit_alu32 0x31 RDX RDX);;
  (* the REX.W prefix and the 32-bit instruction make the 64-bit instruction *)
  (if is64 then emit_alu64 0xf7 (if mul then 4 else 6) RCX
   else emit_alu32 0xf7 (if mul then 4 else 6) RCX);;
  when (div || mod_) (
    emit Popf;;
    if div then
      emit_load_imm_sext RCX (-1);;
      emit_conditional_move RCX RAX;;
      when sign (
        emit_pop RCX;;
        emit Popf;;
        jump_over 0x85 (emit_cmp_imm32 RCX 0x80000000;; emit_conditional_move RCX RAX))
    else
      emit_pop RCX;;
      emit_conditional_move RCX RDX;;
      when sign (
        emit Popf;;
        jump_over 0x85 (
          emit_cmp_imm32 RCX 0x80000000;; emit_load_imm RCX 0;; emit_conditional_move RCX RDX)));;
  when (negb (dst =? RDX)) (
    when mod_ (emit_mov RDX dst);;
    emit_pop RDX;;
    alter_entry 2 (fun r => set_dirty_bit rdx.(dirty) (set_vm_reg_idx rdx.(vm_reg_idx) r)));;
  when (negb (dst =? RAX)) (
    when (div || mul) (emit_mov RAX dst);;
    emit_pop RAX;;
    alter_entry 0 (fun r => set_dirty_bit rax.(dirty) (set_vm_reg_idx rax.(vm_reg_idx) r))).

(** * Instructions *)

(** The branch history of an indirect jump in a JIT build: targets and how often
    each was taken. *)
Class JitHistory : Type := { history : rv_insn_t -> list Z * list Z }.

Definition IN_JUMP_THRESHOLD : Z := 256.

(** The entry that was taken most often. *)
Fixpoint hottest (times : list Z) (i : nat) (todo : list Z) (max_idx : nat) : nat :=
  match todo with
  | [] => max_idx
  | t :: todo =>
      if t =? 0 then max_idx
      else hottest times (S i) todo (if times !!! max_idx <? t then i else max_idx)
  end.

Definition hot_target (bt : list Z * list Z) : option Z :=
  let (pcs, times) := bt in
  let max_idx := hottest times 0 (take (Z.to_nat HISTORY_SIZE) times) 0 in
  if truthy (pcs !!! max_idx) && (IN_JUMP_THRESHOLD <=? times !!! max_idx) then Some (pcs !!! max_idx) else None.

Section Gen.
Context `{HostEnv} `{JitHistory}.

Definition parse_branch_history_table (ir : rv_insn_t) : jit unit :=
  match hot_target (history ir) with
  | Some pc =>
      save_reg 0;;
      unmap_vm_reg 0;;
      r <- entry 0;;
      emit_load_imm r.(reg_idx) pc;;
      emit_cmp32 temp_reg r.(reg_idx);;
      jump_over 0x85 (emit_jmp pc)
  | None => ret tt
  end.

(** [X[rd] = imm]. *)
Definition gen_const (rd imm : Z) : jit unit :=
  r <- map_vm_reg rd;;
  emit_load_imm r imm.

(** Leave the block for [pc]. *)
Definition gen_leave (pc : Z) : jit unit :=
  emit_load_imm temp_reg pc;;
  emit_store S32 temp_reg parameter_reg_0 offsetof_PC;;
  emit_exit.

Definition gen_nop (ir : rv_insn_t) : jit unit := ret tt.
Definition gen_lui (ir : rv_insn_t) : jit unit := gen_const ir.(rd) ir.(imm).
Definition gen_auipc (ir : rv_insn_t) : jit unit := gen_const ir.(rd) (ir.(Insn.pc) + ir.(imm)).

Definition gen_jal (ir : rv_insn_t) : jit unit :=
  when (truthy ir.(rd)) (gen_const ir.(rd) (ir.(Insn.pc) + 4));;
  store_back;;
  emit_jmp (ir.(Insn.pc) + ir.(imm));;
  gen_leave (ir.(Insn.pc) + ir.(imm)).

(** The end of an indirect jump to the address in the scratch register. *)
Definition gen_indirect (ir : rv_insn_t) : jit unit :=
  store_back;;
  parse_branch_history_table ir;;
  emit_store S32 temp_reg parameter_reg_0 offsetof_PC;;
  emit_exit.

Definition gen_jalr (ir : rv_insn_t) : jit unit :=
  r <- ra_load ir.(rs1);;
  emit_mov r temp_reg;;
  emit_alu32_imm32 0x81 0 temp_reg ir.(imm);;
  emit_alu32_imm32 0x81 4 temp_reg (not32 1);;
  when (truthy ir.(rd)) (gen_const ir.(rd) (ir.(Insn.pc) + 4));;
  gen_indirect ir.

(** The two ways out of a conditional branch, the comparison being done. *)
Definition gen_branch_exits (cc : Z) (ir : rv_insn_t) (untaken taken : Z) : jit unit :=
  store_back;;
  jump_over cc (
    when (bool_decide (is_Some ir.(branch_untaken))) (emit_jmp untaken);;
    gen_leave untaken);;
  when (bool_decide (is_Some ir.(branch_taken))) (emit_jmp taken);;
  gen_leave taken.

Definition gen_branch (cc : Z) (ir : rv_insn_t) : jit unit :=
  r <- ra_load2 ir.(rs1) ir.(rs2);;
  emit_cmp32 r.2 r.1;;
  gen_branch_exits cc ir (ir.(Insn.pc) + 4) (ir.(Insn.pc) + ir.(imm)).

Definition gen_beq : rv_insn_t -> jit unit := gen_branch 0x84.
Definition gen_bne : rv_insn_t -> jit unit := gen_branch 0x85.
Definition gen_blt : rv_insn_t -> jit unit := gen_branch 0x8c.
Definition gen_bge : rv_insn_t -> jit unit := gen_branch 0x8d.
Definition gen_bltu : rv_insn_t -> jit unit := gen_branch 0x82.
Definition gen_bgeu : rv_insn_t -> jit unit := gen_branch 0x83.

(** The host address of guest address [X[rs1] + imm]. *)
Definition gen_address (rs1 imm : Z) : jit unit :=
  r <- ra_load rs1;;
  emit_load_imm_sext temp_reg (ram_addr + imm);;
  emit_alu64 0x01 r temp_reg.

Definition gen_load (size : operand_size) (rs1 imm rd : Z) : jit unit :=
  gen_address rs1 imm;;
  r <- map_vm_reg rd;;
  emit_load size temp_reg r 0.

Definition gen_load_sext (size : operand_size) (rs1 imm rd : Z) : jit unit :=
  gen_address rs1 imm;;
  r <- map_vm_reg rd;;
  emit_load_sext size temp_reg r 0.

Definition gen_store (size : operand_size) (rs1 imm rs2 : Z) : jit unit :=
  gen_address rs1 imm;;
  r <- ra_load rs2;;
  emit_store size r temp_reg 0.

Definition gen_lb (ir : rv_insn_t) : jit unit := gen_load_sext S8 ir.(rs1) ir.(imm) ir.(rd).
Definition gen_lh (ir : rv_insn_t) : jit unit := gen_load_sext S16 ir.(rs1) ir.(imm) ir.(rd).
Definition gen_lw (ir : rv_insn_t) : jit unit := gen_load S32 ir.(rs1) ir.(imm) ir.(rd).
Definition gen_lbu (ir : rv_insn_t) : jit unit := gen_load S8 ir.(rs1) ir.(imm) ir.(rd).
Definition gen_lhu (ir : rv_insn_t) : jit unit := gen_load S16 ir.(rs1) ir.(imm) ir.(rd).
Definition gen_sb (ir : rv_insn_t) : jit unit := gen_store S8 ir.(rs1) ir.(imm) ir.(rs2).
Definition gen_sh (ir : rv_insn_t) : jit unit := gen_store S16 ir.(rs1) ir.(imm) ir.(rs2).
Definition gen_sw (ir : rv_insn_t) : jit unit := gen_store S32 ir.(rs1) ir.(imm) ir.(rs2).

(** [X[rd] = X[rs1] op imm] with an operation on the destination register. *)
Definition gen_unary (rs1 rd : Z) (op : Z -> jit unit) : jit unit :=
  r0 <- ra_load rs1;;
  r1 <- map_vm_reg_reserved rd r0;;
  when (negb (r0 =? r1)) (emit_mov r0 r1);;
  op r1.

Definition gen_alu_imm (ext : Z) (ir : rv_insn_t) : jit unit :=
  gen_unary ir.(rs1) ir.(rd) (fun r => emit_alu32_imm32 0x81 ext r ir.(imm)).
Definition gen_shift_imm (ext : Z) (ir : rv_insn_t) : jit unit :=
  gen_unary ir.(rs1) ir.(rd) (fun r => emit_alu32_imm8 0xc1 ext r (ir.(imm) .& 0x1f)).

Definition gen_addi : rv_insn_t -> jit unit := gen_alu_imm 0.
Definition gen_xori : rv_insn_t -> jit unit := gen_alu_imm 6.
Definition gen_ori : rv_insn_t -> jit unit := gen_alu_imm 1.
Definition gen_andi : rv_insn_t -> jit unit := gen_alu_imm 4.
Definition gen_slli : rv_insn_t -> jit unit := gen_shift_imm 4.
Definition gen_srli : rv_insn_t -> jit unit := gen_shift_imm 5.
Definition gen_srai : rv_insn_t -> jit unit := gen_shift_imm 7.

(** [X[rd] = condition]. *)
Definition gen_set (cc r : Z) : jit unit :=
  emit_load_imm r 1;;
  jump_over cc (emit_load_imm r 0).

Definition gen_set_imm (cc : Z) (ir : rv_insn_t) : jit unit :=
  r0 <- ra_load ir.(rs1);;
  emit_cmp_imm32 r0 ir.(imm);;
  r1 <- map_vm_reg_reserved ir.(rd) r0;;
  gen_set cc r1.

Definition gen_slti : rv_insn_t -> jit unit := gen_set_imm 0x8c.
Definition gen_sltiu : rv_insn_t -> jit unit := gen_set_imm 0x82.

(** [X[rd] = X[rs1] op X[rs2]]: the second operand in the scratch register, the
    first in the destination. *)
Definition gen_binary (load : jit (Z * Z)) (rd : Z) (op : Z -> jit unit) : jit unit :=
  r <- load;;
  r2 <- map_vm_reg_reserved2 rd r.1 r.2;;
  emit_mov r.2 temp_reg;;
  emit_mov r.1 r2;;
  op r2.

Definition gen_alu (op : Z) (ir : rv_insn_t) : jit unit :=
  gen_binary (ra_load2 ir.(rs1) ir.(rs2)) ir.(rd) (fun r2 => emit_alu32 op temp_reg r2).

Definition gen_shift (ext : Z) (ir : rv_insn_t) : jit unit :=
  gen_binary (ra_load2 ir.(rs1) ir.(rs2)) ir.(rd) (fun r2 =>
    emit_alu32_imm32 0x81 4 temp_reg 0x1f;;
    emit_alu32 0xd3 ext r2).

Definition gen_set_reg (cc : Z) (ir : rv_insn_t) : jit unit :=
  r <- ra_load2 ir.(rs1) ir.(rs2);;
  r2 <- map_vm_reg_reserved2 ir.(rd) r.1 r.2;;
  emit_cmp32 r.2 r.1;;
  gen_set cc r2.

Definition gen_add : rv_insn_t -> jit unit := gen_alu 0x01.
Definition gen_sub : rv_insn_t -> jit unit := gen_alu 0x29.
Definition gen_sll : rv_insn_t -> jit unit := gen_shift 4.
Definition gen_slt : rv_insn_t -> jit unit := gen_set_reg 0x8c.
Definition gen_sltu : rv_insn_t -> jit unit := gen_set_reg 0x82.
Definition gen_xor : rv_insn_t -> jit unit := gen_alu 0x31.
Definition gen_srl : rv_insn_t -> jit unit := gen_shift 5.
Definition gen_sra : rv_insn_t -> jit unit := gen_shift 7.
Definition gen_or : rv_insn_t -> jit unit := gen_alu 0x09.
Definition gen_and : rv_insn_t -> jit unit := gen_alu 0x21.

(** A call of a service of the emulator. *)
Definition gen_call (pc target : Z) : jit unit :=
  store_back;;
  emit_load_imm temp_reg pc;;
  emit_store S32 temp_reg parameter_reg_0 offsetof_PC;;
  emit_call target;;
  emit_exit.

Definition gen_ecall (ir : rv_insn_t) : jit unit := gen_call ir.(Insn.pc) on_ecall.
Definition gen_ebreak (ir : rv_insn_t) : jit unit := gen_call ir.(Insn.pc) on_ebreak.

(** ** RV32M *)

Definition gen_mul (ir : rv_insn_t) : jit unit :=
  gen_binary (ra_load2 ir.(rs1) ir.(rs2)) ir.(rd) (fun r2 => muldivmod 0x28 temp_reg r2 false).
Definition gen_mulh (ir : rv_insn_t) : jit unit :=
  gen_binary (ra_load2_sext ir.(rs1) ir.(rs2) true true) ir.(rd) (fun r2 =>
    muldivmod 0x2f temp_reg r2 false;; emit_alu64_imm8 0xc1 5 r2 32).
Definition gen_mulhsu (ir : rv_insn_t) : jit unit :=
  gen_binary (ra_load2_sext ir.(rs1) ir.(rs2) true false) ir.(rd) (fun r2 =>
    muldivmod 0x2f temp_reg r2 false;; emit_alu64_imm8 0xc1 5 r2 32).
Definition gen_mulhu (ir : rv_insn_t) : jit unit :=
  gen_binary (ra_load2 ir.(rs1) ir.(rs2)) ir.(rd) (fun r2 =>
    muldivmod 0x2f temp_reg r2 false;; emit_alu64_imm8 0xc1 5 r2 32).
Definition gen_div (ir : rv_insn_t) : jit unit :=
  gen_binary (ra_load2_sext ir.(rs1) ir.(rs2) true true) ir.(rd) (fun r2 => muldivmod 0x38 temp_reg r2 true).
Definition gen_divu (ir : rv_insn_t) : jit unit :=
  gen_binary (ra_load2 ir.(rs1) ir.(rs2)) ir.(rd) (fun r2 => muldivmod 0x38 temp_reg r2 false).
Definition gen_rem (ir : rv_insn_t) : jit unit :=
  gen_binary (ra_load2_sext ir.(rs1) ir.(rs2) true true) ir.(rd) (fun r2 => muldivmod 0x98 temp_reg r2 true).
Definition gen_remu (ir : rv_insn_t) : jit unit :=
  gen_binary (ra_load2 ir.(rs1) ir.(rs2)) ir.(rd) (fun r2 => muldivmod 0x98 temp_reg r2 false).

(** ** RV32C *)

Definition gen_caddi4spn (ir : rv_insn_t) : jit unit :=
  gen_unary rv_reg_sp ir.(rd) (fun r => emit_alu32_imm32 0x81 0 r (u16 ir.(imm))).
Definition gen_clw (ir : rv_insn_t) : jit unit := gen_load S32 ir.(rs1) ir.(imm) ir.(rd).
Definition gen_csw (ir : rv_insn_t) : jit unit := gen_store S32 ir.(rs1) ir.(imm) ir.(rs2).
Definition gen_cnop (ir : rv_insn_t) : jit unit := ret tt.

(** [X[rd] = X[rd] op imm]. *)
Definition gen_update (vm : Z) (op : Z -> jit unit) : jit unit := r <- ra_load vm;; op r.

Definition gen_caddi (ir : rv_insn_t) : jit unit :=
  gen_update ir.(rd) (fun r => emit_alu32_imm32 0x81 0 r (i16 ir.(imm))).
Definition gen_caddi16sp (ir : rv_insn_t) : jit unit :=
  gen_update ir.(rd) (fun r => emit_alu32_imm32 0x81 0 r ir.(imm)).
Definition gen_csrli (ir : rv_insn_t) : jit unit :=
  gen_update ir.(rs1) (fun r => emit_alu32_imm8 0xc1 5 r ir.(shamt)).
Definition gen_csrai (ir : rv_insn_t) : jit unit :=
  gen_update ir.(rs1) (fun r => emit_alu32_imm8 0xc1 7 r ir.(shamt)).
Definition gen_candi (ir : rv_insn_t) : jit unit :=
  gen_update ir.(rs1) (fun r => emit_alu32_imm32 0x81 4 r ir.(imm)).
Definition gen_cslli (ir : rv_insn_t) : jit unit :=
  gen_update ir.(rd) (fun r => emit_alu32_imm8 0xc1 4 r (u8 ir.(imm))).

Definition gen_cjal (ir : rv_insn_t) : jit unit :=
  gen_const rv_reg_ra (ir.(Insn.pc) + 2);;
  store_back;;
  emit_jmp (ir.(Insn.pc) + ir.(imm));;
  gen_leave (ir.(Insn.pc) + ir.(imm)).
Definition gen_cli (ir : rv_insn_t) : jit unit := gen_const ir.(rd) ir.(imm).
Definition gen_clui (ir : rv_insn_t) : jit unit := gen_const ir.(rd) ir.(imm).
Definition gen_csub : rv_insn_t -> jit unit := gen_alu 0x29.
Definition gen_cxor : rv_insn_t -> jit unit := gen_alu 0x31.
Definition gen_cor : rv_insn_t -> jit unit := gen_alu 0x09.
Definition gen_cand : rv_insn_t -> jit unit := gen_alu 0x21.
Definition gen_cadd : rv_insn_t -> jit unit := gen_alu 0x01.

Definition gen_cj (ir : rv_insn_t) : jit unit :=
  store_back;;
  emit_jmp (ir.(Insn.pc) + ir.(imm));;
  gen_leave (ir.(Insn.pc) + ir.(imm)).

Definition gen_cbranch (cc : Z) (ir : rv_insn_t) : jit unit :=
  r <- ra_load ir.(rs1);;
  emit_cmp_imm32 r 0;;
  gen_branch_exits cc ir (ir.(Insn.pc) + 2) (ir.(Insn.pc) + ir.(imm)).

Definition gen_cbeqz : rv_insn_t -> jit unit := gen_cbranch 0x84.
Definition gen_cbnez : rv_insn_t -> jit unit := gen_cbranch 0x85.
Definition gen_clwsp (ir : rv_insn_t) : jit unit := gen_load S32 rv_reg_sp ir.(imm) ir.(rd).
Definition gen_cswsp (ir : rv_insn_t) : jit unit := gen_store S32 rv_reg_sp ir.(imm) ir.(rs2).

Definition gen_cjr (ir : rv_insn_t) : jit unit :=
  r <- ra_load ir.(rs1);;
  emit_mov r temp_reg;;
  gen_indirect ir.

Definition gen_cmv (ir : rv_insn_t) : jit unit :=
  r0 <- ra_load ir.(rs2);;
  r1 <- map_vm_reg_reserved ir.(rd) r0;;
  if negb (r0 =? r1) then emit_mov r0 r1 else set_dirty r1 true.

Definition gen_cebreak (ir : rv_insn_t) : jit unit := gen_call ir.(Insn.pc) on_ebreak.

Definition gen_cjalr (ir : rv_insn_t) : jit unit :=
  r <- ra_load ir.(rs1);;
  emit_mov r temp_reg;;
  gen_const rv_reg_ra (ir.(Insn.pc) + 2);;
  gen_indirect ir.

(** ** Fused instructions *)

(** The loop over [fuse[0 .. imm2-1]]. *)
Definition for_fused (ir : rv_insn_t) (f : opcode_fuse_t -> jit unit) : jit unit :=
  match fused ir with
  | Some l => for_each l f
  | None => fail
  end.

Definition gen_fuse1 (ir : rv_insn_t) : jit unit := for_fused ir (fun f => gen_const f.(f_rd) f.(f_imm)).

Definition gen_fuse2 (ir : rv_insn_t) : jit unit :=
  r0 <- map_vm_reg ir.(rd);;
  emit_load_imm r0 ir.(imm);;
  emit_mov r0 temp_reg;;
  r1 <- ra_load ir.(rs1);;
  r2 <- map_vm_reg_reserved ir.(rs2) r1;;
  emit_mov r1 r2;;
  emit_alu32 0x01 temp_reg r2.

Definition gen_fuse3 (ir : rv_insn_t) : jit unit :=
  for_fused ir (fun f => gen_store S32 f.(f_rs1) f.(f_imm) f.(f_rs2)).
Definition gen_fuse4 (ir : rv_insn_t) : jit unit :=
  for_fused ir (fun f => gen_load S32 f.(f_rs1) f.(f_imm) f.(f_rd)).

Definition gen_fuse5 (ir : rv_insn_t) : jit unit := for_fused ir (fun f =>
  let shift ext := gen_unary f.(f_rs1) f.(f_rd) (fun r => emit_alu32_imm8 0xc1 ext r (f.(f_imm) .& 0x1f)) in
  match f.(f_opcode) with
  | rv_insn_slli => shift 4
  | rv_insn_srli => shift 5
  | rv_insn_srai => shift 7
  | _ => fail
  end).

Definition gen_fuse6 (ir : rv_insn_t) : jit unit :=
  gen_const rv_reg_a7 ir.(imm);;
  gen_call (ir.(Insn.pc) + 4) on_ecall.

Definition gen_fuse7 (ir : rv_insn_t) : jit unit := for_fused ir (fun f =>
  gen_unary f.(f_rs1) f.(f_rd) (fun r => emit_alu32_imm32 0x81 0 r f.(f_imm))).

Definition gen_fuse8 (ir : rv_insn_t) : jit unit := gen_const ir.(rd) (add32 (u32 ir.(imm)) (u32 ir.(imm2))).

Definition gen_fuse9 (ir : rv_insn_t) : jit unit :=
  emit_load_imm_sext temp_reg (ram_addr + add32 (u32 ir.(imm)) (u32 ir.(imm2)));;
  r <- map_vm_reg ir.(rs2);;
  emit_load S32 temp_reg r 0.

Definition gen_fuse10 (ir : rv_insn_t) : jit unit :=
  r <- ra_load ir.(rs1);;
  emit_load_imm_sext temp_reg (ram_addr + add32 (u32 ir.(imm)) (u32 ir.(imm2)));;
  emit_store S32 r temp_reg 0.

Definition gen_fuse11 (ir : rv_insn_t) : jit unit :=
  gen_load S32 ir.(rs1) ir.(imm) ir.(rd);;
  r <- map_vm_reg ir.(rs1);;
  emit_alu32_imm32 0x81 0 r ir.(imm2).

Definition gen_fuse12 (ir : rv_insn_t) : jit unit :=
  r0 <- ra_load ir.(rs1);;
  r1 <- map_vm_reg_reserved ir.(rd) r0;;
  when (negb (r0 =? r1)) (emit_mov r0 r1);;
  emit_alu32_imm32 0x81 0 r1 ir.(imm);;
  emit_cmp_imm32 r1 0;;
  gen_branch_exits 0x85 ir (ir.(Insn.pc) + 8) (ir.(Insn.pc) + 4 + ir.(imm2)).

(** ** Dispatch *)

(** The body of [GEN(inst, ...)]; instructions that are not translatable have
    the body [assert(NULL)]. *)
Definition gen_code (o : opcode_t) : rv_insn_t -> jit unit :=
  match o with
  | rv_insn_nop => gen_nop | rv_insn_lui => gen_lui | rv_insn_auipc => gen_auipc
  | rv_insn_jal => gen_jal | rv_insn_jalr => gen_jalr | rv_insn_beq => gen_beq
  | rv_insn_bne => gen_bne | rv_insn_blt => gen_blt | rv_insn_bge => gen_bge
  | rv_insn_bltu => gen_bltu | rv_insn_bgeu => gen_bgeu | rv_insn_lb => gen_lb
  | rv_insn_lh => gen_lh | rv_insn_lw => gen_lw | rv_insn_lbu => gen_lbu
  | rv_insn_lhu => gen_lhu | rv_insn_sb => gen_sb | rv_insn_sh => gen_sh
  | rv_insn_sw => gen_sw | rv_insn_addi => gen_addi | rv_insn_slti => gen_slti
  | rv_insn_sltiu => gen_sltiu | rv_insn_xori => gen_xori | rv_insn_ori => gen_ori
  | rv_insn_andi => gen_andi | rv_insn_slli => gen_slli | rv_insn_srli => gen_srli
  | rv_insn_srai => gen_srai | rv_insn_add => gen_add | rv_insn_sub => gen_sub
  | rv_insn_sll => gen_sll | rv_insn_slt => gen_slt | rv_insn_sltu => gen_sltu
  | rv_insn_xor => gen_xor | rv_insn_srl => gen_srl | rv_insn_sra => gen_sra
  | rv_insn_or => gen_or | rv_insn_and => gen_and | rv_insn_ecall => gen_ecall
  | rv_insn_ebreak => gen_ebreak | rv_insn_mul => gen_mul | rv_insn_mulh => gen_mulh
  | rv_insn_mulhsu => gen_mulhsu | rv_insn_mulhu => gen_mulhu | rv_insn_div => gen_div
  | rv_insn_divu => gen_divu | rv_insn_rem => gen_rem | rv_insn_remu => gen_remu
  | rv_insn_caddi4spn => gen_caddi4spn | rv_insn_clw => gen_clw | rv_insn_csw => gen_csw
  | rv_insn_cnop => gen_cnop | rv_insn_caddi => gen_caddi | rv_insn_cjal => gen_cjal
  | rv_insn_cli => gen_cli | rv_insn_caddi16sp => gen_caddi16sp | rv_insn_clui => gen_clui
  | rv_insn_csrli => gen_csrli | rv_insn_csrai => gen_csrai | rv_insn_candi => gen_candi
  | rv_insn_csub => gen_csub | rv_insn_cxor => gen_cxor | rv_insn_cor => gen_cor
  | rv_insn_cand => gen_cand | rv_insn_cj => gen_cj | rv_insn_cbeqz => gen_cbeqz
  | rv_insn_cbnez => gen_cbnez | rv_insn_cslli => gen_cslli | rv_insn_clwsp => gen_clwsp
  | rv_insn_cjr => gen_cjr | rv_insn_cmv => gen_cmv | rv_insn_cebreak => gen_cebreak
  | rv_insn_cjalr => gen_cjalr | rv_insn_cadd => gen_cadd | rv_insn_cswsp => gen_cswsp
  | rv_insn_fuse1 => gen_fuse1 | rv_insn_fuse2 => gen_fuse2 | rv_insn_fuse3 => gen_fuse3
  | rv_insn_fuse4 => gen_fuse4 | rv_insn_fuse5 => gen_fuse5 | rv_insn_fuse6 => gen_fuse6
  | rv_insn_fuse7 => gen_fuse7 | rv_insn_fuse8 => gen_fuse8 | rv_insn_fuse9 => gen_fuse9
  | rv_insn_fuse10 => gen_fuse10 | rv_insn_fuse11 => gen_fuse11 | rv_insn_fuse12 => gen_fuse12
  | _ => fun _ => fail
  end.

(** [do_inst]: the [GEN] macro counts the instruction, the fused ones are
    written without it. *)
Definition gen_insn (ir : rv_insn_t) : jit unit :=
  match ir.(opcode) with
  | rv_insn_fuse1 | rv_insn_fuse2 | rv_insn_fuse3 | rv_insn_fuse4 | rv_insn_fuse5 | rv_insn_fuse6
  | rv_insn_fuse7 | rv_insn_fuse8 | rv_insn_fuse9 | rv_insn_fuse10 | rv_insn_fuse11 | rv_insn_fuse12 =>
      gen_code ir.(opcode) ir
  | _ => emit_jit_inc_timer;; gen_code ir.(opcode) ir
  end.

(** * Translation of a block *)

(** The vm registers whose liveness an instruction extends. *)
Definition reads (ir : rv_insn_t) : option (list Z) :=
  match ir.(opcode) with
  | rv_insn_nop | rv_insn_lui | rv_insn_auipc | rv_insn_jal | rv_insn_ecall | rv_insn_ebreak
  | rv_insn_cnop | rv_insn_cjal | rv_insn_cli | rv_insn_clui | rv_insn_cj | rv_insn_cebreak
  | rv_insn_fuse6 | rv_insn_fuse8 | rv_insn_fuse9 => Some []
  | rv_insn_jalr | rv_insn_lb | rv_insn_lh | rv_insn_lw | rv_insn_lbu | rv_insn_lhu
  | rv_insn_addi | rv_insn_slti | rv_insn_sltiu | rv_insn_xori | rv_insn_ori | rv_insn_andi
  | rv_insn_slli | rv_insn_srli | rv_insn_srai | rv_insn_clw | rv_insn_csrli | rv_insn_csrai
  | rv_insn_candi | rv_insn_cbeqz | rv_insn_cbnez | rv_insn_cjr | rv_insn_cjalr | rv_insn_fuse2
  | rv_insn_fuse10 | rv_insn_fuse11 | rv_insn_fuse12 => Some [ir.(rs1)]
  | rv_insn_beq | rv_insn_bne | rv_insn_blt | rv_insn_bge | rv_insn_bltu | rv_insn_bgeu
  | rv_insn_sb | rv_insn_sh | rv_insn_sw | rv_insn_add | rv_insn_sub | rv_insn_sll | rv_insn_slt
  | rv_insn_sltu | rv_insn_xor | rv_insn_srl | rv_insn_sra | rv_insn_or | rv_insn_and
  | rv_insn_mul | rv_insn_mulh | rv_insn_mulhsu | rv_insn_mulhu | rv_insn_div | rv_insn_divu
  | rv_insn_rem | rv_insn_remu | rv_insn_csw | rv_insn_csub | rv_insn_cxor | rv_insn_cor
  | rv_insn_cand | rv_insn_cadd => Some [ir.(rs1); ir.(rs2)]
  | rv_insn_caddi4spn | rv_insn_clwsp => Some [rv_reg_sp]
  | rv_insn_caddi | rv_insn_caddi16sp | rv_insn_cslli => Some [ir.(rd)]
  | rv_insn_cmv => Some [ir.(rs2)]
  | rv_insn_cswsp => Some [rv_reg_sp; ir.(rs2)]
  | rv_insn_fuse1 => let? l := fused ir in Some (f_rd <$> l)
  | rv_insn_fuse3 => let? l := fused ir in Some (l ≫= fun f => [f.(f_rs1); f.(f_rs2)])
  | rv_insn_fuse4 | rv_insn_fuse5 | rv_insn_fuse7 => let? l := fused ir in Some (f_rs1 <$> l)
  | _ => None
  end.

Fixpoint liveness_loop (idx : Z) (irs : list rv_insn_t) (live : list Z) : option (list Z) :=
  match irs with
  | [] => Some live
  | ir :: irs =>
      let? regs := reads ir in
      liveness_loop (idx + 1) irs (fold_left (fun l r => <[Z.to_nat r := idx]> l) regs live)
  end.

(** [liveness_cmp] orders by liveness, then by register; [qsort] of distinct
    registers by it gives the sorted list. *)
Definition liveness_le (live : list Z) (a b : Z) : bool :=
  let la := live !!! Z.to_nat a in
  let lb := live !!! Z.to_nat b in
  (la <? lb) || ((la =? lb) && (a <=? b)).

Fixpoint insert_by (le : Z -> Z -> bool) (a : Z) (l : list Z) : list Z :=
  match l with
  | [] => [a]
  | b :: l => if le a b then a :: b :: l else b :: insert_by le a l
  end.

Definition sort_by (le : Z -> Z -> bool) (l : list Z) : list Z := foldr (insert_by le) [] l.

Definition liveness_calc (irs : list rv_insn_t) : jit unit := fun s =>
  let? live := liveness_loop 0 irs (replicate 32 (-1)) in
  Some (tt, set_candidate_queue (sort_by (liveness_le live) (seqZ 0 N_RV_REGS)) (set_liveness live s)).

Fixpoint translate_irs (idx : Z) (irs : list rv_insn_t) : jit unit :=
  match irs with
  | [] => ret tt
  | ir :: irs =>
      regs_refresh idx;;
      gen_insn ir;;
      translate_irs (idx + 1) irs
  end.

Definition translate (irs : list rv_insn_t) : jit unit :=
  reset_reg;;
  liveness_calc irs;;
  translate_irs 0 irs.
End Gen.

(** The state [jit_state_init] leaves, before any block is translated. *)
Definition jit_init : jit_state :=
  mk_jit [] ((fun r => mk_host_reg r (-1) false false) <$> map_regs) [] [].
