(* ===== verification/JitAlloc.v ===== *)
(** The register allocator of the JIT compiler: its invariant, and that every
    operation of it emits code that keeps the guest registers, wherever they
    are held, in step with the guest state. *)

From stdpp Require Import base list option numbers gmap.
From Stdlib Require Import ZArith Lia Bool.
From S2P Require Import Prelude Bits Insn Decode Mem State Trap Csr Fp Alu Exec ExecWf Equiv Late Block X64 Jit.
#[local] Open Scope Z_scope.
#[local] Open Scope jit_scope.

(** * The register map *)

Record map_ok (m : list host_reg) : Prop := {
  mo_regs : reg_idx <$> m = map_regs;
  mo_range : forall i e, m !! i = Some e -> e.(vm_reg_idx) = -1 \/ 0 <= e.(vm_reg_idx) < 32;
  mo_unique : forall i j e f, m !! i = Some e -> m !! j = Some f ->
    e.(vm_reg_idx) = f.(vm_reg_idx) -> e.(vm_reg_idx) <> -1 -> i = j;
  mo_alive : forall i e, m !! i = Some e -> e.(alive) = true -> e.(vm_reg_idx) <> -1;
  mo_dirty : forall i e, m !! i = Some e -> e.(dirty) = true -> e.(vm_reg_idx) <> -1 }.

(** The vm register is held in the host register. *)
Definition mapped (m : list host_reg) (vm r : Z) : Prop :=
  exists i e, m !! i = Some e /\ e.(vm_reg_idx) = vm /\ e.(reg_idx) = r.

Definition unmapped (m : list host_reg) (vm : Z) : Prop :=
  forall i e, m !! i = Some e -> e.(vm_reg_idx) <> vm.

Lemma map_regs_nodup : NoDup map_regs.
Proof. apply (bool_decide_unpack _). by vm_compute. Qed.

Section Map.
Context (m : list host_reg) (Hm : map_ok m).

Lemma entry_reg (i : nat) (e : host_reg) : m !! i = Some e -> map_regs !! i = Some e.(reg_idx).
Proof. intros He. rewrite <- (mo_regs _ Hm), list_lookup_fmap. by rewrite He. Qed.

Lemma entry_by_reg (i j : nat) (e f : host_reg) :
  m !! i = Some e -> m !! j = Some f -> e.(reg_idx) = f.(reg_idx) -> i = j.
Proof.
  intros He Hf E. apply entry_reg in He. apply entry_reg in Hf. rewrite E in He.
  exact (NoDup_lookup _ _ _ _ map_regs_nodup He Hf).
Qed.

Lemma reg_range (i : nat) (e : host_reg) : m !! i = Some e -> e.(reg_idx) ∈ map_regs.
Proof. intros He%entry_reg. by eapply list_elem_of_lookup_2. Qed.

Lemma mapped_reg (vm r : Z) : mapped m vm r -> r ∈ map_regs.
Proof. intros (i & e & He & _ & <-). by eapply reg_range. Qed.

Lemma mapped_inj (vm r r' : Z) : vm <> -1 -> mapped m vm r -> mapped m vm r' -> r = r'.
Proof.
  intros Hv (i & e & He & Ev & <-) (j & f & Hf & Fv & <-).
  assert (i = j) as <- by (eapply (mo_unique _ Hm); [exact He|exact Hf|congruence|congruence]). congruence.
Qed.

Lemma mapped_fun (vm vm' r : Z) : mapped m vm r -> mapped m vm' r -> vm = vm'.
Proof.
  intros (i & e & He & <- & Er) (j & f & Hf & <- & Fr).
  assert (i = j) as <- by (eapply entry_by_reg; [exact He|exact Hf|congruence]). congruence.
Qed.

Lemma find_index_spec (p : host_reg -> bool) (l : list host_reg) :
  match find_index p l with
  | Some i => exists e, l !! i = Some e /\ p e = true /\ forall j f, (j < i)%nat -> l !! j = Some f -> p f = false
  | None => forall j f, l !! j = Some f -> p f = false
  end.
Proof.
  induction l as [|e l IH]; cbn [find_index]; [done|]. destruct (p e) eqn:Ep.
  - exists e. split; [done|]. split; [done|]. intros j f Hj. lia.
  - destruct (find_index p l) as [i|]; cbn [fmap option_fmap option_map].
    + destruct IH as (f & Hf & Hp & Hb). exists f. split; [done|]. split; [done|].
      intros [|j] g Hj Hg; [by injection Hg as <-|]. apply (Hb j); [lia|done].
    + intros [|j] f Hf; [by injection Hf as <-|]. by apply (IH j).
Qed.

Lemma find_mapped (vm r : Z) : vm <> -1 -> mapped m vm r -> find_vm_reg vm m = Some r.
Proof.
  intros Hv Hr. unfold find_vm_reg. pose proof (find_index_spec (fun r => r.(vm_reg_idx) =? vm) m) as Hf.
  destruct (find_index _ m) as [i|].
  - destruct Hf as (e & He & Ev & _). rewrite He. cbn [fmap option_fmap option_map]. f_equal.
    apply Z.eqb_eq in Ev. eapply mapped_inj; [exact Hv| |exact Hr]. by exists i, e.
  - destruct Hr as (i & e & He & Ev & _). specialize (Hf i e He). cbv beta in Hf. by apply Z.eqb_neq in Hf.
Qed.

Lemma find_unmapped (vm : Z) : unmapped m vm -> find_vm_reg vm m = None.
Proof.
  intros Hu. unfold find_vm_reg. pose proof (find_index_spec (fun r => r.(vm_reg_idx) =? vm) m) as Hf.
  destruct (find_index _ m) as [i|]; [|done]. destruct Hf as (e & He & Ev & _). apply Z.eqb_eq in Ev. by apply Hu in He.
Qed.

Lemma mapped_dec (vm : Z) : (exists r, mapped m vm r) \/ unmapped m vm.
Proof.
  pose proof (find_index_spec (fun r => r.(vm_reg_idx) =? vm) m) as Hf. destruct (find_index _ m) as [i|].
  - left. destruct Hf as (e & He & Ev & _). apply Z.eqb_eq in Ev. exists e.(reg_idx), i, e. done.
  - right. intros i e He. specialize (Hf i e He). by apply Z.eqb_neq in Hf.
Qed.
End Map.

(** The last register that holds a vm register. *)
Lemma origin_spec (vm : Z) (l : list host_reg) (o : Z) :
  let r := fold_left (fun o r => if r.(vm_reg_idx) =? vm then r.(reg_idx) else o) l o in
  (unmapped l vm /\ r = o) \/ mapped l vm r.
Proof.
  revert o. induction l as [|e l IH]; intros o; cbn [fold_left].
  { left. by split; [intros i e|]. }
  cbv zeta in IH |- *. destruct (IH (if vm_reg_idx e =? vm then reg_idx e else o)) as [[Hu E]|(i & f & Hf & Hv & Hr)].
  - destruct (Z.eqb_spec (vm_reg_idx e) vm) as [Ev|Ev].
    + right. exists 0%nat, e. split; [done|]. split; [done|]. by rewrite E.
    + left. split; [|done]. intros [|i] f Hf; [by injection Hf as <-|]. by apply (Hu i).
  - right. by exists (S i), f.
Qed.

Lemma origin_mapped (m : list host_reg) (vm r : Z) :
  map_ok m -> vm <> -1 -> mapped m vm r -> origin_of vm m = r.
Proof.
  intros Hm Hv Hr. unfold origin_of. destruct (origin_spec vm m (-1)) as [[Hu _]|Ho].
  - destruct Hr as (i & e & He & Ev & _). by destruct (Hu i e He).
  - by eapply mapped_inj.
Qed.

Lemma origin_unmapped (m : list host_reg) (vm : Z) : unmapped m vm -> origin_of vm m = -1.
Proof.
  intros Hu. unfold origin_of. destruct (origin_spec vm m (-1)) as [[_ E]|(i & e & He & Ev & _)]; [done|].
  by destruct (Hu i e He).
Qed.

(** * Changes of the map *)

Lemma alter_first_at (m : list host_reg) (f : host_reg -> host_reg) (i : nat) (e : host_reg) :
  map_ok m -> m !! i = Some e -> alter_first (fun r => r.(reg_idx) =? e.(reg_idx)) f m = alter f i m.
Proof.
  intros Hm He.
  assert (Hall : forall j g, m !! j = Some g -> (reg_idx g =? reg_idx e) = bool_decide (j = i)).
  { intros j g Hg. destruct (Z.eqb_spec (reg_idx g) (reg_idx e)) as [E|E].
    - symmetry. apply bool_decide_eq_true. by eapply entry_by_reg.
    - symmetry. apply bool_decide_eq_false. intros ->. rewrite He in Hg. by injection Hg as <-. }
  clear Hm. revert i He Hall. generalize (reg_idx e). intros r. induction m as [|g l IH]; intros i He Hall; [done|].
  cbn [alter_first]. rewrite (Hall 0%nat g eq_refl). destruct i as [|i]; [done|]. cbn. f_equal. apply (IH i); [done|].
  intros j g' Hg. rewrite (Hall (S j) g' Hg). apply bool_decide_ext. lia.
Qed.

Lemma alter_first_none (m : list host_reg) (f : host_reg -> host_reg) (r : Z) :
  map_ok m -> r ∉ map_regs -> alter_first (fun e => e.(reg_idx) =? r) f m = m.
Proof.
  intros Hm Hr. assert (Hall : forall j g, m !! j = Some g -> reg_idx g <> r).
  { intros j g Hg E. apply Hr. rewrite <- E. by eapply reg_range. }
  clear Hm. induction m as [|g l IH]; [done|]. cbn [alter_first].
  rewrite (proj2 (Z.eqb_neq _ _) (Hall 0%nat g eq_refl)). f_equal. apply IH. intros j g' Hg. by apply (Hall (S j)).
Qed.

Definition keeps_reg (f : host_reg -> host_reg) : Prop := forall e, (f e).(reg_idx) = e.(reg_idx).

Lemma alter_cases (m : list host_reg) (f : host_reg -> host_reg) (i j : nat) (e : host_reg) :
  alter f i m !! j = Some e ->
  exists e0, m !! j = Some e0 /\ e = (if decide (j = i) then f e0 else e0).
Proof.
  destruct (decide (j = i)) as [->|Hne].
  - rewrite list_lookup_alter_eq. intros (e0 & He & ->)%fmap_Some. by exists e0.
  - rewrite list_lookup_alter_ne by done. by exists e.
Qed.

Lemma alter_regs (m : list host_reg) (f : host_reg -> host_reg) (i : nat) :
  keeps_reg f -> reg_idx <$> alter f i m = reg_idx <$> m.
Proof.
  intros Hf. apply list_eq. intros j. rewrite !list_lookup_fmap. destruct (decide (j = i)) as [->|Hne].
  - rewrite list_lookup_alter_eq. destruct (m !! i); [|done]. cbn. by rewrite Hf.
  - by rewrite list_lookup_alter_ne.
Qed.

(** Changing the dirty bit of an entry. *)
Lemma map_ok_dirty (m : list host_reg) (i : nat) (b : bool) :
  map_ok m -> (b = true -> forall e, m !! i = Some e -> e.(vm_reg_idx) <> -1) ->
  map_ok (alter (set_dirty_bit b) i m).
Proof.
  intros Hm Hb. constructor.
  - rewrite alter_regs by done. apply Hm.
  - intros j e He. destruct (alter_cases _ _ _ _ _ He) as (e0 & He0 & ->). case_decide; exact (mo_range _ Hm j e0 He0).
  - intros j k e f He Hf. destruct (alter_cases _ _ _ _ _ He) as (e0 & He0 & ->).
    destruct (alter_cases _ _ _ _ _ Hf) as (f0 & Hf0 & ->). intros E Hn.
    assert (vm_reg_idx e0 = vm_reg_idx f0) by (by repeat case_decide).
    apply (mo_unique _ Hm j k e0 f0); [done|done|done|by case_decide].
  - intros j e He. destruct (alter_cases _ _ _ _ _ He) as (e0 & He0 & ->). intros Ha.
    case_decide; exact (mo_alive _ Hm j e0 He0 Ha).
  - intros j e He. destruct (alter_cases _ _ _ _ _ He) as (e0 & He0 & ->). case_decide as Hd.
    + cbn [dirty set_dirty_bit vm_reg_idx]. intros ->. subst j. by apply Hb.
    + intros Hdi. by apply (mo_dirty _ Hm j).
Qed.

(** Giving an entry to another vm register. *)
Definition assign (vm : Z) (e : host_reg) : host_reg := set_alive true (set_vm_reg_idx vm (set_vm_reg_idx (-1) e)).

Lemma map_ok_assign (m : list host_reg) (i : nat) (vm : Z) :
  map_ok m -> 0 <= vm < 32 -> unmapped m vm -> map_ok (alter (assign vm) i m).
Proof.
  intros Hm Hv Hu. constructor.
  - rewrite alter_regs by done. apply Hm.
  - intros j e He. destruct (alter_cases _ _ _ _ _ He) as (e0 & He0 & ->). case_decide; [by right|].
    by apply (mo_range _ Hm j).
  - intros j k e f He Hf. destruct (alter_cases _ _ _ _ _ He) as (e0 & He0 & ->).
    destruct (alter_cases _ _ _ _ _ Hf) as (f0 & Hf0 & ->). intros E Hn.
    repeat case_decide; cbn [assign set_alive set_vm_reg_idx vm_reg_idx] in E, Hn; try congruence.
    + by destruct (Hu k f0 Hf0).
    + by destruct (Hu j e0 He0).
    + by apply (mo_unique _ Hm j k e0 f0).
  - intros j e He. destruct (alter_cases _ _ _ _ _ He) as (e0 & He0 & ->). case_decide; [|by apply (mo_alive _ Hm j)].
    cbn. lia.
  - intros j e He. destruct (alter_cases _ _ _ _ _ He) as (e0 & He0 & ->). case_decide; [|by apply (mo_dirty _ Hm j)].
    cbn. lia.
Qed.

(** [reset_reg] and [regs_refresh]. *)
Lemma map_ok_reset (m : list host_reg) :
  reg_idx <$> m = map_regs -> map_ok ((fun r => mk_host_reg r.(reg_idx) (-1) false false) <$> m).
Proof.
  intros Hr. constructor.
  - rewrite <- list_fmap_compose. exact Hr.
  - intros i e He. apply list_lookup_fmap_Some in He as (e0 & -> & _). by left.
  - intros i j e f He _ _ Hn. apply list_lookup_fmap_Some in He as (e0 & -> & _). by destruct Hn.
  - intros i e He. by apply list_lookup_fmap_Some in He as (e0 & -> & _).
  - intros i e He. by apply list_lookup_fmap_Some in He as (e0 & -> & _).
Qed.

(** Ending the life of some entries. *)
Lemma map_ok_kill (m : list host_reg) (p : host_reg -> bool) :
  map_ok m -> map_ok ((fun r => if p r then set_alive false r else r) <$> m).
Proof.
  intros Hm. set (k := fun r => if p r then set_alive false r else r).
  assert (Hk : forall e, reg_idx (k e) = reg_idx e /\ vm_reg_idx (k e) = vm_reg_idx e /\ dirty (k e) = dirty e /\
    (alive (k e) = true -> alive e = true)) by (intros e; unfold k; by destruct (p e)).
  constructor.
  - rewrite <- (mo_regs _ Hm), <- list_fmap_compose. apply list_fmap_ext. intros i e _. apply Hk.
  - intros i e He. apply list_lookup_fmap_Some in He as (e0 & -> & He0). destruct (Hk e0) as (_ & -> & _).
    by apply (mo_range _ Hm i).
  - intros i j e f He Hf. apply list_lookup_fmap_Some in He as (e0 & -> & He0).
    apply list_lookup_fmap_Some in Hf as (f0 & -> & Hf0). destruct (Hk e0) as (_ & -> & _), (Hk f0) as (_ & -> & _).
    by apply (mo_unique _ Hm).
  - intros i e He. apply list_lookup_fmap_Some in He as (e0 & -> & He0). destruct (Hk e0) as (_ & -> & _ & Ha).
    intros H1%Ha. by apply (mo_alive _ Hm i).
  - intros i e He. apply list_lookup_fmap_Some in He as (e0 & -> & He0). destruct (Hk e0) as (_ & -> & -> & _).
    by apply (mo_dirty _ Hm i).
Qed.

(** * Host memory *)

(** The emulator state and the guest RAM are apart, and inside the address
    space; the RAM is below the kernel half. *)
Class HostEnvOk `{HostEnv} : Prop := {
  heo_rv : 0 <= rv_addr /\ rv_addr + 2192 <= 2 ^ 64;
  heo_ram : 0 <= ram_addr /\ ram_addr + 2 ^ 33 <= 2 ^ 63;
  heo_apart : rv_addr + 2192 <= ram_addr \/ ram_addr + 2 ^ 32 <= rv_addr;
}.

Section Memory.
Context `{HostEnvOk}.

Lemma x_addr_u64 (vm : Z) : 0 <= vm < 32 -> u64 (rv_addr + (offsetof_X + 4 * vm)) = rv_addr + offsetof_X + 4 * vm.
Proof. intros Hv. destruct heo_rv. unfold u64, offsetof_X. rewrite Z.mod_small; lia. Qed.

Lemma in_ram_bounds (m : memory_t) (a n : Z) :
  in_ram m a n = true -> ram_addr <= a /\ a - ram_addr < m.(mem_size) /\ n <= m.(mem_size) - (a - ram_addr).
Proof. unfold in_ram, GUEST_RAM_CONTAINS. intros Hi. lia. Qed.

Lemma field_not_ram (m : memory_t) (d n : Z) :
  m.(mem_size) <= 2 ^ 32 -> 0 <= d -> d + n <= 2192 -> 0 < n -> in_ram m (rv_addr + d) n = false.
Proof.
  intros Hs Hd Hn Hp. destruct (in_ram m (rv_addr + d) n) eqn:E; [|done]. apply in_ram_bounds in E.
  destruct heo_apart; lia.
Qed.

Lemma x_index_at (vm : Z) : 0 <= vm < 32 -> x_index (rv_addr + offsetof_X + 4 * vm) = Some vm.
Proof.
  intros Hv. unfold x_index. replace (rv_addr + offsetof_X + 4 * vm - (rv_addr + offsetof_X)) with (vm * 4) by lia.
  rewrite Z.mod_mul, Z.div_mul by lia. by rewrite (proj2 (Z.leb_le _ _)), (proj2 (Z.ltb_lt _ _)) by lia.
Qed.

Lemma x_index_pc : x_index (rv_addr + offsetof_PC) = None.
Proof.
  unfold x_index, offsetof_PC, offsetof_X. replace (rv_addr + 132 - (rv_addr + 4)) with 128 by lia. done.
Qed.

Lemma load_x (vm : Z) (h : host) :
  0 <= vm < 32 -> h.(hrv).(mem).(mem_size) <= 2 ^ 32 ->
  hload 4 (rv_addr + offsetof_X + 4 * vm) h = Some (xreg h.(hrv) vm).
Proof.
  intros Hv Hs. unfold hload. rewrite <- Z.add_assoc, field_not_ram by (unfold offsetof_X; lia).
  cbn [Nat.eqb negb]. by rewrite Z.add_assoc, x_index_at.
Qed.

Lemma store_x (vm v : Z) (h : host) :
  0 <= vm < 32 -> h.(hrv).(mem).(mem_size) <= 2 ^ 32 ->
  hstore 4 (rv_addr + offsetof_X + 4 * vm) v h = Some (set_hrv (set_xreg vm (u32 v) h.(hrv)) h).
Proof.
  intros Hv Hs. unfold hstore. rewrite <- Z.add_assoc, field_not_ram by (unfold offsetof_X; lia).
  cbn [Nat.eqb negb]. by rewrite Z.add_assoc, x_index_at.
Qed.

Lemma store_pc (v : Z) (h : host) :
  h.(hrv).(mem).(mem_size) <= 2 ^ 32 ->
  hstore 4 (u64 (rv_addr + offsetof_PC)) v h = Some (set_hrv (set_PC (u32 v) h.(hrv)) h).
Proof.
  intros Hs. destruct heo_rv. unfold u64, offsetof_PC. rewrite Z.mod_small by lia. unfold hstore.
  rewrite field_not_ram by lia. cbn [Nat.eqb negb].
  pose proof x_index_pc as E. unfold offsetof_PC in E. rewrite E. by rewrite Z.eqb_refl.
Qed.
End Memory.

(** * Generated code and guest state *)

(** What code generation does not touch: everything but the registers, the
    program counter, the cycle count, the timer and the statistics. *)
Definition core (rv : riscv) : riscv := erase (set_timer 0 (set_X [] (late 0 0 rv))).

Section Sim.
Context `{HostEnvOk}.

(** The guest registers of [g] are in the host registers they are mapped to,
    except for those in [hole]; the emulator state has the others and those
    that are not dirty. *)
Record sim (hole : Z -> Prop) (stk : list slot) (m : list host_reg) (g : riscv) (h : host) : Prop := {
  sm_rdi : h.(hregs) RDI = rv_addr;
  sm_stack : h.(hstack) = stk;
  sm_core : core h.(hrv) = core g;
  sm_length : length h.(hrv).(X) = 32%nat;
  sm_zero : xreg h.(hrv) 0 = 0;
  sm_mapped : forall i e, m !! i = Some e -> e.(vm_reg_idx) <> -1 -> ~ hole e.(vm_reg_idx) ->
    h.(hregs) e.(reg_idx) = xreg g e.(vm_reg_idx);
  sm_clean : forall i e, m !! i = Some e -> e.(vm_reg_idx) <> -1 -> e.(dirty) = false ->
    xreg h.(hrv) e.(vm_reg_idx) = xreg g e.(vm_reg_idx);
  sm_unmapped : forall v, 0 <= v < 32 -> unmapped m v -> xreg h.(hrv) v = xreg g v }.

Definition nohole : Z -> Prop := fun _ => False.

(** The static part: the map is well-formed and every vm register is a
    candidate for eviction. *)
Record st_ok (s : jit_state) : Prop := {
  so_map_ok : map_ok s.(register_map);
  so_queue : forall v, 0 <= v < 32 -> v ∈ s.(candidate_queue) }.

(** [mo] generates code that takes a host state satisfying [P] to one
    satisfying [Q]; [S] and [T] are about the state of the generator. *)
Definition gens {A} (S : jit_state -> Prop) (P : jit_state -> host -> Prop) (mo : jit A)
    (T : A -> jit_state -> Prop) (Q : A -> jit_state -> host -> Prop) : Prop :=
  forall s, S s -> exists a s' seg, mo s = Some (a, s') /\ s'.(code) = s.(code) ++ seg /\ T a s' /\
    forall h, P s h -> exists h', hrun 0 seg h = Fell 0 h' /\ Q a s' h'.

Lemma gens_bind {A B} (S : jit_state -> Prop) (P : jit_state -> host -> Prop) (mo : jit A) (k : A -> jit B)
    (T : A -> jit_state -> Prop) (Q : A -> jit_state -> host -> Prop)
    (T' : B -> jit_state -> Prop) (Q' : B -> jit_state -> host -> Prop) :
  gens S P mo T Q -> (forall a, gens (T a) (Q a) (k a) T' Q') -> gens S P (bind mo k) T' Q'.
Proof.
  intros Hm Hk s Hs. destruct (Hm s Hs) as (a & s1 & seg1 & E1 & C1 & T1 & R1).
  destruct (Hk a s1 T1) as (b & s2 & seg2 & E2 & C2 & T2 & R2).
  exists b, s2, (seg1 ++ seg2). split; [unfold bind; by rewrite E1|]. split; [by rewrite C2, C1, app_assoc|].
  split; [done|]. intros h Hp. destruct (R1 h Hp) as (h1 & X1 & Q1). destruct (R2 h1 Q1) as (h2 & X2 & Q2).
  exists h2. split; [by rewrite hrun_app, X1|done].
Qed.

Lemma gens_ret {A} (S : jit_state -> Prop) (P : jit_state -> host -> Prop) (a : A)
    (T : A -> jit_state -> Prop) (Q : A -> jit_state -> host -> Prop) :
  (forall s, S s -> T a s) -> (forall s h, S s -> P s h -> Q a s h) -> gens S P (ret a) T Q.
Proof.
  intros HT HQ s Hs. exists a, s, []. split; [done|]. split; [by rewrite app_nil_r|]. split; [by apply HT|].
  intros h Hp. exists h. split; [done|by apply HQ].
Qed.

Lemma gens_pre {A} (S S' : jit_state -> Prop) (P P' : jit_state -> host -> Prop) (mo : jit A)
    (T : A -> jit_state -> Prop) (Q : A -> jit_state -> host -> Prop) :
  (forall s, S s -> S' s) -> (forall s h, S s -> P s h -> P' s h) -> gens S' P' mo T Q -> gens S P mo T Q.
Proof.
  intros HS HP Hm s Hs. destruct (Hm s (HS s Hs)) as (a & s' & seg & E & C & HT & HQ).
  exists a, s', seg. split; [done|]. split; [done|]. split; [done|]. intros h Hp. by apply HQ, HP.
Qed.

Lemma gens_post {A} (S : jit_state -> Prop) (P : jit_state -> host -> Prop) (mo : jit A)
    (T T' : A -> jit_state -> Prop) (Q Q' : A -> jit_state -> host -> Prop) :
  gens S P mo T Q -> (forall a s, T a s -> T' a s) -> (forall a s h, T a s -> Q a s h -> Q' a s h) ->
  gens S P mo T' Q'.
Proof.
  intros Hm HT HQ s Hs. destruct (Hm s Hs) as (a & s' & seg & E & C & Ht & Hq).
  exists a, s', seg. split; [done|]. split; [done|]. split; [by apply HT|].
  intros h Hp. destruct (Hq h Hp) as (h' & X & Hq'). exists h'. split; [done|by apply HQ].
Qed.

(** ** Saving a register *)

Lemma holds_x0_entry (m : list host_reg) (i : nat) (e : host_reg) :
  map_ok m -> m !! i = Some e -> holds_x0 e.(reg_idx) m = (e.(vm_reg_idx) =? 0).
Proof.
  intros Hm He. unfold holds_x0. destruct (Z.eqb_spec e.(vm_reg_idx) 0) as [Ev|Ev].
  - apply existsb_exists. exists e. split; [by apply list_elem_of_In, (list_elem_of_lookup_2 _ i)|].
    by rewrite Z.eqb_refl, Ev.
  - apply not_true_is_false. intros (f & Hin & Hf)%existsb_exists. apply list_elem_of_In, list_elem_of_lookup in Hin as (j & Hj).
    apply andb_prop in Hf as [Hr Hv]. apply Z.eqb_eq in Hr, Hv.
    assert (j = i) as -> by (by eapply entry_by_reg). congruence.
Qed.

Lemma holds_x0_other (m : list host_reg) (r : Z) : map_ok m -> r ∉ map_regs -> holds_x0 r m = false.
Proof.
  intros Hm Hr. apply not_true_is_false. intros (f & Hin & Hf)%existsb_exists.
  apply list_elem_of_In, list_elem_of_lookup in Hin as (j & Hj). apply andb_prop in Hf as [Hq _]. apply Z.eqb_eq in Hq.
  apply Hr. rewrite <- Hq. by eapply reg_range.
Qed.

(** The instruction that saves an entry. *)
Definition save_insn (e : host_reg) : hinsn :=
  if e.(vm_reg_idx) =? 0 then Store_zero S32 parameter_reg_0 (offsetof_X + 4 * e.(vm_reg_idx))
  else Store S32 e.(reg_idx) parameter_reg_0 (offsetof_X + 4 * e.(vm_reg_idx)).

Lemma alter_alter_dirty (m : list host_reg) (i : nat) (b c : bool) :
  alter (set_dirty_bit b) i (alter (set_dirty_bit c) i m) = alter (set_dirty_bit b) i m.
Proof. rewrite list_alter_alter_eq. by apply list_alter_ext. Qed.

Lemma save_reg_eq (s : jit_state) (i : nat) (e : host_reg) :
  st_ok s -> s.(register_map) !! i = Some e ->
  save_reg i s = Some (tt, if e.(dirty)
    then mk_jit (s.(code) ++ [save_insn e]) (alter (set_dirty_bit false) i s.(register_map)) s.(liveness) s.(candidate_queue)
    else s).
Proof.
  intros [Hm _] He. destruct s as [c m l q]. cbn [register_map] in *. unfold save_reg, bind, entry. cbn [register_map].
  rewrite He. destruct (dirty e) eqn:Hd; [|done].
  assert (Hv : vm_reg_idx e <> -1) by (by apply (mo_dirty _ Hm i)).
  destruct (mo_range _ Hm i e He) as [|Hr]; [done|].
  unfold emit_store, bind, gets. cbn [register_map]. rewrite (holds_x0_entry m i e Hm He). unfold save_insn.
  assert (Ho : (offsetof_X + 4 * vm_reg_idx e =? 0) = false) by (apply Z.eqb_neq; unfold offsetof_X; lia).
  destruct (vm_reg_idx e =? 0); unfold emit, set_dirty, alter_entry, modify, set_code, set_register_map, when;
    cbn [code register_map liveness candidate_queue]; rewrite ?Ho; cbn [negb code register_map liveness candidate_queue];
    rewrite (alter_first_at m _ i e Hm He), alter_alter_dirty; done.
Qed.

Lemma core_fields (rv g : riscv) : core rv = core g -> rv.(mem) = g.(mem) /\ rv.(halt) = g.(halt).
Proof. intros E. split; [exact (f_equal mem E)|exact (f_equal halt E)]. Qed.

Lemma core_set_xreg (i v : Z) (rv : riscv) : core (set_xreg i v rv) = core rv.
Proof. reflexivity. Qed.

Lemma core_set_PC (v : Z) (rv : riscv) : core (set_PC v rv) = core rv.
Proof. reflexivity. Qed.

Lemma length_set_xreg (i v : Z) (rv : riscv) : length (set_xreg i v rv).(X) = length rv.(X).
Proof. apply length_insert. Qed.

(** Writing the value of a guest register to its place in the emulator state. *)
Lemma sim_write_back (hole : Z -> Prop) (stk : list slot) (m : list host_reg) (g : riscv) (h : host) (i : nat) (e : host_reg) :
  xreg g 0 = 0 -> map_ok m -> sim hole stk m g h -> m !! i = Some e -> e.(vm_reg_idx) <> -1 ->
  sim hole stk (alter (set_dirty_bit false) i m) g
    (set_hrv (set_xreg e.(vm_reg_idx) (xreg g e.(vm_reg_idx)) h.(hrv)) h).
Proof.
  intros Hg Hm [Hrdi Hstk Hc Hl Hz Hmap Hcl Hun] He Hv. destruct (mo_range _ Hm i e He) as [|Hr]; [done|].
  constructor; cbn [hregs hstack hrv set_hrv]; [done|done|done| | | | |].
  - by rewrite length_set_xreg.
  - destruct (decide (vm_reg_idx e = 0)) as [->|Hne]; [by rewrite xreg_set_eq|by rewrite xreg_set_ne by lia].
  - intros j f Hf. destruct (alter_cases _ _ _ _ _ Hf) as (f0 & Hf0 & ->). case_decide; exact (Hmap j f0 Hf0).
  - intros j f Hf. destruct (alter_cases _ _ _ _ _ Hf) as (f0 & Hf0 & ->). case_decide as Hd.
    + intros _ _. subst j. rewrite He in Hf0. injection Hf0 as <-. cbn [vm_reg_idx set_dirty_bit]. by apply xreg_set_eq.
    + intros Hn Hcf. rewrite xreg_set_ne; [by apply (Hcl j)|lia| |].
      * destruct (mo_range _ Hm j f0 Hf0); lia.
      * intros E. apply Hd. eapply (mo_unique _ Hm); [exact Hf0|exact He|done|done].
  - intros v Hvr Hu. rewrite xreg_set_ne; [|lia|lia|].
    + apply Hun; [done|]. intros j f Hf. destruct (decide (j = i)) as [->|Hne].
      * specialize (Hu i (set_dirty_bit false f)). apply Hu. rewrite list_lookup_alter_eq. by rewrite Hf.
      * apply (Hu j). by rewrite list_lookup_alter_ne.
    + intros E. apply (Hu i (set_dirty_bit false e)); [|exact E]. rewrite list_lookup_alter_eq. by rewrite He.
Qed.

(** ** Choosing a register *)

Lemma spare_reg (reserved : list Z) : (length reserved <= 2)%nat -> exists i r, map_regs !! i = Some r /\ r ∉ reserved.
Proof.
  intros Hl. destruct (decide (RAX ∈ reserved)) as [H1|H1]; [|by exists 0%nat, RAX].
  destruct (decide (RBX ∈ reserved)) as [H2|H2]; [|by exists 1%nat, RBX].
  destruct (decide (RDX ∈ reserved)) as [H3|H3]; [|by exists 2%nat, RDX]. exfalso.
  assert (Hs : [RAX; RBX; RDX] ⊆+ reserved).
  { apply NoDup_submseteq; [by apply (bool_decide_unpack _); vm_compute|]. intros x.
    rewrite !elem_of_cons, elem_of_nil. by intros [->|[->|[->|[]]]]. }
  apply submseteq_length in Hs. cbn in Hs. lia.
Qed.

Lemma pick_candidate_total (reserved q : list Z) (m : list host_reg) (i : nat) (e : host_reg) :
  m !! i = Some e -> e.(reg_idx) ∉ reserved -> e.(vm_reg_idx) ∈ q ->
  exists j f, pick_candidate reserved q m = Some j /\ m !! j = Some f /\ f.(reg_idx) ∉ reserved.
Proof.
  intros He Hr Hq. induction q as [|c q IH]; [by apply not_elem_of_nil in Hq|]. cbn [pick_candidate].
  match goal with |- context [find_index ?p m] => pose proof (find_index_spec p m) as Hf; destruct (find_index p m) as [j|] end.
  - destruct Hf as (f & Hj & Hp & _). apply andb_prop in Hp as [Hp _]. apply negb_true_iff, bool_decide_eq_false in Hp.
    by exists j, f.
  - apply IH. apply elem_of_cons in Hq as [Ec|Hq]; [|done].
    specialize (Hf i e He). cbv beta in Hf. rewrite Ec, Z.eqb_refl, andb_true_r in Hf.
    apply negb_false_iff, bool_decide_eq_true in Hf. done.
Qed.

Lemma reg_pick_ok (s : jit_state) (reserved : list Z) :
  st_ok s -> (length reserved <= 2)%nat ->
  exists i e, reg_pick reserved s = Some (i, s) /\ s.(register_map) !! i = Some e /\ e.(reg_idx) ∉ reserved.
Proof.
  intros [Hm Hq] Hl. unfold reg_pick.
  match goal with |- context [find_index ?p ?m] => pose proof (find_index_spec p m) as Hf; destruct (find_index p m) as [j|] end.
  - destruct Hf as (e & He & Hp & _). apply andb_prop in Hp as [Hp _]. apply negb_true_iff, bool_decide_eq_false in Hp.
    by exists j, e.
  - destruct (spare_reg reserved Hl) as (i & r & Hi & Hr). rewrite <- (mo_regs _ Hm), list_lookup_fmap in Hi.
    apply fmap_Some in Hi as (e & He & ->). specialize (Hf i e He). cbv beta in Hf.
    rewrite (bool_decide_eq_false_2 _ Hr) in Hf. cbn [negb andb] in Hf. apply negb_false_iff in Hf.
    pose proof (mo_alive _ Hm i e He Hf) as Ha. destruct (mo_range _ Hm i e He) as [|Hv]; [done|].
    destruct (pick_candidate_total reserved s.(candidate_queue) _ i e He Hr (Hq _ Hv)) as (j & f & -> & Hj & Hfr).
    by exists j, f.
Qed.

(** ** Mapping a vm register *)

Context (g : riscv) (stk : list slot) (Hwf : riscv_wf g) (Hx0 : xreg g 0 = 0).

Lemma guest_size : g.(mem).(mem_size) <= 2 ^ 32.
Proof. destruct (mwf_size _ (wf_mem _ Hwf)). lia. Qed.

Lemma sim_size (hole : Z -> Prop) (m : list host_reg) (h : host) :
  sim hole stk m g h -> h.(hrv).(mem).(mem_size) <= 2 ^ 32.
Proof. intros Hs. destruct (core_fields _ _ (sm_core _ _ _ _ _ Hs)) as [-> _]. apply guest_size. Qed.

Lemma guest_u32 (v : Z) : u32 (xreg g v) = xreg g v.
Proof. apply u32_id. by apply xreg_u32. Qed.

Lemma save_run (hole : Z -> Prop) (m : list host_reg) (h : host) (i : nat) (e : host_reg) :
  map_ok m -> sim hole stk m g h -> m !! i = Some e -> e.(vm_reg_idx) <> -1 -> ~ hole e.(vm_reg_idx) ->
  hrun 0 [save_insn e] h = Fell 0 (set_hrv (set_xreg e.(vm_reg_idx) (xreg g e.(vm_reg_idx)) h.(hrv)) h).
Proof.
  intros Hm Hs He Hv Hh. destruct (mo_range _ Hm i e He) as [|Hr]; [done|]. pose proof (sim_size _ _ _ Hs) as Hsz.
  unfold save_insn. destruct (Z.eqb_spec (vm_reg_idx e) 0) as [E|E]; cbn [hrun hexec size_bytes].
  - unfold parameter_reg_0. rewrite (sm_rdi _ _ _ _ _ Hs), x_addr_u64, store_x by done.
    rewrite E, Hx0. reflexivity.
  - unfold parameter_reg_0. rewrite (sm_rdi _ _ _ _ _ Hs), x_addr_u64, store_x by done.
    by rewrite (sm_mapped _ _ _ _ _ Hs i e He Hv Hh), guest_u32.
Qed.

(** The entry is clean and belongs to another vm register. *)
Definition remap (i : nat) (vm : Z) (m : list host_reg) : list host_reg :=
  alter (fun e => assign vm (set_dirty_bit false e)) i m.

Definition save_code (e : host_reg) : list hinsn := if e.(dirty) then [save_insn e] else [].

Lemma remap_alter (m : list host_reg) (i : nat) (vm : Z) :
  remap i vm m = alter (assign vm) i (alter (set_dirty_bit false) i m).
Proof. unfold remap. by rewrite list_alter_alter_eq. Qed.

Lemma unmapped_clean (m : list host_reg) (i : nat) (vm : Z) :
  unmapped m vm -> unmapped (alter (set_dirty_bit false) i m) vm.
Proof.
  intros Hu j f Hf. destruct (alter_cases _ _ _ _ _ Hf) as (f0 & Hf0 & ->). case_decide; exact (Hu j f0 Hf0).
Qed.

Lemma map_ok_remap (m : list host_reg) (i : nat) (vm : Z) :
  map_ok m -> 0 <= vm < 32 -> unmapped m vm -> map_ok (remap i vm m).
Proof.
  intros Hm Hv Hu. rewrite remap_alter. apply map_ok_assign; [by apply map_ok_dirty|done|by apply unmapped_clean].
Qed.

Lemma clean_alter (m : list host_reg) (i : nat) (e : host_reg) :
  m !! i = Some e -> e.(dirty) = false -> alter (set_dirty_bit false) i m = m.
Proof.
  intros He Hd. rewrite <- (list_alter_id (fun x => x) m i) at 2; [|done]. apply list_alter_ext; [|done].
  intros x Hx. rewrite He in Hx. injection Hx as <-. destruct e. cbn in Hd. by subst.
Qed.

Lemma map_new_eq (s : jit_state) (reserved : list Z) (vm : Z) :
  st_ok s -> (length reserved <= 2)%nat -> unmapped s.(register_map) vm ->
  exists i e, s.(register_map) !! i = Some e /\ (e.(reg_idx) ∉ reserved) /\
    map_vm_reg_avoiding reserved vm s =
      Some (e.(reg_idx), mk_jit (s.(code) ++ save_code e) (remap i vm s.(register_map)) s.(liveness) s.(candidate_queue)).
Proof.
  intros Hs Hl Hu. destruct (reg_pick_ok s reserved Hs Hl) as (i & e & Hp & He & Hr). exists i, e.
  split; [done|]. split; [done|]. unfold map_vm_reg_avoiding, bind at 1, gets. rewrite find_unmapped by done.
  unfold bind at 1. rewrite Hp. unfold bind at 1, entry. rewrite He. unfold bind at 1.
  rewrite (save_reg_eq s i e Hs He).
  unfold bind, unmap_vm_reg, set_vm_reg, alter_entry, modify, ret, save_code, set_register_map. rewrite remap_alter. unfold assign.
  destruct (dirty e) eqn:Hd; cbn [code register_map liveness candidate_queue]; rewrite list_alter_alter_eq; [done|].
  by rewrite (clean_alter _ i e He Hd), app_nil_r.
Qed.

Definition and_hole (hole : Z -> Prop) (vm : Z) : Z -> Prop := fun v => hole v \/ v = vm.

(** Same registers and flags. *)
Definition same_regs (h h' : host) : Prop := h'.(hregs) = h.(hregs) /\ h'.(hflags) = h.(hflags).

Lemma sim_assign (hole : Z -> Prop) (m : list host_reg) (h : host) (i : nat) (e : host_reg) (vm : Z) :
  map_ok m -> sim hole stk m g h -> m !! i = Some e -> e.(dirty) = false -> 0 <= vm < 32 -> unmapped m vm ->
  sim (and_hole hole vm) stk (alter (assign vm) i m) g h.
Proof.
  intros Hm [Hrdi Hstk Hc Hl Hz Hmap Hcl Hun] He Hd Hv Hu. constructor; [done..| | |].
  - intros j f Hf. destruct (alter_cases _ _ _ _ _ Hf) as (f0 & Hf0 & ->). case_decide as Hj.
    + intros _ Hn. destruct Hn. right. done.
    + intros Hn Hh. apply (Hmap j); [done|done|]. intros Hh'. apply Hh. by left.
  - intros j f Hf. destruct (alter_cases _ _ _ _ _ Hf) as (f0 & Hf0 & ->). case_decide as Hj.
    + intros _ _. cbn. by apply Hun.
    + by apply (Hcl j).
  - intros v Hvr Huv. assert (Hne : v <> vm).
    { intros ->. apply (Huv i (assign vm e)); [|done]. rewrite list_lookup_alter_eq. by rewrite He. }
    destruct (decide (v = e.(vm_reg_idx))) as [->|Hev].
    { apply (Hcl i); [done|lia|done]. }
    apply Hun; [done|]. intros j f Hf E. destruct (decide (j = i)) as [->|Hj].
    + rewrite He in Hf. injection Hf as <-. congruence.
    + apply (Huv j f); [by rewrite list_lookup_alter_ne|done].
Qed.

(** The code that frees an entry. *)
Lemma save_code_run (hole : Z -> Prop) (m : list host_reg) (h : host) (i : nat) (e : host_reg) :
  map_ok m -> sim hole stk m g h -> m !! i = Some e -> (e.(dirty) = true -> ~ hole e.(vm_reg_idx)) ->
  exists h', hrun 0 (save_code e) h = Fell 0 h' /\ sim hole stk (alter (set_dirty_bit false) i m) g h' /\ same_regs h h'.
Proof.
  intros Hm Hs He Hh. unfold save_code. destruct (dirty e) eqn:Hd.
  - assert (Hv : vm_reg_idx e <> -1) by (by apply (mo_dirty _ Hm i)). rewrite (save_run hole m h i e) by auto.
    eexists. split; [done|]. split; [by apply sim_write_back|done].
  - exists h. split; [done|]. rewrite (clean_alter _ i e He Hd). by split.
Qed.

Lemma map_new_run (hole : Z -> Prop) (m : list host_reg) (h : host) (i : nat) (e : host_reg) (vm : Z) :
  map_ok m -> sim hole stk m g h -> m !! i = Some e -> (e.(dirty) = true -> ~ hole e.(vm_reg_idx)) ->
  0 <= vm < 32 -> unmapped m vm ->
  exists h', hrun 0 (save_code e) h = Fell 0 h' /\ sim (and_hole hole vm) stk (remap i vm m) g h' /\ same_regs h h'.
Proof.
  intros Hm Hs He Hh Hv Hu. destruct (save_code_run hole m h i e Hm Hs He Hh) as (h' & Hr & Hs' & Hsame).
  exists h'. split; [done|]. split; [|done]. rewrite remap_alter.
  apply (sim_assign hole _ _ i (set_dirty_bit false e)); [by apply map_ok_dirty|done| |done|done|by apply unmapped_clean].
  rewrite list_lookup_alter_eq. by rewrite He.
Qed.

(** ** Loading a vm register *)

Definition but_hole (hole : Z -> Prop) (vm : Z) : Z -> Prop := fun v => hole v /\ v <> vm.

Lemma rdi_not_mapped : RDI ∉ map_regs. Proof. apply (bool_decide_unpack _). by vm_compute. Qed.
Lemma rcx_not_mapped : RCX ∉ map_regs. Proof. apply (bool_decide_unpack _). by vm_compute. Qed.

Lemma upd_eq (r v : Z) (f : Z -> Z) : upd r v f r = v.
Proof. unfold upd. by rewrite Z.eqb_refl. Qed.
Lemma upd_ne (r x v : Z) (f : Z -> Z) : x <> r -> upd r v f x = f x.
Proof. intros Hn. unfold upd. by rewrite (proj2 (Z.eqb_neq _ _) Hn). Qed.

(** Writing a host register that holds a vm register: only that one changes. *)
Lemma sim_set_hreg (hole : Z -> Prop) (m : list host_reg) (h : host) (i : nat) (e : host_reg) (v : Z) :
  map_ok m -> sim hole stk m g h -> m !! i = Some e ->
  sim (and_hole hole e.(vm_reg_idx)) stk m g (set_hreg e.(reg_idx) v h).
Proof.
  intros Hm [Hrdi Hstk Hc Hl Hz Hmap Hcl Hun] He. constructor; cbn [hregs hstack hrv set_hreg]; [|done..| |done|done].
  - rewrite upd_ne; [done|]. intros E. apply rdi_not_mapped. rewrite E. by eapply reg_range.
  - intros j f Hf Hv Hh. destruct (decide (j = i)) as [->|Hj].
    + rewrite He in Hf. injection Hf as <-. destruct Hh. by right.
    + rewrite upd_ne; [apply (Hmap j); [done|done|]|].
      * intros Hh'. apply Hh. by left.
      * intros E. apply Hj. by eapply entry_by_reg.
Qed.

(** A hole is filled when the host register has the value. *)
Lemma sim_fill (hole : Z -> Prop) (m : list host_reg) (h : host) (i : nat) (e : host_reg) :
  map_ok m -> sim hole stk m g h -> m !! i = Some e -> e.(vm_reg_idx) <> -1 ->
  h.(hregs) e.(reg_idx) = xreg g e.(vm_reg_idx) -> sim (but_hole hole e.(vm_reg_idx)) stk m g h.
Proof.
  intros Hm [Hrdi Hstk Hc Hl Hz Hmap Hcl Hun] He Hv E. constructor; try done.
  intros j f Hf Hn Hh. destruct (decide (j = i)) as [->|Hj].
  - rewrite He in Hf. by injection Hf as <-.
  - apply (Hmap j); [done|done|]. intros Hh'. apply Hh. split; [done|]. intros Ev. apply Hj.
    by eapply (mo_unique _ Hm).
Qed.

(** Marking an entry as dirty is always safe, as clean only with the value in the
    emulator state. *)
Lemma sim_dirty (hole : Z -> Prop) (m : list host_reg) (h : host) (i : nat) (e : host_reg) (b : bool) :
  sim hole stk m g h -> m !! i = Some e ->
  (b = false -> e.(vm_reg_idx) <> -1 -> xreg h.(hrv) e.(vm_reg_idx) = xreg g e.(vm_reg_idx)) ->
  sim hole stk (alter (set_dirty_bit b) i m) g h.
Proof.
  intros [Hrdi Hstk Hc Hl Hz Hmap Hcl Hun] He Hb. constructor; [done..| | |].
  - intros j f Hf. destruct (alter_cases _ _ _ _ _ Hf) as (f0 & Hf0 & ->). case_decide; exact (Hmap j f0 Hf0).
  - intros j f Hf. destruct (alter_cases _ _ _ _ _ Hf) as (f0 & Hf0 & ->). case_decide as Hj; [|exact (Hcl j f0 Hf0)].
    subst j. rewrite He in Hf0. injection Hf0 as <-. intros Hv Hd. by apply Hb.
  - intros v Hv Hu. apply Hun; [done|]. intros j f Hf E. destruct (decide (j = i)) as [->|Hj].
    + apply (Hu i (set_dirty_bit b f)); [|done]. rewrite list_lookup_alter_eq. by rewrite Hf.
    + apply (Hu j f); [|done]. by rewrite list_lookup_alter_ne.
Qed.

Lemma sim_weaken (hole hole' : Z -> Prop) (m : list host_reg) (h : host) :
  sim hole stk m g h -> (forall v, hole v -> hole' v) -> sim hole' stk m g h.
Proof.
  intros [Hrdi Hstk Hc Hl Hz Hmap Hcl Hun] Hw. constructor; try done. intros i e He Hv Hh. apply (Hmap i); [done|done|].
  intros Hh'. by apply Hh, Hw.
Qed.

Definition reload_insn (e : host_reg) : hinsn :=
  if e.(vm_reg_idx) =? 0 then Load_imm e.(reg_idx) 0
  else Load S32 parameter_reg_0 e.(reg_idx) (offsetof_X + 4 * e.(vm_reg_idx)).

Definition reload_state (i : nat) (e : host_reg) (s : jit_state) : jit_state :=
  mk_jit (s.(code) ++ [reload_insn e]) (alter (set_dirty_bit (e.(vm_reg_idx) =? 0)) i s.(register_map))
    s.(liveness) s.(candidate_queue).

Lemma reload_eq (s : jit_state) (i : nat) (e : host_reg) :
  st_ok s -> s.(register_map) !! i = Some e -> 0 <= e.(vm_reg_idx) ->
  emit_load S32 parameter_reg_0 e.(reg_idx) (offsetof_X + 4 * e.(vm_reg_idx)) s = Some (tt, reload_state i e s).
Proof.
  intros [Hm _] He Hv. destruct s as [c m l q]. cbn [register_map] in *. unfold emit_load, emit_load_imm, bind, gets.
  cbn [register_map]. rewrite (holds_x0_entry m i e Hm He). unfold reload_state, reload_insn.
  assert (Ho : (offsetof_X + 4 * vm_reg_idx e =? 0) = false) by (apply Z.eqb_neq; unfold offsetof_X; lia).
  destruct (vm_reg_idx e =? 0); unfold emit, set_dirty, modify, set_code, set_register_map;
    cbn [code register_map liveness candidate_queue]; rewrite ?Ho, (alter_first_at m _ i e Hm He); [|done].
  assert (Hm' : map_ok (alter (set_dirty_bit true) i m)).
  { apply map_ok_dirty; [done|]. intros _ f Hf. rewrite He in Hf. injection Hf as <-. lia. }
  assert (He' : alter (set_dirty_bit true) i m !! i = Some (set_dirty_bit true e)) by (rewrite list_lookup_alter_eq; by rewrite He).
  change (reg_idx e) with (reg_idx (set_dirty_bit true e)) at 2. rewrite (alter_first_at _ _ i _ Hm' He').
  by rewrite alter_alter_dirty.
Qed.

Lemma reload_run (hole : Z -> Prop) (m : list host_reg) (h : host) (i : nat) (e : host_reg) :
  map_ok m -> sim hole stk m g h -> m !! i = Some e -> e.(vm_reg_idx) <> -1 ->
  (e.(vm_reg_idx) = 0 \/ e.(dirty) = false) ->
  hrun 0 [reload_insn e] h = Fell 0 (set_hreg e.(reg_idx) (xreg g e.(vm_reg_idx)) h) /\
  sim (but_hole hole e.(vm_reg_idx)) stk (alter (set_dirty_bit (e.(vm_reg_idx) =? 0)) i m) g
    (set_hreg e.(reg_idx) (xreg g e.(vm_reg_idx)) h).
Proof.
  intros Hm Hs He Hv Hd. destruct (mo_range _ Hm i e He) as [|Hr]; [done|]. split.
  - unfold reload_insn. destruct (Z.eqb_spec (vm_reg_idx e) 0) as [E|E]; cbn [hrun hexec size_bytes].
    + by rewrite E, Hx0.
    + unfold parameter_reg_0. rewrite (sm_rdi _ _ _ _ _ Hs), x_addr_u64, load_x by (done || by eapply sim_size).
      destruct Hd as [|Hd]; [done|]. by rewrite (sm_clean _ _ _ _ _ Hs i e He Hv Hd).
  - assert (He' : alter (set_dirty_bit (vm_reg_idx e =? 0)) i m !! i = Some (set_dirty_bit (vm_reg_idx e =? 0) e))
      by (rewrite list_lookup_alter_eq; by rewrite He).
    assert (Hm' : map_ok (alter (set_dirty_bit (vm_reg_idx e =? 0)) i m)).
    { apply map_ok_dirty; [done|]. intros _ f Hf. rewrite He in Hf. by injection Hf as <-. }
    eapply sim_weaken.
    { apply (sim_fill (and_hole hole e.(vm_reg_idx)) _ _ i (set_dirty_bit (vm_reg_idx e =? 0) e) Hm'); [|exact He'|done|by cbn; rewrite upd_eq].
      apply (sim_dirty _ m _ i e); [by apply (sim_set_hreg _ _ _ i)|done|]. intros Hb _. cbn [hrv set_hreg].
      apply (sm_clean _ _ _ _ _ Hs i); [done|done|]. destruct Hd as [Hd|]; [by rewrite Hd in Hb|done]. }
    cbn [vm_reg_idx set_dirty_bit]. intros v [[Hh|Hh] Hn]; [by split|done].
Qed.

(** ** Triples *)

(** The relation, with what is known of the host registers and flags. *)
Definition holds (hole : Z -> Prop) (R : (Z -> Z) -> option flags -> Prop) (s : jit_state) (h : host) : Prop :=
  sim hole stk s.(register_map) g h /\ R h.(hregs) h.(hflags).

Definition only (vm : Z) : Z -> Prop := fun v => v = vm.

(** Nothing is known of the registers the allocator hands out. *)
Definition stable (R : (Z -> Z) -> option flags -> Prop) : Prop :=
  forall f f' fl, (forall r, r ∉ map_regs -> f' r = f r) -> R f fl -> R f' fl.

(** Vm registers held in registers that are not to be evicted. *)
Definition pinned (L : list (Z * Z)) (s : jit_state) : Prop := Forall (fun '(v, r) => mapped s.(register_map) v r) L.

Lemma remap_mapped (m : list host_reg) (i : nat) (e : host_reg) (vm : Z) :
  m !! i = Some e -> mapped (remap i vm m) vm e.(reg_idx).
Proof. intros He. eexists i, _. split; [unfold remap; rewrite list_lookup_alter_eq, He; done|done]. Qed.

Lemma remap_pinned (m : list host_reg) (i : nat) (e : host_reg) (vm v r : Z) :
  m !! i = Some e -> e.(reg_idx) <> r -> mapped m v r -> mapped (remap i vm m) v r.
Proof.
  intros He Hr (j & f & Hf & Hv & Hfr). exists j, f. split; [|done]. unfold remap.
  rewrite list_lookup_alter_ne; [done|]. intros <-. rewrite He in Hf. injection Hf as <-. congruence.
Qed.

Lemma st_ok_map (s : jit_state) (c : list hinsn) (m : list host_reg) :
  st_ok s -> map_ok m -> st_ok (mk_jit c m s.(liveness) s.(candidate_queue)).
Proof. intros [_ Hq] Hm. by constructor. Qed.

Lemma map_found (s : jit_state) (reserved : list Z) (vm r : Z) :
  st_ok s -> vm <> -1 -> mapped s.(register_map) vm r -> map_vm_reg_avoiding reserved vm s = Some (r, s).
Proof.
  intros [Hm _] Hv Hr. unfold map_vm_reg_avoiding, bind, gets. by rewrite (find_mapped _ Hm vm r).
Qed.

(** A destination register: whatever it held is lost, other registers stay. *)
Lemma map_dest_ok (reserved : list Z) (L : list (Z * Z)) (vm : Z) (R : (Z -> Z) -> option flags -> Prop) :
  (length reserved <= 2)%nat -> 0 <= vm < 32 -> Forall (fun '(v, r) => r ∈ reserved) L ->
  gens (fun s => st_ok s /\ pinned L s) (holds nohole R) (map_vm_reg_avoiding reserved vm)
    (fun r s => st_ok s /\ mapped s.(register_map) vm r /\ pinned L s) (fun r => holds (only vm) R).
Proof.
  intros Hl Hv HL s [Hs Hp]. destruct (mapped_dec s.(register_map) vm) as [[r Hr]|Hu].
  - exists r, s, []. rewrite (map_found s reserved vm r Hs ltac:(lia) Hr). split; [done|]. split; [by rewrite app_nil_r|].
    split; [done|]. intros h [Hsim HR]. exists h. split; [done|]. split; [|done]. by eapply sim_weaken.
  - destruct (map_new_eq s reserved vm Hs Hl Hu) as (i & e & He & Hr & E).
    eexists _, _, (save_code e). split; [exact E|]. split; [done|]. pose proof (so_map_ok _ Hs) as Hm. split.
    + split; [by apply st_ok_map; [|apply map_ok_remap]|]. split; [by apply remap_mapped|].
      unfold pinned in *. rewrite !Forall_forall in *. intros [v r] Hin. specialize (Hp _ Hin). specialize (HL _ Hin).
      cbn in Hp, HL |- *. eapply remap_pinned; [exact He| |done]. intros E2. apply Hr. by rewrite E2.
    + intros h [Hsim HR]. destruct (map_new_run nohole _ h i e vm Hm Hsim He ltac:(by intros _ []) Hv Hu)
        as (h' & Hrun & Hsim' & Hreg & Hfl).
      exists h'. split; [done|]. split; [|by rewrite Hreg, Hfl]. eapply sim_weaken; [exact Hsim'|].
      intros v [[]|Hve]. exact Hve.
Qed.

Lemma map_reg_neg (s : jit_state) (i : nat) (e : host_reg) : st_ok s -> s.(register_map) !! i = Some e -> e.(reg_idx) <> -1.
Proof.
  intros [Hm _] He E. pose proof (reg_range _ Hm i e He) as Hin. rewrite E in Hin. revert Hin.
  apply (bool_decide_unpack _). by vm_compute.
Qed.

(** Loading a vm register into a host register. *)
Lemma ra_load_ok (vm : Z) (R : (Z -> Z) -> option flags -> Prop) :
  0 <= vm < 32 -> stable R ->
  gens st_ok (holds nohole R) (ra_load vm)
    (fun r s => st_ok s /\ mapped s.(register_map) vm r) (fun r => holds nohole R).
Proof.
  intros Hv HR s Hs. pose proof (so_map_ok _ Hs) as Hm. unfold ra_load, map_vm_reg, bind, gets.
  destruct (mapped_dec s.(register_map) vm) as [[r Hr]|Hu].
  - rewrite (map_found s _ vm r Hs ltac:(lia) Hr), (origin_mapped _ vm r Hm ltac:(lia) Hr), Z.eqb_refl.
    exists r, s, []. split; [done|]. split; [by rewrite app_nil_r|]. split; [done|]. intros h Hh. by exists h.
  - destruct (map_new_eq s [-1] vm Hs ltac:(cbn; lia) Hu) as (i & e & He & _ & ->).
    rewrite (origin_unmapped _ _ Hu). pose proof (map_reg_neg s i e Hs He) as Hne.
    replace (-1 =? e.(reg_idx)) with false by lia. cbn [negb when].
    set (s1 := mk_jit _ _ _ _). set (e1 := assign vm (set_dirty_bit false e)).
    assert (Hs1 : st_ok s1) by (by apply st_ok_map; [|apply map_ok_remap]).
    assert (He1 : s1.(register_map) !! i = Some e1) by (cbn; unfold remap; rewrite list_lookup_alter_eq; by rewrite He).
    change (reg_idx e) with (reg_idx e1). change (offsetof_X + 4 * vm) with (offsetof_X + 4 * vm_reg_idx e1).
    rewrite (reload_eq s1 i e1 Hs1 He1 ltac:(cbn; lia)).
    eexists _, _, (save_code e ++ [reload_insn e1]). split; [reflexivity|]. split; [by cbn; rewrite <- app_assoc|].
    pose proof (so_map_ok _ Hs1) as Hm1. split.
    + split; [apply st_ok_map; [done|apply map_ok_dirty; [done|]]|].
      * intros _ f Hf. rewrite He1 in Hf. injection Hf as <-. cbn. lia.
      * eexists i, _. split; [cbn [register_map reload_state]; rewrite list_lookup_alter_eq, He1; reflexivity|done].
    + intros h [Hsim Hreg]. destruct (map_new_run nohole _ h i e vm Hm Hsim He ltac:(by intros _ []) Hv Hu)
        as (h' & Hrun & Hsim' & Hreg' & Hfl).
      destruct (reload_run _ _ h' i e1 Hm1 Hsim' He1 ltac:(cbn; lia) ltac:(by right)) as [Hrun2 Hsim2].
      eexists. rewrite hrun_app, Hrun. split; [exact Hrun2|]. split.
      * eapply sim_weaken; [exact Hsim2|]. intros v [[[]|Hve] Hn]. done.
      * cbn [hflags set_hreg]. rewrite Hfl. eapply HR; [|exact Hreg]. intros x Hx. cbn [hregs set_hreg]. rewrite upd_ne; [by rewrite Hreg'|].
        intros ->. apply Hx. by eapply reg_range.
Qed.

(** ** Loading two vm registers *)

(** The emulator state has the value of the vm register, or it is x0. *)
Definition clean_at (m : list host_reg) (vm : Z) : Prop :=
  forall i e, m !! i = Some e -> e.(vm_reg_idx) = vm -> vm = 0 \/ e.(dirty) = false.

Definition hole_if (b : bool) (vm : Z) : Z -> Prop := fun v => b = true /\ v = vm.
Definition or_hole (h1 h2 : Z -> Prop) : Z -> Prop := fun v => h1 v \/ h2 v.

(** Mapping a vm register; [o] is where it was before. *)
Lemma map_any (s : jit_state) (reserved : list Z) (vm : Z) :
  st_ok s -> (length reserved <= 2)%nat -> 0 <= vm < 32 ->
  exists r s1 seg, let fresh := negb (origin_of vm s.(register_map) =? r) in
    map_vm_reg_avoiding reserved vm s = Some (r, s1) /\ s1.(code) = s.(code) ++ seg /\ st_ok s1 /\
    mapped s1.(register_map) vm r /\
    (fresh = true -> (r ∉ reserved) /\ clean_at s1.(register_map) vm /\ unmapped s.(register_map) vm) /\
    (fresh = false -> s1 = s) /\
    (forall v r', r' <> r -> mapped s.(register_map) v r' -> mapped s1.(register_map) v r') /\
    (forall v r', v <> vm -> mapped s1.(register_map) v r' -> mapped s.(register_map) v r') /\
    (forall v, v <> vm -> clean_at s.(register_map) v -> clean_at s1.(register_map) v) /\
    forall hole h, sim hole stk s.(register_map) g h ->
      (forall i e, s.(register_map) !! i = Some e -> hole e.(vm_reg_idx) -> e.(reg_idx) ∈ reserved) ->
      exists h', hrun 0 seg h = Fell 0 h' /\ same_regs h h' /\
        sim (or_hole hole (hole_if fresh vm)) stk s1.(register_map) g h'.
Proof.
  intros Hs Hl Hv. pose proof (so_map_ok _ Hs) as Hm. destruct (mapped_dec s.(register_map) vm) as [[r Hr]|Hu].
  - exists r, s, []. rewrite (map_found s _ vm r Hs ltac:(lia) Hr), (origin_mapped _ vm r Hm ltac:(lia) Hr), Z.eqb_refl.
    split; [done|]. split; [by rewrite app_nil_r|]. split; [done|]. split; [done|]. split; [done|]. split; [done|].
    split; [done|]. split; [done|]. split; [done|]. intros hole h Hh _. exists h. split; [done|]. split; [done|].
    eapply sim_weaken; [exact Hh|]. intros v Hv'. by left.
  - destruct (map_new_eq s reserved vm Hs Hl Hu) as (i & e & He & Hr & E).
    eexists _, _, (save_code e). cbv zeta. rewrite (origin_unmapped _ _ Hu). pose proof (map_reg_neg s i e Hs He) as Hne.
    replace (-1 =? e.(reg_idx)) with false by lia. cbn [negb]. split; [exact E|]. split; [done|].
    split; [by apply st_ok_map; [|apply map_ok_remap]|]. split; [by apply remap_mapped|]. cbn [register_map].
    split; [intros _; split; [done|]; split; [|done]|].
    { intros j f Hf Ev. right. destruct (alter_cases _ _ _ _ _ Hf) as (f0 & Hf0 & ->). case_decide; [done|].
      by destruct (Hu j f0 Hf0). }
    split; [done|]. split; [intros v r' Hr' Hmp; by eapply remap_pinned|]. split; [|split].
    + intros v r' Hv' (j & f & Hf & Ev & Er). destruct (alter_cases _ _ _ _ _ Hf) as (f0 & Hf0 & ->). case_decide.
      * by rewrite <- Ev in Hv'.
      * by exists j, f0.
    + intros v Hv' Hcl j f Hf Ev. destruct (alter_cases _ _ _ _ _ Hf) as (f0 & Hf0 & ->). case_decide.
      * by rewrite <- Ev in Hv'.
      * by apply (Hcl j).
    + intros hole h Hsim Hres.
      assert (Hd : dirty e = true -> ~ hole e.(vm_reg_idx)) by (intros _ Hh; by apply Hr, (Hres i)).
      destruct (map_new_run hole _ h i e vm Hm Hsim He Hd Hv Hu) as (h' & Hrun & Hsim' & Hsame).
      exists h'. split; [done|]. split; [done|]. eapply sim_weaken; [exact Hsim'|].
      intros v [Hh|Hve]; [by left|]. right. by split.
Qed.

Lemma map_two_ok (vm1 vm2 : Z) (R : (Z -> Z) -> option flags -> Prop) (m0 : list host_reg) :
  0 <= vm1 < 32 -> 0 <= vm2 < 32 ->
  gens (fun s => st_ok s /\ s.(register_map) = m0) (holds nohole R) (map_two vm1 vm2)
    (fun r s => st_ok s /\ mapped s.(register_map) vm1 r.1 /\ mapped s.(register_map) vm2 r.2 /\
       (negb (origin_of vm1 m0 =? r.1) = true -> clean_at s.(register_map) vm1) /\
       (negb (origin_of vm2 m0 =? r.2) = true -> clean_at s.(register_map) vm2))
    (fun r => holds (or_hole (hole_if (negb (origin_of vm1 m0 =? r.1)) vm1) (hole_if (negb (origin_of vm2 m0 =? r.2)) vm2)) R).
Proof.
  intros Hv1 Hv2 s [Hs <-]. unfold map_two.
  destruct (map_any s [-1] vm1 Hs ltac:(cbn; lia) Hv1)
    as (r0 & s1 & seg1 & E1 & C1 & Hs1 & M1 & F1 & Same1 & Keep1 & Back1 & Cl1 & Run1).
  assert (Hno : forall i e, s.(register_map) !! i = Some e -> nohole e.(vm_reg_idx) -> e.(reg_idx) ∈ [-1]) by (by intros i e _ []).
  destruct (Z.eqb_spec vm1 vm2) as [<-|Hne].
  { exists (r0, r0), s1, seg1. unfold map_vm_reg, bind. rewrite E1. split; [done|]. split; [done|]. cbn [fst snd].
    split; [split_and!; try done; intros Hf; by apply F1|]. intros h [Hsim HR].
    destruct (Run1 nohole h Hsim Hno) as (h' & Hrun & [Hreg Hfl] & Hsim'). exists h'. split; [done|].
    split; [|by rewrite Hreg, Hfl]. eapply sim_weaken; [exact Hsim'|]. intros v [[]|Hh]. by left. }
  destruct (map_any s1 [r0] vm2 Hs1 ltac:(cbn; lia) Hv2)
    as (r1 & s2 & seg2 & E2 & C2 & Hs2 & M2 & F2 & Same2 & Keep2 & Back2 & Cl2 & Run2).
  assert (Hr01 : r1 <> r0).
  { intros ->. apply Hne. destruct (negb (origin_of vm2 (register_map s1) =? r0)) eqn:Ef.
    - destruct (F2 eq_refl) as (Hin & _). destruct Hin. by left.
    - rewrite (Same2 eq_refl) in M2. exact (mapped_fun _ (so_map_ok _ Hs1) _ _ _ M1 M2). }
  exists (r0, r1), s2, (seg1 ++ seg2). unfold map_vm_reg, map_vm_reg_reserved, bind. rewrite E1, E2.
  destruct (Z.eqb_spec r0 r1) as [E01|_]; [by destruct Hr01|].
  split; [done|]. split; [by rewrite C2, C1, app_assoc|]. cbn [fst snd].
  assert (Hm1' : mapped s2.(register_map) vm1 r0) by (by apply Keep2).
  (* the second register is fresh as seen from the start exactly when it is now *)
  assert (Ho : negb (origin_of vm2 (register_map s1) =? r1) = negb (origin_of vm2 (register_map s) =? r1)).
  { destruct (mapped_dec s1.(register_map) vm2) as [[q Hq]|Hu].
    - pose proof (Back1 vm2 q ltac:(done) Hq) as Hq0.
      by rewrite (origin_mapped _ vm2 q (so_map_ok _ Hs1) ltac:(lia) Hq), (origin_mapped _ vm2 q (so_map_ok _ Hs) ltac:(lia) Hq0).
    - rewrite (origin_unmapped _ _ Hu). destruct (mapped_dec s.(register_map) vm2) as [[q Hq]|Hu0];
        [|by rewrite (origin_unmapped _ _ Hu0)].
      rewrite (origin_mapped _ vm2 q (so_map_ok _ Hs) ltac:(lia) Hq).
      assert (q = r0) as ->.
      { destruct (decide (q = r0)) as [|Hqr]; [done|]. destruct (Keep1 vm2 q Hqr Hq) as (i & e & He & Ev & _). by destruct (Hu i e He). }
      destruct M2 as (i & e & He & _ & <-). pose proof (map_reg_neg s2 i e Hs2 He). lia. }
  split.
  { split_and!; [done|done|done| |].
    - intros Hf. apply Cl2; [done|]. by apply F1.
    - rewrite <- Ho. intros Hf. by apply F2. }
  intros h [Hsim HR]. destruct (Run1 nohole h Hsim Hno) as (h1 & Hrun1 & [Hreg1 Hfl1] & Hsim1).
  edestruct (Run2 _ h1 Hsim1) as (h2 & Hrun2 & [Hreg2 Hfl2] & Hsim2).
  { intros i e He [[]|[_ Ev]]. apply list_elem_of_singleton. eapply (mapped_inj _ (so_map_ok _ Hs1) vm1); [lia| |exact M1].
    by exists i, e. }
  exists h2. rewrite hrun_app, Hrun1. split; [done|]. split; [|by rewrite Hreg2, Hreg1, Hfl2, Hfl1].
  eapply sim_weaken; [exact Hsim2|]. rewrite Ho. intros v [[[]|Hh]|Hh]; [by left|by right].
Qed.

(** The load of a vm register that has just been mapped. *)
Lemma load_when_ok (vm r : Z) (fresh : bool) (hole : Z -> Prop) (R : (Z -> Z) -> option flags -> Prop)
    (K : list host_reg -> Prop) :
  0 <= vm < 32 -> stable R -> (fresh = false -> ~ hole vm) ->
  (forall m i b, K m -> map_ok m -> (b = true -> vm = 0) -> (exists e, m !! i = Some e /\ e.(vm_reg_idx) = vm) ->
     K (alter (set_dirty_bit b) i m)) ->
  gens (fun s => st_ok s /\ mapped s.(register_map) vm r /\ (fresh = true -> clean_at s.(register_map) vm) /\ K s.(register_map))
    (holds hole R) (when fresh (emit_load S32 parameter_reg_0 r (offsetof_X + 4 * vm)))
    (fun _ s => st_ok s /\ mapped s.(register_map) vm r /\ K s.(register_map)) (fun _ => holds (but_hole hole vm) R).
Proof.
  intros Hv HR Hnf HK s (Hs & (i & e & He & Ev & Er) & Hcl & HKs). pose proof (so_map_ok _ Hs) as Hm. destruct fresh; cbn [when].
  - subst vm r. rewrite (reload_eq s i e Hs He (proj1 Hv)). eexists tt, _, [reload_insn e]. split; [reflexivity|]. split; [done|].
    cbn [register_map reload_state]. split; [split_and!|].
    + apply st_ok_map; [done|]. apply map_ok_dirty; [done|]. intros _ f Hf. rewrite He in Hf. injection Hf as <-. lia.
    + eexists i, _. split; [rewrite list_lookup_alter_eq, He; reflexivity|done].
    + apply HK; [done|done| |by exists e]. intros Hb%Z.eqb_eq. done.
    + intros h [Hsim Hreg]. destruct (reload_run hole _ h i e Hm Hsim He ltac:(lia) (Hcl eq_refl i e He eq_refl)) as [Hrun Hsim'].
      eexists. split; [exact Hrun|]. split; [done|]. eapply HR; [|exact Hreg]. intros x Hx. cbn. rewrite upd_ne; [done|].
      intros ->. apply Hx. by eapply reg_range.
  - exists tt, s, []. split; [done|]. split; [by rewrite app_nil_r|]. split; [split_and!; [done|by exists i, e|done]|].
    intros h [Hsim Hreg]. exists h. split; [done|]. split; [|done]. eapply sim_weaken; [exact Hsim|].
    intros v Hh. split; [done|]. intros ->. by apply Hnf.
Qed.

Lemma mapped_dirty (m : list host_reg) (i : nat) (b : bool) (v r : Z) :
  mapped m v r -> mapped (alter (set_dirty_bit b) i m) v r.
Proof.
  intros (j & f & Hf & Hv & Hr). destruct (decide (j = i)) as [->|Hne].
  - exists i, (set_dirty_bit b f). split; [rewrite list_lookup_alter_eq; by rewrite Hf|done].
  - exists j, f. split; [by rewrite list_lookup_alter_ne|done].
Qed.

Lemma ra_load2_ok (vm1 vm2 : Z) (R : (Z -> Z) -> option flags -> Prop) :
  0 <= vm1 < 32 -> 0 <= vm2 < 32 -> stable R ->
  gens st_ok (holds nohole R) (ra_load2 vm1 vm2)
    (fun r s => st_ok s /\ mapped s.(register_map) vm1 r.1 /\ mapped s.(register_map) vm2 r.2) (fun r => holds nohole R).
Proof.
  intros Hv1 Hv2 HR. unfold ra_load2. intros s Hs.
  cut (forall m0, gens (fun s => st_ok s /\ s.(register_map) = m0) (holds nohole R)
    (r <- map_two vm1 vm2;;
     when (negb (origin_of vm1 m0 =? r.1)) (emit_load S32 parameter_reg_0 r.1 (offsetof_X + 4 * vm1));;
     when (negb (origin_of vm2 m0 =? r.2)) (emit_load S32 parameter_reg_0 r.2 (offsetof_X + 4 * vm2));;
     ret r)
    (fun r s => st_ok s /\ mapped s.(register_map) vm1 r.1 /\ mapped s.(register_map) vm2 r.2) (fun r => holds nohole R)).
  { intros Hg. exact (Hg s.(register_map) s (conj Hs eq_refl)). }
  clear s Hs. intros m0. eapply gens_bind; [by apply map_two_ok|]. intros [r0 r1]. cbn [fst snd].
  set (f1 := negb (origin_of vm1 m0 =? r0)). set (f2 := negb (origin_of vm2 m0 =? r1)).
  eapply gens_bind.
  { eapply gens_pre; [| |apply (load_when_ok vm1 r0 f1 (or_hole (hole_if f1 vm1) (hole_if (f2 && negb (vm1 =? vm2)) vm2)) R
      (fun m => mapped m vm2 r1 /\ (f2 = true -> clean_at m vm2)))]; [| |done|done| |].
    - intros s (Hs & M1 & M2 & C1 & C2). done.
    - intros s h (Hs & M1 & M2 & C1 & C2) [Hsim Hreg]. split; [|done]. eapply sim_weaken; [exact Hsim|].
      intros v [Hh|[Hf ->]]; [by left|]. destruct (Z.eqb_spec vm1 vm2) as [E|Hne].
      + left. split; [|done]. unfold f1. subst vm2. assert (r0 = r1) as ->.
        { eapply (mapped_inj _ (so_map_ok _ Hs)); [|exact M1|exact M2]. lia. } exact Hf.
      + right. split; [|done]. unfold f2 in *. by rewrite Hf.
    - intros Hf [[Hb _]|[Hb Hv]]; [congruence|]. apply andb_prop in Hb as [_ Hb]. apply negb_true_iff, Z.eqb_neq in Hb. done.
    - intros m i b [Hmp Hcl] Hm Hb (e & He & Ee). split; [by apply mapped_dirty|]. intros Hf j f Hj Ej.
      destruct (alter_cases _ _ _ _ _ Hj) as (f0 & Hf0 & ->). case_decide as Hd; [|by apply (Hcl Hf j)].
      cbn [vm_reg_idx set_dirty_bit dirty] in *. subst j. rewrite He in Hf0. injection Hf0 as <-.
      destruct b; [left|by right]. rewrite <- Ej, Ee. by apply Hb. }
  intros []. eapply gens_bind.
  { eapply gens_pre; [| |apply (load_when_ok vm2 r1 f2 (hole_if (f2 && negb (vm1 =? vm2)) vm2) R (fun m => mapped m vm1 r0))];
      [| |done|done| |].
    - intros s (Hs & M1 & M2 & C2). done.
    - intros s h _ [Hsim Hreg]. split; [|done]. eapply sim_weaken; [exact Hsim|]. intros v [[[_ ->]|Hh] Hne]; [done|done].
    - intros Hf [Hb _]. rewrite Hf in Hb. done.
    - intros m i b Hmp _ _ _. by apply mapped_dirty. }
  intros []. apply gens_ret.
  - intros s (Hs & M2 & M1). done.
  - intros s h _ [Hsim Hreg]. split; [|done]. eapply sim_weaken; [exact Hsim|]. intros v [[_ ->] Hne]. done.
Qed.

(** ** Emitting instructions *)

Definition dirty_at (m : list host_reg) (r : Z) : Prop := forall i e, m !! i = Some e -> e.(reg_idx) = r -> e.(dirty) = true.

(** The instruction is not a jump or a call. *)
Definition straight_insn (i : hinsn) : Prop :=
  match i with Jcc _ _ | Jmp _ | Jmp_exit | Call_rax => False | _ => True end.

Lemma hrun_one (i : hinsn) (h h' : host) : straight_insn i -> hexec i h = Some h' -> hrun 0 [i] h = Fell 0 h'.
Proof. intros Hi E. destruct i; try done; cbn [hrun]; by rewrite E. Qed.

Definition dirtied (r : Z) (s : jit_state) (i : hinsn) : jit_state :=
  mk_jit (s.(code) ++ [i]) (alter_first (fun e => e.(reg_idx) =? r) (set_dirty_bit true) s.(register_map))
    s.(liveness) s.(candidate_queue).

Lemma emit_dirty_eq (i : hinsn) (r : Z) (s : jit_state) : (emit i;; set_dirty r true) s = Some (tt, dirtied r s i).
Proof. by destruct s. Qed.

(** An instruction that writes the register of a destination. *)
Lemma host_write_ok (rd r : Z) (i : hinsn) (L : list (Z * Z)) (R R' : (Z -> Z) -> option flags -> Prop) :
  0 <= rd < 32 -> straight_insn i ->
  (forall h, core h.(hrv) = core g -> R h.(hregs) h.(hflags) -> exists v fl,
     hexec i h = Some (mk_host (upd r v h.(hregs)) fl h.(hstack) h.(hrv)) /\ R' (upd r v h.(hregs)) fl) ->
  gens (fun s => st_ok s /\ mapped s.(register_map) rd r /\ pinned L s) (holds (only rd) R) (emit i;; set_dirty r true)
    (fun _ s => st_ok s /\ mapped s.(register_map) rd r /\ pinned L s /\ dirty_at s.(register_map) r)
    (fun _ => holds (only rd) R').
Proof.
  intros Hv Hst Hx s (Hs & (j & e & He & Ev & Er) & Hp). pose proof (so_map_ok _ Hs) as Hm. subst r.
  rewrite emit_dirty_eq. unfold dirtied. rewrite (alter_first_at _ _ j e Hm He).
  assert (Hm' : map_ok (alter (set_dirty_bit true) j s.(register_map))).
  { apply map_ok_dirty; [done|]. intros _ f Hf. rewrite He in Hf. injection Hf as <-. lia. }
  eexists tt, _, [i]. split; [reflexivity|]. split; [done|]. cbn [register_map]. split; [split_and!|].
  - by apply st_ok_map.
  - apply mapped_dirty. by exists j, e.
  - unfold pinned in *. eapply Forall_impl; [exact Hp|]. intros [v q]. apply mapped_dirty.
  - intros k f Hf Ef. destruct (alter_cases _ _ _ _ _ Hf) as (f0 & Hf0 & ->). case_decide as Hk; [done|].
    destruct Hk. exact (entry_by_reg _ Hm k j f0 e Hf0 He Ef).
  - intros h [Hsim HR]. destruct (Hx h (sm_core _ _ _ _ _ Hsim) HR) as (v & fl & E & HR'). eexists. split; [by apply hrun_one|]. split; [|exact HR'].
    apply (sim_dirty _ _ _ j e); [|done|done].
    assert (Hsim' : sim (and_hole (only rd) rd) stk (register_map s) g (set_hreg (reg_idx e) v h))
      by (rewrite <- Ev at 2; by apply (sim_set_hreg _ _ _ j)).
    destruct Hsim' as [Hrdi Hstk Hc Hl Hz Hmap Hcl Hun]. constructor; try done. intros k f Hf Hk Hh. apply (Hmap k); [done|done|].
    intros [Hh'|Hh']; by apply Hh.
Qed.

(** An instruction that writes the scratch register. *)
Lemma temp_ok (hole : Z -> Prop) (i : hinsn) (S : jit_state -> Prop) (R R' : (Z -> Z) -> option flags -> Prop) :
  straight_insn i ->
  (forall s, S s -> st_ok s) -> (forall s c, S s -> S (mk_jit c s.(register_map) s.(liveness) s.(candidate_queue))) ->
  (forall h, R h.(hregs) h.(hflags) -> exists v fl,
     hexec i h = Some (mk_host (upd RCX v h.(hregs)) fl h.(hstack) h.(hrv)) /\ R' (upd RCX v h.(hregs)) fl) ->
  gens S (holds hole R) (emit i;; set_dirty RCX true) (fun _ => S) (fun _ => holds hole R').
Proof.
  intros Hst HS1 HS2 Hx s Hs. pose proof (so_map_ok _ (HS1 s Hs)) as Hm. rewrite emit_dirty_eq. unfold dirtied.
  rewrite alter_first_none by (done || apply rcx_not_mapped). eexists tt, _, [i]. split; [reflexivity|]. split; [done|].
  split; [by apply HS2|]. intros h [Hsim HR]. destruct (Hx h HR) as (v & fl & E & HR').
  eexists. split; [by apply hrun_one|]. split; [|exact HR']. destruct Hsim as [Hrdi Hstk Hc Hl Hz Hmap Hcl Hun].
  constructor; cbn [hregs hstack hrv register_map]; try done.
  intros j f Hf Hv Hh. rewrite upd_ne; [by apply (Hmap j)|]. intros E2. apply rcx_not_mapped. rewrite <- E2. by eapply reg_range.
Qed.

(** A comparison: it writes the flags, and its operand counts as dirty. *)
Lemma flags_ok (vm r : Z) (i : hinsn) (L : list (Z * Z)) (hole : Z -> Prop) (R R' : (Z -> Z) -> option flags -> Prop) :
  0 <= vm < 32 -> straight_insn i ->
  (forall h, R h.(hregs) h.(hflags) -> exists fl, hexec i h = Some (set_hflags fl h) /\ R' h.(hregs) fl) ->
  gens (fun s => st_ok s /\ mapped s.(register_map) vm r /\ pinned L s) (holds hole R) (emit i;; set_dirty r true)
    (fun _ s => st_ok s /\ mapped s.(register_map) vm r /\ pinned L s) (fun _ => holds hole R').
Proof.
  intros Hv Hst Hx s (Hs & (j & e & He & Ev & Er) & Hp). pose proof (so_map_ok _ Hs) as Hm. subst r.
  rewrite emit_dirty_eq. unfold dirtied. rewrite (alter_first_at _ _ j e Hm He).
  eexists tt, _, [i]. split; [reflexivity|]. split; [done|]. cbn [register_map]. split; [split_and!|].
  - apply st_ok_map; [done|]. apply map_ok_dirty; [done|]. intros _ f Hf. rewrite He in Hf. injection Hf as <-. lia.
  - apply mapped_dirty. by exists j, e.
  - unfold pinned in *. eapply Forall_impl; [exact Hp|]. intros [v q]. apply mapped_dirty.
  - intros h [Hsim HR]. destruct (Hx h HR) as (fl & E & HR'). eexists. split; [by apply hrun_one|]. split; [|exact HR'].
    apply (sim_dirty _ _ _ j e); [|done|done]. by destruct Hsim.
Qed.

(** The destination has its new value. *)
Lemma sim_commit (rd r v : Z) (m : list host_reg) (h : host) :
  map_ok m -> 0 <= rd < 32 -> mapped m rd r -> dirty_at m r -> sim (only rd) stk m g h -> h.(hregs) r = v ->
  sim nohole stk m (set_xreg rd v g) h.
Proof.
  intros Hm Hv (i & e & He & Ev & Er) Hd [Hrdi Hstk Hc Hl Hz Hmap Hcl Hun] Hreg.
  assert (Hlen : length g.(X) = 32%nat) by apply Hwf.
  constructor; [done|done|done|done|done| | |].
  - intros j f Hf Hn _. destruct (decide (vm_reg_idx f = rd)) as [E|E].
    + assert (j = i) as -> by (eapply (mo_unique _ Hm); [exact Hf|exact He|congruence|done]).
      rewrite He in Hf. injection Hf as <-. rewrite Ev, Er, xreg_set_eq by done. done.
    + destruct (mo_range _ Hm j f Hf) as [|Hr]; [done|]. rewrite xreg_set_ne by lia. by apply (Hmap j).
  - intros j f Hf Hn Hdf. destruct (decide (vm_reg_idx f = rd)) as [E|E].
    + assert (j = i) as -> by (eapply (mo_unique _ Hm); [exact Hf|exact He|congruence|done]).
      rewrite He in Hf. injection Hf as <-. by rewrite (Hd i e He Er) in Hdf.
    + destruct (mo_range _ Hm j f Hf) as [|Hr]; [done|]. rewrite xreg_set_ne by lia. by apply (Hcl j).
  - intros w Hw Hu. assert (w <> rd) by (intros ->; by apply (Hu i e)). rewrite xreg_set_ne by lia. by apply Hun.
Qed.

(** ** Storing everything back *)

Definition all_clean (m : list host_reg) : Prop := forall i e, m !! i = Some e -> e.(dirty) = false.

Lemma save_if_mapped (s : jit_state) (i : nat) (e : host_reg) :
  st_ok s -> s.(register_map) !! i = Some e ->
  (r <- entry i;; if r.(vm_reg_idx) =? -1 then ret tt else save_reg i) s = save_reg i s.
Proof.
  intros Hs He. unfold bind at 1, entry at 1. rewrite He. destruct (Z.eqb_spec (vm_reg_idx e) (-1)) as [E|E]; [|done].
  rewrite (save_reg_eq s i e Hs He). destruct (dirty e) eqn:Hd; [|done].
  by destruct (mo_dirty _ (so_map_ok _ Hs) i e He Hd).
Qed.

Lemma store_back_ok (R : (Z -> Z) -> option flags -> Prop) :
  gens st_ok (holds nohole R) store_back (fun _ s => st_ok s /\ all_clean s.(register_map)) (fun _ => holds nohole R).
Proof.
  cut (forall n k, (k + n = n_host_regs)%nat ->
    gens (fun s => st_ok s /\ forall i e, (i < k)%nat -> s.(register_map) !! i = Some e -> e.(dirty) = false) (holds nohole R)
      (for_each (seq k n) (fun i => r <- entry i;; if r.(vm_reg_idx) =? -1 then ret tt else save_reg i))
      (fun _ s => st_ok s /\ all_clean s.(register_map)) (fun _ => holds nohole R)).
  { intros Hc. eapply gens_pre; [| |apply (Hc n_host_regs 0%nat eq_refl)]; [|done]. intros s Hs. split; [done|]. lia. }
  induction n as [|n IH]; intros k Hk; cbn [seq for_each].
  - apply gens_ret; [|done]. intros s [Hs Hc]. split; [done|]. intros i e He. apply (Hc i); [|done].
    rewrite Nat.add_0_r in Hk. subst k. unfold n_host_regs. rewrite <- (mo_regs _ (so_map_ok _ Hs)), length_fmap.
    by eapply lookup_lt_Some.
  - eapply (gens_bind _ _ _ _ (fun _ s => st_ok s /\ forall i e, (i < S k)%nat -> s.(register_map) !! i = Some e -> e.(dirty) = false)
      (fun _ => holds nohole R)); [|intros []; apply (IH (S k)); lia].
    intros s [Hs Hc]. pose proof (so_map_ok _ Hs) as Hm.
    assert (exists e, s.(register_map) !! k = Some e) as [e He].
    { apply lookup_lt_is_Some. rewrite <- (length_fmap reg_idx), (mo_regs _ Hm). unfold n_host_regs in Hk. lia. }
    rewrite (save_if_mapped s k e Hs He), (save_reg_eq s k e Hs He).
    eexists tt, _, (save_code e). split; [reflexivity|]. unfold save_code. destruct (dirty e) eqn:Hd.
    + split; [done|]. split.
      * split; [by apply st_ok_map; [|apply map_ok_dirty]|]. intros i f Hi Hf. cbn [register_map] in Hf.
        destruct (alter_cases _ _ _ _ _ Hf) as (f0 & Hf0 & ->). case_decide; [done|]. apply (Hc i); [lia|done].
      * intros h [Hsim HR]. destruct (save_code_run nohole _ h k e Hm Hsim He ltac:(by intros _ [])) as (h' & Hrun & Hsim' & Hreg & Hfl).
        unfold save_code in Hrun. rewrite Hd in Hrun. exists h'. split; [done|]. split; [done|]. by rewrite Hreg, Hfl.
    + split; [by rewrite app_nil_r|]. split.
      * split; [done|]. intros i f Hi Hf. destruct (decide (i = k)) as [->|Hne]; [congruence|]. apply (Hc i); [lia|done].
      * intros h Hh. by exists h.
Qed.

Lemma stored_all (m : list host_reg) (h : host) (v : Z) :
  sim nohole stk m g h -> all_clean m -> 0 <= v < 32 -> xreg h.(hrv) v = xreg g v.
Proof.
  intros Hs Hc Hv. destruct (mapped_dec m v) as [[r (i & e & He & <- & _)]|Hu].
  - apply (sm_clean _ _ _ _ _ Hs i); [done|lia|by apply (Hc i)].
  - by apply (sm_unmapped _ _ _ _ _ Hs).
Qed.

End Sim.
