(* ===== verification/JitInsn.v ===== *)
(** The code of each straight-line instruction: it takes the host from the
    guest state before the instruction to the guest state after it. *)

From stdpp Require Import base list option numbers gmap.
From Stdlib Require Import ZArith Lia Bool.
From S2P Require Import Prelude Bits Insn Decode Mem MemSpec State Trap Csr Fp Alu Exec ExecWf Equiv Late Block X64 Jit JitAlloc.
#[local] Open Scope Z_scope.
#[local] Open Scope jit_scope.

(** * Forward jumps *)

Lemma alter_middle {A} (f : A -> A) (l1 l2 : list A) (x : A) : alter f (length l1) (l1 ++ x :: l2) = l1 ++ f x :: l2.
Proof. induction l1 as [|y l1 IH]; [done|]. cbn. f_equal. exact IH. Qed.

(** The jump is patched to skip the body. *)
Lemma jump_over_eq (cc : Z) (body : jit unit) (s s1 : jit_state) (seg : list hinsn) :
  body (mk_jit (s.(code) ++ [Jcc cc 0]) s.(register_map) s.(liveness) s.(candidate_queue)) = Some (tt, s1) ->
  s1.(code) = (s.(code) ++ [Jcc cc 0]) ++ seg ->
  jump_over cc body s =
    Some (tt, mk_jit (s.(code) ++ Jcc cc (length seg) :: seg) s1.(register_map) s1.(liveness) s1.(candidate_queue)).
Proof.
  intros Hb Hc. destruct s as [c m l q], s1 as [c1 m1 l1 q1]. cbn [code register_map liveness candidate_queue] in *. subst c1.
  unfold jump_over, bind, offset, gets, emit_jcc_offset, emit, modify, set_code in *. cbn [code register_map liveness candidate_queue] in *.
  rewrite Hb. unfold emit_jump_target_offset, modify, set_code. cbn [code register_map liveness candidate_queue].
  rewrite <- app_assoc. cbn [app]. rewrite alter_middle. cbn [set_target]. rewrite length_app. cbn [length].
  by replace (length c + S (length seg) - (length c + 1))%nat with (length seg) by lia.
Qed.

Lemma hrun_skip `{HostEnv} (seg : list hinsn) (h : host) : hrun (length seg) seg h = Fell 0 h.
Proof. revert h. induction seg as [|i seg IH]; intros h; [done|]. cbn [length hrun]. apply IH. Qed.

(** * Triples for guest states *)

Section Insn.
Context `{HostEnvOk} (stk : list slot).

(** The host is in step with the guest. *)
Definition at_guest (g : riscv) (s : jit_state) (h : host) : Prop := holds g stk nohole (fun _ _ => True) s h.

(** [mo] is code that takes the guest from [g] to [g']. *)
Definition steps (g : riscv) (mo : jit unit) (g' : riscv) : Prop :=
  gens st_ok (at_guest g) mo (fun _ => st_ok) (fun _ => at_guest g').

Lemma steps_bind (g g' g'' : riscv) (m1 m2 : jit unit) :
  steps g m1 g' -> steps g' m2 g'' -> steps g (m1;; m2) g''.
Proof. intros H1 H2. eapply gens_bind; [exact H1|]. intros []. exact H2. Qed.

Lemma steps_ret (g : riscv) : steps g (ret tt) g.
Proof. by apply gens_ret. Qed.

(** Only the registers and the part of the state that code generation keeps
    matter. *)
Definition same_guest (g g' : riscv) : Prop := core g = core g' /\ X g = X g'.

Lemma sim_same (g g' : riscv) (hole : Z -> Prop) (m : list host_reg) (h : host) :
  same_guest g g' -> sim hole stk m g h -> sim hole stk m g' h.
Proof.
  intros [Hc HX] [Hrdi Hstk Hcr Hl Hz Hmap Hcl Hun].
  assert (Hx : forall v, xreg g v = xreg g' v) by (intros v; unfold xreg; by rewrite HX).
  constructor; [done|done|congruence|done|done| | |]; intros; rewrite <- Hx; eauto.
Qed.

Lemma steps_same (g g1 g2 : riscv) (mo : jit unit) : same_guest g1 g2 -> steps g mo g1 -> steps g mo g2.
Proof.
  intros Hs Hm. eapply gens_post; [exact Hm|done|]. intros [] s h _ [Hsim _]. split; [|done]. by eapply sim_same.
Qed.

Section Guest.
Context (g : riscv) (Hwf : riscv_wf g) (Hx0 : xreg g 0 = 0).

(** What a mapped register holds. *)
Lemma learn {A} (vm r : Z) (S : jit_state -> Prop) (R : (Z -> Z) -> option flags -> Prop) (mo : jit A) T Q :
  0 <= vm < 32 -> (forall s, S s -> mapped s.(register_map) vm r) ->
  gens S (holds g stk nohole (fun f fl => R f fl /\ f r = xreg g vm)) mo T Q -> gens S (holds g stk nohole R) mo T Q.
Proof.
  intros Hv HS. apply gens_pre; [done|]. intros s h Hs [Hsim HR]. split; [done|]. split; [done|].
  destruct (HS s Hs) as (i & e & He & <- & <-). apply (sm_mapped _ _ _ _ _ Hsim i); [done|lia|by intros []].
Qed.

(** The last write of an instruction. *)
Lemma write_keeps (rd r v : Z) (i : hinsn) (R : (Z -> Z) -> option flags -> Prop) :
  0 <= rd < 32 -> straight_insn i ->
  (forall h, core h.(hrv) = core g -> R h.(hregs) h.(hflags) -> exists fl, hexec i h = Some (mk_host (upd r v h.(hregs)) fl h.(hstack) h.(hrv))) ->
  gens (fun s => st_ok s /\ mapped s.(register_map) rd r) (holds g stk (only rd) R) (emit i;; set_dirty r true)
    (fun _ s => st_ok s /\ mapped s.(register_map) rd r) (fun _ => at_guest (set_xreg rd v g)).
Proof.
  intros Hrd Hi Hx. eapply gens_post.
  - eapply gens_pre; [| |apply (host_write_ok g stk rd r i [] R (fun f _ => f r = v)); [done|done|]].
    + intros s [Hs Hm]. split; [done|]. split; [done|constructor].
    + done.
    + intros h Hc HR. destruct (Hx h Hc HR) as (fl & E). exists v, fl. split; [done|]. apply upd_eq.
  - intros [] s (Hs & Hm & _). done.
  - intros [] s h (Hs & Hm & _ & Hd) [Hsim Hv]. split; [|done].
    eapply sim_commit; [done|apply Hs|done|exact Hm|done|done|done].
Qed.

Lemma write_commit (rd r v : Z) (i : hinsn) (R : (Z -> Z) -> option flags -> Prop) :
  0 <= rd < 32 -> straight_insn i ->
  (forall h, core h.(hrv) = core g -> R h.(hregs) h.(hflags) -> exists fl, hexec i h = Some (mk_host (upd r v h.(hregs)) fl h.(hstack) h.(hrv))) ->
  gens (fun s => st_ok s /\ mapped s.(register_map) rd r) (holds g stk (only rd) R) (emit i;; set_dirty r true)
    (fun _ => st_ok) (fun _ => at_guest (set_xreg rd v g)).
Proof. intros Hrd Hi Hx. eapply gens_post; [by apply write_keeps|by intros [] s [Hs _]|done]. Qed.

(** The destination already has its new value. *)
Lemma dirty_commit (rd r v : Z) :
  0 <= rd < 32 ->
  gens (fun s => st_ok s /\ mapped s.(register_map) rd r) (holds g stk (only rd) (fun f _ => f r = v)) (set_dirty r true)
    (fun _ => st_ok) (fun _ => at_guest (set_xreg rd v g)).
Proof.
  intros Hrd s (Hs & (i & e & He & Ev & Er)). pose proof (so_map_ok _ Hs) as Hm. subst r.
  assert (Hm1 : map_ok (alter (set_dirty_bit true) i s.(register_map))).
  { apply map_ok_dirty; [done|]. intros _ f Hf. rewrite He in Hf. injection Hf as <-. lia. }
  assert (He1 : alter (set_dirty_bit true) i s.(register_map) !! i = Some (set_dirty_bit true e))
    by (rewrite list_lookup_alter_eq; by rewrite He).
  eexists tt, _, []. split; [unfold set_dirty, modify, set_register_map; by rewrite (alter_first_at _ _ i e Hm He)|].
  split; [by rewrite app_nil_r|]. split; [by apply st_ok_map|]. intros h [Hsim Hv]. exists h. split; [done|]. split; [|done].
  cbn [register_map]. apply (sim_commit g stk Hwf rd e.(reg_idx)); [done|done|by exists i, (set_dirty_bit true e)| |by apply (sim_dirty _ _ _ _ _ i e)|done].
  intros j f Hf Ef. assert (j = i) as ->; [|rewrite He1 in Hf; by injection Hf as <-].
  exact (entry_by_reg _ Hm1 j i f (set_dirty_bit true e) Hf He1 Ef).
Qed.

Lemma gen_const_ok (rd imm : Z) : 0 <= rd < 32 -> steps g (gen_const rd imm) (set_xreg rd (u32 imm) g).
Proof.
  intros Hrd. eapply gens_bind.
  - eapply gens_pre; [| |apply (map_dest_ok g stk Hwf Hx0 [-1] [] rd (fun _ _ => True))];
      [intros s Hs; split; [done|constructor]|done|cbn; lia|done|constructor].
  - intros r. eapply gens_pre; [| |apply (write_commit rd r (u32 imm) _ (fun _ _ => True))]; [|done|done|done|].
    + intros s (Hs & Hm & _). done.
    + intros h _ _. by exists h.(hflags).
Qed.

(** Loads of operands, then a destination that keeps them. *)
Lemma load1_dest_ok {B} (rs1 rd : Z) (k : Z -> Z -> jit B) T Q :
  0 <= rs1 < 32 -> 0 <= rd < 32 ->
  (forall r0 r1, gens (fun s => st_ok s /\ mapped s.(register_map) rd r1)
     (holds g stk (only rd) (fun f _ => f r0 = xreg g rs1)) (k r0 r1) T Q) ->
  gens st_ok (at_guest g) (r0 <- ra_load rs1;; r1 <- map_vm_reg_reserved rd r0;; k r0 r1) T Q.
Proof.
  intros H1 Hrd Hk. eapply gens_bind; [apply (ra_load_ok g stk Hwf Hx0 rs1 (fun _ _ => True)); done|]. intros r0.
  apply (learn rs1 r0); [done|by intros s [_ Hm]|]. eapply gens_bind.
  - eapply gens_pre; [| |apply (map_dest_ok g stk Hwf Hx0 [r0] [(rs1, r0)] rd (fun f _ => f r0 = xreg g rs1))];
      [|intros s h _ [Hsim [_ Hv]]; done|cbn; lia|done|].
    + intros s [Hs Hm]. split; [done|]. by constructor.
    + constructor; [by apply list_elem_of_singleton|constructor].
  - intros r1. eapply gens_pre; [| |apply Hk]; [|done]. intros s (Hs & Hm & _). done.
Qed.

Lemma mov_exec (src dst v : Z) (h : host) :
  is_u32 v -> h.(hregs) src = v ->
  hexec (Alu true 0x89 src dst) h = Some (mk_host (upd dst v h.(hregs)) h.(hflags) h.(hstack) h.(hrv)).
Proof.
  intros Hv E. cbn [hexec mr_op]. rewrite E. unfold alu_exec, set_hreg, low, width. rewrite Z.mod_small; [done|].
  unfold is_u32 in Hv. lia.
Qed.

(** The operand is moved to the destination. *)
Lemma move_operand_ok (rd r0 r1 v : Z) :
  0 <= rd < 32 -> is_u32 v ->
  gens (fun s => st_ok s /\ mapped s.(register_map) rd r1) (holds g stk (only rd) (fun f _ => f r0 = v))
    (when (negb (r0 =? r1)) (emit_mov r0 r1))
    (fun _ s => st_ok s /\ mapped s.(register_map) rd r1) (fun _ => holds g stk (only rd) (fun f _ => f r1 = v)).
Proof.
  intros Hrd Hv. destruct (Z.eqb_spec r0 r1) as [->|Hne]; cbn [negb when]; [by apply gens_ret|].
  eapply gens_post; [eapply gens_pre; [| |apply (host_write_ok g stk rd r1 (Alu true 0x89 r0 r1) [] (fun f _ => f r0 = v)
    (fun f _ => f r1 = v)); [done|done|]]|..].
  - intros s [Hs Hm]. split; [done|]. split; [done|constructor].
  - done.
  - intros h _ HR. exists v, h.(hflags). split; [|by rewrite upd_eq]. by apply mov_exec.
  - intros [] s (Hs & Hm & _). done.
  - done.
Qed.

Lemma gen_unary_ok (rs1 rd v : Z) (I : Z -> hinsn) :
  0 <= rs1 < 32 -> 0 <= rd < 32 -> (forall r, straight_insn (I r)) ->
  (forall r h, h.(hregs) r = xreg g rs1 -> exists fl, hexec (I r) h = Some (mk_host (upd r v h.(hregs)) fl h.(hstack) h.(hrv))) ->
  steps g (gen_unary rs1 rd (fun r => emit (I r);; set_dirty r true)) (set_xreg rd v g).
Proof.
  intros H1 Hrd Hi Hx. apply load1_dest_ok; [done|done|]. intros r0 r1.
  eapply gens_bind; [apply move_operand_ok; [done|by apply xreg_u32]|].
  intros []. apply (write_commit rd r1 v (I r1) (fun f _ => f r1 = xreg g rs1)); [done|done|]. intros h _ HR. by apply Hx.
Qed.

(** An update in place. *)
Lemma gen_update_ok (rd v : Z) (I : Z -> hinsn) :
  0 <= rd < 32 -> (forall r, straight_insn (I r)) ->
  (forall r h, h.(hregs) r = xreg g rd -> exists fl, hexec (I r) h = Some (mk_host (upd r v h.(hregs)) fl h.(hstack) h.(hrv))) ->
  steps g (gen_update rd (fun r => emit (I r);; set_dirty r true)) (set_xreg rd v g).
Proof.
  intros Hrd Hi Hx. eapply gens_bind; [apply (ra_load_ok g stk Hwf Hx0 rd (fun _ _ => True)); done|]. intros r.
  apply (learn rd r); [done|by intros s [_ Hm]|].
  eapply gens_pre; [| |apply (write_commit rd r v (I r) (fun f _ => f r = xreg g rd)); [done|done|]]; [done| |].
  - intros s h _ [Hsim [_ Hv]]. split; [|done]. by eapply sim_weaken.
  - intros h _ HR. by apply Hx.
Qed.

Lemma gens_pure {A} (phi : Prop) (S : jit_state -> Prop) (P : jit_state -> host -> Prop) (mo : jit A) T Q :
  (forall s, S s -> phi) -> (phi -> gens S P mo T Q) -> gens S P mo T Q.
Proof. intros Hp Hm s Hs. exact (Hm (Hp s Hs) s Hs). Qed.

Lemma mapped_not_rcx (m : list host_reg) (vm r : Z) : map_ok m -> mapped m vm r -> r <> RCX.
Proof. intros Hm Hr ->. by apply rcx_not_mapped, (mapped_reg m Hm vm). Qed.

(** Two operands, then a destination that keeps them. *)
Lemma load2_dest_ok {B} (rs1 rs2 rd : Z) (k : Z * Z -> Z -> jit B) T Q :
  0 <= rs1 < 32 -> 0 <= rs2 < 32 -> 0 <= rd < 32 ->
  (forall r r2, r2 <> RCX -> r.1 <> RCX -> gens (fun s => st_ok s /\ mapped s.(register_map) rd r2 /\ mapped s.(register_map) rs1 r.1)
     (holds g stk (only rd) (fun f _ => f r.1 = xreg g rs1 /\ f r.2 = xreg g rs2)) (k r r2) T Q) ->
  gens st_ok (at_guest g) (r <- ra_load2 rs1 rs2;; r2 <- map_vm_reg_reserved2 rd r.1 r.2;; k r r2) T Q.
Proof.
  intros H1 H2 Hrd Hk. eapply gens_bind; [apply (ra_load2_ok g stk Hwf Hx0 rs1 rs2 (fun _ _ => True)); done|]. intros r.
  apply (learn rs1 r.1); [done|by intros s (_ & Hm & _)|]. apply (learn rs2 r.2); [done|by intros s (_ & _ & Hm)|].
  eapply gens_bind.
  - eapply gens_pre; [| |apply (map_dest_ok g stk Hwf Hx0 [r.1; r.2] [(rs1, r.1); (rs2, r.2)] rd
      (fun f _ => f r.1 = xreg g rs1 /\ f r.2 = xreg g rs2))];
      [|intros s h _ [Hsim [[_ Hv1] Hv2]]; done|cbn; lia|done|].
    + intros s (Hs & M1 & M2). split; [done|]. by repeat constructor.
    + constructor; [apply elem_of_cons; by left|]. constructor; [apply elem_of_cons; right; by apply list_elem_of_singleton|constructor].
  - intros r2. eapply (gens_pure (r2 <> RCX /\ r.1 <> RCX)).
    + intros s (Hs & Hm & [Hp _]%Forall_cons). split; eapply mapped_not_rcx; [apply Hs|exact Hm|apply Hs|exact Hp].
    + intros [Hr2 Hr1]. eapply gens_pre; [| |by apply Hk]; [|done]. intros s (Hs & Hm & [Hp _]%Forall_cons). done.
Qed.

(** The second operand in the scratch register, the first in the destination. *)
Lemma gen_binary_ok (rs1 rs2 rd v : Z) (op : Z -> jit unit) :
  0 <= rs1 < 32 -> 0 <= rs2 < 32 -> 0 <= rd < 32 ->
  (forall r, r <> RCX -> gens (fun s => st_ok s /\ mapped s.(register_map) rd r)
     (holds g stk (only rd) (fun f _ => f RCX = xreg g rs2 /\ f r = xreg g rs1)) (op r)
     (fun _ => st_ok) (fun _ => at_guest (set_xreg rd v g))) ->
  steps g (gen_binary (ra_load2 rs1 rs2) rd op) (set_xreg rd v g).
Proof.
  intros H1 H2 Hrd Hop. apply load2_dest_ok; [done|done|done|]. intros r r2 Hr2 Hr1. eapply gens_bind.
  { apply (temp_ok g stk (only rd) (Alu true 0x89 r.2 RCX) _ (fun f _ => f r.1 = xreg g rs1 /\ f r.2 = xreg g rs2)
      (fun f _ => f RCX = xreg g rs2 /\ f r.1 = xreg g rs1)); [done|by intros s [Hs _]| |].
    - intros s c (Hs & Hm). split; [|done]. by apply st_ok_map; [|apply Hs].
    - intros h [E1 E2]. exists (xreg g rs2), h.(hflags). split; [apply mov_exec; [by apply xreg_u32|done]|].
      by rewrite upd_eq, upd_ne. }
  intros []. eapply gens_bind.
  { eapply gens_pre; [| |apply (host_write_ok g stk rd r2 (Alu true 0x89 r.1 r2) [] (fun f _ => f RCX = xreg g rs2 /\ f r.1 = xreg g rs1)
      (fun f _ => f RCX = xreg g rs2 /\ f r2 = xreg g rs1)); [done|done|]]; [|done|].
    - intros s (Hs & Hm & _). split; [done|]. split; [done|constructor].
    - intros h _ [E1 E2]. exists (xreg g rs1), h.(hflags). split; [apply mov_exec; [by apply xreg_u32|done]|].
      rewrite upd_eq, upd_ne by done. done. }
  intros []. eapply gens_pre; [| |by apply Hop]; [|done]. intros s (Hs & Hm & _). done.
Qed.

Lemma gen_binary_emit_ok (rs1 rs2 rd v : Z) (I : Z -> hinsn) :
  0 <= rs1 < 32 -> 0 <= rs2 < 32 -> 0 <= rd < 32 -> (forall r, straight_insn (I r)) ->
  (forall r h, h.(hregs) RCX = xreg g rs2 -> h.(hregs) r = xreg g rs1 ->
     exists fl, hexec (I r) h = Some (mk_host (upd r v h.(hregs)) fl h.(hstack) h.(hrv))) ->
  steps g (gen_binary (ra_load2 rs1 rs2) rd (fun r => emit (I r);; set_dirty r true)) (set_xreg rd v g).
Proof.
  intros H1 H2 Hrd Hi Hx. apply gen_binary_ok; [done..|]. intros r _. apply write_commit; [done|done|].
  intros h _ [E1 E2]. by apply Hx.
Qed.

(** The count is masked in the scratch register first. *)
Lemma gen_shift_ok (rs1 rs2 rd ext v : Z) :
  0 <= rs1 < 32 -> 0 <= rs2 < 32 -> 0 <= rd < 32 ->
  (forall r h, h.(hregs) RCX = xreg g rs2 .& 0x1f -> h.(hregs) r = xreg g rs1 ->
     exists fl, hexec (Alu false 0xd3 ext r) h = Some (mk_host (upd r v h.(hregs)) fl h.(hstack) h.(hrv))) ->
  steps g (gen_binary (ra_load2 rs1 rs2) rd (fun r2 => emit_alu32_imm32 0x81 4 temp_reg 0x1f;; emit_alu32 0xd3 ext r2))
    (set_xreg rd v g).
Proof.
  intros H1 H2 Hrd Hx. apply gen_binary_ok; [done..|]. intros r Hr. eapply gens_bind.
  - apply (temp_ok g stk (only rd) (Alu_imm32 false 0x81 4 RCX 0x1f) _ (fun f _ => f RCX = xreg g rs2 /\ f r = xreg g rs1)
      (fun f _ => f RCX = xreg g rs2 .& 0x1f /\ f r = xreg g rs1)); [done|by intros s [Hs _]| |].
    + intros s c (Hs & Hm). split; [|done]. by apply st_ok_map; [|apply Hs].
    + intros h [E1 E2]. eexists _, _. split; [cbn [hexec mi_op]; reflexivity|]. rewrite upd_eq, upd_ne by done. split; [|done].
      rewrite E1. unfold low, width. change (i32 31) with 31. rewrite Z.mod_small; [done|]. by apply xreg_u32.
  - intros []. apply write_commit; [done|done|]. intros h _ [E1 E2]. by apply Hx.
Qed.

(** ** Conditions *)

Lemma gen_set_eq (cc r : Z) (s : jit_state) (i : nat) (e : host_reg) :
  st_ok s -> s.(register_map) !! i = Some e -> e.(reg_idx) = r -> 0 <= e.(vm_reg_idx) ->
  gen_set cc r s = Some (tt, mk_jit (s.(code) ++ [Load_imm r 1; Jcc cc 1; Load_imm r 0])
    (alter (set_dirty_bit true) i s.(register_map)) s.(liveness) s.(candidate_queue)).
Proof.
  intros [Hm _] He <- Hv. set (m1 := alter (set_dirty_bit true) i s.(register_map)).
  assert (Hm1 : map_ok m1).
  { apply map_ok_dirty; [done|]. intros _ f Hf. rewrite He in Hf. injection Hf as <-. lia. }
  assert (He1 : m1 !! i = Some (set_dirty_bit true e)) by (unfold m1; rewrite list_lookup_alter_eq; by rewrite He).
  unfold gen_set. unfold bind at 1. unfold emit_load_imm at 1. rewrite emit_dirty_eq. unfold dirtied.
  rewrite (alter_first_at _ _ i e Hm He). fold m1. erewrite (jump_over_eq _ _ _ _ [Load_imm (reg_idx e) 0]).
  2: { unfold emit_load_imm. rewrite emit_dirty_eq. reflexivity. }
  2: { reflexivity. }
  cbn [code register_map liveness candidate_queue dirtied length]. rewrite <- app_assoc.
  change (reg_idx e) with (reg_idx (set_dirty_bit true e)) at 4. rewrite (alter_first_at _ _ i _ Hm1 He1). unfold m1.
  by rewrite alter_alter_dirty.
Qed.

Lemma gen_set_ok (rd r cc : Z) (b : bool) (R : (Z -> Z) -> option flags -> Prop) :
  0 <= rd < 32 -> (forall f fl, R f fl -> jcc_cond cc fl = Some b) ->
  gens (fun s => st_ok s /\ mapped s.(register_map) rd r) (holds g stk (only rd) R) (gen_set cc r)
    (fun _ => st_ok) (fun _ => at_guest (set_xreg rd (b2z b) g)).
Proof.
  intros Hrd Hb s (Hs & (i & e & He & Ev & Er)). pose proof (so_map_ok _ Hs) as Hm.
  rewrite (gen_set_eq cc r s i e Hs He Er ltac:(lia)). eexists tt, _, _. split; [reflexivity|]. split; [reflexivity|].
  assert (Hm1 : map_ok (alter (set_dirty_bit true) i s.(register_map))).
  { apply map_ok_dirty; [done|]. intros _ f Hf. rewrite He in Hf. injection Hf as <-. lia. }
  assert (He1 : alter (set_dirty_bit true) i s.(register_map) !! i = Some (set_dirty_bit true e))
    by (rewrite list_lookup_alter_eq; by rewrite He).
  split; [by apply st_ok_map|]. intros h [Hsim HR]. pose proof (Hb _ _ HR) as Hj.
  assert (Hset : forall v h, sim (only rd) stk s.(register_map) g h -> sim (only rd) stk s.(register_map) g (set_hreg r v h)).
  { intros v h0 Hs0. rewrite <- Er. eapply sim_weaken; [apply (sim_set_hreg _ _ (only rd) _ _ i); [done|exact Hs0|done]|].
    intros w [Hw|Hw]; unfold only in *; congruence. }
  assert (Hd : dirty_at (alter (set_dirty_bit true) i s.(register_map)) r).
  { intros j f Hf Ef. assert (j = i) as ->.
    { apply (entry_by_reg _ Hm1 j i f (set_dirty_bit true e)); [done|done|]. by rewrite Ef. }
    rewrite He1 in Hf. by injection Hf as <-. }
  assert (Hdone : forall h', sim (only rd) stk s.(register_map) g h' -> h'.(hregs) r = b2z b ->
    sim nohole stk (alter (set_dirty_bit true) i s.(register_map)) (set_xreg rd (b2z b) g) h').
  { intros h' Hs' Hv. apply (sim_commit g stk Hwf rd r); [done|done|by exists i, (set_dirty_bit true e)|done| |done].
    by apply (sim_dirty _ _ _ _ _ i e). }
  exists (if b then set_hreg r 1 h else set_hreg r 0 (set_hreg r 1 h)). split.
  - cbn [hrun hexec set_hreg hflags]. rewrite Hj. by destruct b.
  - split; [|done]. apply Hdone; [destruct b; auto|]. destruct b; apply upd_eq.
Qed.

Lemma gen_set_imm_ok (rs1 rd imm cc : Z) (b : bool) :
  0 <= rs1 < 32 -> 0 <= rd < 32 ->
  jcc_cond cc (Some (arith_flags false (xreg g rs1 - u32 imm) (i32 (xreg g rs1) - i32 imm))) = Some b ->
  steps g (r0 <- ra_load rs1;; emit_cmp_imm32 r0 imm;; r1 <- map_vm_reg_reserved rd r0;; gen_set cc r1) (set_xreg rd (b2z b) g).
Proof.
  intros H1 Hrd Hb. eapply gens_bind; [apply (ra_load_ok g stk Hwf Hx0 rs1 (fun _ _ => True)); done|]. intros r0.
  apply (learn rs1 r0); [done|by intros s [_ Hm]|].
  set (fl := Some (arith_flags false (xreg g rs1 - u32 imm) (i32 (xreg g rs1) - i32 imm))) in *.
  eapply gens_bind.
  { eapply gens_pre; [| |apply (flags_ok g stk rs1 r0 (Alu_imm32 false 0x81 7 r0 imm) [] nohole (fun f _ => f r0 = xreg g rs1)
      (fun _ fl' => fl' = fl)); [done|done|]].
    - intros s [Hs Hm]. split; [done|]. split; [done|constructor].
    - intros s h _ [Hsim [_ Hv]]. done.
    - intros h Hv. exists fl. split; [|done]. cbn [hexec mi_op]. rewrite Hv. unfold alu_exec, fl, signed, low, width.
      rewrite (Z.mod_small (xreg g rs1)) by (by apply xreg_u32). change (i32 imm mod 2 ^ 32) with (u32 (i32 imm)).
      change (sx 32) with i32. by rewrite u32_i32, i32_u32. }
  intros []. eapply gens_bind.
  { eapply gens_pre; [| |apply (map_dest_ok g stk Hwf Hx0 [r0] [] rd (fun _ fl' => fl' = fl))];
      [|done|cbn; lia|done|constructor]. intros s (Hs & Hm & _). split; [done|constructor]. }
  intros r1. eapply gens_pre; [| |apply (gen_set_ok rd r1 cc b (fun _ fl' => fl' = fl))]; [|done|done|by intros f ? ->].
  intros s (Hs & Hm & _). done.
Qed.

Lemma gen_set_reg_ok (rs1 rs2 rd cc : Z) (b : bool) :
  0 <= rs1 < 32 -> 0 <= rs2 < 32 -> 0 <= rd < 32 ->
  jcc_cond cc (Some (arith_flags false (xreg g rs1 - xreg g rs2) (i32 (xreg g rs1) - i32 (xreg g rs2)))) = Some b ->
  steps g (r <- ra_load2 rs1 rs2;; r2 <- map_vm_reg_reserved2 rd r.1 r.2;; emit_cmp32 r.2 r.1;; gen_set cc r2)
    (set_xreg rd (b2z b) g).
Proof.
  intros H1 H2 Hrd Hb. apply load2_dest_ok; [done|done|done|]. intros r r2 _ _.
  set (fl := Some (arith_flags false (xreg g rs1 - xreg g rs2) (i32 (xreg g rs1) - i32 (xreg g rs2)))) in *.
  eapply gens_bind.
  { eapply gens_pre; [| |apply (flags_ok g stk rs1 r.1 (Alu false 0x39 r.2 r.1) [(rd, r2)] (only rd)
      (fun f _ => f r.1 = xreg g rs1 /\ f r.2 = xreg g rs2) (fun _ fl' => fl' = fl)); [done|done|]]; [|done|].
    - intros s (Hs & Hm & M1). split; [done|]. split; [done|]. by repeat constructor.
    - intros h [E1 E2]. exists fl. split; [|done]. cbn [hexec mr_op]. rewrite E1, E2. unfold alu_exec, fl, signed, low, width.
      by rewrite !Z.mod_small by (by apply xreg_u32). }
  intros []. eapply gens_pre; [| |apply (gen_set_ok rd r2 cc b (fun _ fl' => fl' = fl))]; [|done|done|by intros f ? ->].
  intros s (Hs & _ & [Hm _]%Forall_cons). done.
Qed.

(** ** Memory accesses *)

Lemma set_dirty_temp (s : jit_state) (b : bool) : st_ok s -> set_dirty RCX b s = Some (tt, s).
Proof.
  intros [Hm _]. destruct s as [c m l q]. unfold set_dirty, modify, set_register_map. cbn [code register_map liveness candidate_queue] in *.
  by rewrite alter_first_none by (done || apply rcx_not_mapped).
Qed.

(** A 64-bit constant in the scratch register. *)
Lemma temp_const_ok (hole : Z -> Prop) (A : Z) (S : jit_state -> Prop) (R : (Z -> Z) -> option flags -> Prop) :
  (forall s, S s -> st_ok s) -> (forall s c, S s -> S (mk_jit c s.(register_map) s.(liveness) s.(candidate_queue))) ->
  (forall f fl, R f fl -> R (upd RCX (u64 A) f) fl) ->
  gens S (holds g stk hole R) (emit_load_imm_sext temp_reg A) (fun _ => S) (fun _ => holds g stk hole (fun f fl => R f fl /\ f RCX = u64 A)).
Proof.
  intros HS1 HS2 HR. unfold emit_load_imm_sext, temp_reg.
  assert (Hx : forall i, straight_insn i -> (forall h, hexec i h = Some (set_hreg RCX (u64 A) h)) ->
    gens S (holds g stk hole R) (emit i;; set_dirty RCX true) (fun _ => S) (fun _ => holds g stk hole (fun f fl => R f fl /\ f RCX = u64 A))).
  { intros i Hi Hx. apply temp_ok; [done|done|done|]. intros h Hh. exists (u64 A), h.(hflags). rewrite Hx. split; [done|].
    rewrite upd_eq. split; [by apply HR|done]. }
  destruct (i32 A =? A) eqn:E; [|by apply Hx].
  eapply gens_bind.
  - apply Hx; [done|]. intros h. apply Z.eqb_eq in E. cbn [hexec mi_op]. unfold alu_exec, low, width. by rewrite E.
  - intros []. intros s Hs. exists tt, s, []. rewrite (set_dirty_temp s true) by auto. split; [done|]. split; [by rewrite app_nil_r|].
    split; [done|]. intros h Hh. by exists h.
Qed.

Lemma gen_address_ok (rs1 imm : Z) :
  0 <= rs1 < 32 -> 0 <= xreg g rs1 + imm < 2 ^ 32 ->
  gens st_ok (at_guest g) (gen_address rs1 imm) (fun _ => st_ok)
    (fun _ => holds g stk nohole (fun f _ => f RCX = ram_addr + (xreg g rs1 + imm))).
Proof.
  intros H1 Ha. eapply gens_bind; [apply (ra_load_ok g stk Hwf Hx0 rs1 (fun _ _ => True)); done|]. intros r.
  apply (learn rs1 r); [done|by intros s [_ Hm]|].
  eapply (gens_pure (r <> RCX)); [intros s [Hs Hm]; eapply mapped_not_rcx; [apply Hs|exact Hm]|]. intros Hr.
  assert (HS : forall s c, st_ok s /\ mapped s.(register_map) rs1 r ->
    st_ok (mk_jit c s.(register_map) s.(liveness) s.(candidate_queue)) /\ mapped s.(register_map) rs1 r).
  { intros s c [Hs Hm]. split; [|done]. by apply st_ok_map; [|apply Hs]. }
  eapply gens_bind.
  { apply temp_const_ok; [by intros s [Hs _]|exact HS|]. intros f fl [_ Hv]. by rewrite upd_ne by done. }
  intros []. eapply gens_post; [apply (temp_ok g stk nohole (Alu true 0x01 r RCX) _ _
    (fun f _ => f RCX = ram_addr + (xreg g rs1 + imm))); [done|by intros s [Hs _]|exact HS|]|by intros [] s [Hs _]|done].
  intros h [[_ E1] E2]. eexists _, _. split; [cbn [hexec mr_op]; reflexivity|]. rewrite upd_eq, E1, E2. destruct heo_ram.
  unfold low, width, u64. rewrite Z.mod_mod, <- Zplus_mod by lia. rewrite Z.mod_small; lia.
Qed.

(** Accesses to RAM. *)
Lemma ram_access (n : nat) (a : Z) (h : host) :
  core h.(hrv) = core g -> 0 <= a < 2 ^ 32 -> GUEST_RAM_CONTAINS g.(mem) a (Z.of_nat n) = true ->
  u64 (ram_addr + a + 0) = ram_addr + a /\ in_ram h.(hrv).(mem) (ram_addr + a) (Z.of_nat n) = true /\
  h.(hrv).(mem) = g.(mem) /\ ram_addr + a - ram_addr = a.
Proof.
  intros Hc Ha Hin. destruct (core_fields _ _ Hc) as [Hm _]. destruct heo_ram. split; [|split; [|split]].
  - unfold u64. rewrite Z.mod_small; lia.
  - unfold in_ram. rewrite Hm. replace (ram_addr + a - ram_addr) with a by lia. rewrite Hin. lia.
  - done.
  - lia.
Qed.

Lemma load_exec (n : nat) (a : Z) (h : host) :
  core h.(hrv) = core g -> 0 <= a < 2 ^ 32 -> GUEST_RAM_CONTAINS g.(mem) a (Z.of_nat n) = true ->
  hload n (u64 (ram_addr + a + 0)) h = Some (load_le n g.(mem) a).
Proof.
  intros Hc Ha Hin. destruct (ram_access n a h Hc Ha Hin) as (-> & Hr & Hm & E). unfold hload. by rewrite Hr, Hm, E.
Qed.

(** A destination other than x0 is loaded. *)
Lemma emit_load_eq (sext : bool) (size : operand_size) (rd r : Z) (s : jit_state) :
  st_ok s -> rd <> 0 -> mapped s.(register_map) rd r ->
  (if sext then emit_load_sext else emit_load) size RCX r 0 s =
  (emit (if sext then Load_sext size RCX r 0 else Load size RCX r 0);; set_dirty r true) s.
Proof.
  intros [Hm _] Hrd (i & e & He & Ev & <-). destruct sext; unfold emit_load_sext, emit_load, bind at 1, gets;
    rewrite (holds_x0_entry _ i e Hm He), (proj2 (Z.eqb_neq _ _)) by lia; done.
Qed.

(** A load into a register. *)
Lemma load_dest_ok (sext : bool) (size : operand_size) (rs1 imm rd v : Z) :
  0 <= rs1 < 32 -> 0 < rd < 32 -> 0 <= xreg g rs1 + imm < 2 ^ 32 ->
  (forall r h, core h.(hrv) = core g -> h.(hregs) RCX = ram_addr + (xreg g rs1 + imm) ->
     hexec (if sext then Load_sext size RCX r 0 else Load size RCX r 0) h = Some (set_hreg r v h)) ->
  steps g (gen_address rs1 imm;; r <- map_vm_reg rd;; (if sext then emit_load_sext else emit_load) size temp_reg r 0)
    (set_xreg rd v g).
Proof.
  intros H1 Hrd Ha Hx. eapply gens_bind; [by apply gen_address_ok|]. intros []. eapply gens_bind.
  { eapply gens_pre; [| |apply (map_dest_ok g stk Hwf Hx0 [-1] [] rd (fun f _ => f RCX = ram_addr + (xreg g rs1 + imm)))];
      [|done|cbn; lia|lia|constructor]. intros s Hs. split; [done|constructor]. }
  intros r. intros s (Hs & Hm & _). unfold temp_reg. rewrite (emit_load_eq sext size rd r s Hs ltac:(lia) Hm).
  apply (write_commit rd r v (if sext then Load_sext size RCX r 0 else Load size RCX r 0)
    (fun f _ => f RCX = ram_addr + (xreg g rs1 + imm))); [lia|by destruct sext| |done].
  intros h Hc Hv. exists h.(hflags). by apply Hx.
Qed.

Lemma gen_load_ok (size : operand_size) (rs1 imm rd : Z) :
  0 <= rs1 < 32 -> 0 < rd < 32 -> 0 <= xreg g rs1 + imm < 2 ^ 32 ->
  GUEST_RAM_CONTAINS g.(mem) (xreg g rs1 + imm) (Z.of_nat (size_bytes size)) = true ->
  steps g (gen_load size rs1 imm rd) (set_xreg rd (load_le (size_bytes size) g.(mem) (xreg g rs1 + imm)) g).
Proof.
  intros H1 Hrd Ha Hin. apply (load_dest_ok false); [done..|]. intros r h Hc E. cbn [hexec]. rewrite E.
  by rewrite load_exec.
Qed.

Lemma gen_load_sext_ok (size : operand_size) (rs1 imm rd v : Z) :
  0 <= rs1 < 32 -> 0 < rd < 32 -> 0 <= xreg g rs1 + imm < 2 ^ 32 ->
  GUEST_RAM_CONTAINS g.(mem) (xreg g rs1 + imm) (Z.of_nat (size_bytes size)) = true ->
  (size = S8 /\ v = u32 (i8 (load_le 1 g.(mem) (xreg g rs1 + imm))) \/
   size = S16 /\ v = u32 (i16 (load_le 2 g.(mem) (xreg g rs1 + imm)))) ->
  steps g (gen_load_sext size rs1 imm rd) (set_xreg rd v g).
Proof.
  intros H1 Hrd Ha Hin Hv. apply (load_dest_ok true); [done..|]. intros r h Hc E. cbn [hexec]. rewrite E.
  rewrite load_exec by done. by destruct Hv as [[-> ->]|[-> ->]].
Qed.

Lemma sim_store (hole : Z -> Prop) (m : list host_reg) (h : host) (m' : memory_t) :
  sim hole stk m g h -> sim hole stk m (set_mem m' g) (set_hrv (set_mem m' h.(hrv)) h).
Proof.
  intros [Hrdi Hstk Hc Hl Hz Hmap Hcl Hun]. constructor; try done. exact (f_equal (set_mem m') Hc).
Qed.

Lemma gen_store_ok (size : operand_size) (rs1 imm rs2 : Z) :
  0 <= rs1 < 32 -> 0 <= rs2 < 32 -> 0 <= xreg g rs1 + imm < 2 ^ 32 ->
  GUEST_RAM_CONTAINS g.(mem) (xreg g rs1 + imm) (Z.of_nat (size_bytes size)) = true ->
  steps g (gen_store size rs1 imm rs2)
    (set_mem (store_le (size_bytes size) g.(mem) (xreg g rs1 + imm) (xreg g rs2)) g).
Proof.
  intros H1 H2 Ha Hin. eapply gens_bind; [by apply gen_address_ok|]. intros []. eapply gens_bind.
  { apply (ra_load_ok g stk Hwf Hx0 rs2 (fun f _ => f RCX = ram_addr + (xreg g rs1 + imm))); [done|].
    intros f f' fl Hf <-. apply Hf, rcx_not_mapped. }
  intros r. apply (learn rs2 r); [done|by intros s [_ Hm]|]. intros s (Hs & Hmp). pose proof (so_map_ok _ Hs) as Hm.
  destruct Hmp as (i & e & He & Ev & <-). unfold temp_reg, emit_store, bind at 1, gets.
  rewrite (holds_x0_entry _ i e Hm He). unfold size_bytes in *.
  assert (Hst : forall v h, core h.(hrv) = core g -> h.(hregs) RCX = ram_addr + (xreg g rs1 + imm) ->
    hstore (match size with S8 => 1 | S16 => 2 | S32 => 4 | S64 => 8 end) (u64 (h.(hregs) RCX + 0)) v h = Some (set_hrv (set_mem (store_le
      (match size with S8 => 1 | S16 => 2 | S32 => 4 | S64 => 8 end) g.(mem) (xreg g rs1 + imm) v) h.(hrv)) h)).
  { intros v h Hc E. rewrite E. destruct (ram_access _ _ h Hc Ha Hin) as (-> & Hr & Hme & E2). unfold hstore. by rewrite Hr, Hme, E2. }
  destruct (Z.eqb_spec (vm_reg_idx e) 0) as [Ez|Ez].
  - eexists tt, _, [Store_zero size RCX 0]. split; [reflexivity|]. split; [reflexivity|]. cbn [register_map set_register_map].
    rewrite (alter_first_at _ _ i e Hm He). split; [apply (st_ok_map s); [done|by apply map_ok_dirty]|].
    intros h [Hsim [E1 E2]]. eexists. split.
    + cbn [hrun hexec]. rewrite Hst by (done || apply Hsim). reflexivity.
    + split; [|done]. cbn [register_map]. rewrite <- Ev, Ez, Hx0. apply (sim_dirty _ _ _ _ _ i e); [by apply sim_store|done|].
      intros _ _. rewrite Ez. cbn [hrv set_hrv]. transitivity (xreg h.(hrv) 0); [done|].
      rewrite (sm_zero _ _ _ _ _ Hsim). symmetry. exact Hx0.
  - eexists tt, _, [Store size (reg_idx e) RCX 0]. split; [reflexivity|]. split; [reflexivity|]. cbn [register_map set_code].
    split; [by apply (st_ok_map s)|]. intros h [Hsim [E1 E2]]. eexists. split.
    + cbn [hrun hexec]. rewrite Hst by (done || apply Hsim). reflexivity.
    + split; [|done]. rewrite E2. by apply sim_store.
Qed.
End Guest.
End Insn.
