(* ===== verification/JitMul.v ===== *)
(** The code of the multiplications and divisions (muldivmod), which goes
    through RAX and RDX whatever they hold. *)

From stdpp Require Import base list option numbers gmap.
From Stdlib Require Import ZArith Lia Bool.
From S2P Require Import Prelude Bits Insn Decode Mem MemSpec State Trap Csr Fp Alu Exec ExecWf Equiv Late Block X64 Jit JitAlloc JitInsn.
#[local] Open Scope Z_scope.
#[local] Open Scope jit_scope.

(** * The code *)

Definition md_push (r : Z) : list hinsn :=
  (if r =? RAX then [] else [Push RAX]) ++ (if r =? RDX then [] else [Push RDX]) ++
  [Alu true 0x89 RCX RCX; Alu true 0x89 r RAX].

Definition md_pop (r : Z) (mod_ : bool) : list hinsn :=
  (if r =? RDX then [] else (if mod_ then [Alu true 0x89 RDX r] else []) ++ [Pop RDX]) ++
  (if r =? RAX then [] else (if mod_ then [] else [Alu true 0x89 RAX r]) ++ [Pop RAX]).

Definition md_guard (mod_ : bool) : list hinsn :=
  (if mod_ then [Push RAX] else []) ++
  [Alu false 0x85 RCX RCX; Pushf; Load_imm RDX 1; Cmovz RDX RCX; Alu false 0x31 RDX RDX].

Definition md_unguard (mod_ : bool) : list hinsn :=
  Popf :: if mod_ then [Pop RCX; Cmovz RCX RDX] else [Alu_imm32 true 0xc7 0 RCX (-1); Cmovz RCX RAX].

Inductive md_op : Type := Mul | Mul64 | Div | Mod.

Definition md_code (o : md_op) : list hinsn :=
  match o with
  | Mul => [Alu false 0xf7 4 RCX]
  | Mul64 => [Alu true 0xf7 4 RCX]
  | Div => md_guard false ++ [Alu false 0xf7 6 RCX] ++ md_unguard false
  | Mod => md_guard true ++ [Alu false 0xf7 6 RCX] ++ md_unguard true
  end.

Definition md_byte (o : md_op) : Z := match o with Mul => 0x28 | Mul64 => 0x2f | Div => 0x38 | Mod => 0x98 end.
Definition md_is_mod (o : md_op) : bool := match o with Mod => true | _ => false end.

Definition md_all (o : md_op) (r : Z) : list hinsn := md_push r ++ md_code o ++ md_pop r (md_is_mod o).

(** A well-formed map, entry by entry. *)
Lemma map_entries (m : list host_reg) :
  map_ok m -> exists e0 e1 e2 e3 e4 e5 e6 e7 e8 e9, m = [e0; e1; e2; e3; e4; e5; e6; e7; e8; e9] /\
    [reg_idx e0; reg_idx e1; reg_idx e2; reg_idx e3; reg_idx e4; reg_idx e5; reg_idx e6; reg_idx e7; reg_idx e8; reg_idx e9] = map_regs.
Proof.
  intros Hm. pose proof (mo_regs _ Hm) as E.
  do 10 (destruct m as [|? m]; [discriminate E|]). destruct m; [|discriminate E].
  do 10 eexists. split; [reflexivity|]. exact E.
Qed.

Lemma muldivmod_eq (o : md_op) (s : jit_state) (i : nat) (e : host_reg) :
  st_ok s -> s.(register_map) !! i = Some e ->
  muldivmod (md_byte o) RCX e.(reg_idx) false s =
    Some (tt, mk_jit (s.(code) ++ md_all o e.(reg_idx)) (alter (set_dirty_bit true) i s.(register_map)) s.(liveness) s.(candidate_queue)).
Proof.
  intros [Hm _] He. destruct s as [c m l q]. cbn [register_map code liveness candidate_queue] in *.
  destruct (map_entries m Hm) as 
    ([r0 v0 d0 a0] & [r1 v1 d1 a1] & [r2 v2 d2 a2] & [r3 v3 d3 a3] & [r4 v4 d4 a4] & [r5 v5 d5 a5] & [r6 v6 d6 a6] & [r7 v7 d7 a7] & [r8 v8 d8 a8] & [r9 v9 d9 a9] & -> & E). clear Hm.
  cbn [reg_idx] in E. injection E as -> -> -> -> -> -> -> -> -> ->.
  destruct i as [|[|[|[|[|[|[|[|[|[|i]]]]]]]]]]; [..|done].
  all: injection He as <-; cbn [reg_idx]; destruct o; cbv -[app]; rewrite <- ?app_assoc; reflexivity.
Qed.

(** * Running it *)

Definition is_u64 (x : Z) : Prop := 0 <= x < 2 ^ 64.

Lemma low64 (x : Z) : is_u64 x -> low true x = x.
Proof. apply Z.mod_small. Qed.
Lemma low32 (x : Z) : is_u32 x -> low false x = x.
Proof. apply Z.mod_small. Qed.
Lemma u32_u64 (x : Z) : is_u32 x -> is_u64 x.
Proof. unfold is_u32, is_u64. lia. Qed.

(** What the operation leaves in its result register. *)
Definition md_value (o : md_op) (x y : Z) : Z :=
  match o with
  | Mul => u32 (x * y)
  | Mul64 => x * y
  | Div => x / y
  | Mod => if y =? 0 then x else x mod y
  end.

Definition md_result (o : md_op) : Z := if md_is_mod o then RDX else RAX.

(** The pushed registers. *)
Definition md_saved (r : Z) (h : host) : list slot :=
  (if r =? RDX then [] else [Word (h.(hregs) RDX)]) ++ (if r =? RAX then [] else [Word (h.(hregs) RAX)]).

Ltac reg_eq := repeat first [rewrite upd_eq | rewrite upd_ne by (done || lia || congruence)].

(** The state after one instruction. *)
Ltac hstep :=
  cbn [hexec mr_op mi_op alu_exec set_hreg set_hflags set_hstack hregs hflags hstack hrv app].

Section Run.
Context `{HostEnv}.

Lemma md_push_run (r x y : Z) (h : host) :
  r <> RCX -> is_u32 x -> is_u32 y -> h.(hregs) r = x -> h.(hregs) RCX = y ->
  exists h1, hrun 0 (md_push r) h = Fell 0 h1 /\ h1.(hregs) RAX = x /\ h1.(hregs) RCX = y /\
    h1.(hstack) = md_saved r h ++ h.(hstack) /\ h1.(hrv) = h.(hrv) /\
    forall z, z <> RAX -> h1.(hregs) z = h.(hregs) z.
Proof.
  intros Hr Hx Hy Ex Ey. pose proof (u32_u64 _ Hx) as Hx'. pose proof (u32_u64 _ Hy) as Hy'.
  exists (mk_host (upd RAX x (upd RCX y h.(hregs))) h.(hflags) (md_saved r h ++ h.(hstack)) h.(hrv)). split.
  - unfold md_push, md_saved. destruct (r =? RAX), (r =? RDX);
      cbn [app hrun hexec mr_op alu_exec set_hreg set_hstack hregs hflags hstack hrv];
      rewrite Ey, (low64 y), (upd_ne RCX r), Ex, (low64 x) by done; done.
  - cbn [hregs hstack hrv]. split; [apply upd_eq|]. split; [by rewrite upd_ne, upd_eq|]. split; [done|]. split; [done|].
    intros z Hz. rewrite upd_ne by done. destruct (decide (z = RCX)) as [->|]; [by rewrite upd_eq|by rewrite upd_ne].
Qed.

Lemma md_pop_run (r w : Z) (mod_ : bool) (h h2 : host) (st : list slot) :
  r <> RCX -> is_u64 w -> h2.(hstack) = md_saved r h ++ st -> h2.(hregs) (if mod_ then RDX else RAX) = w ->
  exists h3, hrun 0 (md_pop r mod_) h2 = Fell 0 h3 /\ h3.(hregs) r = w /\ h3.(hstack) = st /\ h3.(hrv) = h2.(hrv) /\
    forall z, z <> r -> h3.(hregs) z = if (z =? RAX) || (z =? RDX) then h.(hregs) z else h2.(hregs) z.
Proof.
  intros Hr Hw Hst Hv. destruct h2 as [f fl stk2 rv]. cbn [hregs hstack hrv] in *. subst stk2. unfold md_pop, md_saved.
  destruct (Z.eqb_spec r RDX) as [Ed|H1], (Z.eqb_spec r RAX) as [E|H2]; [by rewrite Ed in E| | |].
  - subst r. destruct mod_; cbn [app hrun hexec mr_op alu_exec set_hreg set_hstack hregs hflags hstack hrv];
      (eexists; split; [reflexivity|]); cbn [hregs hstack hrv set_hreg set_hstack].
    + split; [by rewrite upd_ne|]. split; [done|]. split; [done|]. intros z Hz. destruct (Z.eqb_spec z RAX) as [->|Ha]; [apply upd_eq|].
      rewrite upd_ne by done. by rewrite (proj2 (Z.eqb_neq _ _) Hz).
    + split; [rewrite upd_ne, upd_eq, Hv by done; by apply low64|]. split; [done|]. split; [done|]. intros z Hz.
      destruct (Z.eqb_spec z RAX) as [->|Ha]; [apply upd_eq|]. rewrite !upd_ne by done. by rewrite (proj2 (Z.eqb_neq _ _) Hz).
  - subst r. destruct mod_; cbn [app hrun hexec mr_op alu_exec set_hreg set_hstack hregs hflags hstack hrv];
      (eexists; split; [reflexivity|]); cbn [hregs hstack hrv set_hreg set_hstack].
    + split; [rewrite upd_ne, upd_eq, Hv by done; by apply low64|]. split; [done|]. split; [done|]. intros z Hz.
      rewrite (proj2 (Z.eqb_neq _ _) Hz). destruct (Z.eqb_spec z RDX) as [->|Ha]; [apply upd_eq|]. by rewrite !upd_ne.
    + split; [by rewrite upd_ne|]. split; [done|]. split; [done|]. intros z Hz. rewrite (proj2 (Z.eqb_neq _ _) Hz).
      destruct (Z.eqb_spec z RDX) as [->|Ha]; [apply upd_eq|]. by rewrite !upd_ne.
  - destruct mod_; cbn [app hrun hexec mr_op alu_exec set_hreg set_hstack hregs hflags hstack hrv];
      (eexists; split; [reflexivity|]); cbn [hregs hstack hrv set_hreg set_hstack].
    + split; [rewrite !upd_ne, upd_eq, Hv by done; by apply low64|]. split; [done|]. split; [done|]. intros z Hz.
      destruct (Z.eqb_spec z RAX) as [->|Ha]; [apply upd_eq|]. rewrite upd_ne by done.
      destruct (Z.eqb_spec z RDX) as [->|Hd]; [apply upd_eq|]. by rewrite !upd_ne.
    + split; [rewrite upd_ne, upd_eq, upd_ne, Hv by done; by apply low64|]. split; [done|]. split; [done|]. intros z Hz.
      destruct (Z.eqb_spec z RAX) as [->|Ha]; [apply upd_eq|]. rewrite !(upd_ne RAX), (upd_ne r) by done.
      destruct (Z.eqb_spec z RDX) as [->|Hd]; [apply upd_eq|]. by rewrite upd_ne.
Qed.

(** An unsigned division of a 32-bit dividend. *)
Lemma div_exec (x d : Z) (h : host) :
  is_u32 x -> is_u32 d -> d <> 0 -> h.(hregs) RAX = x -> h.(hregs) RDX = 0 -> h.(hregs) RCX = d ->
  hexec (Alu false 0xf7 6 RCX) h = Some (set_hflags None (set_hreg RDX (x mod d) (set_hreg RAX (x / d) h))).
Proof.
  intros Hx Hd Hn Ea Ed Ec. cbn [hexec]. rewrite Ec. unfold muldiv_exec. rewrite Ea, Ed, !low32 by done.
  change (low false 0 * 2 ^ width false + x) with x. rewrite (proj2 (Z.eqb_neq _ _) Hn). cbn [orb].
  assert (x / d < 2 ^ 32) by (unfold is_u32 in *; apply Z.div_lt_upper_bound; nia).
  rewrite (proj2 (Z.leb_gt _ _)) by done. done.
Qed.

(** Stepping over one instruction. *)
Lemma hrun_cons (i : hinsn) (c : list hinsn) (h h' : host) :
  straight_insn i -> hexec i h = Some h' -> hrun 0 (i :: c) h = hrun 0 c h'.
Proof. intros Hi E. destruct i; try done; cbn [hrun]; by rewrite E. Qed.

(** The divisor is replaced by 1 when it is zero. *)
Lemma md_guard_run (mod_ : bool) (x y : Z) (h : host) (c : list hinsn) :
  is_u32 x -> is_u32 y -> h.(hregs) RAX = x -> h.(hregs) RCX = y ->
  exists h1, hrun 0 (md_guard mod_ ++ c) h = hrun 0 c h1 /\ h1.(hregs) RAX = x /\ h1.(hregs) RDX = 0 /\
    h1.(hregs) RCX = (if y =? 0 then 1 else y) /\
    h1.(hstack) = Flags (Some (logic_flags false y)) :: (if mod_ then [Word x] else []) ++ h.(hstack) /\
    h1.(hrv) = h.(hrv) /\ forall z, z <> RCX -> z <> RDX -> h1.(hregs) z = h.(hregs) z.
Proof.
  intros Hx Hy Ea Ec. unfold md_guard.
  destruct h as [f fl st rv]. cbn [hregs hstack hrv] in *. rewrite <- app_assoc.
  assert (Hpush : forall k, hrun 0 ((if mod_ then [Push RAX] else []) ++ k) (mk_host f fl st rv) =
    hrun 0 k (mk_host f fl ((if mod_ then [Word x] else []) ++ st) rv)) by (destruct mod_; [cbn; by rewrite Ea|done]).
  rewrite Hpush. clear Hpush. generalize ((if mod_ then [Word x] else []) ++ st). intros st1. cbn [app].
  rewrite (hrun_cons (Alu false 0x85 RCX RCX) _ _ (mk_host f (Some (logic_flags false y)) st1 rv));
    [|done|cbn [hexec mr_op alu_exec hregs]; by rewrite Ec, low32, Z.land_diag].
  do 2 (erewrite hrun_cons; [|done|hstep; reflexivity]).
  assert (Hz : ZF (logic_flags false y) = (y =? 0)) by done.
  exists (mk_host (upd RDX 0 (if y =? 0 then upd RCX 1 (upd RDX 1 f) else upd RDX 1 f)) (Some (logic_flags false 0))
    (Flags (Some (logic_flags false y)) :: st1) rv). cbn [hregs hstack hrv]. split.
  - destruct (y =? 0) eqn:E.
    + erewrite hrun_cons; [|done|hstep; rewrite Hz; reflexivity].
      erewrite hrun_cons; [|done|hstep; rewrite Z.lxor_nilpotent; reflexivity]. done.
    + erewrite hrun_cons; [|done|hstep; rewrite Hz; reflexivity].
      erewrite hrun_cons; [|done|hstep; rewrite Z.lxor_nilpotent; reflexivity]. done.
  - split; [by destruct (y =? 0)|]. split; [apply upd_eq|]. split; [by destruct (y =? 0)|]. split; [done|]. split; [done|].
    intros z H1 H2. rewrite upd_ne by done. destruct (y =? 0); by rewrite !upd_ne.
Qed.

Lemma md_unguard_run (mod_ : bool) (x y q d : Z) (h : host) (st : list slot) :
  h.(hstack) = Flags (Some (logic_flags false y)) :: (if mod_ then [Word x] else []) ++ st ->
  h.(hregs) RAX = q -> h.(hregs) RDX = d -> (mod_ = false -> y <> 0) ->
  exists h1, hrun 0 (md_unguard mod_) h = Fell 0 h1 /\
    h1.(hregs) (if mod_ then RDX else RAX) = (if mod_ then if y =? 0 then x else d else q) /\
    h1.(hstack) = st /\ h1.(hrv) = h.(hrv) /\ forall z, z <> RAX -> z <> RCX -> z <> RDX -> h1.(hregs) z = h.(hregs) z.
Proof.
  intros Hst Ea Ed Hy. assert (Hz : ZF (logic_flags false y) = (y =? 0)) by done.
  destruct h as [f fl st0 rv]. cbn [hregs hstack hrv] in *. subst st0. unfold md_unguard.
  erewrite hrun_cons; [|done|hstep; reflexivity]. destruct mod_.
  - erewrite hrun_cons; [|done|hstep; reflexivity].
    erewrite hrun_cons; [|done|hstep; reflexivity]. rewrite Hz. eexists. split; [reflexivity|].
    destruct (y =? 0); hstep.
    + split; [by rewrite !upd_eq|]. split; [done|]. split; [done|]. intros z H1 H2 H3. by rewrite !upd_ne.
    + split; [by rewrite upd_ne|]. split; [done|]. split; [done|]. intros z H1 H2 H3. by rewrite !upd_ne.
  - erewrite hrun_cons; [|done|hstep; reflexivity].
    erewrite hrun_cons; [|done|hstep; reflexivity]. rewrite Hz. eexists. split; [reflexivity|].
    rewrite (proj2 (Z.eqb_neq _ _) (Hy eq_refl)). hstep.
    split; [by rewrite upd_ne|]. split; [done|]. split; [done|]. intros z H1 H2 H3. by rewrite !upd_ne.
Qed.

Lemma md_code_run (o : md_op) (x y : Z) (h : host) :
  is_u32 x -> is_u32 y -> (o = Div -> y <> 0) -> h.(hregs) RAX = x -> h.(hregs) RCX = y ->
  exists h2, hrun 0 (md_code o) h = Fell 0 h2 /\ h2.(hregs) (md_result o) = md_value o x y /\ h2.(hstack) = h.(hstack) /\
    h2.(hrv) = h.(hrv) /\ forall z, z <> RAX -> z <> RCX -> z <> RDX -> h2.(hregs) z = h.(hregs) z.
Proof.
  intros Hx Hy Hd Ea Ec.
  assert (Hdiv : forall mod_, (mod_ = false -> y <> 0) ->
    exists h2, hrun 0 (md_guard mod_ ++ [Alu false 0xf7 6 RCX] ++ md_unguard mod_) h = Fell 0 h2 /\
      h2.(hregs) (if mod_ then RDX else RAX) = (if mod_ then if y =? 0 then x else x mod y else x / y) /\
      h2.(hstack) = h.(hstack) /\ h2.(hrv) = h.(hrv) /\ forall z, z <> RAX -> z <> RCX -> z <> RDX -> h2.(hregs) z = h.(hregs) z).
  { intros mod_ Hn. destruct (md_guard_run mod_ x y h ([Alu false 0xf7 6 RCX] ++ md_unguard mod_) Hx Hy Ea Ec)
      as (h1 & E1 & A1 & D1 & C1 & S1 & V1 & K1). rewrite E1. cbn [app].
    set (d := if y =? 0 then 1 else y) in *.
    assert (Hd32 : is_u32 d) by (unfold d; destruct (y =? 0); [done|exact Hy]).
    assert (Hd0 : d <> 0) by (unfold d; destruct (Z.eqb_spec y 0); [done|done]).
    rewrite (hrun_cons (Alu false 0xf7 6 RCX) _ _ _ I (div_exec x d h1 Hx Hd32 Hd0 A1 D1 C1)).
    set (h1' := set_hflags None _).
    destruct (md_unguard_run mod_ x y (x / d) (x mod d) h1' h.(hstack) S1 eq_refl eq_refl Hn) as (h2 & E2 & R2 & S2 & V2 & K2).
    exists h2. split; [exact E2|]. split; [|split; [done|split; [by rewrite V2|]]].
    - rewrite R2. unfold d. destruct mod_; destruct (Z.eqb_spec y 0); try done. by destruct Hn.
    - intros z Z1 Z2 Z3. rewrite K2 by done. unfold h1'. cbn [hregs set_hflags set_hreg]. rewrite !upd_ne by done. by apply K1. }
  destruct o; cbn [md_code md_result md_is_mod md_value].
  - eexists. split; [apply hrun_one; [done|cbn [hexec muldiv_exec]; reflexivity]|]. hstep.
    split; [|split; [done|split; [done|by intros z ? ? ?; rewrite !upd_ne]]]. by rewrite upd_ne, upd_eq, Ea, Ec, (low32 x), (low32 y).
  - eexists. split; [apply hrun_one; [done|cbn [hexec muldiv_exec]; reflexivity]|]. hstep.
    split; [|split; [done|split; [done|by intros z ? ? ?; rewrite !upd_ne]]].
    rewrite upd_ne, upd_eq, Ea, Ec, (low64 x), (low64 y) by (done || by apply u32_u64). apply low64.
    unfold is_u32, is_u64 in *. nia.
  - apply (Hdiv false). intros _. by apply Hd.
  - by apply (Hdiv true).
Qed.
End Run.

(** * The triple *)

Section Triple.
Context `{HostEnvOk} (stk : list slot) (g : riscv) (Hwf : riscv_wf g) (Hx0 : xreg g 0 = 0).

(** The registers that hold vm registers are as before, but for the destination. *)
Lemma sim_regs (m : list host_reg) (h h' : host) (rd r : Z) :
  map_ok m -> mapped m rd r -> rd <> -1 -> sim (only rd) stk m g h -> h'.(hrv) = h.(hrv) -> h'.(hstack) = h.(hstack) ->
  (forall z, z <> r -> z <> RCX -> h'.(hregs) z = h.(hregs) z) -> sim (only rd) stk m g h'.
Proof.
  intros Hm Hr Hrd [Hrdi Hstk Hc Hl Hz Hmap Hcl Hun] Hv Hst Hreg. pose proof (mapped_reg _ Hm _ _ Hr) as Hin.
  constructor; [|congruence|congruence|congruence|congruence| |by rewrite Hv|by rewrite Hv].
  - rewrite Hreg; [done| |done]. intros <-. by apply rdi_not_mapped.
  - intros i e He Hn Hh. rewrite Hreg; [by apply (Hmap i)| |].
    + intros E. apply Hh. eapply (mapped_fun _ Hm); [|exact Hr]. by exists i, e.
    + intros E. apply rcx_not_mapped. rewrite <- E. by eapply reg_range.
Qed.

Lemma muldiv_ok (o : md_op) (rd r x y : Z) :
  0 <= rd < 32 -> r <> RCX -> is_u32 x -> is_u32 y -> (o = Div -> y <> 0) ->
  gens (fun s => st_ok s /\ mapped s.(register_map) rd r) (holds g stk (only rd) (fun f _ => f RCX = y /\ f r = x))
    (muldivmod (md_byte o) temp_reg r false)
    (fun _ s => st_ok s /\ mapped s.(register_map) rd r /\ dirty_at s.(register_map) r)
    (fun _ => holds g stk (only rd) (fun f _ => f r = md_value o x y)).
Proof.
  intros Hrd Hr Hx Hy Hd s (Hs & (i & e & He & Ev & Er)). pose proof (so_map_ok _ Hs) as Hm. unfold temp_reg.
  pose proof (muldivmod_eq o s i e Hs He) as Eq. rewrite Er in Eq. rewrite Eq. eexists tt, _, (md_all o r). split; [reflexivity|]. split; [reflexivity|].
  cbn [register_map].
  assert (Hm1 : map_ok (alter (set_dirty_bit true) i s.(register_map))).
  { apply map_ok_dirty; [done|]. intros _ f Hf. rewrite He in Hf. injection Hf as <-. lia. }
  assert (Hmp : mapped s.(register_map) rd r) by (by exists i, e).
  split; [split_and!|].
  - by apply st_ok_map.
  - by apply mapped_dirty.
  - intros k f Hf Ef. destruct (alter_cases _ _ _ _ _ Hf) as (f0 & Hf0 & ->). case_decide as Hk; [done|].
    destruct Hk. apply (entry_by_reg _ Hm k i f0 e Hf0 He). by rewrite Er.
  - intros h [Hsim [Ey Ex]]. destruct (md_push_run r x y h Hr Hx Hy Ex Ey) as (h1 & E1 & A1 & C1 & S1 & V1 & K1).
    destruct (md_code_run o x y h1 Hx Hy Hd A1 C1) as (h2 & E2 & R2 & S2 & V2 & K2). rewrite S1 in S2.
    destruct (md_pop_run r (md_value o x y) (md_is_mod o) h h2 h.(hstack) Hr) as (h3 & E3 & R3 & S3 & V3 & K3); [|done|done|].
    { unfold is_u64, is_u32 in *. destruct o; cbn [md_value].
      - unfold u32. pose proof (Z.mod_pos_bound (x * y) (2 ^ 32)). lia.
      - nia.
      - split; [apply Z.div_pos; specialize (Hd eq_refl); lia|]. apply Z.div_lt_upper_bound; specialize (Hd eq_refl); nia.
      - destruct (Z.eqb_spec y 0); [lia|]. pose proof (Z.mod_pos_bound x y). lia. }
    exists h3. unfold md_all. rewrite !hrun_app, E1, hrun_app, E2. split; [exact E3|]. split; [|exact R3]. cbn [register_map].
    apply (sim_dirty _ _ _ _ _ i e); [|done|done]. apply (sim_regs _ h h3 rd r); [done|done|lia|done|congruence|done|].
    intros z Z1 Z2. rewrite K3 by done. destruct (Z.eqb_spec z RAX) as [->|Ha]; [done|].
    destruct (Z.eqb_spec z RDX) as [->|Hdx]; [done|]. cbn [orb]. by rewrite K2, K1.
Qed.
End Triple.
