(* ===== verification/JitGuest.v ===== *)
(** The straight-line instructions of a block: when the handler of the
    interpreter falls through, the generated code does the same to the guest. *)

From stdpp Require Import base list option numbers gmap.
From Stdlib Require Import ZArith Lia Bool.
From S2P Require Import Prelude Bits Insn Decode Mem MemSpec State Trap Csr Fp Alu AluSpec Exec IsaValues Isa IsaRefine DecodeExec ExecWf Equiv Frame Late Block FusionSpec X64 Jit JitAlloc JitInsn JitMul.
#[local] Open Scope Z_scope.
#[local] Open Scope jit_scope.

(** * Values *)

(** The result of a two-operand instruction on 32-bit operands. *)
Definition alu_result (o : alu_op) (a b : Z) : option Z :=
  match o with
  | ADD => Some (u32 (a + b)) | SUB => Some (u32 (a - b)) | OR => Some (a .| b)
  | AND => Some (a .& b) | XOR => Some (a .^ b) | _ => None
  end.

Section Values.
Context `{HostEnv} (h : host) (r x : Z) (Hx : is_u32 x) (Hr : h.(hregs) r = x).

Lemma alu_exec_result (o : alu_op) (b v : Z) :
  alu_result o x b = Some v ->
  exists fl, alu_exec false o x b r h = mk_host (upd r v h.(hregs)) fl h.(hstack) h.(hrv).
Proof. destruct o; intros E; [injection E as <-..| | |]; try discriminate E; by eexists. Qed.

Lemma alu_imm_run (ext imm v : Z) (o : alu_op) :
  mi_op 0x81 ext = Some o -> alu_result o x (u32 imm) = Some v ->
  exists fl, hexec (Alu_imm32 false 0x81 ext r imm) h = Some (mk_host (upd r v h.(hregs)) fl h.(hstack) h.(hrv)).
Proof.
  intros Ho Hv. cbn [hexec]. rewrite Ho, Hr, low32 by done. change (low false (i32 imm)) with (u32 (i32 imm)).
  rewrite u32_i32. destruct (alu_exec_result o (u32 imm) v Hv) as [fl ->]. by exists fl.
Qed.

Lemma alu_run (op y v : Z) (o : alu_op) :
  hexec (Alu false op RCX r) h = Some (alu_exec false o (low false (h.(hregs) r)) (low false (h.(hregs) RCX)) r h) ->
  h.(hregs) RCX = y -> is_u32 y -> alu_result o x y = Some v ->
  exists fl, hexec (Alu false op RCX r) h = Some (mk_host (upd r v h.(hregs)) fl h.(hstack) h.(hrv)).
Proof.
  intros E Ey Hy Hv. rewrite E, Hr, Ey, !low32 by done. destruct (alu_exec_result o y v Hv) as [fl ->]. by exists fl.
Qed.

(** Shifts by an amount below 32. *)
Definition shift_result (ext a n : Z) : option Z :=
  match ext with
  | 4 => Some (shl32 a n) | 5 => Some (a ≫ n) | 7 => Some (u32 (i32 a ≫ n)) | _ => None
  end.

Lemma shift_run (ext n v : Z) :
  0 <= n < 32 -> shift_result ext x n = Some v ->
  exists fl, shift_exec false ext (low false (h.(hregs) r)) (u8 n) r h = Some (mk_host (upd r v h.(hregs)) fl h.(hstack) h.(hrv)).
Proof.
  intros Hn Hv. rewrite Hr, low32 by done. unfold shift_exec, width. rewrite (Z.mod_small (u8 n)); unfold u8; rewrite Z.mod_small by lia; [|lia].
  unfold shift_result in Hv. exists (if n =? 0 then h.(hflags) else None).
  repeat case_match; try done; injection Hv as <-; by destruct (n =? 0).
Qed.
End Values.

Lemma and31_range (z : Z) : 0 <= z .& 0x1f < 32.
Proof. change 0x1f with (Z.ones 5). rewrite Z.land_ones by lia. apply Z.mod_pos_bound. lia. Qed.

Lemma jit_mulhu_value (x y : Z) : is_u32 x -> is_u32 y -> (x * y) ≫ 32 = alu_mulhu x y.
Proof. intros Hx Hy. rewrite Z.shiftr_div_pow2 by lia. symmetry. by apply (mul_values x y Hx Hy). Qed.

(** The flags of a comparison. *)
Section Flags.
Context (a b : Z) (Ha : is_u32 a) (Hb : is_u32 b).
Let fl := arith_flags false (a - b) (i32 a - i32 b).

Lemma i32_cases (d : Z) : - 2 ^ 32 < d < 2 ^ 32 ->
  i32 d = if d <? - 2 ^ 31 then d + 2 ^ 32 else if d <? 2 ^ 31 then d else d - 2 ^ 32.
Proof.
  intros Hd. unfold i32, sx. change (32 - 1) with 31. destruct (Z.ltb_spec d (- 2 ^ 31)); [|destruct (Z.ltb_spec d (2 ^ 31))].
  - rewrite <- (Z_mod_plus_full _ 1), Z.mod_small; lia.
  - rewrite Z.mod_small; lia.
  - rewrite <- (Z_mod_plus_full _ (-1)), Z.mod_small; lia.
Qed.

Lemma testbit31 (r : Z) : is_u32 r -> Z.testbit r 31 = (i32 r <? 0).
Proof.
  intros Hr. rewrite i32_cases by (unfold is_u32 in Hr; lia). replace (r <? - 2 ^ 31) with false by (unfold is_u32 in Hr; lia).
  destruct (Z.ltb_spec r (2 ^ 31)).
  - replace (r <? 0) with false by (unfold is_u32 in Hr; lia). rewrite Z.testbit_false, Z.div_small by (unfold is_u32 in Hr; lia). done.
  - replace (r - 2 ^ 32 <? 0) with true by (unfold is_u32 in Hr; lia). apply Z.testbit_true; [lia|].
    by rewrite <- (Z.div_unique r (2 ^ 31) 1 (r - 2 ^ 31)) by (unfold is_u32 in Hr; lia).
Qed.

Lemma cmp_flags : CF fl = (a <? b) /\ ZF fl = (a =? b) /\ xorb (SF fl) (OF fl) = (i32 a <? i32 b).
Proof.
  unfold fl, arith_flags. cbn [CF ZF SF OF]. unfold is_u32 in *. change (low false (a - b)) with (u32 (a - b)). split; [|split].
  - unfold u32. destruct (Z.ltb_spec a b).
    + rewrite <- (Z_mod_plus_full _ 1), Z.mod_small by lia. lia.
    + rewrite Z.mod_small by lia. lia.
  - unfold u32. destruct (Z.eqb_spec a b) as [->|]; [by rewrite Z.sub_diag|]. destruct (Z.ltb_spec a b).
    + rewrite <- (Z_mod_plus_full _ 1), Z.mod_small by lia. lia.
    + rewrite Z.mod_small by lia. lia.
  - pose proof (i32_range a). pose proof (i32_range b). unfold is_i32 in *. change (msb false) with (fun x => Z.testbit x 31). cbv beta.
    rewrite testbit31 by apply u32_range. change (signed false (u32 (a - b))) with (i32 (u32 (a - b))). rewrite i32_u32.
    assert (E : i32 (a - b) = i32 (i32 a - i32 b)).
    { rewrite <- (i32_u32 (a - b)), <- (i32_u32 (i32 a - i32 b)). f_equal. unfold u32.
      rewrite (Zminus_mod a b), (Zminus_mod (i32 a) (i32 b)). pose proof (u32_i32 a) as Ea. pose proof (u32_i32 b) as Eb. unfold u32 in Ea, Eb. by rewrite Ea, Eb. }
    rewrite E, i32_cases by lia. destruct (Z.ltb_spec (i32 a - i32 b) (- 2 ^ 31)); [|destruct (Z.ltb_spec (i32 a - i32 b) (2 ^ 31))];
      repeat match goal with
      | |- context [?x <? ?y] => destruct (Z.ltb_spec x y)
      | |- context [?x =? ?y] => destruct (Z.eqb_spec x y)
      end; (done || lia).
Qed.
End Flags.

(** The conditions that comparisons are followed by. *)
Definition cc_result (cc a b : Z) : option bool :=
  match cc with
  | 0x82 => Some (a <? b) | 0x83 => Some (negb (a <? b)) | 0x84 => Some (a =? b) | 0x85 => Some (negb (a =? b))
  | 0x8c => Some (i32 a <? i32 b) | 0x8d => Some (negb (i32 a <? i32 b)) | _ => None
  end.

Lemma cc_flags (cc a b : Z) (v : bool) :
  is_u32 a -> is_u32 b -> cc_result cc a b = Some v ->
  jcc_cond cc (Some (arith_flags false (a - b) (i32 a - i32 b))) = Some v.
Proof.
  intros Ha Hb. destruct (cmp_flags a b Ha Hb) as (Hc & Hz & Hs). unfold cc_result, jcc_cond.
  destruct (Z.eqb_spec cc 0xe9) as [->|_]; [done|]. intros E. rewrite <- E, <- Hc, <- Hz, <- Hs. clear. by repeat case_match.
Qed.

(** * Instructions with their effect *)

(** The access does not wrap around the 32-bit address space, is in RAM and
    aligned (or misaligned accesses are allowed): where the generated code and
    the interpreter access the same bytes. *)
Definition jit_access (g : riscv) (a n : Z) : bool := (0 <=? a) && (a <? 2 ^ 32) && accessible g a n.

Section Effects.
Context `{HostEnvOk} `{JitHistory} (stk : list slot).
Context (g : riscv) (Hwf : riscv_wf g) (Hx0 : xreg g 0 = 0).

Lemma gen_alu_imm_ok (rs1 rd ext imm v : Z) (o : alu_op) :
  0 <= rs1 < 32 -> 0 <= rd < 32 -> mi_op 0x81 ext = Some o -> alu_result o (xreg g rs1) (u32 imm) = Some v ->
  steps stk g (gen_unary rs1 rd (fun r => emit_alu32_imm32 0x81 ext r imm)) (set_xreg rd v g).
Proof.
  intros Hs1 Hd Ho Hv. apply (gen_unary_ok stk g Hwf Hx0 rs1 rd v (fun r => Alu_imm32 false 0x81 ext r imm)); [done..|].
  intros r h E. eapply alu_imm_run; [by apply xreg_u32|done|done|done].
Qed.

Lemma gen_update_imm_ok (rd ext imm v : Z) (o : alu_op) :
  0 <= rd < 32 -> mi_op 0x81 ext = Some o -> alu_result o (xreg g rd) (u32 imm) = Some v ->
  steps stk g (gen_update rd (fun r => emit_alu32_imm32 0x81 ext r imm)) (set_xreg rd v g).
Proof.
  intros Hd Ho Hv. apply (gen_update_ok stk g Hwf Hx0 rd v (fun r => Alu_imm32 false 0x81 ext r imm)); [done..|].
  intros r h E. eapply alu_imm_run; [by apply xreg_u32|done|done|done].
Qed.

Lemma gen_shift_imm_ok (rs1 rd ext n v : Z) :
  0 <= rs1 < 32 -> 0 <= rd < 32 -> 0 <= n < 32 -> shift_result ext (xreg g rs1) n = Some v ->
  steps stk g (gen_unary rs1 rd (fun r => emit_alu32_imm8 0xc1 ext r n)) (set_xreg rd v g).
Proof.
  intros Hs1 Hd Hn Hv. apply (gen_unary_ok stk g Hwf Hx0 rs1 rd v (fun r => Alu_imm8 false 0xc1 ext r n)); [done..|].
  intros r h E. cbn [hexec]. eapply shift_run; [by apply xreg_u32|done|done|done].
Qed.

Lemma gen_update_shift_ok (rd ext n v : Z) :
  0 <= rd < 32 -> 0 <= n < 32 -> shift_result ext (xreg g rd) n = Some v ->
  steps stk g (gen_update rd (fun r => emit_alu32_imm8 0xc1 ext r n)) (set_xreg rd v g).
Proof.
  intros Hd Hn Hv. apply (gen_update_ok stk g Hwf Hx0 rd v (fun r => Alu_imm8 false 0xc1 ext r n)); [done..|].
  intros r h E. cbn [hexec]. eapply shift_run; [by apply xreg_u32|done|done|done].
Qed.

Lemma gen_alu_ok (ir : rv_insn_t) (op v : Z) (o : alu_op) :
  regs_ok ir ->
  (forall r h, hexec (Alu false op RCX r) h = Some (alu_exec false o (low false (h.(hregs) r)) (low false (h.(hregs) RCX)) r h)) ->
  alu_result o (xreg g ir.(rs1)) (xreg g ir.(rs2)) = Some v -> steps stk g (gen_alu op ir) (set_xreg ir.(rd) v g).
Proof.
  intros (Hd & Hs1 & Hs2 & _) Ho Hv. apply (gen_binary_emit_ok stk g Hwf Hx0 _ _ _ v (fun r => Alu false op RCX r)); [done..|].
  intros r h Ey Ex. eapply alu_run; [by apply xreg_u32|done|apply Ho|done|by apply xreg_u32|done].
Qed.

Lemma gen_shift_reg_ok (ir : rv_insn_t) (ext v : Z) :
  regs_ok ir -> shift_result ext (xreg g ir.(rs1)) (xreg g ir.(rs2) .& 0x1f) = Some v ->
  steps stk g (gen_shift ext ir) (set_xreg ir.(rd) v g).
Proof.
  intros (Hd & Hs1 & Hs2 & _) Hv. apply gen_shift_ok; [done..|]. intros r h Ey Ex. cbn [hexec]. rewrite Ey.
  eapply shift_run; [by apply xreg_u32|done|apply and31_range|done].
Qed.

Lemma gen_cmv_ok (ir : rv_insn_t) : regs_ok ir -> steps stk g (gen_cmv ir) (set_xreg ir.(rd) (xreg g ir.(rs2)) g).
Proof.
  intros (Hd & _ & Hs2 & _). apply load1_dest_ok; [done..|]. intros r0 r1. destruct (Z.eqb_spec r0 r1) as [->|Hne]; cbn [negb].
  - by apply dirty_commit.
  - apply (write_commit stk g Hwf _ r1 _ (Alu true 0x89 r0 r1)); [done|done|]. intros h _ E. exists h.(hflags).
    apply mov_exec; [by apply xreg_u32|done].
Qed.

(** The multiplications and divisions whose code uses unsigned operands. *)
Lemma gen_muldiv_ok (ir : rv_insn_t) (o : md_op) (v : Z) :
  regs_ok ir -> (o = Div -> xreg g ir.(rs2) <> 0) -> md_value o (xreg g ir.(rs1)) (xreg g ir.(rs2)) = v ->
  steps stk g (gen_binary (ra_load2 ir.(rs1) ir.(rs2)) ir.(rd) (fun r2 => muldivmod (md_byte o) temp_reg r2 false)) (set_xreg ir.(rd) v g).
Proof.
  intros (Hd & Hs1 & Hs2 & _) Hz <-. apply gen_binary_ok; [done..|]. intros r Hr.
  eapply gens_post; [apply (muldiv_ok stk g o ir.(rd) r); [done|done|by apply xreg_u32|by apply xreg_u32|done]| |].
  - by intros [] s (Hs & _).
  - intros [] s h (Hs & Hm & Hdi) [Hsim Hv]. split; [|done]. eapply sim_commit; [done|apply Hs|done|exact Hm|done|done|done].
Qed.

Lemma gen_mulhu_ok (ir : rv_insn_t) :
  regs_ok ir -> steps stk g (gen_mulhu ir) (set_xreg ir.(rd) (alu_mulhu (xreg g ir.(rs1)) (xreg g ir.(rs2))) g).
Proof.
  intros (Hd & Hs1 & Hs2 & _). apply gen_binary_ok; [done..|]. intros r Hr. eapply gens_bind.
  { apply (muldiv_ok stk g Mul64 ir.(rd) r); [done|done|by apply xreg_u32|by apply xreg_u32|done]. }
  intros []. eapply gens_pre; [| |apply (write_commit stk g Hwf _ r _ (Alu_imm8 true 0xc1 5 r 32)
    (fun f _ => f r = md_value Mul64 (xreg g ir.(rs1)) (xreg g ir.(rs2)))); [done|done|]]; [|done|].
  - intros s (Hs & Hm & _). done.
  - intros h _ E. cbn [hexec]. change (0xc1 =? 0xc1) with true. cbv iota. rewrite E. eexists. unfold shift_exec, width.
    change (u8 32 mod 64) with 32. cbn [Z.eqb md_value]. rewrite low64.
    + rewrite jit_mulhu_value by (by apply xreg_u32). reflexivity.
    + pose proof (xreg_u32 g ir.(rs1) Hwf) as A. pose proof (xreg_u32 g ir.(rs2) Hwf) as B. unfold is_u32, is_u64 in *. nia.
Qed.
End Effects.

(** * Fused instructions *)

Section FusedCode.
Context `{HostEnvOk} `{JitHistory} (stk : list slot).

Lemma inv_set_xreg (g : riscv) (r v : Z) : inv g -> 0 < r < 32 -> is_u32 v -> inv (set_xreg r v g).
Proof. intros [Hw Hz] Hr Hv. split; [auto with rv|]. rewrite xreg_set_ne by lia. exact Hz. Qed.

Lemma inv_set_mem (g : riscv) (m : memory_t) : inv g -> mem_wf m -> inv (set_mem m g).
Proof. intros [Hw Hz] Hm. split; [auto with rv|exact Hz]. Qed.

Lemma gen_fuse2_ok (g : riscv) (ir : rv_insn_t) :
  inv g -> regs_ok ir -> 0 < ir.(rd) ->
  let g1 := set_xreg ir.(rd) (u32 ir.(imm)) g in
  steps stk g (gen_fuse2 ir) (set_xreg ir.(rs2) (add32 (xreg g1 ir.(rd)) (xreg g1 ir.(rs1))) g1).
Proof.
  intros Hinv (Hd & Hs1 & Hs2 & _) Hnz g1. destruct Hinv as [Hwf Hx0].
  destruct (inv_set_xreg g ir.(rd) (u32 ir.(imm)) (conj Hwf Hx0) ltac:(lia) (u32_range _)) as [Hwf1 Hx1]. fold g1 in Hwf1, Hx1.
  assert (Erd : xreg g1 ir.(rd) = u32 ir.(imm)) by (unfold g1; apply xreg_set_eq; [apply Hwf|done]). rewrite Erd.
  eapply gens_bind.
  { eapply gens_pre; [| |apply (map_dest_ok g stk Hwf Hx0 [-1] [] ir.(rd) (fun _ _ => True))];
      [intros s Hs; split; [done|constructor]|done|cbn; lia|done|constructor]. }
  intros r0. eapply gens_bind.
  { eapply gens_pre; [| |apply (write_keeps stk g Hwf ir.(rd) r0 (u32 ir.(imm)) _ (fun _ _ => True))]; [|done|done|done|].
    - intros s (Hs & Hm & _). done.
    - intros h _ _. by exists h.(hflags). }
  intros []. fold g1. apply (learn stk g1 ir.(rd) r0); [done|by intros s [_ Hm]|]. eapply gens_bind.
  { apply (temp_ok g1 stk nohole (Alu true 0x89 r0 RCX) _ _ (fun f _ => f RCX = u32 ir.(imm))); [done|by intros s [Hs _]| |].
    - intros s c (Hs & Hm). split; [|done]. by apply st_ok_map; [|apply Hs].
    - intros h [_ E]. exists (u32 ir.(imm)), h.(hflags). split; [|apply upd_eq]. apply mov_exec; [apply u32_range|]. by rewrite E, Erd. }
  intros []. eapply gens_bind.
  { eapply gens_pre; [| |apply (ra_load_ok g1 stk Hwf1 Hx1 ir.(rs1) (fun f _ => f RCX = u32 ir.(imm)))]; [by intros s [Hs _]|done|done|].
    intros f f' fl Hf <-. apply Hf, rcx_not_mapped. }
  intros r1. apply (learn stk g1 ir.(rs1) r1); [done|by intros s [_ Hm]|]. eapply gens_bind.
  { eapply gens_pre; [| |apply (map_dest_ok g1 stk Hwf1 Hx1 [r1] [(ir.(rs1), r1)] ir.(rs2)
      (fun f _ => f RCX = u32 ir.(imm) /\ f r1 = xreg g1 ir.(rs1)))]; [|done|cbn; lia|done|].
    - intros s [Hs Hm]. split; [done|]. by constructor.
    - constructor; [by apply list_elem_of_singleton|constructor]. }
  intros r2. apply (gens_pure (r2 <> RCX)); [intros s (Hs & Hm & _); eapply mapped_not_rcx; [apply Hs|exact Hm]|]. intros Hr2.
  eapply gens_bind.
  { eapply gens_pre; [| |apply (host_write_ok g1 stk ir.(rs2) r2 (Alu true 0x89 r1 r2) [] (fun f _ => f RCX = u32 ir.(imm) /\ f r1 = xreg g1 ir.(rs1))
      (fun f _ => f RCX = u32 ir.(imm) /\ f r2 = xreg g1 ir.(rs1)));
      [done|done|]]; [|done|].
    - intros s (Hs & Hm & _). split; [done|]. split; [done|constructor].
    - intros h _ [E1 E2]. exists (xreg g1 ir.(rs1)), h.(hflags). split; [apply mov_exec; [by apply xreg_u32|done]|].
      by rewrite upd_eq, upd_ne. }
  intros []. eapply gens_pre; [| |apply (write_commit stk g1 Hwf1 ir.(rs2) r2 _ (Alu false 0x01 RCX r2)
    (fun f _ => f RCX = u32 ir.(imm) /\ f r2 = xreg g1 ir.(rs1))); [done|done|]]; [|done|].
  - intros s (Hs & Hm & _). done.
  - intros h _ [E1 E2]. eapply (alu_run h r2 (xreg g1 ir.(rs1))); [by apply xreg_u32|done|reflexivity|exact E1|apply u32_range|].
    cbn [alu_result]. unfold add32. by rewrite (Z.add_comm (u32 _)).
Qed.

(** The loops over the elements of a batch. *)
Lemma steps_loop {A} (l : list A) (gen : A -> jit unit) (f : riscv -> A -> riscv) (g : riscv) :
  inv g -> (forall g a, a ∈ l -> inv g -> inv (f g a) /\ steps stk g (gen a) (f g a)) ->
  steps stk g (for_each l gen) (fold_left f l g) /\ inv (fold_left f l g).
Proof.
  intros Hg Hf. revert g Hg. induction l as [|a l IH]; intros g Hg; cbn [for_each fold_left]; [split; [apply steps_ret|done]|].
  destruct (Hf g a ltac:(left) Hg) as [Hi Hs]. destruct (IH ltac:(intros; apply Hf; [by right|done]) _ Hi) as [Hs2 Hi2].
  split; [|done]. by eapply steps_bind.
Qed.

(** Conditions on the elements of a batch. *)
Definition f_regs_ok (f : opcode_fuse_t) : bool :=
  (0 <=? f.(f_rs1)) && (f.(f_rs1) <? 32) && (0 <=? f.(f_rs2)) && (f.(f_rs2) <? 32).
Definition f_dest_ok (f : opcode_fuse_t) : bool := (0 <? f.(f_rd)) && (f.(f_rd) <? 32).

Fixpoint stores_safe (l : list opcode_fuse_t) (g : riscv) : bool :=
  match l with
  | [] => true
  | f :: l =>
      let a := xreg g f.(f_rs1) + f.(f_imm) in
      jit_access g a 4 && stores_safe l (set_mem (store_le 4 g.(mem) a (xreg g f.(f_rs2))) g)
  end.

Fixpoint loads_safe (l : list opcode_fuse_t) (g : riscv) : bool :=
  match l with
  | [] => true
  | f :: l =>
      let a := xreg g f.(f_rs1) + f.(f_imm) in
      jit_access g a 4 && loads_safe l (set_xreg f.(f_rd) (load_le 4 g.(mem) a) g)
  end.

(** What an access in order gives the interpreter. *)
Lemma jit_access_spec (g : riscv) (x i : Z) (n : nat) (mask : Z) :
  (n = 1%nat /\ mask = 0 \/ n = 2%nat /\ mask = 1 \/ n = 4%nat /\ mask = 3) -> jit_access g (x + i) (Z.of_nat n) = true ->
  0 <= x + i < 2 ^ 32 /\ GUEST_RAM_CONTAINS g.(mem) (x + i) (Z.of_nat n) = true /\ add32 x i = x + i /\ add32 x (u32 i) = x + i /\
  misaligned g (x + i) mask = false.
Proof.
  intros Hn Ha. unfold jit_access, accessible in Ha. apply andb_prop in Ha as [Hr [Hc Ha]%andb_prop].
  assert (0 <= x + i < 2 ^ 32) by lia. split; [done|]. split; [done|]. unfold add32. rewrite u32_add_r.
  split; [by apply u32_id|]. split; [by apply u32_id|]. unfold misaligned, aligned in *. destruct (allow_misalign g); [done|]. cbn [orb negb andb] in *.
  assert (E : (x + i) .& mask = (x + i) mod Z.of_nat n).
  { destruct Hn as [[-> ->]|[[-> ->]|[-> ->]]].
    - by rewrite Z.land_0_r, Z.mod_1_r.
    - by apply (Z.land_ones (x + i) 1).
    - by apply (Z.land_ones (x + i) 2). }
  rewrite E. unfold truthy. by rewrite Ha.
Qed.

Lemma store_le_inv (g : riscv) (n : nat) (a v : Z) : inv g -> inv (set_mem (store_le n g.(mem) a v) g).
Proof. intros Hg. apply inv_set_mem; [done|]. apply store_le_wf, Hg. Qed.

Lemma load_le_u32 (g : riscv) (n : nat) (a : Z) : inv g -> (n <= 4)%nat -> is_u32 (load_le n g.(mem) a).
Proof.
  intros [Hwf _] Hn. pose proof (load_le_range n g.(mem) a (wf_mem _ Hwf)) as Hr. unfold is_u32.
  assert (2 ^ (8 * Z.of_nat n) <= 2 ^ 32) by (apply Z.pow_le_mono_r; lia). lia.
Qed.

Lemma stores_ok (l : list opcode_fuse_t) (g : riscv) (c p : Z) :
  inv g -> forallb f_regs_ok l = true -> stores_safe l g = true ->
  exists g', inv g' /\ steps stk g (for_each l (fun f => gen_store S32 f.(f_rs1) f.(f_imm) f.(f_rs2))) g' /\
    forall k, fuse_stores l g c p k = k g'.
Proof.
  revert g. induction l as [|f l IH]; intros g Hg Hr Hs; cbn [for_each stores_safe forallb fuse_stores] in *.
  { exists g. split; [done|]. split; [apply steps_ret|done]. }
  apply andb_prop in Hr as [Hf Hr]. apply andb_prop in Hs as [Ha Hs]. unfold f_regs_ok in Hf.
  destruct (jit_access_spec g _ _ 4 3 ltac:(auto) Ha) as (Hb & Hc & Ea & _ & Hm).
  destruct (IH _ (store_le_inv g 4 _ (xreg g f.(f_rs2)) Hg) Hr Hs) as (g' & Hg' & St & Hk). exists g'. split; [done|].
  destruct Hg as [Hwf Hx0]. split.
  - eapply steps_bind; [apply (gen_store_ok stk g Hwf Hx0 S32 f.(f_rs1) f.(f_imm) f.(f_rs2)); [lia|lia|done|done]|exact St].
  - intros k. cbv zeta. rewrite Ea, Hm. unfold ram_write_w, checked_store. change 4 with (Z.of_nat 4). rewrite Hc. apply Hk.
Qed.

Lemma loads_ok (l : list opcode_fuse_t) (g : riscv) (c p : Z) :
  inv g -> forallb f_regs_ok l = true -> forallb f_dest_ok l = true -> loads_safe l g = true ->
  exists g', inv g' /\ steps stk g (for_each l (fun f => gen_load S32 f.(f_rs1) f.(f_imm) f.(f_rd))) g' /\
    forall k, fuse_loads l g c p k = k g'.
Proof.
  revert g. induction l as [|f l IH]; intros g Hg Hr Hd Hs; cbn [for_each loads_safe forallb fuse_loads] in *.
  { exists g. split; [done|]. split; [apply steps_ret|done]. }
  apply andb_prop in Hr as [Hf Hr]. apply andb_prop in Hd as [Hfd Hd]. apply andb_prop in Hs as [Ha Hs]. unfold f_regs_ok, f_dest_ok in *.
  destruct (jit_access_spec g _ _ 4 3 ltac:(auto) Ha) as (Hb & Hc & Ea & _ & Hm).
  destruct (IH _ (inv_set_xreg g f.(f_rd) _ Hg ltac:(lia) (load_le_u32 g 4 _ Hg ltac:(lia))) Hr Hd Hs) as (g' & Hg' & St & Hk).
  exists g'. split; [done|]. destruct Hg as [Hwf Hx0]. split.
  - eapply steps_bind; [apply (gen_load_ok stk g Hwf Hx0 S32 f.(f_rs1) f.(f_imm) f.(f_rd)); [lia|lia|done|done]|exact St].
  - intros k. cbv zeta. rewrite Ea, Hm. unfold ram_read_w, checked_load. change 4 with (Z.of_nat 4). rewrite Hc. apply Hk.
Qed.
End FusedCode.

(** * Conditions *)

(** The straight-line instructions whose code is right; [mulh], [mulhsu],
    [div], [rem] and the fused instructions 9 to 11 are not among them. *)
Definition straight_op (o : opcode_t) : bool :=
  match o with
  | rv_insn_nop | rv_insn_lui | rv_insn_auipc | rv_insn_lb | rv_insn_lh | rv_insn_lw | rv_insn_lbu
  | rv_insn_lhu | rv_insn_sb | rv_insn_sh | rv_insn_sw | rv_insn_addi | rv_insn_slti | rv_insn_sltiu
  | rv_insn_xori | rv_insn_ori | rv_insn_andi | rv_insn_slli | rv_insn_srli | rv_insn_srai
  | rv_insn_add | rv_insn_sub | rv_insn_sll | rv_insn_slt | rv_insn_sltu | rv_insn_xor | rv_insn_srl
  | rv_insn_sra | rv_insn_or | rv_insn_and | rv_insn_mul | rv_insn_mulhu | rv_insn_divu | rv_insn_remu
  | rv_insn_caddi4spn | rv_insn_clw | rv_insn_csw | rv_insn_cnop | rv_insn_caddi | rv_insn_cli
  | rv_insn_caddi16sp | rv_insn_clui | rv_insn_csrli | rv_insn_csrai | rv_insn_candi | rv_insn_csub
  | rv_insn_cxor | rv_insn_cor | rv_insn_cand | rv_insn_cslli | rv_insn_clwsp | rv_insn_cmv
  | rv_insn_cadd | rv_insn_cswsp
  | rv_insn_fuse1 | rv_insn_fuse2 | rv_insn_fuse3 | rv_insn_fuse4 | rv_insn_fuse5 | rv_insn_fuse7
  | rv_insn_fuse8 => true
  | _ => false
  end.

(** The instructions that end a block. *)
Definition leaving_op (o : opcode_t) : bool :=
  match o with
  | rv_insn_jal | rv_insn_jalr | rv_insn_beq | rv_insn_bne | rv_insn_blt | rv_insn_bge | rv_insn_bltu
  | rv_insn_bgeu | rv_insn_ecall | rv_insn_ebreak | rv_insn_cjal | rv_insn_cj | rv_insn_cbeqz
  | rv_insn_cbnez | rv_insn_cjr | rv_insn_cebreak | rv_insn_cjalr | rv_insn_fuse6 | rv_insn_fuse12 => true
  | _ => false
  end.

Definition shift_opcode (o : opcode_t) : bool :=
  match o with rv_insn_slli | rv_insn_srli | rv_insn_srai => true | _ => false end.

(** The elements of a batch. *)
Definition all_fused (p : opcode_fuse_t -> bool) (ir : rv_insn_t) : bool :=
  match fused ir with Some l => forallb p l | None => false end.

Definition fused_ok (ir : rv_insn_t) : bool :=
  match ir.(opcode) with
  | rv_insn_fuse1 => all_fused f_dest_ok ir
  | rv_insn_fuse2 => (0 <? ir.(rd)) && (0 <? ir.(rs2))
  | rv_insn_fuse3 => all_fused f_regs_ok ir
  | rv_insn_fuse4 | rv_insn_fuse7 => all_fused (fun f => f_regs_ok f && f_dest_ok f) ir
  | rv_insn_fuse5 => all_fused (fun f => f_regs_ok f && f_dest_ok f && shift_opcode f.(f_opcode)) ir
  | rv_insn_fuse8 | rv_insn_fuse12 => 0 <? ir.(rd)
  | _ => true
  end.

(** What is required of an instruction: fields in range, a destination that is
    not x0, immediates that fit. *)
Record jit_ok (ir : rv_insn_t) : Prop := {
  jo_regs : regs_ok ir;
  jo_impl : ir.(impl) = ir.(opcode);
  jo_imm : is_i32 ir.(imm);
  jo_static : static_ok ir = true;
  jo_x0 : x0_kept ir = true;
  jo_fused : fused_ok ir = true }.

(** What is required of the state: accesses as in [jit_access], and a divisor
    other than zero. *)
Definition jit_safe (g : riscv) (ir : rv_insn_t) : bool :=
  let a := xreg g ir.(rs1) + ir.(imm) in
  let sp := xreg g rv_reg_sp + ir.(imm) in
  match ir.(opcode) with
  | rv_insn_lb | rv_insn_lbu | rv_insn_sb => jit_access g a 1
  | rv_insn_lh | rv_insn_lhu | rv_insn_sh => jit_access g a 2
  | rv_insn_lw | rv_insn_sw | rv_insn_clw | rv_insn_csw => jit_access g a 4
  | rv_insn_clwsp | rv_insn_cswsp => jit_access g sp 4
  | rv_insn_divu => negb (xreg g ir.(rs2) =? 0)
  | rv_insn_cslli => ir.(imm) <? 32
  | rv_insn_fuse3 => match fused ir with Some l => stores_safe l g | None => false end
  | rv_insn_fuse4 => match fused ir with Some l => loads_safe l g | None => false end
  | _ => true
  end.

(** * Straight-line instructions *)

Section Straight.
Context `{HostEnvOk} `{JitHistory} `{HostClock} `{Syscall} `{SoftFloat}.
Context `{!EnvBlind} `{!SyscallWf} (stk : list slot).

Lemma inc_timer_ok (g : riscv) : steps stk g emit_jit_inc_timer g.
Proof.
  intros s Hs. eexists tt, _, [Inc_field offsetof_timer]. split; [reflexivity|]. split; [reflexivity|].
  split; [by apply (st_ok_map s); [|apply Hs]|]. intros h [Hsim _]. eexists. split; [reflexivity|]. split; [|done].
  destruct Hsim as [Hrdi Hstk Hc Hl Hz Hmap Hcl Hun]. by constructor.
Qed.

(** The access of the interpreter. *)
Lemma access_through (g : riscv) (a mask cause : Z) (z : bool) (c p : Z) (k : riscv -> outcome) :
  misaligned g a mask = false ->
  access a mask cause z g c p k = k (rv_trace_record c p RV_TRACE_MEM a g).
Proof.
  intros Hm. unfold access.
  replace (misaligned (rv_trace_record c p RV_TRACE_MEM a g) a mask) with (misaligned g a mask); [by rewrite Hm|].
  unfold misaligned. f_equal. f_equal. symmetry. exact (f_equal allow_misalign (trace_equiv g c p RV_TRACE_MEM a)).
Qed.

Lemma trace_mem (g : riscv) (c p t a : Z) : (rv_trace_record c p t a g).(mem) = g.(mem).
Proof. exact (f_equal mem (trace_equiv g c p t a)). Qed.

Lemma write_traced (g g1 : riscv) (ir : rv_insn_t) (c p v : Z) :
  g1 ≡ g -> write_rd g1 ir c p v ≡ Next (set_xreg ir.(rd) v g) c p.
Proof. intros E%symmetry%equiv_put. rewrite E. apply next_equiv. by rewrite set_xreg_put. Qed.

Lemma store_traced (g g1 : riscv) (m : memory_t) (c p : Z) : g1 ≡ g -> Next (set_mem m g1) c p ≡ Next (set_mem m g) c p.
Proof. intros E%symmetry%equiv_put. rewrite E. apply next_equiv. by rewrite set_mem_put. Qed.

(** The body of a handler and the code generated for the instruction do the
    same. *)
Definition same_effect (g : riscv) (ir : rv_insn_t) (c : Z) : Prop :=
  exists g', code_of ir.(opcode) g ir c ir.(Insn.pc) ≡ Next g' c ir.(Insn.pc) /\ steps stk g (gen_code ir.(opcode) ir) g'.

Section Effect.
Context (g : riscv) (ir : rv_insn_t) (c : Z) (Hg : inv g) (Hir : jit_ok ir) (Hsafe : jit_safe g ir = true).

Lemma effect_write (v : Z) :
  code_of ir.(opcode) g ir c ir.(Insn.pc) = write_rd g ir c ir.(Insn.pc) v ->
  steps stk g (gen_code ir.(opcode) ir) (set_xreg ir.(rd) v g) -> same_effect g ir c.
Proof. intros E St. exists (set_xreg ir.(rd) v g). by rewrite E. Qed.

Lemma effect_nop : ir.(opcode) = rv_insn_nop \/ ir.(opcode) = rv_insn_cnop -> same_effect g ir c.
Proof.
  destruct Hg as [Hwf Hx0]. unfold same_effect. intros [Ho|Ho]; rewrite Ho.
  - exists (set_xreg 0 0 g). split; [done|]. eapply steps_same; [|apply steps_ret]. split; [done|].
    symmetry. apply list_insert_id. rewrite <- Hx0 at 2. apply list_lookup_lookup_total_lt. rewrite (wf_X_len _ Hwf). cbn. lia.
  - exists g. split; [done|apply steps_ret].
Qed.

Lemma effect_const :
  match ir.(opcode) with rv_insn_lui | rv_insn_auipc | rv_insn_cli | rv_insn_clui => True | _ => False end -> same_effect g ir c.
Proof.
  destruct Hg as [Hwf Hx0], (jo_regs _ Hir) as (Hd & _). intros Ho. destruct (opcode ir) eqn:E; try done;
    eapply effect_write; rewrite E; try reflexivity; cbn [gen_code]; unfold gen_auipc; rewrite ?(Z.add_comm (Insn.pc ir)); by apply gen_const_ok.
Qed.

Lemma effect_alu_imm :
  match ir.(opcode) with
  | rv_insn_addi | rv_insn_xori | rv_insn_ori | rv_insn_andi | rv_insn_slli | rv_insn_srli | rv_insn_srai => True
  | _ => False
  end -> same_effect g ir c.
Proof.
  destruct Hg as [Hwf Hx0], (jo_regs _ Hir) as (Hd & Hs1 & _). intros Ho. destruct (opcode ir) eqn:E; try done;
    eapply effect_write; rewrite E; cbn [code_of gen_code];
    try (unfold code_slli, code_srli, code_srai, shift_func; rewrite E); try reflexivity;
    match goal with
    | |- steps _ _ (gen_slli _) _ => by apply (gen_shift_imm_ok stk g Hwf Hx0 _ _ 4); [..|apply and31_range|]
    | |- steps _ _ (gen_srli _) _ => by apply (gen_shift_imm_ok stk g Hwf Hx0 _ _ 5); [..|apply and31_range|]
    | |- steps _ _ (gen_srai _) _ => by apply (gen_shift_imm_ok stk g Hwf Hx0 _ _ 7); [..|apply and31_range|]
    | |- steps _ _ (gen_xori _) _ => by apply (gen_alu_imm_ok stk g Hwf Hx0 _ _ 6 _ _ XOR)
    | |- steps _ _ (gen_ori _) _ => by apply (gen_alu_imm_ok stk g Hwf Hx0 _ _ 1 _ _ OR)
    | |- steps _ _ (gen_andi _) _ => by apply (gen_alu_imm_ok stk g Hwf Hx0 _ _ 4 _ _ AND)
    | |- steps _ _ (gen_addi _) _ => apply (gen_alu_imm_ok stk g Hwf Hx0 _ _ 0 _ _ ADD); [done..|]
    end.
  cbn [alu_result]. unfold alu_addi, add32. by rewrite u32_add_r.
Qed.

Lemma effect_set :
  match ir.(opcode) with rv_insn_slti | rv_insn_sltiu | rv_insn_slt | rv_insn_sltu => True | _ => False end -> same_effect g ir c.
Proof.
  destruct Hg as [Hwf Hx0], (jo_regs _ Hir) as (Hd & Hs1 & Hs2 & _). pose proof (jo_imm _ Hir) as Hi.
  assert (Hu : forall r, is_u32 (xreg g r)) by (intros r; by apply xreg_u32).
  intros Ho. destruct (opcode ir) eqn:E; try done; eapply effect_write; rewrite E; try reflexivity; cbn [gen_code].
  - apply gen_set_imm_ok; [done..|]. rewrite <- (i32_u32 ir.(imm)). apply cc_flags; [done|apply u32_range|].
    cbn [cc_result]. by rewrite i32_u32, (i32_id ir.(imm)).
  - apply gen_set_imm_ok; [done..|]. rewrite <- (i32_u32 ir.(imm)). apply cc_flags; [done|apply u32_range|done].
  - apply gen_set_reg_ok; [done..|]. by apply cc_flags.
  - apply gen_set_reg_ok; [done..|]. by apply cc_flags.
Qed.

Lemma effect_alu :
  match ir.(opcode) with
  | rv_insn_add | rv_insn_sub | rv_insn_sll | rv_insn_xor | rv_insn_srl | rv_insn_sra | rv_insn_or | rv_insn_and
  | rv_insn_csub | rv_insn_cxor | rv_insn_cor | rv_insn_cand | rv_insn_cadd | rv_insn_cmv => True
  | _ => False
  end -> same_effect g ir c.
Proof.
  destruct Hg as [Hwf Hx0]. pose proof (jo_regs _ Hir) as Hr. intros Ho.
  destruct (opcode ir) eqn:E; try done; eapply effect_write; rewrite E; try reflexivity; cbn [gen_code];
    match goal with
    | |- steps _ _ (gen_cmv _) _ => by apply (gen_cmv_ok stk g Hwf Hx0)
    | |- steps _ _ (gen_sll _) _ => by apply (gen_shift_reg_ok stk g Hwf Hx0 ir 4)
    | |- steps _ _ (gen_srl _) _ => by apply (gen_shift_reg_ok stk g Hwf Hx0 ir 5)
    | |- steps _ _ (gen_sra _) _ => by apply (gen_shift_reg_ok stk g Hwf Hx0 ir 7)
    | |- steps _ _ (gen_add _) _ => by apply (gen_alu_ok stk g Hwf Hx0 ir 0x01 _ ADD)
    | |- steps _ _ (gen_cadd _) _ => by apply (gen_alu_ok stk g Hwf Hx0 ir 0x01 _ ADD)
    | |- steps _ _ (gen_sub _) _ => by apply (gen_alu_ok stk g Hwf Hx0 ir 0x29 _ SUB)
    | |- steps _ _ (gen_csub _) _ => by apply (gen_alu_ok stk g Hwf Hx0 ir 0x29 _ SUB)
    | |- steps _ _ (gen_xor _) _ => by apply (gen_alu_ok stk g Hwf Hx0 ir 0x31 _ XOR)
    | |- steps _ _ (gen_cxor _) _ => by apply (gen_alu_ok stk g Hwf Hx0 ir 0x31 _ XOR)
    | |- steps _ _ (gen_or _) _ => by apply (gen_alu_ok stk g Hwf Hx0 ir 0x09 _ OR)
    | |- steps _ _ (gen_cor _) _ => by apply (gen_alu_ok stk g Hwf Hx0 ir 0x09 _ OR)
    | |- steps _ _ (gen_and _) _ => by apply (gen_alu_ok stk g Hwf Hx0 ir 0x21 _ AND)
    | |- steps _ _ (gen_cand _) _ => by apply (gen_alu_ok stk g Hwf Hx0 ir 0x21 _ AND)
    end.
Qed.

Lemma effect_mul :
  match ir.(opcode) with rv_insn_mul | rv_insn_mulhu | rv_insn_divu | rv_insn_remu => True | _ => False end -> same_effect g ir c.
Proof.
  destruct Hg as [Hwf Hx0]. pose proof (jo_regs _ Hir) as Hr. unfold jit_safe in Hsafe.
  assert (Hu : forall r, is_u32 (xreg g r)) by (intros r; by apply xreg_u32).
  intros Ho. destruct (opcode ir) eqn:E; try done; eapply effect_write; rewrite E; try reflexivity; cbn [gen_code].
  - apply (gen_muldiv_ok stk g Hwf Hx0 ir Mul); [done|done|]. symmetry. by apply (mul_values _ _ (Hu _) (Hu _)).
  - by apply gen_mulhu_ok.
  - apply negb_true_iff, Z.eqb_neq in Hsafe. apply (gen_muldiv_ok stk g Hwf Hx0 ir Div); [done|done|].
    rewrite divu_isa by done. by rewrite (proj2 (Z.eqb_neq _ _) Hsafe).
  - apply (gen_muldiv_ok stk g Hwf Hx0 ir Mod); [done|done|]. by rewrite remu_isa.
Qed.

(** Loads: [rs] is the base register. *)
Lemma load_effect (size : operand_size) (rs mask cause : Z) (z : bool) (f : Z -> Z) :
  0 < ir.(rd) < 32 -> 0 <= rs < 32 ->
  (size_bytes size = 1%nat /\ mask = 0 \/ size_bytes size = 2%nat /\ mask = 1 \/ size_bytes size = 4%nat /\ mask = 3) ->
  jit_access g (xreg g rs + ir.(imm)) (Z.of_nat (size_bytes size)) = true ->
  let a := xreg g rs + ir.(imm) in
  let k rv := match checked_load (size_bytes size) rv.(mem) a with
              | Some v => write_rd rv ir c ir.(Insn.pc) (f v) | None => Undef end in
  code_of ir.(opcode) g ir c ir.(Insn.pc) = (if mask =? 0 then k (rv_trace_record c ir.(Insn.pc) RV_TRACE_MEM a g)
    else access a mask cause z g c ir.(Insn.pc) k) ->
  steps stk g (gen_code ir.(opcode) ir) (set_xreg ir.(rd) (f (load_le (size_bytes size) g.(mem) a)) g) ->
  same_effect g ir c.
Proof.
  intros Hrd Hrs Hn Ha a k Hc St. destruct (jit_access_spec g _ _ _ mask Hn Ha) as (Hb & Hin & _ & _ & Hm). fold a in Hb, Hin, Hm.
  eexists. split; [|exact St]. rewrite Hc. rewrite access_through by done.
  replace (if mask =? 0 then _ else _) with (k (rv_trace_record c ir.(Insn.pc) RV_TRACE_MEM a g)) by (by destruct (mask =? 0)).
  unfold k. rewrite trace_mem. unfold checked_load. rewrite Hin. apply write_traced, trace_equiv.
Qed.

Lemma access_base (rs : Z) (n : nat) (mask : Z) :
  (n = 1%nat /\ mask = 0 \/ n = 2%nat /\ mask = 1 \/ n = 4%nat /\ mask = 3) -> jit_access g (xreg g rs + ir.(imm)) (Z.of_nat n) = true ->
  add32 (xreg g rs) ir.(imm) = xreg g rs + ir.(imm) /\ add32 (xreg g rs) (u32 ir.(imm)) = xreg g rs + ir.(imm) /\
  0 <= xreg g rs + ir.(imm) < 2 ^ 32 /\ GUEST_RAM_CONTAINS g.(mem) (xreg g rs + ir.(imm)) (Z.of_nat n) = true.
Proof. intros Hn Ha. by destruct (jit_access_spec g _ _ n mask Hn Ha) as (Hb & Hin & E1 & E2 & _). Qed.

Lemma effect_load :
  match ir.(opcode) with
  | rv_insn_lb | rv_insn_lh | rv_insn_lw | rv_insn_lbu | rv_insn_lhu | rv_insn_clw | rv_insn_clwsp => True | _ => False
  end -> same_effect g ir c.
Proof.
  destruct Hg as [Hwf Hx0], (jo_regs _ Hir) as (Hd & Hs1 & Hs2 & _). pose proof (jo_static _ Hir) as Hst. pose proof (jo_x0 _ Hir) as Hz.
  unfold jit_safe in Hsafe. unfold static_ok, x0_kept in *. intros Ho.
  assert (Hrd : 0 < ir.(rd) < 32) by (destruct (opcode ir); try done; cbn in Hst, Hz; lia).
  assert (Hsp : 0 <= rv_reg_sp < 32) by done. clear Hst Hz.
  destruct (opcode ir) eqn:E; try done; cbv zeta in Hsafe;
    [ destruct (access_base ir.(rs1) 1 0 ltac:(auto) Hsafe) as (E1 & E2 & Hb & Hin)
    | destruct (access_base ir.(rs1) 2 1 ltac:(auto) Hsafe) as (E1 & E2 & Hb & Hin)
    | destruct (access_base ir.(rs1) 4 3 ltac:(auto) Hsafe) as (E1 & E2 & Hb & Hin)
    | destruct (access_base ir.(rs1) 1 0 ltac:(auto) Hsafe) as (E1 & E2 & Hb & Hin)
    | destruct (access_base ir.(rs1) 2 1 ltac:(auto) Hsafe) as (E1 & E2 & Hb & Hin)
    | destruct (access_base ir.(rs1) 4 3 ltac:(auto) Hsafe) as (E1 & E2 & Hb & Hin)
    | destruct (access_base rv_reg_sp 4 3 ltac:(auto) Hsafe) as (E1 & E2 & Hb & Hin) ].
  - eapply (load_effect S8 ir.(rs1) 0 0 false sign_extend_b); [done|done|auto|done|rewrite E; cbn [code_of]; unfold code_lb; rewrite E1; reflexivity|].
    rewrite E. apply gen_load_sext_ok; try done. by left.
  - eapply (load_effect S16 ir.(rs1) 1 _ _ sign_extend_h); [done|done|auto|done|rewrite E; cbn [code_of]; unfold code_lh; rewrite E1; reflexivity|].
    rewrite E. apply gen_load_sext_ok; try done. by right.
  - eapply (load_effect S32 ir.(rs1) 3 _ _ (fun v => v)); [done|done|auto|done|rewrite E; cbn [code_of]; unfold code_lw; rewrite E1; reflexivity|].
    rewrite E. by apply (gen_load_ok stk g Hwf Hx0 S32).
  - eapply (load_effect S8 ir.(rs1) 0 0 false (fun v => v)); [done|done|auto|done|rewrite E; cbn [code_of]; unfold code_lbu; rewrite E1; reflexivity|].
    rewrite E. by apply (gen_load_ok stk g Hwf Hx0 S8).
  - eapply (load_effect S16 ir.(rs1) 1 _ _ (fun v => v)); [done|done|auto|done|rewrite E; cbn [code_of]; unfold code_lhu; rewrite E1; reflexivity|].
    rewrite E. by apply (gen_load_ok stk g Hwf Hx0 S16).
  - eapply (load_effect S32 ir.(rs1) 3 _ _ (fun v => v)); [done|done|auto|done|rewrite E; cbn [code_of]; unfold code_clw, cload; rewrite E2; reflexivity|].
    rewrite E. by apply (gen_load_ok stk g Hwf Hx0 S32).
  - eapply (load_effect S32 rv_reg_sp 3 _ _ (fun v => v)); [done|done|auto|done|rewrite E; cbn [code_of]; unfold code_clwsp, cload; rewrite E1; reflexivity|].
    rewrite E. by apply (gen_load_ok stk g Hwf Hx0 S32).
Qed.

(** Stores. *)
Lemma store_effect (size : operand_size) (rs mask cause : Z) (z : bool) :
  0 <= rs < 32 ->
  (size_bytes size = 1%nat /\ mask = 0 \/ size_bytes size = 2%nat /\ mask = 1 \/ size_bytes size = 4%nat /\ mask = 3) ->
  jit_access g (xreg g rs + ir.(imm)) (Z.of_nat (size_bytes size)) = true ->
  let a := xreg g rs + ir.(imm) in
  let k rv := match checked_store (size_bytes size) rv.(mem) a (xreg rv ir.(rs2) mod 2 ^ (8 * Z.of_nat (size_bytes size))) with
              | Some m => Next (set_mem m rv) c ir.(Insn.pc) | None => Undef end in
  code_of ir.(opcode) g ir c ir.(Insn.pc) = (if mask =? 0 then k (rv_trace_record c ir.(Insn.pc) RV_TRACE_MEM a g)
    else access a mask cause z g c ir.(Insn.pc) k) ->
  gen_code ir.(opcode) ir = gen_store size rs ir.(imm) ir.(rs2) -> same_effect g ir c.
Proof.
  intros Hrs Hn Ha a k Hc Eg. destruct (jit_access_spec g _ _ _ mask Hn Ha) as (Hb & Hin & _ & _ & Hm). fold a in Hb, Hin, Hm.
  destruct Hg as [Hwf Hx0], (jo_regs _ Hir) as (_ & _ & Hs2 & _).
  exists (set_mem (store_le (size_bytes size) g.(mem) a (xreg g ir.(rs2))) g). split.
  - rewrite Hc. rewrite access_through by done.
    replace (if mask =? 0 then _ else _) with (k (rv_trace_record c ir.(Insn.pc) RV_TRACE_MEM a g)) by (by destruct (mask =? 0)).
    unfold k. rewrite trace_mem. unfold checked_store. rewrite Hin, store_le_mod.
    rewrite (equiv_xreg _ _ _ (trace_equiv g c ir.(Insn.pc) RV_TRACE_MEM a)). apply store_traced, trace_equiv.
  - rewrite Eg. by apply (gen_store_ok stk g Hwf Hx0 size).
Qed.

(** A word is stored as it is. *)
Lemma word_store (rv : riscv) (a v : Z) : checked_store 4 rv.(mem) a (v mod 2 ^ (8 * Z.of_nat 4)) = checked_store 4 rv.(mem) a v.
Proof. unfold checked_store. by rewrite store_le_mod. Qed.

Lemma access_ext (a mask cause : Z) (z : bool) (p : Z) (k1 k2 : riscv -> outcome) :
  (forall rv, k1 rv = k2 rv) -> access a mask cause z g c p k1 = access a mask cause z g c p k2.
Proof. intros Hk. unfold access. by rewrite Hk. Qed.

Lemma effect_store :
  match ir.(opcode) with rv_insn_sb | rv_insn_sh | rv_insn_sw | rv_insn_csw | rv_insn_cswsp => True | _ => False end -> same_effect g ir c.
Proof.
  destruct (jo_regs _ Hir) as (Hd & Hs1 & Hs2 & _). unfold jit_safe in Hsafe. intros Ho. assert (Hsp : 0 <= rv_reg_sp < 32) by done.
  destruct (opcode ir) eqn:E; try done; cbv zeta in Hsafe;
    [ destruct (access_base ir.(rs1) 1 0 ltac:(auto) Hsafe) as (E1 & E2 & _)
    | destruct (access_base ir.(rs1) 2 1 ltac:(auto) Hsafe) as (E1 & E2 & _)
    | destruct (access_base ir.(rs1) 4 3 ltac:(auto) Hsafe) as (E1 & E2 & _)
    | destruct (access_base ir.(rs1) 4 3 ltac:(auto) Hsafe) as (E1 & E2 & _)
    | destruct (access_base rv_reg_sp 4 3 ltac:(auto) Hsafe) as (E1 & E2 & _) ].
  - eapply (store_effect S8 ir.(rs1) 0 0 false); [done|auto|done|rewrite E; cbn [code_of]; unfold code_sb; rewrite E1; reflexivity|by rewrite E].
  - eapply (store_effect S16 ir.(rs1) 1 _ _); [done|auto|done|rewrite E; cbn [code_of]; unfold code_sh; rewrite E1; reflexivity|by rewrite E].
  - eapply (store_effect S32 ir.(rs1) 3 _ _); [done|auto|done| |by rewrite E]. rewrite E. cbn [code_of]. unfold code_sw. rewrite E1.
    apply access_ext. intros rv. cbv beta. by rewrite word_store.
  - eapply (store_effect S32 ir.(rs1) 3 _ _); [done|auto|done| |by rewrite E]. rewrite E. cbn [code_of]. unfold code_csw, cstore. rewrite E2.
    apply access_ext. intros rv. cbv beta. by rewrite word_store.
  - eapply (store_effect S32 rv_reg_sp 3 _ _); [done|auto|done| |by rewrite E]. rewrite E. cbn [code_of]. unfold code_cswsp, cstore. rewrite E1.
    apply access_ext. intros rv. cbv beta. by rewrite word_store.
Qed.

(** The compressed instructions that compute. *)
Lemma effect_rvc :
  match ir.(opcode) with
  | rv_insn_caddi4spn | rv_insn_caddi | rv_insn_caddi16sp | rv_insn_csrli | rv_insn_csrai | rv_insn_candi | rv_insn_cslli => True
  | _ => False
  end -> same_effect g ir c.
Proof.
  destruct Hg as [Hwf Hx0], (jo_regs _ Hir) as (Hd & Hs1 & _ & Hsh). pose proof (jo_static _ Hir) as Hst. unfold static_ok in Hst.
  unfold jit_safe in Hsafe. assert (Hsp : 0 <= rv_reg_sp < 32) by done. pose proof (xreg_u32 g ir.(rs1) Hwf) as Hx.
  intros Ho. destruct (opcode ir) eqn:E; try done; cbn [unguarded alu_rr alu_ri orb negb andb] in Hst.
  - eapply effect_write; rewrite E; [reflexivity|]. apply (gen_alu_imm_ok stk g Hwf Hx0 _ _ _ _ _ ADD); [done..|]. cbn [alu_result].
    unfold alu_caddi4spn, add32. by rewrite u32_add_r.
  - eapply effect_write; rewrite E; [reflexivity|]. apply (gen_update_imm_ok stk g Hwf Hx0 _ _ _ _ ADD); [done..|]. cbn [alu_result].
    unfold alu_caddi, add32. by rewrite u32_add_r.
  - eapply effect_write; rewrite E; [reflexivity|]. apply (gen_update_imm_ok stk g Hwf Hx0 _ _ _ _ ADD); [done..|]. cbn [alu_result].
    unfold alu_caddi16sp, add32. by rewrite u32_add_r.
  - exists (set_xreg ir.(rs1) (xreg g ir.(rs1) ≫ ir.(shamt)) g). rewrite E. split.
    + cbn [code_of]. unfold code_csrli, alu_csrli, c_shr. rewrite (proj2 (Z.ltb_lt _ _)) by lia. done.
    + apply (gen_update_shift_ok stk g Hwf Hx0 _ 5); [done|lia|done].
  - exists (set_xreg ir.(rs1) (u32 (i32 (xreg g ir.(rs1)) ≫ ir.(shamt))) g). rewrite E. split.
    + cbn [code_of]. unfold code_csrai. rewrite csrai_loop by (done || lia). done.
    + apply (gen_update_shift_ok stk g Hwf Hx0 _ 7); [done|lia|done].
  - exists (set_xreg ir.(rs1) (alu_candi (xreg g ir.(rs1)) ir.(imm)) g). rewrite E. split; [done|].
    by apply (gen_update_imm_ok stk g Hwf Hx0 _ _ _ _ AND).
  - assert (Hi : u8 ir.(imm) = ir.(imm)) by (unfold u8; apply Z.mod_small; lia).
    eapply effect_write; rewrite E.
    + cbn [code_of]. unfold code_cslli, alu_cslli, c_shl. rewrite Hi, Hsafe. reflexivity.
    + cbn [gen_code]. unfold gen_cslli. rewrite Hi. apply (gen_update_shift_ok stk g Hwf Hx0 _ 4); [done|lia|done].
Qed.

Lemma straight_effect : is_fused ir.(opcode) = false -> straight_op ir.(opcode) = true -> same_effect g ir c.
Proof.
  intros Hf Hs. destruct (opcode ir) eqn:E; try discriminate Hs; try discriminate Hf;
    first [ apply effect_nop; rewrite E; by auto
          | apply effect_const; rewrite E; exact I | apply effect_alu_imm; rewrite E; exact I
          | apply effect_set; rewrite E; exact I | apply effect_alu; rewrite E; exact I
          | apply effect_mul; rewrite E; exact I | apply effect_load; rewrite E; exact I
          | apply effect_store; rewrite E; exact I | apply effect_rvc; rewrite E; exact I ].
Qed.
End Effect.

(** * Steps of the interpreter *)

(** The handler falls through, and the generated code takes the host along. *)
Definition step_through (g : riscv) (ir : rv_insn_t) (c : Z) : Prop :=
  exists g' c' p', exec_ir g ir c ir.(Insn.pc) = Next g' c' p' /\ steps stk g (gen_insn ir) g' /\ inv g' /\ is_u32 p'.

Lemma equiv_same (g1 g2 : riscv) : g1 ≡ g2 -> same_guest g1 g2.
Proof. intros ->%equiv_put. done. Qed.

Lemma next_equiv_inv (o : outcome) (g : riscv) (c p : Z) : o ≡ Next g c p -> exists g', o = Next g' c p /\ g' ≡ g.
Proof.
  unfold equiv, outcome_equiv. destruct o as [r c1 p1| | | |]; cbn [oerase]; intros E; try discriminate E.
  exists r. split; [congruence|]. unfold equiv, riscv_equiv. congruence.
Qed.

Lemma gen_insn_plain (ir : rv_insn_t) :
  is_fused ir.(opcode) = false -> gen_insn ir = (emit_jit_inc_timer;; gen_code ir.(opcode) ir).
Proof. unfold gen_insn. by destruct (opcode ir). Qed.

Lemma jit_ok_fusable (ir : rv_insn_t) : jit_ok ir -> is_fused ir.(opcode) = false -> fusable ir.
Proof. intros [] Hf. constructor; [by constructor|done|done]. Qed.

Lemma plain_through (g : riscv) (ir : rv_insn_t) (c : Z) :
  inv g -> jit_ok ir -> jit_safe g ir = true -> is_u32 ir.(Insn.pc) -> is_fused ir.(opcode) = false ->
  straight_op ir.(opcode) = true -> step_through g ir c.
Proof.
  intros Hg Hir Hs Hp Hf Ho. destruct (straight_effect g ir (u64 (c + 1)) Hg Hir Hs Hf Ho) as (G & Hc & St).
  pose proof (exec_ir_code g ir c ir.(Insn.pc) (jo_impl _ Hir) Hf) as He.
  rewrite (finish_equiv (insn_len ir.(opcode)) _ _ Hc) in He. cbn [finish] in He.
  destruct (next_equiv_inv _ _ _ _ He) as (g' & E & Hgg). exists g', (u64 (c + 1)), (add32 ir.(Insn.pc) (insn_len ir.(opcode))).
  split; [done|]. assert (Hb : insn_is_branch ir.(opcode) = false) by (by destruct (opcode ir)).
  destruct (next_inv ir g g' c ir.(Insn.pc) _ _ (jit_ok_fusable _ Hir Hf) Hb Hp Hg E) as [Hg' Hp']. split; [|done].
  rewrite gen_insn_plain by done. eapply steps_bind; [apply inc_timer_ok|]. eapply steps_same; [|exact St].
  apply equiv_same. by symmetry.
Qed.

(** ** Fused instructions *)

Lemma steps_from_same (g0 g g' : riscv) (mo : jit unit) : same_guest g0 g -> steps stk g mo g' -> steps stk g0 mo g'.
Proof.
  intros Hs. apply gens_pre; [done|]. intros s h _ [Hsim _]. split; [|done]. by eapply sim_same.
Qed.

Section Fuse.
Context (g : riscv) (ir : rv_insn_t) (c : Z) (Hg : inv g) (Hir : jit_ok ir) (Hsafe : jit_safe g ir = true).

Lemma counted_inv : inv (count_insn ir.(opcode) g).
Proof. destruct Hg. split; [auto with rv|done]. Qed.

Lemma fused_some (p : opcode_fuse_t -> bool) :
  all_fused p ir = true -> exists l, fused ir = Some l /\ forall f, f ∈ l -> p f = true.
Proof.
  unfold all_fused. destruct (fused ir) as [l|]; [|done]. intros Hp. exists l. split; [done|]. intros f Hf%list_elem_of_In.
  by apply (forallb_forall p l).
Qed.

(** The handler computes [g'] from the counted state. *)
Lemma fuse_through (g' : riscv) (c' p' : Z) :
  exec_ir g ir c ir.(Insn.pc) = Next g' c' p' -> gen_insn ir = gen_code ir.(opcode) ir ->
  steps stk (count_insn ir.(opcode) g) (gen_code ir.(opcode) ir) g' -> inv g' -> is_u32 p' -> step_through g ir c.
Proof.
  intros E Eg St Hi Hp. exists g', c', p'. split; [done|]. split; [|done]. rewrite Eg. by eapply steps_from_same; [|exact St].
Qed.

(** A loop that folds an effect over the elements. *)
Lemma loop_through (f : riscv -> opcode_fuse_t -> riscv) (gen : opcode_fuse_t -> jit unit) (l : list opcode_fuse_t) (c' p' : Z) :
  fused ir = Some l -> exec_ir g ir c ir.(Insn.pc) = Next (fold_left f l (count_insn ir.(opcode) g)) c' p' -> gen_insn ir = for_fused ir gen ->
  gen_code ir.(opcode) ir = for_fused ir gen ->
  (forall g a, a ∈ l -> inv g -> inv (f g a) /\ steps stk g (gen a) (f g a)) -> is_u32 p' -> step_through g ir c.
Proof.
  intros El E Eg Ec Hf Hp. destruct (steps_loop stk l gen f (count_insn ir.(opcode) g) counted_inv Hf) as [St Hi].
  eapply fuse_through; [exact E|by rewrite Ec| |done|done]. rewrite Ec. unfold for_fused. by rewrite El.
Qed.

Lemma through_fuse1 : ir.(opcode) = rv_insn_fuse1 -> step_through g ir c.
Proof.
  intros Ho. pose proof (jo_fused _ Hir) as Hf. unfold fused_ok in Hf. rewrite Ho in Hf. destruct (fused_some _ Hf) as (l & El & Hl).
  apply (loop_through (fun rv f => set_xreg f.(f_rd) (u32 f.(f_imm)) rv) (fun f => gen_const f.(f_rd) f.(f_imm)) l
    (u64 (c + ir.(imm2))) (add32 ir.(Insn.pc) (ir.(imm2) * 4))); [done| | | | |apply u32_range].
  - unfold exec_ir. rewrite (jo_impl _ Hir), Ho. cbn [do_insn]. unfold do_fuse1. by rewrite El, Ho.
  - unfold gen_insn. by rewrite Ho.
  - by rewrite Ho.
  - intros g1 f Hin Hi. specialize (Hl f Hin). unfold f_dest_ok in Hl. split; [apply inv_set_xreg; [done|lia|apply u32_range]|].
    destruct Hi. apply gen_const_ok; [done|done|lia].
Qed.

Lemma through_fuse7 : ir.(opcode) = rv_insn_fuse7 -> step_through g ir c.
Proof.
  intros Ho. pose proof (jo_fused _ Hir) as Hf. unfold fused_ok in Hf. rewrite Ho in Hf. destruct (fused_some _ Hf) as (l & El & Hl).
  apply (loop_through (fun rv f => set_xreg f.(f_rd) (add32 (xreg rv f.(f_rs1)) (u32 f.(f_imm))) rv)
    (fun f => gen_unary f.(f_rs1) f.(f_rd) (fun r => emit_alu32_imm32 0x81 0 r f.(f_imm))) l
    (u64 (c + ir.(imm2))) (add32 ir.(Insn.pc) (ir.(imm2) * 4))); [done| | | | |apply u32_range].
  - unfold exec_ir. rewrite (jo_impl _ Hir), Ho. cbn [do_insn]. unfold do_fuse7. by rewrite El, Ho.
  - unfold gen_insn. by rewrite Ho.
  - by rewrite Ho.
  - intros g1 f Hin Hi. specialize (Hl f Hin). unfold f_regs_ok, f_dest_ok in Hl.
    split; [apply inv_set_xreg; [done|lia|apply u32_range]|]. destruct Hi.
    apply (gen_alu_imm_ok stk g1 ltac:(done) ltac:(done) _ _ 0 _ _ ADD); [lia|lia|done|done].
Qed.

Lemma through_fuse5 : ir.(opcode) = rv_insn_fuse5 -> step_through g ir c.
Proof.
  intros Ho. pose proof (jo_fused _ Hir) as Hf. unfold fused_ok in Hf. rewrite Ho in Hf. destruct (fused_some _ Hf) as (l & El & Hl).
  set (f := fun rv f => default rv (fuse_shift_exec rv f)).
  assert (Hfold : forall l rv, (forall a, a ∈ l -> shift_opcode a.(f_opcode) = true) ->
    fold_left (fun acc a => let? rv := acc in fuse_shift_exec rv a) l (Some rv) = Some (fold_left f l rv)).
  { clear. induction l as [|a l IH]; intros rv Hs; [done|]. cbn [fold_left].
    assert (E : fuse_shift_exec rv a = Some (f rv a)).
    { unfold f, fuse_shift_exec. specialize (Hs a ltac:(left)). by destruct (f_opcode a). }
    rewrite E. apply IH. intros b Hb. apply Hs. by right. }
  eapply (loop_through f _ l (u64 (c + ir.(imm2))) (add32 ir.(Insn.pc) (ir.(imm2) * 4))); [done| | | | |apply u32_range].
  - unfold exec_ir. rewrite (jo_impl _ Hir), Ho. cbn [do_insn]. unfold do_fuse5. rewrite El, Ho, Hfold; [done|].
    intros a [_ Ha]%Hl%andb_prop. done.
  - unfold gen_insn. rewrite Ho. reflexivity.
  - by rewrite Ho.
  - intros g1 a Hin Hi. specialize (Hl a Hin). unfold f_regs_ok, f_dest_ok in Hl. cbv beta. pose proof (and31_range a.(f_imm)) as Hn.
    destruct Hi as [Hw Hz]. pose proof (xreg_u32 g1 a.(f_rs1) Hw) as Hx.
    unfold f, fuse_shift_exec. destruct (f_opcode a); try (cbn in Hl; lia); cbn [default].
    + split; [apply inv_set_xreg; [done|lia|apply u32_range]|]. apply (gen_shift_imm_ok stk g1 Hw Hz _ _ 4); [lia..|done].
    + split; [apply inv_set_xreg; [done|lia|by apply shr_and31_u32]|]. apply (gen_shift_imm_ok stk g1 Hw Hz _ _ 5); [lia..|done].
    + split; [apply inv_set_xreg; [done|lia|apply u32_range]|]. apply (gen_shift_imm_ok stk g1 Hw Hz _ _ 7); [lia..|done].
Qed.

Lemma stores_safe_count (o : opcode_t) (l : list opcode_fuse_t) (r : riscv) : stores_safe l (count_insn o r) = stores_safe l r.
Proof. revert r. induction l as [|f l IH]; intros r; [done|]. cbn [stores_safe]. f_equal. exact (IH (set_mem _ r)). Qed.

Lemma loads_safe_count (o : opcode_t) (l : list opcode_fuse_t) (r : riscv) : loads_safe l (count_insn o r) = loads_safe l r.
Proof. revert r. induction l as [|f l IH]; intros r; [done|]. cbn [loads_safe]. f_equal. exact (IH (set_xreg _ _ r)). Qed.

Lemma through_fuse3 : ir.(opcode) = rv_insn_fuse3 -> step_through g ir c.
Proof.
  intros Ho. pose proof (jo_fused _ Hir) as Hf. unfold fused_ok in Hf. unfold jit_safe in Hsafe. rewrite Ho in Hf, Hsafe. unfold all_fused in Hf.
  destruct (fused ir) as [l|] eqn:El; [|done]. rewrite <- (stores_safe_count ir.(opcode)) in Hsafe.
  destruct (stores_ok stk l _ (u64 (c + ir.(imm2))) ir.(Insn.pc) counted_inv Hf Hsafe) as (g' & Hg' & St & Hk).
  eapply (fuse_through g' (u64 (c + ir.(imm2))) (add32 ir.(Insn.pc) (ir.(imm2) * 4))); [| | |done|apply u32_range].
  - unfold exec_ir. rewrite (jo_impl _ Hir), Ho. cbn [do_insn]. unfold do_fuse3. rewrite El, Hk. done.
  - unfold gen_insn. by rewrite Ho.
  - rewrite Ho at 2. cbn [gen_code]. unfold gen_fuse3, for_fused. by rewrite El.
Qed.

Lemma through_fuse4 : ir.(opcode) = rv_insn_fuse4 -> step_through g ir c.
Proof.
  intros Ho. pose proof (jo_fused _ Hir) as Hf. unfold fused_ok in Hf. unfold jit_safe in Hsafe. rewrite Ho in Hf, Hsafe. unfold all_fused in Hf.
  destruct (fused ir) as [l|] eqn:El; [|done]. rewrite <- (loads_safe_count ir.(opcode)) in Hsafe.
  assert (Hl : forall f, In f l -> f_regs_ok f = true /\ f_dest_ok f = true).
  { intros f Hin. apply andb_prop. exact (proj1 (forallb_forall _ l) Hf f Hin). }
  destruct (loads_ok stk l _ (u64 (c + ir.(imm2))) ir.(Insn.pc) counted_inv) as (g' & Hg' & St & Hk);
    [apply forallb_forall; intros f Hin; by apply Hl|apply forallb_forall; intros f Hin; by apply Hl|done|].
  eapply (fuse_through g' (u64 (c + ir.(imm2))) (add32 ir.(Insn.pc) (ir.(imm2) * 4))); [| | |done|apply u32_range].
  - unfold exec_ir. rewrite (jo_impl _ Hir), Ho. cbn [do_insn]. unfold do_fuse4. rewrite El, Hk. done.
  - unfold gen_insn. by rewrite Ho.
  - rewrite Ho at 2. cbn [gen_code]. unfold gen_fuse4, for_fused. by rewrite El.
Qed.

Lemma through_fuse2 : ir.(opcode) = rv_insn_fuse2 -> step_through g ir c.
Proof.
  intros Ho. pose proof (jo_fused _ Hir) as Hf. unfold fused_ok in Hf. rewrite Ho in Hf. pose proof (jo_regs _ Hir) as Hr.
  destruct Hr as (Hd & Hs1 & Hs2 & Hsh). eapply fuse_through; [| | | |apply u32_range].
  - unfold exec_ir. rewrite (jo_impl _ Hir), Ho at 1. cbn [do_insn]. reflexivity.
  - unfold gen_insn. by rewrite Ho.
  - rewrite Ho at 2. cbn [gen_code]. apply gen_fuse2_ok; [apply counted_inv|apply Hir|lia].
  - apply inv_set_xreg; [|lia|apply add32_u32]. apply inv_set_xreg; [apply counted_inv|lia|apply u32_range].
Qed.

Lemma through_fuse8 : ir.(opcode) = rv_insn_fuse8 -> step_through g ir c.
Proof.
  intros Ho. pose proof (jo_fused _ Hir) as Hf. unfold fused_ok in Hf. rewrite Ho in Hf. destruct (jo_regs _ Hir) as (Hd & _).
  pose proof counted_inv as Hc. eapply fuse_through; [| | | |apply u32_range].
  - unfold exec_ir. rewrite (jo_impl _ Hir), Ho at 1. cbn [do_insn]. reflexivity.
  - unfold gen_insn. by rewrite Ho.
  - rewrite Ho at 2. cbn [gen_code]. rewrite <- (u32_id (add32 (u32 ir.(imm)) (u32 ir.(imm2)))) by apply add32_u32.
    destruct Hc. by apply gen_const_ok.
  - apply inv_set_xreg; [done|lia|apply add32_u32].
Qed.
End Fuse.

(** Every straight-line instruction. *)
Lemma straight_through (g : riscv) (ir : rv_insn_t) (c : Z) :
  inv g -> jit_ok ir -> jit_safe g ir = true -> is_u32 ir.(Insn.pc) -> straight_op ir.(opcode) = true -> step_through g ir c.
Proof.
  intros Hg Hir Hs Hp Ho. destruct (is_fused ir.(opcode)) eqn:Hf; [|by apply plain_through].
  destruct (opcode ir) eqn:E; try discriminate Ho; try discriminate Hf;
    [ by apply through_fuse1 | by apply through_fuse2 | by apply through_fuse3 | by apply through_fuse4
    | by apply through_fuse5 | by apply through_fuse7 | by apply through_fuse8 ].
Qed.
End Straight.
