(* ===== verification/JitSpec.v ===== *)
(** Translated blocks: the instructions that leave a block, and that running the
    code of a block does what the interpreter does with its instructions. *)

From stdpp Require Import base list option numbers gmap.
From Stdlib Require Import ZArith Lia Bool.
From S2P Require Import Prelude Bits Insn Decode Mem MemSpec State Trap Csr Fp Alu AluSpec Exec IsaValues Isa IsaRefine DecodeExec ExecWf Equiv Frame Late Samples Block Fusion FusionSpec X64 Jit JitAlloc JitInsn JitMul JitGuest.
#[local] Open Scope Z_scope.
#[local] Open Scope jit_scope.

(** * Leaving generated code *)

Section Leave.
Context `{HostEnvOk} `{JitHistory} (stk : list slot).

(** Generated code between blocks: the emulator state has the registers. *)
Definition ready (g : riscv) (h : host) : Prop :=
  h.(hregs) RDI = rv_addr /\ h.(hstack) = stk /\ same_guest h.(hrv) g.

(** The code is left for guest address [q] with guest state [g]. *)
Definition leaves (g : riscv) (q : Z) (o : hout) : Prop :=
  match o with
  | Exited h => h.(hrv).(PC) = q /\ ready g h
  | Linked h pc => pc = q /\ ready g h
  | _ => False
  end.

(** The code calls a function of the emulator with the guest at address [q]. *)
Definition calls (g : riscv) (q target : Z) (o : hout) : Prop :=
  match o with
  | Called h t => t = u64 target /\ h.(hrv).(PC) = q /\ ready g h
  | _ => False
  end.

(** [mo] generates code that ends as [O] says. *)
Definition ends (S : jit_state -> Prop) (P : jit_state -> host -> Prop) (mo : jit unit) (O : hout -> Prop) : Prop :=
  forall s, S s -> exists s' seg, mo s = Some (tt, s') /\ s'.(code) = s.(code) ++ seg /\ forall h, P s h -> O (hrun 0 seg h).

Lemma ends_bind {A} S P (m : jit A) T Q (k : A -> jit unit) O :
  gens S P m T Q -> (forall a, ends (T a) (Q a) (k a) O) -> ends S P (bind m k) O.
Proof.
  intros Hm Hk s Hs. destruct (Hm s Hs) as (a & s1 & seg1 & E1 & C1 & T1 & R1).
  destruct (Hk a s1 T1) as (s2 & seg2 & E2 & C2 & R2).
  exists s2, (seg1 ++ seg2). split; [unfold bind; by rewrite E1|]. split; [by rewrite C2, C1, app_assoc|].
  intros h Hp. destruct (R1 h Hp) as (h1 & X1 & Q1). rewrite hrun_app, X1. by apply R2.
Qed.

Lemma ends_pre (S S' : jit_state -> Prop) (P P' : jit_state -> host -> Prop) (mo : jit unit) (O : hout -> Prop) :
  (forall s, S s -> S' s) -> (forall s h, S s -> P s h -> P' s h) -> ends S' P' mo O -> ends S P mo O.
Proof.
  intros HS HP Hm s Hs. destruct (Hm s (HS s Hs)) as (s' & seg & E & C & HO). exists s', seg. split; [done|]. split; [done|].
  intros h Hp. by apply HO, HP.
Qed.

Section Guest.
Context (g : riscv) (Hwf : riscv_wf g) (Hx0 : xreg g 0 = 0).

Definition stored (s : jit_state) : Prop := st_ok s /\ all_clean s.(register_map).

Lemma stored_ready (R : (Z -> Z) -> option flags -> Prop) (s : jit_state) (h : host) :
  stored s -> holds g stk nohole R s h -> ready g h.
Proof.
  intros [Hs Hc] [Hsim _]. split; [apply Hsim|]. split; [apply Hsim|]. split; [apply Hsim|].
  apply list_eq. intros i. pose proof (sm_length _ _ _ _ _ Hsim) as Hl. pose proof (wf_X_len _ Hwf) as Hl'.
  destruct (decide (i < 32)%nat) as [Hi|Hi].
  - rewrite !list_lookup_lookup_total_lt by lia. f_equal. pose proof (stored_all g stk _ h (Z.of_nat i) Hsim Hc ltac:(lia)) as E.
    unfold xreg in E. by rewrite Nat2Z.id in E.
  - rewrite !lookup_ge_None_2 by lia. done.
Qed.

Lemma ready_pc (h : host) (v : Z) : ready g h -> ready g (set_hrv (set_PC v h.(hrv)) h).
Proof. done. Qed.

Lemma ready_reg (h : host) (r v : Z) : r <> RDI -> ready g h -> ready g (set_hreg r v h).
Proof. intros Hr (E & Hs & Hg). split; [|done]. cbn. by rewrite upd_ne. Qed.

Lemma ready_flags (h : host) (fl : option flags) : ready g h -> ready g (set_hflags fl h).
Proof. done. Qed.

Lemma ready_size (h : host) : ready g h -> h.(hrv).(mem).(mem_size) <= 2 ^ 32.
Proof. intros (_ & _ & Hc & _). destruct (core_fields _ _ Hc) as [-> _]. by apply guest_size. Qed.

(** The store of the program counter. *)
Lemma store_pc_run (h : host) (c : list hinsn) :
  ready g h -> hrun 0 (Store S32 RCX RDI offsetof_PC :: c) h = hrun 0 c (set_hrv (set_PC (u32 (h.(hregs) RCX)) h.(hrv)) h).
Proof.
  intros Hr. apply hrun_cons; [done|]. cbn [hexec size_bytes]. rewrite (proj1 Hr). apply store_pc. by apply ready_size.
Qed.

(** ** To a known address *)

Definition leave_code (pc : Z) : list hinsn := [Load_imm RCX pc; Store S32 RCX RDI offsetof_PC; Jmp_exit].

Definition append (c : list hinsn) (s : jit_state) : jit_state :=
  mk_jit (s.(code) ++ c) s.(register_map) s.(liveness) s.(candidate_queue).

Lemma store_pc_eq (s : jit_state) :
  map_ok s.(register_map) -> emit_store S32 RCX RDI offsetof_PC s = Some (tt, append [Store S32 RCX RDI offsetof_PC] s).
Proof.
  intros Hm. destruct s as [c m l q]. unfold emit_store, bind, gets. cbn [register_map] in *.
  rewrite holds_x0_other by (done || apply rcx_not_mapped). unfold emit, modify, set_code, when, set_dirty, set_register_map.
  cbn [code register_map liveness candidate_queue]. change (negb (offsetof_PC =? 0)) with true. cbv iota. unfold modify.
  cbn [code register_map liveness candidate_queue].
  by rewrite alter_first_none by (done || apply rcx_not_mapped).
Qed.

Lemma temp_imm_eq (s : jit_state) (v : Z) :
  map_ok s.(register_map) -> emit_load_imm RCX v s = Some (tt, append [Load_imm RCX v] s).
Proof.
  intros Hm. destruct s as [c m l q]. unfold emit_load_imm. rewrite emit_dirty_eq. unfold dirtied.
  cbn [register_map] in *. by rewrite alter_first_none by (done || apply rcx_not_mapped).
Qed.

Lemma gen_leave_eq (pc : Z) (s : jit_state) :
  map_ok s.(register_map) -> gen_leave pc s = Some (tt, append (leave_code pc) s).
Proof.
  intros Hm. unfold gen_leave, temp_reg, parameter_reg_0, bind. rewrite temp_imm_eq by done. rewrite store_pc_eq by done.
  unfold emit_exit, emit, modify, append, set_code, leave_code. cbn [code register_map liveness candidate_queue].
  by rewrite <- !app_assoc.
Qed.

Definition way_out (jmp : bool) (pc : Z) : list hinsn := (if jmp then [Jmp (u32 pc)] else []) ++ leave_code pc.

Lemma way_out_eq (jmp : bool) (pc : Z) (s : jit_state) :
  map_ok s.(register_map) -> (when jmp (emit_jmp pc);; gen_leave pc) s = Some (tt, append (way_out jmp pc) s).
Proof.
  intros Hm. destruct jmp; unfold bind, way_out; cbn [when app].
  - unfold emit_jmp, emit, modify. rewrite gen_leave_eq by done. unfold append, set_code. cbn [code register_map liveness candidate_queue].
    by rewrite <- app_assoc.
  - unfold ret. by rewrite gen_leave_eq.
Qed.

Lemma leave_run (pc : Z) (h : host) : ready g h -> leaves g (u32 pc) (hrun 0 (leave_code pc) h).
Proof.
  intros Hr. unfold leave_code. assert (Hr1 : ready g (set_hreg RCX (u32 pc) h)) by (by apply ready_reg).
  rewrite (hrun_cons _ _ _ (set_hreg RCX (u32 pc) h)) by done. rewrite store_pc_run by done. cbn [hrun leaves].
  split; [|by apply ready_pc]. cbn [hrv set_hrv set_PC PC hregs set_hreg]. by rewrite upd_eq, u32_u32.
Qed.

Lemma way_out_run (jmp : bool) (pc : Z) (h : host) : ready g h -> leaves g (u32 pc) (hrun 0 (way_out jmp pc) h).
Proof.
  intros Hr. unfold way_out. destruct jmp; cbn [app]; [|by apply leave_run]. cbn [hrun]. destruct (linked (u32 pc)); [done|].
  by apply leave_run.
Qed.

Lemma leaves_app (q : Z) (c1 c2 : list hinsn) (h : host) : leaves g q (hrun 0 c1 h) -> hrun 0 (c1 ++ c2) h = hrun 0 c1 h.
Proof. rewrite hrun_app. by destruct (hrun 0 c1 h). Qed.

(** Storing everything back and leaving. *)
Lemma goto_ok (pc : Z) (R : (Z -> Z) -> option flags -> Prop) :
  ends st_ok (holds g stk nohole R) (store_back;; emit_jmp pc;; gen_leave pc) (leaves g (u32 pc)).
Proof.
  eapply ends_bind; [apply (store_back_ok g stk Hwf Hx0)|]. intros [] s Hs.
  eexists _, _. split; [apply (way_out_eq true); apply Hs|]. split; [reflexivity|]. intros h Hh.
  apply way_out_run. by eapply stored_ready.
Qed.

(** The two ways out of a branch. *)
Lemma branch_exits_ok (cc : Z) (ir : rv_insn_t) (untaken taken : Z) (b : bool) (R : (Z -> Z) -> option flags -> Prop) :
  (forall f fl, R f fl -> jcc_cond cc fl = Some b) ->
  ends st_ok (holds g stk nohole R) (gen_branch_exits cc ir untaken taken) (leaves g (u32 (if b then taken else untaken))).
Proof.
  intros Hb. eapply ends_bind; [apply (store_back_ok g stk Hwf Hx0)|]. intros [] s Hs. pose proof (so_map_ok _ (proj1 Hs)) as Hm.
  set (ju := bool_decide (is_Some ir.(branch_untaken))). set (jt := bool_decide (is_Some ir.(branch_taken))).
  unfold bind at 1. erewrite jump_over_eq; [|apply way_out_eq; exact Hm|reflexivity].
  eexists _, (Jcc cc (length (way_out ju untaken)) :: way_out ju untaken ++ way_out jt taken).
  split; [apply way_out_eq; exact Hm|]. split; [cbn; by rewrite <- app_assoc|]. intros h Hh.
  pose proof (stored_ready R s h Hs Hh) as Hr. cbn [hrun]. rewrite (Hb _ _ (proj2 Hh)). destruct b.
  - rewrite hrun_app, hrun_skip. by apply way_out_run.
  - pose proof (way_out_run ju untaken h Hr) as Hu. by rewrite (leaves_app _ _ _ _ Hu).
Qed.

(** ** To the address in the scratch register *)

Definition hot_code (o : option Z) : list hinsn :=
  match o with
  | Some pc => [Load_imm RAX pc; Alu false 0x39 RCX RAX; Jcc 0x85 1; Jmp (u32 pc)]
  | None => []
  end.

Lemma indirect_eq (ir : rv_insn_t) (s : jit_state) :
  stored s -> exists s', (parse_branch_history_table ir;; emit_store S32 temp_reg parameter_reg_0 offsetof_PC;; emit_exit) s = Some (tt, s') /\
    s'.(code) = s.(code) ++ hot_code (hot_target (history ir)) ++ [Store S32 RCX RDI offsetof_PC; Jmp_exit].
Proof.
  intros [[Hm _] Hc]. destruct s as [c m l q]. cbn [register_map code] in *. unfold parse_branch_history_table.
  destruct (map_entries m Hm) as
    ([r0 v0 d0 a0] & [r1 v1 d1 a1] & [r2 v2 d2 a2] & [r3 v3 d3 a3] & [r4 v4 d4 a4] & [r5 v5 d5 a5] & [r6 v6 d6 a6] & [r7 v7 d7 a7] &
     [r8 v8 d8 a8] & [r9 v9 d9 a9] & -> & E). clear Hm.
  cbn [reg_idx] in E. injection E as -> -> -> -> -> -> -> -> -> ->. pose proof (Hc 0%nat _ eq_refl) as Hd. cbn [dirty] in Hd. subst d0. clear Hc.
  destruct (hot_target (history ir)) as [pc|]; cbn [hot_code app].
  - eexists. split; [reflexivity|]. cbn -[app u32]. rewrite <- !app_assoc. cbn [app].
    set (c1 := c ++ [Load_imm RAX pc; Alu false 57 temp_reg RAX]).
    replace (c ++ [Load_imm RAX pc; Alu false 57 temp_reg RAX; Jcc 133 0; Jmp (u32 pc)]) with (c1 ++ Jcc 133 0 :: [Jmp (u32 pc)])
      by (unfold c1; by rewrite <- app_assoc).
    rewrite alter_middle, length_app. cbn [length set_target].
    replace (length c1 + 2 - (length c1 + 1))%nat with 1%nat by lia. unfold c1. by rewrite <- !app_assoc.
  - eexists. split; [reflexivity|]. cbn -[app]. by rewrite <- !app_assoc.
Qed.

Lemma hot_run (o : option Z) (t : Z) (h : host) :
  ready g h -> h.(hregs) RCX = t -> is_u32 t ->
  leaves g t (hrun 0 (hot_code o ++ [Store S32 RCX RDI offsetof_PC; Jmp_exit]) h).
Proof.
  intros Hr Ht Hu.
  assert (Hlast : forall h', ready g h' -> h'.(hregs) RCX = t -> leaves g t (hrun 0 [Store S32 RCX RDI offsetof_PC; Jmp_exit] h')).
  { intros h' Hr' Ht'. rewrite store_pc_run by done. cbn [hrun leaves]. split; [|by apply ready_pc]. cbn. by rewrite Ht', u32_id. }
  destruct o as [pc|]; cbn [hot_code app]; [|by apply Hlast].
  set (fl := Some (arith_flags false (u32 pc - t) (i32 (u32 pc) - i32 t))).
  set (h1 := set_hflags fl (set_hreg RAX (u32 pc) h)).
  assert (Hr1 : ready g h1) by (apply ready_flags, ready_reg; done).
  rewrite (hrun_cons _ _ _ (set_hreg RAX (u32 pc) h)) by done.
  rewrite (hrun_cons _ _ _ h1); [|done|].
  2: { cbn [hexec mr_op]. cbn [hregs set_hreg]. rewrite upd_eq, upd_ne, Ht by done.
       rewrite (low32 (u32 pc)), (low32 t) by (done || apply u32_range). done. }
  assert (Hcc : jcc_cond 0x85 h1.(hflags) = Some (negb (u32 pc =? t))).
  { apply (cc_flags 0x85 (u32 pc) t); [apply u32_range|done|done]. }
  cbn [hrun]. rewrite Hcc. destruct (Z.eqb_spec (u32 pc) t) as [E|E]; cbn [negb hrun].
  - destruct (linked (u32 pc)); [exact (conj E Hr1)|]. by apply Hlast.
  - by apply Hlast.
Qed.

Lemma indirect_ok (ir : rv_insn_t) (t : Z) :
  is_u32 t -> ends st_ok (holds g stk nohole (fun f _ => f RCX = t)) (gen_indirect ir) (leaves g t).
Proof.
  intros Ht. eapply ends_bind; [apply (store_back_ok g stk Hwf Hx0)|]. intros [] s Hs.
  destruct (indirect_eq ir s Hs) as (s' & E & C). exists s', (hot_code (hot_target (history ir)) ++ [Store S32 RCX RDI offsetof_PC; Jmp_exit]).
  split; [exact E|]. split; [exact C|]. intros h Hh. apply hot_run; [by eapply stored_ready|apply Hh|done].
Qed.

(** ** Calls *)

Lemma call_ok (pc target : Z) (R : (Z -> Z) -> option flags -> Prop) :
  ends st_ok (holds g stk nohole R) (gen_call pc target) (calls g (u32 pc) target).
Proof.
  eapply ends_bind; [apply (store_back_ok g stk Hwf Hx0)|]. intros [] s Hs. pose proof (so_map_ok _ (proj1 Hs)) as Hm.
  set (i := if i32 target =? target then Alu_imm32 true 0xc7 0 RAX target else Movabs RAX target).
  assert (Hi : forall h, hexec i h = Some (set_hreg RAX (u64 target) h)).
  { intros h. unfold i. destruct (Z.eqb_spec (i32 target) target) as [E|E]; [|done].
    cbn [hexec mi_op]. unfold alu_exec, low, width. by rewrite E. }
  unfold temp_reg, parameter_reg_0. unfold bind at 1. rewrite temp_imm_eq by done. unfold bind at 1. rewrite store_pc_eq by done.
  assert (exists s', (emit_call target;; emit_exit) (append [Store S32 RCX RDI offsetof_PC] (append [Load_imm RCX pc] s)) = Some (tt, s') /\
    s'.(code) = s.(code) ++ [Load_imm RCX pc; Store S32 RCX RDI offsetof_PC; i; Call_rax; Jmp_exit]) as (s' & E & C).
  { unfold emit_call, emit_load_imm_sext, i. destruct (i32 target =? target); (eexists; split; [reflexivity|]);
      cbn -[app]; by rewrite <- !app_assoc. }
  exists s', [Load_imm RCX pc; Store S32 RCX RDI offsetof_PC; i; Call_rax; Jmp_exit]. split; [exact E|]. split; [exact C|]. intros h Hh.
  pose proof (stored_ready R s h Hs Hh) as Hr. assert (Hr1 : ready g (set_hreg RCX (u32 pc) h)) by (by apply ready_reg).
  rewrite (hrun_cons (Load_imm RCX pc) _ h (set_hreg RCX (u32 pc) h) I eq_refl), (store_pc_run _ _ Hr1).
  rewrite (hrun_cons i _ _ _ ltac:(unfold i; by destruct (_ =? _)) (Hi _)). cbn [hrun calls]. cbn [hregs set_hreg set_hrv hrv set_PC PC].
  rewrite !upd_eq. split; [done|]. split; [by rewrite u32_u32|].
  exact (ready_reg _ RAX _ ltac:(done) (ready_pc _ (u32 (u32 pc)) Hr1)).
Qed.
End Guest.
End Leave.

(** * Instructions that leave a block *)

Section Last.
Context `{HostEnvOk} `{JitHistory} `{HostClock} `{Syscall} `{SoftFloat}.
Context `{!EnvBlind} `{!SyscallWf} (stk : list slot).

(** Where a handler that ends the block has taken the guest. *)
Definition ended (i : outcome) : option (riscv * Z) :=
  match i with
  | Jump rv _ pc _ | Lookup rv _ pc => Some (rv, pc)
  | Exit rv true => Some (rv, rv.(PC))
  | _ => None
  end.

Definition after (r : option riscv) : outcome := match r with Some rv => Exit rv true | None => Undef end.

(** Generated code and the interpreter end a block in the same way: they leave
    for the same address in the same guest state, or call the same function of
    the emulator in the same guest state (the handlers of the interpreter also
    set [compressed]). *)
Inductive agrees : hout -> outcome -> Prop :=
| agrees_leaves (o : hout) (i : outcome) (g : riscv) (q : Z) :
    leaves stk g q o -> ended i = Some (g, q) -> agrees o i
| agrees_ecall (o : hout) (g : riscv) (q : Z) (z : bool) :
    calls stk g q on_ecall o -> g.(PC) = q -> agrees o (after (ecall_handler (set_compressed z g)))
| agrees_ebreak (o : hout) (g : riscv) (q : Z) (z : bool) :
    calls stk g q on_ebreak o -> g.(PC) = q -> agrees o (after (ebreak_handler (set_compressed z g))).

Lemma same_trans (g1 g2 g3 : riscv) : same_guest g1 g2 -> same_guest g2 g3 -> same_guest g1 g3.
Proof. intros [C1 X1] [C2 X2]. split; congruence. Qed.

Lemma leaves_same (g g' : riscv) (q : Z) (o : hout) : same_guest g g' -> leaves stk g q o -> leaves stk g' q o.
Proof.
  intros Hs. destruct o as [|h|h pc| |]; cbn [leaves]; try done; intros (E & Hr & Hk & Hg); (split; [done|]); split_and!; try done;
    by eapply same_trans.
Qed.

Lemma calls_same (g g' : riscv) (q t : Z) (o : hout) : same_guest g g' -> calls stk g q t o -> calls stk g' q t o.
Proof.
  intros Hs. destruct o; cbn [calls]; try done. intros (Et & E & Hr & Hk & Hg).
  split; [done|]. split; [done|]. split; [done|]. split; [done|]. by eapply same_trans.
Qed.

Lemma agrees_left (o : hout) (i : outcome) (g g' : riscv) (q : Z) :
  leaves stk g q o -> ended i = Some (g', q) -> same_guest g g' -> agrees o i.
Proof. intros Hl Hi Hs. eapply agrees_leaves; [by eapply leaves_same|done]. Qed.

(** ** Generated code *)

Section Gen.
Context (g : riscv) (Hg : inv g).

(** A constant, while the scratch register keeps the address to jump to. *)
Lemma const_keeps (rd imm t : Z) :
  0 <= rd < 32 ->
  gens st_ok (holds g stk nohole (fun f _ => f RCX = t)) (gen_const rd imm)
    (fun _ => st_ok) (fun _ => holds (set_xreg rd (u32 imm) g) stk nohole (fun f _ => f RCX = t)).
Proof.
  intros Hrd. destruct Hg as [Hwf Hx0]. eapply gens_bind.
  - eapply gens_pre; [| |apply (map_dest_ok g stk Hwf Hx0 [-1] [] rd (fun f _ => f RCX = t))];
      [intros s Hs; split; [done|constructor]|done|cbn; lia|done|constructor].
  - intros r. apply (gens_pure (r <> RCX)); [intros s (Hs & Hm & _); eapply mapped_not_rcx; [apply Hs|exact Hm]|]. intros Hr.
    eapply gens_post; [apply (host_write_ok g stk rd r (Load_imm r imm) [] _ (fun f _ => f r = u32 imm /\ f RCX = t)); [done|done|]| |].
    + intros h _ E. exists (u32 imm), h.(hflags). split; [done|]. by rewrite upd_eq, upd_ne.
    + by intros [] s (Hs & _).
    + intros [] s h (Hs & Hm & _ & Hd) [Hsim [Hv Ht]]. split; [|done]. eapply sim_commit; [done|apply Hs|done|exact Hm|done|done|done].
Qed.

(** The guest after the link register is written. *)
Definition linked_to (rd v : Z) : riscv := if truthy rd then set_xreg rd (u32 v) g else g.

Lemma linked_inv (rd v : Z) : 0 <= rd < 32 -> inv (linked_to rd v).
Proof.
  intros Hrd. unfold linked_to, truthy. destruct (Z.eqb_spec rd 0); [done|]. cbn [negb].
  apply inv_set_xreg; [done|lia|apply u32_range].
Qed.

Lemma link_ok (rd v : Z) :
  0 <= rd < 32 -> steps stk g (when (truthy rd) (gen_const rd v)) (linked_to rd v).
Proof.
  intros Hrd. destruct Hg as [Hwf Hx0]. unfold linked_to. destruct (truthy rd); cbn [when]; [by apply gen_const_ok|apply steps_ret].
Qed.

Lemma link_keeps (rd v t : Z) :
  0 <= rd < 32 ->
  gens st_ok (holds g stk nohole (fun f _ => f RCX = t)) (when (truthy rd) (gen_const rd v))
    (fun _ => st_ok) (fun _ => holds (linked_to rd v) stk nohole (fun f _ => f RCX = t)).
Proof.
  intros Hrd. unfold linked_to. destruct (truthy rd); cbn [when]; [by apply const_keeps|]. by apply gens_ret.
Qed.

(** A guest register in the scratch register. *)
Lemma to_temp_ok (rs : Z) :
  0 <= rs < 32 ->
  gens st_ok (at_guest stk g) (r <- ra_load rs;; emit_mov r temp_reg) (fun _ => st_ok) (fun _ => holds g stk nohole (fun f _ => f RCX = xreg g rs)).
Proof.
  intros Hrs. destruct Hg as [Hwf Hx0]. eapply gens_bind; [apply (ra_load_ok g stk Hwf Hx0 rs (fun _ _ => True)); done|]. intros r.
  apply (learn stk g rs r); [done|by intros s [_ Hm]|]. eapply gens_post.
  - apply (temp_ok g stk nohole (Alu true 0x89 r RCX) _ _ (fun f _ => f RCX = xreg g rs)); [done|by intros s [Hs _]| |].
    + intros s c (Hs & Hm). split; [|done]. by apply st_ok_map; [|apply Hs].
    + intros h [_ E]. exists (xreg g rs), h.(hflags). split; [|apply upd_eq]. apply mov_exec; [by apply xreg_u32|done].
  - by intros [] s [Hs _].
  - done.
Qed.

(** Arithmetic on the scratch register. *)
Lemma temp_alu_ok (ext imm t v : Z) (o : alu_op) :
  is_u32 t -> mi_op 0x81 ext = Some o -> alu_result o t (u32 imm) = Some v ->
  gens st_ok (holds g stk nohole (fun f _ => f RCX = t)) (emit_alu32_imm32 0x81 ext temp_reg imm)
    (fun _ => st_ok) (fun _ => holds g stk nohole (fun f _ => f RCX = v)).
Proof.
  intros Ht Ho Hv. apply (temp_ok g stk nohole (Alu_imm32 false 0x81 ext RCX imm)); [done|done| |].
  - intros s c Hs. by apply st_ok_map; [|apply Hs].
  - intros h E. destruct (alu_imm_run h RCX t Ht E ext imm v o Ho Hv) as [fl Hx]. exists v, fl. split; [exact Hx|apply upd_eq].
Qed.

(** A comparison with zero. *)
Lemma cmp_zero_ok (rs r : Z) :
  0 <= rs < 32 ->
  gens (fun s => st_ok s /\ mapped s.(register_map) rs r) (at_guest stk g) (emit_cmp_imm32 r 0)
    (fun _ => st_ok) (fun _ => holds g stk nohole (fun _ fl => fl = Some (arith_flags false (xreg g rs - 0) (i32 (xreg g rs) - i32 0)))).
Proof.
  intros Hrs. destruct Hg as [Hwf Hx0]. apply (learn stk g rs r); [done|by intros s [_ Hm]|].
  eapply gens_post; [eapply gens_pre; [| |apply (flags_ok g stk rs r (Alu_imm32 false 0x81 7 r 0) [] nohole (fun f _ => f r = xreg g rs)
    (fun _ fl' => fl' = Some (arith_flags false (xreg g rs - 0) (i32 (xreg g rs) - i32 0)))); [done|done|]]|by intros [] s (Hs & _)|done].
  - intros s [Hs Hm]. split; [done|]. split; [done|constructor].
  - intros s h _ [Hsim [_ Hv]]. done.
  - intros h Hv. eexists. split; [|reflexivity]. cbn [hexec mi_op]. rewrite Hv. unfold alu_exec. by rewrite low32 by (by apply xreg_u32).
Qed.

(** ** Jumps *)

Lemma gen_jal_ok (ir : rv_insn_t) :
  regs_ok ir ->
  ends st_ok (at_guest stk g) (gen_jal ir) (leaves stk (linked_to ir.(rd) (ir.(Insn.pc) + 4)) (u32 (ir.(Insn.pc) + ir.(imm)))).
Proof.
  intros (Hd & _). eapply ends_bind; [by apply link_ok|]. intros []. destruct (linked_inv ir.(rd) (ir.(Insn.pc) + 4) Hd). by apply goto_ok.
Qed.

Lemma gen_cj_ok (ir : rv_insn_t) : ends st_ok (at_guest stk g) (gen_cj ir) (leaves stk g (u32 (ir.(Insn.pc) + ir.(imm)))).
Proof. destruct Hg. by apply goto_ok. Qed.

Lemma ra_inv (v : Z) : inv (set_xreg rv_reg_ra (u32 v) g).
Proof. apply inv_set_xreg; [done|done|apply u32_range]. Qed.

Lemma gen_cjal_ok (ir : rv_insn_t) :
  ends st_ok (at_guest stk g) (gen_cjal ir)
    (leaves stk (set_xreg rv_reg_ra (u32 (ir.(Insn.pc) + 2)) g) (u32 (ir.(Insn.pc) + ir.(imm)))).
Proof.
  destruct Hg as [Hwf Hx0], (ra_inv (ir.(Insn.pc) + 2)). eapply ends_bind; [by apply (gen_const_ok stk g Hwf Hx0)|]. intros []. by apply goto_ok.
Qed.

Lemma ends_assoc {A B} S P (m : jit A) (k1 : A -> jit B) (k2 : B -> jit unit) O :
  ends S P (bind (bind m k1) k2) O -> ends S P (bind m (fun a => bind (k1 a) k2)) O.
Proof.
  intros He s Hs. destruct (He s Hs) as (s' & seg & E & C & HO). exists s', seg. split; [|done]. rewrite <- E. unfold bind.
  by destruct (m s) as [[a s1]|].
Qed.

Lemma gen_jalr_ok (ir : rv_insn_t) :
  regs_ok ir ->
  ends st_ok (at_guest stk g) (gen_jalr ir)
    (leaves stk (linked_to ir.(rd) (ir.(Insn.pc) + 4)) (add32 (xreg g ir.(rs1)) ir.(imm) .& not32 1)).
Proof.
  intros (Hd & Hs1 & _). apply (ends_assoc _ _ (ra_load ir.(rs1)) (fun r => emit_mov r temp_reg)).
  assert (Hu : is_u32 (xreg g ir.(rs1))) by (apply xreg_u32, Hg).
  eapply ends_bind; [by apply to_temp_ok|]. intros [].
  eapply ends_bind; [apply (temp_alu_ok 0 ir.(imm) _ (add32 (xreg g ir.(rs1)) ir.(imm)) ADD Hu eq_refl)|].
  { cbn [alu_result]. unfold add32. by rewrite u32_add_r. }
  intros []. eapply ends_bind; [by apply (temp_alu_ok 4 (not32 1) _ (add32 (xreg g ir.(rs1)) ir.(imm) .& not32 1) AND (add32_u32 _ _))|].
  intros []. eapply ends_bind; [by apply link_keeps|]. intros []. destruct (linked_inv ir.(rd) (ir.(Insn.pc) + 4) Hd).
  apply indirect_ok; [done|done|]. apply u32_land_r, not32_u32.
Qed.

Lemma gen_cjr_ok (ir : rv_insn_t) :
  regs_ok ir -> ends st_ok (at_guest stk g) (gen_cjr ir) (leaves stk g (xreg g ir.(rs1))).
Proof.
  intros (Hd & Hs1 & _). apply (ends_assoc _ _ (ra_load ir.(rs1)) (fun r => emit_mov r temp_reg)).
  eapply ends_bind; [by apply to_temp_ok|]. intros []. destruct Hg. apply indirect_ok; [done|done|by apply xreg_u32].
Qed.

Lemma gen_cjalr_ok (ir : rv_insn_t) :
  regs_ok ir ->
  ends st_ok (at_guest stk g) (gen_cjalr ir) (leaves stk (set_xreg rv_reg_ra (u32 (ir.(Insn.pc) + 2)) g) (xreg g ir.(rs1))).
Proof.
  intros (Hd & Hs1 & _). apply (ends_assoc _ _ (ra_load ir.(rs1)) (fun r => emit_mov r temp_reg)).
  assert (Hu : is_u32 (xreg g ir.(rs1))) by (apply xreg_u32, Hg).
  eapply ends_bind; [by apply to_temp_ok|]. intros []. eapply ends_bind; [by apply const_keeps|]. intros [].
  destruct (ra_inv (ir.(Insn.pc) + 2)). by apply indirect_ok.
Qed.

(** ** Branches *)

Lemma gen_branch_ok (ir : rv_insn_t) (cc : Z) (b : bool) :
  regs_ok ir -> cc_result cc (xreg g ir.(rs1)) (xreg g ir.(rs2)) = Some b ->
  ends st_ok (at_guest stk g) (gen_branch cc ir)
    (leaves stk g (u32 (if b then ir.(Insn.pc) + ir.(imm) else ir.(Insn.pc) + 4))).
Proof.
  intros (Hd & Hs1 & Hs2 & _) Hb. destruct Hg as [Hwf Hx0].
  eapply ends_bind; [apply (ra_load2_ok g stk Hwf Hx0 ir.(rs1) ir.(rs2) (fun _ _ => True)); done|]. intros r.
  set (fl := Some (arith_flags false (xreg g ir.(rs1) - xreg g ir.(rs2)) (i32 (xreg g ir.(rs1)) - i32 (xreg g ir.(rs2))))).
  eapply (ends_bind _ _ _ (fun _ => st_ok) (fun _ => holds g stk nohole (fun _ fl' => fl' = fl))).
  { apply (learn stk g ir.(rs1) r.1); [done|by intros s (_ & Hm & _)|]. apply (learn stk g ir.(rs2) r.2); [done|by intros s (_ & _ & Hm)|].
    eapply gens_post; [eapply gens_pre; [| |apply (flags_ok g stk ir.(rs1) r.1 (Alu false 0x39 r.2 r.1) [] nohole
      (fun f _ => f r.1 = xreg g ir.(rs1) /\ f r.2 = xreg g ir.(rs2)) (fun _ fl' => fl' = fl)); [done|done|]]| |].
    - intros s (Hs & Hm & _). split; [done|]. split; [done|constructor].
    - intros s h _ [Hsim [[_ E1] E2]]. done.
    - intros h [E1 E2]. exists fl. split; [|done]. cbn [hexec mr_op]. rewrite E1, E2. unfold alu_exec, fl.
      by rewrite !low32 by (by apply xreg_u32).
    - intros [] s (Hs & _). exact Hs.
    - intros [] s h _ Hh. exact Hh. }
  intros []. apply branch_exits_ok; [done|done|]. intros f fl' ->. apply cc_flags; [by apply xreg_u32|by apply xreg_u32|done].
Qed.

Lemma gen_cbranch_ok (ir : rv_insn_t) (cc : Z) (b : bool) :
  regs_ok ir -> cc_result cc (xreg g ir.(rs1)) 0 = Some b ->
  ends st_ok (at_guest stk g) (gen_cbranch cc ir)
    (leaves stk g (u32 (if b then ir.(Insn.pc) + ir.(imm) else ir.(Insn.pc) + 2))).
Proof.
  intros (Hd & Hs1 & _) Hb. pose proof Hg as [Hwf Hx0].
  eapply ends_bind; [apply (ra_load_ok g stk Hwf Hx0 ir.(rs1) (fun _ _ => True)); done|]. intros r.
  eapply ends_bind; [by apply cmp_zero_ok|]. intros []. apply branch_exits_ok; [done|done|].
  intros f fl' ->. apply cc_flags; [by apply xreg_u32|done|done].
Qed.
End Gen.

Lemma gen_fuse12_ok (g : riscv) (ir : rv_insn_t) (b : bool) :
  inv g -> regs_ok ir -> 0 < ir.(rd) ->
  let v := add32 (xreg g ir.(rs1)) ir.(imm) in
  b = negb (v =? 0) ->
  ends st_ok (at_guest stk g) (gen_fuse12 ir)
    (leaves stk (set_xreg ir.(rd) v g) (u32 (if b then ir.(Insn.pc) + 4 + ir.(imm2) else ir.(Insn.pc) + 8))).
Proof.
  intros Hg (Hd & Hs1 & _) Hnz v Hb. pose proof Hg as [Hwf Hx0]. set (g1 := set_xreg ir.(rd) v g).
  assert (Hg1 : inv g1) by (apply inv_set_xreg; [done|lia|apply add32_u32]). pose proof Hg1 as [Hwf1 Hx1].
  assert (Ev : xreg g1 ir.(rd) = v) by (apply xreg_set_eq; [apply Hwf|done]).
  assert (Hgen : gens st_ok (at_guest stk g) (r0 <- ra_load ir.(rs1);; r1 <- map_vm_reg_reserved ir.(rd) r0;;
      when (negb (r0 =? r1)) (emit_mov r0 r1);; emit_alu32_imm32 0x81 0 r1 ir.(imm);; emit_cmp_imm32 r1 0)
    (fun _ => st_ok) (fun _ => holds g1 stk nohole (fun _ fl => fl = Some (arith_flags false (v - 0) (i32 v - i32 0))))).
  { apply load1_dest_ok; [done..|]. intros r0 r1. eapply gens_bind; [apply move_operand_ok; [done|by apply xreg_u32]|].
    intros []. eapply gens_bind.
    - apply (write_keeps stk g Hwf ir.(rd) r1 v (Alu_imm32 false 0x81 0 r1 ir.(imm)) (fun f _ => f r1 = xreg g ir.(rs1))); [done|done|].
      intros h _ E. eapply (alu_imm_run h r1 (xreg g ir.(rs1))); [by apply xreg_u32|done|reflexivity|].
      cbn [alu_result]. unfold v, add32. by rewrite u32_add_r.
    - intros []. pose proof (cmp_zero_ok g1 Hg1 ir.(rd) r1 Hd) as Hz. rewrite Ev in Hz. exact Hz. }
  intros s Hs. destruct (ends_bind _ _ _ _ _ (fun _ => gen_branch_exits 0x85 ir (ir.(Insn.pc) + 8) (ir.(Insn.pc) + 4 + ir.(imm2)))
    (leaves stk g1 (u32 (if b then ir.(Insn.pc) + 4 + ir.(imm2) else ir.(Insn.pc) + 8))) Hgen) with (s := s) as (s' & seg & E & C & HO); [|done|].
  { intros []. apply branch_exits_ok; [done|done|]. intros f fl ->. rewrite Hb. apply (cc_flags 0x85 v 0); [apply add32_u32|done|done]. }
  exists s', seg. split; [|done]. rewrite <- E. unfold gen_fuse12, bind. repeat case_match; by simplify_eq.
Qed.

(** ** The interpreter *)

(** The handler of the last instruction of a block. *)
Definition last_op (i : outcome) : outcome := match i with Next rv c p => end_op rv c p | i => i end.

Lemma ends_post (S : jit_state -> Prop) (P : jit_state -> host -> Prop) (mo : jit unit) (O O' : hout -> Prop) :
  ends S P mo O -> (forall o, O o -> O' o) -> ends S P mo O'.
Proof. intros He HO s Hs. destruct (He s Hs) as (s' & seg & E & C & Hr). exists s', seg. split; [done|]. split; [done|]. intros h Hh. by apply HO, Hr. Qed.

(** Generated code that leaves for [q] in state [g'] agrees with a handler that
    does. *)
Lemma ends_left (g g' : riscv) (q : Z) (mo : jit unit) (i : outcome) :
  ends st_ok (at_guest stk g) mo (leaves stk g' q) ->
  (exists rv, ended i = Some (rv, q) /\ same_guest g' rv) -> ends st_ok (at_guest stk g) mo (fun o => agrees o i).
Proof. intros He (rv & Hi & Hs). eapply ends_post; [exact He|]. intros o Ho. by eapply agrees_left. Qed.

Lemma chain_ended (t : option irptr) (rv : riscv) (c p len : Z) :
  exists rv', ended (last_op (finish len (chain t rv c p))) = Some (rv', p) /\ same_guest rv rv'.
Proof. unfold chain. destruct t; by eexists. Qed.

Lemma chain_last (t : option irptr) (rv : riscv) (c p : Z) :
  exists rv', ended (last_op (chain t rv c p)) = Some (rv', p) /\ same_guest rv rv'.
Proof. unfold chain. destruct t; by eexists. Qed.

Lemma last_after (r : option riscv) (len : Z) : last_op (finish len (after r)) = after r.
Proof. by destruct r. Qed.

Section Plain.
Context (g : riscv) (ir : rv_insn_t) (c : Z) (Hg : inv g) (Hir : jit_ok ir) (Hpc : is_u32 ir.(Insn.pc)).

(** Generated code and the body of the handler. *)
Definition leaves_alike : Prop :=
  ends st_ok (at_guest stk g) (gen_code ir.(opcode) ir)
    (fun o => agrees o (last_op (finish (insn_len ir.(opcode)) (code_of ir.(opcode) g ir c ir.(Insn.pc))))).

Lemma jumps_alike :
  match ir.(opcode) with
  | rv_insn_jal | rv_insn_jalr | rv_insn_cj | rv_insn_cjal | rv_insn_cjr | rv_insn_cjalr => True | _ => False
  end -> leaves_alike.
Proof.
  pose proof (jo_regs _ Hir) as Hr. unfold leaves_alike. intros Ho. destruct (opcode ir) eqn:E; try done; cbn [gen_code code_of].
  - eapply ends_left; [by apply gen_jal_ok|]. edestruct chain_ended as (rv & E1 & E2). exists rv. split; [exact E1|].
    eapply same_trans; [|exact E2]. unfold linked_to, add32. by destruct (truthy _).
  - eapply ends_left; [by apply gen_jalr_ok|]. eexists. split; [reflexivity|]. unfold linked_to, add32. by destruct (truthy _).
  - eapply ends_left; [by apply gen_cjal_ok|]. edestruct chain_ended as (rv & E1 & E2). exists rv. split; [exact E1|].
    by eapply same_trans; [|exact E2].
  - eapply ends_left; [by apply gen_cj_ok|]. edestruct chain_ended as (rv & E1 & E2). by exists rv.
  - eapply ends_left; [by apply gen_cjr_ok|]. by eexists.
  - eapply ends_left; [by apply gen_cjalr_ok|]. by eexists.
Qed.

Lemma branch_alike (cc : Z) (untaken : Z -> Z -> bool) :
  insn_len ir.(opcode) = 4 -> cc_result cc (xreg g ir.(rs1)) (xreg g ir.(rs2)) = Some (negb (untaken (xreg g ir.(rs1)) (xreg g ir.(rs2)))) ->
  ends st_ok (at_guest stk g) (gen_branch cc ir) (fun o => agrees o (last_op (finish 4 (BRANCH_FUNC untaken g ir c ir.(Insn.pc))))).
Proof.
  intros Hl Hcc. eapply ends_left; [apply (gen_branch_ok g Hg ir cc _ (jo_regs _ Hir) Hcc)|]. unfold BRANCH_FUNC.
  destruct (untaken _ _); cbn [negb].
  - destruct (branch_untaken ir); (eexists; split; [reflexivity|done]).
  - destruct (imm ir <? 0); (eexists; split; [reflexivity|done]).
Qed.

Lemma cbranch_alike (cc : Z) (untaken : Z -> bool) :
  cc_result cc (xreg g ir.(rs1)) 0 = Some (negb (untaken (xreg g ir.(rs1)))) ->
  ends st_ok (at_guest stk g) (gen_cbranch cc ir) (fun o => agrees o (last_op (finish 2 (cbranch untaken g ir c ir.(Insn.pc))))).
Proof.
  intros Hcc. eapply ends_left; [apply (gen_cbranch_ok g Hg ir cc _ (jo_regs _ Hir) Hcc)|]. unfold cbranch.
  destruct (untaken _); cbn [negb].
  - destruct (branch_untaken ir); (eexists; split; [reflexivity|done]).
  - edestruct chain_ended as (rv & E1 & E2). exists rv. split; [exact E1|]. by eapply same_trans; [|exact E2].
Qed.

Lemma branches_alike :
  match ir.(opcode) with
  | rv_insn_beq | rv_insn_bne | rv_insn_blt | rv_insn_bge | rv_insn_bltu | rv_insn_bgeu | rv_insn_cbeqz | rv_insn_cbnez => True
  | _ => False
  end -> leaves_alike.
Proof.
  unfold leaves_alike. intros Ho. destruct (opcode ir) eqn:E; try done; cbn [gen_code code_of insn_len].
  - apply branch_alike; [by rewrite E|]. cbn [cc_result]. by rewrite negb_involutive.
  - apply branch_alike; [by rewrite E|]. done.
  - apply branch_alike; [by rewrite E|]. cbn [cc_result]. f_equal. lia.
  - apply branch_alike; [by rewrite E|]. done.
  - apply branch_alike; [by rewrite E|]. cbn [cc_result]. f_equal. lia.
  - apply branch_alike; [by rewrite E|]. done.
  - apply cbranch_alike. cbn [cc_result]. unfold truthy. by rewrite negb_involutive.
  - apply cbranch_alike. cbn [cc_result]. unfold truthy. by rewrite negb_involutive.
Qed.

(** Calls: the handler of the interpreter is the function the code calls. *)
Lemma services_alike :
  match ir.(opcode) with rv_insn_ecall | rv_insn_ebreak | rv_insn_cebreak => True | _ => False end -> leaves_alike.
Proof.
  destruct Hg as [Hwf Hx0]. unfold leaves_alike. intros Ho. destruct (opcode ir) eqn:E; try done; cbn [gen_code code_of].
  - eapply ends_post; [apply (call_ok stk g Hwf Hx0 ir.(Insn.pc) on_ecall)|]. intros o Hc. rewrite u32_id in Hc by done.
    change (code_ecall g ir c (Insn.pc ir)) with (after (ecall_handler (set_compressed false (set_PC ir.(Insn.pc) (set_csr_cycle c g))))).
    rewrite last_after. by eapply agrees_ecall.
  - eapply ends_post; [apply (call_ok stk g Hwf Hx0 ir.(Insn.pc) on_ebreak)|]. intros o Hc. rewrite u32_id in Hc by done.
    change (code_ebreak g ir c (Insn.pc ir)) with (after (ebreak_handler (set_compressed false (set_PC ir.(Insn.pc) (set_csr_cycle c g))))).
    rewrite last_after. by eapply agrees_ebreak.
  - eapply ends_post; [apply (call_ok stk g Hwf Hx0 ir.(Insn.pc) on_ebreak)|]. intros o Hc. rewrite u32_id in Hc by done.
    change (code_cebreak g ir c (Insn.pc ir)) with (after (ebreak_handler (set_compressed true (set_PC ir.(Insn.pc) (set_csr_cycle c g))))).
    rewrite last_after. by eapply agrees_ebreak.
Qed.
End Plain.

Lemma exec_plain_eq (g : riscv) (ir : rv_insn_t) (c p : Z) :
  ir.(impl) = ir.(opcode) -> is_fused ir.(opcode) = false ->
  exec_ir g ir c p = finish (insn_len ir.(opcode))
    (code_of ir.(opcode) (count_insn ir.(opcode) (rv_trace_record c p RV_TRACE_INSN 0 g)) ir (u64 (c + 1)) p).
Proof.
  intros Hi Hf. unfold exec_ir. rewrite Hi, do_insn_plain by done. unfold rvop. by destruct (code_of _ _ _ _ _).
Qed.

Lemma traced_same (g : riscv) (o : opcode_t) (c p : Z) :
  inv g -> let g1 := count_insn o (rv_trace_record c p RV_TRACE_INSN 0 g) in inv g1 /\ same_guest g g1.
Proof.
  intros [Hwf Hx0] g1.
  assert (E : g1 ≡ g) by (unfold g1; by rewrite count_equiv, trace_equiv). split; [split|].
  - unfold g1. auto with rv.
  - by rewrite (equiv_xreg _ _ _ E).
  - apply equiv_same. by symmetry.
Qed.

Lemma exec_last (ir : rv_insn_t) (g : riscv) (c p : Z) : exec_irs [ir] g c p = last_op (exec_ir g ir c p).
Proof. cbn [exec_irs]. by destruct (exec_ir g ir c p). Qed.

Lemma at_guest_same (g g' : riscv) (s : jit_state) (h : host) : same_guest g g' -> at_guest stk g s h -> at_guest stk g' s h.
Proof. intros Hs [Hsim _]. split; [|done]. by eapply sim_same. Qed.

Section FusedLast.
Context (g : riscv) (ir : rv_insn_t) (c : Z) (Hg : inv g) (Hir : jit_ok ir).

Lemma counted_ok (o : opcode_t) : inv (count_insn o g) /\ same_guest g (count_insn o g).
Proof. destruct Hg. split; [split; [auto with rv|done]|done]. Qed.

Lemma last_fuse6 :
  ends st_ok (at_guest stk g) (gen_fuse6 ir) (fun o => agrees o (last_op (do_fuse6 g ir c ir.(Insn.pc)))).
Proof.
  destruct (counted_ok ir.(opcode)) as [Hc Hs]. pose proof Hc as [Hwf Hx0].
  eapply ends_pre; [done|intros s h _; by apply at_guest_same, Hs|].
  eapply ends_bind; [by apply (gen_const_ok stk _ Hwf Hx0)|]. intros [].
  destruct (inv_set_xreg _ rv_reg_a7 (u32 ir.(imm)) Hc ltac:(done) (u32_range _)) as [Hwf1 Hx1].
  eapply ends_post; [apply (call_ok stk _ Hwf1 Hx1)|]. intros o Ho.
  match goal with |- agrees o (last_op ?i) => change i with (after (ecall_handler (set_compressed false (set_PC (add32 ir.(Insn.pc) 4)
    (set_csr_cycle (u64 (c + 2)) (set_xreg rv_reg_a7 (u32 ir.(imm)) (count_insn ir.(opcode) g))))))) end.
  match goal with |- agrees o (last_op ?i) => replace (last_op i) with i by (by destruct (ecall_handler _)) end.
  by eapply agrees_ecall.
Qed.

Lemma last_fuse12 :
  0 < ir.(rd) -> ends st_ok (at_guest stk g) (gen_fuse12 ir) (fun o => agrees o (last_op (do_fuse12 g ir c ir.(Insn.pc)))).
Proof.
  intros Hnz. destruct (counted_ok ir.(opcode)) as [Hc Hs]. pose proof (jo_regs _ Hir) as Hr.
  eapply ends_pre; [done|intros s h _; by apply at_guest_same, Hs|].
  eapply ends_left; [exact (gen_fuse12_ok _ ir _ Hc Hr Hnz eq_refl)|]. unfold do_fuse12. cbv zeta.
  rewrite xreg_set_eq; [|apply Hc|apply Hr]. unfold truthy. destruct (_ =? 0); cbn [negb].
  - edestruct (chain_last ir.(branch_untaken)) as (rv & E1 & E2). exists rv. split; [exact E1|]. by eapply same_trans; [|exact E2].
  - rewrite <- Z.add_assoc. edestruct (chain_last ir.(branch_taken)) as (rv & E1 & E2). exists rv. split; [exact E1|].
    by eapply same_trans; [|exact E2].
Qed.
End FusedLast.

(** The last instruction of a block. *)
Lemma last_agrees (g : riscv) (ir : rv_insn_t) (c : Z) :
  inv g -> jit_ok ir -> is_u32 ir.(Insn.pc) -> leaving_op ir.(opcode) = true ->
  ends st_ok (at_guest stk g) (gen_insn ir) (fun o => agrees o (exec_irs [ir] g c ir.(Insn.pc))).
Proof.
  intros Hg Hir Hp Ho. rewrite exec_last. destruct (is_fused ir.(opcode)) eqn:Hf.
  - pose proof (jo_fused _ Hir) as Hok. unfold fused_ok in Hok. unfold exec_ir, gen_insn. rewrite (jo_impl _ Hir).
    destruct (opcode ir) eqn:E; try discriminate Ho; try discriminate Hf; cbn [do_insn gen_code]; rewrite <- E in *.
    + by apply last_fuse6.
    + apply last_fuse12; [done|done|lia].
  - rewrite exec_plain_eq by (done || apply Hir). rewrite gen_insn_plain by done.
    eapply ends_bind; [apply inc_timer_ok|]. intros []. destruct (traced_same g ir.(opcode) c ir.(Insn.pc) Hg) as [Hg1 Hs].
    eapply ends_pre; [done|intros s h _; by apply at_guest_same, Hs|].
    destruct (opcode ir) eqn:E; try discriminate Ho; try discriminate Hf;
      rewrite <- E in *; first [ apply jumps_alike; [done..|]; rewrite E; exact I
        | apply branches_alike; [done..|]; rewrite E; exact I | apply services_alike; [done..|]; rewrite E; exact I ].
Qed.
End Last.

(** * Blocks *)

Section Block.
Context `{HostEnvOk} `{JitHistory} `{HostClock} `{Syscall} `{SoftFloat}.
Context `{!EnvBlind} `{!SyscallWf} (stk : list slot).

(** Straight-line instructions and one that leaves the block. *)
Fixpoint jit_shape (irs : list rv_insn_t) : bool :=
  match irs with
  | [] => false
  | [ir] => leaving_op ir.(opcode)
  | ir :: irs => straight_op ir.(opcode) && jit_shape irs
  end.

(** The run of the block by the interpreter: every instruction is entered at its
    address, in a state in which its code is right. *)
Fixpoint jit_run_ok (irs : list rv_insn_t) (g : riscv) (c p : Z) : bool :=
  match irs with
  | [] => true
  | ir :: irs =>
      (ir.(Insn.pc) =? p) && jit_safe g ir &&
      match exec_ir g ir c p with Next g c p => jit_run_ok irs g c p | _ => true end
  end.

(** ** Ending lives *)

Lemma sim_kill (m : list host_reg) (q : host_reg -> bool) (g : riscv) (h : host) :
  sim nohole stk m g h -> sim nohole stk ((fun r => if q r then set_alive false r else r) <$> m) g h.
Proof.
  set (k := fun r => if q r then set_alive false r else r).
  assert (Hk : forall e, reg_idx (k e) = reg_idx e /\ vm_reg_idx (k e) = vm_reg_idx e /\ dirty (k e) = dirty e)
    by (intros e; unfold k; by destruct (q e)).
  intros [Hrdi Hstk Hc Hl Hz Hmap Hcl Hun]. constructor; [done..| | |].
  - intros i e He. apply list_lookup_fmap_Some in He as (e0 & -> & He0). destruct (Hk e0) as (-> & -> & _). by apply (Hmap i).
  - intros i e He. apply list_lookup_fmap_Some in He as (e0 & -> & He0). destruct (Hk e0) as (_ & -> & ->). by apply (Hcl i).
  - intros v Hv Hu. apply Hun; [done|]. intros i e He. destruct (Hk e) as (_ & <- & _). apply (Hu i). by rewrite list_lookup_fmap, He.
Qed.

Lemma refresh_ok (g : riscv) (idx : Z) : steps stk g (regs_refresh idx) g.
Proof.
  intros s [Hm Hq]. eexists tt, _, []. split; [reflexivity|]. split; [by rewrite app_nil_r|].
  split; [constructor; [by apply map_ok_kill|done]|]. intros h [Hsim _]. exists h. split; [done|]. split; [|done]. by apply sim_kill.
Qed.

(** ** The liveness table *)

Lemma insert_by_elem (le : Z -> Z -> bool) (a v : Z) (l : list Z) : v ∈ insert_by le a l <-> v = a \/ v ∈ l.
Proof.
  induction l as [|b l IH]; cbn [insert_by]; [by rewrite list_elem_of_singleton, elem_of_nil; tauto|].
  destruct (le a b); rewrite !elem_of_cons, ?IH; tauto.
Qed.

Lemma sort_by_elem (le : Z -> Z -> bool) (v : Z) (l : list Z) : v ∈ sort_by le l <-> v ∈ l.
Proof.
  induction l as [|a l IH]; cbn [sort_by foldr]; [done|]. change (foldr (insert_by le) [] l) with (sort_by le l).
  by rewrite insert_by_elem, elem_of_cons, IH.
Qed.

Lemma reads_some (ir : rv_insn_t) :
  jit_ok ir -> straight_op ir.(opcode) || leaving_op ir.(opcode) = true -> is_Some (reads ir).
Proof.
  intros Hir Ho. pose proof (jo_fused _ Hir) as Hf. unfold fused_ok, all_fused in Hf. unfold reads.
  destruct (opcode ir); try discriminate Ho; first [by eexists | destruct (fused ir) as [l|]; [by eexists|discriminate Hf]].
Qed.

Lemma shape_ops (irs : list rv_insn_t) :
  jit_shape irs = true -> Forall (fun ir => straight_op ir.(opcode) || leaving_op ir.(opcode) = true) irs.
Proof.
  induction irs as [|ir irs IH]; [done|]. intros Hs. destruct irs as [|ir2 irs].
  - constructor; [|constructor]. cbn in Hs. rewrite Hs. apply orb_true_r.
  - cbn [jit_shape] in Hs. apply andb_prop in Hs as [Ho Hs]. constructor; [by rewrite Ho|by apply IH].
Qed.

Lemma liveness_total (irs : list rv_insn_t) (idx : Z) (live : list Z) :
  Forall jit_ok irs -> Forall (fun ir => straight_op ir.(opcode) || leaving_op ir.(opcode) = true) irs ->
  is_Some (liveness_loop idx irs live).
Proof.
  intros Hok. revert idx live. induction Hok as [|ir irs Hir Hok IH]; intros idx live Ho; cbn [liveness_loop]; [by eexists|].
  apply Forall_cons in Ho as [Ho Hos]. destruct (reads_some ir Hir Ho) as [l ->]. by apply IH.
Qed.

(** The state after [reset_reg] and [liveness_calc]. *)
Lemma start_ok (irs : list rv_insn_t) (g : riscv) :
  inv g -> Forall jit_ok irs -> jit_shape irs = true ->
  gens (fun s => reg_idx <$> s.(register_map) = map_regs) (fun _ => ready stk g) (reset_reg;; liveness_calc irs)
    (fun _ => st_ok) (fun _ => at_guest stk g).
Proof.
  intros [Hwf Hx0] Hok Hs%shape_ops s Hm. destruct (liveness_total irs 0 (replicate 32 (-1)) Hok Hs) as [live El].
  unfold bind, reset_reg, modify, liveness_calc. rewrite El. eexists tt, _, []. split; [reflexivity|]. split; [by rewrite app_nil_r|].
  split.
  - constructor; [by apply map_ok_reset|]. intros v Hv. cbn [candidate_queue set_candidate_queue]. apply sort_by_elem, elem_of_seqZ.
    unfold N_RV_REGS. lia.
  - intros h (Hrdi & Hstk & Hc & HX). exists h. split; [done|]. split; [|done].
    assert (Hx : forall v, xreg h.(hrv) v = xreg g v) by (intros v; unfold xreg; by rewrite HX).
    constructor; [done|done|done|rewrite HX; apply Hwf|by rewrite Hx| | |by intros v _ _].
    + intros i e He Hn. cbn in He. apply list_lookup_fmap_Some in He as (e0 & -> & _). done.
    + intros i e He Hn. cbn in He. apply list_lookup_fmap_Some in He as (e0 & -> & _). done.
Qed.

(** ** Translation *)

Lemma ends_ret (S : jit_state -> Prop) (P : jit_state -> host -> Prop) (m : jit unit) (O : hout -> Prop) :
  ends S P m O -> ends S P (m;; ret tt) O.
Proof.
  intros He s Hs. destruct (He s Hs) as (s' & seg & E & C & HO). exists s', seg. split; [|done]. unfold bind. by rewrite E.
Qed.

Lemma translate_irs_ok (irs : list rv_insn_t) (idx : Z) (g : riscv) (c p : Z) :
  Forall jit_ok irs -> jit_shape irs = true -> inv g -> is_u32 p -> jit_run_ok irs g c p = true ->
  ends st_ok (at_guest stk g) (translate_irs idx irs) (fun o => agrees stk o (exec_irs irs g c p)).
Proof.
  intros Hok. revert idx g c p. induction Hok as [|ir irs Hir Hok IH]; intros idx g c p Hs Hg Hp Hr; [done|].
  cbn [jit_run_ok] in Hr. apply andb_prop in Hr as [[Epc%Z.eqb_eq Hsafe]%andb_prop Hr]. subst p. cbn [translate_irs].
  eapply ends_bind; [apply refresh_ok|]. intros []. destruct irs as [|ir2 irs].
  - cbn [translate_irs]. apply ends_ret. by apply last_agrees.
  - cbn [jit_shape] in Hs. apply andb_prop in Hs as [Ho Hs].
    destruct (straight_through stk g ir c Hg Hir Hsafe Hp Ho) as (g' & c' & p' & E & St & Hg' & Hp').
    eapply ends_bind; [exact St|]. intros []. cbn [exec_irs]. rewrite E in Hr |- *. by apply IH.
Qed.

(** C5. A block of supported instructions is translated, and its code does what
    the interpreter does: started with the guest registers and memory in the
    emulator state, it leaves for the address the interpreter continues at (for
    the run loop, or directly into the code of a translated block) with the
    registers, memory and remaining state of the interpreter stored back, or
    calls the ecall or ebreak handler in the state in which the interpreter
    does. *)
Theorem translate_refines (irs : list rv_insn_t) (s : jit_state) (g : riscv) (h : host) (c p : Z) :
  Forall jit_ok irs -> jit_shape irs = true -> reg_idx <$> s.(register_map) = map_regs ->
  inv g -> is_u32 p -> jit_run_ok irs g c p = true -> ready stk g h ->
  exists s' seg, translate irs s = Some (tt, s') /\ s'.(code) = s.(code) ++ seg /\
    agrees stk (hrun 0 seg h) (exec_irs irs g c p).
Proof.
  intros Hok Hs Hm Hg Hp Hr Hh.
  assert (He : ends (fun s => reg_idx <$> s.(register_map) = map_regs) (fun _ => ready stk g)
    ((reset_reg;; liveness_calc irs);; translate_irs 0 irs) (fun o => agrees stk o (exec_irs irs g c p))).
  { eapply ends_bind; [by apply start_ok|]. intros []. by apply translate_irs_ok. }
  destruct (He s Hm) as (s' & seg & E & C & HO). exists s', seg. split; [|split; [done|by apply HO]].
  rewrite <- E. unfold translate, bind. by destruct (reset_reg s) as [[[] s1]|].
Qed.
End Block.

(** * Examples *)

Definition sample_env : HostEnv :=
  {| rv_addr := 0x7f0000000000; ram_addr := 0x7e0000000000; on_ecall := 0x401000; on_ebreak := 0x402000; linked _ := false |}.

Lemma sample_env_ok : @HostEnvOk sample_env.
Proof. by constructor; cbn; lia. Qed.

Definition cold : JitHistory := {| history _ := (replicate 16 0, replicate 16 0) |}.

(** The instructions of the block at address 0. *)
Definition block_of (words : list Z) : list rv_insn_t :=
  match block_translate 100 (hart_running words) with Some (_, Some b) => b.(ir_list) | _ => [] end.

(** [addi a0, a0, 5; mul a1, a0, a0; sw a1, 64(x0); lw a2, 64(x0); bltu a0, a2, -16] *)
Definition sample_words : list Z := [0x00550513; 0x02a505b3; 0x04b02023; 0x04002603; 0xfec568e3].
Definition sample_block : list rv_insn_t := Eval vm_compute in block_of sample_words.

Definition sample_host (g : riscv) : host := mk_host (upd RDI 0x7f0000000000 (fun _ => 77)) None [] g.

(** The code leaves for address 0 with 25 in a2. *)
Lemma translate_refines_witness :
  exists s', @translate sample_env cold sample_block jit_init = Some (tt, s') /\
    @agrees sample_env no_syscall [] (@hrun sample_env 0 s'.(code) (sample_host (hart_running sample_words)))
      (@exec_irs stopped_clock no_syscall nan_unit sample_block (hart_running sample_words) 0 0) /\
    (fun '(rv, q) => (xreg rv 12, q)) <$> ended (@exec_irs stopped_clock no_syscall nan_unit sample_block (hart_running sample_words) 0 0)
      = Some (25, 0).
Proof.
  destruct (@translate_refines sample_env sample_env_ok cold stopped_clock no_syscall nan_unit no_syscall_blind no_syscall_wf []
    sample_block jit_init (hart_running sample_words) (sample_host (hart_running sample_words)) 0 0) as (s' & seg & E & C & Ha).
  - repeat constructor; cbn; lia.
  - by vm_compute.
  - by vm_compute.
  - split; [apply hart_running_wf|by vm_compute].
  - done.
  - by vm_compute.
  - done.
  - exists s'. split; [exact E|]. split; [|by vm_compute]. rewrite C. exact Ha.
Defined.

(** What the code of a block leaves in a register, and what the interpreter
    does. *)
Definition jit_outcome (irs : list rv_insn_t) (words : list Z) (regs : list (Z * Z)) (r : Z) : option (Z * Z) :=
  let g := fold_left (fun g '(i, v) => set_xreg i v g) regs (hart_running words) in
  let? (_, s) := @translate sample_env cold irs jit_init in
  let? (rv, _) := ended (@exec_irs stopped_clock no_syscall nan_unit irs g 0 0) in
  match @hrun sample_env 0 s.(code) (sample_host g) with
  | Exited h => Some (xreg h.(hrv) r, xreg rv r)
  | _ => None
  end.

Definition jit_result (words : list Z) : list (Z * Z) -> Z -> option (Z * Z) := jit_outcome (block_of words) words.

Definition jit_fused_result (words : list Z) : list (Z * Z) -> Z -> option (Z * Z) :=
  jit_outcome (default [] (match_pattern (block_of words))) words.

(** [div a3, a4, a5] of -4 by 2: the code divides unsigned. *)
Example div_differs : jit_result [0x02f746b3; 0x0000006f] [(14, 0xfffffffc); (15, 2)] 13 = Some (0x7ffffffe, 0xfffffffe).
Proof. by vm_compute. Qed.

(** [rem a3, a4, a5] of -7 by 3. *)
Example rem_differs : jit_result [0x02f766b3; 0x0000006f] [(14, 0xfffffff9); (15, 3)] 13 = Some (0, 0xffffffff).
Proof. by vm_compute. Qed.

(** [divu a3, a4, a5; mulhu a2, a3, a3] by zero: the quotient occupies 64 bits of
    the host register. *)
Example divu_zero_differs :
  jit_result [0x02f756b3; 0x02d6b633; 0x0000006f] [(14, 1); (15, 0)] 12 = Some (0, 0xfffffffe).
Proof. by vm_compute. Qed.

(** [mulh a2, a3, a4; mulhu a5, a3, a4] of -1 and 2: the registers are left sign
    extended. *)
Example mulhu_after_mulh_differs :
  jit_result [0x02e69633; 0x02e6b7b3; 0x0000006f] [(13, 0xffffffff); (14, 2)] 15 = Some (0xffffffff, 1).
Proof. by vm_compute. Qed.

(** [lui a0, 1; lw a1, -1024(a0)], fused: the code does not write a0. *)
Example fuse9_differs : jit_fused_result [0x00001537; 0xc0052583; 0x0000006f] [] 10 = Some (0, 0x1000).
Proof. by vm_compute. Qed.

(** [addi x10, x10, 1 .. addi x18, x18, 1; lw x20, 64(x19); addi x19, x19, 4; nop;
    addi x10, x10, 1 .. addi x18, x18, 1; j .], fused: the load evicts x19, whose
    new register the addition uses without loading it. *)
Definition evict_words : list Z :=
  let bumps := (fun r => 0x00100013 .| (r ≪ 15) .| (r ≪ 7)) <$> seqZ 10 9 in
  bumps ++ [0x0409aa03; 0x00498993; 0x00000013] ++ bumps ++ [0x0000006f].

Example fuse11_differs : jit_fused_result evict_words [] 19 = Some (1509143, 4).
Proof. by vm_compute. Qed.
