(* ===== verification/Map.v ===== *)
(** The ordered map of map.c and map.h: a left-leaning red-black tree.

    A node with its subtrees is a value of [map_node_t]: the color bit in the low bit
    of [right_red] is the node's color, and an access through a null pointer is
    [None].  The array [path[]] that the C code fills on its way down is a list
    of frames, innermost first; writing a child pointer of the node of a frame
    and returning is [plug].  An iterator is the key of the node it points to,
    since a map holds one node per key.  Allocation does not fail. *)

From stdpp Require Import base list option numbers gmap.
From Stdlib Require Import ZArith Lia Bool.
From S2P Require Import Prelude Bits.
#[local] Open Scope Z_scope.

(** * Data *)

Inductive map_color_t : Type := RB_BLACK | RB_RED.

Inductive map_cmp_t : Type := MAP_CMP_LESS | MAP_CMP_EQUAL | MAP_CMP_GREATER.

#[export] Instance map_color_eq_dec : EqDecision map_color_t.
Proof. solve_decision. Defined.

(** [map_cmp_int] and [map_cmp_uint] on the values their pointers refer to:
    [(a > b) - (a < b)]. *)
Definition map_cmp_int (a b : Z) : map_cmp_t :=
  match b2z (a >? b) - b2z (a <? b) with
  | Z0 => MAP_CMP_EQUAL
  | Zpos _ => MAP_CMP_GREATER
  | Zneg _ => MAP_CMP_LESS
  end.

Definition map_cmp_uint : Z -> Z -> map_cmp_t := map_cmp_int.

(** The largest depth [path[]] holds: [sizeof(void * ) << 4]. *)
Definition RB_MAX_DEPTH : nat := 128.

Section Map.
Context {K V : Type} (comparator : K -> K -> map_cmp_t).

(** [map_node_t] with the nodes it points to. *)
Inductive map_node_t : Type :=
| NULL
| node (color : map_color_t) (left : map_node_t) (key : K) (data : V) (right : map_node_t).

(** An entry of [path[]]: the node without the child on the path, and the
    direction taken. *)
Record rb_path_entry_t : Type := mk_entry {
  e_color : map_color_t;
  e_key : K;
  e_data : V;
  e_other : map_node_t; (* the child that is not on the path *)
  e_less : bool; (* cmp == MAP_CMP_LESS: the path goes left *)
}.

Definition RB_IS_RED (t : map_node_t) : bool :=
  match t with node RB_RED _ _ _ _ => true | _ => false end.

Definition rb_node_set_black (t : map_node_t) : map_node_t :=
  match t with node _ l k v r => node RB_BLACK l k v r | NULL => NULL end.
Definition rb_node_set_red (t : map_node_t) : map_node_t :=
  match t with node _ l k v r => node RB_RED l k v r | NULL => NULL end.

(** The node of a frame with the child on the path set. *)
Definition set_child (e : rb_path_entry_t) (t : map_node_t) : map_node_t :=
  if e.(e_less) then node e.(e_color) t e.(e_key) e.(e_data) e.(e_other)
  else node e.(e_color) e.(e_other) e.(e_key) e.(e_data) t.

(** The whole tree below the frames. *)
Fixpoint plug (path : list rb_path_entry_t) (t : map_node_t) : map_node_t :=
  match path with
  | [] => t
  | e :: path => plug path (set_child e t)
  end.

(** [rb_node_rotate_left] and [rb_node_rotate_right]: the new root [r_node]. *)
Definition rb_node_rotate_left (x : map_node_t) : option map_node_t :=
  match x with
  | node c l k v (node rc rl rk rv rr) => Some (node rc (node c l k v rl) rk rv rr)
  | _ => None
  end.

Definition rb_node_rotate_right (x : map_node_t) : option map_node_t :=
  match x with
  | node c (node lc ll lk lv lr) k v r => Some (node lc ll lk lv (node c lr k v r))
  | _ => None
  end.

Definition rb_node_get_right (t : map_node_t) : map_node_t :=
  match t with node _ _ _ _ r => r | NULL => NULL end.
Definition rb_node_set_left (t l : map_node_t) : map_node_t :=
  match t with node c _ k v r => node c l k v r | NULL => NULL end.
Definition rb_node_set_right (t r : map_node_t) : map_node_t :=
  match t with node c l k v _ => node c l k v r | NULL => NULL end.

(** [rb_node_init] and the payload: a red node without children. *)
Definition map_create_node (key : K) (value : V) : map_node_t := node RB_RED NULL key value NULL.

(** * Insertion *)

Inductive rb_found : Type :=
| Exists (* the key is in the tree *)
| TooDeep (* [-1]: [path[]] is full *)
| Missing (path : list rb_path_entry_t). (* where the node goes *)

(** [rb_insert_unique]: [room] is [RB_MAX_DEPTH - 1 - depth]. *)
Fixpoint rb_insert_unique (room : nat) (key : K) (t : map_node_t) (path : list rb_path_entry_t)
  : rb_found :=
  match room with
  | O => TooDeep
  | S room =>
      match t with
      | NULL => Missing path
      | node c l k v r =>
          match comparator key k with
          | MAP_CMP_LESS => rb_insert_unique room key l (mk_entry c k v r true :: path)
          | MAP_CMP_GREATER => rb_insert_unique room key r (mk_entry c k v l false :: path)
          | MAP_CMP_EQUAL => Exists
          end
      end
  end.

(** The loop of [map_insert] that restores the tree from the new node up. *)
Fixpoint insert_fixup (path : list rb_path_entry_t) (child : map_node_t) : option map_node_t :=
  match path with
  | [] => Some child
  | e :: up =>
      let cnode := set_child e child in
      if negb (RB_IS_RED child) then Some (plug up cnode) (* break *)
      else if e.(e_less) then
        let left := child in
        let leftleft := match left with node _ ll _ _ _ => ll | NULL => NULL end in
        if RB_IS_RED leftleft then
          (* fix up 4-node *)
          let left := rb_node_set_left left (rb_node_set_black leftleft) in
          let? tnode := rb_node_rotate_right (rb_node_set_left cnode left) in
          insert_fixup up tnode
        else insert_fixup up cnode
      else
        let right := child in
        let left := e.(e_other) in
        if RB_IS_RED left then
          (* split 4-node *)
          let cnode := rb_node_set_left cnode (rb_node_set_black left) in
          let cnode := rb_node_set_right cnode (rb_node_set_black right) in
          insert_fixup up (rb_node_set_red cnode)
        else
          (* lean left *)
          let tcolor := e.(e_color) in
          let? tnode := rb_node_rotate_left (rb_node_set_red cnode) in
          let tnode := match tcolor with RB_RED => rb_node_set_red tnode
                                    | RB_BLACK => rb_node_set_black tnode end in
          insert_fixup up tnode
  end.

(** * Removal *)

(** The way down to the node with the key. *)
Fixpoint rb_descend (key : K) (t : map_node_t) (path : list rb_path_entry_t)
  : option (list rb_path_entry_t * (map_color_t * map_node_t * K * V * map_node_t)) :=
  match t with
  | NULL => None
  | node c l k v r =>
      match comparator key k with
      | MAP_CMP_LESS => rb_descend key l (mk_entry c k v r true :: path)
      | MAP_CMP_GREATER => rb_descend key r (mk_entry c k v l false :: path)
      | MAP_CMP_EQUAL => Some (path, (c, l, k, v, r))
      end
  end.

(** The leftmost node of a subtree: color, key and data, and the frames down to
    it. *)
Fixpoint rb_successor (c : map_color_t) (l : map_node_t) (k : K) (v : V) (r : map_node_t)
    (path : list rb_path_entry_t) : list rb_path_entry_t * map_color_t * K * V :=
  match l with
  | NULL => (path, c, k, v)
  | node lc ll lk lv lr => rb_successor lc ll lk lv lr (mk_entry c k v r true :: path)
  end.

(** A rotation at the top of the subtree; [assert(pathp > path)]. *)
Definition not_root (up : list rb_path_entry_t) (t : map_node_t) : option map_node_t :=
  match up with [] => None | _ => Some (plug up t) end.

(** Unwinding after a black node was pruned: [child] has one black node too few
    on every path. *)
Fixpoint rb_unwind (path : list rb_path_entry_t) (child : map_node_t) : option map_node_t :=
  match path with
  | [] => if RB_IS_RED child then None else Some child (* set root; assert black *)
  | e :: up =>
      let pathp := set_child e child in
      if e.(e_less) then
        let right := e.(e_other) in
        match right with
        | NULL => None
        | node _ rightleft _ _ _ =>
            if RB_IS_RED pathp then
              let? tnode :=
                if RB_IS_RED rightleft then
                  let pathp := rb_node_set_black pathp in
                  let? tnode := rb_node_rotate_right right in
                  rb_node_rotate_left (rb_node_set_right pathp tnode)
                else rb_node_rotate_left pathp in
              not_root up tnode
            else if RB_IS_RED rightleft then
              let right := rb_node_set_left right (rb_node_set_black rightleft) in
              let? tnode := rb_node_rotate_right right in
              let? tnode := rb_node_rotate_left (rb_node_set_right pathp tnode) in
              Some (plug up tnode)
            else
              let? tnode := rb_node_rotate_left (rb_node_set_red pathp) in
              rb_unwind up tnode
        end
      else
        let left := e.(e_other) in
        match left with
        | NULL => None
        | node _ leftleft _ _ leftright =>
            if RB_IS_RED left then
              match leftright with
              | NULL => None
              | node _ leftrightleft _ _ _ =>
                  if RB_IS_RED leftrightleft then
                    let leftright := rb_node_set_left leftright (rb_node_set_black leftrightleft) in
                    let pathp := rb_node_set_left pathp (rb_node_set_right left leftright) in
                    let? unode := rb_node_rotate_right pathp in
                    let? tnode := rb_node_rotate_right (rb_node_get_right unode) in
                    let? tnode := rb_node_rotate_left (rb_node_set_right unode tnode) in
                    Some (plug up tnode)
                  else
                    let left := rb_node_set_right left (rb_node_set_red leftright) in
                    let? tnode := rb_node_rotate_right (rb_node_set_left pathp left) in
                    Some (plug up (rb_node_set_black tnode))
              end
            else if RB_IS_RED pathp then
              if RB_IS_RED leftleft then
                let left := rb_node_set_red (rb_node_set_left left (rb_node_set_black leftleft)) in
                let pathp := rb_node_set_black (rb_node_set_left pathp left) in
                let? tnode := rb_node_rotate_right pathp in
                not_root up tnode
              else
                let pathp := rb_node_set_left pathp (rb_node_set_red left) in
                Some (plug up (rb_node_set_black pathp))
            else if RB_IS_RED leftleft then
              let left := rb_node_set_left left (rb_node_set_black leftleft) in
              let? tnode := rb_node_rotate_right (rb_node_set_left pathp left) in
              Some (plug up tnode)
            else rb_unwind up (rb_node_set_left pathp (rb_node_set_red left))
        end
  end.

(** Pruning the leaf below [path], of color [c]. *)
Definition rb_prune (c : map_color_t) (path : list rb_path_entry_t) : option map_node_t :=
  match c, path with
  | RB_RED, e :: _ => if e.(e_less) then Some (plug path NULL) else None
  | RB_RED, [] => None
  | RB_BLACK, _ => rb_unwind path NULL
  end.

(** The new root; [None] is a failed assertion or a null pointer. *)
Definition rb_remove (root : map_node_t) (key : K) : option map_node_t :=
  let? (path, (c, l, k, v, r)) := rb_descend key root [] in
  match r with
  | node rc rl rk rv rr =>
      (* swap node with its successor, which takes over its place and color *)
      let '(below, sc, sk, sv) := rb_successor rc rl rk rv rr [] in
      rb_prune sc (below ++ mk_entry c sk sv l false :: path)
  | NULL =>
      match l with
      | node _ _ _ _ _ =>
          (* splice node out, without losing the left child *)
          if (match c with RB_BLACK => true | RB_RED => false end) && RB_IS_RED l
          then Some (plug path (rb_node_set_black l)) else None
      | NULL =>
          match path with
          | [] => Some NULL (* the tree only contained one node *)
          | _ => rb_prune c path
          end
      end
  end.
End Map.

Arguments map_node_t : clear implicits.
Arguments rb_path_entry_t : clear implicits.
Arguments rb_found : clear implicits.
Arguments NULL {K V}.

(** * The map *)

Section Api.
Context {K V : Type}.

(** [struct map_internal]. *)
Record map_t : Type := mk_map {
  root : map_node_t K V;
  key_size : Z;
  data_size : Z;
  size : Z; (* size_t *)
  comparator : K -> K -> map_cmp_t;
}.

Definition SIZE_MAX : Z := 2 ^ 64 - 1.

(** [sizeof(map_node_t)]: four pointers. *)
Definition sizeof_map_node_t : Z := 32.

Definition map_new (ksize dsize : Z) (cmp : K -> K -> map_cmp_t) : option map_t :=
  let max_size := SIZE_MAX / 4 in
  if (ksize =? 0) || (dsize =? 0) then None
  else if (max_size <? ksize) || (max_size <? dsize)
          || (max_size - sizeof_map_node_t <? u64 (ksize + dsize)) then None
  else Some (mk_map NULL ksize dsize 0 cmp).

(** The allocation of [map_create_node]: where key and data go in the block and
    its size; [None] when the sum wraps around. *)
Definition node_layout (ksize vsize : Z) : option (Z * Z * Z) :=
  let align_mask := 8 - 1 in
  let mask := 2 ^ 64 - 1 - align_mask in (* ~align_mask *)
  let key_offset := u64 (sizeof_map_node_t + align_mask) .& mask in
  let data_offset := u64 (key_offset + ksize + align_mask) .& mask in
  let total_size := u64 (data_offset + vsize) in
  if (total_size <? vsize) || (total_size <? ksize) then None
  else Some (key_offset, data_offset, total_size).

(** The outer option is a null pointer followed by the C code, the boolean its
    return value. *)
Definition map_insert (obj : map_t) (key : K) (val : V) : option (bool * map_t) :=
  match rb_insert_unique obj.(comparator) (RB_MAX_DEPTH - 1) key obj.(root) [] with
  | TooDeep => Some (false, obj)
  | Exists => Some (false, obj)
  | Missing path =>
      match node_layout obj.(key_size) obj.(data_size) with
      | None => Some (false, obj)
      | Some _ =>
          let? t := insert_fixup path (map_create_node key val) in
          Some (true, mk_map (rb_node_set_black t) obj.(key_size) obj.(data_size)
                        (u64 (obj.(size) + 1)) obj.(comparator))
      end
  end.

(** Iterators: the key of the node. *)
Definition map_iter_t : Type := option K.

(** The node an iterator points to. *)
Fixpoint node_find (cmp : K -> K -> map_cmp_t) (key : K) (t : map_node_t K V) : map_node_t K V :=
  match t with
  | NULL => NULL
  | node _ l k _ r =>
      match cmp key k with
      | MAP_CMP_EQUAL => t
      | MAP_CMP_LESS => node_find cmp key l
      | MAP_CMP_GREATER => node_find cmp key r
      end
  end.

Definition iter_at (t : map_node_t K V) : map_iter_t :=
  match t with node _ _ k _ _ => Some k | NULL => None end.

Definition map_find (obj : map_t) (key : K) : map_iter_t :=
  iter_at (node_find obj.(comparator) key obj.(root)).

Definition map_at_end (it : map_iter_t) : bool := match it with Some _ => false | None => true end.

(** [map_iter_value]. *)
Definition map_iter_value (obj : map_t) (it : map_iter_t) : option V :=
  let? k := it in
  match node_find obj.(comparator) k obj.(root) with
  | node _ _ _ v _ => Some v
  | NULL => None
  end.

Definition map_empty (obj : map_t) : bool := match obj.(root) with NULL => true | _ => false end.

Definition map_erase (obj : map_t) (it : map_iter_t) : option map_t :=
  match it with
  | None => Some obj
  | Some k =>
      if obj.(size) =? 0 then Some obj
      else
        let? t := rb_remove obj.(comparator) obj.(root) k in
        Some (mk_map t obj.(key_size) obj.(data_size)
                (if 0 <? obj.(size) then obj.(size) - 1 else obj.(size)) obj.(comparator))
  end.

Definition map_clear (obj : map_t) : map_t :=
  mk_map NULL obj.(key_size) obj.(data_size) 0 obj.(comparator).

Definition map_size (obj : map_t) : Z := obj.(size).

(** * Iteration *)

(** The loops [while (node->left) node = node->left] and to the right. *)
Fixpoint leftmost (t : map_node_t K V) : map_node_t K V :=
  match t with node _ (node _ _ _ _ _ as l) _ _ _ => leftmost l | _ => t end.
Fixpoint rightmost (t : map_node_t K V) : map_node_t K V :=
  match t with node _ _ _ _ (node _ _ _ _ _ as r) => rightmost r | _ => t end.

Definition map_first (obj : map_t) : map_iter_t := iter_at (leftmost obj.(root)).
Definition map_last (obj : map_t) : map_iter_t := iter_at (rightmost obj.(root)).

(** The searches from the root for the last node the path turned left or right
    at. *)
Fixpoint succ_search (cmp : K -> K -> map_cmp_t) (key : K) (curr : map_node_t K V) (succ : map_iter_t)
  : map_iter_t :=
  match curr with
  | NULL => succ
  | node _ l k _ r =>
      match cmp key k with
      | MAP_CMP_LESS => succ_search cmp key l (Some k)
      | MAP_CMP_GREATER => succ_search cmp key r succ
      | MAP_CMP_EQUAL => succ
      end
  end.

Fixpoint pred_search (cmp : K -> K -> map_cmp_t) (key : K) (curr : map_node_t K V) (pred : map_iter_t)
  : map_iter_t :=
  match curr with
  | NULL => pred
  | node _ l k _ r =>
      match cmp key k with
      | MAP_CMP_GREATER => pred_search cmp key r (Some k)
      | MAP_CMP_LESS => pred_search cmp key l pred
      | MAP_CMP_EQUAL => pred
      end
  end.

Definition map_next (obj : map_t) (it : map_iter_t) : map_iter_t :=
  let? k := it in
  match node_find obj.(comparator) k obj.(root) with
  | NULL => None
  | node _ _ _ _ (node _ _ _ _ _ as right) => iter_at (leftmost right)
  | node _ _ _ _ NULL => succ_search obj.(comparator) k obj.(root) None
  end.

Definition map_prev (obj : map_t) (it : map_iter_t) : map_iter_t :=
  let? k := it in
  match node_find obj.(comparator) k obj.(root) with
  | NULL => None
  | node _ (node _ _ _ _ _ as left) _ _ _ => iter_at (rightmost left)
  | node _ NULL _ _ _ => pred_search obj.(comparator) k obj.(root) None
  end.
End Api.

Arguments map_t : clear implicits.
