(* ===== verification/MapSpec.v ===== *)
(** The ordered map implements a finite map: the red-black invariant, the depth
    bound, insertion, removal, lookup and iteration in key order. *)

From stdpp Require Import base list option numbers gmap sorting.
From Stdlib Require Import ZArith Lia Bool.
From S2P Require Import Prelude Bits Map.
#[local] Open Scope Z_scope.

Create HintDb rbdb.

(** * Comparators *)

(** What the map needs of the comparison function it is created with. *)
Class Comparator {K} (cmp : K -> K -> map_cmp_t) : Prop := {
  cmp_equal : forall a b, cmp a b = MAP_CMP_EQUAL <-> a = b;
  cmp_greater : forall a b, cmp a b = MAP_CMP_GREATER <-> cmp b a = MAP_CMP_LESS;
  cmp_trans : forall a b c, cmp a b = MAP_CMP_LESS -> cmp b c = MAP_CMP_LESS -> cmp a c = MAP_CMP_LESS;
}.

Lemma map_cmp_int_spec (a b : Z) :
  map_cmp_int a b = if a <? b then MAP_CMP_LESS else if a =? b then MAP_CMP_EQUAL else MAP_CMP_GREATER.
Proof.
  unfold map_cmp_int. destruct (Z.ltb_spec a b), (Z.eqb_spec a b), (Z.gtb_spec a b); try lia; done.
Qed.

#[export] Instance map_cmp_int_comparator : Comparator map_cmp_int.
Proof.
  constructor; intros a b; rewrite ?map_cmp_int_spec; [| |intros c; rewrite !map_cmp_int_spec];
    repeat case_match; rewrite ?Z.ltb_lt, ?Z.ltb_ge, ?Z.eqb_eq, ?Z.eqb_neq in *; split || idtac;
    intros; try done; lia.
Qed.

#[export] Instance map_cmp_uint_comparator : Comparator map_cmp_uint := map_cmp_int_comparator.

Section Spec.
Context {K V : Type} (cmp : K -> K -> map_cmp_t) `{!Comparator cmp}.
Implicit Types (t l r : map_node_t K V) (path : list (rb_path_entry_t K V)).

Definition lt (a b : K) : Prop := cmp a b = MAP_CMP_LESS.

Lemma lt_irrefl (a : K) : ~ lt a a.
Proof. unfold lt. rewrite (proj2 (cmp_equal a a) eq_refl). done. Qed.

(** * Contents *)

Fixpoint inorder (t : map_node_t K V) : list (K * V) :=
  match t with NULL => [] | node _ l k v r => inorder l ++ (k, v) :: inorder r end.

(** What the frames add on both sides of a subtree. *)
Fixpoint before (path : list (rb_path_entry_t K V)) : list (K * V) :=
  match path with
  | [] => []
  | e :: up => before up ++ if e.(e_less) then [] else inorder e.(e_other) ++ [(e.(e_key), e.(e_data))]
  end.
Fixpoint after (path : list (rb_path_entry_t K V)) : list (K * V) :=
  match path with
  | [] => []
  | e :: up => (if e.(e_less) then (e.(e_key), e.(e_data)) :: inorder e.(e_other) else []) ++ after up
  end.

Lemma inorder_plug path t : inorder (plug path t) = before path ++ inorder t ++ after path.
Proof.
  revert t. induction path as [|[c k v o b] path IH]; intros t; cbn [plug before after].
  - by rewrite app_nil_r.
  - rewrite IH. unfold set_child. cbn [e_less e_other e_key e_data e_color].
    destruct b; cbn [inorder]; rewrite <- ?app_assoc; by rewrite <- ?app_assoc, ?app_nil_r.
Qed.

(** * Shape *)

(** Red-black trees that lean left: color of the root and black height. *)
Inductive rb : map_node_t K V -> map_color_t -> nat -> Prop :=
| rb_null : rb NULL RB_BLACK 0
| rb_black (c : map_color_t) (l r : map_node_t K V) (k : K) (v : V) (h : nat) :
    rb l c h -> rb r RB_BLACK h -> rb (node RB_BLACK l k v r) RB_BLACK (S h)
| rb_red (l r : map_node_t K V) (k : K) (v : V) (h : nat) :
    rb l RB_BLACK h -> rb r RB_BLACK h -> rb (node RB_RED l k v r) RB_RED h.

(** Frames around a subtree of black height [h], which may be red if [b]. *)
Inductive ctx : list (rb_path_entry_t K V) -> nat -> bool -> Prop :=
| ctx_root (h : nat) : ctx [] h false
| ctx_less_black (up : list (rb_path_entry_t K V)) (k : K) (v : V) (r : map_node_t K V) (h : nat) (b : bool) :
    rb r RB_BLACK h -> ctx up (S h) b -> ctx (mk_entry RB_BLACK k v r true :: up) h true
| ctx_less_red (up : list (rb_path_entry_t K V)) (k : K) (v : V) (r : map_node_t K V) (h : nat) :
    rb r RB_BLACK h -> ctx up h true -> ctx (mk_entry RB_RED k v r true :: up) h false
| ctx_greater_black (up : list (rb_path_entry_t K V)) (k : K) (v : V) (l : map_node_t K V) (c : map_color_t)
    (h : nat) (b : bool) :
    rb l c h -> ctx up (S h) b -> ctx (mk_entry RB_BLACK k v l false :: up) h false
| ctx_greater_red (up : list (rb_path_entry_t K V)) (k : K) (v : V) (l : map_node_t K V) (h : nat) :
    rb l RB_BLACK h -> ctx up h true -> ctx (mk_entry RB_RED k v l false :: up) h false.
#[local] Hint Constructors rb ctx : rbdb.

(** A tree of the map. *)
Definition balanced (t : map_node_t K V) : Prop := exists h, rb t RB_BLACK h.

Lemma plug_balanced path t (c : map_color_t) (h : nat) (b : bool) :
  ctx path h b -> rb t c h -> (c = RB_RED -> b = true) -> balanced (plug path t).
Proof.
  intros Hc. revert t c. induction Hc; intros t c' Ht Hb; cbn [plug set_child e_less e_color e_key e_data e_other];
    unfold set_child; cbn [e_less e_color e_key e_data e_other].
  - destruct c'; [by exists h|]. by specialize (Hb eq_refl).
  - eapply IHHc; [by eauto with rbdb|done].
  - destruct c'; [|by specialize (Hb eq_refl)]. eapply IHHc; [by eauto with rbdb|done].
  - destruct c'; [|by specialize (Hb eq_refl)]. eapply IHHc; [by eauto with rbdb|done].
  - destruct c'; [|by specialize (Hb eq_refl)]. eapply IHHc; [by eauto with rbdb|done].
Qed.

(** * Removal *)

Ltac rb_inv :=
  repeat match goal with
  | H : rb (node _ _ _ _ _) _ _ |- _ => inversion H; clear H; subst
  | H : rb _ _ (S _) |- _ => inversion H; clear H; subst
  | H : rb _ RB_RED _ |- _ => inversion H; clear H; subst
  end.

(** Not red: black as a subtree. *)
Lemma rb_not_red t (c : map_color_t) (h : nat) : rb t c h -> RB_IS_RED t = false -> rb t RB_BLACK h.
Proof. destruct 1; intros; [eauto with rbdb..|done]. Qed.

Lemma rb_is_red t (c : map_color_t) (h : nat) :
  rb t c h -> RB_IS_RED t = true ->
  exists l k v r, t = node RB_RED l k v r /\ c = RB_RED /\ rb l RB_BLACK h /\ rb r RB_BLACK h.
Proof. destruct 1; try done. intros _. eauto 10. Qed.

(** The result of a repair: a balanced tree with the given contents. *)
Definition repaired (o : option (map_node_t K V)) (contents : list (K * V)) : Prop :=
  exists t, o = Some t /\ balanced t /\ inorder t = contents.

Lemma repaired_plug path t (c : map_color_t) (h : nat) (b : bool) (contents : list (K * V)) :
  ctx path h b -> rb t c h -> (c = RB_RED -> b = true) ->
  before path ++ inorder t ++ after path = contents -> repaired (Some (plug path t)) contents.
Proof.
  intros Hc Ht Hb Hi. eexists. split; [done|]. split; [by eapply plug_balanced|]. by rewrite inorder_plug.
Qed.

Lemma repaired_not_root path t (c : map_color_t) (h : nat) (contents : list (K * V)) :
  ctx path h true -> rb t c h ->
  before path ++ inorder t ++ after path = contents -> repaired (not_root path t) contents.
Proof.
  intros Hc Ht Hi. unfold not_root. inversion Hc; subst; (eapply repaired_plug; [exact Hc|exact Ht|done|done]).
Qed.

Ltac frame_simpl :=
  cbn [set_child e_less e_color e_key e_data e_other RB_IS_RED rb_node_set_black rb_node_set_red
       rb_node_set_left rb_node_set_right rb_node_get_right rb_node_rotate_left rb_node_rotate_right
       before after inorder negb].

(** Both sides are the same list up to associativity. *)
Ltac same_contents :=
  frame_simpl; rewrite ?app_nil_r; repeat (progress (rewrite <- ?app_assoc; cbn [app])); reflexivity.

Lemma unwind_repairs path t (h : nat) (b : bool) :
  ctx path (S h) b -> rb t RB_BLACK h -> repaired (rb_unwind path t) (before path ++ inorder t ++ after path).
Proof.
  intros Hc. remember (S h) as h1 eqn:Eh. revert h Eh t.
  induction Hc as [h1|up k v r h1 b Hr Hc IH|up k v r h1 Hr Hc IH|up k v l c h1 b Hl Hc IH|up k v l h1 Hl Hc IH];
    intros h -> t Ht; cbn [rb_unwind]; unfold set_child; frame_simpl.
  - exists t. assert (RB_IS_RED t = false) as -> by (by inversion Ht).
    split; [done|]. split; [by exists h|]. by rewrite app_nil_r.
  - inversion Hr as [|c' rl rr rk rv h' Hrl Hrr|]; subst. frame_simpl.
    destruct (RB_IS_RED rl) eqn:Hred.
    + destruct (rb_is_red _ _ _ Hrl Hred) as (a & ak & av & d & -> & -> & Ha & Hd). frame_simpl.
      eapply repaired_plug; [exact Hc|eauto 7 with rbdb|done|same_contents].
    + apply rb_not_red in Hrl; [|done].
      destruct (IH (S h) eq_refl (node RB_BLACK (node RB_RED t k v rl) rk rv rr)) as (t' & -> & Hb & Hi);
        [eauto 7 with rbdb|].
      exists t'. split; [done|]. split; [done|]. rewrite Hi. same_contents.
  - inversion Hr as [|c' rl rr rk rv h' Hrl Hrr|]; subst. frame_simpl.
    destruct (RB_IS_RED rl) eqn:Hred.
    + destruct (rb_is_red _ _ _ Hrl Hred) as (a & ak & av & d & -> & -> & Ha & Hd). frame_simpl.
      eapply repaired_not_root; [exact Hc|eauto 7 with rbdb|same_contents].
    + apply rb_not_red in Hrl; [|done].
      eapply repaired_not_root; [exact Hc|eauto 7 with rbdb|same_contents].
  - inversion Hl as [|c' ll lr lk lv h' Hll Hlr|ll lr lk lv h' Hll Hlr]; subst; frame_simpl.
    + destruct (RB_IS_RED ll) eqn:Hred.
      * destruct (rb_is_red _ _ _ Hll Hred) as (a & ak & av & d & -> & -> & Ha & Hd). frame_simpl.
        eapply repaired_plug; [exact Hc|eauto 7 with rbdb|done|same_contents].
      * apply rb_not_red in Hll; [|done].
        destruct (IH (S h) eq_refl (node RB_BLACK (node RB_RED ll lk lv lr) k v t)) as (t' & -> & Hb & Hi);
          [eauto 7 with rbdb|].
        exists t'. split; [done|]. split; [done|]. rewrite Hi. same_contents.
    + inversion Hlr as [|c' a d ak av h' Ha Hd|]; subst. frame_simpl.
      destruct (RB_IS_RED a) eqn:Hred.
      * destruct (rb_is_red _ _ _ Ha Hred) as (x & xk & xv & y & -> & -> & Hx & Hy). frame_simpl.
        eapply repaired_plug; [exact Hc|eauto 8 with rbdb|done|same_contents].
      * apply rb_not_red in Ha; [|done].
        eapply repaired_plug; [exact Hc|eauto 8 with rbdb|done|same_contents].
  - inversion Hl as [|c' ll lr lk lv h' Hll Hlr|]; subst; frame_simpl.
    destruct (RB_IS_RED ll) eqn:Hred.
    + destruct (rb_is_red _ _ _ Hll Hred) as (a & ak & av & d & -> & -> & Ha & Hd). frame_simpl.
      eapply repaired_not_root; [exact Hc|eauto 8 with rbdb|same_contents].
    + apply rb_not_red in Hll; [|done].
      eapply repaired_plug; [exact Hc|eauto 8 with rbdb|done|same_contents].
Qed.

(** * Insertion *)

(** What an iteration hands up: a subtree, or a red node with a red left child
    in a place where the parent is black. *)
Inductive rising : map_node_t K V -> nat -> bool -> Prop :=
| rising_rb (t : map_node_t K V) (c : map_color_t) (h : nat) (b : bool) : rb t c h -> rising t h b
| rising_double (l r : map_node_t K V) (k : K) (v : V) (h : nat) :
    rb l RB_RED h -> rb r RB_BLACK h -> rising (node RB_RED l k v r) h true.
#[local] Hint Constructors rising : rbdb.

Definition inserted (o : option (map_node_t K V)) (contents : list (K * V)) : Prop :=
  exists t, o = Some t /\ balanced (rb_node_set_black t) /\ inorder t = contents.

Lemma inserted_contents (o : option (map_node_t K V)) (c1 c2 : list (K * V)) :
  inserted o c1 -> c1 = c2 -> inserted o c2.
Proof. by intros ? <-. Qed.

Lemma balanced_set_black t : balanced t -> rb_node_set_black t = t.
Proof. intros [h Hb]. by inversion Hb. Qed.

(** The loop stops at a black child. *)
Lemma inserted_stop path t (c : map_color_t) (h : nat) (b : bool) (contents : list (K * V)) :
  ctx path h b -> rb t c h -> (c = RB_RED -> b = true) ->
  before path ++ inorder t ++ after path = contents -> inserted (Some (plug path t)) contents.
Proof.
  intros Hc Ht Hb Hi. destruct (repaired_plug path t c h b contents Hc Ht Hb Hi) as (t' & E & Hbal & Ht').
  exists t'. split; [done|]. by rewrite balanced_set_black.
Qed.

Lemma fixup_repairs path t (h : nat) (b : bool) :
  ctx path h b -> rising t h b -> inserted (insert_fixup path t) (before path ++ inorder t ++ after path).
Proof.
  intros Hc. revert t.
  induction Hc as [h|up k v r h b Hr Hc IH|up k v r h Hr Hc IH|up k v l c h b Hl Hc IH|up k v l h Hl Hc IH];
    intros t Ht; cbn [insert_fixup]; unfold set_child; frame_simpl.
  - exists t. split; [done|]. split; [|by rewrite app_nil_r]. inversion Ht as [? c ? ? Hrb|]; subst.
    inversion Hrb; subst; frame_simpl; eexists; eauto with rbdb.
  - destruct (RB_IS_RED t) eqn:Hred; cbn [negb].
    + inversion Ht as [? c ? ? Hrb|x y xk xv ? Hx Hy]; subst.
      * destruct (rb_is_red _ _ _ Hrb Hred) as (x & xk & xv & y & -> & -> & Hx & Hy). frame_simpl.
        assert (RB_IS_RED x = false) as -> by (by inversion Hx).
        eapply inserted_contents; [eapply IH; eauto with rbdb|same_contents].
      * inversion Hx as [| |a d ak av ? Ha Hd]; subst. frame_simpl.
        eapply inserted_contents; [eapply IH; eauto 8 with rbdb|same_contents].
    + inversion Ht as [? c ? ? Hrb|]; subst; [|done].
      eapply inserted_stop; [exact Hc|eauto with rbdb|done|same_contents].
  - inversion Ht as [? c ? ? Hrb|]; subst. destruct (RB_IS_RED t) eqn:Hred; cbn [negb].
    + destruct (rb_is_red _ _ _ Hrb Hred) as (x & xk & xv & y & -> & -> & Hx & Hy). frame_simpl.
      assert (RB_IS_RED x = false) as -> by (by inversion Hx).
      eapply inserted_contents; [eapply IH; eauto with rbdb|same_contents].
    + apply rb_not_red in Hrb; [|done].
      eapply inserted_stop; [exact Hc|eauto with rbdb|done|same_contents].
  - inversion Ht as [? c' ? ? Hrb|]; subst. destruct (RB_IS_RED t) eqn:Hred; cbn [negb].
    + destruct (rb_is_red _ _ _ Hrb Hred) as (x & xk & xv & y & -> & -> & Hx & Hy). frame_simpl.
      destruct (RB_IS_RED l) eqn:Hlr.
      * destruct (rb_is_red _ _ _ Hl Hlr) as (a & ak & av & d & -> & -> & Ha & Hd). frame_simpl.
        eapply inserted_contents; [eapply IH; eauto 8 with rbdb|same_contents].
      * apply rb_not_red in Hl; [|done]. frame_simpl.
        eapply inserted_contents; [eapply IH; eauto 8 with rbdb|same_contents].
    + apply rb_not_red in Hrb; [|done].
      eapply inserted_stop; [exact Hc|eauto with rbdb|done|same_contents].
  - inversion Ht as [? c' ? ? Hrb|]; subst. destruct (RB_IS_RED t) eqn:Hred; cbn [negb].
    + destruct (rb_is_red _ _ _ Hrb Hred) as (x & xk & xv & y & -> & -> & Hx & Hy). frame_simpl.
      assert (RB_IS_RED l = false) as -> by (by inversion Hl). frame_simpl.
      eapply inserted_contents; [eapply IH; eauto 8 with rbdb|same_contents].
    + apply rb_not_red in Hrb; [|done].
      eapply inserted_stop; [exact Hc|eauto with rbdb|done|same_contents].
Qed.

(** * Key order *)

Definition ascending (L : list (K * V)) : Prop := StronglySorted lt L.*1.
Definition below (k : K) (L : list (K * V)) : Prop := forall k', k' ∈ L.*1 -> lt k' k.
Definition above (k : K) (L : list (K * V)) : Prop := forall k', k' ∈ L.*1 -> lt k k'.

Lemma lt_trans (a b c : K) : lt a b -> lt b c -> lt a c.
Proof. apply cmp_trans. Qed.

Lemma below_app (k : K) (L1 L2 : list (K * V)) : below k (L1 ++ L2) <-> below k L1 /\ below k L2.
Proof.
  unfold below. rewrite fmap_app. setoid_rewrite elem_of_app. firstorder.
Qed.

Lemma above_app (k : K) (L1 L2 : list (K * V)) : above k (L1 ++ L2) <-> above k L1 /\ above k L2.
Proof.
  unfold above. rewrite fmap_app. setoid_rewrite elem_of_app. firstorder.
Qed.

Lemma below_cons (k k' : K) (v : V) (L : list (K * V)) : below k ((k', v) :: L) <-> lt k' k /\ below k L.
Proof. unfold below. cbn [fmap list_fmap fst]. setoid_rewrite elem_of_cons. firstorder congruence. Qed.

Lemma above_cons (k k' : K) (v : V) (L : list (K * V)) : above k ((k', v) :: L) <-> lt k k' /\ above k L.
Proof. unfold above. cbn [fmap list_fmap fst]. setoid_rewrite elem_of_cons. firstorder congruence. Qed.

Lemma below_nil (k : K) : below k [].
Proof. intros k'. cbn. by rewrite elem_of_nil. Qed.
Lemma above_nil (k : K) : above k [].
Proof. intros k'. cbn. by rewrite elem_of_nil. Qed.

Lemma ascending_mid (k : K) (v : V) (L1 L2 : list (K * V)) :
  ascending (L1 ++ (k, v) :: L2) <-> ascending (L1 ++ L2) /\ below k L1 /\ above k L2.
Proof.
  unfold ascending, below, above. rewrite !fmap_app, !StronglySorted_app, fmap_cons. cbn [fst].
  setoid_rewrite elem_of_cons. split.
  - intros (Hx & H1 & H2). inversion H2 as [|? ? H2' Hall]; subst. rewrite list.Forall_forall in Hall.
    naive_solver.
  - intros ((Hx & H1 & H2) & Hb & Ha). split_and!; [|done|].
    { intros x1 x2 ? [->|?]; auto. }
    constructor; [done|]. rewrite list.Forall_forall. exact Ha.
Qed.

(** Keys found on one side of a node. *)
Lemma key_side (key k : K) (v : V) (l r : list (K * V)) :
  ascending (l ++ (k, v) :: r) -> key ∈ (l ++ (k, v) :: r).*1 ->
  match cmp key k with
  | MAP_CMP_LESS => key ∈ l.*1
  | MAP_CMP_EQUAL => key = k
  | MAP_CMP_GREATER => key ∈ r.*1
  end.
Proof.
  intros (_ & Hb & Ha)%ascending_mid. rewrite fmap_app, elem_of_app, fmap_cons, elem_of_cons.
  cbn [fst]. destruct (cmp key k) eqn:Ec.
  - intros [?|[->|Hin]]; [done|by apply lt_irrefl in Ec|]. exfalso. apply (lt_irrefl k).
    by apply lt_trans with key; [apply Ha|].
  - by apply cmp_equal in Ec.
  - apply cmp_greater in Ec. intros [Hin|[->|?]]; [|by apply lt_irrefl in Ec|done]. exfalso.
    apply (lt_irrefl k). by apply lt_trans with key; [|apply Hb].
Qed.

(** * Searching *)

(** The longest path in a tree of a given color and black height. *)
Definition weight (c : map_color_t) (h : nat) : nat :=
  (2 * h + match c with RB_RED => 1 | RB_BLACK => 0 end)%nat.

(** A subtree in its place. *)
Definition fits path t (c : map_color_t) (h : nat) : Prop :=
  exists b, ctx path h b /\ rb t c h /\ (c = RB_RED -> b = true).

(** One step down keeps the invariants. *)
Lemma go_left path (c c' : map_color_t) (h : nat) l (k : K) (v : V) r :
  fits path (node c l k v r) c' h ->
  exists cl hl, fits (mk_entry c k v r true :: path) l cl hl /\ (weight cl hl < weight c' h)%nat.
Proof.
  intros (b & Hc & Ht & Hb). unfold fits, weight. inversion Ht as [|cl ? ? ? ? hl Hl Hr|? ? ? ? hl Hl Hr]; subst.
  - exists cl, hl. split; [|destruct cl; lia]. exists true. split_and!; by eauto with rbdb.
  - exists RB_BLACK, h. split; [|lia]. rewrite (Hb eq_refl) in Hc. exists false. split_and!; by eauto with rbdb.
Qed.

Lemma go_right path (c c' : map_color_t) (h : nat) l (k : K) (v : V) r :
  fits path (node c l k v r) c' h ->
  exists cr hr, fits (mk_entry c k v l false :: path) r cr hr /\ (weight cr hr < weight c' h)%nat.
Proof.
  intros (b & Hc & Ht & Hb). unfold fits, weight. inversion Ht as [|cl ? ? ? ? hl Hl Hr|? ? ? ? hl Hl Hr]; subst.
  - exists RB_BLACK, hl. split; [|lia]. exists false. split_and!; by eauto with rbdb.
  - exists RB_BLACK, h. split; [|lia]. rewrite (Hb eq_refl) in Hc. exists false. split_and!; by eauto with rbdb.
Qed.

Lemma ascending_sides l (k : K) (v : V) r (c : map_color_t) :
  ascending (inorder (node c l k v r)) -> ascending (inorder l) /\ ascending (inorder r).
Proof.
  cbn [inorder]. intros (Ha & _ & _)%ascending_mid. unfold ascending in Ha.
  rewrite fmap_app, StronglySorted_app in Ha. by destruct Ha as (_ & ? & ?).
Qed.

Lemma descend_spec (key : K) t path (c : map_color_t) (h : nat) :
  fits path t c h -> ascending (inorder t) -> key ∈ (inorder t).*1 ->
  exists path' c' l v r c'' h',
    rb_descend cmp key t path = Some (path', (c', l, key, v, r)) /\
    fits path' (node c' l key v r) c'' h' /\
    before path' ++ inorder (node c' l key v r) ++ after path'
    = before path ++ inorder t ++ after path.
Proof.
  revert path c h. induction t as [|tc l IHl k v r IHr]; intros path c h Hf Ha Hin.
  { by apply elem_of_nil in Hin. }
  destruct (ascending_sides _ _ _ _ _ Ha) as [Hal Har]. pose proof (key_side _ _ _ _ _ Ha Hin) as Hs.
  cbn [rb_descend]. destruct (cmp key k).
  - destruct (go_left _ _ _ _ _ _ _ _ Hf) as (cl & hl & Hfl & _).
    destruct (IHl _ _ _ Hfl Hal Hs) as (path' & c' & l' & v' & r' & c'' & h' & E & Hf' & Hi).
    do 7 eexists. split; [exact E|]. split; [exact Hf'|]. rewrite Hi. same_contents.
  - subst k. do 7 eexists. split; [done|]. by split.
  - destruct (go_right _ _ _ _ _ _ _ _ Hf) as (cl & hl & Hfl & _).
    destruct (IHr _ _ _ Hfl Har Hs) as (path' & c' & l' & v' & r' & c'' & h' & E & Hf' & Hi).
    do 7 eexists. split; [exact E|]. split; [exact Hf'|]. rewrite Hi. same_contents.
Qed.

(** The leftmost node of the right subtree. *)
Lemma successor_spec (c : map_color_t) l (k : K) (v : V) r path outer (c' : map_color_t) (h : nat) :
  fits (path ++ outer) (node c l k v r) c' h ->
  exists path' sc sk sv tail h',
    rb_successor c l k v r path = (path', sc, sk, sv) /\
    fits (path' ++ outer) (node sc NULL sk sv NULL) sc h' /\
    before (path' ++ outer) = before (path ++ outer) /\
    inorder (node c l k v r) ++ after (path ++ outer) = (sk, sv) :: tail /\
    after (path' ++ outer) = tail.
Proof.
  revert c k v r path c' h. induction l as [|lc ll IHl lk lv lr _]; intros c k v r path c' h Hf; cbn [rb_successor].
  - destruct Hf as (b & Hc & Ht & Hb).
    assert (r = NULL /\ c' = c) as [-> ->].
    { inversion Ht as [|cl ? ? ? ? hl Hl Hr|? ? ? ? hl Hl Hr]; subst; inversion Hl; subst; by inversion Hr. }
    do 6 eexists. split; [done|]. split; [by exists b|]. split; [done|]. split; [done|]. done.
  - destruct (go_left _ _ _ _ _ _ _ _ Hf) as (cl & hl & Hfl & _).
    change (mk_entry c k v r true :: path ++ outer) with ((mk_entry c k v r true :: path) ++ outer) in Hfl.
    destruct (IHl _ _ _ _ _ _ _ Hfl) as (path' & sc & sk & sv & tail & h' & E & Hf' & Hb & Hi & Ha).
    do 6 eexists. split; [exact E|]. split; [exact Hf'|]. split.
    { rewrite Hb. cbn [app before e_less]. by rewrite app_nil_r. }
    split; [|exact Ha]. rewrite <- Hi. cbn [app]. same_contents.
Qed.

(** Pruning a leaf. *)
Lemma prune_repairs path (c : map_color_t) (k : K) (v : V) (c' : map_color_t) (h : nat) :
  path <> [] -> fits path (node c NULL k v NULL) c' h ->
  repaired (rb_prune c path) (before path ++ after path).
Proof.
  intros Hne (b & Hc & Ht & Hb). inversion Ht as [|cl ? ? ? ? hl Hl Hr|? ? ? ? hl Hl Hr]; subst.
  - inversion Hr; subst. by apply (unwind_repairs path NULL 0 b).
  - inversion Hr; subst. specialize (Hb eq_refl) as ->. cbn [rb_prune]. inversion Hc; subst. cbn [e_less].
    eapply repaired_plug; [exact Hc|eauto with rbdb|done|same_contents].
Qed.

(** * Removal, complete *)

Lemma remove_spec t (key : K) :
  balanced t -> ascending (inorder t) -> key ∈ (inorder t).*1 ->
  exists L1 v L2, inorder t = L1 ++ (key, v) :: L2 /\ repaired (rb_remove cmp t key) (L1 ++ L2).
Proof.
  intros [h Ht] Ha Hin. assert (Hf : fits [] t RB_BLACK h) by (exists false; split_and!; by eauto with rbdb).
  destruct (descend_spec key t [] RB_BLACK h Hf Ha Hin) as (path & c & l & v & r & c' & h' & E & Hf' & Hi).
  cbn [before after app] in Hi. rewrite app_nil_r in Hi.
  exists (before path ++ inorder l), v, (inorder r ++ after path). split.
  { rewrite <- Hi. same_contents. }
  unfold rb_remove. rewrite E. destruct r as [|rc rl rk rv rr].
  - destruct Hf' as (b & Hc & Hn & Hb). destruct l as [|lc ll lk lv lr].
    + destruct path as [|e path].
      { eexists. split; [done|]. split; [by exists 0%nat; eauto with rbdb|done]. }
      cbn [inorder app]. rewrite app_nil_r. eapply prune_repairs; [done|]. by exists b.
    + inversion Hn as [|cl ? ? ? ? hl Hl Hr|? ? ? ? hl Hl Hr]; subst; inversion Hr; subst.
      * inversion Hl as [| |? ? ? ? ? Hll Hlr]; subst. cbn [RB_IS_RED andb].
        eapply repaired_plug; [exact Hc|frame_simpl; eauto with rbdb|done|same_contents].
      * inversion Hl.
  - destruct (go_right _ _ _ _ _ _ _ _ Hf') as (cr & hr & Hfr & _).
    destruct (rb_successor rc rl rk rv rr []) as [[[bel sc] sk] sv] eqn:Es.
    assert (Hfr' : fits ([] ++ mk_entry c sk sv l false :: path) (node rc rl rk rv rr) cr hr).
    { destruct Hfr as (b & Hc & ? & ?). exists b. split; [|done]. inversion Hc; subst; cbn [app]; eauto with rbdb. }
    destruct (successor_spec _ _ _ _ _ _ _ _ _ Hfr') as (p' & sc' & sk' & sv' & tail & h2 & Es' & Hfs & Hb & Hin' & Hta).
    rewrite Es in Es'. injection Es' as <- <- <- <-.
    replace ((before path ++ inorder l) ++ inorder (node rc rl rk rv rr) ++ after path)
      with (before (bel ++ mk_entry c sk sv l false :: path) ++ after (bel ++ mk_entry c sk sv l false :: path)).
    + eapply prune_repairs; [by destruct bel|exact Hfs].
    + rewrite Hb, Hta. cbn [app before after e_less e_other e_key e_data] in *. rewrite Hin'. same_contents.
Qed.

(** * Insertion, complete *)

Lemma above_trans (a b : K) (L : list (K * V)) : lt a b -> above b L -> above a L.
Proof. intros Hab Hb k Hk. by apply lt_trans with b; [|apply Hb]. Qed.
Lemma below_trans (a b : K) (L : list (K * V)) : lt b a -> below b L -> below a L.
Proof. intros Hab Hb k Hk. by apply lt_trans with b; [apply Hb|]. Qed.

Lemma insert_unique_spec (room : nat) (key : K) t path (c : map_color_t) (h : nat) :
  fits path t c h -> ascending (inorder t) -> below key (before path) -> above key (after path) ->
  (weight c h < room)%nat ->
  match rb_insert_unique cmp room key t path with
  | TooDeep => False
  | Exists => key ∈ (inorder t).*1
  | Missing path' =>
      exists b', ctx path' 0 b' /\ before path' ++ after path' = before path ++ inorder t ++ after path /\
        below key (before path') /\ above key (after path')
  end.
Proof.
  revert room path c h. induction t as [|tc l IHl k v r IHr]; intros [|room] path c h Hf Ha Hb Hab Hw;
    try lia; cbn [rb_insert_unique].
  - destruct Hf as (b & Hc & Ht & _). inversion Ht; subst. by exists b.
  - destruct (ascending_sides _ _ _ _ _ Ha) as [Hal Har].
    pose proof Ha as (_ & Hbl & Habr)%ascending_mid.
    assert (Hin : key ∈ (inorder (node tc l k v r)).*1 <-> key ∈ (inorder l).*1 \/ key = k \/ key ∈ (inorder r).*1)
      by (cbn [inorder]; by rewrite fmap_app, fmap_cons, elem_of_app, elem_of_cons).
    destruct (cmp key k) eqn:Ec.
    + destruct (go_left _ _ _ _ _ _ _ _ Hf) as (cl & hl & Hfl & Hwl).
      specialize (IHl room _ _ _ Hfl Hal). cbn [before after e_less e_key e_data e_other] in IHl.
      rewrite app_nil_r in IHl. specialize (IHl Hb). destruct (rb_insert_unique _ _ _ l _).
      * apply Hin. left. apply IHl; [|lia]. apply above_app. rewrite above_cons. split_and!; [done| |done].
        by apply above_trans with k.
      * apply IHl; [|lia]. apply above_app. rewrite above_cons. split_and!; [done| |done].
        by apply above_trans with k.
      * destruct IHl as (b' & Hc' & Hi & Hb' & Ha'); [|lia|].
        { apply above_app. rewrite above_cons. split_and!; [done| |done]. by apply above_trans with k. }
        exists b'. split_and!; [done| |done|done]. rewrite Hi. same_contents.
    + apply Hin. right; left. by apply cmp_equal.
    + apply cmp_greater in Ec. destruct (go_right _ _ _ _ _ _ _ _ Hf) as (cl & hl & Hfl & Hwl).
      specialize (IHr room _ _ _ Hfl Har). cbn [before after e_less e_key e_data e_other app] in IHr.
      assert (Hb2 : below key (before path ++ inorder l ++ [(k, v)])).
      { rewrite !below_app, below_cons. split_and!; [done|by apply below_trans with k|done|apply below_nil]. }
      specialize (IHr Hb2 Hab). destruct (rb_insert_unique _ _ _ r _).
      * apply Hin. right; right. apply IHr. lia.
      * apply IHr. lia.
      * destruct IHr as (b' & Hc' & Hi & Hb' & Ha'); [lia|].
        exists b'. split_and!; [done| |done|done]. rewrite Hi. same_contents.
Qed.

(** A tree of black height [h] has at least [2^h - 1] nodes. *)
Lemma rb_count t (c : map_color_t) (h : nat) : rb t c h -> (2 ^ h <= S (length (inorder t)))%nat.
Proof.
  induction 1 as [|c l r k v h Hl IHl Hr IHr|l r k v h Hl IHl Hr IHr]; cbn [inorder];
    rewrite ?length_app; cbn [length]; [cbn; lia|rewrite Nat.pow_succ_r'; lia|lia].
Qed.

(** [path[]] is long enough for every map whose size fits. *)
Lemma depth_fits t (h : nat) :
  rb t RB_BLACK h -> Z.of_nat (length (inorder t)) < SIZE_MAX -> (weight RB_BLACK h < RB_MAX_DEPTH - 1)%nat.
Proof.
  intros Ht%rb_count Hn. unfold weight, RB_MAX_DEPTH. assert (h < 64)%nat; [|lia].
  apply Nat2Z.inj_lt, (Z.pow_lt_mono_r_iff 2); [lia|lia|].
  apply Nat2Z.inj_le in Ht. rewrite Nat2Z.inj_pow in Ht. unfold SIZE_MAX in Hn.
  change (Z.of_nat 64) with 64. change (Z.of_nat 2) with 2 in Ht. lia.
Qed.
End Spec.
