(* ===== verification/MapRefine.v ===== *)
(** The map interface refines a finite map; allocation sizes; iteration. *)

From stdpp Require Import base list option numbers gmap sorting.
From Stdlib Require Import ZArith Lia Bool.
From S2P Require Import Prelude Bits Map MapSpec.
#[local] Open Scope Z_scope.

(** * Lookup and neighbours *)

Section Search.
Context {K V : Type} (cmp : K -> K -> map_cmp_t) `{!Comparator cmp}.
Implicit Types (t l r : map_node_t K V).

(** The key at an end of a list of entries, or a default. *)
Definition head_or (s : option K) (L : list (K * V)) : option K :=
  match L with [] => s | (k, _) :: _ => Some k end.
Definition last_or (s : option K) (L : list (K * V)) : option K :=
  match last L with None => s | Some (k, _) => Some k end.

Lemma head_or_app (s : option K) (L1 L2 : list (K * V)) : head_or s (L1 ++ L2) = head_or (head_or s L2) L1.
Proof. by destruct L1 as [|[]]. Qed.

Lemma last_or_app (s : option K) (L1 L2 : list (K * V)) : last_or s (L1 ++ L2) = last_or (last_or s L1) L2.
Proof. unfold last_or. rewrite last_app. by destruct (last L2). Qed.

(** Where a search ends: the subtree of the key, and what lies around it. *)
Lemma node_find_spec (key : K) t :
  ascending cmp (inorder t) ->
  match node_find cmp key t with
  | NULL => key ∉ (inorder t).*1
  | node c l k v r =>
      k = key /\ exists A B, inorder t = A ++ inorder (node c l k v r) ++ B /\
        (forall s, succ_search cmp key t s = head_or s B) /\
        (forall s, pred_search cmp key t s = last_or s A)
  end.
Proof.
  induction t as [|tc l IHl k v r IHr]; intros Ha; cbn [node_find succ_search pred_search].
  { apply not_elem_of_nil. }
  destruct (ascending_sides cmp _ _ _ _ _ Ha) as [Hal Har]. specialize (IHl Hal). specialize (IHr Har).
  destruct (cmp key k) eqn:Ec.
  - destruct (node_find cmp key l) as [|c' l' k' v' r'].
    + intros Hin. pose proof (key_side cmp _ _ _ _ _ Ha Hin) as Hs. by rewrite Ec in Hs.
    + destruct IHl as (-> & A & B & Hi & Hsu & Hpr). split; [done|]. exists A, (B ++ (k, v) :: inorder r).
      split_and!.
      * cbn [inorder] in *. rewrite Hi. by rewrite <- !app_assoc.
      * intros s. by rewrite Hsu, head_or_app.
      * intros s. apply Hpr.
  - split; [by apply cmp_equal in Ec|]. exists [], []. split_and!; [by rewrite app_nil_r|done|done].
  - destruct (node_find cmp key r) as [|c' l' k' v' r'].
    + intros Hin. pose proof (key_side cmp _ _ _ _ _ Ha Hin) as Hs. by rewrite Ec in Hs.
    + destruct IHr as (-> & A & B & Hi & Hsu & Hpr). split; [done|]. exists (inorder l ++ (k, v) :: A), B.
      split_and!.
      * cbn [inorder] in *. rewrite Hi. by rewrite <- !app_assoc.
      * intros s. apply Hsu.
      * intros s. rewrite Hpr, last_or_app. unfold last_or at 2. rewrite last_cons.
        unfold last_or. by destruct (last A) as [[]|].
Qed.

Lemma leftmost_spec t : iter_at (leftmost t) = head_or None (inorder t).
Proof.
  induction t as [|c l IHl k v r _]; [done|]. destruct l as [|lc ll lk lv lr]; [done|].
  change (leftmost (node c (node lc ll lk lv lr) k v r)) with (leftmost (node lc ll lk lv lr)).
  rewrite IHl. cbn [inorder]. rewrite <- app_assoc. by destruct (inorder ll) as [|[]].
Qed.

Lemma rightmost_spec t : iter_at (rightmost t) = last_or None (inorder t).
Proof.
  induction t as [|c l _ k v r IHr]; [done|]. cbn [inorder]. rewrite last_or_app.
  destruct r as [|rc rl rk rv rr]; [done|].
  change (rightmost (node c l k v (node rc rl rk rv rr))) with (rightmost (node rc rl rk rv rr)).
  rewrite IHr. unfold last_or. rewrite last_cons. cbn [inorder]. rewrite last_app, last_cons.
  by destruct (last (inorder rr)) as [[]|].
Qed.
End Search.

(** * Allocation *)

Lemma size_max_quarter : SIZE_MAX / 4 = 2 ^ 62 - 1.
Proof. by vm_compute. Qed.

Lemma land_mask8 (x : Z) : 0 <= x < 2 ^ 64 -> x .& (2 ^ 64 - 1 - (8 - 1)) = x - x mod 8.
Proof.
  intros Hx. replace (2 ^ 64 - 1 - (8 - 1)) with (Z.ldiff (Z.ones 64) (Z.ones 3)) by (by vm_compute).
  rewrite Z.ldiff_land, Z.land_assoc, Z.land_ones, Z.mod_small by lia.
  rewrite <- Z.ldiff_land, Z.ldiff_ones_r, Z.shiftr_div_pow2, Z.shiftl_mul_pow2 by lia.
  change (2 ^ 3) with 8. pose proof (Z.div_mod x 8). lia.
Qed.

(** Sizes [map_new] accepts never overflow in [map_create_node]: key and data
    are disjoint, aligned and inside the block. *)
Lemma layout_fits (ks ds : Z) :
  0 < ks -> 0 < ds -> ks + ds <= SIZE_MAX / 4 ->
  exists off total, node_layout ks ds = Some (32, off, total) /\
    32 + ks <= off < 32 + ks + 8 /\ off mod 8 = 0 /\ total = off + ds /\ total <= SIZE_MAX.
Proof.
  rewrite size_max_quarter. unfold SIZE_MAX. intros Hk Hd Hs. unfold node_layout, sizeof_map_node_t.
  replace (u64 (32 + (8 - 1)) .& (2 ^ 64 - 1 - (8 - 1))) with 32 by (by vm_compute).
  assert (E1 : u64 (32 + ks + (8 - 1)) = 39 + ks) by (unfold u64; rewrite Z.mod_small; lia).
  rewrite E1, land_mask8 by lia. set (off := 39 + ks - (39 + ks) mod 8).
  pose proof (Z.mod_pos_bound (39 + ks) 8). assert (32 + ks <= off < 32 + ks + 8) by (unfold off; lia).
  assert (E2 : u64 (off + ds) = off + ds) by (apply Z.mod_small; lia). rewrite E2.
  exists off, (off + ds). replace (off + ds <? ds) with false by (symmetry; apply Z.ltb_ge; lia).
  replace (off + ds <? ks) with false by (symmetry; apply Z.ltb_ge; lia). cbn [orb].
  split; [done|]. split; [done|]. split; [|lia]. unfold off.
  rewrite Zminus_mod_idemp_r. by rewrite Z.sub_diag.
Qed.

Lemma map_new_spec {K V} (ks ds : Z) (cmp : K -> K -> map_cmp_t) :
  0 <= ks < 2 ^ 64 -> 0 <= ds < 2 ^ 64 ->
  match @map_new K V ks ds cmp with
  | Some m => m = mk_map NULL ks ds 0 cmp /\ 0 < ks /\ 0 < ds /\ ks + ds <= SIZE_MAX / 4
  | None => ks = 0 \/ ds = 0 \/ SIZE_MAX / 4 - sizeof_map_node_t < ks + ds
  end.
Proof.
  intros Hk Hd. unfold map_new. rewrite size_max_quarter. unfold sizeof_map_node_t.
  destruct (Z.eqb_spec ks 0); [by left|]. destruct (Z.eqb_spec ds 0); [by right; left|]. cbn [orb].
  destruct (Z.ltb_spec (2 ^ 62 - 1) ks); cbn [orb]; [lia|].
  destruct (Z.ltb_spec (2 ^ 62 - 1) ds); cbn [orb]; [lia|].
  assert (E : u64 (ks + ds) = ks + ds) by (apply Z.mod_small; lia). rewrite E.
  destruct (Z.ltb_spec (2 ^ 62 - 1 - 32) (ks + ds)); [lia|]. split; [done|lia].
Qed.

(** * The map as a finite map *)

Section Refine.
Context {K V : Type} `{Countable K}.
Implicit Types (m : map_t K V).

(** The finite map a map stands for. *)
Definition contents (m : map_t K V) : gmap K V := list_to_map (inorder m.(root)).

Record map_ok (m : map_t K V) : Prop := {
  ok_cmp : Comparator m.(comparator);
  ok_balanced : balanced m.(root);
  ok_ascending : ascending m.(comparator) (inorder m.(root));
  ok_size : m.(Map.size) = Z.of_nat (length (inorder m.(root)));
  ok_bound : m.(Map.size) <= SIZE_MAX;
  ok_layout : 0 < m.(key_size) /\ 0 < m.(data_size) /\ m.(key_size) + m.(data_size) <= SIZE_MAX / 4;
}.

Lemma ascending_nodup (cmp : K -> K -> map_cmp_t) `{!Comparator cmp} (L : list (K * V)) :
  ascending cmp L -> NoDup L.*1.
Proof.
  unfold ascending. induction 1 as [|k l Hs IH Hall]; constructor; [|done].
  intros Hin. rewrite list.Forall_forall in Hall. by apply (lt_irrefl cmp k), Hall.
Qed.

Lemma contents_mid (L1 L2 : list (K * V)) (k : K) (v : V) :
  NoDup (L1 ++ (k, v) :: L2).*1 ->
  list_to_map (L1 ++ (k, v) :: L2) = <[k := v]> (list_to_map (L1 ++ L2) : gmap K V) /\
  (list_to_map (L1 ++ L2) : gmap K V) !! k = None.
Proof.
  intros Hn. split.
  - rewrite !list_to_map_app. cbn [list_to_map foldr]. cbn. rewrite <- insert_union_r; [done|].
    apply not_elem_of_list_to_map_1. rewrite fmap_app, NoDup_app in Hn. destruct Hn as (_ & Hd & _).
    intros Hin. apply (Hd k Hin). by left.
  - apply not_elem_of_list_to_map_1. rewrite fmap_app, fmap_cons in *. cbn [fst] in Hn.
    rewrite <- Permutation_middle, NoDup_cons in Hn. apply Hn.
Qed.

Lemma found_iff m (k : K) :
  map_ok m ->
  match map_find m k with
  | Some k' => k' = k /\ map_iter_value m (Some k) = contents m !! k /\ is_Some (contents m !! k)
  | None => contents m !! k = None
  end.
Proof.
  intros [Hcmp Hb Ha Hs Hbd Hl]. unfold map_find, map_iter_value, contents.
  pose proof (node_find_spec m.(comparator) k m.(root) Ha) as Hf.
  destruct (node_find _ k _) as [|c l k' v r] eqn:E; cbn [iter_at].
  - by apply not_elem_of_list_to_map_1.
  - destruct Hf as (-> & A & B & Hi & _). split; [done|]. cbv beta iota.
    assert (Hlk : (list_to_map (inorder m.(root)) : gmap K V) !! k = Some v).
    { apply elem_of_list_to_map_1; [by apply (ascending_nodup m.(comparator))|]. rewrite Hi. cbn [inorder].
      rewrite !elem_of_app, elem_of_cons. tauto. }
    by rewrite Hlk.
Qed.

Lemma insert_refines m (k : K) (v : V) :
  map_ok m -> m.(Map.size) < SIZE_MAX ->
  exists m', map_insert m k v = Some (bool_decide (contents m !! k = None), m') /\ map_ok m' /\
    contents m' = match contents m !! k with Some _ => contents m | None => <[k := v]> (contents m) end.
Proof.
  intros Hok Hsz. pose proof Hok as [Hcmp [h Hb] Ha Hs Hbd Hl]. unfold map_insert.
  assert (Hf : fits [] m.(root) RB_BLACK h) by (exists false; split_and!; [constructor|done|done]).
  pose proof (insert_unique_spec m.(comparator) (RB_MAX_DEPTH - 1) k m.(root) [] RB_BLACK h Hf Ha
    (below_nil _ k) (above_nil _ k) (depth_fits _ _ Hb ltac:(lia))) as Hu.
  destruct (rb_insert_unique _ _ _ _ _) as [| |path]; [|done|].
  - assert (is_Some (contents m !! k)) as [w Hw].
    { apply list_elem_of_fmap in Hu as ([k' w] & -> & Hin). exists w.
      apply elem_of_list_to_map_1; [by apply (ascending_nodup m.(comparator))|done]. }
    exists m. rewrite Hw. by rewrite bool_decide_false.
  - destruct Hu as (b & Hc & Hi & Hbl & Hab). cbn [before after app] in Hi. rewrite app_nil_r in Hi.
    destruct Hl as (Hk & Hd & Hkd). destruct (layout_fits _ _ Hk Hd Hkd) as (off & tot & -> & _).
    assert (Hr : rising (map_create_node k v) 0 b) by (apply (rising_rb _ RB_RED); repeat constructor).
    destruct (fixup_repairs path _ 0 b Hc Hr) as (t & -> & Hbal & Ht). cbn [map_create_node inorder app] in Ht.
    assert (Hin : inorder (rb_node_set_black t) = before path ++ (k, v) :: after path)
      by (rewrite <- Ht; by destruct t).
    assert (Hasc : ascending m.(comparator) (before path ++ (k, v) :: after path))
      by (apply ascending_mid; rewrite Hi; by split).
    destruct (contents_mid _ _ _ _ (ascending_nodup m.(comparator) _ Hasc)) as [Hmid Hnone].
    rewrite Hi in Hmid, Hnone. fold (contents m) in Hmid, Hnone. rewrite Hnone, bool_decide_true by done.
    eexists. split; [done|]. split; [|unfold contents at 1; cbn [root]; by rewrite Hin].
    assert (Hn : u64 (m.(Map.size) + 1) = m.(Map.size) + 1) by (apply Z.mod_small; unfold SIZE_MAX in *; lia).
    constructor; cbn [root comparator Map.size key_size data_size]; [done|done|by rewrite Hin| |lia|done].
    rewrite Hn, Hin, length_app. cbn [length]. rewrite Hs, <- Hi, length_app. lia.
Qed.

Lemma erase_refines m (k : K) :
  map_ok m -> exists m', map_erase m (map_find m k) = Some m' /\ map_ok m' /\
    contents m' = delete k (contents m).
Proof.
  intros Hok. pose proof (found_iff m k Hok) as Hfi. unfold map_erase.
  destruct (map_find m k) as [k'|]; [|exists m; split; [done|]; split; [done|by rewrite delete_id]].
  destruct Hfi as (-> & _ & [w Hw]). destruct Hok as [Hcmp Hb Ha Hs Hbd Hl].
  assert (Hin : k ∈ (inorder m.(root)).*1).
  { apply elem_of_list_to_map_2 in Hw. apply list_elem_of_fmap. by exists (k, w). }
  destruct (remove_spec m.(comparator) m.(root) k Hb Ha Hin) as (L1 & v & L2 & Hi & t & Ht & Hbal & Hi').
  rewrite Hi in Ha, Hs. rewrite length_app in Hs. cbn [length] in Hs.
  replace (m.(Map.size) =? 0) with false by (symmetry; apply Z.eqb_neq; lia). rewrite Ht.
  replace (0 <? m.(Map.size)) with true by (symmetry; apply Z.ltb_lt; lia).
  eexists. split; [done|]. destruct (contents_mid _ _ _ _ (ascending_nodup m.(comparator) _ Ha)) as [Hmid Hnone].
  apply ascending_mid in Ha as (Ha & _ & _). split.
  - constructor; cbn [root comparator Map.size key_size data_size]; [done|done|by rewrite Hi'| |lia|done].
    rewrite Hi', length_app, Hs. lia.
  - unfold contents. cbn [root]. rewrite Hi', Hi, Hmid. by rewrite delete_insert_id.
Qed.

Lemma size_refines m : map_ok m -> map_size m = Z.of_nat (base.size (contents m)).
Proof.
  intros [Hcmp Hb Ha Hs Hbd Hl]. unfold map_size, contents. rewrite Hs. f_equal.
  rewrite map_size_list_to_map by (by apply (ascending_nodup m.(comparator))). done.
Qed.

Lemma empty_refines m : map_ok m -> map_empty m = bool_decide (contents m = ∅).
Proof.
  intros _. unfold map_empty, contents. destruct (root m) as [|c l k v r]; [by rewrite bool_decide_true|].
  rewrite bool_decide_false; [done|]. intros E. apply (f_equal (lookup k)) in E. rewrite lookup_empty in E.
  apply not_elem_of_list_to_map_2 in E. apply E. cbn [inorder].
  rewrite fmap_app, fmap_cons, elem_of_app, elem_of_cons. tauto.
Qed.
End Refine.

(** * Sequences of operations *)

Section Runs.
Context {K V : Type} `{Countable K}.

Inductive map_op : Type :=
| op_insert (k : K) (v : V)
| op_find (k : K)
| op_erase (k : K) (* map_find and map_erase *)
| op_clear
| op_size
| op_empty.

Inductive map_result : Type :=
| r_bool (b : bool)
| r_value (v : option V)
| r_size (n : Z)
| r_none.

Definition map_step (m : map_t K V) (o : map_op) : option (map_result * map_t K V) :=
  match o with
  | op_insert k v => let? (b, m) := map_insert m k v in Some (r_bool b, m)
  | op_find k => Some (r_value (map_iter_value m (map_find m k)), m)
  | op_erase k => let? m := map_erase m (map_find m k) in Some (r_none, m)
  | op_clear => Some (r_none, map_clear m)
  | op_size => Some (r_size (map_size m), m)
  | op_empty => Some (r_bool (map_empty m), m)
  end.

(** The same operation on a finite map. *)
Definition spec_step (s : gmap K V) (o : map_op) : map_result * gmap K V :=
  match o with
  | op_insert k v => match s !! k with Some _ => (r_bool false, s) | None => (r_bool true, <[k := v]> s) end
  | op_find k => (r_value (s !! k), s)
  | op_erase k => (r_none, delete k s)
  | op_clear => (r_none, ∅)
  | op_size => (r_size (Z.of_nat (base.size s)), s)
  | op_empty => (r_bool (bool_decide (s = ∅)), s)
  end.

Fixpoint map_run (m : map_t K V) (ops : list map_op) : option (list map_result * map_t K V) :=
  match ops with
  | [] => Some ([], m)
  | o :: ops =>
      let? (r, m) := map_step m o in
      let? (rs, m) := map_run m ops in
      Some (r :: rs, m)
  end.

Fixpoint spec_run (s : gmap K V) (ops : list map_op) : list map_result * gmap K V :=
  match ops with
  | [] => ([], s)
  | o :: ops =>
      let '(r, s) := spec_step s o in
      let '(rs, s) := spec_run s ops in
      (r :: rs, s)
  end.

Lemma value_refines (m : map_t K V) (k : K) :
  map_ok m -> map_iter_value m (map_find m k) = contents m !! k.
Proof.
  intros Hok. pose proof (found_iff m k Hok) as Hf. destruct (map_find m k) as [k'|].
  - by destruct Hf as (-> & Hv & _).
  - by rewrite Hf.
Qed.

Lemma clear_ok (m : map_t K V) : map_ok m -> map_ok (map_clear m) /\ contents (map_clear m) = ∅.
Proof.
  intros [Hcmp Hb Ha Hs Hbd Hl]. split; [|done]. constructor; try done.
  - exists 0%nat. constructor.
  - constructor.
Qed.

Lemma step_refines (m : map_t K V) (o : map_op) :
  map_ok m -> m.(Map.size) < SIZE_MAX ->
  exists r m', map_step m o = Some (r, m') /\ map_ok m' /\ spec_step (contents m) o = (r, contents m') /\
    m'.(Map.size) <= m.(Map.size) + 1.
Proof.
  intros Hok Hsz. destruct o as [k v|k|k| | |]; cbn [map_step spec_step].
  - destruct (insert_refines m k v Hok Hsz) as (m' & -> & Hok' & Hc). do 2 eexists. split; [done|].
    split; [done|]. rewrite Hc. pose proof (size_refines m Hok) as Hs. pose proof (size_refines m' Hok') as Hs'.
    unfold map_size in *. rewrite Hs, Hs', Hc. destruct (contents m !! k) eqn:E.
    + rewrite bool_decide_false by done. split; [done|lia].
    + rewrite bool_decide_true by done. split; [done|]. rewrite map_size_insert_None by done. lia.
  - do 2 eexists. split; [done|]. split; [done|]. split; [by rewrite value_refines|lia].
  - destruct (erase_refines m k Hok) as (m' & -> & Hok' & Hc). do 2 eexists. split; [done|].
    split; [done|]. rewrite Hc. split; [done|].
    pose proof (size_refines m Hok) as Hs. pose proof (size_refines m' Hok') as Hs'.
    unfold map_size in *. rewrite Hs, Hs', Hc. apply Z.le_trans with (Z.of_nat (base.size (contents m))); [|lia].
    apply Nat2Z.inj_le, map_subseteq_size, delete_subseteq.
  - destruct (clear_ok m Hok) as [Hok' Hc]. do 2 eexists. split; [done|]. split; [done|]. rewrite Hc.
    split; [done|]. cbn. destruct Hok as [_ _ _ -> _ _]. lia.
  - do 2 eexists. split; [done|]. split; [done|]. split; [by rewrite size_refines|lia].
  - do 2 eexists. split; [done|]. split; [done|]. split; [by rewrite empty_refines|lia].
Qed.

Lemma run_refines (ops : list map_op) (m : map_t K V) :
  map_ok m -> m.(Map.size) + Z.of_nat (length ops) <= SIZE_MAX ->
  exists rs m', map_run m ops = Some (rs, m') /\ map_ok m' /\ spec_run (contents m) ops = (rs, contents m') /\
    m'.(Map.size) <= m.(Map.size) + Z.of_nat (length ops).
Proof.
  revert m. induction ops as [|o ops IH]; intros m Hok Hsz; cbn [map_run spec_run length] in *.
  { do 2 eexists. split_and!; [done|done|done|lia]. }
  destruct (step_refines m o Hok ltac:(lia)) as (r & m1 & -> & Hok1 & -> & Hs1).
  destruct (IH m1 Hok1 ltac:(lia)) as (rs & m' & -> & Hok' & -> & Hs'). do 2 eexists.
  split_and!; [done|done|done|lia].
Qed.

Lemma new_ok (ks ds : Z) (cmp : K -> K -> map_cmp_t) (m : map_t K V) :
  0 <= ks < 2 ^ 64 -> 0 <= ds < 2 ^ 64 -> Comparator cmp -> map_new ks ds cmp = Some m ->
  map_ok m /\ m.(Map.size) = 0 /\ contents m = ∅.
Proof.
  intros Hk Hd Hc Hm. pose proof (map_new_spec (V := V) ks ds cmp Hk Hd) as Hn. rewrite Hm in Hn.
  destruct Hn as (-> & ? & ? & ?). split; [|done].
  constructor; try done; [exists 0%nat; constructor|constructor].
Qed.

(** C10. The red-black map implements a finite map.  A map created for an
    admissible key and data size and a comparison function that is a total
    order answers any sequence of insertions, lookups, removals, clearings,
    size and emptiness queries (fewer than the largest [size_t]) like a finite
    map: insertion of a present key is refused, no assertion fails, no null
    pointer is followed, and the array for the search path is long enough. *)
Theorem map_refines (ks ds : Z) (cmp : K -> K -> map_cmp_t) (m : map_t K V) (ops : list map_op) :
  0 <= ks < 2 ^ 64 -> 0 <= ds < 2 ^ 64 -> Comparator cmp -> map_new ks ds cmp = Some m ->
  Z.of_nat (length ops) <= SIZE_MAX ->
  exists rs m', map_run m ops = Some (rs, m') /\ spec_run ∅ ops = (rs, contents m').
Proof.
  intros Hk Hd Hc Hm Hl. destruct (new_ok ks ds cmp m Hk Hd Hc Hm) as (Hok & Hs & He).
  destruct (run_refines ops m Hok ltac:(lia)) as (rs & m' & E & _ & Es & _). rewrite He in Es. by do 2 eexists.
Qed.
End Runs.

Arguments map_op : clear implicits.

(** An insertion, a duplicate, a removal and lookups with 32-bit keys. *)
Lemma map_refines_witness :
  let ops := [op_insert 5 50; op_insert 3 30; op_insert 9 90; op_insert 3 31; op_find 3; op_erase 3;
              op_find 3; op_size] in
  exists m m', @map_new Z Z 4 8 map_cmp_uint = Some m /\
    map_run m ops = Some ([r_bool true; r_bool true; r_bool true; r_bool false; r_value (Some 30); r_none;
                           r_value None; r_size 2], m').
Proof.
  intros ops. destruct (@map_new Z Z 4 8 map_cmp_uint) as [m|] eqn:E; [|vm_compute in E; discriminate E].
  destruct (map_refines (V := Z) 4 8 map_cmp_uint m ops ltac:(lia) ltac:(lia) _ E ltac:(vm_compute; done))
    as (rs & m' & Hr & Hs).
  exists m, m'. split; [done|]. rewrite Hr. f_equal. f_equal.
  assert (Es : (spec_run ∅ ops).1 = [r_bool true; r_bool true; r_bool true; r_bool false; r_value (Some 30);
    r_none; r_value None; r_size 2]) by (by vm_compute).
  by rewrite Hs in Es.
Defined.

(** * Depth *)

Section Depth.
Context {K V : Type} `{Countable K}.

(** The number of nodes on the longest path. *)
Fixpoint depth (t : map_node_t K V) : nat :=
  match t with NULL => 0 | node _ l _ _ r => S (Nat.max (depth l) (depth r)) end.

Lemma rb_depth (t : map_node_t K V) (c : map_color_t) (h : nat) : rb t c h -> (depth t <= weight c h)%nat.
Proof.
  unfold weight. induction 1 as [|c l r k v h Hl IHl Hr IHr|l r k v h Hl IHl Hr IHr]; cbn [depth];
    [lia|destruct c; lia|lia].
Qed.

(** C27. The tree stays balanced: after any sequence of operations the number of
    nodes on a path from the root is at most [2 log2 (n + 1)], where [n] is the
    number of entries, so that a search takes logarithmic time and fits into
    [path[]]. *)
Theorem map_depth_bound (ks ds : Z) (cmp : K -> K -> map_cmp_t) (m m' : map_t K V)
    (ops : list (map_op K V)) (rs : list map_result) :
  0 <= ks < 2 ^ 64 -> 0 <= ds < 2 ^ 64 -> Comparator cmp -> map_new ks ds cmp = Some m ->
  Z.of_nat (length ops) < SIZE_MAX -> map_run m ops = Some (rs, m') ->
  Z.of_nat (depth m'.(root)) <= 2 * Z.log2 (map_size m' + 1) /\ (depth m'.(root) < RB_MAX_DEPTH - 1)%nat.
Proof.
  intros Hk Hd Hc Hm Hl Hrun. destruct (new_ok ks ds cmp m Hk Hd Hc Hm) as (Hok & Hs & He).
  destruct (run_refines ops m Hok ltac:(lia)) as (rs' & m1 & E & [_ [h Hb] _ Hs1 _ _] & _ & Hsz).
  rewrite Hrun in E. injection E as <- <-. pose proof (rb_depth _ _ _ Hb) as Hd'.
  pose proof (depth_fits _ _ Hb ltac:(lia)). split; [|lia].
  pose proof (rb_count _ _ _ Hb) as Hn. unfold weight in Hd'. unfold map_size. rewrite Hs1.
  assert (Z.of_nat h <= Z.log2 (Z.of_nat (length (inorder (root m'))) + 1)); [|lia].
  apply Z.log2_le_pow2; [lia|]. change 2 with (Z.of_nat 2). rewrite <- Nat2Z.inj_pow. lia.
Qed.
End Depth.

Lemma map_depth_bound_witness :
  let ops := [op_insert 1 0; op_insert 2 0; op_insert 3 0; op_insert 4 0; op_insert 5 0; op_insert 6 0] in
  exists m m' rs, @map_new Z Z 4 8 map_cmp_uint = Some m /\ map_run m ops = Some (rs, m') /\
    Z.of_nat (depth m'.(root)) <= 2 * Z.log2 (map_size m' + 1).
Proof.
  intros ops. destruct (@map_new Z Z 4 8 map_cmp_uint) as [m|] eqn:E; [|vm_compute in E; discriminate E].
  destruct (map_run m ops) as [[rs m']|] eqn:Er.
  - exists m, m', rs. split; [done|]. split; [done|].
    apply (map_depth_bound 4 8 map_cmp_uint m m' ops rs ltac:(lia) ltac:(lia) _ E ltac:(by vm_compute) Er).
  - exfalso. vm_compute in E. apply Some_inj in E. rewrite <- E in Er. vm_compute in Er. discriminate Er.
Defined.

(** * Iteration *)

Section Iterate.
Context {K V : Type} `{Countable K}.

Definition keys (m : map_t K V) : list K := (inorder m.(root)).*1.

Lemma first_key (m : map_t K V) : map_first m = head (keys m).
Proof. unfold map_first, keys. rewrite leftmost_spec. by destruct (inorder (root m)) as [|[]]. Qed.

Lemma last_key (m : map_t K V) : map_last m = last (keys m).
Proof.
  unfold map_last, keys. rewrite rightmost_spec. unfold last_or. rewrite fmap_last.
  by destruct (last _) as [[]|].
Qed.

Lemma split_unique (k : K) (v v' : V) (L1 A L2 B : list (K * V)) :
  NoDup (L1 ++ (k, v) :: L2).*1 -> L1 ++ (k, v) :: L2 = A ++ (k, v') :: B -> L1 = A /\ L2 = B.
Proof.
  revert A. induction L1 as [|[a w] L1 IH]; intros [|[a' w'] A] Hn E; cbn in E; simplify_eq.
  - done.
  - exfalso. cbn in Hn. apply NoDup_cons in Hn as [Hn _]. apply Hn.
    rewrite fmap_app, fmap_cons, elem_of_app, elem_of_cons. tauto.
  - exfalso. cbn in Hn. apply NoDup_cons in Hn as [Hn _]. apply Hn.
    rewrite fmap_app, fmap_cons, elem_of_app, elem_of_cons. tauto.
  - cbn in Hn. apply NoDup_cons in Hn as [_ Hn]. destruct (IH A Hn) as [-> ->]; [congruence|done].
Qed.

(** The neighbours of an entry. *)
Lemma neighbours (m : map_t K V) (L1 L2 : list (K * V)) (k : K) (v : V) :
  map_ok m -> inorder m.(root) = L1 ++ (k, v) :: L2 ->
  map_next m (Some k) = head L2.*1 /\ map_prev m (Some k) = last L1.*1.
Proof.
  intros [Hcmp Hb Ha Hs Hbd Hl] Hi. unfold map_next, map_prev.
  pose proof (node_find_spec m.(comparator) k m.(root) Ha) as Hf.
  destruct (node_find _ k _) as [|c l k' v' r].
  { exfalso. apply Hf. rewrite Hi, fmap_app, fmap_cons, elem_of_app, elem_of_cons. tauto. }
  destruct Hf as (-> & A & B & Hi' & Hsu & Hpr). rewrite Hi in Ha.
  assert (L1 = A ++ inorder l /\ L2 = inorder r ++ B) as [-> ->].
  { apply (split_unique k v v'); [by apply (ascending_nodup m.(comparator))|].
    rewrite <- Hi, Hi'. cbn [inorder]. by rewrite <- !app_assoc. }
  split.
  - destruct r as [|rc rl rk rv rr]; [rewrite Hsu; by destruct B as [|[]]|].
    rewrite leftmost_spec. cbn [inorder]. by destruct (inorder rl) as [|[]].
  - destruct l as [|lc ll lk lv lr].
    + rewrite Hpr. cbn [inorder]. rewrite app_nil_r. unfold last_or. rewrite fmap_last. by destruct (last A) as [[]|].
    + rewrite rightmost_spec. unfold last_or. rewrite fmap_last, last_app. cbn [inorder].
      rewrite !last_app, !last_cons. by destruct (last (inorder lr)) as [[]|].
Qed.

(** Stepping through a list with a successor function. *)
Lemma walk (f : option K -> option K) (s : option K) (l : list K) :
  s = head l -> f None = None -> (forall l1 k l2, l = l1 ++ k :: l2 -> f (Some k) = head l2) ->
  forall i, Nat.iter i f s = l !! i.
Proof.
  intros -> Hn Hf. induction i as [|i IH]; [apply head_lookup|]. change (f (Nat.iter i f (head l)) = l !! S i). rewrite IH.
  destruct (l !! i) as [k|] eqn:E.
  - rewrite (Hf _ _ _ (symmetry (take_drop_middle _ _ _ E))), head_lookup, lookup_drop. f_equal. lia.
  - rewrite Hn. symmetry. apply lookup_ge_None. apply lookup_ge_None in E. lia.
Qed.

Lemma key_entry (m : map_t K V) (l1 l2 : list K) (k : K) :
  keys m = l1 ++ k :: l2 ->
  exists L1 v L2, inorder m.(root) = L1 ++ (k, v) :: L2 /\ l1 = L1.*1 /\ l2 = L2.*1.
Proof.
  unfold keys. intros E. apply fmap_app_inv in E as (L1 & L' & -> & E & ->).
  destruct L' as [|[k' v] L2]; [done|]. cbn in E. simplify_eq. by exists L1, v, L2.
Qed.

(** Iteration enumerates the map in key order: stepping with [map_next] from
    [map_first] visits exactly the keys in the map, ascending, and then ends,
    and [map_prev] from [map_last] visits them descending. *)
Theorem map_iterates (m : map_t K V) :
  map_ok m ->
  (forall i, Nat.iter i (map_next m) (map_first m) = keys m !! i) /\
  (forall i, Nat.iter i (map_prev m) (map_last m) = reverse (keys m) !! i) /\
  StronglySorted (lt m.(comparator)) (keys m) /\
  (forall k, k ∈ keys m <-> is_Some (contents m !! k)).
Proof.
  intros Hok. split_and!.
  - apply walk; [apply first_key|done|]. intros l1 k l2 (L1 & v & L2 & Hi & -> & ->)%key_entry.
    by apply (neighbours m L1 L2 k v).
  - apply walk; [by rewrite head_reverse, last_key|done|]. intros l1 k l2 E.
    apply (f_equal reverse) in E. rewrite reverse_involutive, reverse_app, reverse_cons, <- app_assoc in E.
    apply key_entry in E as (L1 & v & L2 & Hi & E1 & _). rewrite <- last_reverse, E1.
    by apply (neighbours m L1 L2 k v).
  - apply Hok.
  - intros k. unfold contents. rewrite <- not_eq_None_Some. split.
    + intros Hin E. by apply not_elem_of_list_to_map_2 in E.
    + intros Hne. destruct (decide (k ∈ keys m)); [done|]. destruct Hne.
      by apply not_elem_of_list_to_map_1.
Qed.
End Iterate.

(** Three keys inserted out of order. *)
Lemma map_iterates_witness :
  exists m : map_t Z Z, map_ok m /\ keys m = [1; 4; 7] /\
    (forall i, Nat.iter i (map_next m) (map_first m) = [1; 4; 7] !! i).
Proof.
  destruct (@map_new Z Z 4 8 map_cmp_uint) as [m0|] eqn:E; [|vm_compute in E; discriminate E].
  destruct (new_ok (V := Z) 4 8 map_cmp_uint m0 ltac:(lia) ltac:(lia) _ E) as (Hok & Hs & _).
  set (ops := [op_insert 4 0; op_insert 7 0; op_insert 1 0]).
  destruct (run_refines ops m0 Hok ltac:(rewrite Hs; by vm_compute)) as (rs & m & Hr & Hok' & _).
  exists m. assert (Hk : keys m = [1; 4; 7]).
  { vm_compute in E. apply Some_inj in E. rewrite <- E in Hr. vm_compute in Hr. apply Some_inj in Hr.
    injection Hr as _ <-. done. }
  split; [done|]. split; [done|]. intros i. rewrite <- Hk. apply (map_iterates m Hok').
Defined.

(** * Allocation *)

(** The sizes [map_new] lets through cannot overflow later: for every map it
    returns, [map_create_node] allocates one block in which the node header,
    the key and the aligned data follow each other without overlap, and refuses
    no insertion for its size. *)
Lemma map_allocation_bounds {K V} (ks ds : Z) (cmp : K -> K -> map_cmp_t) (m : map_t K V) :
  0 <= ks < 2 ^ 64 -> 0 <= ds < 2 ^ 64 -> map_new ks ds cmp = Some m ->
  exists data_offset total, node_layout m.(key_size) m.(data_size) = Some (sizeof_map_node_t, data_offset, total) /\
    sizeof_map_node_t + ks <= data_offset < sizeof_map_node_t + ks + 8 /\ data_offset mod 8 = 0 /\
    total = data_offset + ds /\ total <= SIZE_MAX.
Proof.
  intros Hk Hd Hm. pose proof (map_new_spec (V := V) ks ds cmp Hk Hd) as Hn. rewrite Hm in Hn.
  destruct Hn as (-> & H1 & H2 & H3). exact (layout_fits ks ds H1 H2 H3).
Qed.
