(* ===== verification/Debug.v ===== *)
(** Debugging support: the breakpoint map of breakpoint.c, the single step
    [rv_step_debug] of emulate.c and the operations gdbstub.c offers to the GDB
    server. *)

From stdpp Require Import base list option numbers gmap.
From Stdlib Require Import ZArith Lia Bool.
From S2P Require Import Prelude Bits Insn Decode Mem State Trap Csr Fp Alu Exec Map.
#[local] Open Scope Z_scope.

(** * Breakpoints *)

Record breakpoint_t : Type := mk_breakpoint {
  addr : Z; (* riscv_word_t *)
  orig_insn : Z; (* uint32_t *)
}.

Definition breakpoint_map_t : Type := map_t Z breakpoint_t.

Definition cmp (a b : Z) : map_cmp_t :=
  if a <? b then MAP_CMP_LESS else if a >? b then MAP_CMP_GREATER else MAP_CMP_EQUAL.

Definition breakpoint_map_new : option breakpoint_map_t := map_new 4 8 cmp.

Definition breakpoint_map_insert (map : breakpoint_map_t) (addr : Z) : option (bool * breakpoint_map_t) :=
  let bp := mk_breakpoint addr 0 in
  if negb (map_at_end (map_find map addr)) then Some (false, map) else map_insert map addr bp.

Definition breakpoint_map_find_it (map : breakpoint_map_t) (addr : Z) : bool * map_iter_t :=
  let it := map_find map addr in
  (negb (map_at_end it), it).

(** [map_iter_value(&it, breakpoint_t * )] reads a pointer out of the eight bytes
    of the stored [breakpoint_t]; the result is that pointer, 0 for [NULL]. *)
Definition breakpoint_map_find (map : breakpoint_map_t) (addr : Z) : option Z :=
  let (ok, it) := breakpoint_map_find_it map addr in
  if negb ok then Some 0
  else
    let? bp := map_iter_value map it in
    Some (bp.(Debug.addr) + 2 ^ 32 * bp.(orig_insn)).

Definition breakpoint_map_del (map : breakpoint_map_t) (addr : Z) : option (bool * breakpoint_map_t) :=
  let (ok, it) := breakpoint_map_find_it map addr in
  if negb ok then Some (false, map)
  else
    let? map := map_erase map it in
    Some (true, map).

(** * The debugged machine *)

Record debugger : Type := mk_debugger {
  rv : riscv;
  exit_addr : Z; (* of vm_attr_t *)
  on_exit : bool; (* of vm_attr_t *)
  breakpoint_map : breakpoint_map_t; (* of struct riscv_internal *)
  is_interrupted : bool; (* of struct riscv_internal *)
}.

Definition set_rv (r : riscv) (d : debugger) : debugger :=
  mk_debugger r d.(exit_addr) d.(on_exit) d.(breakpoint_map) d.(is_interrupted).
Definition set_on_exit (b : bool) (d : debugger) : debugger :=
  mk_debugger d.(rv) d.(exit_addr) b d.(breakpoint_map) d.(is_interrupted).
Definition set_breakpoint_map (m : breakpoint_map_t) (d : debugger) : debugger :=
  mk_debugger d.(rv) d.(exit_addr) d.(on_exit) m d.(is_interrupted).
Definition set_is_interrupted (b : bool) (d : debugger) : debugger :=
  mk_debugger d.(rv) d.(exit_addr) d.(on_exit) d.(breakpoint_map) b.

Section Debug.
Context `{HostClock} `{Syscall} `{SoftFloat}.

(** The state after the only handler of a step.  In debug mode an indirect jump
    skips the branch history table and returns; [ir] has no chained successor. *)
Definition returned (o : outcome) : option riscv :=
  match o with
  | Exit rv _ => Some rv
  | Next rv c p | Lookup rv c p => Some (set_PC p (set_csr_cycle c rv))
  | Jump _ _ _ _ | Undef => None
  end.

Definition rv_step_debug (d : debugger) : option debugger :=
  let r := d.(rv) in
  let d := if r.(PC) =? d.(exit_addr) then set_on_exit true d else d in
  let? insn := memory_ifetch r.(mem) r.(PC) in
  if insn =? 0 then Some d
  else
    let? (ok, ir) := decode insn in
    if negb ok then
      let r := set_compressed (is_compressed insn) r in
      let? r := SET_CAUSE_AND_TVAL_THEN_TRAP ILLEGAL_INSN insn r in
      Some (set_rv r d)
    else
      let ir := set_pc r.(PC) (set_impl (dispatch_table ir.(opcode)) ir) in
      let? r := returned (exec_irs [ir] r r.(csr_cycle) r.(PC)) in
      Some (set_rv r d).

(** * The operations of the GDB server *)

(** [None] is [EFAULT]. *)
Definition rv_read_reg (d : debugger) (regno : Z) : option Z :=
  if 32 <? regno then None
  else Some (if regno =? 32 then rv_get_pc d.(rv) else rv_get_reg d.(rv) (u32 regno)).

Definition rv_write_reg (d : debugger) (regno data : Z) : option debugger :=
  if 32 <? regno then None
  else Some (if regno =? 32 then set_rv (rv_set_pc d.(rv) data).2 d
             else set_rv (rv_set_reg d.(rv) (u32 regno) data) d).

Definition rv_read_mem (d : debugger) (addr len : Z) : option (list Z) :=
  mapM (fun i => memory_read_b d.(rv).(mem) (u32 (addr + i))) (seqZ 0 len).

Definition rv_write_mem (d : debugger) (addr : Z) (val : list Z) : option debugger :=
  let? m := foldl (fun m '(i, v) => let? m := m in memory_write_b m (u32 (addr + Z.of_nat i)) v)
              (Some d.(rv).(mem)) (imap pair val) in
  Some (set_rv (set_mem m d.(rv)) d).

Definition rv_is_interrupt (d : debugger) : bool := d.(is_interrupted).

(** [interrupts n] says whether another thread sets [is_interrupted] between
    the previous test of the loop and its [n]-th one; the flag is cleared when
    the loop is left. *)
Fixpoint rv_cont (fuel : nat) (interrupts : nat -> bool) (n : nat) (d : debugger) : option debugger :=
  match fuel with
  | O => None
  | S fuel =>
      let d := if interrupts n then set_is_interrupted true d else d in
      if rv_has_halted d.(rv) || rv_is_interrupt d then Some (set_is_interrupted false d)
      else
        let? bp := breakpoint_map_find d.(breakpoint_map) (rv_get_pc d.(rv)) in
        if truthy bp then Some (set_is_interrupted false d)
        else
          let? d := rv_step_debug d in
          rv_cont fuel interrupts (S n) d
  end.

Definition rv_stepi (d : debugger) : option debugger := rv_step_debug d.
End Debug.

Inductive bp_type_t : Type := BP_SOFTWARE | BP_OTHER.

(** [addr] is a [size_t]; the map takes a [riscv_word_t]. *)
Definition rv_set_bp (d : debugger) (addr : Z) (type : bp_type_t) : option (bool * debugger) :=
  match type with
  | BP_SOFTWARE =>
      let? (b, m) := breakpoint_map_insert d.(breakpoint_map) (u32 addr) in
      Some (b, set_breakpoint_map m d)
  | BP_OTHER => Some (false, d)
  end.

Definition rv_del_bp (d : debugger) (addr : Z) (type : bp_type_t) : option (bool * debugger) :=
  match type with
  | BP_SOFTWARE =>
      let? (_, m) := breakpoint_map_del d.(breakpoint_map) (u32 addr) in
      Some (true, set_breakpoint_map m d)
  | BP_OTHER => Some (false, d)
  end.
