(* ===== verification/DebugSpec.v ===== *)
(** Debugging: single steps are steps of the ISA, and continuing stops at the
    first breakpoint. *)

From stdpp Require Import base list option numbers gmap.
From Stdlib Require Import ZArith Lia Bool.
From S2P Require Import Prelude Bits Insn Decode DecodeSpec DecodeWf Mem MemSpec State Trap Csr Fp Alu.
From S2P Require Import AluSpec Exec Samples Isa IsaValues IsaRefine DecodeExec ExecWf Equiv Frame.
From S2P Require Import Constopt Fusion Block BlockSpec ConstoptSpec Map MapSpec MapRefine Debug.
#[local] Open Scope Z_scope.

(** * Unchained instructions do not jump to another handler *)

Definition jumpless (o : outcome) : Prop := match o with Jump _ _ _ _ => False | _ => True end.

Lemma access_jumpless (a m cause : Z) (c : bool) (rv : riscv) (cycle pc : Z) (k : riscv -> outcome) :
  (forall r, jumpless (k r)) -> jumpless (access a m cause c rv cycle pc k).
Proof. intros Hk. unfold access, exc_misaligned. repeat case_match; try exact I; done. Qed.

Section Jumpless.
Context `{HostClock} `{Syscall} `{SoftFloat}.

Ltac jumpless_access := apply access_jumpless; intros r; cbv beta zeta; repeat case_match; exact I.

Lemma code_jumpless (o : opcode_t) (rv : riscv) (ir : rv_insn_t) (cycle pc : Z) :
  ir.(branch_taken) = None -> ir.(branch_untaken) = None -> jumpless (code_of o rv ir cycle pc).
Proof.
  intros Ht Hu. destruct o; cbn [code_of]; try exact I; try jumpless_access.
  all: try (cbv delta [code_jal code_beq code_bne code_blt code_bge code_bltu code_bgeu code_cj code_cjal
      code_cbeqz code_cbnez BRANCH_FUNC cbranch chain]; cbv beta zeta; rewrite ?Ht, ?Hu;
    repeat case_match; exact I).
  all: cbv delta [code_lb code_lbu code_sb code_slli code_srli code_srai shift_func code_ecall code_ebreak
      code_cebreak code_csrrw code_csrrs code_csrrc code_csrrwi code_csrrsi code_csrrci csr_op code_rol
      code_ror code_rori fp_op code_fmadds code_fmsubs code_fnmsubs code_fnmadds code_fadds code_fsubs
      code_fmuls code_fdivs code_fsqrts code_fmins code_fmaxs minmax code_fcvtws code_fcvtwus code_feqs
      code_flts code_fles fp_cmp code_fcvtsw code_fcvtswu code_mret code_csrli code_csrai code_cslli write_rd
      code_sextb code_sexth sext];
    cbv beta zeta; try jumpless_access; repeat case_match; exact I.
Qed.

Lemma exec_jumpless (rv : riscv) (ir : rv_insn_t) (cycle pc : Z) :
  ir.(impl) = ir.(opcode) -> is_fused ir.(opcode) = false ->
  ir.(branch_taken) = None -> ir.(branch_untaken) = None -> jumpless (exec_ir rv ir cycle pc).
Proof.
  intros Hi Hf Ht Hu. unfold exec_ir. rewrite Hi, do_insn_plain by done. unfold rvop. cbv zeta.
  pose proof (code_jumpless (opcode ir) (count_insn (opcode ir) (rv_trace_record cycle pc RV_TRACE_INSN 0 rv)) ir
    (u64 (cycle + 1)) pc Ht Hu) as Hj.
  by destruct (code_of _ _ _ _ _).
Qed.
End Jumpless.

(** * Single steps *)

Lemma isa_exec_pc (ir : rv_insn_t) (p : Z) (s : arch) : isa_exec (set_pc p ir) s = isa_exec ir s.
Proof. destruct ir as [im r1 r2 r3 op sh rm0 i2 f p0 im0 bt bu bb]. destruct op; reflexivity. Qed.

Lemma executable_pc (rv : riscv) (ir : rv_insn_t) (p : Z) : executable rv (set_pc p ir) = executable rv ir.
Proof. destruct ir as [im r1 r2 r3 op sh rm0 i2 f p0 im0 bt bu bb]. destruct op; reflexivity. Qed.

Section Step.
Context `{HostClock} `{Syscall} `{SoftFloat}.

(** What a handler that does not chain returns to its caller. *)
Lemma returned_reaches (rv : riscv) (ir : rv_insn_t) (cycle pc : Z) (s : arch) :
  jumpless (exec_ir rv ir cycle pc) -> reaches (exec_ir rv ir cycle pc) s ->
  exists r, returned (exec_irs [ir] rv cycle pc) = Some r /\ arch_of r r.(PC) ≡ s.
Proof.
  intros Hj (r & p & Hl & Hs). cbn [exec_irs].
  destruct (exec_ir rv ir cycle pc) as [r' c' p'|r' b|r' c' p' t|r' c' p'|]; try done; cbn in Hl;
    injection Hl as <- <-; eexists; (split; [reflexivity|]); exact Hs.
Qed.

(** A debugger step is a step of the ISA: when the word at the program
    counter decodes to an instruction of RV32IMC with Zba, Zbb, Zbc or Zbs that
    can run, [rv_step_debug] returns with exactly the registers, memory and
    program counter of one architectural step; it notes when the program
    counter was the exit address and leaves the breakpoints alone. *)
Theorem debug_step_refines (d : debugger) (insn : Z) (ir : rv_insn_t) (s : arch) :
  riscv_wf d.(rv) -> xreg d.(rv) 0 = 0 ->
  memory_ifetch d.(rv).(mem) d.(rv).(PC) = Some insn -> insn <> 0 -> decode insn = Some (true, ir) ->
  runtime_ok d.(rv) ir = true -> isa_exec ir (arch_of d.(rv) d.(rv).(PC)) = Some s ->
  exists r, rv_step_debug d = Some (mk_debugger r d.(exit_addr)
      (d.(on_exit) || (d.(rv).(PC) =? d.(exit_addr))) d.(breakpoint_map) d.(is_interrupted)) /\
    arch_of r r.(PC) ≡ s.
Proof.
  intros Hwf Hx Hfe Hnz Hd Hr Hs.
  assert (Hi : is_u32 insn) by (eapply (checked_load_u32 4); [apply Hwf|lia|exact Hfe]).
  pose proof (decode_regs _ _ Hi Hd) as Hregs. pose proof (decoded_plain _ _ Hi Hd) as Hp.
  pose proof (decode_branch_rd _ _ Hd) as (_ & Ht & Hu).
  set (ir' := set_pc d.(rv).(PC) (set_impl (dispatch_table ir.(opcode)) ir)).
  destruct (returned_reaches d.(rv) ir' d.(rv).(csr_cycle) d.(rv).(PC) s) as (r & E & Hr').
  - by apply exec_jumpless.
  - apply exec_ir_refines; [done|done|exact Hregs|done| |].
    + unfold ir'. rewrite executable_pc, executable_impl. eapply executable_split; [exact Hs| |exact Hr].
      by eapply decode_static.
    + unfold ir'. by rewrite isa_exec_pc, isa_exec_impl.
  - exists r. split; [|exact Hr']. unfold rv_step_debug. rewrite Hfe.
    replace (insn =? 0) with false by (symmetry; by apply Z.eqb_neq). rewrite Hd. cbn [negb].
    fold ir'. rewrite E. unfold set_rv, set_on_exit. destruct (PC (rv d) =? exit_addr d); cbn;
      by rewrite ?orb_true_r, ?orb_false_r.
Qed.
End Step.

(** [addi a0, x0, 5] at address 0. *)
Lemma debug_step_refines_witness :
  let d := mk_debugger (hart_running [0x00500513]) 0 false (mk_map NULL 4 8 0 cmp) false in
  exists r, @rv_step_debug stopped_clock no_syscall nan_unit d
    = Some (mk_debugger r 0 true (mk_map NULL 4 8 0 cmp) false) /\ xreg r 10 = 5 /\ r.(PC) = 4.
Proof.
  intros d. destruct (decode 0x00500513) as [[[] ir]|] eqn:E; [|vm_compute in E; discriminate E..].
  destruct (isa_exec ir (arch_of d.(rv) d.(rv).(PC))) as [s|] eqn:Es;
    [|vm_compute in E; injection E as <-; vm_compute in Es; discriminate Es].
  destruct (@debug_step_refines stopped_clock no_syscall nan_unit d 0x00500513 ir s) as (r & Hr & Ha);
    [apply hart_running_wf|reflexivity|by vm_compute|done|done| |done|].
  { vm_compute in E. injection E as <-. by vm_compute. }
  exists r. split; [exact Hr|]. destruct Ha as (Hreg & Hpc & _).
  vm_compute in E. injection E as <-. cbn in Es. apply Some_inj in Es. split.
  - change (a_reg (arch_of r r.(PC)) 10 = 5). rewrite (Hreg 10) by lia. by rewrite <- Es.
  - change (a_pc (arch_of r r.(PC)) = 4). rewrite Hpc. by rewrite <- Es.
Defined.

(** * Breakpoints *)

Lemma cmp_map_cmp (a b : Z) : cmp a b = map_cmp_int a b.
Proof.
  rewrite map_cmp_int_spec. unfold cmp. destruct (Z.ltb_spec a b), (Z.gtb_spec a b), (Z.eqb_spec a b); reflexivity || lia.
Qed.

#[export] Instance cmp_comparator : Comparator cmp.
Proof.
  constructor; intros a b; rewrite ?cmp_map_cmp; [apply cmp_equal|apply cmp_greater|].
  intros c. rewrite !cmp_map_cmp. apply cmp_trans.
Qed.

(** The map holds the breakpoints of a set of addresses. *)
Definition represents (m : breakpoint_map_t) (S : gset Z) : Prop :=
  map_ok m /\ forall a, contents m !! a = if decide (a ∈ S) then Some (mk_breakpoint a 0) else None.

Lemma breakpoint_new : exists m, breakpoint_map_new = Some m /\ represents m ∅ /\ m.(Map.size) = 0.
Proof.
  destruct breakpoint_map_new as [m|] eqn:E; [|by vm_compute in E].
  destruct (new_ok (V := breakpoint_t) 4 8 cmp m ltac:(lia) ltac:(lia) _ E) as (Hok & Hs & Hc).
  exists m. split; [done|]. split; [|done]. split; [done|]. intros a. by rewrite Hc.
Qed.

Section Breakpoints.
Context (m : breakpoint_map_t) (S : gset Z) (Hm : represents m S).

Lemma find_iff (a : Z) : map_at_end (map_find m a) = negb (bool_decide (a ∈ S)).
Proof.
  destruct Hm as [Hok Hc]. pose proof (found_iff m a Hok) as Hf. rewrite (Hc a) in Hf.
  destruct (map_find m a) as [k|], (decide (a ∈ S)); cbn.
  - by rewrite bool_decide_true.
  - destruct Hf as (_ & _ & [w Hw]). done.
  - done.
  - by rewrite bool_decide_false.
Qed.

Lemma breakpoint_insert (a : Z) :
  m.(Map.size) < SIZE_MAX ->
  exists m', breakpoint_map_insert m a = Some (bool_decide (a ∉ S), m') /\ represents m' ({[a]} ∪ S).
Proof.
  intros Hs. destruct Hm as [Hok Hc]. unfold breakpoint_map_insert. rewrite find_iff, negb_involutive.
  destruct (decide (a ∈ S)) as [Hin|Hin].
  - rewrite bool_decide_true by done. exists m. split; [by rewrite bool_decide_false by (by intros ?)|].
    by replace ({[a]} ∪ S) with S by set_solver.
  - rewrite bool_decide_false by done.
    destruct (insert_refines m a (mk_breakpoint a 0) Hok Hs) as (m' & -> & Hok' & Hc').
    rewrite (Hc a), (decide_False (P := a ∈ S)) in Hc' |- * by done.
    exists m'. split; [by rewrite !bool_decide_true|]. split; [done|]. intros b. rewrite Hc'.
    destruct (decide (b = a)) as [->|Hne].
    + rewrite lookup_insert_eq, decide_True by set_solver. done.
    + rewrite lookup_insert_ne by done. rewrite Hc. apply decide_ext. set_solver.
Qed.

Lemma breakpoint_del (a : Z) :
  exists m', breakpoint_map_del m a = Some (bool_decide (a ∈ S), m') /\ represents m' (S ∖ {[a]}).
Proof.
  destruct Hm as [Hok Hc]. unfold breakpoint_map_del, breakpoint_map_find_it. rewrite find_iff.
  destruct (decide (a ∈ S)) as [Hin|Hin].
  - rewrite !bool_decide_true by done. cbn [negb].
    destruct (erase_refines m a Hok) as (m' & -> & Hok' & Hc'). exists m'. split; [done|]. split; [done|].
    intros b. rewrite Hc'. destruct (decide (b = a)) as [->|Hne].
    + rewrite lookup_delete_eq, decide_False by set_solver. done.
    + rewrite lookup_delete_ne by done. rewrite Hc. apply decide_ext. set_solver.
  - rewrite !bool_decide_false by done. exists m. split; [done|].
    by replace (S ∖ {[a]}) with S by set_solver.
Qed.

(** Away from address 0 the lookup finds exactly the breakpoints of the set. *)
Lemma breakpoint_find (a : Z) :
  0 ∉ S -> exists p, breakpoint_map_find m a = Some p /\ truthy p = bool_decide (a ∈ S).
Proof.
  intros H0. destruct Hm as [Hok Hc]. unfold breakpoint_map_find, breakpoint_map_find_it. rewrite find_iff.
  destruct (decide (a ∈ S)) as [Hin|Hin].
  - rewrite (bool_decide_true (a ∈ S)) by done. cbn [negb]. rewrite value_refines, (Hc a), decide_True by done.
    eexists. split; [done|]. cbn [addr orig_insn]. unfold truthy. replace (a + 2 ^ 32 * 0) with a by lia.
    by destruct (Z.eqb_spec a 0) as [->|].
  - rewrite (bool_decide_false (a ∈ S)) by done. by exists 0.
Qed.

(** A breakpoint at address 0 is never found, set or not. *)
Lemma breakpoint_find_0 : breakpoint_map_find m 0 = Some 0.
Proof.
  destruct Hm as [Hok Hc]. unfold breakpoint_map_find, breakpoint_map_find_it. rewrite find_iff.
  destruct (decide (0 ∈ S)) as [Hin|Hin]; [|by rewrite bool_decide_false].
  rewrite bool_decide_true by done. cbn [negb]. by rewrite value_refines, (Hc 0), decide_True.
Qed.
End Breakpoints.

(** * Continuing *)

Section Cont.
Context `{HostClock} `{Syscall} `{SoftFloat}.

(** [k] debugger steps. *)
Fixpoint debug_steps (k : nat) (d : debugger) : option debugger :=
  match k with
  | O => Some d
  | S k => let? d := rv_step_debug d in debug_steps k d
  end.

(** Where a debugger must stop: the hart has halted, another thread has
    interrupted, or the program counter is at a breakpoint. *)
Definition must_stop (S : gset Z) (interrupts : nat -> bool) (n : nat) (d : debugger) : bool :=
  rv_has_halted d.(rv) || (d.(is_interrupted) || interrupts n) || bool_decide (d.(rv).(PC) ∈ S).

Lemma step_keeps_breakpoints (d d' : debugger) :
  rv_step_debug d = Some d' -> d'.(breakpoint_map) = d.(breakpoint_map).
Proof.
  unfold rv_step_debug, set_rv, set_on_exit. cbv zeta.
  repeat (case_match; try discriminate); intros [= <-]; done.
Qed.

Lemma rv_cont_unfold (S : gset Z) (fuel : nat) (interrupts : nat -> bool) (n : nat) (d : debugger) :
  represents d.(breakpoint_map) S -> 0 ∉ S ->
  rv_cont (Datatypes.S fuel) interrupts n d =
  if must_stop S interrupts n d then Some (set_is_interrupted false d)
  else let? d := rv_step_debug d in rv_cont fuel interrupts (Datatypes.S n) d.
Proof.
  intros Hm Hz. cbn [rv_cont]. unfold must_stop, rv_get_pc, rv_is_interrupt. cbv zeta.
  destruct (breakpoint_find _ _ Hm (PC (rv d)) Hz) as (p & Hf & Ht).
  destruct (interrupts n); cbn [set_is_interrupted rv is_interrupted breakpoint_map].
  { by rewrite !orb_true_r. }
  rewrite orb_false_r. destruct (rv_has_halted (rv d) || is_interrupted d); [done|]. cbn [orb].
  rewrite Hf, Ht. by destruct (bool_decide _).
Qed.

(** C14. Continuing runs to the first stop: with breakpoints set exactly at the
    addresses in [S], none of them 0, [rv_cont] returns precisely when some
    number of debugger steps leads to a state where a debugger must stop, and
    then it returns the first such state with the interrupt flag cleared; it
    never runs past a breakpoint. *)
Theorem rv_cont_correct (S : gset Z) (interrupts : nat -> bool) (fuel n : nat) (d d' : debugger) :
  represents d.(breakpoint_map) S -> 0 ∉ S ->
  rv_cont fuel interrupts n d = Some d' <->
  exists k dk, (k < fuel)%nat /\ debug_steps k d = Some dk /\ d' = set_is_interrupted false dk /\
    must_stop S interrupts (n + k) dk = true /\
    forall j dj, (j < k)%nat -> debug_steps j d = Some dj -> must_stop S interrupts (n + j) dj = false.
Proof.
  intros Hm Hz. revert n d Hm. induction fuel as [|fuel IH]; intros n d Hm.
  { split; [done|]. intros (k & dk & ? & _). lia. }
  rewrite (rv_cont_unfold S) by done. destruct (must_stop S interrupts n d) eqn:Hst.
  - split.
    + intros [= <-]. exists 0%nat, d. rewrite Nat.add_0_r. split_and!; [lia|done|done|done|intros; lia].
    + intros ([|k] & dk & _ & Hk & -> & _ & Hall); [by injection Hk as ->|].
      specialize (Hall 0%nat d ltac:(lia) eq_refl). rewrite Nat.add_0_r in Hall. congruence.
  - destruct (rv_step_debug d) as [d1|] eqn:E.
    + assert (Hm1 : represents d1.(breakpoint_map) S) by (by rewrite (step_keeps_breakpoints _ _ E)).
      rewrite (IH (Datatypes.S n) d1 Hm1). split.
      * intros (k & dk & Hk & Hd & -> & Hs & Hall). exists (Datatypes.S k), dk. cbn [debug_steps].
        rewrite E, <- plus_n_Sm. split_and!; [lia|done|done|done|]. intros [|j] dj Hj Hdj.
        { injection Hdj as <-. by rewrite Nat.add_0_r. }
        cbn [debug_steps] in Hdj. rewrite E in Hdj. rewrite <- plus_n_Sm. apply Hall; [lia|done].
      * intros ([|k] & dk & Hk & Hd & -> & Hs & Hall); cbn [debug_steps] in Hd.
        { injection Hd as <-. rewrite Nat.add_0_r in Hs. congruence. }
        rewrite E in Hd. exists k, dk. rewrite <- plus_n_Sm in Hs. split_and!; [lia|done|done|done|].
        intros j dj Hj Hdj. specialize (Hall (Datatypes.S j) dj ltac:(lia)). cbn [debug_steps] in Hall.
        rewrite E, <- plus_n_Sm in Hall. by apply Hall.
    + split; [done|]. intros ([|k] & dk & Hk & Hd & -> & Hs & Hall); cbn [debug_steps] in Hd.
      * injection Hd as <-. rewrite Nat.add_0_r in Hs. congruence.
      * by rewrite E in Hd.
Qed.
End Cont.

(** Three instructions and a breakpoint on the third. *)
Definition bp_at (a : Z) : breakpoint_map_t :=
  default (mk_map NULL 4 8 0 cmp)
    (let? m := breakpoint_map_new in let? (_, m) := breakpoint_map_insert m a in Some m).

Lemma bp_at_represents (a : Z) : represents (bp_at a) {[a]}.
Proof.
  unfold bp_at. destruct breakpoint_new as (m0 & -> & H0 & Hs0).
  destruct (breakpoint_insert m0 ∅ H0 a ltac:(rewrite Hs0; by vm_compute)) as (m & -> & Hm).
  by replace ({[a]} ∪ ∅) with ({[a]} : gset Z) in Hm by set_solver.
Qed.

Definition bp_debugger (a : Z) : debugger :=
  mk_debugger (hart_running [0x00500513; 0x00150513; 0x00150513]) 100 false (bp_at a) false.

(** Program counter, a0 and the stop conditions after [k] steps. *)
Definition bp_observe (k : nat) : option (Z * Z * bool * bool) :=
  let? d := @debug_steps stopped_clock no_syscall nan_unit k (bp_debugger 8) in
  Some (d.(rv).(PC), xreg d.(rv) 10, rv_has_halted d.(rv), d.(is_interrupted)).

Lemma rv_cont_correct_witness :
  exists d', @rv_cont stopped_clock no_syscall nan_unit 10 (fun _ => false) 0 (bp_debugger 8) = Some d' /\
    d'.(rv).(PC) = 8 /\ xreg d'.(rv) 10 = 6.
Proof.
  assert (Hb : forall a, bool_decide (a ∈ ({[8]} : gset Z)) = (a =? 8)).
  { intros a. destruct (Z.eqb_spec a 8) as [->|Hne]; [by rewrite bool_decide_true by set_solver|].
    by rewrite bool_decide_false by set_solver. }
  assert (H0 : bp_observe 0 = Some (0, 0, false, false)) by (by vm_compute).
  assert (H1 : bp_observe 1 = Some (4, 5, false, false)) by (by vm_compute).
  assert (H2 : bp_observe 2 = Some (8, 6, false, false)) by (by vm_compute). unfold bp_observe in *.
  destruct (@debug_steps stopped_clock no_syscall nan_unit 2 (bp_debugger 8)) as [dk|] eqn:Ed; [|discriminate H2].
  injection H2 as Hp Ha Hh Hi. exists (set_is_interrupted false dk). split; [|done].
  apply (@rv_cont_correct stopped_clock no_syscall nan_unit {[8]} (fun _ => false) 10 0 (bp_debugger 8) _
           (bp_at_represents 8)); [set_solver|].
  exists 2%nat, dk. split_and!; [lia|exact Ed|done| |].
  - unfold must_stop. by rewrite Hb, Hp, Hh, Hi.
  - intros j dj Hj Hdj. unfold must_stop. destruct j as [|[|j]]; [| |lia].
    + rewrite Hdj in H0. injection H0 as Hp0 _ -> ->. by rewrite Hb, Hp0.
    + rewrite Hdj in H1. injection H1 as Hp1 _ -> ->. by rewrite Hb, Hp1.
Defined.

(** A breakpoint at address 0 does not stop a program that starts there: with
    the breakpoint set and the program counter on it, continuing runs on until
    the interrupt that arrives after two instructions. *)
Example breakpoint_at_0_missed :
  represents (bp_debugger 0).(breakpoint_map) {[0]} /\ (bp_debugger 0).(rv).(PC) = 0 /\
  (let? d := @rv_cont stopped_clock no_syscall nan_unit 10 (Nat.eqb 2) 0 (bp_debugger 0) in
   Some (d.(rv).(PC), d.(is_interrupted))) = Some (8, false).
Proof. split; [apply bp_at_represents|]. split; by vm_compute. Qed.
