(* ===== verification/HashSet.v ===== *)
(** The fixed-size hash set [set_t] of utils.c: buckets of slots filled from the
    left, a zero marks the end of a bucket. It refines a finite set of keys. *)

From stdpp Require Import base list option numbers gmap fin_sets.
From Stdlib Require Import ZArith Lia Bool.
From S2P Require Import Prelude Bits.
#[local] Open Scope Z_scope.

Definition SET_SIZE_BITS : Z := 10.
Definition SET_SIZE : Z := 1 ≪ SET_SIZE_BITS.
Definition SET_SLOTS_SIZE : nat := 32.

(** [table[SET_SIZE][SET_SLOTS_SIZE]] *)
Definition set_t : Type := list (list Z).

(** [HASH_FUNC_IMPL(set_hash, ...)] on [uint32_t], as in builds without SYSTEM. *)
Definition set_hash (val : Z) : Z := (u32 (val * 0x61C88647) ≫ (32 - SET_SIZE_BITS)) .& (SET_SIZE - 1).

Definition set_reset : set_t := replicate (Z.to_nat SET_SIZE) (replicate SET_SLOTS_SIZE 0).

(** What the loop over a bucket finds: the key, or the first free slot. The loop
    condition reads slot [count] before the assertion on [count]: slot
    [SET_SLOTS_SIZE] is outside the bucket, [None]. *)
Fixpoint scan (row : list Z) (key : Z) (count : nat) : option (bool * nat) :=
  match row with
  | [] => None
  | k :: row =>
      if k =? 0 then Some (false, count)
      else if k =? key then Some (true, count)
      else scan row key (S count)
  end.

Definition set_add (set : set_t) (key : Z) : option (set_t * bool) :=
  let index := Z.to_nat (set_hash key) in
  let? row := set !! index in
  let? (found, count) := scan row key 0 in
  if found : bool then Some (set, false)
  else Some (<[index := <[count := key]> row]> set, true).

Definition set_has (set : set_t) (key : Z) : option bool :=
  let? row := set !! Z.to_nat (set_hash key) in
  let? (found, _) := scan row key 0 in
  Some found.

(** * Refinement *)

(** A bucket: its keys, then free slots. *)
Record row_repr (S : gset Z) (i : nat) (row l : list Z) : Prop := {
  rr_row : row = l ++ replicate (SET_SLOTS_SIZE - length l) 0;
  rr_length : (length l <= SET_SLOTS_SIZE)%nat;
  rr_nodup : NoDup l;
  rr_keys : forall k, k ∈ l <-> k ∈ S /\ Z.to_nat (set_hash k) = i }.

Record set_repr (s : set_t) (S : gset Z) : Prop := {
  sr_length : length s = Z.to_nat SET_SIZE;
  sr_nonzero : 0 ∉ S;
  sr_rows : forall i row, s !! i = Some row -> exists l, row_repr S i row l }.

(** The keys that share the bucket of [key]. *)
Definition bucket (S : gset Z) (key : Z) : gset Z := filter (fun k => set_hash k = set_hash key) S.

Lemma set_hash_range (key : Z) : 0 <= set_hash key < SET_SIZE.
Proof.
  unfold set_hash, SET_SIZE, SET_SIZE_BITS. change ((1 ≪ 10) - 1) with (Z.ones 10).
  rewrite Z.land_ones by done.
  change (1 ≪ 10) with (2 ^ 10). by apply Z.mod_pos_bound.
Qed.

Lemma hash_index (a b : Z) : Z.to_nat (set_hash a) = Z.to_nat (set_hash b) <-> set_hash a = set_hash b.
Proof. pose proof (set_hash_range a). pose proof (set_hash_range b). lia. Qed.

Lemma set_row (s : set_t) (S : gset Z) (key : Z) :
  set_repr s S -> exists row l, s !! Z.to_nat (set_hash key) = Some row /\ row_repr S (Z.to_nat (set_hash key)) row l.
Proof.
  intros [Hl _ Hr]. pose proof (set_hash_range key).
  destruct (lookup_lt_is_Some_2 s (Z.to_nat (set_hash key)) ltac:(lia)) as [row E].
  destruct (Hr _ _ E) as [l Hrow]. eauto.
Qed.

Lemma scan_spec (l : list Z) (key : Z) (k count : nat) :
  0 ∉ l -> key <> 0 -> (0 < k)%nat \/ key ∈ l ->
  exists c, scan (l ++ replicate k 0) key count = Some (bool_decide (key ∈ l), c) /\
            (key ∉ l -> c = (count + length l)%nat).
Proof.
  intros H0 Hk. revert count. induction l as [|a l IH]; intros count Hr; cbn [app scan].
  { destruct Hr as [Hr|Hr%elem_of_nil]; [|done]. destruct k; [lia|]. cbn.
    exists count. rewrite bool_decide_eq_false_2 by apply not_elem_of_nil. split; [done|lia]. }
  apply not_elem_of_cons in H0 as [Ha H0]. rewrite (proj2 (Z.eqb_neq a 0)) by done.
  destruct (Z.eqb_spec a key) as [->|Hne].
  { exists count. rewrite bool_decide_eq_true_2 by constructor. split; [done|]. intros []. constructor. }
  destruct (IH H0 (S count)) as (c & -> & Hc).
  { destruct Hr as [|Hr]; [by left|]. apply elem_of_cons in Hr as [->|]; [done|by right]. }
  exists c. split.
  - do 2 f_equal. apply bool_decide_ext. rewrite elem_of_cons. naive_solver.
  - intros Hn. rewrite Hc by (by intros ?; apply Hn; constructor). cbn. lia.
Qed.

Lemma row_room (S : gset Z) (row l : list Z) (key : Z) :
  row_repr S (Z.to_nat (set_hash key)) row l -> length l = size (bucket S key).
Proof.
  intros [_ _ Hd Hk]. rewrite <- (size_list_to_set (C := gset Z) l Hd). f_equal. unfold bucket.
  apply set_eq. intros k. rewrite elem_of_list_to_set, Hk, elem_of_filter, hash_index. naive_solver.
Qed.

Lemma row_nonzero (S : gset Z) (i : nat) (row l : list Z) : row_repr S i row l -> 0 ∉ S -> 0 ∉ l.
Proof. intros [_ _ _ Hk] H0 [H _]%Hk. done. Qed.

Lemma row_elem (S : gset Z) (row l : list Z) (key : Z) :
  row_repr S (Z.to_nat (set_hash key)) row l -> key ∈ l <-> key ∈ S.
Proof. intros [_ _ _ Hk]. rewrite Hk. tauto. Qed.

(** Writing a new key into the first free slot. *)
Lemma row_insert (S : gset Z) (row l : list Z) (key : Z) :
  row_repr S (Z.to_nat (set_hash key)) row l -> key ∉ l -> (length l < SET_SLOTS_SIZE)%nat ->
  row_repr ({[key]} ∪ S) (Z.to_nat (set_hash key)) (<[length l := key]> row) (l ++ [key]).
Proof.
  intros [-> Hl Hd Hk] Hn Hlt. constructor.
  - rewrite length_app. cbn [length]. replace (SET_SLOTS_SIZE - length l)%nat with (1 + (SET_SLOTS_SIZE - (length l + 1)))%nat by lia.
    cbn [Nat.add replicate]. rewrite <- (Nat.add_0_r (length l)) at 1. rewrite insert_app_r. cbn. by rewrite <- app_assoc.
  - rewrite length_app. cbn. lia.
  - apply NoDup_app. split; [done|]. split; [|apply NoDup_singleton].
    intros x Hx ->%list_elem_of_singleton. done.
  - intros k. rewrite elem_of_app, list_elem_of_singleton, Hk, elem_of_union, elem_of_singleton. naive_solver.
Qed.

Lemma row_other (S : gset Z) (row l : list Z) (key : Z) (i : nat) :
  row_repr S i row l -> i <> Z.to_nat (set_hash key) -> row_repr ({[key]} ∪ S) i row l.
Proof.
  intros [-> Hl Hd Hk] Hi. constructor; try done. intros k. rewrite Hk, elem_of_union, elem_of_singleton.
  naive_solver.
Qed.

Lemma set_reset_repr : set_repr set_reset ∅.
Proof.
  unfold set_reset. constructor; [by rewrite length_replicate|set_solver|].
  intros i row [-> _]%lookup_replicate_1. exists []. constructor; [done|cbn; lia|constructor|]. set_solver.
Qed.

(** C28. The hash set refines a finite set of keys. A reset set is empty; for a set that represents [S] and
    a key other than zero whose bucket has a free slot or holds the key already, [set_has] decides
    membership, and [set_add] returns whether the key is new and leaves a set that represents [S] with it.
    Only when 32 other keys share the bucket do both read past its end. *)
Theorem set_refines (s : set_t) (S : gset Z) (key : Z) :
  set_repr s S -> key <> 0 ->
  set_repr set_reset ∅ /\
  (key ∈ S \/ (size (bucket S key) < SET_SLOTS_SIZE)%nat ->
     set_has s key = Some (bool_decide (key ∈ S)) /\
     exists s', set_add s key = Some (s', bool_decide (key ∉ S)) /\ set_repr s' ({[key]} ∪ S)) /\
  (key ∉ S -> size (bucket S key) = SET_SLOTS_SIZE -> set_has s key = None /\ set_add s key = None).
Proof.
  intros HR Hk. split; [apply set_reset_repr|].
  destruct (set_row s S key HR) as (row & l & Erow & Hrow). pose proof HR as [Hlen H0 Hrows].
  pose proof (row_nonzero _ _ _ _ Hrow H0) as Hl0. pose proof (row_room _ _ _ _ Hrow) as Hsz.
  pose proof (row_elem _ _ _ _ Hrow) as Hel. unfold set_has, set_add. rewrite Erow. cbv zeta.
  rewrite <- Hsz. rewrite (rr_row _ _ _ _ Hrow). split.
  - intros Hroom. rewrite <- Hel in Hroom.
    destruct (scan_spec l key (SET_SLOTS_SIZE - length l) 0 Hl0 Hk) as (c & -> & Hc).
    { destruct Hroom; [by right|left; lia]. }
    split; [f_equal; by apply bool_decide_ext|]. case_bool_decide as Hin.
    + rewrite bool_decide_eq_false_2 by (rewrite <- Hel; tauto). eexists. split; [done|].
      rewrite subseteq_union_1_L; [done|]. by apply singleton_subseteq_l, Hel.
    + rewrite bool_decide_eq_true_2 by (by rewrite <- Hel). eexists. split; [done|].
      rewrite (Hc Hin), <- (rr_row _ _ _ _ Hrow). constructor.
      * etransitivity; [exact (length_insert (A := list Z) s _ _)|done].
      * apply not_elem_of_union. by rewrite not_elem_of_singleton.
      * intros i row' Ei. apply (list_lookup_insert_Some (A := list Z) s) in Ei as [(<- & <- & _)|[Hne Ei]].
        { exists (l ++ [key]). apply row_insert; [done|done|]. destruct Hroom; [done|lia]. }
        { destruct (Hrows _ _ Ei) as [l' Hl']. exists l'. apply row_other; [done|congruence]. }
  - intros Hn Hfull. rewrite Hfull, Nat.sub_diag, app_nil_r.
    assert (Hs : forall c, scan l key c = None).
    { rewrite <- Hel in Hn. clear - Hl0 Hn. induction l as [|a l IH]; intros c; [done|]. cbn.
      apply not_elem_of_cons in Hl0 as [Ha H0]. apply not_elem_of_cons in Hn as [Hb Hn].
      rewrite (proj2 (Z.eqb_neq a 0)), (proj2 (Z.eqb_neq a key)) by done. by apply IH. }
    by rewrite Hs.
Qed.

Lemma set_refines_witness :
  exists s', set_add set_reset 0x10074 = Some (s', bool_decide (0x10074 ∉ (∅ : gset Z))) /\
             set_repr s' ({[0x10074]} ∪ ∅).
Proof.
  destruct (set_refines set_reset ∅ 0x10074) as (_ & H & _); [apply set_reset_repr|done|].
  apply H. right. apply Nat.ltb_lt. by vm_compute.
Defined.

(** Key 0 is never recorded: a slot that holds it is free. *)
Lemma set_zero_lost : exists s, set_add set_reset 0 = Some (s, true) /\ set_has s 0 = Some false.
Proof. eexists. split; [by vm_compute|by vm_compute]. Qed.
