(* ===== verification/Path.v ===== *)
(** The lexical path cleaner [sanitize_path] of utils.c.

    A C string is the list of its bytes before the terminator; the buffer
    [ret] is a list of [n + 1] bytes, and a write past its end is [None]. *)

From stdpp Require Import base list option numbers.
From Stdlib Require Import ZArith Lia Bool.
From S2P Require Import Prelude Bits.
#[local] Open Scope Z_scope.

(** * sanitize_path *)

Definition MAX_PATH_LEN : nat := 1024.

Definition slash : Z := 47. (* '/' *)
Definition dot : Z := 46. (* '.' *)

(** [ret[w] = c]. *)
Definition put_byte (ret : list Z) (w : nat) (c : Z) : option (list Z) :=
  if (w <? length ret)%nat then Some (<[w := c]> ret) else None.

(** [input[r]] for [r < n]; 0 past the end of the string. *)
Definition byte_at (input : list Z) (r : nat) : Z := default 0 (input !! r).

(** [while (w > dotdot && ret[w] != '/') w--]. *)
Fixpoint backtrack (ret : list Z) (dotdot w : nat) : nat :=
  match w with
  | O => O
  | S w' =>
      if (dotdot <? w)%nat && negb (byte_at ret w =? slash) then backtrack ret dotdot w' else w
  end.

(** [for (; r < n && input[r] != '/'; r++) { ret[w] = input[r]; w++; }] *)
Fixpoint copy_element (fuel : nat) (input : list Z) (n : nat) (ret : list Z) (w r : nat)
  : option (list Z * nat * nat) :=
  match fuel with
  | O => None
  | S fuel =>
      if (r <? n)%nat && negb (byte_at input r =? slash) then
        let? ret := put_byte ret w (byte_at input r) in
        copy_element fuel input n ret (S w) (S r)
      else Some (ret, w, r)
  end.

(** The main loop: the buffer and the length written when [r] reaches [n]. *)
Fixpoint sanitize_loop (fuel : nat) (input : list Z) (n : nat) (is_root : bool)
    (ret : list Z) (w r dotdot : nat) : option (list Z * nat) :=
  match fuel with
  | O => None
  | S fuel =>
      if (r <? n)%nat then
        let c := byte_at input r in
        if c =? slash then
          (* empty path element *)
          sanitize_loop fuel input n is_root ret w (S r) dotdot
        else if (c =? dot) && ((r + 1 =? n)%nat || (byte_at input (r + 1) =? slash)) then
          (* . element *)
          sanitize_loop fuel input n is_root ret w (S r) dotdot
        else if (c =? dot) && (byte_at input (r + 1) =? dot)
                && ((r + 2 =? n)%nat || (byte_at input (r + 2) =? slash)) then
          (* .. element: remove to last '/' *)
          let r := (r + 2)%nat in
          if (dotdot <? w)%nat then
            let w := backtrack ret dotdot (w - 1) in
            sanitize_loop fuel input n is_root ret w r dotdot
          else if negb is_root then
            let? (ret, w) :=
              if (0 <? w)%nat then let? ret := put_byte ret w slash in Some (ret, S w)
              else Some (ret, w) in
            let? ret := put_byte ret w dot in
            let w := S w in
            let? ret := put_byte ret w dot in
            let w := S w in
            sanitize_loop fuel input n is_root ret w r w
          else sanitize_loop fuel input n is_root ret w r dotdot
        else
          (* real path element, add slash if needed *)
          let? (ret, w) :=
            if (is_root && negb (w =? 1)%nat) || (negb is_root && negb (w =? 0)%nat)
            then let? ret := put_byte ret w slash in Some (ret, S w)
            else Some (ret, w) in
          let? (ret, w, r) := copy_element (S n) input n ret w r in
          sanitize_loop fuel input n is_root ret w r dotdot
      else Some (ret, w)
  end.

(** The buffer returned: [n + 1] bytes. *)
Definition sanitize_path (input : list Z) : option (list Z) :=
  let n := Nat.min (length input) MAX_PATH_LEN in (* strnlen *)
  let ret := replicate (n + 1) 0 in
  if (n =? 0)%nat then put_byte ret 0 dot
  else
    let is_root := byte_at input 0 =? slash in
    let? (ret, w, r, dotdot) :=
      if is_root then let? ret := put_byte ret 0 slash in Some (ret, 1%nat, 1%nat, 1%nat)
      else Some (ret, 0%nat, 0%nat, 0%nat) in
    let? (ret, w) := sanitize_loop (S n) input n is_root ret w r dotdot in
    (* turn empty string into "." *)
    let? (ret, w) :=
      if (w =? 0)%nat then let? ret := put_byte ret w dot in Some (ret, S w) else Some (ret, w) in
    (* memset(ret + w, 0, n + 1 - w) *)
    Some (take w ret ++ replicate (n + 1 - w) 0).

(** The string a buffer holds: the bytes before the first 0, if there is one. *)
Fixpoint c_string (buf : list Z) : option (list Z) :=
  match buf with
  | [] => None
  | b :: buf => if b =? 0 then Some [] else let? s := c_string buf in Some (b :: s)
  end.
