(* ===== verification/PathSpec.v ===== *)
(** [sanitize_path] computes the lexical normal form of a path, within its
    buffer. *)

From stdpp Require Import base list option numbers.
From Stdlib Require Import ZArith Lia Bool.
From S2P Require Import Prelude Bits Path.
#[local] Open Scope Z_scope.

(** * Specification *)

(** The first path element and the rest. *)
Fixpoint break (s : list Z) : list Z * list Z :=
  match s with
  | [] => ([], [])
  | c :: s' => if c =? slash then ([], s) else let (e, t) := break s' in (c :: e, t)
  end.

(** All pieces between slashes, and those that are not empty. *)
Fixpoint split (s : list Z) : list (list Z) :=
  match s with
  | [] => [[]]
  | c :: s' =>
      if c =? slash then [] :: split s'
      else match split s' with [] => [[c]] | e :: es => (c :: e) :: es end
  end.

Definition elements (s : list Z) : list (list Z) := filter (fun e => e <> []) (split s).

Fixpoint join (l : list (list Z)) : list Z :=
  match l with
  | [] => []
  | [e] => e
  | e :: l => e ++ slash :: join l
  end.

(** One element applied to the elements kept so far, last first. *)
Definition clean_step (is_root : bool) (kept : list (list Z)) (e : list Z) : list (list Z) :=
  if decide (e = [dot]) then kept
  else if decide (e = [dot; dot]) then
    match kept with
    | last :: rest => if decide (last = [dot; dot]) then e :: kept else rest
    | [] => if is_root then [] else [e]
    end
  else e :: kept.

(** Slashes are single, no "." element is left, ".." only at the start of a path
    that is not rooted, and the empty path is ".". *)
Definition clean (s : list Z) : list Z :=
  let is_root := byte_at s 0 =? slash in
  let kept := foldl (clean_step is_root) [] (elements s) in
  if is_root then slash :: join (reverse kept)
  else match kept with [] => [dot] | _ => join (reverse kept) end.

(** * Elements *)

Definition no_slash (e : list Z) : Prop := Forall (fun c => c <> slash) e.

Lemma break_spec (s e t : list Z) :
  break s = (e, t) -> s = e ++ t /\ no_slash e /\ (t = [] \/ exists t', t = slash :: t').
Proof.
  revert e t. induction s as [|c s IH]; intros e t; cbn [break].
  { intros [= <- <-]. split; [done|]. split; [constructor|by left]. }
  destruct (Z.eqb_spec c slash) as [->|Hne].
  { intros [= <- <-]. split; [done|]. split; [constructor|eauto]. }
  destruct (break s) as [e' t']. intros [= <- <-]. destruct (IH _ _ eq_refl) as (-> & He & Ht).
  split; [done|]. split; [by constructor|done].
Qed.

Lemma split_app (e t : list Z) :
  no_slash e -> split (e ++ t) = match split t with [] => [e] | f :: fs => (e ++ f) :: fs end.
Proof.
  induction 1 as [|c e Hc He IH]; cbn [app].
  - by destruct t as [|c t]; [|cbn; destruct (c =? slash), (split t)].
  - cbn [split]. destruct (Z.eqb_spec c slash); [done|]. rewrite IH. by destruct (split t).
Qed.

Lemma elements_slash (s : list Z) : elements (slash :: s) = elements s.
Proof. done. Qed.

Lemma elements_app (e t : list Z) :
  e <> [] -> no_slash e -> (t = [] \/ exists t', t = slash :: t') ->
  elements (e ++ t) = e :: elements t.
Proof.
  intros Hne He Ht. unfold elements. rewrite split_app by done. destruct Ht as [->|[t' ->]].
  - cbn [split]. rewrite app_nil_r, filter_cons_True by done. done.
  - cbn [split]. rewrite Z.eqb_refl, app_nil_r, filter_cons_True by done. done.
Qed.

(** * Joining *)

Lemma join_cons (e : list Z) (l : list (list Z)) : l <> [] -> join (e :: l) = e ++ slash :: join l.
Proof. by destruct l. Qed.

Lemma join_snoc (l : list (list Z)) (e : list Z) :
  join (l ++ [e]) = match l with [] => e | _ => join l ++ slash :: e end.
Proof.
  induction l as [|a l IH]; [done|]. cbn [app]. rewrite join_cons by (by destruct l). rewrite IH.
  destruct l as [|b l]; [done|]. rewrite (join_cons a (b :: l)) by done. by rewrite <- app_assoc.
Qed.

Lemma join_app_length (l : list (list Z)) (e : list Z) :
  (length (join l) <= length (join (l ++ [e])))%nat.
Proof. rewrite join_snoc. destruct l; [cbn; lia|]. rewrite length_app. lia. Qed.

(** * The buffer *)

Lemma put_byte_spec (ret : list Z) (w : nat) (c : Z) :
  (w < length ret)%nat ->
  exists ret', put_byte ret w c = Some ret' /\ length ret' = length ret /\ take (S w) ret' = take w ret ++ [c].
Proof.
  intros Hw. unfold put_byte. rewrite (proj2 (Nat.ltb_lt _ _) Hw). eexists. split; [done|].
  rewrite length_insert. split; [done|]. rewrite (take_S_r _ _ c) by (by apply list_lookup_insert_eq).
  by rewrite take_insert_ge by lia.
Qed.

Lemma byte_at_take (ret : list Z) (w i : nat) (X : list Z) :
  take w ret = X -> (i < w)%nat -> byte_at ret i = byte_at X i.
Proof. intros <- Hi. unfold byte_at. by rewrite lookup_take_lt by lia. Qed.

Lemma backtrack_to (ret : list Z) (dotdot p k : nat) :
  (dotdot <= p <= k)%nat -> p = dotdot \/ byte_at ret p = slash ->
  (forall i, (p < i <= k)%nat -> byte_at ret i <> slash) -> backtrack ret dotdot k = p.
Proof.
  intros Hp Hs Hn. induction k as [|k IH]; cbn [backtrack]; [lia|].
  destruct (decide (p = S k)) as [->|Hne].
  - destruct Hs as [->|Hs]; [by rewrite Nat.ltb_irrefl|]. rewrite Hs, Z.eqb_refl. by rewrite andb_false_r.
  - rewrite (proj2 (Nat.ltb_lt dotdot (S k))) by lia.
    rewrite (proj2 (Z.eqb_neq _ _) (Hn (S k) ltac:(lia))). cbn [negb andb]. apply IH; [lia|].
    intros i Hi. apply Hn. lia.
Qed.

(** Removing the last element of what was written. *)
Lemma backtrack_last (ret X e : list Z) (w dotdot : nat) :
  take w ret = X ++ e -> w = (length X + length e)%nat -> e <> [] -> no_slash e ->
  (dotdot = length X \/ exists Y, X = Y ++ [slash] /\ (dotdot <= length Y)%nat) ->
  backtrack ret dotdot (w - 1) =
    if decide (dotdot = length X) then length X else (length X - 1)%nat.
Proof.
  intros Ht Hw Hne He Hd.
  assert (Hl : (0 < length e)%nat) by (destruct e; [done|cbn; lia]).
  assert (Hb : forall i, (length X <= i < w)%nat -> byte_at ret i <> slash).
  { intros i Hi. rewrite (byte_at_take _ _ _ _ Ht) by lia. unfold byte_at.
    rewrite lookup_app_r by lia. destruct (e !! (i - length X)%nat) as [c|] eqn:Ec; cbn.
    - exact (proj1 (Forall_lookup _ _) He _ _ Ec).
    - apply lookup_ge_None in Ec. lia. }
  destruct (decide (dotdot = length X)) as [->|Hnd].
  - apply backtrack_to; [lia|by left|]. intros i Hi. apply Hb. lia.
  - destruct Hd as [?|(Y & -> & HY)]; [done|]. rewrite length_app in *. cbn [length] in *.
    replace (length Y + 1 - 1)%nat with (length Y) by lia. apply backtrack_to; [lia| |].
    + right. rewrite (byte_at_take _ _ _ _ Ht) by lia. unfold byte_at.
      rewrite <- app_assoc, lookup_app_r by lia. by rewrite Nat.sub_diag.
    + intros i Hi. apply Hb. lia.
Qed.

Lemma copy_element_spec (input : list Z) (n : nat) (e t ret : list Z) (w r fuel : nat) :
  drop r (take n input) = e ++ t -> (n <= length input)%nat -> no_slash e ->
  (t = [] \/ exists t', t = slash :: t') -> (w + length e <= length ret)%nat -> (length e < fuel)%nat ->
  (r <= n)%nat ->
  exists ret', copy_element fuel input n ret w r = Some (ret', w + length e, r + length e)%nat /\
    length ret' = length ret /\ take (w + length e) ret' = take w ret ++ e.
Proof.
  intros Hs Hn He Ht. revert fuel ret w r Hs.
  induction He as [|c e Hc He IH]; intros [|fuel] ret w r Hs Hw Hf Hr; cbn [length] in *; try lia.
  - cbn [copy_element]. rewrite !Nat.add_0_r, app_nil_r.
    assert (Hstop : (r <? n)%nat && negb (byte_at input r =? slash) = false).
    { destruct (Nat.ltb_spec r n); [|done]. cbn [andb app] in *. destruct Ht as [->|[t' ->]].
      - apply (f_equal length) in Hs. rewrite length_drop, length_take in Hs. cbn in Hs. lia.
      - apply (f_equal (lookup 0%nat)) in Hs. rewrite lookup_drop, Nat.add_0_r, lookup_take_lt in Hs by lia.
        unfold byte_at. rewrite Hs. done. }
    rewrite Hstop. eauto.
  - cbn [copy_element].
    assert (Hlen : (r < n)%nat).
    { apply (f_equal length) in Hs. rewrite length_drop, length_take in Hs. cbn in Hs. lia. }
    assert (Hbyte : byte_at input r = c).
    { apply (f_equal (lookup 0%nat)) in Hs. rewrite lookup_drop, Nat.add_0_r, lookup_take_lt in Hs by lia.
      unfold byte_at. by rewrite Hs. }
    rewrite Hbyte, (proj2 (Nat.ltb_lt _ _) Hlen), (proj2 (Z.eqb_neq _ _) Hc). cbn [negb andb].
    destruct (put_byte_spec ret w c ltac:(lia)) as (ret1 & -> & Hl1 & Ht1).
    destruct (IH fuel ret1 (S w) (S r)) as (ret' & E & Hl' & Ht'); [|lia|lia|lia|].
    { replace (S r) with (r + 1)%nat by lia. by rewrite <- drop_drop, Hs. }
    exists ret'. rewrite E. split; [do 2 f_equal; [f_equal|]; lia|]. split; [lia|].
    replace (w + S (length e))%nat with (S w + length e)%nat by lia. by rewrite Ht', Ht1, <- app_assoc.
Qed.

(** * The main loop *)

Definition dotdot_elt : list Z := [dot; dot].
Definition proper (e : list Z) : Prop := e <> [] /\ no_slash e /\ e <> dotdot_elt.
Definition prefix (is_root : bool) : list Z := if is_root then [slash] else [].

(** What is left to read starts at the end of an element. *)
Definition boundary (s : list Z) : Prop := s = [] \/ exists t, s = slash :: t.

Section Loop.
Context (input : list Z) (n : nat) (is_root : bool).
Context (Hn : (n <= length input)%nat).

Definition left (r : nat) : list Z := drop r (take n input).

(** The loop invariant: [ups] leading ".." elements and the proper elements
    [comps], last first, are what the buffer holds. *)
Record loop_inv (ret : list Z) (w r dotdot ups : nat) (comps : list (list Z)) : Prop := {
  li_length : length ret = (n + 1)%nat;
  li_root : is_root = true -> ups = 0%nat;
  li_proper : Forall proper comps;
  li_written : take w ret = prefix is_root ++ join (replicate ups dotdot_elt ++ reverse comps);
  li_w : w = length (prefix is_root ++ join (replicate ups dotdot_elt ++ reverse comps));
  li_dotdot : dotdot = length (prefix is_root ++ join (replicate ups dotdot_elt));
  li_read : (w <= r)%nat;
  li_gap : w <> length (prefix is_root) -> (w < r)%nat \/ boundary (left r) }.

Lemma left_cons (r : nat) (c : Z) (s : list Z) :
  left r = c :: s -> (r < n)%nat /\ byte_at input r = c /\ left (S r) = s.
Proof.
  intros H. assert (Hl : length (left r) = (n - r)%nat).
  { unfold left. rewrite length_drop, length_take. lia. }
  rewrite H in Hl. cbn in Hl. split; [lia|]. unfold left in *. split.
  - apply (f_equal (lookup 0%nat)) in H. rewrite lookup_drop, Nat.add_0_r, lookup_take_lt in H by lia.
    unfold byte_at. by rewrite H.
  - replace (S r) with (r + 1)%nat by lia. by rewrite <- drop_drop, H.
Qed.

Lemma left_nil (r : nat) : left r = [] -> (n <= r)%nat.
Proof.
  intros H. apply (f_equal length) in H. unfold left in H. rewrite length_drop, length_take in H.
  cbn in H. lia.
Qed.

Lemma left_drop (r : nat) (e t : list Z) : left r = e ++ t -> left (r + length e) = t.
Proof. unfold left. intros H. by rewrite <- drop_drop, H, drop_app_length. Qed.

Lemma join_nonempty (l : list (list Z)) : l <> [] -> Forall (fun e => e <> []) l -> join l <> [].
Proof.
  intros Hl HF. destruct HF as [|e l He HF]; [done|]. destruct l; [done|]. rewrite join_cons by done.
  by destruct e.
Qed.

Lemma all_nonempty (ups : nat) (comps : list (list Z)) :
  Forall proper comps -> Forall (fun e => e <> []) (replicate ups dotdot_elt ++ reverse comps).
Proof.
  intros H. apply Forall_app. split; [by apply Forall_replicate|]. apply Forall_reverse.
  eapply Forall_impl; [|exact H]. by intros e [].
Qed.

(** Nothing is written beyond the prefix exactly when there is no element. *)
Lemma written_nil (ups : nat) (comps : list (list Z)) :
  Forall proper comps ->
  length (prefix is_root ++ join (replicate ups dotdot_elt ++ reverse comps)) = length (prefix is_root) ->
  ups = 0%nat /\ comps = [].
Proof.
  intros HF. rewrite length_app. intros H.
  destruct (decide (replicate ups dotdot_elt ++ reverse comps = [])) as [E|E].
  - apply app_eq_nil in E as [E1 E2]. split; [by destruct ups|].
    by rewrite <- (reverse_involutive comps), E2.
  - pose proof (join_nonempty _ E (all_nonempty ups comps HF)) as J. destruct (join _); [done|]. cbn in H. lia.
Qed.

Lemma inv_skip (ret : list Z) (w r r' dotdot ups : nat) (comps : list (list Z)) :
  loop_inv ret w r dotdot ups comps -> (r < r')%nat -> loop_inv ret w r' dotdot ups comps.
Proof. intros [] Hr. constructor; try done; [lia|]. intros _. left. lia. Qed.

(** What is below an element in the buffer. *)
Definition below (l : list (list Z)) : list Z :=
  prefix is_root ++ match l with [] => [] | _ => join l ++ [slash] end.

Lemma written_snoc (l : list (list Z)) (e : list Z) : prefix is_root ++ join (l ++ [e]) = below l ++ e.
Proof.
  rewrite join_snoc. unfold below. destruct l; [by rewrite app_nil_r|].
  by rewrite <- !app_assoc.
Qed.

Lemma join_app_le (l l' : list (list Z)) : (length (join l) <= length (join (l ++ l')))%nat.
Proof.
  induction l' as [|e l' IH] using rev_ind; [by rewrite app_nil_r|].
  rewrite app_assoc. pose proof (join_app_length (l ++ l') e). lia.
Qed.

Lemma inv_pop (ret : list Z) (w r r' dotdot ups : nat) (c : list Z) (comps : list (list Z)) :
  loop_inv ret w r dotdot ups (c :: comps) -> (r < r')%nat ->
  (dotdot < w)%nat /\ loop_inv ret (backtrack ret dotdot (w - 1)) r' dotdot ups comps.
Proof.
  intros [Hl Hroot Hp Ht Hw Hd Hr _] Hr'. apply Forall_cons_iff in Hp as [(Hc0 & Hcs & _) Hp].
  rewrite reverse_cons, app_assoc in Ht, Hw. set (l := replicate ups dotdot_elt ++ reverse comps) in *.
  rewrite written_snoc in Ht, Hw. rewrite length_app in Hw.
  assert (Hc1 : (0 < length c)%nat) by (destruct c; [done|cbn; lia]).
  pose proof (join_app_le (replicate ups dotdot_elt) (reverse comps)) as Hle. fold l in Hle.
  assert (Hdl : (dotdot <= length (prefix is_root ++ join l))%nat) by (rewrite Hd, !length_app; lia).
  assert (Hb : backtrack ret dotdot (w - 1) = length (prefix is_root ++ join l) /\
               (length (prefix is_root ++ join l) <= length (below l))%nat).
  { rewrite (backtrack_last ret (below l) c w dotdot Ht Hw Hc0 Hcs).
    - unfold below in *. destruct l as [|a l'] eqn:El.
      + rewrite decide_True; [done|]. rewrite Hd. subst l. apply app_eq_nil in El as [-> _]. done.
      + rewrite !length_app in *. cbn [length] in *. rewrite decide_False by lia. lia.
    - unfold below. destruct l as [|a l'] eqn:El.
      + left. rewrite Hd. subst l. apply app_eq_nil in El as [-> _]. done.
      + right. exists (prefix is_root ++ join (a :: l')). split; [by rewrite <- app_assoc|done]. }
  destruct Hb as [-> Hbl]. split; [lia|]. constructor; try done; [|lia|left; lia].
  apply (f_equal (take (length (prefix is_root ++ join l)))) in Ht. rewrite take_take, Nat.min_l in Ht by lia.
  fold l. rewrite Ht. rewrite take_app_le by lia. unfold below. destruct l; cbn [join]; rewrite ?app_nil_r.
  - by rewrite firstn_all.
  - rewrite app_assoc. by rewrite take_app_length.
Qed.

(** Adding an element: the slash, when something is written already, then the bytes. *)
Lemma inv_slash (ret : list Z) (w r dotdot ups : nat) (comps : list (list Z)) :
  loop_inv ret w r dotdot ups comps -> (r < n)%nat -> ~ boundary (left r) ->
  exists ret' w',
    (if negb (w =? length (prefix is_root))%nat
     then let? ret := put_byte ret w slash in Some (ret, S w) else Some (ret, w)) = Some (ret', w') /\
    length ret' = (n + 1)%nat /\ (w' <= r)%nat /\
    w' = length (below (replicate ups dotdot_elt ++ reverse comps)) /\
    take w' ret' = below (replicate ups dotdot_elt ++ reverse comps).
Proof.
  intros [Hl _ Hp Ht Hw _ Hr Hg] Hrn Hb. unfold below.
  destruct (Nat.eqb_spec w (length (prefix is_root))) as [E|E]; cbn [negb].
  - rewrite E in Hw. destruct (written_nil ups comps Hp (eq_sym Hw)) as [-> ->]. cbn in Ht |- *.
    exists ret, w. repeat split; try done. by rewrite app_nil_r.
  - destruct (put_byte_spec ret w slash ltac:(lia)) as (ret' & -> & Hl' & Ht').
    exists ret', (S w). destruct (Hg E) as [Hlt|]; [|done]. split; [done|]. split; [lia|]. split; [lia|].
    rewrite Ht in Ht'. rewrite !length_app in Hw.
    destruct (replicate ups dotdot_elt ++ reverse comps) as [|a l']; [cbn in Hw; lia|].
    rewrite !length_app. cbn [length]. split; [lia|]. by rewrite <- app_assoc in Ht'.
Qed.

Lemma inv_push (ret ret' e : list Z) (w r dotdot ups : nat) (comps : list (list Z)) :
  loop_inv ret w r dotdot ups comps -> proper e -> length ret' = (n + 1)%nat ->
  (length (below (replicate ups dotdot_elt ++ reverse comps)) <= r)%nat ->
  boundary (left (r + length e)) ->
  take (length (below (replicate ups dotdot_elt ++ reverse comps)) + length e) ret' =
    below (replicate ups dotdot_elt ++ reverse comps) ++ e ->
  loop_inv ret' (length (below (replicate ups dotdot_elt ++ reverse comps)) + length e)
    (r + length e) dotdot ups (e :: comps).
Proof.
  intros [Hl Hroot Hp Ht Hw Hd Hr Hg] He Hl' Hr' Hb Ht'. constructor; try done.
  - by constructor.
  - by rewrite reverse_cons, app_assoc, written_snoc.
  - by rewrite reverse_cons, app_assoc, written_snoc, length_app.
  - lia.
  - by right.
Qed.

Lemma inv_up (ret ret' : list Z) (w r dotdot ups : nat) :
  loop_inv ret w r dotdot ups [] -> is_root = false -> length ret' = (n + 1)%nat ->
  (length (below (replicate ups dotdot_elt)) <= r)%nat ->
  boundary (left (r + 2)) ->
  take (length (below (replicate ups dotdot_elt)) + 2) ret' = below (replicate ups dotdot_elt) ++ dotdot_elt ->
  loop_inv ret' (length (below (replicate ups dotdot_elt)) + 2) (r + 2)
    (length (below (replicate ups dotdot_elt)) + 2) (S ups) [].
Proof.
  intros [Hl Hroot Hp Ht Hw Hd Hr Hg] He Hl' Hr' Hb Ht'.
  assert (E : prefix is_root ++ join (replicate (S ups) dotdot_elt) = below (replicate ups dotdot_elt) ++ dotdot_elt).
  { rewrite <- written_snoc. do 2 f_equal. by rewrite <- replicate_S_end. }
  constructor; rewrite ?app_nil_r, ?E, ?length_app; try done; [congruence|lia|by right].
Qed.

(** The code's test for the end of an element. *)
Lemma ends_here (r : nat) :
  (r <= n)%nat -> boundary (left r) -> (r =? n)%nat || (byte_at input r =? slash) = true.
Proof.
  intros Hr [E|[t E]].
  - apply left_nil in E. by rewrite (proj2 (Nat.eqb_eq r n)) by lia.
  - apply left_cons in E as (_ & -> & _). by rewrite orb_true_r.
Qed.

Lemma ends_not (r : nat) (c : Z) (s : list Z) :
  left r = c :: s -> c <> slash -> (r =? n)%nat || (byte_at input r =? slash) = false.
Proof.
  intros E Hc. apply left_cons in E as (Hr & -> & _).
  by rewrite (proj2 (Nat.eqb_neq r n)), (proj2 (Z.eqb_neq _ _) Hc) by lia.
Qed.

(** The tests for "." and ".." on the element that starts at [r]. *)
Lemma test_dot (r : nat) (e t : list Z) :
  left r = e ++ t -> (r + length e <= n)%nat -> e <> [] -> no_slash e -> boundary t ->
  (byte_at input r =? dot) && ((r + 1 =? n)%nat || (byte_at input (r + 1) =? slash)) = bool_decide (e = [dot]).
Proof.
  intros E Hr He Hs Ht. destruct e as [|c [|d e]]; [done| |].
  - pose proof (left_drop _ _ _ E) as Et. cbn [length] in Hr, Et.
    rewrite ends_here by (rewrite ?Et; done). apply left_cons in E as (_ & -> & _).
    rewrite andb_true_r. destruct (Z.eqb_spec c dot); case_bool_decide; congruence.
  - inversion_clear Hs as [|? ? _ Hs']. inversion_clear Hs' as [|? ? Hd _].
    apply left_cons in E as (_ & _ & E). rewrite Nat.add_1_r, (ends_not _ _ _ E Hd), andb_false_r.
    by case_bool_decide.
Qed.

Lemma test_dotdot (r : nat) (e t : list Z) :
  left r = e ++ t -> (r + length e <= n)%nat -> e <> [] -> e <> [dot] -> no_slash e -> boundary t ->
  (byte_at input r =? dot) && (byte_at input (r + 1) =? dot)
    && ((r + 2 =? n)%nat || (byte_at input (r + 2) =? slash)) = bool_decide (e = dotdot_elt).
Proof.
  intros E Hr He He1 Hs Ht. destruct e as [|c [|d [|f e]]]; [done| | |].
  - apply left_cons in E as (_ & -> & _). destruct (Z.eqb_spec c dot); [congruence|]. by case_bool_decide.
  - pose proof (left_drop _ _ _ E) as Et. cbn [length] in Hr, Et.
    rewrite ends_here by (rewrite ?Et; done). apply left_cons in E as (_ & -> & E).
    apply left_cons in E as (_ & E & _). rewrite <- Nat.add_1_r in E. rewrite E, andb_true_r.
    unfold dotdot_elt. destruct (Z.eqb_spec c dot), (Z.eqb_spec d dot); cbn [andb]; case_bool_decide; congruence.
  - inversion_clear Hs as [|? ? _ Hs']. inversion_clear Hs' as [|? ? _ Hs'']. inversion_clear Hs'' as [|? ? Hd _].
    apply left_cons in E as (_ & _ & E). apply left_cons in E as (_ & _ & E).
    replace (r + 2)%nat with (S (S r)) by lia. rewrite (ends_not _ _ _ E Hd), andb_false_r.
    by case_bool_decide.
Qed.

(** ** One element *)

Definition kept (ups : nat) (comps : list (list Z)) : list (list Z) := comps ++ replicate ups dotdot_elt.

Definition slash_guard (w : nat) : bool := (is_root && negb (w =? 1)%nat) || (negb is_root && negb (w =? 0)%nat).

Lemma slash_guard_prefix (w : nat) : slash_guard w = negb (w =? length (prefix is_root))%nat.
Proof. unfold slash_guard. destruct is_root; cbn; [apply orb_false_r|done]. Qed.

Lemma clean_step_proper (l : list (list Z)) (e : list Z) :
  e <> [dot] -> e <> dotdot_elt -> clean_step is_root l e = e :: l.
Proof. intros H1 H2. unfold clean_step. by rewrite (decide_False _ _ H1), (decide_False _ _ H2). Qed.

Lemma clean_step_pop (ups : nat) (c : list Z) (comps : list (list Z)) :
  c <> dotdot_elt -> clean_step is_root (kept ups (c :: comps)) dotdot_elt = kept ups comps.
Proof. intros Hc. unfold clean_step, kept, dotdot_elt. cbn. by rewrite (decide_False _ _ Hc). Qed.

Lemma clean_step_up (ups : nat) :
  (is_root = true -> ups = 0%nat) ->
  clean_step is_root (kept ups []) dotdot_elt = if is_root then kept ups [] else kept (S ups) [].
Proof.
  intros H. unfold clean_step, kept. cbn. destruct ups; cbn; [by destruct is_root|].
  destruct is_root; [by specialize (H eq_refl)|done].
Qed.

(** The branch of a ".." element. *)
Lemma loop_dotdot (ret : list Z) (w r dotdot ups fuel : nat) (comps : list (list Z)) :
  loop_inv ret w r dotdot ups comps -> (r + 2 <= n)%nat -> ~ boundary (left r) -> boundary (left (r + 2)) ->
  exists ret' w' dotdot' ups' comps',
    loop_inv ret' w' (r + 2) dotdot' ups' comps' /\
    kept ups' comps' = clean_step is_root (kept ups comps) dotdot_elt /\
    (if (dotdot <? w)%nat then
       sanitize_loop fuel input n is_root ret (backtrack ret dotdot (w - 1)) (r + 2) dotdot
     else if negb is_root then
       let? (ret, w) :=
         if (0 <? w)%nat then let? ret := put_byte ret w slash in Some (ret, S w)
         else Some (ret, w) in
       let? ret := put_byte ret w dot in
       let w := S w in
       let? ret := put_byte ret w dot in
       let w := S w in
       sanitize_loop fuel input n is_root ret w (r + 2) w
     else sanitize_loop fuel input n is_root ret w (r + 2) dotdot) =
    sanitize_loop fuel input n is_root ret' w' (r + 2) dotdot'.
Proof.
  intros HI Hr Hnb Hb. destruct comps as [|c comps].
  - assert (Hge : (dotdot <? w)%nat = false).
    { apply Nat.ltb_ge. rewrite (li_dotdot _ _ _ _ _ _ HI), (li_w _ _ _ _ _ _ HI). by rewrite app_nil_r. }
    pose proof (clean_step_up ups (li_root _ _ _ _ _ _ HI)) as Hup.
    rewrite Hge, Hup. destruct (bool_dec is_root true) as [Eroot|Eroot%not_true_is_false].
    { replace (negb is_root) with false by (by rewrite Eroot).
      replace (if is_root then kept ups [] else _) with (kept ups []) by (by rewrite Eroot).
      do 5 eexists. split; [apply (inv_skip _ _ r _ _ _ _ HI); lia|]. done. }
    destruct (inv_slash _ _ _ _ _ _ HI ltac:(lia) Hnb) as (r1 & w1 & E1 & Hl1 & Hw1 & -> & Ht1).
    replace (negb is_root) with true by (by rewrite Eroot).
    replace (if is_root then kept ups [] else _) with (kept (S ups) []) by (by rewrite Eroot).
    replace (0 <? w)%nat with (negb (w =? length (prefix is_root))%nat) by (rewrite Eroot; by destruct w).
    rewrite E1. rewrite app_nil_r in *. set (b := below (replicate ups dotdot_elt)) in *.
    destruct (put_byte_spec r1 (length b) dot ltac:(lia)) as (r2 & -> & Hl2 & Ht2).
    cbv beta iota zeta. destruct (put_byte_spec r2 (S (length b)) dot ltac:(lia)) as (r3 & -> & Hl3 & Ht3).
    do 5 eexists. split; [apply (inv_up ret r3 w r dotdot ups HI); try done; try lia|].
    { fold b. rewrite Nat.add_comm. cbn [Nat.add]. by rewrite Ht3, Ht2, Ht1, <- app_assoc. }
    fold b. rewrite (Nat.add_comm (length b) 2). done.
  - destruct (inv_pop _ _ _ (r + 2) _ _ _ _ HI ltac:(lia)) as [Hlt HI'].
    rewrite (proj2 (Nat.ltb_lt _ _) Hlt). do 5 eexists. split; [exact HI'|]. split; [|done].
    symmetry. apply clean_step_pop. pose proof (li_proper _ _ _ _ _ _ HI) as HF.
    apply Forall_cons_iff in HF as [(_ & _ & ?) _]. done.
Qed.

(** The branch of a real element. *)
Lemma loop_element (ret e t : list Z) (w r dotdot ups : nat) (comps : list (list Z)) (fuel : nat) :
  loop_inv ret w r dotdot ups comps -> left r = e ++ t -> (r + length e <= n)%nat -> ~ boundary (left r) ->
  boundary t -> proper e -> e <> [dot] ->
  exists ret' w' comps',
    loop_inv ret' w' (r + length e) dotdot ups comps' /\
    kept ups comps' = clean_step is_root (kept ups comps) e /\
    (let? (ret, w) :=
       if slash_guard w then let? ret := put_byte ret w slash in Some (ret, S w) else Some (ret, w) in
     let? (ret, w, r) := copy_element (S n) input n ret w r in
     sanitize_loop fuel input n is_root ret w r dotdot) =
    sanitize_loop fuel input n is_root ret' w' (r + length e) dotdot.
Proof.
  intros HI E Hr Hnb Hb (He0 & Hes & Hed) He1. rewrite slash_guard_prefix.
  assert (Hlen : (0 < length e)%nat) by (destruct e; [done|cbn; lia]).
  destruct (inv_slash _ _ _ _ _ _ HI ltac:(lia) Hnb) as (r1 & w1 & E1 & Hl1 & Hw1 & -> & Ht1).
  rewrite E1. set (b := below (replicate ups dotdot_elt ++ reverse comps)) in *.
  destruct (copy_element_spec input n e t r1 (length b) r (S n)) as (r2 & E2 & Hl2 & Ht2); try done; try lia.
  rewrite E2. do 3 eexists. split.
  { apply (inv_push ret r2 e w r dotdot ups comps HI); try done; try lia.
    - by rewrite (left_drop _ _ _ E).
    - fold b. by rewrite Ht2, Ht1. }
  split; [|done]. by rewrite clean_step_proper.
Qed.

Lemma loop_correct (fuel : nat) (ret : list Z) (w r dotdot ups : nat) (comps : list (list Z)) :
  loop_inv ret w r dotdot ups comps -> (r <= n)%nat -> (n - r < fuel)%nat ->
  exists ret' w' dotdot' ups' comps',
    sanitize_loop fuel input n is_root ret w r dotdot = Some (ret', w') /\
    loop_inv ret' w' n dotdot' ups' comps' /\
    kept ups' comps' = foldl (clean_step is_root) (kept ups comps) (elements (left r)).
Proof.
  revert ret w r dotdot ups comps. induction fuel as [|fuel IH]; intros ret w r dotdot ups comps HI Hr Hf; [lia|].
  cbn [sanitize_loop]. cbv zeta. destruct (left r) as [|c s] eqn:El.
  { pose proof (left_nil _ El). rewrite (proj2 (Nat.ltb_ge r n)) by lia.
    assert (r = n) as -> by lia. do 5 eexists. split; [done|]. split; [exact HI|done]. }
  destruct (left_cons _ _ _ El) as (Hrn & Hc & Hs). rewrite (proj2 (Nat.ltb_lt _ _) Hrn).
  destruct (Z.eqb_spec (byte_at input r) slash) as [Hsl|Hns].
  { subst c. rewrite Hsl, elements_slash, <- Hs. apply IH; [|lia|lia]. apply (inv_skip _ _ r _ _ _ _ HI). lia. }
  destruct (break (c :: s)) as [e t] eqn:Eb. destruct (break_spec _ _ _ Eb) as (E & Hes & Ht).
  assert (He0 : e <> []).
  { intros ->. destruct Ht as [->|[t' ->]]; cbn in E; congruence. }
  assert (Hlen : (0 < length e)%nat) by (destruct e; [done|cbn; lia]).
  assert (Hre : (r + length e <= n)%nat).
  { apply (f_equal length) in E. rewrite <- El, length_app in E. unfold left in E.
    rewrite length_drop, length_take in E. lia. }
  assert (Hnb : ~ boundary (left r)) by (rewrite El; intros [|[? [=]]]; congruence).
  rewrite E, elements_app by done. cbn [foldl]. rewrite E in El.
  pose proof (left_drop _ _ _ El) as Et.
  rewrite (test_dot r e t) by done. case_bool_decide as H1.
  { subst e. cbn [length] in Et. rewrite Nat.add_1_r in Et. rewrite <- Et.
    apply IH; [|lia|lia]. apply (inv_skip _ _ r _ _ _ _ HI). lia. }
  rewrite (test_dotdot r e t) by done. case_bool_decide as H2.
  - subst e. change (length dotdot_elt) with 2%nat in *.
    destruct (loop_dotdot ret w r dotdot ups fuel comps HI) as (r1 & w1 & d1 & u1 & c1 & HI1 & Hk & E1);
      [lia|done|by rewrite Et|].
    rewrite <- Hk, <- Et. cbv zeta in E1. rewrite E1. apply IH; [exact HI1|lia|lia].
  - destruct (loop_element ret e t w r dotdot ups comps fuel HI El) as (r1 & w1 & c1 & HI1 & Hk & E1);
      [done|done|done|done|done|].
    rewrite <- Hk, <- Et. unfold slash_guard in E1. rewrite E1. apply IH; [exact HI1|lia|lia].
Qed.

End Loop.

(** * The result *)

Lemma loop_init (n : nat) (input : list Z) (is_root : bool) (ret : list Z) :
  (0 < n)%nat -> length ret = (n + 1)%nat -> take (length (prefix is_root)) ret = prefix is_root ->
  loop_inv input n is_root ret (length (prefix is_root)) (length (prefix is_root)) (length (prefix is_root)) 0 [].
Proof. intros Hn Hl Ht. constructor; cbn [replicate app reverse]; rewrite ?app_nil_r; try done. Qed.

Lemma c_string_app (s : list Z) (k : nat) :
  Forall (fun c => c <> 0) s -> (0 < k)%nat -> c_string (s ++ replicate k 0) = Some s.
Proof.
  intros Hs Hk. induction Hs as [|c s Hc Hs IH]; cbn [app c_string].
  - by destruct k; [lia|].
  - by rewrite (proj2 (Z.eqb_neq _ _) Hc), IH.
Qed.

Lemma split_nonzero (s : list Z) :
  Forall (fun c => c <> 0) s -> Forall (Forall (fun c => c <> 0)) (split s).
Proof.
  induction 1 as [|c s Hc Hs IH]; cbn [split]; [by repeat constructor|].
  destruct (c =? slash); [by constructor|]. destruct IH as [|e es He Hes]; by repeat constructor.
Qed.

Lemma join_nonzero (l : list (list Z)) :
  Forall (Forall (fun c => c <> 0)) l -> Forall (fun c => c <> 0) (join l).
Proof.
  induction 1 as [|e l He Hl IH]; [constructor|]. destruct l; [done|]. rewrite join_cons by done.
  apply Forall_app. split; [done|]. by constructor.
Qed.

Lemma clean_nonzero (is_root : bool) (l acc : list (list Z)) :
  Forall (Forall (fun c => c <> 0)) l -> Forall (Forall (fun c => c <> 0)) acc ->
  Forall (Forall (fun c => c <> 0)) (foldl (clean_step is_root) acc l).
Proof.
  intros Hl. revert acc. induction Hl as [|e l He Hl IH]; intros acc Ha; [done|]. cbn [foldl]. apply IH.
  unfold clean_step. repeat case_decide; [done| |by constructor].
  destruct Ha as [|? ? ? ?]; [destruct is_root; by repeat constructor|].
  case_decide; [by repeat constructor|done].
Qed.

Lemma clean_bytes (s : list Z) : Forall (fun c => c <> 0) s -> Forall (fun c => c <> 0) (clean s).
Proof.
  intros Hs. unfold clean.
  set (is_root := byte_at s 0 =? slash). clearbody is_root.
  assert (HF : Forall (Forall (fun c => c <> 0)) (reverse (foldl (clean_step is_root) [] (elements s)))).
  { apply Forall_reverse, clean_nonzero; [|constructor]. apply split_nonzero in Hs.
    apply list.Forall_forall. intros e He. apply list_elem_of_filter in He as [_ He].
    exact (proj1 (list.Forall_forall _ _) Hs e He). }
  apply join_nonzero in HF. destruct is_root; [by constructor|].
  destruct (foldl _ _ _); [by repeat constructor|done].
Qed.

(** What the loop leaves, from the start of the path. *)
Lemma loop_from_start (input : list Z) (n : nat) (ret : list Z) (is_root : bool) :
  (0 < n <= length input)%nat -> is_root = (byte_at input 0 =? slash) ->
  length ret = (n + 1)%nat -> take (length (prefix is_root)) ret = prefix is_root ->
  exists ret' w kept,
    sanitize_loop (S n) input n is_root ret (length (prefix is_root)) (length (prefix is_root))
      (length (prefix is_root)) = Some (ret', w) /\
    length ret' = (n + 1)%nat /\ (w <= n)%nat /\
    kept = foldl (clean_step is_root) [] (elements (take n input)) /\
    take w ret' = prefix is_root ++ join (reverse kept) /\
    (w = 0%nat <-> is_root = false /\ kept = []).
Proof.
  intros Hn Hroot Hl Ht.
  assert (Hp : (length (prefix is_root) <= n)%nat) by (destruct is_root; cbn; lia).
  destruct (loop_correct input n is_root ltac:(lia) (S n) ret _ _ _ 0 [] (loop_init n input is_root ret ltac:(lia) Hl Ht))
    as (ret' & w & d & ups & comps & E & HI & Hk); [lia|lia|].
  exists ret', w, (kept ups comps). split; [done|]. split; [apply (li_length _ _ _ _ _ _ _ _ _ HI)|].
  split; [apply (li_read _ _ _ _ _ _ _ _ _ HI)|]. split.
  { rewrite Hk. unfold left. f_equal. destruct is_root; [|done]. cbn [prefix length].
    destruct input as [|c input]; [cbn in Hn; lia|]. cbn in Hroot. symmetry in Hroot.
    apply Z.eqb_eq in Hroot as ->. destruct n as [|n]; [lia|]. done. }
  unfold kept. rewrite reverse_app, reverse_replicate. split; [apply (li_written _ _ _ _ _ _ _ _ _ HI)|].
  pose proof (li_w _ _ _ _ _ _ _ _ _ HI) as Hw. split.
  - intros ->. assert (is_root = false) as -> by (destruct is_root; [cbn in Hw; lia|done]). split; [done|].
    by destruct (written_nil input n false ltac:(lia) ups comps (li_proper _ _ _ _ _ _ _ _ _ HI) (eq_sym Hw)) as [-> ->].
  - intros [-> Hnil]. apply app_eq_nil in Hnil as [-> Hu]. rewrite Hw, Hu. done.
Qed.

(** C15. [sanitize_path] is the lexical normal form: for a non-empty path without NUL bytes, of which the
    first [MAX_PATH_LEN] bytes are taken, no write leaves the buffer of [n + 1] bytes, the loop ends,
    and the string returned is [clean] of the input: single slashes, no "." element, each ".." removing
    the element before it or kept at the start of a relative path, "." for nothing. *)
Theorem sanitize_path_clean (input : list Z) :
  input <> [] -> Forall (fun c => c <> 0) input ->
  exists buf, sanitize_path input = Some buf /\
    length buf = (length (take MAX_PATH_LEN input) + 1)%nat /\
    c_string buf = Some (clean (take MAX_PATH_LEN input)).
Proof.
  intros Hne Hnz. unfold sanitize_path. rewrite length_take, Nat.min_comm.
  set (n := Nat.min MAX_PATH_LEN (length input)).
  assert (Hn : (0 < n <= length input)%nat).
  { subst n. unfold MAX_PATH_LEN. destruct input; [done|]. cbn [length]. lia. }
  assert (Etake : take MAX_PATH_LEN input = take n input).
  { subst n. destruct (Nat.le_ge_cases MAX_PATH_LEN (length input)).
    - by rewrite Nat.min_l.
    - by rewrite Nat.min_r, !take_ge by lia. }
  rewrite Etake. clearbody n. rewrite (proj2 (Nat.eqb_neq n 0)) by lia. cbv zeta.
  pose proof (clean_bytes (take n input) ltac:(by apply Forall_take)) as Hcb.
  assert (Hb0 : byte_at (take n input) 0 = byte_at input 0).
  { unfold byte_at. by rewrite lookup_take_lt by lia. }
  unfold clean in *. rewrite Hb0 in *. set (is_root := byte_at input 0 =? slash) in *.
  assert (Hinit : exists ret0, (if is_root then let? ret := put_byte (replicate (n + 1) 0) 0 slash in Some (ret, 1%nat, 1%nat, 1%nat)
      else Some (replicate (n + 1) 0, 0%nat, 0%nat, 0%nat)) =
      Some (ret0, length (prefix is_root), length (prefix is_root), length (prefix is_root)) /\
      length ret0 = (n + 1)%nat /\ take (length (prefix is_root)) ret0 = prefix is_root).
  { destruct is_root; cbn [prefix length].
    - destruct (put_byte_spec (replicate (n + 1) 0) 0 slash) as (ret & -> & Hl & Ht); [rewrite length_replicate; lia|].
      exists ret. rewrite length_replicate in Hl. done.
    - eexists. split; [done|]. by rewrite length_replicate. }
  destruct Hinit as (ret0 & -> & Hl0 & Ht0).
  destruct (loop_from_start input n ret0 is_root Hn eq_refl Hl0 Ht0) as (ret & w & kept & -> & Hl & Hw & Hk & Ht & H0).
  rewrite <- Hk in *. clear Hk.
  destruct (Nat.eqb_spec w 0) as [->|Hw0].
  - destruct (proj1 H0 eq_refl) as [Hr ->]. rewrite Hr in *.
    destruct (put_byte_spec ret 0 dot ltac:(lia)) as (ret' & -> & Hl' & Ht').
    eexists. split; [done|]. split; [rewrite length_app, length_take, length_replicate; lia|].
    rewrite Ht'. cbn [take app]. apply (c_string_app [dot]); [by repeat constructor|lia].
  - eexists. split; [done|]. split; [rewrite length_app, length_take, length_replicate; lia|].
    rewrite Ht. destruct is_root; cbn [prefix app] in *.
    + apply (c_string_app (slash :: _)); [done|lia].
    + destruct kept; [by destruct Hw0; apply H0|]. apply c_string_app; [done|lia].
Qed.

(** "/a/./b//../c" *)
Definition sample_path : list Z := [47; 97; 47; 46; 47; 98; 47; 47; 46; 46; 47; 99].

Lemma sanitize_path_clean_witness :
  clean (take MAX_PATH_LEN sample_path) = [47; 97; 47; 99] /\
  exists buf, sanitize_path sample_path = Some buf /\ length buf = 13%nat /\
    c_string buf = Some (clean (take MAX_PATH_LEN sample_path)).
Proof. split; [by vm_compute|]. apply (sanitize_path_clean sample_path); [done|by repeat constructor]. Defined.

(** The empty path gives a buffer of one byte, ".", and no terminator. *)
Lemma sanitize_empty_unterminated : sanitize_path [] = Some [dot] /\ c_string [dot] = None.
Proof. done. Qed.
