(* ===== verification/Ilist.v ===== *)
(** Intrusive lists at the level of their pointers: the circular doubly linked
    [list_head] of utils.h and the hash chains [hlist_node] of cache.c. A node is
    named by an address; its pointer fields are kept in one map per field, so a
    write to one field is a write to one map. An operation that follows a pointer
    to no node is [None].

    The specifications say which sequence of nodes a list holds before and after,
    and that nodes outside of the list keep their fields. *)

From stdpp Require Import base list option numbers gmap.
From Stdlib Require Import ZArith Lia Bool.
From S2P Require Import Prelude.

(** * Doubly linked lists *)

Record links (A : Type) `{Countable A} : Type := mk_links { nx : gmap A A; pv : gmap A A }.
Arguments mk_links {A _ _} _ _.
Arguments nx {A _ _} _.
Arguments pv {A _ _} _.

Section ListHead.
Context {A : Type} `{Countable A}.

Definition no_links : links A := mk_links ∅ ∅.

(** [a->next = v] and [a->prev = v], for a node [a]. *)
Definition set_next (a v : A) (m : links A) : option (links A) :=
  let? _ := m.(nx) !! a in Some (mk_links (<[a := v]> m.(nx)) m.(pv)).
Definition set_prev (a v : A) (m : links A) : option (links A) :=
  let? _ := m.(pv) !! a in Some (mk_links m.(nx) (<[a := v]> m.(pv))).

(** Initialisation, of new nodes as well. *)
Definition INIT_LIST_HEAD (head : A) (m : links A) : links A :=
  mk_links (<[head := head]> m.(nx)) (<[head := head]> m.(pv)).

Definition list_empty (head : A) (m : links A) : option bool :=
  let? n := m.(nx) !! head in Some (bool_decide (n = head)).

Definition list_add (node head : A) (m : links A) : option (links A) :=
  let? next := m.(nx) !! head in
  let? m := set_prev next node m in
  let? m := set_next node next m in
  let? m := set_prev node head m in
  set_next head node m.

Definition list_del (node : A) (m : links A) : option (links A) :=
  let? next := m.(nx) !! node in
  let? prev := m.(pv) !! node in
  let? m := set_prev next prev m in
  set_next prev next m.

Definition list_del_init (node : A) (m : links A) : option (links A) :=
  let? m := list_del node m in
  Some (INIT_LIST_HEAD node m).

(** [free] of the structure around a node. *)
Definition drop_node (node : A) (m : links A) : links A :=
  mk_links (delete node m.(nx)) (delete node m.(pv)).

(** ** Segments and lists *)

Implicit Types (m : links A) (a b x : A) (l : list A).

Definition link m a b : Prop := m.(nx) !! a = Some b /\ m.(pv) !! b = Some a.

Fixpoint chain m a l b : Prop :=
  match l with
  | [] => link m a b
  | x :: l => link m a x /\ chain m x l b
  end.

(** The list with head [h] holds the nodes [l], in this order. *)
Definition dlist m (h : A) l : Prop := NoDup (h :: l) /\ chain m h l h.

(** The fields of nodes outside of [S] are the same. *)
Definition same_off (S : list A) m m' : Prop :=
  forall a, a ∉ S -> m'.(nx) !! a = m.(nx) !! a /\ m'.(pv) !! a = m.(pv) !! a.

Lemma chain_app m a l1 x l2 b :
  chain m a (l1 ++ x :: l2) b <-> chain m a l1 x /\ chain m x l2 b.
Proof. revert a. induction l1 as [|y l1 IH]; intros a; cbn [app chain]; [done|]. rewrite IH. tauto. Qed.

Lemma chain_frame m m' a l b :
  (forall y, y ∈ a :: l -> m'.(nx) !! y = m.(nx) !! y) ->
  (forall y, y ∈ l ++ [b] -> m'.(pv) !! y = m.(pv) !! y) ->
  chain m a l b -> chain m' a l b.
Proof.
  revert a. induction l as [|x l IH]; intros a Hn Hp; cbn [chain app] in *.
  - intros [Ha Hb]. split; [rewrite Hn|rewrite Hp]; set_solver.
  - intros [[Ha Hx] Hc]. split; [split; [rewrite Hn|rewrite Hp]; set_solver|].
    apply IH; [..|done]; intros; [apply Hn|apply Hp]; set_solver.
Qed.

Lemma dlist_frame (S : list A) m m' h l :
  same_off S m m' -> (forall a, a ∈ h :: l -> a ∉ S) -> dlist m h l -> dlist m' h l.
Proof.
  intros Hs Hd [Hnd Hc]. split; [done|]. eapply chain_frame; [..|exact Hc]; intros y Hy; apply Hs, Hd; set_solver.
Qed.

Lemma same_off_trans (S : list A) m1 m2 m3 : same_off S m1 m2 -> same_off S m2 m3 -> same_off S m1 m3.
Proof. intros H1 H2 a Ha. destruct (H1 a Ha), (H2 a Ha). split; congruence. Qed.

Lemma same_off_weaken (S T : list A) m m' : (forall a, a ∈ S -> a ∈ T) -> same_off S m m' -> same_off T m m'.
Proof. intros Hi Hs a Ha. apply Hs. naive_solver. Qed.

(** A node of a list, and its head, have both fields. *)
Lemma chain_fields m a l b y :
  chain m a l b -> y ∈ l -> is_Some (m.(nx) !! y) /\ is_Some (m.(pv) !! y).
Proof.
  revert a. induction l as [|x l IH]; intros a; cbn [chain]; [set_solver|].
  intros [[_ Hx] Hc] [->|Hy]%elem_of_cons; [|by eapply IH].
  split; [|by eexists]. destruct l; destruct Hc; [by eexists|destruct H0; by eexists].
Qed.

Lemma chain_ends m a l b : chain m a l b -> is_Some (m.(nx) !! a) /\ is_Some (m.(pv) !! b).
Proof.
  revert a. induction l as [|x l IH]; intros a; cbn [chain].
  - intros [??]. split; by eexists.
  - intros [[??] Hc]. split; [by eexists|]. by eapply IH.
Qed.

Lemma dlist_fields m h l y :
  dlist m h l -> y ∈ h :: l -> is_Some (m.(nx) !! y) /\ is_Some (m.(pv) !! y).
Proof. intros [_ Hc] [->|Hy]%elem_of_cons; [by eapply chain_ends|by eapply chain_fields]. Qed.

(** ** The operations *)

Lemma init_spec m h : dlist (INIT_LIST_HEAD h m) h [] /\ same_off [h] m (INIT_LIST_HEAD h m).
Proof.
  split; [split; [apply NoDup_singleton|split; cbn; by rewrite lookup_insert_eq]|].
  intros a Ha. cbn. rewrite !lookup_insert_ne by set_solver. done.
Qed.

Lemma list_empty_spec m h l : dlist m h l -> list_empty h m = Some (bool_decide (l = [])).
Proof.
  intros [Hnd Hc]. unfold list_empty. destruct l as [|x l]; cbn [chain] in Hc.
  - destruct Hc as [-> _]. by rewrite bool_decide_true by done.
  - destruct Hc as [[-> _] _]. rewrite !bool_decide_false; [done|done|]. intros ->.
    by apply NoDup_cons in Hnd as [[]%not_elem_of_cons _].
Qed.

Lemma list_add_spec m h l n :
  dlist m h l -> n ∉ h :: l -> is_Some (m.(nx) !! n) -> is_Some (m.(pv) !! n) ->
  exists m', list_add n h m = Some m' /\ dlist m' h (n :: l) /\ same_off (n :: h :: l) m m'.
Proof.
  intros [Hnd Hc] Hn [vn En] [vp Ep]. apply not_elem_of_cons in Hn as [Hnh Hnl].
  assert (exists q, m.(nx) !! h = Some q /\ q ∈ l ++ [h] /\ m.(pv) !! q = Some h) as (q & Eq & Hq & Epq).
  { destruct l as [|x l]; cbn [chain] in Hc; [|destruct Hc as [Hc _]]; destruct Hc; eexists; split_and!; try done; set_solver. }
  assert (Hqn : q <> n) by set_solver. apply NoDup_cons in Hnd as [Hh Hnd].
  unfold list_add, set_next, set_prev. rewrite Eq, Epq. cbn. rewrite En. cbn.
  rewrite lookup_insert_ne, Ep by done. cbn. rewrite lookup_insert_ne, Eq by done. eexists. split; [done|].
  assert (Hq' : q ∉ tail l).
  { destruct l as [|x l]; cbn [chain] in Hc; [set_solver|]. destruct Hc as [[Hx _] _].
    simplify_eq. by apply NoDup_cons in Hnd as [? _]. }
  split; [split|].
  - apply NoDup_cons. split; [set_solver|]. by apply NoDup_cons.
  - cbn [chain]. split; [split; cbn; [by rewrite lookup_insert_eq|by rewrite lookup_insert_eq]|].
    assert (Hl : link (mk_links (<[h := n]> (<[n := q]> m.(nx))) (<[n := h]> (<[q := n]> m.(pv)))) n q).
    { split; cbn; [by rewrite lookup_insert_ne, lookup_insert_eq by done|by rewrite lookup_insert_ne, lookup_insert_eq by done]. }
    destruct l as [|x l]; cbn [chain] in *; [destruct Hc; by simplify_eq|]. destruct Hc as [[Hx _] Hc]. simplify_eq.
    split; [done|]. eapply chain_frame; [..|exact Hc]; intros y Hy; cbn.
    + rewrite !lookup_insert_ne by set_solver. done.
    + rewrite !lookup_insert_ne by (apply NoDup_cons in Hnd as [? _]; set_solver). done.
  - intros a Ha. cbn. rewrite !lookup_insert_ne by set_solver. done.
Qed.

(** Taking [x] out between its neighbours [p] and [q]. *)
Lemma chain_unlink m m' a l1 x l2 b p q :
  m.(pv) !! x = Some p -> m.(nx) !! x = Some q ->
  NoDup (a :: l1 ++ x :: l2) -> b ∉ l1 ++ x :: l2 ->
  (forall y, y <> p -> y <> x -> m'.(nx) !! y = m.(nx) !! y) ->
  (forall y, y <> q -> y <> x -> m'.(pv) !! y = m.(pv) !! y) ->
  link m' p q ->
  chain m a l1 x -> chain m x l2 b -> chain m' a (l1 ++ l2) b.
Proof.
  intros Ep Eq Hnd Hb Hn Hp [Hpn Hqp] H1 H2. revert a Hnd Hb H1.
  induction l1 as [|y l1 IH]; intros a Hnd Hb H1; cbn [chain app] in *.
  - destruct H1 as [_ Hx]. simplify_eq. apply NoDup_cons in Hnd as [Ha Hnd]. apply NoDup_cons in Hnd as [Hx Hnd].
    destruct l2 as [|z l2]; cbn [chain] in *; destruct H2 as [Hz H2]; simplify_eq; [done|].
    destruct Hz as [Hz _]. simplify_eq. split; [done|]. apply NoDup_cons in Hnd as [Hnz Hnd].
    eapply chain_frame; [..|exact H2]; intros y Hy; [apply Hn|apply Hp]; set_solver.
  - destruct H1 as [[Ha Hy] H1]. apply NoDup_cons in Hnd as [Hna Hnd]. split; [|apply IH; [done|set_solver|done]].
    assert (Hpa : p <> a).
    { intros ->. destruct (decide (y = x)) as [->|]; [by apply NoDup_cons in Hnd as [? _]; set_solver|].
      assert (Hl : exists p', p' ∈ y :: l1 /\ m.(pv) !! x = Some p').
      { clear -H1. revert y H1. induction l1 as [|z l1 IH]; intros y; cbn [chain].
        - intros [_ ?]. exists y. set_solver.
        - intros [_ Hc]. destruct (IH z Hc) as (p' & ? & ?). exists p'. set_solver. }
      destruct Hl as (p' & Hin & E). simplify_eq. set_solver. }
    assert (Hqy : q <> y).
    { intros ->. apply NoDup_cons in Hnd as [Hny _]. destruct l2 as [|z l2]; cbn [chain] in H2;
        [destruct H2|destruct H2 as [[] _]]; simplify_eq; set_solver. }
    split; [rewrite Hn|rewrite Hp]; try done; set_solver.
Qed.

Lemma chain_prev m a l x : chain m a l x -> exists p, p ∈ a :: l /\ m.(pv) !! x = Some p /\ m.(nx) !! p = Some x.
Proof.
  revert a. induction l as [|z l IH]; intros a; cbn [chain].
  - intros [??]. exists a. set_solver.
  - intros [_ Hc]. destruct (IH z Hc) as (p & ? & ? & ?). exists p. set_solver.
Qed.

Lemma chain_next m x l b : chain m x l b -> exists q, q ∈ l ++ [b] /\ m.(nx) !! x = Some q /\ m.(pv) !! q = Some x.
Proof. destruct l as [|z l]; cbn [chain]; [|intros [Hc _]; revert Hc]; intros [??]; eexists; split_and!; try done; set_solver. Qed.

Lemma list_del_init_spec m h l1 x l2 :
  dlist m h (l1 ++ x :: l2) ->
  exists m', list_del_init x m = Some m' /\ dlist m' h (l1 ++ l2) /\
             same_off (h :: l1 ++ x :: l2) m m' /\ is_Some (m'.(nx) !! x) /\ is_Some (m'.(pv) !! x).
Proof.
  intros [Hnd Hc]. apply chain_app in Hc as [H1 H2].
  destruct (chain_prev _ _ _ _ H1) as (p & Hpin & Ep & Epn).
  destruct (chain_next _ _ _ _ H2) as (q & Hqin & Eq & Eqp).
  assert (Hhx : h <> x /\ (x ∉ l1) /\ (x ∉ l2)).
  { apply NoDup_cons in Hnd as [Hh Hnd]. apply NoDup_app in Hnd as (_ & Hd & Hnd). apply NoDup_cons in Hnd as [? _].
    split_and!; [set_solver| |done]. intros Hx. apply (Hd x Hx). set_solver. }
  assert (Hpx : p <> x) by set_solver. assert (Hqx : q <> x) by set_solver.
  unfold list_del_init, list_del, set_next, set_prev. rewrite Eq, Ep. cbn. rewrite Eqp. cbn. rewrite Epn. cbn.
  eexists. split; [done|]. split_and!; cbn; [split| |by rewrite lookup_insert_eq|by rewrite lookup_insert_eq].
  - apply NoDup_cons in Hnd as [Hh Hnd]. apply NoDup_cons. split; [set_solver|].
    apply NoDup_app in Hnd as (? & Hd & Hnd). apply NoDup_app. apply NoDup_cons in Hnd as [_ ?]. set_solver.
  - eapply (chain_unlink m _ h l1 x l2 h p q); try done; cbn.
    + apply NoDup_cons in Hnd as [? _]. done.
    + intros y ??. by rewrite !lookup_insert_ne by done.
    + intros y ??. by rewrite !lookup_insert_ne by done.
    + split; cbn; by rewrite lookup_insert_ne, lookup_insert_eq by done.
  - intros a Ha. cbn. rewrite !lookup_insert_ne by set_solver. done.
Qed.

(** Taking a node out of one list and putting it at the front of another. *)
Lemma list_move_spec m h l1 x l2 h' g :
  NoDup ((h :: l1 ++ x :: l2) ++ h' :: g) -> dlist m h (l1 ++ x :: l2) -> dlist m h' g ->
  exists m1 m2, list_del_init x m = Some m1 /\ list_add x h' m1 = Some m2 /\ dlist m2 h (l1 ++ l2) /\ dlist m2 h' (x :: g).
Proof.
  intros (Hnl & Hd & _)%NoDup_app Hl Hg. destruct (list_del_init_spec _ _ _ _ _ Hl) as (m1 & E1 & D1 & F1 & N1 & P1).
  assert (Hg1 : dlist m1 h' g) by (eapply dlist_frame; [exact F1| |done]; intros a Ha1 Ha2; by apply (Hd a)).
  destruct (list_add_spec m1 h' g x Hg1) as (m2 & E2 & D2 & F2); [|done|done|].
  { intros Hx. apply (Hd x); [set_solver|done]. }
  exists m1, m2. split_and!; try done. eapply dlist_frame; [exact F2| |done]. intros a Ha [->|Ha2]%elem_of_cons.
  - apply NoDup_cons in Hnl as [Hh Hnl]. apply NoDup_app in Hnl as (_ & Hd2 & [Hx _]%NoDup_cons). set_solver.
  - apply (Hd a); [set_solver|done].
Qed.

(** The last node is the one before the head. *)
Lemma list_last_spec m h l x : dlist m h (l ++ [x]) -> m.(pv) !! h = Some x.
Proof. intros [_ Hc]. by apply chain_app in Hc as [_ [_ ?]]. Qed.

Lemma drop_node_off m x : same_off [x] m (drop_node x m).
Proof. intros a Ha. cbn. rewrite !lookup_delete_ne by set_solver. done. Qed.
End ListHead.

(** * Hash chains *)

(** The address of a [struct hlist_node *]: a bucket, or the [next] field of a
    node. *)
Inductive hcell (A : Type) : Type := Bucket (i : nat) | NextOf (a : A).
Arguments Bucket {A} _.
Arguments NextOf {A} _.

(** [hlist_head first], and the fields of the nodes; [None] is a null pointer. *)
Record hlinks (A : Type) `{Countable A} : Type := mk_hlinks {
  first : gmap nat (option A);
  hnext : gmap A (option A);
  pprev : gmap A (option (hcell A)) }.
Arguments mk_hlinks {A _ _} _ _ _.
Arguments first {A _ _} _.
Arguments hnext {A _ _} _.
Arguments pprev {A _ _} _.

Section HList.
Context {A : Type} `{Countable A}.

Definition hread (c : hcell A) (m : hlinks A) : option (option A) :=
  match c with Bucket i => m.(first) !! i | NextOf a => m.(hnext) !! a end.

Definition hwrite (c : hcell A) (v : option A) (m : hlinks A) : option (hlinks A) :=
  let? _ := hread c m in
  Some match c with
       | Bucket i => mk_hlinks (<[i := v]> m.(first)) m.(hnext) m.(pprev)
       | NextOf a => mk_hlinks m.(first) (<[a := v]> m.(hnext)) m.(pprev)
       end.

Definition set_pprev (a : A) (v : option (hcell A)) (m : hlinks A) : option (hlinks A) :=
  let? _ := m.(pprev) !! a in Some (mk_hlinks m.(first) m.(hnext) (<[a := v]> m.(pprev))).

(** Initialisation, of new nodes as well. *)
Definition INIT_HLIST_NODE (a : A) (m : hlinks A) : hlinks A :=
  mk_hlinks m.(first) (<[a := None]> m.(hnext)) (<[a := None]> m.(pprev)).

(** [INIT_HLIST_HEAD] of the buckets [0 .. n-1]. *)
Definition no_hlinks (n : nat) : hlinks A := mk_hlinks (list_to_map ((fun i => (i, None)) <$> seq 0 n)) ∅ ∅.

Definition hlist_empty (i : nat) (m : hlinks A) : option bool :=
  let? f := m.(first) !! i in Some (bool_decide (f = None)).

Definition hlist_add_head (n : A) (i : nat) (m : hlinks A) : option (hlinks A) :=
  let? f := m.(first) !! i in
  let? m := hwrite (NextOf n) f m in
  let? m := match f with Some x => set_pprev x (Some (NextOf n)) m | None => Some m end in
  let? m := hwrite (Bucket i) (Some n) m in
  set_pprev n (Some (Bucket i)) m.

Definition hlist_unhashed (n : A) (m : hlinks A) : option bool :=
  let? p := m.(pprev) !! n in Some (bool_decide (p = None)).

Definition hlist_del (n : A) (m : hlinks A) : option (hlinks A) :=
  let? next := m.(hnext) !! n in
  let? pp := m.(pprev) !! n in
  let? c := pp in
  let? m := hwrite c next m in
  match next with Some x => set_pprev x (Some c) m | None => Some m end.

Definition hlist_del_init (n : A) (m : hlinks A) : option (hlinks A) :=
  let? u := hlist_unhashed n m in
  if u : bool then Some m
  else let? m := hlist_del n m in Some (INIT_HLIST_NODE n m).

Definition hdrop_node (n : A) (m : hlinks A) : hlinks A :=
  mk_hlinks m.(first) (delete n m.(hnext)) (delete n m.(pprev)).

(** ** The nodes of a chain *)

Implicit Types (m : hlinks A) (a n x : A) (c : hcell A) (l : list A).

Fixpoint hchain m c l : Prop :=
  match l with
  | [] => hread c m = Some None
  | x :: l => hread c m = Some (Some x) /\ m.(pprev) !! x = Some (Some c) /\ hchain m (NextOf x) l
  end.

Definition hlist m (i : nat) l : Prop := NoDup l /\ hchain m (Bucket i) l.

(** All nodes outside of [S] and all buckets but [i] are the same. *)
Definition hsame_off (i : nat) (S : list A) m m' : Prop :=
  (forall j, j <> i -> m'.(first) !! j = m.(first) !! j) /\
  (forall a, a ∉ S -> m'.(hnext) !! a = m.(hnext) !! a /\ m'.(pprev) !! a = m.(pprev) !! a).

Lemma hchain_frame m m' c l :
  hread c m' = hread c m ->
  (forall y, y ∈ l -> m'.(hnext) !! y = m.(hnext) !! y /\ m'.(pprev) !! y = m.(pprev) !! y) ->
  hchain m c l -> hchain m' c l.
Proof.
  revert c. induction l as [|x l IH]; intros c Hc Hl; cbn [hchain]; rewrite Hc; [done|].
  intros (E & Ep & Ht). destruct (Hl x ltac:(set_solver)) as [Hn Hp]. rewrite Hp. split_and!; [done|done|].
  apply IH; [done| |done]. intros y Hy. apply Hl. set_solver.
Qed.

Lemma hlist_frame m m' i S j l :
  hsame_off i S m m' -> j <> i -> (forall a, a ∈ l -> a ∉ S) -> hlist m j l -> hlist m' j l.
Proof.
  intros [Hf Hs] Hj Hd [Hnd Hc]. split; [done|]. eapply hchain_frame; [..|exact Hc]; [by apply Hf|]. intros y Hy. by apply Hs, Hd.
Qed.

Lemma hchain_fields m c l y : hchain m c l -> y ∈ l -> is_Some (m.(hnext) !! y) /\ is_Some (m.(pprev) !! y).
Proof.
  revert c. induction l as [|x l IH]; intros c; cbn [hchain]; [set_solver|]. intros (_ & Ep & Ht) [->|Hy]%elem_of_cons; [|by eapply IH].
  split; [|by eexists]. destruct l; cbn [hchain hread] in Ht; [by eexists|destruct Ht; by eexists].
Qed.

Lemma no_hlinks_spec (k i : nat) : (i < k)%nat -> hlist (no_hlinks k) i [].
Proof.
  intros Hi. split; [constructor|]. cbn. apply elem_of_list_to_map.
  - rewrite <-list_fmap_compose. apply NoDup_fmap; [by intros ??|apply NoDup_seq].
  - apply list_elem_of_fmap. exists i. split; [done|]. apply elem_of_seq. lia.
Qed.

Lemma hlist_empty_spec m i l : hlist m i l -> hlist_empty i m = Some (bool_decide (l = [])).
Proof.
  intros [_ Hc]. unfold hlist_empty. destruct l as [|x l]; cbn [hchain hread] in Hc.
  - by rewrite Hc, !bool_decide_true by done.
  - destruct Hc as [-> _]. by rewrite !bool_decide_false by done.
Qed.

Lemma hlist_add_spec m i l n :
  hlist m i l -> n ∉ l -> is_Some (m.(hnext) !! n) -> is_Some (m.(pprev) !! n) ->
  exists m', hlist_add_head n i m = Some m' /\ hlist m' i (n :: l) /\ hsame_off i (n :: l) m m'.
Proof.
  intros [Hnd Hc] Hn [vn En] [vp Ep]. destruct l as [|x l].
  - cbn [hchain hread] in Hc. unfold hlist_add_head, hwrite, set_pprev, hread. rewrite Hc, En. cbn. rewrite Hc. cbn. rewrite Ep.
    eexists. split; [done|]. split; [split; [apply NoDup_singleton|]|].
    + cbn. rewrite !lookup_insert_eq. done.
    + split; cbn; intros; rewrite !lookup_insert_ne by set_solver; done.
  - cbn [hchain hread] in Hc. destruct Hc as (E & Epx & Hc). apply not_elem_of_cons in Hn as [Hnx Hnl].
    unfold hlist_add_head, hwrite, set_pprev, hread. rewrite E, En. cbn. rewrite Epx. cbn. rewrite E. cbn.
    rewrite lookup_insert_ne, Ep by done. eexists. split; [done|].
    apply NoDup_cons in Hnd as [Hx Hnd]. split; [split|].
    + apply NoDup_cons. split; [set_solver|]. by apply NoDup_cons.
    + cbn. rewrite !lookup_insert_eq. split_and!; [done|done|done|by rewrite lookup_insert_ne, lookup_insert_eq by done|].
      eapply hchain_frame; [..|exact Hc]; cbn; [by rewrite lookup_insert_ne by done|].
      intros y Hy. rewrite !lookup_insert_ne by set_solver. done.
    + split; cbn; intros; rewrite !lookup_insert_ne by set_solver; done.
Qed.

Lemma hchain_unlink m m' c l1 x l2 cx :
  m.(pprev) !! x = Some (Some cx) ->
  NoDup (l1 ++ x :: l2) ->
  (forall a, c = NextOf a -> a ∉ l1 ++ x :: l2) ->
  (forall c', c' <> cx -> c' <> NextOf x -> hread c' m' = hread c' m) ->
  (forall y, y ∈ l1 -> m'.(pprev) !! y = m.(pprev) !! y) ->
  hread cx m' = hread (NextOf x) m ->
  hchain m' cx l2 ->
  hchain m c (l1 ++ x :: l2) -> hchain m' c (l1 ++ l2).
Proof.
  intros Ex Hnd Hc Hr Hp Hcx H2. revert c Hc Hnd Hp. induction l1 as [|y l1 IH]; intros c Hc Hnd Hp; cbn [app hchain].
  - intros (E & Ep & Ht). simplify_eq. done.
  - intros (E & Ep & Ht). apply NoDup_cons in Hnd as [Hy Hnd].
    assert (Hin : forall c', hchain m c' (l1 ++ x :: l2) -> exists b, cx = NextOf b /\ b ∈ l1 \/ cx = c').
    { clear -Ex. induction l1 as [|z l1 IH]; intros c'; cbn [app hchain].
      - intros (_ & Ep & _). simplify_eq. exists x. by right.
      - intros (_ & _ & Ht). destruct (IH _ Ht) as [b [[-> Hb]| ->]]; [exists b|exists z]; left; set_solver. }
    destruct (Hin _ Ht) as [b Hb].
    rewrite Hr; cycle 1.
    + intros ->. destruct Hb as [[-> Hb]|Hb]; [apply (Hc b); set_solver|]. apply (Hc y); [done|set_solver].
    + intros ->. apply (Hc x); set_solver.
    + rewrite Hp by set_solver. split_and!; [done|done|]. apply IH; [| done| |done].
      * intros a [= <-]. done.
      * intros z Hz. apply Hp. set_solver.
Qed.

(** The cell that points to a node of a chain, and the rest of the chain. *)
Lemma hchain_at m c l1 x l2 :
  hchain m c (l1 ++ x :: l2) ->
  exists cx, m.(pprev) !! x = Some (Some cx) /\ hread cx m = Some (Some x) /\ hchain m (NextOf x) l2 /\
             (cx = c \/ exists b, cx = NextOf b /\ b ∈ l1).
Proof.
  revert c. induction l1 as [|y l1 IH]; intros c; cbn [app hchain].
  - intros (E & Ep & Ht). exists c. naive_solver.
  - intros (_ & _ & Ht). destruct (IH _ Ht) as (cx & ? & ? & ? & [->|(b & -> & Hb)]); eexists; split_and!; try done;
      right; eexists; split; try done; set_solver.
Qed.

Lemma hwrite_spec m c v w :
  hread c m = Some w ->
  exists m', hwrite c v m = Some m' /\ m'.(pprev) = m.(pprev) /\
             (forall c', c' <> c -> hread c' m' = hread c' m) /\ hread c m' = Some v.
Proof.
  intros E. unfold hwrite. rewrite E. cbn. eexists. split; [done|].
  destruct c as [i|b]; cbn; (split_and!; [done| |by rewrite lookup_insert_eq]); intros [k|a] Hne; cbn; try done;
    rewrite lookup_insert_ne by congruence; done.
Qed.

(** The rest of a chain, hung onto another cell. *)
Lemma hang_spec m c l :
  NoDup l -> (forall b, c = NextOf b -> b ∉ l) ->
  hread c m = Some (head l) -> (forall x, head l = Some x -> is_Some (m.(pprev) !! x) /\ hchain m (NextOf x) (tail l)) ->
  exists m', match head l with Some x => set_pprev x (Some c) m | None => Some m end = Some m' /\
             (forall c', hread c' m' = hread c' m) /\ hchain m' c l /\
             (forall y, y ∉ l -> m'.(pprev) !! y = m.(pprev) !! y).
Proof.
  intros Hnd Hc Er Hl. destruct l as [|z l]; cbn [head hchain tail] in *; [by exists m|].
  destruct (Hl z eq_refl) as [[v Epz] Hz]. unfold set_pprev. rewrite Epz. cbn. eexists. split; [done|].
  apply NoDup_cons in Hnd as [Hzl Hnd].
  split_and!; [by intros []|by destruct c|by cbn; rewrite lookup_insert_eq| |].
  - eapply (hchain_frame m); [done| |exact Hz]. intros y Hy. cbn. split; [done|]. rewrite lookup_insert_ne; [done|]. by intros ->.
  - intros y Hy. cbn. rewrite lookup_insert_ne; [done|]. set_solver.
Qed.

Lemma hlist_del_spec m i l1 x l2 :
  hlist m i (l1 ++ x :: l2) ->
  exists m' cx, m.(pprev) !! x = Some (Some cx) /\ (cx = Bucket i \/ exists b, cx = NextOf b /\ b ∈ l1) /\
    hlist_del x m = Some m' /\ hchain m' cx l2 /\ hread cx m' = hread (NextOf x) m /\
    (forall c', c' <> cx -> hread c' m' = hread c' m) /\ (forall y, y ∉ l2 -> m'.(pprev) !! y = m.(pprev) !! y).
Proof.
  intros [Hnd Hc]. destruct (hchain_at _ _ _ _ _ Hc) as (cx & Ep & Er & H2 & Hcx).
  apply NoDup_app in Hnd as (_ & Hd & Hn2). apply NoDup_cons in Hn2 as [Hx2 Hn2].
  assert (En : m.(hnext) !! x = Some (head l2)) by (destruct l2; cbn [hchain hread] in H2; naive_solver).
  destruct (hwrite_spec m cx (head l2) _ Er) as (m1 & E1 & Hp1 & Hr1 & Hc1).
  assert (Hb : forall b, cx = NextOf b -> b ∉ l2).
  { intros b ->. destruct Hcx as [?|(b' & [= <-] & Hb)]; [done|]. intros Hb2. apply (Hd b Hb). set_solver. }
  destruct (hang_spec m1 cx l2 Hn2 Hb Hc1) as (m2 & E2 & Hr2 & Hc2 & Hp2).
  { intros z Hz. rewrite Hp1. destruct l2 as [|z' l2]; [done|]. injection Hz as ->.
    cbn [hchain] in H2. destruct H2 as (_ & Epz & H2). apply NoDup_cons in Hn2 as [Hz Hn2]. split; [by eexists|]. cbn [tail].
    eapply hchain_frame; [apply Hr1; intros <-; apply (Hb z eq_refl); set_solver| |exact H2].
    intros y Hy. rewrite Hp1. split; [|done]. apply (Hr1 (NextOf y)). intros <-. apply (Hb y eq_refl). set_solver. }
  exists m2, cx. split_and!; try done.
  - unfold hlist_del. rewrite En, Ep. cbn [mbind option_bind]. rewrite E1. exact E2.
  - rewrite Hr2, Hc1. by rewrite <-En.
  - intros c' Hne. rewrite Hr2. by apply Hr1.
  - intros y Hy. rewrite Hp2 by done. by rewrite Hp1.
Qed.

Lemma hlist_del_init_spec m i l1 x l2 :
  hlist m i (l1 ++ x :: l2) ->
  exists m', hlist_del_init x m = Some m' /\ hlist m' i (l1 ++ l2) /\ hsame_off i (l1 ++ x :: l2) m m' /\
             is_Some (m'.(hnext) !! x) /\ is_Some (m'.(pprev) !! x).
Proof.
  intros Hl. pose proof Hl as [Hnd Hc]. destruct (hlist_del_spec _ _ _ _ _ Hl) as (m2 & cx & Ep & Hcx & E & H2 & Hrx & Hr & Hp).
  assert (Hd : forall y, y ∈ l1 -> (y ∉ l2) /\ y <> x).
  { intros y Hy. apply NoDup_app in Hnd as (_ & Hd & _). specialize (Hd y Hy). set_solver. }
  assert (Hx2 : x ∉ l2) by (by apply NoDup_app in Hnd as (_ & _ & [? _]%NoDup_cons)).
  assert (Hcne : cx <> NextOf x) by (destruct Hcx as [->|(b & -> & Hb)]; [done|intros [= ->]; by apply Hd in Hb as []]).
  unfold hlist_del_init, hlist_unhashed. rewrite Ep. cbn [mbind option_bind]. rewrite bool_decide_false by done.
  rewrite E. eexists. split; [done|].
  assert (Hr3 : forall c', c' <> NextOf x -> hread c' (INIT_HLIST_NODE x m2) = hread c' m2).
  { intros [j|a] Hne; cbn; [done|]. rewrite lookup_insert_ne; [done|]. congruence. }
  split_and!; [split| |by cbn; rewrite lookup_insert_eq|by cbn; rewrite lookup_insert_eq].
  - pose proof Hnd as (Hn1 & _ & [_ Hn2]%NoDup_cons)%NoDup_app. apply NoDup_app. split_and!; [done| |done]. naive_solver.
  - eapply (hchain_unlink m _ _ l1 x l2 cx); try done.
    + intros c' Hc1 Hc2. rewrite Hr3 by done. by apply Hr.
    + intros y Hy. cbn. rewrite lookup_insert_ne by naive_solver. apply Hp. by apply Hd.
    + by rewrite Hr3.
    + eapply hchain_frame; [..|exact H2]; [by apply Hr3|]. intros y Hy. cbn. rewrite !lookup_insert_ne by set_solver. done.
  - split.
    + intros j Hj. apply (Hr (Bucket j)). intros <-. destruct Hcx as [[= ->]|(b & ? & _)]; done.
    + intros a Ha. cbn. rewrite !lookup_insert_ne by set_solver. split; [|apply Hp; set_solver].
      apply (Hr (NextOf a)). intros <-. destruct Hcx as [?|(b & [= ->] & Hb)]; [done|]. set_solver.
Qed.
(** Changes to a node that is in no chain. *)
Lemma hlist_other m m' i l :
  m'.(first) = m.(first) ->
  (forall a, a ∈ l -> m'.(hnext) !! a = m.(hnext) !! a /\ m'.(pprev) !! a = m.(pprev) !! a) ->
  hlist m i l -> hlist m' i l.
Proof. intros Hf Hs [Hnd Hc]. split; [done|]. eapply hchain_frame; [|exact Hs|exact Hc]. cbn. by rewrite Hf. Qed.

Lemma hlist_drop m i l x : x ∉ l -> hlist m i l -> hlist (hdrop_node x m) i l.
Proof. intros Hx. apply hlist_other; [done|]. intros a Ha. cbn. rewrite !lookup_delete_ne by set_solver. done. Qed.

Lemma hlist_init m i l x : x ∉ l -> hlist m i l -> hlist (INIT_HLIST_NODE x m) i l.
Proof. intros Hx. apply hlist_other; [done|]. intros a Ha. cbn. rewrite !lookup_insert_ne by set_solver. done. Qed.
End HList.
