(* ===== verification/Cache.v ===== *)
(** The block cache of cache.c: live entries in a list by age, evicted ones kept
    as history in a ghost list, both reachable through the hash chains. The lists
    are modelled at the level of their pointers (Ilist); an entry is named by its
    address. [calloc] in [cache_put] is an argument: the address it returns, or
    [None] when it fails; [malloc] in [cache_create] is taken to succeed. *)

From stdpp Require Import base list option numbers gmap countable.
From Stdlib Require Import ZArith Lia Bool.
From S2P Require Import Prelude Ilist.
#[local] Open Scope Z_scope.

Definition THRESHOLD : Z := 4096.

(** [struct list_head]s: the two heads in [cache_t] and the one in each entry. *)
Inductive lnode : Type := LList | LGhost | LEntry (e : positive).

#[global] Instance lnode_eq_dec : EqDecision lnode.
Proof. solve_decision. Defined.

#[global] Instance lnode_countable : Countable lnode.
Proof.
  refine (inj_countable' (fun n => match n with LList => inl true | LGhost => inl false | LEntry e => inr e end)
            (fun x => match x with inl true => LList | inl false => LGhost | inr e => LEntry e end) _).
  by intros [].
Defined.

(** The data fields of an entry; its nodes are in [lists] and [chains]. *)
Record cache_entry_t : Type := mk_entry { value : Z; alive : bool; key : Z; freq : Z }.

Definition set_ent_alive (b : bool) (e : cache_entry_t) : cache_entry_t := mk_entry e.(value) b e.(key) e.(freq).
Definition set_ent_freq (f : Z) (e : cache_entry_t) : cache_entry_t := mk_entry e.(value) e.(alive) e.(key) f.

(** A cache, with the static variables [cache_size_bits] and [cache_size].
    [wide_hash] tells the builds apart: those with JIT and SYSTEM, which alone have
    the invalidation functions, hash 64-bit keys, the others 32-bit ones. *)
Record cache_t : Type := mk_cache {
  wide_hash : bool;
  cache_size_bits : Z;
  cache_size : Z;
  entries : gmap positive cache_entry_t;
  lists : links lnode;
  chains : hlinks positive;
  size : Z;
  ghost_list_size : Z;
  capacity : Z }.

Definition set_entries (x : gmap positive cache_entry_t) (c : cache_t) : cache_t :=
  mk_cache c.(wide_hash) c.(cache_size_bits) c.(cache_size) x c.(lists) c.(chains) c.(size) c.(ghost_list_size) c.(capacity).
Definition set_lists (x : links lnode) (c : cache_t) : cache_t :=
  mk_cache c.(wide_hash) c.(cache_size_bits) c.(cache_size) c.(entries) x c.(chains) c.(size) c.(ghost_list_size) c.(capacity).
Definition set_chains (x : hlinks positive) (c : cache_t) : cache_t :=
  mk_cache c.(wide_hash) c.(cache_size_bits) c.(cache_size) c.(entries) c.(lists) x c.(size) c.(ghost_list_size) c.(capacity).
Definition set_size (x : Z) (c : cache_t) : cache_t :=
  mk_cache c.(wide_hash) c.(cache_size_bits) c.(cache_size) c.(entries) c.(lists) c.(chains) x c.(ghost_list_size) c.(capacity).
Definition set_ghost_list_size (x : Z) (c : cache_t) : cache_t :=
  mk_cache c.(wide_hash) c.(cache_size_bits) c.(cache_size) c.(entries) c.(lists) c.(chains) c.(size) x c.(capacity).

(** [HASH_FUNC_IMPL(cache_hash, ...)], in its two variants; with [cache_size_bits] =
    0 the shift is by the width of the type. *)
Definition cache_hash (c : cache_t) (val : Z) : option nat :=
  if c.(cache_size_bits) =? 0 then None
  else
    let h :=
      if c.(wide_hash) then u64 (val * 0x61c8864680b583eb) ≫ (64 - c.(cache_size_bits))
      else u32 (val * 0x61C88647) ≫ (32 - c.(cache_size_bits)) in
    Some (Z.to_nat (h .& (c.(cache_size) - 1))).

(** [1 << 31] does not fit an [int]. *)
Definition cache_create (wide : bool) (size_bits : Z) : option (option cache_t) :=
  if 32 <=? size_bits then Some None
  else if size_bits =? 31 then None
  else
    let n := 1 ≪ size_bits in
    Some (Some (mk_cache wide size_bits n ∅ (INIT_LIST_HEAD LGhost (INIT_LIST_HEAD LList no_links))
                  (no_hlinks (Z.to_nat n)) 0 0 n)).

(** [hlist_for_each_entry] up to the first entry with [p]; the result is that
    entry, or a null pointer at the end of the chain. *)
Fixpoint search (fuel : nat) (p : cache_entry_t -> bool) (pos : option positive) (c : cache_t) : option (option positive) :=
  match fuel, pos with
  | _, None => Some None
  | O, _ => None
  | S fuel, Some a =>
      let? e := c.(entries) !! a in
      if p e then Some (Some a)
      else let? next := c.(chains).(hnext) !! a in search fuel p next c
  end.

Definition search_chain (p : cache_entry_t -> bool) (h : nat) (c : cache_t) : option (option positive) :=
  let? f := c.(chains).(first) !! h in
  search (base.size c.(entries)) p f c.

Definition has_key (k : Z) (e : cache_entry_t) : bool := e.(key) =? k.

Definition cache_get (c : cache_t) (k : Z) (update : bool) : option (Z * cache_t) :=
  if c.(capacity) =? 0 then Some (0, c)
  else
    let? h := cache_hash c k in
    let? none := hlist_empty h c.(chains) in
    if none : bool then Some (0, c)
    else
      let? r := search_chain (has_key k) h c in
      match r with
      | None => Some (0, c)
      | Some a =>
          let? e := c.(entries) !! a in
          if negb e.(alive) then Some (0, c)
          else
            let c := if update then set_entries (<[a := set_ent_freq (u32 (e.(freq) + 1)) e]> c.(entries)) c else c in
            Some (e.(value), c)
      end.

(** [hlist_del_init], [list_del_init] and [free] of an entry of the ghost list. *)
Definition forget (a : positive) (c : cache_t) : option cache_t :=
  let? ch := hlist_del_init a c.(chains) in
  let? ls := list_del_init (LEntry a) c.(lists) in
  let c := set_ghost_list_size (u32 (c.(ghost_list_size) - 1)) c in
  Some (set_entries (delete a c.(entries)) (set_lists (drop_node (LEntry a) ls) (set_chains (hdrop_node a ch) c))).

(** [list_last_entry]; for an empty list there is no entry around the node. *)
Definition list_last_entry (head : lnode) (c : cache_t) : option positive :=
  let? n := c.(lists).(pv) !! head in
  match n with LEntry a => Some a | _ => None end.

Definition cache_ghost_list_update (c : cache_t) : option cache_t :=
  if c.(ghost_list_size) <=? c.(capacity) then Some c
  else
    let? a := list_last_entry LGhost c in
    let? e := c.(entries) !! a in
    if e.(alive) then None else forget a c.

(** The replaced entry goes to the ghost list. *)
Definition retire (a : positive) (c : cache_t) : option (Z * cache_t) :=
  let? e := c.(entries) !! a in
  if negb e.(alive) then None
  else
    let c := set_entries (<[a := set_ent_alive false e]> c.(entries)) c in
    let? ls := list_del_init (LEntry a) c.(lists) in
    let c := set_size (u32 (c.(size) - 1)) c in
    let? ls := list_add (LEntry a) LGhost ls in
    Some (e.(value), set_ghost_list_size (u32 (c.(ghost_list_size) + 1)) (set_lists ls c)).

(** The way back, when the allocation fails. *)
Definition restore (a : positive) (c : cache_t) : option cache_t :=
  let? e := c.(entries) !! a in
  let c := set_entries (<[a := set_ent_alive true e]> c.(entries)) c in
  let? ls := list_del_init (LEntry a) c.(lists) in
  let? ls := list_add (LEntry a) LList ls in
  let c := set_size (u32 (c.(size) + 1)) (set_lists ls c) in
  Some (set_ghost_list_size (u32 (c.(ghost_list_size) - 1)) c).

(** The entry to be replaced and the one to be revived. *)
Definition cache_victims (c : cache_t) (k v : Z) : option (option positive * option positive) :=
  let? h := cache_hash c k in
  let? r := search_chain (has_key k) h c in
  let? (replaced, revived) :=
    match r with
    | None => Some (None, None)
    | Some a =>
        let? e := c.(entries) !! a in
        if negb e.(alive) then Some (None, Some a)
        else if negb (e.(value) =? v) then Some (Some a, None)
        else None
    end in
  match replaced with
  | Some a => Some (Some a, revived)
  | None =>
      if c.(size) =? c.(capacity) then let? a := list_last_entry LList c in Some (Some a, revived)
      else Some (None, revived)
  end.

(** The new entry, with the history of the revived one. *)
Definition cache_add (a : positive) (k v : Z) (revived : option positive) (c : cache_t) : option cache_t :=
  let c := set_chains (INIT_HLIST_NODE a c.(chains)) (set_lists (INIT_LIST_HEAD (LEntry a) c.(lists)) c) in
  let? (f, c) :=
    match revived with
    | None => Some (1, c)
    | Some r =>
        let? e := c.(entries) !! r in
        let? c := forget r c in
        Some (u32 (e.(freq) + 1), c)
    end in
  let c := set_entries (<[a := mk_entry v true k f]> c.(entries)) c in
  let? ls := list_add (LEntry a) LList c.(lists) in
  let? h := cache_hash c k in
  let? ch := hlist_add_head a h c.(chains) in
  Some (set_size (u32 (c.(size) + 1)) (set_chains ch (set_lists ls c))).

Definition cache_put (calloc : option positive) (c : cache_t) (k v : Z) : option (Z * cache_t) :=
  if negb (c.(size) <=? c.(capacity)) then None
  else
    let? (replaced, revived) := cache_victims c k v in
    let? (replaced_value, c) := match replaced with Some a => retire a c | None => Some (0, c) end in
    match calloc with
    | None =>
        let? c := match replaced with Some a => restore a c | None => Some c end in
        Some (0, c)
    | Some a =>
        let? c := cache_add a k v revived c in
        let? c := cache_ghost_list_update c in
        if negb ((c.(size) <=? c.(capacity)) && (c.(ghost_list_size) <=? c.(capacity))) then None
        else Some (replaced_value, c)
    end.

Definition lookup_entry (p : cache_entry_t -> bool) (c : cache_t) (k : Z) : option (option positive) :=
  if c.(capacity) =? 0 then Some None
  else
    let? h := cache_hash c k in
    let? none := hlist_empty h c.(chains) in
    if none : bool then Some None else search_chain p h c.

Definition cache_freq (c : cache_t) (k : Z) : option Z :=
  let? r := lookup_entry (fun e => has_key k e && e.(alive)) c k in
  match r with
  | None => Some 0
  | Some a => let? e := c.(entries) !! a in Some e.(freq)
  end.

Definition cache_hot (c : cache_t) (k : Z) : option bool :=
  let? r := lookup_entry (fun e => has_key k e && (e.(alive) && (THRESHOLD <=? e.(freq)))) c k in
  Some (bool_decide (r <> None)).

(** [list_for_each_entry] over the live entries, from the node after [pos]. *)
Fixpoint live_from (fuel : nat) (pos : lnode) (c : cache_t) : option (list cache_entry_t) :=
  let? n := c.(lists).(nx) !! pos in
  match fuel, n with
  | _, LList => Some []
  | S fuel, LEntry a =>
      let? e := c.(entries) !! a in
      let? l := live_from fuel n c in
      Some (e :: l)
  | _, _ => None
  end.

Definition live_entries (c : cache_t) : option (list cache_entry_t) := live_from (base.size c.(entries)) LList c.

(** The calls of [func] in [cache_profile] and in [clear_cache_hot]. *)
Definition cache_profile (c : cache_t) : option (list (Z * Z)) :=
  let? l := live_entries c in Some ((fun e => (e.(value), e.(freq))) <$> l).

Definition clear_cache_hot (c : cache_t) : option (list Z) :=
  let? l := live_entries c in Some (value <$> l).

(** * Invalidation of compiled blocks *)

(** The fields of [block_t] that SFENCE.VMA needs, by the address of the block. *)
Record cached_block : Type := mk_cached { satp : Z; pc_start : Z; pc_end : Z; invalidated : bool }.

Definition invalidate (b : cached_block) : cached_block := mk_cached b.(satp) b.(pc_start) b.(pc_end) true.

Definition RV_PG_SHIFT : Z := 12.
Definition RV_PG_SIZE : Z := 1 ≪ RV_PG_SHIFT.

(** The page of an address: [a & ~(RV_PG_SIZE - 1)]. *)
Definition page (a : Z) : Z := a .& not32 (RV_PG_SIZE - 1).

(** The loop over the live entries: the block of an entry that [p] selects is
    marked and counted. *)
Fixpoint invalidate_loop (p : cached_block -> bool) (l : list cache_entry_t) (m : gmap Z cached_block) (count : Z) :
    option (Z * gmap Z cached_block) :=
  match l with
  | [] => Some (count, m)
  | e :: l =>
      if e.(value) =? 0 then invalidate_loop p l m count
      else
        let? b := m !! e.(value) in
        if p b then invalidate_loop p l (<[e.(value) := invalidate b]> m) (u32 (count + 1))
        else invalidate_loop p l m count
  end.

Definition cache_invalidate (p : cached_block -> bool) (c : cache_t) (m : gmap Z cached_block) : option (Z * gmap Z cached_block) :=
  if c.(capacity) =? 0 then Some (0, m)
  else let? l := live_entries c in invalidate_loop p l m 0.

Definition cache_invalidate_satp (c : cache_t) (s : Z) : gmap Z cached_block -> option (Z * gmap Z cached_block) :=
  cache_invalidate (fun b => (b.(satp) =? s) && negb b.(invalidated)) c.

Definition overlaps_page (va : Z) (b : cached_block) : bool :=
  let va_page := page va in
  let block_start_page := page b.(pc_start) in
  let last_byte := if b.(pc_start) <? b.(pc_end) then u32 (b.(pc_end) - 1) else b.(pc_start) in
  let block_end_page := page last_byte in
  (block_start_page <=? va_page) && (va_page <=? block_end_page).

Definition cache_invalidate_va (c : cache_t) (va s : Z) : gmap Z cached_block -> option (Z * gmap Z cached_block) :=
  cache_invalidate (fun b => negb (negb (b.(satp) =? s) || b.(invalidated)) && overlaps_page va b) c.
