(* ===== verification/CacheSpec.v ===== *)
(** The block cache keeps its lists and hash chains consistent and refines two
    bounded lists: the live entries, newest first, and the history of the evicted
    ones. *)

From stdpp Require Import base list option numbers gmap.
From Stdlib Require Import ZArith Lia Bool.
From S2P Require Import Prelude Ilist Cache.
#[local] Open Scope Z_scope.

(** * The abstract cache *)

Record hist : Type := mk_hist { h_key : Z; h_val : Z; h_freq : Z }.

Record lru : Type := mk_lru { live : list hist; ghost : list hist; room : nat }.

Definition pick (k : Z) (l : list hist) : option hist := head (filter (fun e => h_key e = k) l).

Fixpoint remove_first (k : Z) (l : list hist) : list hist :=
  match l with
  | [] => []
  | e :: l => if h_key e =? k then l else e :: remove_first k l
  end.

Definition bump (k : Z) (e : hist) : hist :=
  if h_key e =? k then mk_hist e.(h_key) e.(h_val) (u32 (e.(h_freq) + 1)) else e.

Definition spec_get (k : Z) (update : bool) (s : lru) : Z * lru :=
  match pick k s.(live) with
  | None => (0, s)
  | Some e => (e.(h_val), if update then mk_lru (bump k <$> s.(live)) s.(ghost) s.(room) else s)
  end.

(** Who leaves the live list when [k] enters it, and who stays. *)
Definition leaves_for (k : Z) (s : lru) : option hist * list hist :=
  match pick k s.(live) with
  | Some e => (Some e, remove_first k s.(live))
  | None => if decide (length s.(live) = s.(room)) then (last s.(live), removelast s.(live)) else (None, s.(live))
  end.

(** The count an entry inherits: from its history, unless the key is live. *)
Definition inherited (k : Z) (s : lru) : Z :=
  match pick k s.(live), pick k s.(ghost) with
  | None, Some g => u32 (g.(h_freq) + 1)
  | _, _ => 1
  end.

Definition spec_put (calloc : bool) (k v : Z) (s : lru) : option (Z * lru) :=
  if bool_decide (h_val <$> pick k s.(live) = Some v) then None
  else
    let (gone, stay) := leaves_for k s in
    if calloc then
      let g := option_list gone ++ s.(ghost) in
      let g := match pick k s.(live) with Some _ => g | None => remove_first k g end in
      Some (from_option h_val 0 gone, mk_lru (mk_hist k v (inherited k s) :: stay) (take s.(room) g) s.(room))
    else Some (0, mk_lru (option_list gone ++ stay) s.(ghost) s.(room)).

Definition spec_freq (k : Z) (s : lru) : Z := from_option h_freq 0 (pick k s.(live)).

(** * Filters *)

Lemma filter_none {A} (P : A -> Prop) `{forall x, Decision (P x)} (l : list A) :
  (forall x, x ∈ l -> ~ P x) -> filter P l = [].
Proof.
  induction l as [|x l IH]; intros Hn; [done|]. rewrite filter_cons_False by (apply Hn; left).
  apply IH. intros y Hy. apply Hn. by right.
Qed.

Lemma filter_ext_in {A} (P Q : A -> Prop) `{forall x, Decision (P x)} `{forall x, Decision (Q x)} (l : list A) :
  (forall x, x ∈ l -> P x <-> Q x) -> filter P l = filter Q l.
Proof.
  induction l as [|x l IH]; intros Hi; [done|]. pose proof (Hi x ltac:(left)) as Hx.
  rewrite !filter_cons, IH by (intros y Hy; apply Hi; by right). destruct (decide (P x)), (decide (Q x)); tauto.
Qed.

Lemma filter_swap {A} (P Q : A -> Prop) `{forall x, Decision (P x)} `{forall x, Decision (Q x)} (l : list A) :
  filter P (filter Q l) = filter Q (filter P l).
Proof.
  rewrite !list_filter_filter. apply list_filter_iff. tauto.
Qed.

Lemma filter_ne_id {A} `{EqDecision A} (l : list A) (x : A) : x ∉ l -> filter (fun y => y <> x) l = l.
Proof.
  induction l as [|y l IH]; intros Hl; [done|]. apply not_elem_of_cons in Hl as [Hy Hl].
  rewrite filter_cons_True by done. by rewrite IH.
Qed.

(** A list without one of its elements. *)
Lemma filter_ne {A} `{EqDecision A} (l1 l2 : list A) (x : A) :
  NoDup (l1 ++ x :: l2) -> filter (fun y => y <> x) (l1 ++ x :: l2) = l1 ++ l2.
Proof.
  intros (_ & Hd & [Hx _]%NoDup_cons)%NoDup_app.
  rewrite filter_app, filter_cons_False by (intros ?; done). rewrite !filter_ne_id; [done|done|].
  intros Hx1. apply (Hd x Hx1). left.
Qed.

(** * Consistency *)

(** The bucket of a key: the top bits of its product with the golden ratio, on 64
    or on 32 bits. *)
Definition hash (wide : bool) (bits k : Z) : nat :=
  Z.to_nat ((if wide then u64 (k * 0x61c8864680b583eb) ≫ (64 - bits) else u32 (k * 0x61C88647) ≫ (32 - bits)) .& (2 ^ bits - 1)).

Definition ent (m : gmap positive cache_entry_t) (a : positive) : hist :=
  match m !! a with Some e => mk_hist e.(key) e.(value) e.(freq) | None => mk_hist 0 0 0 end.

Definition key_of (c : cache_t) (a : positive) : Z := h_key (ent c.(entries) a).

(** The entries with key [k], in the order of a list. *)
Definition keyed (c : cache_t) (k : Z) (l : list positive) : list positive := filter (fun a => key_of c a = k) l.

Definition buckets (c : cache_t) : nat := Z.to_nat (2 ^ c.(cache_size_bits)).

(** [ls] and [gs] are the live and the evicted entries, [ch] the hash chains. *)
Record ok (c : cache_t) (ls gs : list positive) (ch : nat -> list positive) : Prop := {
  ok_bits : 0 < c.(cache_size_bits) < 31;
  ok_table : c.(cache_size) = 2 ^ c.(cache_size_bits) /\ c.(capacity) = 2 ^ c.(cache_size_bits);
  ok_live : forall a, a ∈ ls -> exists e, c.(entries) !! a = Some e /\ e.(alive) = true;
  ok_ghost : forall a, a ∈ gs -> exists e, c.(entries) !! a = Some e /\ e.(alive) = false;
  ok_dom : dom c.(entries) = list_to_set (ls ++ gs);
  ok_nodup : NoDup (ls ++ gs);
  ok_list : dlist c.(lists) LList (LEntry <$> ls);
  ok_glist : dlist c.(lists) LGhost (LEntry <$> gs);
  ok_chain : forall i, (i < buckets c)%nat -> hlist c.(chains) i (ch i);
  ok_members : forall i a, (i < buckets c)%nat -> a ∈ ch i -> a ∈ ls ++ gs /\ hash c.(wide_hash) c.(cache_size_bits) (key_of c a) = i;
  ok_order : forall k, keyed c k (ch (hash c.(wide_hash) c.(cache_size_bits) k)) = keyed c k (ls ++ gs);
  ok_keys : NoDup (key_of c <$> ls);
  ok_count : c.(size) = Z.of_nat (length ls) /\ c.(ghost_list_size) = Z.of_nat (length gs);
  ok_bound : (length ls <= S (buckets c))%nat /\ (length gs <= S (buckets c))%nat }.

Definition abs (c : cache_t) (ls gs : list positive) : lru :=
  mk_lru (ent c.(entries) <$> ls) (ent c.(entries) <$> gs) (buckets c).

Lemma hash_range (wide : bool) (bits k : Z) : 0 < bits < 31 -> (hash wide bits k < Z.to_nat (2 ^ bits))%nat.
Proof.
  intros Hb. unfold hash. replace (2 ^ bits - 1) with (Z.ones bits) by (rewrite Z.ones_equiv; lia).
  rewrite Z.land_ones by lia.
  match goal with |- context [?h mod _] => pose proof (Z.mod_pos_bound h (2 ^ bits) ltac:(lia)) end. lia.
Qed.

Section Ok.
Context {c : cache_t} {ls gs : list positive} {ch : nat -> list positive} (O : ok c ls gs ch).

Lemma bits_bound : 0 < 2 ^ c.(cache_size_bits) <= 2 ^ 30.
Proof. destruct (ok_bits _ _ _ _ O). split; [lia|]. apply Z.pow_le_mono_r; lia. Qed.

Lemma buckets_Z : Z.of_nat (buckets c) = 2 ^ c.(cache_size_bits).
Proof. unfold buckets. pose proof bits_bound. lia. Qed.

Lemma cache_hash_ok (k : Z) : cache_hash c k = Some (hash c.(wide_hash) c.(cache_size_bits) k).
Proof.
  destruct (ok_bits _ _ _ _ O). destruct (ok_table _ _ _ _ O) as [E _]. unfold cache_hash.
  destruct (Z.eqb_spec (cache_size_bits c) 0); [lia|]. by rewrite E.
Qed.

Lemma hash_bucket (k : Z) : (hash c.(wide_hash) c.(cache_size_bits) k < buckets c)%nat.
Proof. apply hash_range, (ok_bits _ _ _ _ O). Qed.

Lemma entry_in (a : positive) : a ∈ ls ++ gs -> exists e, c.(entries) !! a = Some e.
Proof. intros [Ha|Ha]%elem_of_app; [destruct (ok_live _ _ _ _ O a Ha)|destruct (ok_ghost _ _ _ _ O a Ha)]; naive_solver. Qed.

(** An entry is in the chain of its key. *)
Lemma in_chain (a : positive) : a ∈ ls ++ gs -> a ∈ ch (hash c.(wide_hash) c.(cache_size_bits) (key_of c a)).
Proof.
  intros Ha. assert (Hk : a ∈ keyed c (key_of c a) (ls ++ gs)) by (by apply list_elem_of_filter).
  rewrite <-(ok_order _ _ _ _ O) in Hk. by apply list_elem_of_filter in Hk as [_ ?].
Qed.

(** The live entry of a key is the only one. *)
Lemma keyed_live (l1 l2 : list positive) (x : positive) :
  ls = l1 ++ x :: l2 -> keyed c (key_of c x) l1 = [] /\ keyed c (key_of c x) l2 = [].
Proof.
  intros E. pose proof (ok_keys _ _ _ _ O) as Hk. rewrite E, fmap_app, fmap_cons in Hk.
  apply NoDup_app in Hk as (_ & Hd & Hk). apply NoDup_cons in Hk as [Hx _].
  split; apply filter_none; intros y Hy Ek.
  - apply (Hd (key_of c y)); [by apply list_elem_of_fmap_2|rewrite Ek; left].
  - apply Hx. rewrite <-Ek. by apply list_elem_of_fmap_2.
Qed.
End Ok.

(** * Moving entries between the lists *)

Ltac fields :=
  unfold set_ghost_list_size, set_size, set_lists, set_chains, set_entries, buckets, key_of in *;
  cbn [wide_hash cache_size_bits cache_size entries lists chains size ghost_list_size capacity] in *.

Lemma ent_alive (m : gmap positive cache_entry_t) (a : positive) (e : cache_entry_t) (b : bool) (x : positive) :
  m !! a = Some e -> ent (<[a := set_ent_alive b e]> m) x = ent m x.
Proof.
  intros E. unfold ent. destruct (decide (x = a)) as [->|Hne]; [by rewrite lookup_insert_eq, E|by rewrite lookup_insert_ne].
Qed.

Lemma keyed_ext (c c' : cache_t) (k : Z) (l : list positive) :
  (forall a, a ∈ l -> key_of c' a = key_of c a) -> keyed c' k l = keyed c k l.
Proof. intros He. apply filter_ext_in. intros a Ha. by rewrite He. Qed.

Lemma keyed_transfer (c c' : cache_t) (k : Z) (l l' : list positive) :
  (forall a, a ∈ l ++ l' -> key_of c' a = key_of c a) -> keyed c k l = keyed c k l' -> keyed c' k l = keyed c' k l'.
Proof. intros He E. rewrite !(keyed_ext c c'); [done|set_solver..]. Qed.

Lemma keyed_move (c : cache_t) (l1 l2 g : list positive) (x : positive) (k : Z) :
  keyed c (key_of c x) l1 = [] -> keyed c (key_of c x) l2 = [] ->
  keyed c k ((l1 ++ x :: l2) ++ g) = keyed c k ((l1 ++ l2) ++ x :: g).
Proof.
  intros H1 H2. unfold keyed in *. rewrite !filter_app, !filter_cons. destruct (decide (key_of c x = k)) as [<-|].
  - by rewrite H1, H2.
  - by rewrite ?app_assoc.
Qed.

Lemma u32_small (x : Z) : 0 <= x < 2 ^ 32 -> u32 x = x.
Proof. intros. unfold u32. by rewrite Z.mod_small. Qed.

#[local] Instance LEntry_inj : Inj eq eq LEntry.
Proof. by intros ?? [= ->]. Qed.

(** The nodes of both lists are different. *)
Lemma nodes_nodup (ls gs : list positive) :
  NoDup (ls ++ gs) -> NoDup ((LList :: (LEntry <$> ls)) ++ LGhost :: (LEntry <$> gs)).
Proof.
  intros Hn. apply (NoDup_fmap_2 LEntry) in Hn. rewrite fmap_app in Hn.
  eapply (NoDup_Permutation_proper _ (LList :: LGhost :: (LEntry <$> ls) ++ (LEntry <$> gs))).
  { cbn. apply Permutation_cons; [done|]. by rewrite <-Permutation_middle. }
  repeat (apply NoDup_cons; split; [set_solver|]). done.
Qed.

Lemma nodup_move (ls1 ls2 gs : list positive) (x : positive) :
  NoDup ((ls1 ++ x :: ls2) ++ gs) <-> NoDup ((ls1 ++ ls2) ++ x :: gs).
Proof.
  assert (E : (ls1 ++ x :: ls2) ++ gs ≡ₚ (ls1 ++ ls2) ++ x :: gs) by (rewrite <-!Permutation_middle; done).
  by rewrite E.
Qed.

(** An entry in another place, with its flag changed. *)
Lemma ok_moved (c : cache_t) (ls gs ls' gs' : list positive) (ch : nat -> list positive) (x : positive) (e : cache_entry_t) (b : bool) (m : links lnode) :
  ok c ls gs ch -> c.(entries) !! x = Some e -> ls' ++ gs' ≡ₚ ls ++ gs ->
  (forall k, keyed c k (ls' ++ gs') = keyed c k (ls ++ gs)) -> NoDup (key_of c <$> ls') ->
  (forall a, a ∈ ls' -> a = x /\ b = true \/ a <> x /\ a ∈ ls) -> (forall a, a ∈ gs' -> a = x /\ b = false \/ a <> x /\ a ∈ gs) ->
  dlist m LList (LEntry <$> ls') -> dlist m LGhost (LEntry <$> gs') ->
  (length ls' <= S (buckets c))%nat /\ (length gs' <= S (buckets c))%nat ->
  ok (mk_cache c.(wide_hash) c.(cache_size_bits) c.(cache_size) (<[x := set_ent_alive b e]> c.(entries)) m c.(chains)
        (Z.of_nat (length ls')) (Z.of_nat (length gs')) c.(capacity)) ls' gs' ch.
Proof.
  intros O Ee Hp Hk Hkeys Hl Hg Dl Dg Hb.
  assert (Hent : forall a, ent (<[x := set_ent_alive b e]> c.(entries)) a = ent c.(entries) a) by (intros; by apply ent_alive).
  constructor; fields; try done; try apply O.
  - intros a Ha. destruct (Hl a Ha) as [[-> ->]|[Hne Hin]]; [rewrite lookup_insert_eq; eauto|].
    rewrite lookup_insert_ne by done. by apply (ok_live _ _ _ _ O).
  - intros a Ha. destruct (Hg a Ha) as [[-> ->]|[Hne Hin]]; [rewrite lookup_insert_eq; eauto|].
    rewrite lookup_insert_ne by done. by apply (ok_ghost _ _ _ _ O).
  - rewrite dom_insert_lookup_L by eauto. rewrite (ok_dom _ _ _ _ O). by rewrite Hp.
  - rewrite Hp. apply O.
  - intros i a Hi Ha. destruct (ok_members _ _ _ _ O i a Hi Ha) as [Hin Hh]. split; [by rewrite Hp|]. by rewrite Hent.
  - intros k. pose proof (ok_order _ _ _ _ O k) as Ho. rewrite <-(Hk k) in Ho.
    eapply keyed_transfer; [|exact Ho]. intros. apply (f_equal h_key), Hent.
  - erewrite list_fmap_ext by (intros; by rewrite Hent). done.
Qed.

Lemma retire_ok (c : cache_t) (l1 l2 gs : list positive) (x : positive) (ch : nat -> list positive) :
  ok c (l1 ++ x :: l2) gs ch -> (length gs <= buckets c)%nat ->
  exists c', retire x c = Some (h_val (ent c.(entries) x), c') /\ ok c' (l1 ++ l2) (x :: gs) ch /\
             (forall a, ent c'.(entries) a = ent c.(entries) a) /\ c'.(cache_size_bits) = c.(cache_size_bits).
Proof.
  intros O Hg. pose proof (bits_bound O) as Hbb. pose proof (buckets_Z O) as Hbz.
  destruct (ok_live _ _ _ _ O x ltac:(set_solver)) as (e & Ee & Ea).
  pose proof (nodes_nodup _ _ (ok_nodup _ _ _ _ O)) as Hn. rewrite fmap_app, fmap_cons in Hn.
  pose proof (ok_list _ _ _ _ O) as Hl. rewrite fmap_app, fmap_cons in Hl.
  destruct (list_move_spec _ _ _ _ _ _ _ Hn Hl (ok_glist _ _ _ _ O)) as (m1 & m2 & E1 & E2 & D1 & D2).
  destruct (keyed_live O l1 l2 x eq_refl) as [K1 K2]. pose proof (proj1 (nodup_move _ _ _ _) (ok_nodup _ _ _ _ O)) as Hnd.
  destruct (ok_count _ _ _ _ O) as [Hc1 Hc2]. destruct (ok_bound _ _ _ _ O) as [Hb1 Hb2]. rewrite !length_app, !length_cons in *.
  assert (O' := ok_moved c _ _ (l1 ++ l2) (x :: gs) ch x e false m2 O Ee). unfold retire. rewrite Ee. cbn [mbind option_bind].
  rewrite Ea. cbn. rewrite E1. cbn. rewrite E2. cbn. eexists. split; [unfold ent; by rewrite Ee|].
  split; [|split; [intros; by apply ent_alive|done]]. rewrite length_app, length_cons in O'. fields.
  rewrite Hc1, Hc2, !u32_small by lia.
  replace (Z.of_nat (length l1 + S (length l2)) - 1) with (Z.of_nat (length l1 + length l2)) by lia.
  replace (Z.of_nat (length gs) + 1) with (Z.of_nat (S (length gs))) by lia. apply O'.
  - by rewrite <-!Permutation_middle.
  - intros k. symmetry. by apply keyed_move.
  - pose proof (ok_keys _ _ _ _ O) as Hk. rewrite fmap_app, fmap_cons in Hk. rewrite fmap_app.
    apply NoDup_app in Hk as (? & Hd & [_ ?]%NoDup_cons). apply NoDup_app. split_and!; [done| |done]. intros y Hy Hy2. apply (Hd y Hy). by right.
  - intros a Ha. right. split; [|set_solver]. intros ->. apply NoDup_app in Hnd as (_ & Hd & _). apply (Hd x Ha). left.
  - intros a [->|Ha]%elem_of_cons; [by left|right]. split; [|done]. intros ->. by apply NoDup_app in Hnd as (_ & _ & [? _]%NoDup_cons).
  - by rewrite fmap_app.
  - by rewrite fmap_cons.
  - lia.
Qed.

Lemma restore_ok (c : cache_t) (ls gs : list positive) (x : positive) (ch : nat -> list positive) :
  ok c ls (x :: gs) ch -> (length ls <= buckets c)%nat -> key_of c x ∉ key_of c <$> ls ->
  exists c', restore x c = Some c' /\ ok c' (x :: ls) gs ch /\
             (forall a, ent c'.(entries) a = ent c.(entries) a) /\ c'.(cache_size_bits) = c.(cache_size_bits).
Proof.
  intros O Hl Hx. pose proof (bits_bound O) as Hbb. pose proof (buckets_Z O) as Hbz.
  destruct (ok_ghost _ _ _ _ O x ltac:(set_solver)) as (e & Ee & Ea).
  pose proof (nodes_nodup _ _ (ok_nodup _ _ _ _ O)) as Hn. rewrite Permutation_app_comm, fmap_cons in Hn.
  pose proof (ok_glist _ _ _ _ O) as Hg. rewrite fmap_cons in Hg.
  destruct (list_move_spec _ _ [] _ _ _ _ Hn Hg (ok_list _ _ _ _ O)) as (m1 & m2 & E1 & E2 & D1 & D2).
  pose proof (proj2 (nodup_move [] _ _ _) (ok_nodup _ _ _ _ O)) as Hnd. cbn [app] in Hnd. apply NoDup_cons in Hnd as [Hxn Hnd].
  destruct (ok_count _ _ _ _ O) as [Hc1 Hc2]. destruct (ok_bound _ _ _ _ O) as [Hb1 Hb2]. rewrite !length_cons in *.
  assert (O' := ok_moved c _ _ (x :: ls) gs ch x e true m2 O Ee). unfold restore. rewrite Ee. cbn. rewrite E1. cbn. rewrite E2. cbn.
  eexists. split; [done|]. split; [|split; [intros; by apply ent_alive|done]]. rewrite length_cons in O'. fields.
  rewrite Hc1, Hc2, !u32_small by lia.
  replace (Z.of_nat (length ls) + 1) with (Z.of_nat (S (length ls))) by lia.
  replace (Z.of_nat (S (length gs)) - 1) with (Z.of_nat (length gs)) by lia. apply O'; try done.
  - cbn. by rewrite <-Permutation_middle.
  - intros k. cbn [app]. apply (keyed_move c [] ls gs x k); [done|]. apply filter_none. intros y Hy Ek. apply Hx. unfold key_of in *.
    rewrite <-Ek. by apply (list_elem_of_fmap_2 (key_of c)).
  - rewrite fmap_cons. apply NoDup_cons. split; [done|]. apply O.
  - intros a [->|Ha]%elem_of_cons; [by left|right]. split; [|done]. intros ->. set_solver.
  - intros a Ha. right. split; [|set_solver]. intros ->. set_solver.
  - split; lia.
Qed.

(** * Removing and adding entries *)

Lemma node_apart (h : lnode) (l : list positive) (a : positive) :
  (h = LList \/ h = LGhost) -> a ∉ l -> forall n, n ∈ h :: (LEntry <$> l) -> n ∉ [LEntry a].
Proof.
  intros Hh Ha n Hn Hx. apply list_elem_of_singleton in Hx as ->. apply elem_of_cons in Hn as [<-|Hn]; [by destruct Hh|].
  apply list_elem_of_fmap in Hn as (y & [= ->] & Hy). done.
Qed.

(** The nodes of an entry that is in no list. *)
Definition has_nodes (c : cache_t) (a : positive) : Prop :=
  is_Some (c.(lists).(nx) !! LEntry a) /\ is_Some (c.(lists).(pv) !! LEntry a) /\
  is_Some (c.(chains).(hnext) !! a) /\ is_Some (c.(chains).(pprev) !! a).

Lemma init_ok (c : cache_t) (ls gs : list positive) (ch : nat -> list positive) (a : positive) :
  ok c ls gs ch -> a ∉ ls ++ gs ->
  let c' := set_chains (INIT_HLIST_NODE a c.(chains)) (set_lists (INIT_LIST_HEAD (LEntry a) c.(lists)) c) in
  ok c' ls gs ch /\ has_nodes c' a.
Proof.
  intros O Ha c'. split; [|unfold has_nodes; subst c'; fields; cbn; rewrite !lookup_insert_eq; eauto].
  destruct (init_spec c.(lists) (LEntry a)) as [_ F]. apply not_elem_of_app in Ha as [Hl Hg].
  subst c'. destruct O. constructor; fields; try done.
  - eapply dlist_frame; [exact F| |done]. apply node_apart; auto.
  - eapply dlist_frame; [exact F| |done]. apply node_apart; auto.
  - intros i Hi. apply hlist_init; [|auto]. intros Hin. destruct (ok_members0 i a Hi Hin) as [[]%elem_of_app _]; done.
Qed.

(** The consistent cache without one of its evicted entries. *)
Lemma ok_without (c : cache_t) (ls g1 g2 : list positive) (x : positive) (ch : nat -> list positive) (d : links lnode) (m : hlinks positive) :
  ok c ls (g1 ++ x :: g2) ch -> dlist d LList (LEntry <$> ls) -> dlist d LGhost (LEntry <$> g1 ++ g2) ->
  (forall i, (i < buckets c)%nat -> hlist m i (filter (fun a => a <> x) (ch i))) ->
  ok (mk_cache c.(wide_hash) c.(cache_size_bits) c.(cache_size) (delete x c.(entries)) d m c.(size) (Z.of_nat (length (g1 ++ g2))) c.(capacity))
     ls (g1 ++ g2) (fun i => filter (fun a => a <> x) (ch i)).
Proof.
  intros O Dl Dg Hc. assert (Hw : filter (fun a => a <> x) (ls ++ g1 ++ x :: g2) = ls ++ g1 ++ g2).
  { rewrite !app_assoc. apply filter_ne. rewrite <-app_assoc. apply O. }
  assert (Hent : forall a, a <> x -> ent (delete x c.(entries)) a = ent c.(entries) a).
  { intros a Hne. unfold ent. by rewrite lookup_delete_ne. }
  assert (Hx : forall a, a ∈ ls ++ g1 ++ g2 -> a <> x /\ a ∈ ls ++ g1 ++ x :: g2).
  { intros a. rewrite <-Hw. by rewrite list_elem_of_filter. }
  assert (Hxl : forall a, a ∈ ls -> a <> x) by (intros a Ha; apply Hx; set_solver).
  assert (Hxg : forall a, a ∈ g1 ++ g2 -> a <> x) by (intros a Ha; apply Hx; set_solver).
  assert (Hlen : (length (g1 ++ g2) < length (g1 ++ x :: g2))%nat) by (rewrite !length_app, length_cons; lia).
  destruct O. constructor; fields; try done.
  - intros a Ha. rewrite lookup_delete_ne by (symmetry; auto). auto.
  - intros a Ha. rewrite lookup_delete_ne by (symmetry; auto). apply ok_ghost0. set_solver.
  - rewrite dom_delete_L, ok_dom0. apply set_eq. intros a. rewrite elem_of_difference, !elem_of_list_to_set, elem_of_singleton, <-Hw.
    rewrite list_elem_of_filter. tauto.
  - rewrite <-Hw. by apply NoDup_filter.
  - intros i a Hi [Hne Ha]%list_elem_of_filter. destruct (ok_members0 i a Hi Ha) as [Hin Hh]. split; [|by rewrite Hent].
    rewrite <-Hw. by apply list_elem_of_filter.
  - intros k. apply (keyed_transfer c).
    + intros a Ha. apply (f_equal h_key), Hent. apply elem_of_app in Ha as [[? _]%list_elem_of_filter|Ha]; [done|by apply Hx].
    + rewrite <-Hw. etransitivity; [apply filter_swap|]. etransitivity; [|apply filter_swap]. apply f_equal, ok_order0.
  - rewrite (list_fmap_ext _ (key_of c) ls); [done|]. intros i a Ha. apply (f_equal h_key), Hent, Hxl. by eapply list_elem_of_lookup_2.
  - split; [|done]. lia.
  - lia.
Qed.

Lemma forget_entry_ok (c : cache_t) (ls g1 g2 : list positive) (x : positive) (ch : nat -> list positive) :
  ok c ls (g1 ++ x :: g2) ch ->
  exists c' ch', forget x c = Some c' /\ ok c' ls (g1 ++ g2) ch' /\
    (forall a, a <> x -> ent c'.(entries) a = ent c.(entries) a) /\ c'.(cache_size_bits) = c.(cache_size_bits) /\
    (forall a, a ∉ ls ++ g1 ++ x :: g2 -> has_nodes c a -> has_nodes c' a).
Proof.
  intros O. pose proof (bits_bound O) as Hbb. pose proof (buckets_Z O) as Hbz.
  assert (Hin : x ∈ ls ++ g1 ++ x :: g2) by set_solver.
  destruct (list_elem_of_split _ _ (in_chain O x Hin)) as (h1 & h2 & Hsplit).
  set (i0 := hash c.(wide_hash) c.(cache_size_bits) (key_of c x)) in *.
  assert (Hi0 : (i0 < buckets c)%nat) by apply (hash_bucket O).
  pose proof (ok_chain _ _ _ _ O i0 Hi0) as Hch. rewrite Hsplit in Hch.
  destruct (hlist_del_init_spec _ _ _ _ _ Hch) as (m & Em & Hm & Fm & _).
  pose proof (ok_glist _ _ _ _ O) as Hg. rewrite fmap_app, fmap_cons in Hg.
  destruct (list_del_init_spec _ _ _ _ _ Hg) as (d & Ed & Hd & Fd & _).
  pose proof (nodes_nodup _ _ (ok_nodup _ _ _ _ O)) as Hn.
  assert (Hxn : (x ∉ ls) /\ (x ∉ g1 ++ g2)).
  { pose proof (ok_nodup _ _ _ _ O) as (_ & Hx1 & (_ & Hx2 & [Hx3 _]%NoDup_cons)%NoDup_app)%NoDup_app. set_solver. }
  destruct (ok_count _ _ _ _ O) as [Hc1 Hc2]. destruct (ok_bound _ _ _ _ O) as [_ Hb2]. rewrite !length_app, !length_cons in *.
  assert (O' := ok_without c ls g1 g2 x ch (drop_node (LEntry x) d) (hdrop_node x m) O).
  unfold forget. rewrite Em, Ed. cbn. eexists _, _. split; [done|]. fields. rewrite Hc2, u32_small by lia.
  replace (Z.of_nat (length g1 + S (length g2)) - 1) with (Z.of_nat (length (g1 ++ g2))) by (rewrite length_app; lia).
  split_and!; [apply O'| |done|].
  - eapply dlist_frame; [apply drop_node_off|apply node_apart; tauto|]. eapply dlist_frame; [exact Fd| |apply O].
    intros n Hnl Hng. apply NoDup_app in Hn as (_ & Hn & _). apply (Hn n); [done|]. by rewrite fmap_app, fmap_cons.
  - eapply dlist_frame; [apply drop_node_off|apply node_apart; tauto|]. by rewrite fmap_app.
  - intros i Hi. apply hlist_drop; [by rewrite list_elem_of_filter; intros [? _]|].
    destruct (decide (i = i0)) as [->|Hne]; [rewrite Hsplit, filter_ne by apply Hch; done|].
    assert (Hni : x ∉ ch i) by (intros Hx; by destruct (ok_members _ _ _ _ O i x Hi Hx) as [_ ?]).
    rewrite filter_ne_id by done. eapply hlist_frame; [exact Fm|done| |by apply O].
    intros a Ha Ha0. rewrite <-Hsplit in Ha0. apply Hne.
    destruct (ok_members _ _ _ _ O i a Hi Ha) as [_ <-]. by destruct (ok_members _ _ _ _ O i0 a Hi0 Ha0) as [_ <-].
  - intros a Hne. unfold ent. by rewrite lookup_delete_ne.
  - intros a Ha (N1 & N2 & N3 & N4). assert (Hax : a <> x) by set_solver. unfold has_nodes. cbn.
    rewrite !lookup_delete_ne by congruence. destruct (Fd (LEntry a)) as [-> ->].
    { rewrite <-fmap_cons, <-fmap_app. intros [?|(y & [= ->] & Hy)%list_elem_of_fmap]%elem_of_cons; [done|set_solver]. }
    destruct (proj2 Fm a) as [-> ->]; [|done]. rewrite <-Hsplit. intros Ha0.
    by destruct (ok_members _ _ _ _ O i0 a Hi0 Ha0) as [? _].
Qed.

(** A new entry at the front of the live list and of its chain. *)
Lemma link_entry_ok (c : cache_t) (ls gs : list positive) (ch : nat -> list positive) (a : positive) (k v f : Z) :
  ok c ls gs ch -> a ∉ ls ++ gs -> has_nodes c a -> k ∉ key_of c <$> ls -> (length ls <= buckets c)%nat ->
  exists d m ch', list_add (LEntry a) LList c.(lists) = Some d /\
    hlist_add_head a (hash c.(wide_hash) c.(cache_size_bits) k) c.(chains) = Some m /\
    ok (mk_cache c.(wide_hash) c.(cache_size_bits) c.(cache_size) (<[a := mk_entry v true k f]> c.(entries)) d m
          (Z.of_nat (length (a :: ls))) c.(ghost_list_size) c.(capacity)) (a :: ls) gs ch'.
Proof.
  intros O Ha (N1 & N2 & N3 & N4) Hk Hlen. pose proof (hash_bucket O k) as Hi. set (i0 := hash (wide_hash c) (cache_size_bits c) k) in *.
  destruct (list_add_spec _ _ _ (LEntry a) (ok_list _ _ _ _ O)) as (d & Ed & Hd & Fd); [|done|done|].
  { intros [?|(y & [= ->] & Hy)%list_elem_of_fmap]%elem_of_cons; [done|set_solver]. }
  assert (Hai : forall i, (i < buckets c)%nat -> a ∉ ch i) by (intros i Hb Hin; by destruct (ok_members _ _ _ _ O i a Hb Hin)).
  destruct (hlist_add_spec _ _ _ a (ok_chain _ _ _ _ O i0 Hi) (Hai i0 Hi) N3 N4) as (m & Em & Hm & Fm).
  exists d, m, (fun i => if decide (i = i0) then a :: ch i0 else ch i). split_and!; [done|done|].
  assert (Hent : forall b, b <> a -> ent (<[a := mk_entry v true k f]> c.(entries)) b = ent c.(entries) b).
  { intros b Hb. unfold ent. by rewrite lookup_insert_ne. }
  assert (Hka : ent (<[a := mk_entry v true k f]> c.(entries)) a = mk_hist k v f) by (unfold ent; by rewrite lookup_insert_eq).
  pose proof (nodes_nodup _ _ (ok_nodup _ _ _ _ O)) as (_ & Hn & _)%NoDup_app.
  destruct O. constructor; fields; try done.
  - intros b [->|Hb]%elem_of_cons; [rewrite lookup_insert_eq; eauto|]. rewrite lookup_insert_ne by set_solver. auto.
  - intros b Hb. rewrite lookup_insert_ne by set_solver. auto.
  - rewrite dom_insert_L, ok_dom0. set_solver.
  - cbn [app]. by apply NoDup_cons.
  - eapply dlist_frame; [exact Fd| |done]. intros n Hng [->|Hnl]%elem_of_cons; [|by apply (Hn n)].
    apply elem_of_cons in Hng as [?|(y & [= ->] & Hy)%list_elem_of_fmap]; [done|set_solver].
  - intros i Hb. destruct (decide (i = i0)) as [->|Hne]; [done|]. eapply hlist_frame; [exact Fm|done| |auto].
    intros b Hbi [->|Hb0]%elem_of_cons; [by apply (Hai i)|]. apply Hne.
    destruct (ok_members0 i b Hb Hbi) as [_ <-]. by destruct (ok_members0 i0 b Hi Hb0) as [_ <-].
  - assert (Hold : forall i b, (i < Z.to_nat (2 ^ cache_size_bits c))%nat -> b ∈ ch i -> b ∈ (a :: ls) ++ gs /\
      hash (wide_hash c) (cache_size_bits c) (h_key (ent (<[a := mk_entry v true k f]> c.(entries)) b)) = i).
    { intros i b Hb Hbi. destruct (ok_members0 i b Hb Hbi) as [Hin Hh]. split; [set_solver|]. rewrite Hent; [done|].
      intros ->. by apply (Hai i). }
    intros i b Hb Hbi. destruct (decide (i = i0)) as [->|Hne]; [|by apply Hold].
    apply elem_of_cons in Hbi as [->|Hbi]; [|by apply Hold]. rewrite Hka. split; [set_solver|done].
  - intros k'. assert (Hrest : keyed (mk_cache c.(wide_hash) c.(cache_size_bits) c.(cache_size) (<[a := mk_entry v true k f]> c.(entries)) d m
          (Z.of_nat (length (a :: ls))) c.(ghost_list_size) c.(capacity)) k' (ch (hash (wide_hash c) (cache_size_bits c) k')) =
      keyed (mk_cache c.(wide_hash) c.(cache_size_bits) c.(cache_size) (<[a := mk_entry v true k f]> c.(entries)) d m
          (Z.of_nat (length (a :: ls))) c.(ghost_list_size) c.(capacity)) k' (ls ++ gs)).
    { apply (keyed_transfer c); [|apply ok_order0]. intros b Hb. apply (f_equal h_key), Hent. intros ->.
      apply elem_of_app in Hb as [Hb|Hb]; [|done]. revert Hb. apply Hai, hash_range; lia. }
    cbn [app]. unfold keyed, key_of in *. cbn [entries] in *. rewrite (filter_cons _ a (ls ++ gs)), Hka. cbn [h_key].
    destruct (decide (hash (wide_hash c) (cache_size_bits c) k' = i0)) as [Ei|Hne].
    + rewrite filter_cons, Hka. cbn [h_key]. rewrite Ei in Hrest. rewrite Hrest. done.
    + destruct (decide (k = k')) as [->|]; [done|]. apply Hrest.
  - rewrite fmap_cons, Hka. apply NoDup_cons. rewrite (list_fmap_ext _ (key_of c) ls); [done|].
    intros i b Hb. apply (f_equal h_key), Hent. intros ->. apply Ha. apply elem_of_app. left. by eapply list_elem_of_lookup_2.
  - split; [done|]. apply ok_count0.
  - cbn [length]. lia.
Qed.

(** * Searching *)

Definition sat (c : cache_t) (p : cache_entry_t -> bool) (a : positive) : Prop := from_option p false (c.(entries) !! a) = true.

#[local] Instance sat_dec (c : cache_t) (p : cache_entry_t -> bool) (a : positive) : Decision (sat c p a).
Proof. unfold sat. apply _. Defined.

Lemma search_spec (c : cache_t) (p : cache_entry_t -> bool) (l : list positive) (fuel : nat) (cell : hcell positive) (pos : option positive) :
  (forall a, a ∈ l -> is_Some (c.(entries) !! a)) -> (length l <= fuel)%nat ->
  hread cell c.(chains) = Some pos -> hchain c.(chains) cell l ->
  search fuel p pos c = Some (head (filter (sat c p) l)).
Proof.
  revert fuel cell pos. induction l as [|a l IH]; intros fuel cell pos He Hf Hr Hc; cbn [hchain] in Hc; [by destruct fuel; simplify_eq|].
  destruct Hc as (Hra & _ & Hc). simplify_eq. destruct fuel as [|fuel]; cbn [length] in Hf; [lia|]. cbn [search].
  destruct (He a ltac:(left)) as [e Ee]. rewrite Ee, filter_cons. cbn [mbind option_bind].
  assert (Hs : sat c p a <-> p e = true) by (unfold sat; by rewrite Ee).
  destruct (decide (sat c p a)) as [Ha|Ha]; [by rewrite (proj1 Hs Ha)|]. destruct (p e); [by destruct Ha; apply Hs|].
  assert (Hn : exists next, hread (NextOf a) c.(chains) = Some next) by (destruct l; cbn [hchain] in Hc; naive_solver).
  destruct Hn as [next En]. cbn in En. rewrite En. cbn. apply (IH fuel (NextOf a)); [|lia|done|done]. intros b Hb. apply He. by right.
Qed.

Section Search.
Context {c : cache_t} {ls gs : list positive} {ch : nat -> list positive} (O : ok c ls gs ch).

Lemma search_chain_ok (p : cache_entry_t -> bool) (k : Z) :
  search_chain p (hash c.(wide_hash) c.(cache_size_bits) k) c = Some (head (filter (sat c p) (ch (hash c.(wide_hash) c.(cache_size_bits) k)))).
Proof.
  set (i := hash _ _ k). assert (Hi : (i < buckets c)%nat) by apply (hash_bucket O).
  destruct (ok_chain _ _ _ _ O i Hi) as [Hnd Hc].
  assert (Hin : forall a, a ∈ ch i -> is_Some (c.(entries) !! a)).
  { intros a Ha. destruct (ok_members _ _ _ _ O i a Hi Ha) as [Hin _]. destruct (entry_in O a Hin). by eexists. }
  assert (Hf : exists pos, hread (Bucket i) c.(chains) = Some pos) by (destruct (ch i); cbn [hchain] in Hc; naive_solver).
  destruct Hf as [pos Ef]. unfold search_chain. cbn in Ef. rewrite Ef. cbn. eapply (search_spec c p _ _ (Bucket i)); try done.
  rewrite <-size_dom, <-(size_list_to_set (C := gset positive)) by done. apply subseteq_size. intros a Ha%elem_of_list_to_set. by apply elem_of_dom, Hin.
Qed.

(** All entries with the key, whatever else is asked of them. *)
Lemma search_key_ok (p : cache_entry_t -> bool) (k : Z) :
  search_chain (fun e => has_key k e && p e) (hash c.(wide_hash) c.(cache_size_bits) k) c = Some (head (filter (sat c p) (keyed c k (ls ++ gs)))).
Proof.
  rewrite search_chain_ok. rewrite <-(ok_order _ _ _ _ O k). unfold keyed. rewrite list_filter_filter. do 2 f_equal.
  apply filter_ext_in. intros a Ha. destruct (ok_members _ _ _ _ O _ a (hash_bucket O k) Ha) as [Hin _].
  destruct (entry_in O a Hin) as [e Ee]. unfold sat, key_of, ent. rewrite Ee. cbn. unfold has_key. rewrite andb_true_iff, Z.eqb_eq. tauto.
Qed.

Lemma find_key_ok (k : Z) : search_chain (has_key k) (hash c.(wide_hash) c.(cache_size_bits) k) c = Some (head (keyed c k (ls ++ gs))).
Proof.
  rewrite search_chain_ok, <-(ok_order _ _ _ _ O k). do 2 f_equal. apply filter_ext_in. intros a Ha.
  destruct (ok_members _ _ _ _ O _ a (hash_bucket O k) Ha) as [Hin _]. destruct (entry_in O a Hin) as [e Ee].
  unfold sat, key_of, ent. rewrite Ee. cbn. unfold has_key. by rewrite Z.eqb_eq.
Qed.
End Search.

(** ** The first entry with a key, in both views *)

Lemma key_split (c : cache_t) (k : Z) (l : list positive) :
  keyed c k l = [] \/ exists l1 a l2, l = l1 ++ a :: l2 /\ key_of c a = k /\ keyed c k l1 = [].
Proof.
  induction l as [|a l IH]; [by left|]. unfold keyed in *. rewrite filter_cons. destruct (decide (key_of c a = k)) as [E|Hne].
  - right. by exists [], a, l.
  - destruct IH as [->|(l1 & b & l2 & -> & Eb & E1)]; [by left|right]. exists (a :: l1), b, l2. by rewrite filter_cons_False.
Qed.

Lemma pick_none (c : cache_t) (k : Z) (l : list positive) :
  keyed c k l = [] -> pick k (ent c.(entries) <$> l) = None /\ remove_first k (ent c.(entries) <$> l) = ent c.(entries) <$> l /\ k ∉ key_of c <$> l.
Proof.
  unfold keyed, pick, key_of. induction l as [|a l IH]; [set_solver|]. rewrite filter_cons. destruct (decide (h_key (ent (entries c) a) = k)) as [|Hne]; [done|].
  intros E. destruct (IH E) as (H1 & H2 & H3). rewrite !fmap_cons. cbn [remove_first]. rewrite filter_cons_False by done.
  destruct (Z.eqb_spec (h_key (ent (entries c) a)) k); [done|]. rewrite H2. split_and!; [done|done|]. by apply not_elem_of_cons.
Qed.

Lemma pick_split (c : cache_t) (k : Z) (l1 l2 : list positive) (a : positive) :
  keyed c k l1 = [] -> key_of c a = k ->
  pick k (ent c.(entries) <$> l1 ++ a :: l2) = Some (ent c.(entries) a) /\
  remove_first k (ent c.(entries) <$> l1 ++ a :: l2) = ent c.(entries) <$> l1 ++ l2 /\ keyed c k (l1 ++ a :: l2) = a :: keyed c k l2.
Proof.
  unfold keyed, pick, key_of. intros E Ea. induction l1 as [|b l1 IH]; cbn [app].
  - rewrite !fmap_cons, !filter_cons_True by done. cbn. rewrite Ea, Z.eqb_refl. done.
  - rewrite filter_cons in E. destruct (decide (h_key (ent (entries c) b) = k)) as [|Hne]; [done|].
    destruct (IH E) as (H1 & H2 & H3). rewrite !fmap_cons, !filter_cons_False by done. cbn [remove_first].
    destruct (Z.eqb_spec (h_key (ent (entries c) b)) k); [done|]. rewrite H2. done.
Qed.

(** * The operations *)

(** What the new entry takes from the one it revives. *)
Definition revives (c : cache_t) (gs : list positive) (r : option positive) (gs' : list positive) (f : Z) : Prop :=
  match r with
  | None => gs' = gs /\ f = 1
  | Some r => exists g1 g2, gs = g1 ++ r :: g2 /\ gs' = g1 ++ g2 /\ f = u32 (h_freq (ent c.(entries) r) + 1)
  end.

Lemma cache_add_ok (c : cache_t) (ls gs gs' : list positive) (ch : nat -> list positive) (a : positive) (r : option positive) (k v f : Z) :
  ok c ls gs ch -> a ∉ ls ++ gs -> k ∉ key_of c <$> ls -> (length ls <= buckets c)%nat -> revives c gs r gs' f ->
  exists c' ch', cache_add a k v r c = Some c' /\ ok c' (a :: ls) gs' ch' /\ ent c'.(entries) a = mk_hist k v f /\
    (forall b, b ∈ ls ++ gs' -> ent c'.(entries) b = ent c.(entries) b) /\ c'.(cache_size_bits) = c.(cache_size_bits).
Proof.
  intros O Ha Hk Hlen Hr. destruct (init_ok c ls gs ch a O Ha) as [O1 N1]. set (c1 := set_chains _ _) in *.
  assert (Hrest : exists c2 ch2, match r with
      | None => Some (1, c1)
      | Some r => let? e := c1.(entries) !! r in let? c := forget r c1 in Some (u32 (e.(freq) + 1), c)
      end = Some (f, c2) /\ ok c2 ls gs' ch2 /\ has_nodes c2 a /\ (a ∉ ls ++ gs') /\
      (forall b, b ∈ ls ++ gs' -> ent c2.(entries) b = ent c.(entries) b) /\ c2.(cache_size_bits) = c.(cache_size_bits)).
  { destruct r as [r|]; cbn [revives] in Hr.
    - destruct Hr as (g1 & g2 & -> & -> & ->). destruct (forget_entry_ok c1 ls g1 g2 r ch O1) as (c2 & ch2 & E2 & O2 & He & Hb & Hn).
      destruct (entry_in O r ltac:(set_solver)) as [e Ee]. change (entries c1) with (entries c). rewrite Ee, E2. cbn. exists c2, ch2.
      assert (Hrn : r ∉ ls ++ g1 ++ g2).
      { pose proof (ok_nodup _ _ _ _ O) as Hnd. rewrite app_assoc in Hnd |- *. apply NoDup_app in Hnd as (_ & Hd & [? _]%NoDup_cons). set_solver. }
      split_and!; [unfold ent; by rewrite Ee|done|by apply Hn|set_solver| |done]. intros b Hin. apply He. intros ->. done.
    - destruct Hr as [-> ->]. by exists c1, ch. }
  destruct Hrest as (c2 & ch2 & E & O2 & N2 & Ha2 & He & Hb). unfold cache_add. fold c1. rewrite E. cbn.
  assert (Hk2 : k ∉ key_of c2 <$> ls).
  { rewrite (list_fmap_ext _ (key_of c) ls); [done|]. intros i b Hin. apply (f_equal h_key), He. apply elem_of_app. left. by eapply list_elem_of_lookup_2. }
  pose proof (bits_bound O2) as Hbb. pose proof (buckets_Z O2) as Hbz. destruct (ok_count _ _ _ _ O2) as [Hc1 Hc2].
  assert (Hlen2 : (length ls <= buckets c2)%nat) by (unfold buckets in *; by rewrite Hb).
  destruct (link_entry_ok c2 ls gs' ch2 a k v f O2 Ha2 N2 Hk2 Hlen2) as (d & m & ch' & Ed & Em & O').
  rewrite Ed. cbn. pose proof (cache_hash_ok O2 k) as Hh. unfold cache_hash in Hh |- *. cbn. rewrite Hh. cbn. rewrite Em. cbn.
  eexists _, ch'. split; [done|]. fields. rewrite Hc1, u32_small by lia.
  replace (Z.of_nat (length ls) + 1) with (Z.of_nat (length (a :: ls))) by (cbn [length]; lia).
  split_and!; [done|unfold ent; by rewrite lookup_insert_eq| |done]. intros b Hin. rewrite <-He by done.
  unfold ent. rewrite lookup_insert_ne; [done|]. intros ->. done.
Qed.

Lemma ghost_update_ok (c : cache_t) (ls gs : list positive) (ch : nat -> list positive) :
  ok c ls gs ch ->
  exists c' ch', cache_ghost_list_update c = Some c' /\ ok c' ls (take (buckets c) gs) ch' /\
    (forall b, b ∈ ls ++ take (buckets c) gs -> ent c'.(entries) b = ent c.(entries) b) /\ c'.(cache_size_bits) = c.(cache_size_bits).
Proof.
  intros O. pose proof (buckets_Z O) as Hbz. destruct (ok_count _ _ _ _ O) as [_ Hc]. destruct (ok_bound _ _ _ _ O) as [_ Hb].
  unfold cache_ghost_list_update. rewrite Hc, (proj2 (ok_table _ _ _ _ O)).
  destruct (Z.leb_spec (Z.of_nat (length gs)) (2 ^ cache_size_bits c)) as [Hle|Hgt]; [exists c, ch; by rewrite take_ge by lia|].
  destruct (exists_last (l := gs)) as (g & x & ->); [intros ->; cbn in Hgt; lia|]. rewrite length_app in *. cbn [length] in *.
  rewrite take_app_length' by lia.
  pose proof (ok_glist _ _ _ _ O) as Hg. rewrite fmap_app in Hg. cbn in Hg. apply list_last_spec in Hg.
  destruct (ok_ghost _ _ _ _ O x ltac:(set_solver)) as (e & Ee & Ea). unfold list_last_entry. rewrite Hg. cbn. rewrite Ee. cbn. rewrite Ea.
  destruct (forget_entry_ok c ls g [] x ch O) as (c' & ch' & E & O' & He & Hbits & _). rewrite app_nil_r in O'. exists c', ch'. split_and!; try done.
  intros b Hin. apply He. intros ->. pose proof (ok_nodup _ _ _ _ O) as Hnd. rewrite app_assoc in Hnd.
  apply NoDup_app in Hnd as (_ & Hd & _). apply (Hd x Hin). left.
Qed.

(** The choice of [cache_put]: who leaves ([repl]), who is revived ([r]). *)
Record choice (c : cache_t) (ls gs : list positive) (k : Z) (repl r : option positive) (stay gs' : list positive) (f : Z) : Prop := {
  ch_stay : match repl with
            | Some x => exists l1 l2, ls = l1 ++ x :: l2 /\ stay = l1 ++ l2
            | None => stay = ls /\ (length ls < buckets c)%nat
            end;
  ch_new : k ∉ key_of c <$> stay;
  ch_revives : revives c (option_list repl ++ gs) r gs' f;
  ch_leaves : leaves_for k (abs c ls gs) = (ent c.(entries) <$> repl, ent c.(entries) <$> stay);
  ch_freq : inherited k (abs c ls gs) = f;
  ch_ghost : match pick k (abs c ls gs).(live) with
             | Some _ => option_list (ent c.(entries) <$> repl) ++ (abs c ls gs).(ghost)
             | None => remove_first k (option_list (ent c.(entries) <$> repl) ++ (abs c ls gs).(ghost))
             end = ent c.(entries) <$> gs' }.

(** The history of [k] when it is not live, behind the entry that leaves. *)
Lemma revive_choice (c : cache_t) (k : Z) (repl : option positive) (gs : list positive) :
  (forall x, repl = Some x -> key_of c x <> k) ->
  exists gs' f, revives c (option_list repl ++ gs) (head (keyed c k gs)) gs' f /\
    match pick k (ent c.(entries) <$> gs) with Some g => u32 (h_freq g + 1) | None => 1 end = f /\
    remove_first k (option_list (ent c.(entries) <$> repl) ++ (ent c.(entries) <$> gs)) = ent c.(entries) <$> gs'.
Proof.
  intros Hx. assert (Hrem : forall l, remove_first k (option_list (ent c.(entries) <$> repl) ++ l) = option_list (ent c.(entries) <$> repl) ++ remove_first k l).
  { intros l. destruct repl as [x|]; [|done]. cbn. destruct (Z.eqb_spec (h_key (ent (entries c) x)) k) as [E|]; [by destruct (Hx x eq_refl)|done]. }
  rewrite Hrem. destruct (key_split c k gs) as [E|(g1 & a & g2 & -> & Ea & E1)].
  - destruct (pick_none c k gs E) as (-> & -> & _). rewrite E. exists (option_list repl ++ gs), 1. split_and!; [done|done|by destruct repl].
  - destruct (pick_split c k g1 g2 a E1 Ea) as (-> & -> & ->). cbn [head].
    exists (option_list repl ++ g1 ++ g2), (u32 (h_freq (ent c.(entries) a) + 1)). split_and!; [|done|by destruct repl].
    exists (option_list repl ++ g1), g2. by rewrite <-!app_assoc.
Qed.

(** An evicted entry that is found is revived. *)
Lemma revived_only {c : cache_t} {ls gs : list positive} {ch : nat -> list positive} (O : ok c ls gs ch) (k v : Z) :
  match head (keyed c k gs) with
  | Some a => let? e := c.(entries) !! a in
              if negb e.(alive) then Some (None, Some a) else if negb (e.(value) =? v) then Some (Some a, None) else None
  | None => Some (None, None)
  end = Some (None, head (keyed c k gs)).
Proof.
  destruct (keyed c k gs) as [|a l] eqn:Ek; [done|]. cbn [head].
  assert (Ha : a ∈ keyed c k gs) by (rewrite Ek; left). apply list_elem_of_filter in Ha as [_ Ha].
  destruct (ok_ghost _ _ _ _ O a Ha) as (e & -> & Eal). cbn. by rewrite Eal.
Qed.

Lemma victims_ok (c : cache_t) (ls gs : list positive) (ch : nat -> list positive) (k v : Z) :
  ok c ls gs ch -> (length ls <= buckets c)%nat ->
  if bool_decide (h_val <$> pick k (abs c ls gs).(live) = Some v) then cache_victims c k v = None
  else exists repl r stay gs' f, cache_victims c k v = Some (repl, r) /\ choice c ls gs k repl r stay gs' f.
Proof.
  intros O Hlen. pose proof (buckets_Z O) as Hbz. pose proof (bits_bound O) as Hbb. destruct (ok_count _ _ _ _ O) as [Hc _].
  unfold cache_victims. rewrite (cache_hash_ok O). cbn [mbind option_bind]. rewrite (find_key_ok O). cbn [mbind option_bind].
  destruct (key_split c k ls) as [E|(l1 & a & l2 & -> & Ea & E1)].
  - destruct (pick_none c k ls E) as (Hp & _ & Hkn). rewrite bool_decide_false by (unfold abs; cbn [live]; by rewrite Hp).
    assert (Hh : head (keyed c k (ls ++ gs)) = head (keyed c k gs)) by (unfold keyed in *; by rewrite filter_app, E). rewrite Hh.
    rewrite (revived_only O k v). cbn [mbind option_bind]. rewrite Hc, (proj2 (ok_table _ _ _ _ O)).
    destruct (Z.eqb_spec (Z.of_nat (length ls)) (2 ^ cache_size_bits c)) as [Hfull|Hroom].
    + destruct (exists_last (l := ls)) as (l & x & ->); [intros ->; cbn in Hfull; lia|].
      pose proof (ok_list _ _ _ _ O) as Hl. rewrite fmap_app in Hl. cbn in Hl. apply list_last_spec in Hl.
      unfold list_last_entry. rewrite Hl. cbn. rewrite fmap_app in Hkn. apply not_elem_of_app in Hkn as [Hkl Hkx].
      destruct (revive_choice c k (Some x) gs) as (gs' & f & Hr & Hf & Hg); [set_solver|].
      exists (Some x), (head (keyed c k gs)), l, gs', f. split; [done|].
      constructor; unfold leaves_for, inherited, abs; cbn [live ghost room]; rewrite ?Hp; try done; [by exists l, []; rewrite app_nil_r|].
      rewrite decide_True by (rewrite length_fmap; lia). rewrite fmap_app. cbn. by rewrite last_snoc, removelast_last.
    + destruct (revive_choice c k None gs) as (gs' & f & Hr & Hf & Hg); [done|].
      exists None, (head (keyed c k gs)), ls, gs', f. split; [done|].
      constructor; unfold leaves_for, inherited, abs; cbn [live ghost room]; rewrite ?Hp; try done; [split; [done|lia]|]. by rewrite decide_False by (rewrite length_fmap; lia).
  - destruct (pick_split c k l1 l2 a E1 Ea) as (Hp & Hr & Hk).
    assert (Hh : head (keyed c k ((l1 ++ a :: l2) ++ gs)) = Some a) by (unfold keyed in *; by rewrite filter_app, Hk). rewrite Hh.
    destruct (ok_live _ _ _ _ O a ltac:(set_solver)) as (e & Ee & Eal). rewrite Ee. cbn [mbind option_bind]. rewrite Eal. cbn [negb].
    assert (Hv : h_val (ent c.(entries) a) = value e) by (unfold ent; by rewrite Ee).
    assert (Hpv : h_val <$> pick k (live (abs c (l1 ++ a :: l2) gs)) = Some (value e)) by (unfold abs; cbn [live]; rewrite Hp; cbn; by rewrite Hv).
    destruct (Z.eqb_spec (value e) v) as [<-|Hne]; [by rewrite bool_decide_true|]. rewrite bool_decide_false by congruence. cbn.
    exists (Some a), None, (l1 ++ l2), (a :: gs), 1. split; [done|].
    constructor; unfold leaves_for, inherited, abs; cbn [live ghost room]; rewrite ?Hp, ?Hr; try done; [by exists l1, l2|].
    pose proof (ok_keys _ _ _ _ O) as Hn. rewrite fmap_app, fmap_cons, Ea in Hn. rewrite fmap_app.
    apply NoDup_app in Hn as (_ & Hd & [? _]%NoDup_cons). intros [Hin|Hin]%elem_of_app; [apply (Hd k Hin); left|done].
Qed.

Definition cache_repr (c : cache_t) (s : lru) : Prop :=
  exists ls gs ch, ok c ls gs ch /\ s = abs c ls gs /\ (length ls <= buckets c)%nat /\ (length gs <= buckets c)%nat.

(** What the abstract cache sees of the entries. *)
Lemma repr_intro (c c' : cache_t) (ls gs : list positive) (ch : nat -> list positive) (l g : list hist) (n : nat) :
  ok c' ls gs ch -> ent c'.(entries) <$> ls = l -> ent c'.(entries) <$> gs = g -> buckets c' = n ->
  (length ls <= n)%nat -> (length gs <= n)%nat -> cache_repr c' (mk_lru l g n).
Proof. intros O <- <- <- Hl Hg. by exists ls, gs, ch. Qed.

Lemma fmap_ent_ext (m m' : gmap positive cache_entry_t) (l : list positive) :
  (forall a, a ∈ l -> ent m' a = ent m a) -> ent m' <$> l = ent m <$> l.
Proof. intros He. apply list_fmap_ext. intros i a Ha. apply He. by eapply list_elem_of_lookup_2. Qed.

(** The entry that leaves is retired. *)
Lemma leave_ok (c : cache_t) (ls gs : list positive) (ch : nat -> list positive) (repl : option positive) (stay : list positive) :
  ok c ls gs ch -> (length ls <= buckets c)%nat -> (length gs <= buckets c)%nat ->
  match repl with
  | Some x => exists l1 l2, ls = l1 ++ x :: l2 /\ stay = l1 ++ l2
  | None => stay = ls /\ (length ls < buckets c)%nat
  end ->
  (exists c', match repl with Some a => retire a c | None => Some (0, c) end =
      Some (from_option h_val 0 (ent c.(entries) <$> repl), c') /\ ok c' stay (option_list repl ++ gs) ch /\
      (forall a, ent c'.(entries) a = ent c.(entries) a) /\ c'.(cache_size_bits) = c.(cache_size_bits)) /\
  (length stay < buckets c)%nat /\ dom c.(entries) = list_to_set (stay ++ option_list repl ++ gs) /\
  (forall x, repl = Some x -> key_of c x ∉ key_of c <$> stay).
Proof.
  intros O Hl Hg Hs. destruct repl as [x|].
  - destruct Hs as (l1 & l2 & -> & ->). split; [by apply retire_ok|]. rewrite !length_app, length_cons in *.
    split_and!; [lia|rewrite (ok_dom _ _ _ _ O); cbn; set_solver|]. intros y [= <-].
    pose proof (ok_keys _ _ _ _ O) as Hk. rewrite fmap_app, fmap_cons in Hk. rewrite fmap_app.
    apply NoDup_app in Hk as (_ & Hd & [? _]%NoDup_cons). intros [Hin|Hin]%elem_of_app; [|done]. apply (Hd _ Hin). left.
  - destruct Hs as [-> Hlt]. split_and!; [by exists c|done|apply O|done].
Qed.

Lemma put_ok (c : cache_t) (s : lru) (calloc : option positive) (k v : Z) :
  cache_repr c s -> (forall a, calloc = Some a -> c.(entries) !! a = None) ->
  match spec_put (bool_decide (is_Some calloc)) k v s with
  | None => cache_put calloc c k v = None
  | Some (x, s') => exists c', cache_put calloc c k v = Some (x, c') /\ cache_repr c' s'
  end.
Proof.
  intros (ls & gs & ch & O & -> & Hl & Hg) Hnew. pose proof (buckets_Z O) as Hbz. unfold cache_put, spec_put.
  rewrite (proj1 (ok_count _ _ _ _ O)), (proj2 (ok_table _ _ _ _ O)).
  destruct (Z.leb_spec (Z.of_nat (length ls)) (2 ^ cache_size_bits c)); [|lia]. cbn [negb].
  pose proof (victims_ok c ls gs ch k v O Hl) as Hv. destruct (bool_decide _); [by rewrite Hv|].
  destruct Hv as (repl & r & stay & gs' & f & -> & [Hs Hk Hr -> Hf Hgh]). cbn [mbind option_bind].
  destruct (leave_ok c ls gs ch repl stay O Hl Hg Hs) as ((c1 & -> & O1 & He1 & Hb1) & Hlt & Hdom & Hx). cbn [mbind option_bind].
  assert (Hbk : buckets c1 = buckets c) by (unfold buckets; by rewrite Hb1).
  destruct calloc as [a|]; [rewrite bool_decide_true by eauto|rewrite bool_decide_false by (by intros [])].
  - assert (Hfresh : a ∉ stay ++ option_list repl ++ gs).
    { rewrite <-(elem_of_list_to_set (C := gset positive)), <-Hdom. by apply not_elem_of_dom, Hnew. }
    destruct (cache_add_ok c1 stay (option_list repl ++ gs) gs' ch a r k v f O1 Hfresh) as (c2 & ch2 & -> & O2 & Ea & He2 & Hb2).
    { rewrite (list_fmap_ext _ (key_of c) stay); [done|]. intros. apply (f_equal h_key), He1. }
    { lia. }
    { destruct r as [r|]; cbn [revives] in *; [|done]. by rewrite He1. }
    cbn [mbind option_bind]. assert (Hbk2 : buckets c2 = buckets c) by (unfold buckets; by rewrite Hb2, Hb1).
    destruct (ghost_update_ok c2 _ _ _ O2) as (c3 & ch3 & -> & O3 & He3 & Hb3). cbn [mbind option_bind]. rewrite Hbk2 in *.
    rewrite (proj1 (ok_count _ _ _ _ O3)), (proj2 (ok_count _ _ _ _ O3)), (proj2 (ok_table _ _ _ _ O3)), Hb3, Hb2, Hb1, <-Hbz.
    rewrite length_take, length_cons. destruct (Z.leb_spec (Z.of_nat (S (length stay))) (Z.of_nat (buckets c))); [|lia].
    destruct (Z.leb_spec (Z.of_nat (Nat.min (buckets c) (length gs'))) (Z.of_nat (buckets c))); [|lia]. cbn.
    eexists. split; [done|]. eapply (repr_intro c); [exact O3|..].
    + rewrite fmap_cons, He3, Ea, Hf by left. f_equal. apply fmap_ent_ext. intros b Hb. rewrite He3, He2, He1; [done|set_solver|set_solver].
    + cbn in Hgh. rewrite Hgh. cbn. rewrite <-fmap_take. apply fmap_ent_ext. intros b Hb.
      rewrite He3, He2, He1; [done| |set_solver]. apply elem_of_app. right. apply elem_of_take in Hb as (i & Hi & _). by eapply list_elem_of_lookup_2.
    + unfold buckets. by rewrite Hb3, Hb2, Hb1.
    + cbn. lia.
    + rewrite length_take. cbn. lia.
  - destruct repl as [x|]; cbn [option_list app fmap option_fmap option_map] in *.
    + destruct (restore_ok c1 stay gs x ch O1) as (c2 & -> & O2 & He2 & Hb2); [lia| |].
      { rewrite (list_fmap_ext _ (key_of c) stay) by (intros; apply (f_equal h_key), He1). unfold key_of at 1. rewrite He1. by apply Hx. }
      cbn. eexists. split; [done|]. eapply (repr_intro c); [exact O2|..]; [| |unfold buckets; by rewrite Hb2, Hb1|cbn; lia|done].
      * rewrite fmap_cons. f_equal; [by rewrite He2, He1|]. apply fmap_ent_ext. intros. by rewrite He2, He1.
      * apply fmap_ent_ext. intros. by rewrite He2, He1.
    + eexists. split; [done|]. eapply (repr_intro c); [exact O1|..]; [..|done|cbn; lia|done]; apply fmap_ent_ext; intros; apply He1.
Qed.

(** ** Lookups *)

Lemma ok_freq (c : cache_t) (ls gs : list positive) (ch : nat -> list positive) (a : positive) (e : cache_entry_t) (f : Z) :
  ok c ls gs ch -> c.(entries) !! a = Some e -> ok (set_entries (<[a := set_ent_freq f e]> c.(entries)) c) ls gs ch.
Proof.
  intros O Ee. set (m := <[a := _]> _).
  assert (Hk : forall b, h_key (ent m b) = h_key (ent c.(entries) b)).
  { intros b. unfold ent, m. destruct (decide (b = a)) as [->|]; [by rewrite lookup_insert_eq, Ee|by rewrite lookup_insert_ne]. }
  assert (Hm : forall b e', c.(entries) !! b = Some e' -> exists e'', m !! b = Some e'' /\ e''.(alive) = e'.(alive)).
  { intros b e' Eb. unfold m. destruct (decide (b = a)) as [->|]; [rewrite lookup_insert_eq; simplify_eq; eauto|rewrite lookup_insert_ne by done; eauto]. }
  destruct O. constructor; fields; try done.
  - intros b Hb. destruct (ok_live0 b Hb) as (e' & Eb & Ea). destruct (Hm b e' Eb) as (e'' & ? & ?). exists e''. split; congruence.
  - intros b Hb. destruct (ok_ghost0 b Hb) as (e' & Eb & Ea). destruct (Hm b e' Eb) as (e'' & ? & ?). exists e''. split; congruence.
  - unfold m. rewrite dom_insert_lookup_L by eauto. done.
  - intros i b Hi Hb. rewrite Hk. by apply ok_members0.
  - intros k. apply (keyed_transfer c); [intros; apply Hk|apply ok_order0].
  - by rewrite (list_fmap_ext _ (fun a => h_key (ent (entries c) a)) ls).
Qed.

(** The chain of a key that is empty has no entry for it. *)
Lemma empty_chain {c : cache_t} {ls gs : list positive} {ch : nat -> list positive} (O : ok c ls gs ch) (k : Z) :
  exists b, hlist_empty (hash c.(wide_hash) c.(cache_size_bits) k) c.(chains) = Some b /\ (b = true -> keyed c k (ls ++ gs) = []).
Proof.
  exists (bool_decide (ch (hash c.(wide_hash) c.(cache_size_bits) k) = [])). split; [apply hlist_empty_spec, (ok_chain _ _ _ _ O), (hash_bucket O)|].
  intros Hb%bool_decide_eq_true. by rewrite <-(ok_order _ _ _ _ O), Hb.
Qed.

Lemma capacity_nz {c : cache_t} {ls gs : list positive} {ch : nat -> list positive} (O : ok c ls gs ch) : (c.(capacity) =? 0) = false.
Proof. apply Z.eqb_neq. rewrite (proj2 (ok_table _ _ _ _ O)). pose proof (bits_bound O). lia. Qed.

Lemma get_ok (c : cache_t) (s : lru) (k : Z) (update : bool) :
  cache_repr c s -> exists c', cache_get c k update = Some ((spec_get k update s).1, c') /\ cache_repr c' (spec_get k update s).2.
Proof.
  intros (ls & gs & ch & O & -> & Hl & Hg). unfold cache_get. rewrite (capacity_nz O), (cache_hash_ok O). cbn [mbind option_bind].
  destruct (empty_chain O k) as (b & -> & Hb). cbn [mbind option_bind]. unfold spec_get. cbn [abs live].
  assert (Hself : cache_repr c (abs c ls gs)) by (by exists ls, gs, ch).
  destruct (key_split c k ls) as [E|(l1 & a & l2 & -> & Ea & E1)].
  - destruct (pick_none c k ls E) as (-> & _ & _). destruct b; [by exists c|]. rewrite (find_key_ok O). cbn [mbind option_bind].
    assert (Hh : keyed c k (ls ++ gs) = keyed c k gs) by (unfold keyed in *; by rewrite filter_app, E). rewrite Hh.
    destruct (keyed c k gs) as [|a l] eqn:Ek; [by exists c|]. cbn [head].
    assert (Ha : a ∈ keyed c k gs) by (rewrite Ek; left). apply list_elem_of_filter in Ha as [_ Ha].
    destruct (ok_ghost _ _ _ _ O a Ha) as (e & -> & Eal). cbn. rewrite Eal. by exists c.
  - destruct (pick_split c k l1 l2 a E1 Ea) as (-> & _ & Hk).
    assert (Hh : keyed c k ((l1 ++ a :: l2) ++ gs) = a :: keyed c k (l2 ++ gs)) by (unfold keyed in *; by rewrite filter_app, Hk, filter_app).
    destruct b; [by rewrite (Hb eq_refl) in Hh|]. rewrite (find_key_ok O), Hh. cbn [mbind option_bind head].
    destruct (ok_live _ _ _ _ O a ltac:(set_solver)) as (e & Ee & Eal). rewrite Ee. cbn [mbind option_bind]. rewrite Eal. cbn [negb].
    assert (Hv : ent c.(entries) a = mk_hist (key e) (value e) (freq e)) by (unfold ent; by rewrite Ee). rewrite Hv. cbn [fst snd h_val].
    eexists. split; [done|]. destruct update; [|done]. eapply (repr_intro c); [by apply ok_freq|..]; try done; unfold set_entries; cbn [entries].
    + rewrite <-list_fmap_compose. apply list_fmap_ext. intros i b Hi%list_elem_of_lookup_2. cbn. unfold bump.
      destruct (decide (b = a)) as [->|Hne]; [|].
      { unfold key_of in Ea. rewrite Hv in Ea |- *. cbn [h_key h_val h_freq] in *. rewrite Ea, Z.eqb_refl. unfold ent. rewrite lookup_insert_eq. cbn. by rewrite Ea. }
      destruct (keyed_live O l1 l2 a eq_refl) as [K1 K2]. rewrite Ea in K1, K2.
      assert (Hbk : key_of c b <> k).
      { intros Ekb. apply elem_of_app in Hi as [Hi|[->|Hi]%elem_of_cons]; [|done|];
          [apply (filter_nil_not_elem_of _ _ b K1 Ekb Hi)|apply (filter_nil_not_elem_of _ _ b K2 Ekb Hi)]. }
      unfold key_of in Hbk. destruct (Z.eqb_spec (h_key (ent (entries c) b)) k); [done|]. unfold ent. by rewrite lookup_insert_ne.
    + apply fmap_ent_ext. intros b Hb'. unfold ent. rewrite lookup_insert_ne; [done|]. intros ->.
      pose proof (ok_nodup _ _ _ _ O) as (_ & Hd & _)%NoDup_app. apply (Hd b); [set_solver|done].
Qed.

(** A lookup that asks for a live entry. *)
Lemma lookup_entry_ok {c : cache_t} {ls gs : list positive} {ch : nat -> list positive} (O : ok c ls gs ch) (p : cache_entry_t -> bool) (k : Z) :
  (forall e, p e = true -> e.(alive) = true) ->
  lookup_entry (fun e => has_key k e && p e) c k = Some (head (filter (sat c p) (keyed c k ls))).
Proof.
  intros Hp. unfold lookup_entry. rewrite (capacity_nz O), (cache_hash_ok O). cbn [mbind option_bind].
  destruct (empty_chain O k) as (b & -> & Hb). cbn [mbind option_bind].
  assert (Hsplit : keyed c k (ls ++ gs) = keyed c k ls ++ keyed c k gs) by apply filter_app.
  destruct b.
  - specialize (Hb eq_refl). rewrite Hsplit in Hb. apply app_eq_nil in Hb as [-> _]. done.
  - rewrite (search_key_ok O), Hsplit, filter_app, (filter_none (sat c p) (keyed c k gs)), app_nil_r; [done|].
    intros a [_ Ha]%list_elem_of_filter. destruct (ok_ghost _ _ _ _ O a Ha) as (e & Ee & Eal). unfold sat. rewrite Ee. cbn. intros Hpe%Hp. congruence.
Qed.

Lemma lookup_live {c : cache_t} {ls gs : list positive} {ch : nat -> list positive} (O : ok c ls gs ch) (p : cache_entry_t -> bool) (k : Z) :
  (forall e, p e = true -> e.(alive) = true) ->
  match pick k (ent c.(entries) <$> ls) with
  | None => lookup_entry (fun e => has_key k e && p e) c k = Some None
  | Some h => exists a e, c.(entries) !! a = Some e /\ e.(alive) = true /\ h = mk_hist e.(key) e.(value) e.(freq) /\
                          lookup_entry (fun e => has_key k e && p e) c k = Some (if p e then Some a else None)
  end.
Proof.
  intros Hp. rewrite (lookup_entry_ok O) by done. destruct (key_split c k ls) as [E|(l1 & a & l2 & El & Ea & E1)].
  - destruct (pick_none c k ls E) as (-> & _ & _). by rewrite E.
  - rewrite El in *. destruct (pick_split c k l1 l2 a E1 Ea) as (-> & _ & ->).
    destruct (keyed_live O l1 l2 a eq_refl) as [_ K2]. rewrite Ea in K2. rewrite K2.
    destruct (ok_live _ _ _ _ O a ltac:(set_solver)) as (e & Ee & Eal). exists a, e. split_and!; [done|done|unfold ent; by rewrite Ee|].
    assert (Hs : sat c p a <-> p e = true) by (unfold sat; by rewrite Ee).
    destruct (p e); [by rewrite filter_cons_True by (by apply Hs)|]. rewrite filter_cons_False; [done|]. by intros ?%Hs.
Qed.

Definition spec_hot (k : Z) (s : lru) : bool := from_option (fun e => THRESHOLD <=? h_freq e) false (pick k s.(live)).

Lemma freq_ok (c : cache_t) (s : lru) (k : Z) : cache_repr c s -> cache_freq c k = Some (spec_freq k s).
Proof.
  intros (ls & gs & ch & O & -> & _). unfold cache_freq, spec_freq. cbn [abs live].
  pose proof (lookup_live O alive k ltac:(done)) as Hl. destruct (pick k _) as [h|]; [|by rewrite Hl].
  destruct Hl as (a & e & Ee & Eal & -> & ->). rewrite Eal. cbn. by rewrite Ee.
Qed.

Lemma hot_ok (c : cache_t) (s : lru) (k : Z) : cache_repr c s -> cache_hot c k = Some (spec_hot k s).
Proof.
  intros (ls & gs & ch & O & -> & _). unfold cache_hot, spec_hot. cbn [abs live].
  pose proof (lookup_live O (fun e => alive e && (THRESHOLD <=? freq e)) k ltac:(by intros e [? _]%andb_true_iff)) as Hl.
  destruct (pick k _) as [h|]; [|by rewrite Hl]. destruct Hl as (a & e & Ee & Eal & -> & ->). rewrite Eal. cbn. by destruct (THRESHOLD <=? freq e).
Qed.

(** ** Iteration over the live entries *)

Lemma live_from_spec (c : cache_t) (l : list positive) (fuel : nat) (pos : lnode) :
  (forall a, a ∈ l -> is_Some (c.(entries) !! a)) -> (length l <= fuel)%nat -> chain c.(lists) pos (LEntry <$> l) LList ->
  exists es, live_from fuel pos c = Some es /\ (fun e => mk_hist (key e) (value e) (freq e)) <$> es = ent c.(entries) <$> l.
Proof.
  revert fuel pos. induction l as [|a l IH]; intros fuel pos He Hf Hc; rewrite ?fmap_cons in Hc; cbn [chain fmap list_fmap] in Hc.
  - destruct Hc as [En _]. exists []. destruct fuel; cbn; rewrite En; done.
  - destruct Hc as [[En _] Hc]. destruct fuel as [|fuel]; cbn [length] in Hf; [lia|]. destruct (He a ltac:(left)) as [e Ee].
    destruct (IH fuel (LEntry a)) as (es & E & Hes); [intros b Hb; apply He; by right|lia|done|].
    exists (e :: es). cbn. rewrite En. cbn. rewrite Ee. cbn. rewrite E. cbn. split; [done|]. rewrite Hes. unfold ent at 2. by rewrite Ee.
Qed.

Lemma live_entries_ok (c : cache_t) (s : lru) :
  cache_repr c s -> exists es, live_entries c = Some es /\ (fun e => mk_hist (key e) (value e) (freq e)) <$> es = s.(live).
Proof.
  intros (ls & gs & ch & O & -> & _). apply live_from_spec; [| |apply (ok_list _ _ _ _ O)].
  - intros a Ha. destruct (ok_live _ _ _ _ O a Ha) as (e & ? & _). by eexists.
  - pose proof (ok_nodup _ _ _ _ O) as (Hnd & _ & _)%NoDup_app.
    rewrite <-size_dom, (ok_dom _ _ _ _ O), <-(size_list_to_set (C := gset positive)) by done. apply subseteq_size. set_solver.
Qed.
