(* ===== verification/CacheRefine.v ===== *)
(** Sequences of operations on the block cache refine the abstract cache. *)

From stdpp Require Import base list option numbers gmap fin_sets.
From Stdlib Require Import ZArith Lia Bool.
From S2P Require Import Prelude Ilist Cache CacheSpec.
#[local] Open Scope Z_scope.

(** * Sequences of operations *)

Inductive cache_op : Type :=
  | Get (k : Z) (update : bool)
  | Put (k v : Z) (memory : bool)    (* [memory]: whether calloc succeeds *)
  | Freq (k : Z)
  | Hot (k : Z)
  | Profile
  | Clear_hot.

Inductive answer : Type :=
  | Pointer (v : Z)
  | Count (n : Z)
  | Flag (b : bool)
  | Profiled (calls : list (Z * Z))
  | Cleared (calls : list Z).

Fixpoint run_ops {S : Type} (step : cache_op -> S -> option (answer * S)) (l : list cache_op) (s : S) : option (list answer * S) :=
  match l with
  | [] => Some ([], s)
  | o :: l =>
      let? (a, s) := step o s in
      let? (r, s) := run_ops step l s in
      Some (a :: r, s)
  end.

Definition spec_step (o : cache_op) (s : lru) : option (answer * lru) :=
  match o with
  | Get k u => Some (Pointer (spec_get k u s).1, (spec_get k u s).2)
  | Put k v b => let? (x, s) := spec_put b k v s in Some (Pointer x, s)
  | Freq k => Some (Count (spec_freq k s), s)
  | Hot k => Some (Flag (spec_hot k s), s)
  | Profile => Some (Profiled ((fun e => (h_val e, h_freq e)) <$> s.(live)), s)
  | Clear_hot => Some (Cleared (h_val <$> s.(live)), s)
  end.

Definition spec_run : list cache_op -> lru -> option (list answer * lru) := run_ops spec_step.

Lemma create_ok (wide : bool) (bits : Z) :
  0 < bits < 31 -> exists c, cache_create wide bits = Some (Some c) /\ c.(wide_hash) = wide /\ cache_repr c (mk_lru [] [] (Z.to_nat (2 ^ bits))).
Proof.
  intros Hb. unfold cache_create. destruct (Z.leb_spec 32 bits); [lia|]. destruct (Z.eqb_spec bits 31); [lia|].
  eexists. split; [done|]. split; [done|]. rewrite Z.shiftl_1_l.
  exists [], [], (fun _ => []). split; [|split_and!; [done|cbn; lia|cbn; lia]].
  pose proof (init_spec (@no_links lnode _ _) LList) as [D1 _]. pose proof (init_spec (INIT_LIST_HEAD LList (@no_links lnode _ _)) LGhost) as [D2 F2].
  assert (D1' : dlist (INIT_LIST_HEAD LGhost (INIT_LIST_HEAD LList no_links)) LList []).
  { eapply dlist_frame; [exact F2| |exact D1]. set_solver. }
  constructor; fields; try done; try set_solver.
  - apply NoDup_nil_2.
  - intros i Hi. by apply no_hlinks_spec.
  - apply NoDup_nil_2.
  - cbn. lia.
Qed.

(** Both lists are bounded, a key is live at most once, and no entry is lost. *)
Lemma repr_bounds (c : cache_t) (s : lru) :
  cache_repr c s ->
  (length s.(live) <= s.(room))%nat /\ (length s.(ghost) <= s.(room))%nat /\ NoDup (h_key <$> s.(live)) /\
  base.size c.(entries) = (length s.(live) + length s.(ghost))%nat.
Proof.
  intros (ls & gs & ch & O & -> & Hl & Hg). cbn [abs live ghost room]. rewrite !length_fmap. split_and!; [done|done| |].
  - rewrite <-list_fmap_compose. apply O.
  - rewrite <-size_dom, (ok_dom _ _ _ _ O), size_list_to_set by apply O. by rewrite length_app.
Qed.

Section Alloc.
(** The memory allocator: an address that is not in use. *)
Context (alloc : gmap positive cache_entry_t -> positive).
Context (alloc_fresh : forall m, m !! alloc m = None).

Definition cache_step (o : cache_op) (c : cache_t) : option (answer * cache_t) :=
  match o with
  | Get k u => let? (x, c) := cache_get c k u in Some (Pointer x, c)
  | Put k v b => let? (x, c) := cache_put (if b then Some (alloc c.(entries)) else None) c k v in Some (Pointer x, c)
  | Freq k => let? n := cache_freq c k in Some (Count n, c)
  | Hot k => let? b := cache_hot c k in Some (Flag b, c)
  | Profile => let? l := cache_profile c in Some (Profiled l, c)
  | Clear_hot => let? l := clear_cache_hot c in Some (Cleared l, c)
  end.

Definition cache_run : list cache_op -> cache_t -> option (list answer * cache_t) := run_ops cache_step.

Lemma cache_step_ok (o : cache_op) (c : cache_t) (s : lru) :
  cache_repr c s ->
  match spec_step o s with
  | None => cache_step o c = None
  | Some (a, s') => exists c', cache_step o c = Some (a, c') /\ cache_repr c' s'
  end.
Proof.
  intros R. destruct o; cbn [spec_step cache_step].
  - destruct (get_ok c s k update R) as (c' & -> & R'). by exists c'.
  - pose proof (put_ok c s (if memory then Some (alloc c.(entries)) else None) k v R) as Hp.
    assert (Hb : bool_decide (is_Some (if memory then Some (alloc c.(entries)) else None)) = memory).
    { destruct memory; [by apply bool_decide_true|]. apply bool_decide_false. by intros []. }
    rewrite Hb in Hp. specialize (Hp ltac:(destruct memory; [intros a [= <-]; apply alloc_fresh|done])).
    destruct (spec_put memory k v s) as [[x s']|]; [|by rewrite Hp]. destruct Hp as (c' & -> & R'). by exists c'.
  - rewrite (freq_ok c s k R). by exists c.
  - rewrite (hot_ok c s k R). by exists c.
  - destruct (live_entries_ok c s R) as (es & E & <-). unfold cache_profile. rewrite E. cbn. exists c. split; [|done].
    by rewrite <-list_fmap_compose.
  - destruct (live_entries_ok c s R) as (es & E & <-). unfold clear_cache_hot. rewrite E. cbn. exists c. split; [|done].
    by rewrite <-list_fmap_compose.
Qed.

Lemma cache_run_ok (l : list cache_op) (c : cache_t) (s : lru) :
  cache_repr c s ->
  match spec_run l s with
  | None => cache_run l c = None
  | Some (r, s') => exists c', cache_run l c = Some (r, c') /\ cache_repr c' s'
  end.
Proof.
  unfold spec_run, cache_run. revert c s. induction l as [|o l IH]; intros c s R; cbn [run_ops]; [by exists c|].
  pose proof (cache_step_ok o c s R) as Ho. destruct (spec_step o s) as [[a s1]|]; [|by rewrite Ho].
  destruct Ho as (c1 & -> & R1). cbn. specialize (IH c1 s1 R1). destruct (run_ops spec_step l s1) as [[r s2]|]; [|by rewrite IH].
  destruct IH as (c2 & -> & R2). by exists c2.
Qed.

(** C16. A cache of [2 ^ bits] entries ([0 < bits < 31]), with either hash function,
    behaves under every sequence of its operations as the abstract cache: the same answers, the same
    live entries and history, in the same order, through all updates of the
    doubly linked lists and the hash chains and also when an allocation fails. An
    assertion fails or a pointer leads nowhere only where a live key is put again
    with the value it has. Live entries and history never exceed the capacity, a
    key is live at most once, and the allocated entries are exactly those in the
    two lists. *)
Theorem cache_refines (wide : bool) (bits : Z) (l : list cache_op) :
  0 < bits < 31 ->
  exists c0, cache_create wide bits = Some (Some c0) /\
    match spec_run l (mk_lru [] [] (Z.to_nat (2 ^ bits))) with
    | None => cache_run l c0 = None
    | Some (r, s) =>
        exists c, cache_run l c0 = Some (r, c) /\ cache_repr c s /\
          (length s.(live) <= s.(room))%nat /\ (length s.(ghost) <= s.(room))%nat /\ NoDup (h_key <$> s.(live)) /\
          base.size c.(entries) = (length s.(live) + length s.(ghost))%nat
    end.
Proof.
  intros Hb. destruct (create_ok wide bits Hb) as (c0 & E0 & _ & R0). exists c0. split; [done|].
  pose proof (cache_run_ok l c0 _ R0) as Hr. destruct (spec_run l _) as [[r s]|]; [|done].
  destruct Hr as (c & E & R). exists c. split; [done|]. split; [done|]. by apply repr_bounds.
Qed.
End Alloc.

(** * Invalidation *)

(** What becomes of the block at [x] when the loop has seen the blocks in [vs]. *)
Definition marked (p : cached_block -> bool) (vs : list Z) (x : Z) (b : cached_block) : cached_block :=
  if bool_decide (x ∈ vs /\ x <> 0) && p b then invalidate b else b.

Lemma marked_ext (p : cached_block -> bool) (vs vs' : list Z) (x : Z) (b : cached_block) :
  (x ∈ vs /\ x <> 0 <-> x ∈ vs' /\ x <> 0) -> marked p vs x b = marked p vs' x b.
Proof. intros Hx. unfold marked. by rewrite (bool_decide_ext _ _ Hx). Qed.

#[export] Instance cached_block_eq_dec : EqDecision cached_block.
Proof. solve_decision. Defined.

(** The number of blocks whose record changed. *)
Definition changed (m m' : gmap Z cached_block) : nat := base.size (filter (fun '(x, b) => m' !! x <> Some b) m).

Lemma changed_same (m : gmap Z cached_block) : changed m m = 0%nat.
Proof.
  unfold changed. apply map_size_empty_iff, map_empty_filter. intros x b Hx Hn. by apply Hn.
Qed.

(** A block that is marked counts once. *)
Lemma changed_mark (m m' : gmap Z cached_block) (x : Z) (b b' : cached_block) :
  m !! x = Some b -> b' <> b -> m' !! x = Some b' -> changed m m' = S (changed (<[x := b']> m) m').
Proof.
  intros Ex Hne Ex'. unfold changed.
  assert (Hout : filter (fun '(x, b) => m' !! x <> Some b) (<[x := b']> m) !! x = None).
  { apply map_lookup_filter_None. right. intros y Hy. rewrite lookup_insert_eq in Hy. injection Hy as <-. intros Hn. by apply Hn. }
  rewrite <- (map_size_insert_None x b _ Hout). f_equal. apply map_eq. intros y.
  destruct (decide (y = x)) as [->|Hy].
  - rewrite lookup_insert_eq. apply map_lookup_filter_Some. split; [done|]. cbn. rewrite Ex'. by intros [= ->].
  - rewrite lookup_insert_ne, !map_lookup_filter, lookup_insert_ne by done. done.
Qed.

Lemma invalidate_loop_ok (p : cached_block -> bool) (l : list cache_entry_t) (m : gmap Z cached_block) (n : Z) :
  (forall b, p (invalidate b) = false) -> (forall e, e ∈ l -> value e <> 0 -> is_Some (m !! value e)) ->
  0 <= n -> n + Z.of_nat (length l) < 2 ^ 32 ->
  exists m', invalidate_loop p l m n = Some (n + Z.of_nat (changed m m'), m') /\
    forall x, m' !! x = marked p (value <$> l) x <$> m !! x.
Proof.
  intros Hp. revert m n. induction l as [|e l IH]; intros m n He Hn Hb; cbn [invalidate_loop length] in *.
  - exists m. rewrite changed_same, Z.add_0_r. split; [done|]. intros x. unfold marked.
    rewrite bool_decide_false by set_solver. by destruct (m !! x).
  - destruct (Z.eqb_spec (value e) 0) as [E0|Hne].
    + destruct (IH m n) as (m' & E & Hm); [intros e' He'; apply He; by right|lia|lia|]. exists m'. split; [done|]. intros x.
      rewrite Hm, fmap_cons. destruct (m !! x) as [b|]; [|done]. cbn. f_equal. apply marked_ext. rewrite elem_of_cons. naive_solver.
    + destruct (He e ltac:(left) Hne) as [b Eb]. rewrite Eb. cbn [mbind option_bind].
      assert (Hl : forall x, x ∈ value e :: (value <$> l) /\ x <> 0 <-> x = value e \/ x <> value e /\ x ∈ value <$> l /\ x <> 0).
      { intros x. rewrite elem_of_cons. destruct (decide (x = value e)); naive_solver. }
      destruct (p b) eqn:Epb.
      * rewrite u32_small by lia. destruct (IH (<[value e := invalidate b]> m) (n + 1)) as (m' & E & Hm); [|lia|lia|].
        { intros e' He' Hne'. destruct (decide (value e' = value e)) as [->|]; [rewrite lookup_insert_eq; eauto|].
          rewrite lookup_insert_ne by done. apply He; [by right|done]. }
        assert (Hve : m' !! value e = Some (invalidate b)).
        { rewrite Hm, lookup_insert_eq. cbn. unfold marked. by rewrite Hp, andb_false_r. }
        exists m'. split.
        { rewrite E, (changed_mark m m' (value e) b (invalidate b) Eb); [|intros Eq; by rewrite <- Eq, Hp in Epb|done].
          do 2 f_equal. lia. }
        intros x. destruct (decide (x = value e)) as [->|Hx].
        -- rewrite Hve, fmap_cons, Eb. cbn. unfold marked. by rewrite Epb, bool_decide_true by (by apply Hl; left).
        -- rewrite Hm, fmap_cons, lookup_insert_ne by done. destruct (m !! x) as [b'|]; [|done]. cbn. f_equal.
           apply marked_ext. rewrite Hl. tauto.
      * destruct (IH m n) as (m' & E & Hm); [intros e' He'; apply He; by right|lia|lia|]. exists m'. split; [done|]. intros x.
        rewrite Hm, fmap_cons. destruct (m !! x) as [b'|] eqn:Ex; [|done]. cbn. f_equal. destruct (decide (x = value e)) as [->|Hx].
        -- simplify_eq. unfold marked. by rewrite Epb, !andb_false_r.
        -- apply marked_ext. rewrite Hl. tauto.
Qed.

(** Every block that the cache refers to is there. *)
Definition blocks_there (s : lru) (m : gmap Z cached_block) : Prop :=
  forall e, e ∈ s.(live) -> h_val e <> 0 -> is_Some (m !! h_val e).

Lemma cache_invalidate_ok (p : cached_block -> bool) (c : cache_t) (s : lru) (m : gmap Z cached_block) :
  cache_repr c s -> blocks_there s m -> (forall b, p (invalidate b) = false) ->
  exists m', cache_invalidate p c m = Some (Z.of_nat (changed m m'), m') /\
    forall x, m' !! x = marked p (h_val <$> s.(live)) x <$> m !! x.
Proof.
  intros R Hb Hp. pose proof (repr_bounds c s R) as (Hlen & _). unfold cache_invalidate. destruct (live_entries_ok c s R) as (es & -> & Hs).
  destruct R as (ls & gs & ch & O & Habs & _). rewrite (capacity_nz O). cbn [mbind option_bind].
  pose proof (bits_bound O). pose proof (buckets_Z O). rewrite Habs in Hlen at 2. cbn [abs room] in Hlen.
  rewrite <- Hs, length_fmap in Hlen.
  assert (Hv : h_val <$> s.(live) = value <$> es) by (rewrite <-Hs, <-list_fmap_compose; done). rewrite Hv.
  apply (invalidate_loop_ok p es m 0); [done| |lia|lia]. intros e He Hne. apply (Hb (mk_hist (key e) (value e) (freq e))); [|done].
  rewrite <-Hs. by apply (list_elem_of_fmap_2 (fun e => mk_hist (key e) (value e) (freq e))).
Qed.

Lemma page_eq (a : Z) : is_u32 a -> page a = a / 4096 * 4096.
Proof.
  intros Ha. unfold page. change (not32 (RV_PG_SIZE - 1)) with (Z.ones 20 ≪ 12).
  apply Z.bits_inj'. intros i Hi. change 4096 with (2 ^ 12). rewrite <-Z.shiftl_mul_pow2, <-Z.shiftr_div_pow2 by lia.
  rewrite Z.land_spec, !Z.shiftl_spec by lia. destruct (Z.ltb_spec i 12).
  - rewrite !(Z.testbit_neg_r _ (i - 12)) by lia. by rewrite andb_false_r.
  - rewrite Z.shiftr_spec by lia. replace (i - 12 + 12) with i by lia. rewrite Z.testbit_ones_nonneg by lia.
    destruct (Z.ltb_spec (i - 12) 20); [by rewrite andb_true_r|]. rewrite andb_false_r. symmetry.
    apply Z.bits_above_log2; [apply Ha|]. destruct (decide (a = 0)) as [->|]; [cbn; lia|]. apply Z.log2_lt_pow2; unfold is_u32 in *; [lia|].
    eapply Z.lt_le_trans; [apply Ha|]. apply Z.pow_le_mono_r; lia.
Qed.

(** The page test finds the blocks with an instruction byte in the page. *)
Lemma overlaps_page_spec (va : Z) (b : cached_block) :
  is_u32 va -> is_u32 b.(pc_start) -> is_u32 b.(pc_end) -> b.(pc_start) < b.(pc_end) ->
  overlaps_page va b = true <-> exists a, b.(pc_start) <= a < b.(pc_end) /\ a / 4096 = va / 4096.
Proof.
  intros Hv Hs He Hlt. unfold overlaps_page. rewrite (proj2 (Z.ltb_lt _ _) Hlt), u32_small by (unfold is_u32 in *; lia).
  rewrite !page_eq, andb_true_iff, !Z.leb_le by (unfold is_u32 in *; lia). unfold is_u32 in *. split.
  - intros [H1 H2]. exists (Z.max b.(pc_start) (va / 4096 * 4096)).
    split; [|symmetry; apply Z.div_unique with (r := Z.max b.(pc_start) (va / 4096 * 4096) - 4096 * (va / 4096))];
      pose proof (Z.div_mod b.(pc_start) 4096); pose proof (Z.mod_pos_bound b.(pc_start) 4096);
      pose proof (Z.div_mod (b.(pc_end) - 1) 4096); pose proof (Z.mod_pos_bound (b.(pc_end) - 1) 4096); lia.
  - intros (a & Ha & Ep). rewrite <-Ep. pose proof (Z.div_le_mono b.(pc_start) a 4096). pose proof (Z.div_le_mono a (b.(pc_end) - 1) 4096). lia.
Qed.

(** C30. After [cache_invalidate_va], in a cache with either hash function, the live
    blocks of the address space that have an instruction byte in the page of [va]
    are invalid, no other block has changed, and the result is the number of blocks
    that were made invalid. *)
Theorem invalidate_va_correct (c : cache_t) (s : lru) (m : gmap Z cached_block) (va sp : Z) :
  cache_repr c s -> blocks_there s m -> is_u32 va ->
  (forall x b, m !! x = Some b -> is_u32 b.(pc_start) /\ is_u32 b.(pc_end) /\ b.(pc_start) < b.(pc_end)) ->
  exists m', cache_invalidate_va c va sp m = Some (Z.of_nat (changed m m'), m') /\ dom m' = dom m /\
    forall x b, m !! x = Some b -> exists b', m' !! x = Some b' /\
      (x ∈ h_val <$> s.(live) -> x <> 0 -> b.(satp) = sp -> (exists a, b.(pc_start) <= a < b.(pc_end) /\ a / 4096 = va / 4096) ->
         b' = invalidate b) /\
      (~ (x ∈ h_val <$> s.(live) /\ b.(satp) = sp /\ exists a, b.(pc_start) <= a < b.(pc_end) /\ a / 4096 = va / 4096) -> b' = b).
Proof.
  intros R Hb Hv Hm. set (p := fun b => negb (negb (b.(satp) =? sp) || b.(invalidated)) && overlaps_page va b).
  destruct (cache_invalidate_ok p c s m R Hb) as (m' & E & Hm'); [intros b; unfold p; cbn; by rewrite orb_true_r|].
  exists m'. split; [exact E|]. split.
  { apply set_eq. intros x. rewrite !elem_of_dom, Hm'. destruct (m !! x); cbn; split; intros []; try done; eauto. }
  intros x b Ex. rewrite Hm', Ex. cbn. eexists. split; [done|].
  destruct (Hm x b Ex) as (H1 & H2 & H3). pose proof (overlaps_page_spec va b Hv H1 H2 H3) as Ho. unfold marked, p. split.
  - intros Hx Hne Hsp Ha. rewrite bool_decide_true by done. rewrite (proj2 Ho Ha), Hsp, Z.eqb_refl. cbn.
    destruct b as [s1 s2 s3 []]; [|done]. done.
  - intros Hn. destruct (bool_decide _) eqn:Eb; [|done]. apply bool_decide_eq_true in Eb as [Hx Hne]. cbn.
    destruct (Z.eqb_spec (satp b) sp) as [Hsp|]; cbn; [|done]. destruct (overlaps_page va b) eqn:Eo; [|by rewrite andb_false_r].
    destruct Hn. split; [done|]. split; [done|]. by apply Ho.
Qed.

(** * Examples *)

Definition some_address (m : gmap positive cache_entry_t) : positive := fresh (dom m : gset positive).

Lemma some_address_fresh (m : gmap positive cache_entry_t) : m !! some_address m = None.
Proof. apply (not_elem_of_dom (D := gset positive)). unfold some_address. apply (is_fresh (dom m : gset positive)). Qed.

(** Two entries; the third replaces the oldest one, which is revived later. *)
Definition sample_ops : list cache_op :=
  [Put 1 10 true; Put 2 20 true; Get 1 true; Put 3 30 true; Get 1 false; Put 1 11 true; Freq 1; Profile; Put 3 31 false; Put 3 32 true; Get 3 true].

Lemma cache_refines_witness :
  exists c0 c, cache_create false 1 = Some (Some c0) /\
    cache_run some_address sample_ops c0 =
      Some ([Pointer 0; Pointer 0; Pointer 10; Pointer 10; Pointer 0; Pointer 20; Count 3; Profiled [(11, 3); (30, 1)];
             Pointer 0; Pointer 30; Pointer 32], c) /\
    base.size c.(entries) = 4%nat.
Proof.
  destruct (cache_refines some_address some_address_fresh false 1 sample_ops ltac:(lia)) as (c0 & E0 & c & E & _ & _ & _ & _ & Hs).
  exists c0, c. split; [exact E0|]. split; [exact E|exact Hs].
Defined.

Definition run_from (bits : Z) (l : list cache_op) : option (list answer) :=
  let? r := cache_create false bits in
  let? c := r in
  fst <$> cache_run some_address l c.

(** A lookup does not renew an entry: the oldest one is replaced although it was
    the last one used. *)
Example get_does_not_renew :
  run_from 1 [Put 1 10 true; Put 2 20 true; Get 1 true; Put 3 30 true] = Some [Pointer 0; Pointer 0; Pointer 10; Pointer 10].
Proof. vm_compute. reflexivity. Qed.

(** With [size_bits] 0 the hash shifts by 32; with 31 the size overflows. *)
Example cache_size_limits :
  run_from 0 [Get 1 true] = None /\ cache_create false 31 = None /\ cache_create false 32 = Some None.
Proof. vm_compute. done. Qed.

(** Two blocks of one address space, in the pages 1 and 2. *)
Definition sample_blocks : gmap Z cached_block :=
  {[ 10 := mk_cached 5 0x1ffc 0x2004 false; 20 := mk_cached 5 0x1000 0x1010 false ]}.

Definition sample_cache : option cache_t :=
  let? r := cache_create true 1 in
  let? c := r in
  snd <$> cache_run some_address [Put 1 10 true; Put 2 20 true] c.

Lemma invalidate_va_correct_witness :
  exists c n m', sample_cache = Some c /\ c.(wide_hash) = true /\ cache_invalidate_va c 0x2500 5 sample_blocks = Some (n, m') /\
    m' !! 10 = Some (mk_cached 5 0x1ffc 0x2004 true) /\ m' !! 20 = Some (mk_cached 5 0x1000 0x1010 false).
Proof.
  destruct (create_ok true 1 ltac:(lia)) as (c0 & E0 & _ & R0).
  pose proof (cache_run_ok some_address some_address_fresh [Put 1 10 true; Put 2 20 true] c0 _ R0) as Hr.
  set (q := spec_run _ _) in Hr. vm_compute in q. subst q. cbv beta iota in Hr. destruct Hr as (c & E & R).
  assert (Hsc : sample_cache = Some c) by (unfold sample_cache; rewrite E0; cbn [mbind option_bind]; by rewrite E).
  assert (Hw : c.(wide_hash) = true).
  { assert (Ho : wide_hash <$> sample_cache = Some true) by (by vm_compute). rewrite Hsc in Ho. by injection Ho. }
  destruct (invalidate_va_correct c _ sample_blocks 0x2500 5 R) as (m' & Ev & _ & Hm).
  - intros e He _. cbn in He. repeat (apply elem_of_cons in He as [->|He]; [vm_compute; eauto|]). by apply elem_of_nil in He.
  - unfold is_u32. lia.
  - intros x b Hx. unfold sample_blocks in Hx. apply lookup_insert_Some in Hx as [[_ <-]|[_ Hx]]; [unfold is_u32; cbn; lia|].
    apply lookup_singleton_Some in Hx as [_ <-]. unfold is_u32; cbn; lia.
  - exists c, (Z.of_nat (changed sample_blocks m')), m'. split_and!; [exact Hsc|exact Hw|exact Ev| |].
    + destruct (Hm 10 (mk_cached 5 0x1ffc 0x2004 false) eq_refl) as (b' & -> & Hb & _). f_equal. apply Hb; [cbn; set_solver|done|done|].
      exists 0x2000. cbn. split; [lia|reflexivity].
    + destruct (Hm 20 (mk_cached 5 0x1000 0x1010 false) eq_refl) as (b' & -> & _ & Hb). f_equal. apply Hb.
      intros (_ & _ & a & Ha & Ep). cbn in Ha. assert (a / 4096 = 1) by (symmetry; apply Z.div_unique with (r := a - 4096); lia).
      rewrite H in Ep. discriminate Ep.
Defined.
