(* ===== verification/Mmu.v ===== *)
(** Address translation of system emulation (system.c): the page-table walk, the
    permission check with its traps, the two TLBs, and the memory accesses through
    them, for builds with SYSTEM and ELF_LOADER (no memory-mapped devices).

    A pointer to a page-table entry is its offset from [mem_base]. [on_trap], the
    callback of [riscv_io_t] that runs the guest's trap handler, is a parameter. *)

From stdpp Require Import base list option numbers gmap.
From Stdlib Require Import ZArith Lia Bool.
From S2P Require Import Prelude Bits Insn Mem State Trap.
#[local] Open Scope Z_scope.

Definition RV_PG_SHIFT : Z := 12.
Definition RV_PG_SIZE : Z := 1 ≪ RV_PG_SHIFT.

Definition PTE_V : Z := 1.
Definition PTE_R : Z := 1 ≪ 1.
Definition PTE_W : Z := 1 ≪ 2.
Definition PTE_X : Z := 1 ≪ 3.
Definition PTE_U : Z := 1 ≪ 4.
Definition PTE_A : Z := 1 ≪ 6.
Definition PTE_D : Z := 1 ≪ 7.

Definition NEXT_PG_TBL : Z := 1.
Definition RO_PAGE : Z := 3.
Definition RW_PAGE : Z := 7.
Definition EO_PAGE : Z := 9.
Definition RX_PAGE : Z := 11.
Definition RWX_PAGE : Z := 15.

Definition SSTATUS_SUM : Z := 1 ≪ 18.
Definition SSTATUS_MXR : Z := 1 ≪ 19.

Definition PAGEFAULT_INSN : Z := 12.
Definition PAGEFAULT_LOAD : Z := 13.
Definition PAGEFAULT_STORE : Z := 15.

(** [MASK(n)] of common.h, on 64 bits. *)
Definition MASK (n : Z) : Z := if 64 <=? n then u64 (Z.lnot 0) else u64 (Z.lnot (u64 (u64 (Z.lnot 0) ≪ n))).

Definition TLB_SIZE : nat := 64.
Definition TLB_MASK : Z := Z.of_nat TLB_SIZE - 1.
Definition TLB_PAGE_LEVEL_SUPER : Z := 1.

Record tlb_entry_t : Type := mk_tlb {
  vpn : Z;
  ppn : Z;
  pte_addr : Z;
  perm : Z;
  valid : bool;
  dirty : bool;
  level : Z }.

(** What system emulation adds to the processor state, with the static variables
    [need_retranslate] and [need_handle_signal]. *)
Record sys : Type := mk_sys {
  hart : riscv;
  dtlb : list tlb_entry_t;
  itlb : list tlb_entry_t;
  is_trapped : bool;
  need_retranslate : bool;
  need_handle_signal : bool }.

Definition set_hart (x : riscv) (s : sys) : sys :=
  mk_sys x s.(dtlb) s.(itlb) s.(is_trapped) s.(need_retranslate) s.(need_handle_signal).
Definition set_dtlb (x : list tlb_entry_t) (s : sys) : sys :=
  mk_sys s.(hart) x s.(itlb) s.(is_trapped) s.(need_retranslate) s.(need_handle_signal).
Definition set_itlb (x : list tlb_entry_t) (s : sys) : sys :=
  mk_sys s.(hart) s.(dtlb) x s.(is_trapped) s.(need_retranslate) s.(need_handle_signal).
Definition set_is_trapped (x : bool) (s : sys) : sys :=
  mk_sys s.(hart) s.(dtlb) s.(itlb) x s.(need_retranslate) s.(need_handle_signal).

(** [need_retranslate = need_handle_signal = true] *)
Definition ask_retry (s : sys) : sys := mk_sys s.(hart) s.(dtlb) s.(itlb) s.(is_trapped) true true.

Definition sys_mem (s : sys) : memory_t := s.(hart).(mem).
Definition set_sys_mem (m : memory_t) (s : sys) : sys := set_hart (set_mem m s.(hart)) s.

(** * Page tables *)

Definition ppn_is_valid (s : sys) (n : Z) : bool := n <? (sys_mem s).(mem_size) / RV_PG_SIZE.

Definition PAGE_TABLE (s : sys) (n : Z) : option Z := if ppn_is_valid s n then Some (shl32 n RV_PG_SHIFT) else None.

(** [*pte] and [*pte |= bits]. *)
Definition read_pte (s : sys) (a : Z) : option Z := checked_load 4 (sys_mem s) a.
Definition or_pte (bits a : Z) (s : sys) : option sys :=
  let? v := read_pte s a in
  let? m := checked_store 4 (sys_mem s) a (v .| bits) in
  Some (set_sys_mem m s).

(** The loop of [mmu_walk] from level [i - 1] down, in the table at [table]; the
    result is the entry and its level, or a null pointer. *)
Fixpoint walk_from (s : sys) (vaddr : Z) (i : nat) (table : Z) : option (option (Z * Z)) :=
  match i with
  | O => Some None
  | S j =>
      let lv := 2 - Z.of_nat j in
      let n := ((vaddr ≫ RV_PG_SHIFT) ≫ (Z.of_nat j * (RV_PG_SHIFT - 2))) .& MASK 10 in
      let a := table + 4 * n in
      let? pte := read_pte s a in
      let XWRV_bit := pte .& MASK 4 in
      if XWRV_bit =? NEXT_PG_TBL then
        match PAGE_TABLE s (pte ≫ (RV_PG_SHIFT - 2)) with
        | None => Some None
        | Some table => walk_from s vaddr j table
        end
      else if (XWRV_bit =? RO_PAGE) || (XWRV_bit =? RW_PAGE) || (XWRV_bit =? EO_PAGE) || (XWRV_bit =? RX_PAGE) || (XWRV_bit =? RWX_PAGE)
      then
        if (lv =? 1) && truthy ((pte ≫ (RV_PG_SHIFT - 2)) .& MASK 10) then Some None else Some (Some (a, lv))
      else Some None
  end.

Definition mmu_walk (s : sys) (vaddr : Z) : option (option (Z * Z)) :=
  match PAGE_TABLE s (csr_val s.(hart) csr_satp .& MASK 22) with
  | None => Some None
  | Some table => walk_from s vaddr 2 table
  end.

(** [get_ppn_and_offset], then [ppn | offset]. *)
Definition pte_ppn (pte : Z) : Z := shl32 (pte ≫ (RV_PG_SHIFT - 2)) RV_PG_SHIFT.
Definition page_offset (lv vaddr : Z) : Z :=
  if lv =? 1 then vaddr .& MASK (RV_PG_SHIFT + 10) else vaddr .& MASK RV_PG_SHIFT.

(** * The TLBs *)

Definition no_entry : tlb_entry_t := mk_tlb 0 0 0 0 false false 0.

Definition mmu_tlb_flush_all (s : sys) : sys :=
  set_itlb (replicate TLB_SIZE no_entry) (set_dtlb (replicate TLB_SIZE no_entry) s).

Definition tlb_index (vaddr : Z) : nat := Z.to_nat ((vaddr ≫ RV_PG_SHIFT) .& TLB_MASK).

Definition hits (vaddr : Z) (e : tlb_entry_t) : bool := e.(valid) && (e.(vpn) =? vaddr ≫ RV_PG_SHIFT).

Definition drop_entry (vaddr : Z) (e : tlb_entry_t) : tlb_entry_t :=
  if hits vaddr e then mk_tlb e.(vpn) e.(ppn) e.(pte_addr) e.(perm) false e.(dirty) e.(level) else e.

Definition mmu_tlb_flush (vaddr : Z) (s : sys) : sys :=
  let idx := tlb_index vaddr in
  set_itlb (alter (drop_entry vaddr) idx s.(itlb)) (set_dtlb (alter (drop_entry vaddr) idx s.(dtlb)) s).

(** [ppn | offset] of an entry. *)
Definition entry_paddr (e : tlb_entry_t) (vaddr : Z) : Z :=
  e.(ppn) .| (if e.(level) =? TLB_PAGE_LEVEL_SUPER then vaddr .& MASK (RV_PG_SHIFT + 10) else vaddr .& MASK RV_PG_SHIFT).

(** The physical address on a hit, [None] on a miss. *)
Definition dtlb_lookup (s : sys) (vaddr : Z) (write : bool) : option (option Z * sys) :=
  let idx := tlb_index vaddr in
  let? e := s.(dtlb) !! idx in
  if hits vaddr e then
    let needed := if write then PTE_W else PTE_R in
    if negb (truthy (e.(perm) .& needed)) then Some (None, s)
    else
      let? s :=
        if write && negb e.(dirty) then
          let? s := or_pte PTE_D e.(pte_addr) s in
          let e := mk_tlb e.(vpn) e.(ppn) e.(pte_addr) e.(perm) e.(valid) true e.(level) in
          Some (set_dtlb (<[idx := e]> s.(dtlb)) s)
        else Some s in
      Some (Some (entry_paddr e vaddr), s)
  else Some (None, s).

Definition itlb_lookup (s : sys) (vaddr : Z) : option (option Z) :=
  let? e := s.(itlb) !! tlb_index vaddr in
  if hits vaddr e then
    if negb (truthy (e.(perm) .& PTE_X)) then Some None else Some (Some (entry_paddr e vaddr))
  else Some None.

(** The entry that [dtlb_populate] and [itlb_populate] write. *)
Definition new_entry (vaddr a pte lv : Z) : tlb_entry_t :=
  mk_tlb (vaddr ≫ RV_PG_SHIFT) (pte_ppn pte) a (pte .& (PTE_R .| PTE_W .| PTE_X .| PTE_U)) true (truthy (pte .& PTE_D)) lv.

Definition dtlb_populate (vaddr a lv : Z) (s : sys) : option sys :=
  let? pte := read_pte s a in
  Some (set_dtlb (<[tlb_index vaddr := new_entry vaddr a pte lv]> s.(dtlb)) s).

Definition itlb_populate (vaddr a lv : Z) (s : sys) : option sys :=
  let? pte := read_pte s a in
  Some (set_itlb (<[tlb_index vaddr := new_entry vaddr a pte lv]> s.(itlb)) s).

(** RVOP(sfencevma): [rs1] is a register number. *)
Definition sfence_vma (rs1 : Z) (s : sys) : sys :=
  if rs1 =? 0 then mmu_tlb_flush_all s else mmu_tlb_flush (xreg s.(hart) rs1) s.

(** A CSR instruction that leaves [v] in satp. *)
Definition write_satp (v : Z) (s : sys) : sys :=
  let old_satp := csr_val s.(hart) csr_satp in
  let s := set_hart (set_csr csr_satp v s.(hart)) s in
  if negb (v =? old_satp) then mmu_tlb_flush_all s else s.

(** * Accesses *)

Section Access.
Context (on_trap : sys -> option sys).

(** [SET_CAUSE_AND_TVAL_THEN_TRAP] in SYSTEM builds, for a cause that is not
    ECALL_U. *)
Definition trap_with (cause tval : Z) (s : sys) : option sys :=
  let s := set_is_trapped true s in
  let rv := s.(hart) in
  let rv := if RV_PRIV_IS_U_OR_S_MODE rv then set_csr csr_stval tval (set_csr csr_scause cause rv)
            else set_csr csr_mtval tval (set_csr csr_mcause cause rv) in
  on_trap (set_hart rv s).

Definition fault_cause (access_bits : Z) : option Z :=
  if access_bits =? PTE_R then Some PAGEFAULT_LOAD
  else if access_bits =? PTE_W then Some PAGEFAULT_STORE
  else if access_bits =? PTE_X then Some PAGEFAULT_INSN
  else None.

(** [MMU_FAULT_CHECK_IMPL]; [pte] is a null pointer or an entry. *)
Definition mmu_fault_check (s : sys) (pte : option Z) (vaddr access_bits : Z) : option (bool * sys) :=
  let? scause := fault_cause access_bits in
  let fault := let? s := trap_with scause vaddr s in Some (false, s) in
  let sstatus := csr_val s.(hart) csr_sstatus in
  let? p := match pte with None => Some None | Some a => let? p := read_pte s a in Some (Some p) end in
  match p with
  | None => fault
  | Some p =>
      if negb (truthy (p .& PTE_V)) then fault
      else if negb (truthy (p .& access_bits)) then fault
      else if (negb (truthy (SSTATUS_MXR .& sstatus)) && negb (truthy (p .& PTE_R)) && (access_bits =? PTE_R)) ||
              (truthy (SSTATUS_MXR .& sstatus) && negb (truthy ((p .& PTE_R) .| (p .& PTE_X))) && (access_bits =? PTE_R))
      then fault
      else if (s.(hart).(priv_mode) =? RV_PRIV_S_MODE) && negb (truthy (SSTATUS_SUM .& sstatus)) && truthy (p .& PTE_U)
      then fault
      else Some (true, s)
  end.

(** The walk and the check, once more after a trap; [None] inside: the access has
    to be retried. *)
Definition walk_and_check (s : sys) (vaddr access_bits : Z) : option (option (Z * Z) * sys) :=
  let? w := mmu_walk s vaddr in
  let? (ok, s) := mmu_fault_check s (fst <$> w) vaddr access_bits in
  if ok : bool then Some (w, s)
  else
    let? w := mmu_walk s vaddr in
    let? (ok, s) := mmu_fault_check s (fst <$> w) vaddr access_bits in
    match w with
    | Some e => if ok : bool then Some (Some e, s) else Some (None, ask_retry s)
    | None => Some (None, ask_retry s)
    end.

(** [if (!( *pte & bits)) *pte |= bits] *)
Definition mark_pte (bits a : Z) (s : sys) : option sys :=
  let? p := read_pte s a in
  if negb (truthy (p .& bits)) then or_pte bits a s else Some s.

Definition mmu_translate (s : sys) (vaddr : Z) (rw : bool) : option (Z * sys) :=
  if csr_val s.(hart) csr_satp =? 0 then Some (vaddr, s)
  else
    let? (hit, s) := dtlb_lookup s vaddr (negb rw) in
    match hit with
    | Some paddr => Some (paddr, s)
    | None =>
        let? (w, s) := walk_and_check s vaddr (if rw then PTE_R else PTE_W) in
        match w with
        | None => Some (0, s)
        | Some (a, lv) =>
            let? s := mark_pte PTE_A a s in
            let? s := if negb rw then mark_pte PTE_D a s else Some s in
            let? s := dtlb_populate vaddr a lv s in
            let? pte := read_pte s a in
            Some (pte_ppn pte .| page_offset lv vaddr, s)
        end
    end.

(** The retry of an instruction fetch does not look at a missing entry again. *)
Definition fetch_walk (s : sys) (vaddr : Z) : option (option (Z * Z) * sys) :=
  let? w := mmu_walk s vaddr in
  let? (ok, s) := mmu_fault_check s (fst <$> w) vaddr PTE_X in
  if ok : bool then Some (w, s)
  else
    let? w := mmu_walk s vaddr in
    match w with
    | None => Some (None, ask_retry s)
    | Some (a, lv) =>
        let? (ok, s) := mmu_fault_check s (Some a) vaddr PTE_X in
        if ok : bool then Some (Some (a, lv), s) else Some (None, ask_retry s)
    end.

Definition mmu_ifetch (s : sys) (vaddr : Z) : option (Z * sys) :=
  if csr_val s.(hart) csr_satp =? 0 then let? v := memory_ifetch (sys_mem s) vaddr in Some (v, s)
  else if s.(need_retranslate) then Some (0, s)
  else
    let? hit := itlb_lookup s vaddr in
    match hit with
    | Some paddr => let? v := memory_ifetch (sys_mem s) paddr in Some (v, s)
    | None =>
        let? (w, s) := fetch_walk s vaddr in
        match w with
        | None => Some (0, s)
        | Some (a, lv) =>
            let? s := mark_pte PTE_A a s in
            let? s := itlb_populate vaddr a lv s in
            let? pte := read_pte s a in
            let? v := memory_ifetch (sys_mem s) (pte_ppn pte .| page_offset lv vaddr) in
            Some (v, s)
        end
    end.

(** [mmu_read_w], [mmu_read_s] and [mmu_read_b]: [n] bytes. *)
Definition mmu_read (n : nat) (s : sys) (vaddr : Z) : option (Z * sys) :=
  let? (addr, s) := mmu_translate s vaddr true in
  if s.(need_retranslate) then Some (0, s)
  else let? v := checked_load n (sys_mem s) addr in Some (v, s).

Definition mmu_read_w : sys -> Z -> option (Z * sys) := mmu_read 4.
Definition mmu_read_s : sys -> Z -> option (Z * sys) := mmu_read 2.
Definition mmu_read_b : sys -> Z -> option (Z * sys) := mmu_read 1.

Definition mmu_write (n : nat) (s : sys) (vaddr val : Z) : option sys :=
  let? (addr, s) := mmu_translate s vaddr false in
  if s.(need_retranslate) then Some s
  else let? m := checked_store n (sys_mem s) addr val in Some (set_sys_mem m s).

Definition mmu_write_w : sys -> Z -> Z -> option sys := mmu_write 4.
Definition mmu_write_s : sys -> Z -> Z -> option sys := mmu_write 2.
Definition mmu_write_b : sys -> Z -> Z -> option sys := mmu_write 1.
End Access.
