(* ===== verification/MmuSpec.v ===== *)
(** Address translation against the Sv32 scheme of the privileged architecture:
    the page-table walk is the walk of the manual, and with coherent TLBs an
    access is translated as without them. *)

From stdpp Require Import base list option numbers gmap.
From Stdlib Require Import ZArith Lia Bool.
From S2P Require Import Prelude Bits Insn Mem MemSpec State Trap Samples IsaValues Mmu.
#[local] Open Scope Z_scope.

(** * Sv32, after the manual *)

Definition bit (p k : Z) : bool := Z.testbit p k.

(** What an entry is: a pointer to the next table, a leaf, or no valid entry. *)
Inductive entry_class : Type := Table | Leaf | Bad.

Definition sv32_class (p : Z) : entry_class :=
  if negb (bit p 0) || (negb (bit p 1) && bit p 2) then Bad else if bit p 1 || bit p 3 then Leaf else Table.

(** The walk from level [i] in the table on page [n]; the result is the address of
    the leaf entry, the entry and its level. [None] is a page fault. *)
Fixpoint sv32_walk (m : memory_t) (va : Z) (i : nat) (n : Z) : option (Z * Z * nat) :=
  if negb (n <? m.(mem_size) / 4096) then None
  else
    let a := n * 4096 + (va / 2 ^ (12 + 10 * Z.of_nat i)) mod 1024 * 4 in
    let p := load_le 4 m a in
    match sv32_class p with
    | Bad => None
    | Leaf => if (0 <? Z.of_nat i) && negb ((p / 1024) mod 1024 =? 0) then None else Some (a, p, i)
    | Table => match i with O => None | S j => sv32_walk m va j (p / 1024) end
    end.

Definition root (s : sys) : Z := csr_val s.(hart) csr_satp mod 2 ^ 22.

Definition sv32_leaf (s : sys) (va : Z) : option (Z * Z * nat) := sv32_walk (sys_mem s) va 1 (root s).

(** The physical address, on the 32 address lines the emulator has. *)
Definition sv32_pa (i : nat) (p va : Z) : Z := (p / 1024 * 4096 + va mod 2 ^ (12 + 10 * Z.of_nat i)) mod 2 ^ 32.

(** *** The permissions of the manual *)

Definition SUM (s : sys) : bool := bit (csr_val s.(hart) csr_sstatus) 18.
Definition MXR (s : sys) : bool := bit (csr_val s.(hart) csr_sstatus) 19.

(** The access with bit [k] (1: load, 2: store, 3: fetch) that a leaf entry
    permits: loads need R, or X when MXR is set; stores need W and fetches X.
    User mode needs U; supervisor mode may not fetch from a page with U and
    loads from or stores to it only when SUM is set. *)
Definition sv32_permits (s : sys) (k p : Z) : bool :=
  (if k =? 1 then bit p 1 || (MXR s && bit p 3) else bit p k) &&
  (if s.(hart).(priv_mode) =? RV_PRIV_U_MODE then bit p 4 else negb (bit p 4) || (SUM s && negb (k =? 3))).

Definition sv32_access (s : sys) (k va : Z) : option (Z * Z * nat) :=
  let? (a, p, i) := sv32_leaf s va in
  if sv32_permits s k p then Some (a, p, i) else None.

(** *** The permissions the emulator checks *)

(** A page that supervisor mode may not touch. *)
Definition user_only (s : sys) (p : Z) : bool :=
  (s.(hart).(priv_mode) =? RV_PRIV_S_MODE) && negb (bit (csr_val s.(hart) csr_sstatus) 18) && bit p 4.

(** The access with bit [k] that [mmu_fault_check] lets through. *)
Definition allowed (s : sys) (k p : Z) : bool := bit p k && negb (user_only s p).

Definition checked_access (s : sys) (k va : Z) : option (Z * Z * nat) :=
  let? (a, p, i) := sv32_leaf s va in
  if allowed s k p then Some (a, p, i) else None.

(** Where the two agree: the hart is in supervisor mode, or in user mode on a
    page with U; and a load does not rely on MXR. *)
Definition sv32_scope (s : sys) (k va : Z) : bool :=
  match sv32_leaf s va with
  | Some (_, p, _) =>
      ((s.(hart).(priv_mode) =? RV_PRIV_S_MODE) || ((s.(hart).(priv_mode) =? RV_PRIV_U_MODE) && bit p 4)) &&
      ((k =? 2) || bit p 1 || negb (MXR s && bit p 3))
  | None => true
  end.

Lemma sv32_checked (s : sys) (k va : Z) :
  1 <= k <= 2 -> sv32_scope s k va = true -> sv32_access s k va = checked_access s k va.
Proof.
  intros Hk. unfold sv32_scope, sv32_access, checked_access. destruct (sv32_leaf s va) as [[[a p] i]|]; [|done].
  unfold sv32_permits, allowed, user_only, SUM. intros [Hm Hx]%andb_true_iff.
  assert (Hp : forall c d : bool, c = d -> (if c then Some (a, p, i) else None) = (if d then Some (a, p, i) else None)) by (by intros c d ->).
  apply Hp. clear Hp. assert (k = 1 \/ k = 2) as [-> | ->] by lia; cbn [Z.eqb Pos.eqb orb] in *.
  - revert Hx. destruct (bit p 1); [intros _|intros ->%negb_true_iff; done]. cbn [orb andb].
    revert Hm. destruct (priv_mode (hart s) =? RV_PRIV_S_MODE) eqn:Es; [apply Z.eqb_eq in Es; rewrite Es; intros _|].
    + change (RV_PRIV_S_MODE =? RV_PRIV_U_MODE) with false. cbn [andb]. by destruct (bit p 4), (bit (csr_val (hart s) csr_sstatus) 18).
    + cbn [orb]. by intros [-> ->]%andb_true_iff.
  - destruct (bit p 2); [|done]. cbn [andb].
    revert Hm. destruct (priv_mode (hart s) =? RV_PRIV_S_MODE) eqn:Es; [apply Z.eqb_eq in Es; rewrite Es; intros _|].
    + change (RV_PRIV_S_MODE =? RV_PRIV_U_MODE) with false. cbn [andb]. by destruct (bit p 4), (bit (csr_val (hart s) csr_sstatus) 18).
    + cbn [orb]. by intros [-> ->]%andb_true_iff.
Qed.

(** * Words and bits *)

Lemma mask_ones (n : Z) : 0 <= n <= 32 -> MASK n = Z.ones n.
Proof.
  intros Hn. unfold MASK. destruct (Z.leb_spec 64 n); [lia|]. unfold u64. change (Z.lnot 0 mod 2 ^ 64) with (Z.ones 64).
  rewrite <-!Z.land_ones by lia. apply Z.bits_inj'. intros k Hk. rewrite Z.land_spec, Z.lnot_spec, Z.land_spec, Z.shiftl_spec by lia.
  rewrite !Z.testbit_ones by lia.
  destruct (Z.ltb_spec k n), (Z.leb_spec 0 (k - n)), (Z.leb_spec 0 k), (Z.ltb_spec (k - n) 64), (Z.ltb_spec k 64); done || lia.
Qed.

Lemma land_ones_mod (x n : Z) : 0 <= n <= 32 -> x .& MASK n = x mod 2 ^ n.
Proof. intros Hn. rewrite mask_ones by done. apply Z.land_ones. lia. Qed.

Lemma truthy_bit (p k : Z) : 0 <= k -> truthy (p .& (1 ≪ k)) = bit p k.
Proof. intros Hk. rewrite Z.shiftl_1_l. by apply truthy_land_pow2. Qed.

Lemma mod_bit (p k n : Z) : 0 <= k < n -> bit (p mod 2 ^ n) k = bit p k.
Proof. intros. unfold bit. rewrite Z.mod_pow2_bits_low by lia. done. Qed.

(** The class of an entry by its four low bits. *)
Lemma xwrv_class {A} (p : Z) (x y z : A) :
  let q := p .& MASK 4 in
  (if q =? NEXT_PG_TBL then x
   else if (q =? RO_PAGE) || (q =? RW_PAGE) || (q =? EO_PAGE) || (q =? RX_PAGE) || (q =? RWX_PAGE) then y else z) =
  match sv32_class p with Table => x | Leaf => y | Bad => z end.
Proof.
  cbv zeta. unfold sv32_class. rewrite land_ones_mod by lia. rewrite <-!(mod_bit p _ 4) by lia.
  pose proof (Z.mod_pos_bound p (2 ^ 4) ltac:(lia)) as Hq. set (q := p mod 2 ^ 4) in *. clearbody q.
  assert (Hc : q = 0 \/ q = 1 \/ q = 2 \/ q = 3 \/ q = 4 \/ q = 5 \/ q = 6 \/ q = 7 \/ q = 8 \/ q = 9 \/ q = 10 \/ q = 11 \/ q = 12 \/ q = 13 \/ q = 14 \/ q = 15) by lia.
  repeat (destruct Hc as [->|Hc]; [done|]). by subst.
Qed.

(** * The walk *)

Section Walk.
Context (s : sys) (Hm : mem_wf (sys_mem s)).

Lemma pages_bound : (sys_mem s).(mem_size) / 4096 <= 2 ^ 20.
Proof. destruct Hm as [_ Hs]. apply Z.div_le_upper_bound; lia. Qed.

Lemma page_table_ok (n : Z) : 0 <= n -> PAGE_TABLE s n = if n <? (sys_mem s).(mem_size) / 4096 then Some (n * 4096) else None.
Proof.
  intros Hn. unfold PAGE_TABLE, ppn_is_valid. change RV_PG_SIZE with 4096. destruct (Z.ltb_spec n (mem_size (sys_mem s) / 4096)); [|done].
  pose proof pages_bound. unfold shl32. rewrite Z.shiftl_mul_pow2 by done. change (2 ^ RV_PG_SHIFT) with 4096. rewrite u32_id; [done|]. unfold is_u32. lia.
Qed.

(** An entry of a table in RAM. *)
Lemma read_table (n k : Z) : 0 <= n < (sys_mem s).(mem_size) / 4096 -> 0 <= k < 1024 ->
  read_pte s (n * 4096 + k * 4) = Some (load_le 4 (sys_mem s) (n * 4096 + k * 4)).
Proof.
  intros Hn Hk. unfold read_pte, checked_load. change (Z.of_nat 4) with 4.
  pose proof (Z.mul_div_le (mem_size (sys_mem s)) 4096 ltac:(lia)). rewrite (proj2 (contains_spec (sys_mem s) _ 4 ltac:(lia))); [done|]. lia.
Qed.

Lemma walk_step (va n : Z) (i : nat) :
  0 <= va -> 0 <= n < (sys_mem s).(mem_size) / 4096 -> (i <= 1)%nat ->
  let a := n * 4096 + (va / 2 ^ (12 + 10 * Z.of_nat i)) mod 1024 * 4 in
  let p := load_le 4 (sys_mem s) a in
  walk_from s va (S i) (n * 4096) =
  match sv32_class p with
  | Bad => Some None
  | Leaf => if (0 <? Z.of_nat i) && negb ((p / 1024) mod 1024 =? 0) then Some None else Some (Some (a, 2 - Z.of_nat i))
  | Table => if p / 1024 <? (sys_mem s).(mem_size) / 4096 then walk_from s va i (p / 1024 * 4096) else Some None
  end.
Proof.
  intros Hva Hn Hi a p. cbn [walk_from]. rewrite land_ones_mod by lia. change RV_PG_SHIFT with 12. rewrite !Z.shiftr_div_pow2 by lia.
  rewrite Z.div_div, <-Z.pow_add_r by lia. replace (12 + Z.of_nat i * (12 - 2)) with (12 + 10 * Z.of_nat i) by lia.
  rewrite (Z.mul_comm 4). change (2 ^ 10) with 1024. rewrite read_table by (try done; apply Z.mod_pos_bound; lia).
  fold a. fold p. cbn [mbind option_bind]. rewrite xwrv_class, Z.shiftr_div_pow2 by lia. destruct (sv32_class p); [| |done].
  - assert (Hp : 0 <= p) by apply (load_le_range 4 _ a Hm). change (2 ^ (12 - 2)) with 1024.
    rewrite page_table_ok by (apply Z.div_pos; lia). by destruct (p / 1024 <? mem_size (sys_mem s) / 4096).
  - change (2 ^ (12 - 2)) with 1024. rewrite land_ones_mod by lia. change (2 ^ 10) with 1024. unfold truthy.
    assert (E : (2 - Z.of_nat i =? 1) = (0 <? Z.of_nat i)) by (destruct (Z.eqb_spec (2 - Z.of_nat i) 1), (Z.ltb_spec 0 (Z.of_nat i)); lia || done).
    by rewrite E.
Qed.

Lemma walk_from_ok (va n : Z) (i : nat) :
  0 <= va -> 0 <= n < (sys_mem s).(mem_size) / 4096 -> (i <= 1)%nat ->
  walk_from s va (S i) (n * 4096) = Some ((fun r => (r.1.1, 2 - Z.of_nat r.2)) <$> sv32_walk (sys_mem s) va i n).
Proof.
  intros Hva Hn Hi. revert n Hn. induction i as [|i IH]; intros n Hn; rewrite walk_step by (try done; lia); cbn [sv32_walk];
    rewrite (proj2 (Z.ltb_lt _ _) (proj2 Hn)); cbn [negb]; cbv zeta; set (p := load_le 4 _ _).
  - destruct (sv32_class p); [|done|done]. by destruct (p / 1024 <? mem_size (sys_mem s) / 4096).
  - destruct (sv32_class p); [|by destruct ((0 <? Z.of_nat (S i)) && negb ((p / 1024) mod 1024 =? 0))|done].
    assert (Hp : 0 <= p) by apply (load_le_range 4 _ _ Hm).
    destruct (Z.ltb_spec (p / 1024) (mem_size (sys_mem s) / 4096)).
    + apply IH; [lia|]. split; [apply Z.div_pos; lia|done].
    + destruct i; cbn [sv32_walk]; by rewrite (proj2 (Z.ltb_ge _ _)).
Qed.

Lemma mmu_walk_ok (va : Z) :
  0 <= va -> mmu_walk s va = Some ((fun r => (r.1.1, 2 - Z.of_nat r.2)) <$> sv32_leaf s va).
Proof.
  intros Hva. unfold mmu_walk, sv32_leaf. rewrite land_ones_mod by lia. fold (root s).
  assert (Hr : 0 <= root s) by (apply Z.mod_pos_bound; lia). rewrite page_table_ok by done.
  destruct (Z.ltb_spec (root s) (mem_size (sys_mem s) / 4096)); [by apply walk_from_ok|].
  cbn [sv32_walk]. by rewrite (proj2 (Z.ltb_ge _ _)).
Qed.
End Walk.

(** * Leaf entries *)

Record leaf_ok (m : memory_t) (a p : Z) (i : nat) : Prop := {
  lf_word : p = load_le 4 m a;
  lf_valid : bit p 0 = true;
  lf_align : a mod 4 = 0;
  lf_ram : 0 <= a /\ a + 4 <= m.(mem_size);
  lf_level : (i <= 1)%nat;
  lf_super : (0 < i)%nat -> (p / 1024) mod 1024 = 0 }.

Lemma walk_leaf (m : memory_t) (va n a p : Z) (i j : nat) :
  mem_wf m -> 0 <= n -> (i <= 1)%nat -> sv32_walk m va i n = Some (a, p, j) -> leaf_ok m a p j.
Proof.
  intros Hm Hn Hi. revert n Hn. induction i as [|i IH]; intros n Hn; cbn [sv32_walk];
    (destruct (Z.ltb_spec n (mem_size m / 4096)) as [Hlt|]; [|done]); cbn [negb]; cbv zeta;
    set (k := (va / _) mod 1024); assert (Hk : 0 <= k < 1024) by (apply Z.mod_pos_bound; lia);
    pose proof (Z.mul_div_le (mem_size m) 4096 ltac:(lia)) as Hle; set (q := load_le 4 m _);
    assert (Hq : 0 <= q) by apply (load_le_range 4 _ _ Hm).
  - destruct (sv32_class q) eqn:Ec; [done| |done]. cbn [Z.of_nat Z.ltb Z.compare andb]. intros [= <- <- <-]. constructor; try done; try lia.
    + revert Ec. unfold sv32_class. by destruct (bit q 0).
    + replace (n * 4096 + k * 4) with ((n * 1024 + k) * 4) by lia. by apply Z.mod_mul.
  - destruct (sv32_class q) eqn:Ec; [apply IH; [lia|apply Z.div_pos; lia]| |done].
    destruct (Z.eqb_spec ((q / 1024) mod 1024) 0) as [E0|]; [|done]. rewrite andb_false_r. intros [= <- <- <-].
    constructor; try done; try lia.
    + revert Ec. unfold sv32_class. by destruct (bit q 0).
    + replace (n * 4096 + k * 4) with ((n * 1024 + k) * 4) by lia. by apply Z.mod_mul.
Qed.

Lemma leaf_found (s : sys) (va a p : Z) (i : nat) :
  mem_wf (sys_mem s) -> sv32_leaf s va = Some (a, p, i) -> leaf_ok (sys_mem s) a p i.
Proof. intros Hm. apply walk_leaf; [done| |done]. apply Z.mod_pos_bound. lia. Qed.

Lemma leaf_read (s : sys) (a p : Z) (i : nat) : leaf_ok (sys_mem s) a p i -> read_pte s a = Some p.
Proof.
  intros L. destruct (lf_ram _ _ _ _ L). unfold read_pte, checked_load. change (Z.of_nat 4) with 4.
  rewrite (proj2 (contains_spec (sys_mem s) a 4 ltac:(lia))) by lia. by rewrite <-(lf_word _ _ _ _ L).
Qed.

(** The walk looks at the virtual page number only. *)
Lemma walk_page (m : memory_t) (va vb n : Z) (i : nat) : va / 4096 = vb / 4096 -> sv32_walk m va i n = sv32_walk m vb i n.
Proof.
  intros E. assert (Hv : forall k, 0 <= k -> va / 2 ^ (12 + k) = vb / 2 ^ (12 + k)).
  { intros k Hk. rewrite Z.pow_add_r by lia. rewrite <-!Z.div_div by lia. change (2 ^ 12) with 4096. by rewrite E. }
  revert n. induction i as [|i IH]; intros n; cbn [sv32_walk]; cbv zeta; rewrite !Hv by lia; [done|].
  destruct (sv32_class _); [|done..]. by rewrite IH.
Qed.

(** ** The physical address *)

Lemma paddr_ok (m : memory_t) (a p va : Z) (i : nat) :
  mem_wf m -> leaf_ok m a p i -> 0 <= va -> pte_ppn p .| page_offset (2 - Z.of_nat i) va = sv32_pa i p va.
Proof.
  intros Hm L Hva. unfold pte_ppn, page_offset, sv32_pa. change RV_PG_SHIFT with 12. change (12 + 10) with 22. change (12 - 2) with 10.
  rewrite !land_ones_mod, shl32_mul, Z.shiftr_div_pow2 by lia. change (2 ^ 10) with 1024.
  pose proof (lf_level _ _ _ _ L) as Hi.
  assert (Hsplit : forall n q, 0 <= n <= 32 -> p / 1024 * 2 ^ 12 = q * 2 ^ n ->
      (p / 1024 * 2 ^ 12) mod 2 ^ 32 .| va mod 2 ^ n = (p / 1024 * 4096 + va mod 2 ^ n) mod 2 ^ 32).
  { intros n q Hn E. rewrite E. change 4096 with (2 ^ 12). rewrite E. pose proof (Z.mod_pos_bound va (2 ^ n) ltac:(lia)) as Hv.
    replace (2 ^ 32) with (2 ^ (32 - n) * 2 ^ n) by (rewrite <-Z.pow_add_r by lia; f_equal; lia).
    rewrite Zmult_mod_distr_r. pose proof (Z.mod_pos_bound q (2 ^ (32 - n)) ltac:(apply Z.pow_pos_nonneg; lia)) as Hq.
    rewrite Z.lor_comm, <-Z.shiftl_mul_pow2, lor_add by lia.
    rewrite (Z.div_mod q (2 ^ (32 - n))) at 2 by (apply Z.pow_nonzero; lia).
    replace ((2 ^ (32 - n) * (q / 2 ^ (32 - n)) + q mod 2 ^ (32 - n)) * 2 ^ n + va mod 2 ^ n)
      with (va mod 2 ^ n + 2 ^ n * (q mod 2 ^ (32 - n)) + q / 2 ^ (32 - n) * (2 ^ (32 - n) * 2 ^ n)) by ring.
    rewrite Z.mod_add by (apply Z.neq_mul_0; split; apply Z.pow_nonzero; lia). symmetry. apply Z.mod_small. nia. }
  destruct i as [|[|]]; [| |lia]; cbn [Z.of_nat]; change (2 - 0 =? 1) with false; change (2 - 1 =? 1) with true; cbv iota.
  - change (12 + 10 * 0) with 12. apply (Hsplit 12 (p / 1024)); lia.
  - change (12 + 10 * Z.pos (Pos.of_succ_nat 0)) with 22. apply (Hsplit 22 (p / 1024 / 1024)); [lia|].
    pose proof (lf_super _ _ _ _ L ltac:(lia)) as Hs. rewrite (Z.div_mod (p / 1024) 1024) at 1 by lia. rewrite Hs. change (2 ^ 22) with (1024 * 2 ^ 12). lia.
Qed.

(** * Permissions *)

Definition cause_of (k : Z) : Z := if k =? 1 then PAGEFAULT_LOAD else if k =? 2 then PAGEFAULT_STORE else PAGEFAULT_INSN.

Section Check.
Context (on_trap : sys -> option sys).

(** The trap of a page fault. *)
Definition page_fault (k va : Z) (s : sys) : option sys := trap_with on_trap (cause_of k) va s.

Lemma fault_check_null (s : sys) (k va : Z) :
  1 <= k <= 3 -> mmu_fault_check on_trap s None va (1 ≪ k) = let? s := page_fault k va s in Some (false, s).
Proof. intros Hk. assert (k = 1 \/ k = 2 \/ k = 3) as [->|[->| ->]] by lia; done. Qed.

Lemma fault_check_leaf (s : sys) (a p k va : Z) (i : nat) :
  1 <= k <= 3 -> leaf_ok (sys_mem s) a p i ->
  mmu_fault_check on_trap s (Some a) va (1 ≪ k) =
  if allowed s k p then Some (true, s) else let? s := page_fault k va s in Some (false, s).
Proof.
  intros Hk L. assert (Hc : fault_cause (1 ≪ k) = Some (cause_of k)) by (assert (k = 1 \/ k = 2 \/ k = 3) as [->|[->| ->]] by lia; done).
  unfold mmu_fault_check. rewrite Hc. cbn [mbind option_bind]. rewrite (leaf_read s a p i L). cbn [mbind option_bind].
  change PTE_V with (1 ≪ 0). rewrite (truthy_bit p 0) by lia. rewrite (lf_valid _ _ _ _ L). cbn [negb]. rewrite (truthy_bit p k) by lia.
  fold (page_fault k va s). unfold allowed. destruct (bit p k) eqn:Ek; [|done]. cbn [negb andb].
  assert (Hr : (1 ≪ k =? PTE_R) = true -> truthy (p .& PTE_R) = true).
  { intros E%Z.eqb_eq. rewrite <-E, truthy_bit by lia. done. }
  assert (Hrx : (1 ≪ k =? PTE_R) = true -> truthy ((p .& PTE_R) .| (p .& PTE_X)) = true).
  { intros E%Hr. revert E. unfold truthy. rewrite !negb_true_iff, !Z.eqb_neq. intros Hne E0. apply Hne. by apply Z.lor_eq_0_iff in E0 as [? _]. }
  destruct (1 ≪ k =? PTE_R) eqn:E.
  - rewrite Hr, Hrx by done. cbn [negb]. rewrite !andb_false_r. cbn [andb orb]. change PTE_U with (1 ≪ 4). rewrite (truthy_bit p 4) by lia. unfold user_only.
    rewrite (Z.land_comm SSTATUS_SUM). change SSTATUS_SUM with (1 ≪ 18). rewrite truthy_bit by lia. by destruct (_ && _ && _).
  - rewrite !andb_false_r. cbn [orb]. change PTE_U with (1 ≪ 4). rewrite (truthy_bit p 4) by lia. unfold user_only.
    rewrite (Z.land_comm SSTATUS_SUM). change SSTATUS_SUM with (1 ≪ 18). rewrite truthy_bit by lia. by destruct (_ && _ && _).
Qed.

(** The walk and the check, in one step. *)
Lemma walk_check (s : sys) (k va : Z) :
  mem_wf (sys_mem s) -> 1 <= k <= 3 -> 0 <= va ->
  exists w, mmu_walk s va = Some w /\
  match checked_access s k va with
  | Some (a, p, i) => w = Some (a, 2 - Z.of_nat i) /\ leaf_ok (sys_mem s) a p i /\
                      mmu_fault_check on_trap s (fst <$> w) va (1 ≪ k) = Some (true, s)
  | None => mmu_fault_check on_trap s (fst <$> w) va (1 ≪ k) = let? s := page_fault k va s in Some (false, s)
  end.
Proof.
  intros Hm Hk Hva. eexists. split; [by apply mmu_walk_ok|]. unfold checked_access.
  destruct (sv32_leaf s va) as [[[a p] i]|] eqn:El; cbn; [|by apply fault_check_null].
  pose proof (leaf_found s va a p i Hm El) as L. rewrite (fault_check_leaf s a p k va i Hk L). by destruct (allowed s k p).
Qed.
End Check.

(** * Updates of the accessed and dirty bits *)

(** [m'] is [m] with [bits] set in the word at [a]. *)
Definition word_or (m m' : memory_t) (a bits : Z) : Prop :=
  m'.(mem_size) = m.(mem_size) /\
  forall b, b mod 4 = 0 -> load_le 4 m' b = if b =? a then load_le 4 m a .| bits else load_le 4 m b.

(** Bits that a walk does not look at. *)
Definition soft (bits : Z) : Prop := forall k, bit bits k = true -> 6 <= k <= 7.

Lemma soft_bit (p bits k : Z) : soft bits -> 0 <= k -> ~ 6 <= k <= 7 -> bit (p .| bits) k = bit p k.
Proof.
  intros Hs Hk Hn. unfold bit in *. rewrite Z.lor_spec. destruct (Z.testbit bits k) eqn:E; [|by rewrite orb_false_r]. by apply Hs in E.
Qed.

Lemma soft_class (p bits : Z) : soft bits -> sv32_class (p .| bits) = sv32_class p.
Proof. intros Hs. unfold sv32_class. by rewrite !soft_bit by (done || lia). Qed.

Lemma soft_ppn (p bits : Z) : soft bits -> (p .| bits) / 1024 = p / 1024.
Proof.
  intros Hs. change 1024 with (2 ^ 10). rewrite <-!Z.shiftr_div_pow2 by lia. apply Z.bits_inj'. intros k Hk.
  rewrite !Z.shiftr_spec by lia. apply soft_bit; [done|lia|lia].
Qed.

Lemma word_or_walk (m m' : memory_t) (a bits va : Z) (i : nat) (n : Z) :
  word_or m m' a bits -> soft bits ->
  sv32_walk m' va i n = (fun r => (r.1.1, if r.1.1 =? a then r.1.2 .| bits else r.1.2, r.2)) <$> sv32_walk m va i n.
Proof.
  intros [Hsz Hw] Hs. revert n. induction i as [|i IH]; intros n; cbn [sv32_walk]; rewrite Hsz; (destruct (negb _); [done|]); cbv zeta;
    set (k := (va / _) mod 1024); rewrite Hw by (replace (n * 4096 + k * 4) with ((n * 1024 + k) * 4) by lia; by apply Z.mod_mul);
    set (b := n * 4096 + k * 4); destruct (Z.eqb_spec b a) as [->|Hne]; rewrite ?soft_class, ?soft_ppn by done;
    (destruct (sv32_class _); [|destruct (_ && _); [done|]|done]); cbn; rewrite ?Z.eqb_refl; try done; try apply IH.
  all: by rewrite (proj2 (Z.eqb_neq b a) Hne).
Qed.

(** The memory changes and nothing else. *)
Definition only_mem (s s' : sys) : Prop := s' = set_sys_mem (sys_mem s') s.

Lemma only_mem_refl (s : sys) : only_mem s s.
Proof. unfold only_mem. by destruct s as [[] ? ? ? ? ?]. Qed.

Lemma only_mem_set (m : memory_t) (s : sys) : only_mem s (set_sys_mem m s) /\ sys_mem (set_sys_mem m s) = m.
Proof. unfold only_mem. by destruct s as [[] ? ? ? ? ?]. Qed.

Lemma only_mem_trans (s1 s2 s3 : sys) : only_mem s1 s2 -> only_mem s2 s3 -> only_mem s1 s3.
Proof. unfold only_mem. intros -> ->. by destruct s1 as [[] ? ? ? ? ?]. Qed.

Lemma or_pte_ok (s : sys) (a p bits : Z) (i : nat) :
  mem_wf (sys_mem s) -> leaf_ok (sys_mem s) a p i -> is_u32 bits ->
  exists s', or_pte bits a s = Some s' /\ only_mem s s' /\ mem_wf (sys_mem s') /\ word_or (sys_mem s) (sys_mem s') a bits.
Proof.
  intros Hm L Hb. destruct (lf_ram _ _ _ _ L) as [Ha1 Ha2]. unfold or_pte. rewrite (leaf_read s a p i L). cbn [mbind option_bind].
  unfold checked_store. change (Z.of_nat 4) with 4. rewrite (proj2 (contains_spec (sys_mem s) a 4 ltac:(lia))) by lia. cbn [mbind option_bind].
  eexists. split; [done|]. destruct (only_mem_set (store_le 4 (sys_mem s) a (p .| bits)) s) as [Ho Em]. split; [done|]. rewrite Em.
  split; [by apply store_le_wf|]. split; [apply store_le_size|]. intros b Hal. pose proof (lf_align _ _ _ _ L) as Haa.
  destruct (Z.eqb_spec b a) as [->|Hne].
  - rewrite load_store_same, <-(lf_word _ _ _ _ L). apply Z.mod_small.
    pose proof (load_le_range 4 (sys_mem s) a Hm) as Hp. rewrite <-(lf_word _ _ _ _ L) in Hp. apply (lor_range p bits 32); unfold is_u32 in *; lia.
  - apply load_store_disjoint. pose proof (Z.div_mod a 4). pose proof (Z.div_mod b 4). lia.
Qed.

Lemma word_or_same (m : memory_t) (a p bits : Z) (i : nat) : leaf_ok m a p i -> p .| bits = p -> word_or m m a bits.
Proof. intros L E. split; [done|]. intros b Hb. destruct (Z.eqb_spec b a) as [->|]; [|done]. by rewrite <-(lf_word _ _ _ _ L). Qed.

Lemma word_or_trans (m1 m2 m3 : memory_t) (a x y : Z) :
  a mod 4 = 0 -> word_or m1 m2 a x -> word_or m2 m3 a y -> word_or m1 m3 a (x .| y).
Proof.
  intros Ha [S1 W1] [S2 W2]. split; [congruence|]. intros b Hb. rewrite W2, !W1 by done. rewrite Z.eqb_refl.
  destruct (b =? a); [by rewrite Z.lor_assoc|done].
Qed.

Lemma word_or_leaf (m m' : memory_t) (a p bits : Z) (i : nat) :
  word_or m m' a bits -> soft bits -> leaf_ok m a p i -> leaf_ok m' a (p .| bits) i.
Proof.
  intros [Hs Hw] Hsoft [L1 L2 L3 L4 L5 L6]. constructor; try done.
  - by rewrite Hw, Z.eqb_refl, <-L1.
  - by rewrite soft_bit by (done || lia).
  - by rewrite Hs.
  - by rewrite soft_ppn.
Qed.

Lemma or_bit (p k : Z) : 0 <= k -> bit p k = true -> p .| (1 ≪ k) = p.
Proof.
  intros Hk E. rewrite Z.shiftl_1_l. apply Z.bits_inj'. intros j Hj. rewrite Z.lor_spec. destruct (Z.eqb_spec j k) as [->|Hne].
  - unfold bit in E. by rewrite E.
  - rewrite Z.pow2_bits_false by lia. by rewrite orb_false_r.
Qed.

Lemma mark_pte_ok (s : sys) (a p k : Z) (i : nat) :
  mem_wf (sys_mem s) -> leaf_ok (sys_mem s) a p i -> 6 <= k <= 7 ->
  exists s', mark_pte (1 ≪ k) a s = Some s' /\ only_mem s s' /\ mem_wf (sys_mem s') /\ word_or (sys_mem s) (sys_mem s') a (1 ≪ k).
Proof.
  intros Hm L Hk. unfold mark_pte. rewrite (leaf_read s a p i L). cbn [mbind option_bind]. rewrite truthy_bit by lia.
  destruct (bit p k) eqn:E; cbn [negb].
  - exists s. split_and!; [done|apply only_mem_refl|done|]. eapply word_or_same; [done|]. apply or_bit; [lia|done].
  - eapply or_pte_ok; [done|done|]. rewrite Z.shiftl_1_l. unfold is_u32. assert (k = 6 \/ k = 7) as [->| ->] by lia; lia.
Qed.

Lemma soft_pow (k : Z) : 6 <= k <= 7 -> soft (1 ≪ k).
Proof.
  intros Hk j. unfold bit. rewrite Z.shiftl_1_l. destruct (Z.eqb_spec j k) as [->|]; [done|]. destruct (Z.leb_spec 0 j).
  - by rewrite Z.pow2_bits_false by lia.
  - by rewrite Z.testbit_neg_r.
Qed.

Lemma soft_lor (x y : Z) : soft x -> soft y -> soft (x .| y).
Proof. intros Hx Hy k. unfold bit in *. rewrite Z.lor_spec. intros [?|?]%orb_true_iff; [by apply Hx|by apply Hy]. Qed.

(** * Coherent TLBs *)

(** What an entry caches: the leaf of its page, in the present mode. *)
Record cached (s : sys) (e : tlb_entry_t) (p : Z) (i : nat) : Prop := {
  ca_leaf : sv32_leaf s (e.(vpn) * 4096) = Some (e.(pte_addr), p, i);
  ca_level : e.(level) = 2 - Z.of_nat i;
  ca_ppn : e.(ppn) = pte_ppn p;
  ca_perm : e.(perm) = p .& (PTE_R .| PTE_W .| PTE_X .| PTE_U);
  ca_dirty : e.(dirty) = true -> bit p 7 = true;
  ca_accessed : bit p 6 = true;
  ca_mode : user_only s p = false }.

Definition entry_ok (s : sys) (e : tlb_entry_t) : Prop := e.(valid) = true -> exists p i, cached s e p i.

(** The entries of a TLB that an access can hit. *)
Definition slots_ok (s : sys) (l : list tlb_entry_t) : Prop :=
  length l = TLB_SIZE /\ forall va e, l !! tlb_index va = Some e -> hits va e = true -> entry_ok s e.

Record coherent (s : sys) : Prop := {
  co_dtlb : slots_ok s s.(dtlb);
  co_itlb : slots_ok s s.(itlb) }.

Lemma slots_impl (s s' : sys) (l : list tlb_entry_t) : (forall e, entry_ok s e -> entry_ok s' e) -> slots_ok s l -> slots_ok s' l.
Proof. intros He [Hl Hs]. split; [done|]. intros va e E Hh. by eapply He, Hs. Qed.

Lemma slots_insert (s : sys) (l : list tlb_entry_t) (n : nat) (e : tlb_entry_t) : entry_ok s e -> slots_ok s l -> slots_ok s (<[n := e]> l).
Proof.
  intros He [Hl Hs]. split; [by rewrite length_insert|]. intros va e' [(_ & <- & _)|[_ E]]%list_lookup_insert_Some Hh; [done|]. by eapply Hs.
Qed.

(** The state that decides translations, the memory apart. *)
Definition same_mode (s s' : sys) : Prop :=
  csr_val s'.(hart) csr_satp = csr_val s.(hart) csr_satp /\
  csr_val s'.(hart) csr_sstatus = csr_val s.(hart) csr_sstatus /\
  s'.(hart).(priv_mode) = s.(hart).(priv_mode).

Lemma soft_land (p bits : Z) : soft bits -> (p .| bits) .& (PTE_R .| PTE_W .| PTE_X .| PTE_U) = p .& (PTE_R .| PTE_W .| PTE_X .| PTE_U).
Proof.
  intros Hs. rewrite Z.land_lor_distr_l. replace (bits .& (PTE_R .| PTE_W .| PTE_X .| PTE_U)) with 0; [by rewrite Z.lor_0_r|].
  symmetry. apply Z.bits_inj'. intros k Hk. rewrite Z.land_spec, Z.bits_0. destruct (Z.testbit bits k) eqn:E; [|done].
  apply Hs in E. assert (k = 6 \/ k = 7) as [->| ->] by lia; done.
Qed.

Lemma cached_or (s s' : sys) (a bits : Z) (e : tlb_entry_t) (p : Z) (i : nat) :
  same_mode s s' -> word_or (sys_mem s) (sys_mem s') a bits -> soft bits -> cached s e p i ->
  cached s' e (if e.(pte_addr) =? a then p .| bits else p) i.
Proof.
  intros (M1 & M2 & M3) Hw Hs [C1 C2 C3 C4 C5 C6 C7].
  assert (Hl : sv32_leaf s' (vpn e * 4096) = Some (e.(pte_addr), if e.(pte_addr) =? a then p .| bits else p, i)).
  { unfold sv32_leaf, root in *. rewrite M1, (word_or_walk _ _ a bits) by done. by rewrite C1. }
  destruct (e.(pte_addr) =? a); constructor; try done.
  - rewrite C3. unfold pte_ppn. change (RV_PG_SHIFT - 2) with 10. rewrite !Z.shiftr_div_pow2 by lia. change (2 ^ 10) with 1024. by rewrite soft_ppn.
  - by rewrite soft_land.
  - intros Hd. unfold bit. rewrite Z.lor_spec. fold (bit p 7). by rewrite (C5 Hd).
  - unfold bit. rewrite Z.lor_spec. fold (bit p 6). by rewrite C6.
  - revert C7. unfold user_only. rewrite M2, M3, soft_bit by (done || lia). done.
  - revert C7. unfold user_only. by rewrite M2, M3.
Qed.

Lemma entry_or (s s' : sys) (a bits : Z) (e : tlb_entry_t) :
  same_mode s s' -> word_or (sys_mem s) (sys_mem s') a bits -> soft bits -> entry_ok s e -> entry_ok s' e.
Proof. intros Hm Hw Hs He Hv. destruct (He Hv) as (p & i & C). eexists _, i. by eapply cached_or. Qed.

(** * Translation *)

(** The bits an access sets in its entry: A, and D for a store. *)
Definition access_bits (k : Z) : Z := if k =? 2 then PTE_A .| PTE_D else PTE_A.

Lemma access_soft (k : Z) : soft (access_bits k).
Proof.
  unfold access_bits. change PTE_A with (1 ≪ 6). change PTE_D with (1 ≪ 7).
  destruct (k =? 2); [apply soft_lor|]; apply soft_pow; lia.
Qed.

(** [s'] is [s] after an access through the entry at [a]: its bits are set, the
    TLBs may have changed, and nothing else. *)
Record accessed (s s' : sys) (k a : Z) : Prop := {
  ac_mem : word_or (sys_mem s) (sys_mem s') a (access_bits k);
  ac_wf : mem_wf (sys_mem s');
  ac_hart : s'.(hart) = set_mem (sys_mem s') s.(hart);
  ac_flags : s'.(is_trapped) = s.(is_trapped) /\ s'.(need_retranslate) = s.(need_retranslate) /\ s'.(need_handle_signal) = s.(need_handle_signal) }.

Lemma accessed_mode (s s' : sys) (k a : Z) : accessed s s' k a -> same_mode s s'.
Proof. intros [_ _ E _]. unfold same_mode. rewrite E. by destruct s as [[] ? ? ? ? ?]. Qed.

Lemma only_mem_mode (s s' : sys) : only_mem s s' -> same_mode s s'.
Proof. unfold only_mem, same_mode. intros ->. by destruct s as [[] ? ? ? ? ?]. Qed.

Lemma coherent_mem (s s' : sys) (a bits : Z) :
  only_mem s s' -> word_or (sys_mem s) (sys_mem s') a bits -> soft bits -> coherent s -> coherent s'.
Proof.
  intros Ho Hw Hs [D I]. pose proof (only_mem_mode _ _ Ho) as Hmode.
  assert (E : s'.(dtlb) = s.(dtlb) /\ s'.(itlb) = s.(itlb)) by (rewrite Ho; done). destruct E as [E1 E2].
  constructor; rewrite ?E1, ?E2; (eapply slots_impl; [|done]); intros e; by apply (entry_or s s' a bits).
Qed.

(** Entries do not depend on the TLBs. *)
Lemma entry_tlb (s s' : sys) (e : tlb_entry_t) : s'.(hart) = s.(hart) -> entry_ok s e -> entry_ok s' e.
Proof.
  intros E He Hv. destruct (He Hv) as (p & i & [C1 C2 C3 C4 C5 C6 C7]). exists p, i.
  constructor; try done; [unfold sv32_leaf, root, sys_mem in *; by rewrite E|unfold user_only in *; by rewrite E].
Qed.

Lemma coherent_dtlb (s : sys) (n : nat) (e : tlb_entry_t) : coherent s -> entry_ok s e -> coherent (set_dtlb (<[n := e]> s.(dtlb)) s).
Proof.
  intros [D I] He. constructor; cbn [set_dtlb dtlb itlb]; (eapply (slots_impl s); [intros; by apply (entry_tlb s)|]); [by apply slots_insert|done].
Qed.

Lemma coherent_itlb (s : sys) (n : nat) (e : tlb_entry_t) : coherent s -> entry_ok s e -> coherent (set_itlb (<[n := e]> s.(itlb)) s).
Proof.
  intros [D I] He. constructor; cbn [set_itlb dtlb itlb]; (eapply (slots_impl s); [intros; by apply (entry_tlb s)|]); [done|by apply slots_insert].
Qed.

Lemma flush_all_coherent (s : sys) : coherent (mmu_tlb_flush_all s).
Proof. constructor; (split; [apply length_replicate|]); by intros va e [-> _]%lookup_replicate. Qed.

Lemma shiftr_page (va : Z) : va ≫ RV_PG_SHIFT = va / 4096.
Proof. by rewrite Z.shiftr_div_pow2. Qed.

Lemma new_entry_ok (s : sys) (va a p : Z) (i : nat) :
  sv32_leaf s va = Some (a, p, i) -> bit p 6 = true -> user_only s p = false -> entry_ok s (new_entry va a p (2 - Z.of_nat i)).
Proof.
  intros El Ea Hu _. exists p, i. constructor; unfold new_entry; cbn [vpn ppn pte_addr perm dirty level]; try done.
  - rewrite shiftr_page. unfold sv32_leaf in *. rewrite <-El. apply walk_page. by rewrite Z.div_mul.
  - change PTE_D with (1 ≪ 7). by rewrite truthy_bit by lia.
Qed.

(** The bits are set by one or two updates. *)
Lemma mark_access (s : sys) (a p k : Z) (i : nat) :
  mem_wf (sys_mem s) -> leaf_ok (sys_mem s) a p i ->
  exists s1 s2, mark_pte PTE_A a s = Some s1 /\ (if k =? 2 then mark_pte PTE_D a s1 else Some s1) = Some s2 /\
    only_mem s s2 /\ mem_wf (sys_mem s2) /\ word_or (sys_mem s) (sys_mem s2) a (access_bits k).
Proof.
  intros Hm L. change PTE_A with (1 ≪ 6) at 1. destruct (mark_pte_ok s a p 6 i Hm L) as (s1 & E1 & O1 & M1 & W1); [lia|].
  unfold access_bits. destruct (k =? 2); [|by exists s1, s1].
  pose proof (word_or_leaf _ _ _ _ _ _ W1 (soft_pow 6 ltac:(lia)) L) as L1.
  destruct (mark_pte_ok s1 a _ 7 i M1 L1) as (s2 & E2 & O2 & M2 & W2); [lia|].
  exists s1, s2. split_and!; [done|done|by eapply only_mem_trans|done|]. eapply word_or_trans; [apply L|exact W1|exact W2].
Qed.

(** The page walk's result goes into the TLB. *)
Lemma fill_ok (s : sys) (va a p k : Z) (i : nat) :
  mem_wf (sys_mem s) -> 0 <= va -> checked_access s k va = Some (a, p, i) ->
  exists s1 s2, mark_pte PTE_A a s = Some s1 /\ (if k =? 2 then mark_pte PTE_D a s1 else Some s1) = Some s2 /\
    only_mem s s2 /\ mem_wf (sys_mem s2) /\ word_or (sys_mem s) (sys_mem s2) a (access_bits k) /\
    read_pte s2 a = Some (p .| access_bits k) /\ entry_ok s2 (new_entry va a (p .| access_bits k) (2 - Z.of_nat i)) /\
    pte_ppn (p .| access_bits k) .| page_offset (2 - Z.of_nat i) va = sv32_pa i p va.
Proof.
  intros Hm Hva Ha. unfold checked_access in Ha. destruct (sv32_leaf s va) as [[[a' p'] i']|] eqn:El; [|done]. cbn in Ha.
  destruct (allowed s k p') eqn:Eal; [|done]. injection Ha as -> -> ->. pose proof (leaf_found s va a p i Hm El) as L.
  destruct (mark_access s a p k i Hm L) as (s1 & s2 & E1 & E2 & Ho & M2 & W). exists s1, s2.
  pose proof (word_or_leaf _ _ _ _ _ _ W (access_soft k) L) as L2. pose proof (only_mem_mode _ _ Ho) as (H1 & H2 & H3).
  split_and!; try done.
  - by eapply leaf_read.
  - apply new_entry_ok.
    + unfold sv32_leaf, root in *. rewrite H1, (word_or_walk _ _ _ _ _ _ _ W (access_soft k)), El. cbn. by rewrite Z.eqb_refl.
    + unfold access_bits, bit. rewrite Z.lor_spec. destruct (k =? 2); [rewrite Z.lor_spec|]; by rewrite orb_true_r.
    + unfold allowed in Eal. apply andb_true_iff in Eal as [_ Hu%negb_true_iff]. revert Hu. unfold user_only.
      rewrite H2, H3, soft_bit by (apply access_soft || lia). done.
  - rewrite (paddr_ok _ _ _ _ _ M2 L2 Hva). unfold sv32_pa. by rewrite soft_ppn by apply access_soft.
Qed.

Lemma tlb_slot (l : list tlb_entry_t) (va : Z) : length l = TLB_SIZE -> exists e, l !! tlb_index va = Some e.
Proof.
  intros Hl. apply lookup_lt_is_Some_2. rewrite Hl. unfold tlb_index, TLB_MASK, TLB_SIZE. change (Z.of_nat 64 - 1) with (Z.ones 6).
  rewrite Z.land_ones by lia. pose proof (Z.mod_pos_bound (va ≫ RV_PG_SHIFT) (2 ^ 6)). lia.
Qed.

(** What a matching entry says about the page of [va]. *)
Lemma hit_cached (s : sys) (e : tlb_entry_t) (va k : Z) :
  mem_wf (sys_mem s) -> 0 <= va -> 1 <= k <= 3 -> entry_ok s e -> hits va e = true -> truthy (e.(perm) .& (1 ≪ k)) = true ->
  exists p i, cached s e p i /\ checked_access s k va = Some (e.(pte_addr), p, i) /\ leaf_ok (sys_mem s) e.(pte_addr) p i /\
              entry_paddr e va = sv32_pa i p va.
Proof.
  intros Hm Hva Hk He [Hv Hvpn%Z.eqb_eq]%andb_true_iff Hp. destruct (He Hv) as (p & i & C). exists p, i. split; [done|].
  assert (El : sv32_leaf s va = Some (e.(pte_addr), p, i)).
  { rewrite <-(ca_leaf _ _ _ _ C). apply walk_page. by rewrite Hvpn, shiftr_page, Z.div_mul. }
  pose proof (leaf_found s va _ p i Hm El) as L. split_and!; [|done|].
  - unfold checked_access. rewrite El. cbn. unfold allowed. rewrite (ca_mode _ _ _ _ C).
    rewrite (ca_perm _ _ _ _ C), <-Z.land_assoc in Hp.
    assert (Hb : (PTE_R .| PTE_W .| PTE_X .| PTE_U) .& (1 ≪ k) = 1 ≪ k) by (assert (k = 1 \/ k = 2 \/ k = 3) as [->|[->| ->]] by lia; done).
    rewrite Hb, truthy_bit in Hp by lia. by rewrite Hp.
  - unfold entry_paddr. rewrite (ca_ppn _ _ _ _ C), (ca_level _ _ _ _ C). by apply (paddr_ok _ _ _ _ _ Hm L).
Qed.

Lemma access_bits_set (p k : Z) : bit p 6 = true -> (k = 2 -> bit p 7 = true) -> p .| access_bits k = p.
Proof.
  intros Ha Hd. unfold access_bits. change PTE_A with (1 ≪ 6). change PTE_D with (1 ≪ 7).
  destruct (Z.eqb_spec k 2) as [E|]; [rewrite Z.lor_assoc|]; rewrite (or_bit p 6) by (done || lia); [|done].
  apply or_bit; [lia|by apply Hd].
Qed.

Lemma hit_ok (s : sys) (va : Z) (write : bool) :
  coherent s -> mem_wf (sys_mem s) -> 0 <= va ->
  let k := if write then 2 else 1 in
  dtlb_lookup s va write = Some (None, s) \/
  exists a p i s', dtlb_lookup s va write = Some (Some (sv32_pa i p va), s') /\ checked_access s k va = Some (a, p, i) /\
                   accessed s s' k a /\ coherent s'.
Proof.
  intros Hc Hm Hva k. destruct (co_dtlb _ Hc) as [Hl Hf]. destruct (tlb_slot _ va Hl) as [e Ee]. unfold dtlb_lookup. rewrite Ee. cbn [mbind option_bind].
  destruct (hits va e) eqn:Eh; [|by left]. replace (if write then PTE_W else PTE_R) with (1 ≪ k) by (by destruct write).
  destruct (truthy (perm e .& (1 ≪ k))) eqn:Ep; [|by left]. cbn [negb]. right.
  destruct (hit_cached s e va k Hm Hva ltac:(destruct write; lia) (Hf va e Ee Eh) Eh Ep) as (p & i & C & Ea & L & Hpa).
  exists (pte_addr e), p, i. destruct (write && negb (dirty e)) eqn:Ew.
  - apply andb_true_iff in Ew as [-> Ed%negb_true_iff]. change PTE_D with (1 ≪ 7).
    destruct (or_pte_ok s (pte_addr e) p (1 ≪ 7) i Hm L) as (s1 & -> & Ho & Hm1 & Hw); [change (1 ≪ 7) with 128; unfold is_u32; lia|]. cbn [mbind option_bind].
    assert (Hw2 : word_or (sys_mem s) (sys_mem s1) (pte_addr e) (access_bits 2)).
    { destruct Hw as [S1 W1]. split; [done|]. intros b Hb. rewrite W1 by done. rewrite <-(lf_word _ _ _ _ L).
      destruct (b =? pte_addr e); [|done]. change (access_bits 2) with ((1 ≪ 6) .| (1 ≪ 7)). rewrite Z.lor_assoc.
      by rewrite (or_bit p 6 ltac:(lia) (ca_accessed _ _ _ _ C)). }
    eexists. rewrite Hpa. split; [done|]. split; [done|]. split.
    + constructor; try done; cbn; [|by rewrite Ho]. by rewrite Ho.
    + assert (Hs1 : coherent s1) by (by apply (coherent_mem s s1 (pte_addr e) (1 ≪ 7) Ho Hw (soft_pow 7 ltac:(lia)))).
      apply coherent_dtlb; [done|]. intros _. pose proof (cached_or s s1 _ _ e p i (only_mem_mode _ _ Ho) Hw (soft_pow 7 ltac:(lia)) C) as C1.
      rewrite Z.eqb_refl in C1. exists (p .| (1 ≪ 7)), i. destruct C1 as [D1 D2 D3 D4 D5 D6 D7]. constructor; try done. intros _.
      unfold bit. rewrite Z.lor_spec. by rewrite orb_true_r.
  - exists s. rewrite Hpa. split; [done|]. split; [done|]. split; [|done]. constructor; try done; [|by destruct s as [[] ? ? ? ? ?]].
    eapply word_or_same; [exact L|]. apply access_bits_set; [apply C|]. intros Ek. destruct write; [|done]. apply (ca_dirty _ _ _ _ C). by destruct (dirty e).
Qed.

Section Translate.
Context (on_trap : sys -> option sys).

(** [r] is the result of an access that [s] allows. *)
Definition served (s : sys) (k va : Z) (r : option (Z * sys)) : Prop :=
  exists a p i s', checked_access s k va = Some (a, p, i) /\ r = Some (sv32_pa i p va, s') /\ accessed s s' k a /\ (coherent s -> coherent s').

(** What [mmu_translate] does after a walk. *)
Definition fill (rw : bool) (va a lv : Z) (s : sys) : option (Z * sys) :=
  let? s := mark_pte PTE_A a s in
  let? s := if negb rw then mark_pte PTE_D a s else Some s in
  let? s := dtlb_populate va a lv s in
  let? pte := read_pte s a in
  Some (pte_ppn pte .| page_offset lv va, s).

Lemma fill_served (s : sys) (va a p : Z) (i : nat) (rw : bool) :
  let k := if rw then 1 else 2 in
  mem_wf (sys_mem s) -> 0 <= va -> checked_access s k va = Some (a, p, i) -> served s k va (fill rw va a (2 - Z.of_nat i) s).
Proof.
  intros k Hm Hva Ha. destruct (fill_ok s va a p k i Hm Hva Ha) as (s1 & s2 & E1 & E2 & Ho & M2 & W & Er & He & Hpa).
  exists a, p, i. unfold fill. rewrite E1. cbn [mbind option_bind]. replace (negb rw) with (k =? 2) by (by destruct rw). rewrite E2. cbn [mbind option_bind].
  unfold dtlb_populate. rewrite Er. cbn [mbind option_bind].
  assert (Er' : forall l, read_pte (set_dtlb l s2) a = Some (p .| access_bits k)) by done. rewrite Er'. cbn [mbind option_bind]. rewrite Hpa. eexists. split; [done|]. split; [done|]. split.
  - constructor; try done; cbn [set_dtlb sys_mem hart is_trapped need_retranslate need_handle_signal]; rewrite Ho; done.
  - intros Hc. apply coherent_dtlb; [|done]. eapply coherent_mem; [exact Ho|exact W|apply access_soft|done].
Qed.

(** An access that the page tables allow does not trap. *)
Lemma translate_allowed (s : sys) (va : Z) (rw : bool) :
  let k := if rw then 1 else 2 in
  coherent s -> mem_wf (sys_mem s) -> 0 <= va -> csr_val s.(hart) csr_satp <> 0 -> is_Some (checked_access s k va) ->
  served s k va (mmu_translate on_trap s va rw).
Proof.
  intros k Hc Hm Hva Hsatp [[[a p] i] Ea]. assert (Hk : 1 <= k <= 3) by (destruct rw; lia).
  unfold mmu_translate. rewrite (proj2 (Z.eqb_neq _ _) Hsatp). replace (if rw then PTE_R else PTE_W) with (1 ≪ k) by (by destruct rw).
  destruct (hit_ok s va (negb rw) Hc Hm Hva) as [->|(a' & p' & i' & s' & -> & Ha & Hac & Hc')]; cbn [mbind option_bind].
  - unfold walk_and_check. destruct (walk_check on_trap s k va Hm Hk Hva) as (w & -> & Hw). cbn [mbind option_bind].
    rewrite Ea in Hw. destruct Hw as (-> & _ & ->). cbn [mbind option_bind]. by apply (fill_served s va a p i rw).
  - replace (if negb rw then 2 else 1) with k in * by (by destruct rw). by exists a', p', i', s'.
Qed.

(** Translation with the TLB, by what [mmu_fault_check] lets through. *)
Lemma translate_checked (s : sys) (va : Z) (rw : bool) :
  let k := if rw then 1 else 2 in
  coherent s -> mem_wf (sys_mem s) -> is_u32 va -> csr_val s.(hart) csr_satp <> 0 ->
  (forall s1, page_fault on_trap k va s = Some s1 -> mem_wf (sys_mem s1)) ->
  match checked_access s k va, page_fault on_trap k va s with
  | Some _, _ => served s k va (mmu_translate on_trap s va rw)
  | None, None => mmu_translate on_trap s va rw = None
  | None, Some s1 =>
      match checked_access s1 k va with
      | Some _ => served s1 k va (mmu_translate on_trap s va rw)
      | None => mmu_translate on_trap s va rw = let? s2 := page_fault on_trap k va s1 in Some (0, ask_retry s2)
      end
  end.
Proof.
  intros k Hc Hm Hva Hsatp Htrap. assert (Hk : 1 <= k <= 3) by (destruct rw; lia). assert (Hv0 : 0 <= va) by apply Hva.
  destruct (checked_access s k va) as [r|] eqn:Ea; [apply translate_allowed; try done; rewrite Ea; by eexists|].
  unfold mmu_translate. rewrite (proj2 (Z.eqb_neq _ _) Hsatp). replace (if rw then PTE_R else PTE_W) with (1 ≪ k) by (by destruct rw).
  destruct (hit_ok s va (negb rw) Hc Hm Hv0) as [->|(a & p & i & s' & _ & Ha & _)];
    [|replace (if negb rw then 2 else 1) with k in Ha by (by destruct rw); congruence].
  cbn [mbind option_bind]. unfold walk_and_check. destruct (walk_check on_trap s k va Hm Hk Hv0) as (w & -> & Hw). cbn [mbind option_bind].
  rewrite Ea in Hw. rewrite Hw. destruct (page_fault on_trap k va s) as [s1|] eqn:Ef; [|done]. cbn [mbind option_bind].
  specialize (Htrap s1 eq_refl). destruct (walk_check on_trap s1 k va Htrap Hk Hv0) as (w1 & -> & Hw1). cbn [mbind option_bind].
  destruct (checked_access s1 k va) as [[[a p] i]|] eqn:Ea1.
  - destruct Hw1 as (-> & _ & ->). cbn [mbind option_bind]. by apply (fill_served s1 va a p i rw).
  - rewrite Hw1. destruct (page_fault on_trap k va s1) as [s2|]; [|done]. by destruct w1.
Qed.

(** The access ends at the physical address of the Sv32 scheme in a state
    that has the accessed and dirty bits set and coherent TLBs, and is otherwise
    [s]. *)
Definition translated (s : sys) (k va a p : Z) (i : nat) (r : option (Z * sys)) : Prop :=
  exists s', r = Some (sv32_pa i p va, s') /\ accessed s s' k a /\ (coherent s -> coherent s').

Lemma served_translated (s : sys) (k va a p : Z) (i : nat) (r : option (Z * sys)) :
  checked_access s k va = Some (a, p, i) -> served s k va r -> translated s k va a p i r.
Proof. intros E (a' & p' & i' & s' & E' & Hr). rewrite E in E'. injection E' as <- <- <-. by exists s'. Qed.

(** C17. Address translation with the TLB is that of Sv32. In a state with
    coherent TLBs and Sv32 selected in satp, a load or store that the page tables
    permit by the rules of the privileged architecture (R, W, X, U, SUM, MXR) is
    translated to the physical address of the leaf entry the walk finds, on a
    TLB hit as well as on a miss; the accessed bit, and for a store the dirty bit,
    is set in that entry, the TLBs stay coherent and the rest of the state is the
    same. Otherwise the page fault is delivered and the walk repeated in the state
    the guest's handler leaves: the access is served there, or a second fault is
    delivered and the instruction is marked for a retry. Excluded, because the
    emulator deviates there: user mode on a page without U, which it lets
    through, and a load that only MXR permits, which it refuses; a table outside RAM
    counts as an invalid entry. *)
Theorem mmu_translate_correct (s : sys) (va : Z) (rw : bool) :
  let k := if rw then 1 else 2 in
  coherent s -> mem_wf (sys_mem s) -> is_u32 va -> bit (csr_val s.(hart) csr_satp) 31 = true ->
  sv32_scope s k va = true ->
  (forall s1, page_fault on_trap k va s = Some s1 -> mem_wf (sys_mem s1) /\ sv32_scope s1 k va = true) ->
  match sv32_access s k va, page_fault on_trap k va s with
  | Some (a, p, i), _ => translated s k va a p i (mmu_translate on_trap s va rw)
  | None, None => mmu_translate on_trap s va rw = None
  | None, Some s1 =>
      match sv32_access s1 k va with
      | Some (a, p, i) => translated s1 k va a p i (mmu_translate on_trap s va rw)
      | None => mmu_translate on_trap s va rw = let? s2 := page_fault on_trap k va s1 in Some (0, ask_retry s2)
      end
  end.
Proof.
  intros k Hc Hm Hva Hsatp Hs Htrap. assert (Hk : 1 <= k <= 2) by (destruct rw; lia).
  assert (Hz : csr_val s.(hart) csr_satp <> 0) by (intros E; rewrite E in Hsatp; discriminate Hsatp).
  pose proof (translate_checked s va rw Hc Hm Hva Hz (fun s1 E => proj1 (Htrap s1 E))) as H. cbv zeta in H. fold k in H.
  rewrite (sv32_checked s k va Hk Hs). destruct (checked_access s k va) as [[[a p] i]|] eqn:Ea.
  { by apply served_translated. }
  destruct (page_fault on_trap k va s) as [s1|]; [|done].
  rewrite (sv32_checked s1 k va Hk (proj2 (Htrap s1 eq_refl))).
  destruct (checked_access s1 k va) as [[[a p] i]|] eqn:Ea1; [by apply served_translated|done].
Qed.
End Translate.

(** ** A concrete address space *)

Definition no_tlb : list tlb_entry_t := replicate TLB_SIZE no_entry.

(** 16 KiB of RAM: the root table on page 1, a table on page 2 whose entry 3 maps
    page 3 with the permission bits [pm], and entry 4 nothing. *)
Definition sample_tables (pm : Z) : memory_t :=
  store_le 4 (store_le 4 (mk_memory ∅ 16384) 0x1000 0x801) 0x200c (0xc00 + pm).

Definition sample_sys (pm mode : Z) : sys :=
  mk_sys (set_priv_mode mode (set_csr csr_satp 0x80000001 (set_mem (sample_tables pm) Samples.hart))) no_tlb no_tlb false false false.

Lemma sample_wf (pm mode : Z) : mem_wf (sys_mem (sample_sys pm mode)).
Proof. change (mem_wf (sample_tables pm)). by apply store_le_wf, store_le_wf. Qed.

Lemma sample_coherent (pm mode : Z) : coherent (sample_sys pm mode).
Proof. apply (flush_all_coherent (sample_sys pm mode)). Qed.

(** A store to the mapped page, then one to a page that is not mapped, with a
    handler that returns at once. *)
Lemma mmu_translate_correct_witness :
  let s := sample_sys 7 RV_PRIV_S_MODE in
  translated s 2 0x3008 0x200c 0xc07 0 (mmu_translate Some s 0x3008 false) /\
  exists s1 s2, page_fault Some 2 0x4008 s = Some s1 /\ page_fault Some 2 0x4008 s1 = Some s2 /\
                mmu_translate Some s 0x4008 false = Some (0, ask_retry s2).
Proof.
  intros s. assert (H := fun va => mmu_translate_correct Some s va false (sample_coherent _ _) (sample_wf _ _)).
  cbv zeta iota in H. split.
  - specialize (H 0x3008 ltac:(done) ltac:(done) ltac:(vm_compute; reflexivity)).
    replace (sv32_access s 2 0x3008) with (Some (0x200c, 0xc07, 0%nat)) in H by (vm_compute; reflexivity). apply H.
    intros s1 [= <-]. split; [apply (sample_wf 7 RV_PRIV_S_MODE)|vm_compute; reflexivity].
  - specialize (H 0x4008 ltac:(done) ltac:(done) ltac:(vm_compute; reflexivity)).
    replace (sv32_access s 2 0x4008) with (@None (Z * Z * nat)) in H by (vm_compute; reflexivity).
    destruct (page_fault Some 2 0x4008 s) as [s1|] eqn:E; [|discriminate E]. exists s1. eexists. split; [done|].
    replace (sv32_access s1 2 0x4008) with (@None (Z * Z * nat)) in H by (injection E as <-; vm_compute; reflexivity).
    split; [reflexivity|]. apply H. intros s2 [= <-]. injection E as <-.
    split; [apply (sample_wf 7 RV_PRIV_S_MODE)|vm_compute; reflexivity].
Defined.
