(* ===== verification/MmuRefine.v ===== *)
(** Loads, stores and fetches through address translation, the fences, and where
    the permission check differs from the manual. *)

From stdpp Require Import base list option numbers gmap.
From Stdlib Require Import ZArith Lia Bool.
From S2P Require Import Prelude Bits Insn Mem MemSpec State Trap Samples IsaValues Mmu MmuSpec.
#[local] Open Scope Z_scope.

(** * Stores outside of the page tables *)

(** The pages that hold the page tables below the root page [r]. *)
Definition table_page (m : memory_t) (r n : Z) : Prop :=
  n = r \/ exists j, 0 <= j < 1024 /\ let w := load_le 4 m (r * 4096 + j * 4) in sv32_class w = Table /\ n = w / 1024.

Lemma aligned_page (n k : Z) : 0 <= k < 1024 -> (n * 4096 + k * 4) / 4096 = n.
Proof. intros Hk. symmetry. apply Z.div_unique with (r := k * 4); lia. Qed.

Lemma walk_words (m m' : memory_t) (va r : Z) :
  m'.(mem_size) = m.(mem_size) ->
  (forall n k, table_page m r n -> 0 <= k < 1024 -> load_le 4 m' (n * 4096 + k * 4) = load_le 4 m (n * 4096 + k * 4)) ->
  sv32_walk m' va 1 r = sv32_walk m va 1 r.
Proof.
  intros Hs Hw. cbn [sv32_walk]. rewrite Hs. destruct (negb (r <? _)); [done|]. cbv zeta.
  set (k1 := (va / _) mod 1024). assert (Hk1 : 0 <= k1 < 1024) by (apply Z.mod_pos_bound; lia).
  rewrite (Hw r k1) by (done || by left). set (w := load_le 4 m (r * 4096 + k1 * 4)). destruct (sv32_class w) eqn:Ec; [|done..].
  destruct (negb (w / 1024 <? _)); [done|]. set (k0 := (va / _) mod 1024). assert (Hk0 : 0 <= k0 < 1024) by (apply Z.mod_pos_bound; lia).
  rewrite (Hw (w / 1024) k0); [done|right; by exists k1|done].
Qed.

Lemma leaf_in_table (m : memory_t) (va r a p : Z) (i : nat) : sv32_walk m va 1 r = Some (a, p, i) -> table_page m r (a / 4096).
Proof.
  cbn [sv32_walk]. destruct (negb (r <? _)); [done|]. cbv zeta. set (k1 := (va / _) mod 1024). assert (Hk1 : 0 <= k1 < 1024) by (apply Z.mod_pos_bound; lia).
  set (w := load_le 4 m (r * 4096 + k1 * 4)). destruct (sv32_class w) eqn:Ec; [| |done].
  - destruct (negb (w / 1024 <? _)); [done|]. set (k0 := (va / 2 ^ (12 + 10 * Z.of_nat 0)) mod 1024).
    assert (Hk0 : 0 <= k0 < 1024) by (apply Z.mod_pos_bound; lia). destruct (sv32_class (load_le 4 m (w / 1024 * 4096 + k0 * 4))); [done| |done]. cbn [Z.of_nat Z.ltb Z.compare andb].
    intros [= <- _ _]. rewrite aligned_page by done. right. by exists k1.
  - destruct (_ && _); [done|]. intros [= <- _ _]. rewrite aligned_page by done. by left.
Qed.

Lemma table_page_or (m m' : memory_t) (a bits r n : Z) :
  word_or m m' a bits -> soft bits -> table_page m' r n -> table_page m r n.
Proof.
  intros [_ Hw] Hs [->|(j & Hj & Hc & Hn)]; [by left|right]. exists j. split; [done|]. cbv zeta.
  rewrite Hw in Hc, Hn by (replace (r * 4096 + j * 4) with ((r * 1024 + j) * 4) by lia; by apply Z.mod_mul).
  destruct (Z.eqb_spec (r * 4096 + j * 4) a) as [<-|]; [|done]. by rewrite soft_class, soft_ppn in * by done.
Qed.

Lemma walk_store (m : memory_t) (va r pa v : Z) :
  pa mod 4 = 0 -> ~ table_page m r (pa / 4096) -> sv32_walk (store_le 4 m pa v) va 1 r = sv32_walk m va 1 r.
Proof.
  intros Hal Hn. apply walk_words; [apply store_le_size|]. intros n k Ht Hk. apply load_store_disjoint.
  destruct (decide (n * 4096 + k * 4 = pa)) as [<-|Hne]; [by rewrite aligned_page in Hn|]. pose proof (Z.div_mod pa 4). lia.
Qed.

(** The same leaves, the same entries. *)
Lemma coherent_leaf (s s' : sys) :
  (forall va, sv32_leaf s' va = sv32_leaf s va) -> same_mode s s' -> s'.(dtlb) = s.(dtlb) -> s'.(itlb) = s.(itlb) -> coherent s -> coherent s'.
Proof.
  intros Hl (_ & M2 & M3) Ed Ei [D I].
  assert (He : forall e, entry_ok s e -> entry_ok s' e).
  { intros e He Hv. destruct (He Hv) as (p & i & [C1 C2 C3 C4 C5 C6 C7]). exists p, i. constructor; try done; [by rewrite Hl|].
    revert C7. unfold user_only. by rewrite M2, M3. }
  constructor; rewrite ?Ed, ?Ei; by eapply slots_impl.
Qed.

(** * Accesses *)

Section Access.
Context (on_trap : sys -> option sys).

(** A page for data: readable, writable, not a page table, in RAM. *)
Record data_word (s : sys) (va a p : Z) (i : nat) : Prop := {
  dw_write : checked_access s 2 va = Some (a, p, i);
  dw_read : bit p 1 = true;
  dw_align : va mod 4 = 0;
  dw_ram : GUEST_RAM_CONTAINS (sys_mem s) (sv32_pa i p va) 4 = true;
  dw_apart : ~ table_page (sys_mem s) (root s) (sv32_pa i p va / 4096) }.

Lemma pa_align (p va : Z) (i : nat) : 0 <= va -> va mod 4 = 0 -> sv32_pa i p va mod 4 = 0.
Proof.
  intros Hva Hal. unfold sv32_pa. rewrite Z.mod_mod_divide by (exists (2 ^ 30); done).
  rewrite Z.add_mod by lia. replace (p / 1024 * 4096) with (p / 1024 * 1024 * 4) by lia. rewrite Z.mod_mul by lia.
  rewrite Z.mod_mod_divide; [by rewrite Hal|]. exists (2 ^ (10 + 10 * Z.of_nat i)).
  replace (12 + 10 * Z.of_nat i) with (10 + 10 * Z.of_nat i + 2) by lia. by rewrite Z.pow_add_r by lia.
Qed.

(** The store of [mmu_write_w] into the page. *)
Lemma store_data (s : sys) (va v a p : Z) (i : nat) :
  coherent s -> mem_wf (sys_mem s) -> 0 <= va -> csr_val s.(hart) csr_satp <> 0 -> s.(need_retranslate) = false ->
  data_word s va a p i ->
  exists s1, mmu_write_w on_trap s va v = Some (set_sys_mem (store_le 4 (sys_mem s1) (sv32_pa i p va) v) s1) /\
             accessed s s1 2 a /\ coherent s1 /\ coherent (set_sys_mem (store_le 4 (sys_mem s1) (sv32_pa i p va) v) s1).
Proof.
  intros Hc Hm Hva Hsatp Hr [Dw Dr Da Dram Dap].
  destruct (translate_allowed on_trap s va false Hc Hm Hva Hsatp) as (a' & p' & i' & s1 & Ea & Et & Hac & Hc1); [by rewrite Dw|].
  rewrite Dw in Ea. injection Ea as <- <- <-. specialize (Hc1 Hc). exists s1.
  destruct Hac as [Hmem Hwf Hh (Ht & Hn & Hs)]. unfold mmu_write_w, mmu_write. rewrite Et. cbn [mbind option_bind]. rewrite Hn, Hr.
  unfold GUEST_RAM_CONTAINS in Dram. unfold checked_store, GUEST_RAM_CONTAINS. rewrite (proj1 Hmem). change (Z.of_nat 4) with 4. rewrite Dram. cbn [mbind option_bind].
  split; [done|]. split; [done|]. split; [done|]. destruct (only_mem_set (store_le 4 (sys_mem s1) (sv32_pa i p va) v) s1) as [Ho Em].
  eapply coherent_leaf; [|by apply only_mem_mode|done|done|done]. intros va'. unfold sv32_leaf. rewrite Em.
  assert (Hroot : root (set_sys_mem (store_le 4 (sys_mem s1) (sv32_pa i p va) v) s1) = root s1) by (unfold root; by rewrite (proj1 (only_mem_mode _ _ Ho))).
  rewrite Hroot. apply walk_store; [by apply pa_align|]. intros Htp. apply Dap. eapply table_page_or; [exact Hmem|apply access_soft|].
  replace (root s) with (root s1); [done|]. unfold root. rewrite Hh. by destruct s as [[] ? ? ? ? ?].
Qed.

(** A store through address translation is seen by the next load. With coherent
    TLBs, a word stored at a virtual address whose page the tables map readable and
    writable, to a page of RAM that holds no page table, is what a load of the
    address returns; neither access traps, and the TLBs stay coherent. *)
Theorem mmu_write_read (s : sys) (va v a p : Z) (i : nat) :
  coherent s -> mem_wf (sys_mem s) -> 0 <= va -> csr_val s.(hart) csr_satp <> 0 -> s.(need_retranslate) = false ->
  data_word s va a p i ->
  exists s1 s2, mmu_write_w on_trap s va v = Some s1 /\ coherent s1 /\ mmu_read_w on_trap s1 va = Some (u32 v, s2) /\ coherent s2.
Proof.
  intros Hc Hm Hva Hsatp Hr D. destruct (store_data s va v a p i Hc Hm Hva Hsatp Hr D) as (s1 & Ew & Hac & Hc1 & Hc2).
  destruct D as [Dw Dr Da Dram Dap]. set (pa := sv32_pa i p va) in *. set (s' := set_sys_mem _ s1) in *.
  destruct (only_mem_set (store_le 4 (sys_mem s1) pa v) s1) as [Ho Em]. fold s' in Ho, Em.
  pose proof (accessed_mode _ _ _ _ Hac) as Mo1. pose proof (only_mem_mode _ _ Ho) as Mo2.
  destruct Hac as [Hmem Hwf Hh (Ht & Hn & Hs)]. destruct Mo1 as (M1 & M2 & M3), Mo2 as (M1' & M2' & M3').
  assert (Hap1 : ~ table_page (sys_mem s1) (root s) (pa / 4096)) by (intros Htp; apply Dap; eapply table_page_or; [exact Hmem|apply access_soft|done]).
  assert (Hl : sv32_leaf s' va = Some (a, p .| access_bits 2, i)).
  { unfold checked_access in Dw. destruct (sv32_leaf s va) as [[[a' p'] i']|] eqn:El; [|done]. cbn in Dw. destruct (allowed s 2 p'); [|done].
    injection Dw as -> -> ->. unfold sv32_leaf in *. replace (root s') with (root s) by (unfold root; congruence). rewrite Em.
    rewrite walk_store by (done || by apply pa_align). rewrite (word_or_walk _ _ _ _ _ _ _ Hmem (access_soft 2)), El. cbn. by rewrite Z.eqb_refl. }
  assert (Hrd : checked_access s' 1 va = Some (a, p .| access_bits 2, i)).
  { unfold checked_access. rewrite Hl. cbn [mbind option_bind]. unfold allowed. rewrite soft_bit, Dr by (apply access_soft || lia).
    unfold checked_access in Dw. destruct (sv32_leaf s va) as [[[a' p'] i']|]; [|done]. cbn in Dw. destruct (allowed s 2 p') eqn:Eal; [|done].
    injection Dw as -> -> ->. unfold allowed in Eal. apply andb_true_iff in Eal as [_ Hu]. revert Hu. unfold user_only.
    rewrite M2', M3', M2, M3, soft_bit by (apply access_soft || lia). intros Hu. by rewrite Hu. }
  assert (Hm' : mem_wf (sys_mem s')) by (rewrite Em; by apply store_le_wf).
  destruct (translate_allowed on_trap s' va true Hc2 Hm' Hva) as (a' & p' & i' & s2 & Ea & Et & Hac2 & Hc3); [by rewrite M1', M1|by rewrite Hrd|].
  rewrite Hrd in Ea. injection Ea as <- <- <-. exists s', s2. split_and!; [done|done| |by apply Hc3].
  unfold mmu_read_w, mmu_read. rewrite Et. cbn [mbind option_bind]. destruct Hac2 as [[Hsz Hw] _ _ (_ & -> & _)].
  replace (need_retranslate s') with (need_retranslate s1) by done. rewrite Hn, Hr.
  assert (Hpa : sv32_pa i (p .| access_bits 2) va = pa) by (unfold sv32_pa; by rewrite soft_ppn by apply access_soft). rewrite Hpa.
  unfold GUEST_RAM_CONTAINS in Dram. unfold checked_load, GUEST_RAM_CONTAINS. rewrite Hsz, Em, store_le_size, (proj1 Hmem).
  change (Z.of_nat 4) with 4. rewrite Dram. cbn [mbind option_bind].
  rewrite Hw by (by apply pa_align). destruct (Z.eqb_spec pa a) as [E|_].
  - destruct Dap. rewrite E. unfold checked_access in Dw. destruct (sv32_leaf s va) as [[[a' p'] i']|] eqn:El; [|done]. cbn in Dw.
    destruct (allowed s 2 p'); [|done]. injection Dw as -> -> ->. by eapply leaf_in_table.
  - rewrite Em, load_store_same. done.
Qed.

(** * Instruction fetches *)

Lemma fetch_hit (s : sys) (va : Z) :
  coherent s -> mem_wf (sys_mem s) -> 0 <= va ->
  itlb_lookup s va = Some None \/
  exists a p i, itlb_lookup s va = Some (Some (sv32_pa i p va)) /\ checked_access s 3 va = Some (a, p, i) /\ accessed s s 3 a.
Proof.
  intros Hc Hm Hva. destruct (co_itlb _ Hc) as [Hl Hf]. destruct (tlb_slot _ va Hl) as [e Ee]. unfold itlb_lookup. rewrite Ee. cbn [mbind option_bind].
  destruct (hits va e) eqn:Eh; [|by left]. change PTE_X with (1 ≪ 3). destruct (truthy (perm e .& (1 ≪ 3))) eqn:Ep; [|by left]. right.
  destruct (hit_cached s e va 3 Hm Hva ltac:(lia) (Hf va e Ee Eh) Eh Ep) as (p & i & C & Ea & L & Hpa).
  exists (pte_addr e), p, i. cbn [negb]. rewrite Hpa. split; [done|]. split; [done|]. constructor; try done; [|by destruct s as [[] ? ? ? ? ?]].
  eapply word_or_same; [exact L|]. by apply access_bits_set; [apply C|].
Qed.

(** [r] is the word of an instruction that [s] may fetch. *)
Definition fetched (s : sys) (va : Z) (r : option (Z * sys)) : Prop :=
  exists a p i s', checked_access s 3 va = Some (a, p, i) /\ accessed s s' 3 a /\ (coherent s -> coherent s') /\
                   r = let? v := memory_ifetch (sys_mem s') (sv32_pa i p va) in Some (v, s').

(** What [mmu_ifetch] does after a walk. *)
Definition fetch_fill (va a lv : Z) (s : sys) : option (Z * sys) :=
  let? s := mark_pte PTE_A a s in
  let? s := itlb_populate va a lv s in
  let? pte := read_pte s a in
  let? v := memory_ifetch (sys_mem s) (pte_ppn pte .| page_offset lv va) in
  Some (v, s).

Lemma fetch_filled (s : sys) (va a p : Z) (i : nat) :
  mem_wf (sys_mem s) -> 0 <= va -> checked_access s 3 va = Some (a, p, i) -> fetched s va (fetch_fill va a (2 - Z.of_nat i) s).
Proof.
  intros Hm Hva Ha. destruct (fill_ok s va a p 3 i Hm Hva Ha) as (s1 & s2 & E1 & E2 & Ho & M2 & W & Er & He & Hpa).
  injection E2 as ->. exists a, p, i. unfold fetch_fill. rewrite E1. cbn [mbind option_bind]. unfold itlb_populate. rewrite Er. cbn [mbind option_bind].
  assert (Er' : forall l, read_pte (set_itlb l s2) a = Some (p .| access_bits 3)) by done. rewrite Er'. cbn [mbind option_bind]. rewrite Hpa. eexists. split; [done|].
  split; [|split; [|reflexivity]].
  - constructor; try done; cbn [set_itlb sys_mem hart is_trapped need_retranslate need_handle_signal]; rewrite Ho; done.
  - intros Hc. apply coherent_itlb; [|done]. eapply coherent_mem; [exact Ho|exact W|apply access_soft|done].
Qed.

(** A fetch that the page tables allow does not trap. *)
Lemma fetch_allowed (va : Z) (s : sys) :
  coherent s -> mem_wf (sys_mem s) -> s.(need_retranslate) = false -> 0 <= va -> csr_val s.(hart) csr_satp <> 0 ->
  is_Some (checked_access s 3 va) -> fetched s va (mmu_ifetch on_trap s va).
Proof.
  intros Hc Hm Hr Hv0 Hsatp [[[a p] i] Ea]. unfold mmu_ifetch. rewrite (proj2 (Z.eqb_neq _ _) Hsatp), Hr.
  destruct (fetch_hit s va Hc Hm Hv0) as [->|(a' & p' & i' & -> & Ha & Hac)]; cbn [mbind option_bind]; [|by exists a', p', i', s].
  unfold fetch_walk. change PTE_X with (1 ≪ 3). destruct (walk_check on_trap s 3 va Hm ltac:(lia) Hv0) as (w & -> & Hw). cbn [mbind option_bind].
  rewrite Ea in Hw. destruct Hw as (-> & _ & ->). cbn [mbind option_bind]. by apply (fetch_filled s va a p i).
Qed.

(** C29. Instruction fetch with the TLB. In a state with coherent TLBs and
    translation on, a fetch from a page the tables map executable reads the word at
    the physical address of the Sv32 scheme, on a TLB hit as well as on a miss, and
    the TLBs stay coherent. Otherwise the instruction page fault is delivered and the
    walk repeated in the state the handler leaves: the fetch is served there, or a
    second fault is delivered (if the walk now finds a leaf that does not allow the
    fetch; none if it finds no leaf) and the fetch is marked for a retry. *)
Theorem mmu_ifetch_correct (s : sys) (va : Z) :
  coherent s -> mem_wf (sys_mem s) -> is_u32 va -> csr_val s.(hart) csr_satp <> 0 -> s.(need_retranslate) = false ->
  (forall s1, page_fault on_trap 3 va s = Some s1 -> mem_wf (sys_mem s1)) ->
  match checked_access s 3 va, page_fault on_trap 3 va s with
  | Some _, _ => fetched s va (mmu_ifetch on_trap s va)
  | None, None => mmu_ifetch on_trap s va = None
  | None, Some s1 =>
      match sv32_leaf s1 va, checked_access s1 3 va with
      | _, Some _ => fetched s1 va (mmu_ifetch on_trap s va)
      | Some _, None => mmu_ifetch on_trap s va = let? s2 := page_fault on_trap 3 va s1 in Some (0, ask_retry s2)
      | None, None => mmu_ifetch on_trap s va = Some (0, ask_retry s1)
      end
  end.
Proof.
  intros Hc Hm Hva Hsatp Hr Htrap. assert (Hv0 : 0 <= va) by apply Hva.
  destruct (checked_access s 3 va) as [r|] eqn:Ea; [apply fetch_allowed; try done; rewrite Ea; by eexists|].
  unfold mmu_ifetch. rewrite (proj2 (Z.eqb_neq _ _) Hsatp), Hr.
  destruct (fetch_hit s va Hc Hm Hv0) as [->|(a & p & i & _ & Ha & _)]; [cbn [mbind option_bind]|congruence].
  unfold fetch_walk. change PTE_X with (1 ≪ 3). destruct (walk_check on_trap s 3 va Hm ltac:(lia) Hv0) as (w & -> & Hw). cbn [mbind option_bind].
  rewrite Ea in Hw. rewrite Hw. destruct (page_fault on_trap 3 va s) as [s1|] eqn:Ef; [|done]. cbn [mbind option_bind]. specialize (Htrap s1 eq_refl).
  rewrite (mmu_walk_ok s1 Htrap va Hv0). unfold checked_access. destruct (sv32_leaf s1 va) as [[[a p] i]|] eqn:El; [|done]. cbn [fmap option_fmap option_map mbind option_bind fst snd].
  rewrite (fault_check_leaf on_trap s1 a p 3 va i ltac:(lia) (leaf_found s1 va a p i Htrap El)). destruct (allowed s1 3 p) eqn:Eal; cbn [mbind option_bind].
  - apply (fetch_filled s1 va a p i); [done..|]. unfold checked_access. rewrite El. cbn. by rewrite Eal.
  - by destruct (page_fault on_trap 3 va s1).
Qed.
End Access.

(** * Fences *)

(** The entries that stay valid after a change of the page tables: those of pages
    whose leaf is the same. *)
Lemma cached_remap (s : sys) (m : memory_t) (e : tlb_entry_t) :
  sv32_leaf (set_sys_mem m s) (e.(vpn) * 4096) = sv32_leaf s (e.(vpn) * 4096) -> entry_ok s e -> entry_ok (set_sys_mem m s) e.
Proof.
  intros El He Hv. destruct (He Hv) as (p & i & [C1 C2 C3 C4 C5 C6 C7]). exists p, i. constructor; try done. by rewrite El.
Qed.

(** Dropping the entry of a page: entries of other pages stay, and no entry of the
    page can be hit. *)
Lemma drop_slots (s : sys) (m : memory_t) (va : Z) (l : list tlb_entry_t) :
  (forall vb, vb / 4096 <> va / 4096 -> sv32_leaf (set_sys_mem m s) vb = sv32_leaf s vb) ->
  slots_ok s l -> slots_ok (set_sys_mem m s) (alter (drop_entry va) (tlb_index va) l).
Proof.
  intros Hrest [Hl Hs]. split; [by rewrite length_alter|]. intros vb e He Hh.
  assert (Hcase : exists e0, l !! tlb_index vb = Some e0 /\ (e = e0 \/ e = drop_entry va e0) /\ (vb / 4096 = va / 4096 -> e = drop_entry va e0)).
  { destruct (decide (tlb_index va = tlb_index vb)) as [Ei|Hne].
    - rewrite Ei, list_lookup_alter_eq in He. destruct (l !! tlb_index vb) as [e0|]; [|done]. injection He as <-. exists e0. split; [done|]. split; [by right|done].
    - rewrite list_lookup_alter_ne in He by done. exists e. split; [done|]. split; [by left|]. intros E. destruct Hne.
      unfold tlb_index. by rewrite !shiftr_page, E. }
  destruct Hcase as (e0 & E0 & Hor & Hsame). apply andb_true_iff in Hh as [Hv Hvpn%Z.eqb_eq].
  assert (Hd : hits va e0 = true -> valid (drop_entry va e0) = false) by (intros Hx; unfold drop_entry; by rewrite Hx).
  assert (Hk : hits va e0 = false -> drop_entry va e0 = e0) by (intros Hx; unfold drop_entry; by rewrite Hx).
  destruct (hits va e0) eqn:Ehit.
  - destruct Hor as [->| ->]; [|by rewrite Hd in Hv]. rewrite Hsame in Hv; [by rewrite Hd in Hv|].
    apply andb_true_iff in Ehit as [_ Ep%Z.eqb_eq]. rewrite <-!shiftr_page. congruence.
  - assert (e = e0) as -> by (destruct Hor as [->| ->]; [done|by apply Hk]).
    assert (Hok : entry_ok s e0) by (apply (Hs vb); [done|]; unfold hits; by rewrite Hv, Hvpn, Z.eqb_refl).
    apply cached_remap; [|done]. apply Hrest. rewrite Z.div_mul by lia. intros E. unfold hits in Ehit. rewrite Hv, shiftr_page, E, Z.eqb_refl in Ehit. done.
Qed.

(** The guest maps, unmaps or changes the page of [va] and fences that address. *)
Lemma remap_fence (s : sys) (m : memory_t) (va : Z) :
  (forall vb, vb / 4096 <> va / 4096 -> sv32_leaf (set_sys_mem m s) vb = sv32_leaf s vb) ->
  coherent s -> coherent (mmu_tlb_flush va (set_sys_mem m s)).
Proof.
  intros Hrest [D I].
  constructor; cbn [mmu_tlb_flush set_itlb set_dtlb dtlb itlb]; (eapply (slots_impl (set_sys_mem m s)); [intros e; by apply entry_tlb|]); by apply drop_slots.
Qed.

(** * Runs *)

Section Run.
Context (on_trap : sys -> option sys).

(** What the guest does with translation on: accesses the tables allow, writes of
    satp, fences, and changes of the tables (arbitrary ones with a full fence, of one
    page with a fence of its address). *)
Inductive mmu_step (s : sys) : sys -> Prop :=
| step_load n va v s' : is_u32 va -> csr_val s.(hart) csr_satp <> 0 -> is_Some (checked_access s 1 va) -> mmu_read on_trap n s va = Some (v, s') -> mmu_step s s'
| step_store va v a p i s' : is_u32 va -> csr_val s.(hart) csr_satp <> 0 -> data_word s va a p i -> mmu_write_w on_trap s va v = Some s' -> mmu_step s s'
| step_fetch va v s' : is_u32 va -> csr_val s.(hart) csr_satp <> 0 -> is_Some (checked_access s 3 va) -> mmu_ifetch on_trap s va = Some (v, s') -> mmu_step s s'
| step_satp v : mmu_step s (write_satp v s)
| step_fence rs1 : mmu_step s (sfence_vma rs1 s)
| step_tables m : mem_wf m -> mmu_step s (sfence_vma 0 (set_sys_mem m s))
| step_remap m rs1 : rs1 <> 0 -> mem_wf m ->
    (forall vb, vb / 4096 <> xreg s.(hart) rs1 / 4096 -> sv32_leaf (set_sys_mem m s) vb = sv32_leaf s vb) ->
    mmu_step s (sfence_vma rs1 (set_sys_mem m s)).

(** The invariant of a run. *)
Record mmu_inv (s : sys) : Prop := {
  inv_coherent : coherent s;
  inv_mem : mem_wf (sys_mem s);
  inv_retry : s.(need_retranslate) = false }.

Lemma satp_inv (v : Z) (s : sys) : mmu_inv s -> mmu_inv (write_satp v s).
Proof.
  intros [Hc Hm Hr]. unfold write_satp. destruct (Z.eqb_spec v (csr_val (hart s) csr_satp)) as [E|_]; cbn [negb].
  - assert (Hv : forall c, csr_val (set_csr csr_satp v (hart s)) c = csr_val (hart s) c).
    { intros c. unfold csr_val, set_csr, csr_upd in *. cbn. case_decide; congruence. }
    constructor; [|done|done]. apply (coherent_leaf s); [| |done|done|exact Hc].
    + intros va. unfold sv32_leaf, root. cbn [set_hart hart]. by rewrite Hv.
    + unfold same_mode. cbn [set_hart hart]. rewrite !Hv. done.
  - constructor; [apply flush_all_coherent|done|done].
Qed.

Lemma load_inv (n : nat) (va v : Z) (s s' : sys) :
  is_u32 va -> csr_val s.(hart) csr_satp <> 0 -> is_Some (checked_access s 1 va) -> mmu_read on_trap n s va = Some (v, s') -> mmu_inv s -> mmu_inv s'.
Proof.
  intros [Hva _] Hsatp Ha E [Hc Hm Hr]. destruct (translate_allowed on_trap s va true Hc Hm Hva Hsatp Ha) as (a & p & i & s1 & _ & Et & Hac & Hc1).
  unfold mmu_read in E. rewrite Et in E. cbn [mbind option_bind] in E. destruct Hac as [_ Hwf _ (_ & Hn & _)]. rewrite Hn, Hr in E.
  destruct (checked_load n (sys_mem s1) _); [|done]. injection E as <- <-. constructor; [by apply Hc1|done|by rewrite Hn].
Qed.

Lemma store_inv (va v a p : Z) (i : nat) (s s' : sys) :
  is_u32 va -> csr_val s.(hart) csr_satp <> 0 -> data_word s va a p i -> mmu_write_w on_trap s va v = Some s' -> mmu_inv s -> mmu_inv s'.
Proof.
  intros [Hva _] Hsatp D E [Hc Hm Hr]. destruct (store_data on_trap s va v a p i Hc Hm Hva Hsatp Hr D) as (s1 & Ew & [_ Hwf _ (_ & Hn & _)] & _ & Hc2).
  rewrite Ew in E. injection E as <-. constructor; [done| |by cbn; rewrite Hn]. change (mem_wf (store_le 4 (sys_mem s1) (sv32_pa i p va) v)). by apply store_le_wf.
Qed.

Lemma fetch_inv (va v : Z) (s s' : sys) :
  is_u32 va -> csr_val s.(hart) csr_satp <> 0 -> is_Some (checked_access s 3 va) -> mmu_ifetch on_trap s va = Some (v, s') -> mmu_inv s -> mmu_inv s'.
Proof.
  intros [Hva _] Hsatp Ha E [Hc Hm Hr]. destruct (fetch_allowed on_trap va s Hc Hm Hr Hva Hsatp Ha) as (a & p & i & s1 & _ & [_ Hwf _ (_ & Hn & _)] & Hc1 & Er).
  rewrite E in Er. destruct (memory_ifetch (sys_mem s1) _); [|done]. injection Er as -> ->. constructor; [by apply Hc1|done|by rewrite Hn].
Qed.

Lemma fence_inv (rs1 : Z) (m : memory_t) (s : sys) :
  (rs1 <> 0 -> forall vb, vb / 4096 <> xreg s.(hart) rs1 / 4096 -> sv32_leaf (set_sys_mem m s) vb = sv32_leaf s vb) ->
  mem_wf m -> mmu_inv s -> mmu_inv (sfence_vma rs1 (set_sys_mem m s)).
Proof.
  intros Hrest Hm [Hc _ Hr]. unfold sfence_vma. destruct (Z.eqb_spec rs1 0) as [->|Hne].
  - constructor; [apply flush_all_coherent|done|done].
  - constructor; [|done|done]. replace (xreg (hart (set_sys_mem m s)) rs1) with (xreg (hart s) rs1) by done. apply remap_fence; [by apply Hrest|done].
Qed.

(** C19. The TLBs stay coherent. From a state with coherent TLBs, such as one whose
    TLBs were just flushed, every sequence of loads, stores and fetches that the page
    tables allow, satp writes, SFENCE.VMA instructions, and page-table updates
    followed by the fence the architecture asks for, ends in a state with coherent
    TLBs and no pending retry: after it, every access is again translated as by a
    walk of the tables of that moment. *)
Theorem mmu_run_coherent (s s' : sys) : mmu_inv s -> rtc mmu_step s s' -> mmu_inv s'.
Proof.
  intros Hi Hrun. induction Hrun as [s|s s1 s2 Hs _ IH]; [done|]. apply IH. clear IH.
  destruct Hs as [n va v s1 Hva Hsatp Ha E|va v a p i s1 Hva Hsatp D E|va v s1 Hva Hsatp Ha E|v|rs1|m Hm|m rs1 Hne Hm Hrest].
  - by eapply load_inv.
  - by eapply store_inv.
  - by eapply fetch_inv.
  - by apply satp_inv.
  - rewrite (only_mem_refl s). apply fence_inv; [|apply Hi|done]. intros _ vb _. by rewrite <-(only_mem_refl s).
  - by apply fence_inv.
  - apply fence_inv; [by intros _|done|done].
Qed.
End Run.

(** * On the sample address space *)

Definition sample : sys := sample_sys 0xf RV_PRIV_S_MODE.

Lemma load_empty (n : nat) (size a : Z) : load_le n (mk_memory ∅ size) a = 0.
Proof. revert a. induction n as [|n IH]; intros a; cbn [load_le]; [done|]. rewrite IH. unfold mem_byte. cbn [mem_base]. by rewrite lookup_empty. Qed.

(** Page 3 holds no page table of the sample. *)
Lemma sample_apart : ~ table_page (sys_mem sample) (root sample) 3.
Proof.
  intros [E|(j & Hj & Hc & E)]; [by vm_compute in E|]. change (root sample) with 1 in *. cbv zeta in Hc, E.
  destruct (decide (j = 0)) as [->|Hne]; [by vm_compute in E|]. revert Hc.
  change (sys_mem sample) with (sample_tables 0xf). unfold sample_tables.
  rewrite !load_store_disjoint by lia. by rewrite load_empty.
Qed.

Lemma sample_data : data_word sample 0x3008 0x200c 0xc0f 0.
Proof. constructor; [by vm_compute..|]. exact sample_apart. Qed.

Lemma mmu_write_read_witness :
  exists s1 s2, mmu_write_w Some sample 0x3008 0x12345678 = Some s1 /\ coherent s1 /\ mmu_read_w Some s1 0x3008 = Some (u32 0x12345678, s2) /\ coherent s2.
Proof. apply (mmu_write_read Some sample 0x3008 0x12345678 0x200c 0xc0f 0); [apply sample_coherent|apply sample_wf|done..|apply sample_data]. Defined.

Lemma mmu_ifetch_correct_witness : fetched sample 0x3008 (mmu_ifetch Some sample 0x3008).
Proof.
  assert (H := mmu_ifetch_correct Some sample 0x3008 (sample_coherent _ _) (sample_wf _ _) ltac:(done) ltac:(done) ltac:(done)).
  replace (checked_access sample 3 0x3008) with (Some (0x200c, 0xc0f, 0%nat)) in H by (vm_compute; reflexivity).
  apply H. intros s1 [= <-]. apply (sample_wf 0xf RV_PRIV_S_MODE).
Defined.

(** A store, a switch of the root table, and a fence. *)
Lemma mmu_run_coherent_witness : exists s1, mmu_write_w Some sample 0x3008 1 = Some s1 /\ mmu_inv (sfence_vma 0 (write_satp 0x80000002 s1)).
Proof.
  assert (Hva : is_u32 0x3008) by done. assert (Hsatp : csr_val sample.(hart) csr_satp <> 0) by done.
  destruct (store_data Some sample 0x3008 1 0x200c 0xc0f 0 (sample_coherent _ _) (sample_wf _ _) (proj1 Hva) Hsatp eq_refl sample_data) as (s0 & E & _).
  revert E. generalize (set_sys_mem (store_le 4 (sys_mem s0) (sv32_pa 0 0xc0f 0x3008) 1) s0). clear s0. intros s1 E. exists s1. split; [exact E|].
  apply (mmu_run_coherent Some sample); [constructor; [apply sample_coherent|apply sample_wf|reflexivity]|].
  apply (rtc_l _ _ s1); [exact (step_store Some sample _ _ _ _ _ s1 Hva Hsatp sample_data E)|].
  apply (rtc_l _ _ (write_satp 0x80000002 s1)); [apply step_satp|]. apply rtc_once, step_fence.
Defined.

(** ** Where the checks differ from the manual *)

(** User mode may store to a page without the U bit, which Sv32 refuses. *)
Example user_writes_supervisor_page :
  sv32_access (sample_sys 7 RV_PRIV_U_MODE) 2 0x3008 = None /\ is_Some (mmu_write_w (fun _ => None) (sample_sys 7 RV_PRIV_U_MODE) 0x3008 1).
Proof. split; vm_compute; [done|by eexists]. Qed.

(** With MXR set, a load from a page that is only executable faults; Sv32 permits
    it. *)
Example mxr_has_no_effect :
  let s := set_hart (set_csr csr_sstatus SSTATUS_MXR (sample_sys 9 RV_PRIV_S_MODE).(hart)) (sample_sys 9 RV_PRIV_S_MODE) in
  is_Some (sv32_access s 1 0x3008) /\ mmu_read_w (fun _ => None) s 0x3008 = None.
Proof. split; vm_compute; [by eexists|done]. Qed.

(** A TLB entry filled in user mode serves supervisor mode with SUM clear, which a
    walk refuses. *)
Example hit_ignores_sum :
  (let? (_, s) := mmu_read_w (fun _ => None) (sample_sys 0x17 RV_PRIV_U_MODE) 0x3008 in
   let s := set_hart (set_priv_mode RV_PRIV_S_MODE s.(hart)) s in
   Some (option_map fst (mmu_read_w (fun _ => None) s 0x3008), option_map fst (mmu_read_w (fun _ => None) (mmu_tlb_flush_all s) 0x3008))) =
  Some (Some 0, None).
Proof. by vm_compute. Qed.

(** RAM mapped by one superpage, and its entry removed: a fence of an address of the
    superpage leaves the entry of another of its pages valid. *)
Example fence_misses_superpage :
  let s0 := set_sys_mem (store_le 4 (mk_memory ∅ 16384) 0x1000 0xf) sample in
  (let? (_, s) := mmu_read_w (fun _ => None) s0 0x3000 in
   let s := mmu_tlb_flush 0x2000 (set_sys_mem (store_le 4 (sys_mem s) 0x1000 0) s) in
   Some (sv32_leaf s 0x2000, sv32_leaf s 0x3000, option_map fst (mmu_read_w (fun _ => None) s 0x3000))) = Some (None, None, Some 0).
Proof. by vm_compute. Qed.
