(* ===== verification/Mpool.v ===== *)
(** The fixed-size chunk allocator of mpool.c. Chunks lie one behind the other in
    arenas obtained from the system; each starts with a header, the pointer to the
    next free chunk, and the client gets the bytes behind it.

    Host memory is a map from addresses to bytes, whose contents in a new arena are
    arbitrary (mmap gives zeros, malloc anything). What the system calls return is
    an argument of the operations: the arena ([None] for a failure) and whether
    [malloc] of a descriptor succeeds. A write or read of a header outside of the
    arenas is [None]. Sizes are [size_t], 64 bits. *)

From stdpp Require Import base list option numbers gmap.
From Stdlib Require Import ZArith Lia Bool.
From S2P Require Import Prelude Bits Mem.
#[local] Open Scope Z_scope.

Definition SIZE_MAX : Z := 2 ^ 64 - 1.
Definition sizeof_memchunk : Z := 8.

(** The pool; [areas] are the mapped addresses in the order of the [area_t] list. *)
Record mpool_t : Type := mk_mpool {
  chunk_count : Z;
  page_count : Z;
  chunk_size : Z;
  free_chunk_head : Z;
  areas : list Z }.

Section Mpool.
Context (getpagesize : Z).

(** The bytes of one arena. *)
Definition arena_size (mp : mpool_t) : Z := mp.(page_count) * getpagesize.

(** [n] bytes at [a] lie in an arena. *)
Definition mapped (mp : mpool_t) (a n : Z) : bool :=
  existsb (fun p => (p <=? a) && (a + n <=? p + arena_size mp)) mp.(areas).

(** [cur->next] and [cur->next = v]. *)
Definition read_next (mp : mpool_t) (m : memory_t) (a : Z) : option Z :=
  if mapped mp a sizeof_memchunk then Some (load_le 8 m a) else None.
Definition write_next (mp : mpool_t) (m : memory_t) (a v : Z) : option memory_t :=
  if mapped mp a sizeof_memchunk then Some (store_le 8 m a v) else None.

(** The loop that links [n + 1] chunks from [cur] on; the result is the last one. *)
Fixpoint link_chunks (mp : mpool_t) (n : nat) (cur : Z) (m : memory_t) : option (Z * memory_t) :=
  match n with
  | O => Some (cur, m)
  | S n =>
      let next := cur + (sizeof_memchunk + mp.(chunk_size)) in
      let? m := write_next mp m cur next in
      link_chunks mp n next m
  end.

(** [for (i = 0; i < count - 1; i++)]: with [count] = 0 the bound is SIZE_MAX and
    the loop leaves every arena. *)
Definition link_loop (mp : mpool_t) (count cur : Z) (m : memory_t) : option (Z * memory_t) :=
  if count =? 0 then None else link_chunks mp (Z.to_nat (count - 1)) cur m.

(** The size after the first adjustment of [mpool_create]. *)
Definition adjusted_size (pool_size chunk_size : Z) : Z :=
  if pool_size <? chunk_size + sizeof_memchunk then u64 (pool_size + sizeof_memchunk) else pool_size.

Definition mpool_create (malloc_ok : bool) (arena : option Z) (pool_size chunk_size : Z) (m : memory_t) :
    option (option mpool_t * memory_t) :=
  if negb malloc_ok then Some (None, m)
  else if SIZE_MAX - sizeof_memchunk <? chunk_size then Some (None, m)
  else
    let pool_size := adjusted_size pool_size chunk_size in
    if SIZE_MAX - getpagesize + 1 <? pool_size then Some (None, m)
    else
      let page_count := (pool_size + getpagesize - 1) / getpagesize in
      if SIZE_MAX / getpagesize <? page_count then Some (None, m)
      else
        match arena with
        | None => Some (None, m)
        | Some p =>
            let count := pool_size / (sizeof_memchunk + chunk_size) in
            let mp := mk_mpool count page_count chunk_size p [p] in
            let? (cur, m) := link_loop mp count p m in
            let? m := write_next mp m cur 0 in
            Some (Some mp, m)
        end.

(** [true]: the pool has new chunks. *)
Definition mpool_extend (arena : option Z) (malloc_ok : bool) (mp : mpool_t) (m : memory_t) : option (bool * mpool_t * memory_t) :=
  let pool_size := u64 (mp.(page_count) * getpagesize) in
  match arena with
  | None => Some (false, mp, m)
  | Some p =>
      if negb malloc_ok then Some (false, mp, m)
      else
        let count := pool_size / (sizeof_memchunk + mp.(chunk_size)) in
        let mp := mk_mpool mp.(chunk_count) mp.(page_count) mp.(chunk_size) p (mp.(areas) ++ [p]) in
        let? (_, m) := link_loop mp count p m in
        Some (true, mk_mpool (u64 (mp.(chunk_count) + count)) mp.(page_count) mp.(chunk_size) p mp.(areas), m)
  end.

Definition mpool_alloc_helper (mp : mpool_t) (m : memory_t) : option (Z * mpool_t) :=
  let ptr := mp.(free_chunk_head) + sizeof_memchunk in
  let? next := read_next mp m mp.(free_chunk_head) in
  Some (ptr, mk_mpool (u64 (mp.(chunk_count) - 1)) mp.(page_count) mp.(chunk_size) next mp.(areas)).

(** A null pointer is 0. *)
Definition mpool_alloc (arena : option Z) (malloc_ok : bool) (mp : mpool_t) (m : memory_t) : option (Z * mpool_t * memory_t) :=
  let? (ok, mp, m) := if mp.(chunk_count) =? 0 then mpool_extend arena malloc_ok mp m else Some (true, mp, m) in
  if negb ok then Some (0, mp, m)
  else let? (ptr, mp) := mpool_alloc_helper mp m in Some (ptr, mp, m).

Definition mpool_calloc (arena : option Z) (malloc_ok : bool) (mp : mpool_t) (m : memory_t) : option (Z * mpool_t * memory_t) :=
  let? (ok, mp, m) := if mp.(chunk_count) =? 0 then mpool_extend arena malloc_ok mp m else Some (true, mp, m) in
  if negb ok then Some (0, mp, m)
  else
    let? (ptr, mp) := mpool_alloc_helper mp m in
    if mapped mp ptr mp.(chunk_size) then Some (ptr, mp, store_bytes m ptr (replicate (Z.to_nat mp.(chunk_size)) 0)) else None.

Definition mpool_free (target : Z) (mp : mpool_t) (m : memory_t) : option (mpool_t * memory_t) :=
  let ptr := target - sizeof_memchunk in
  let? m := write_next mp m ptr mp.(free_chunk_head) in
  Some (mk_mpool (u64 (mp.(chunk_count) + 1)) mp.(page_count) mp.(chunk_size) ptr mp.(areas), m).

(** The calls of [munmap], in order. *)
Definition mpool_destroy (mp : mpool_t) : list (Z * Z) := (fun p => (p, u64 (arena_size mp))) <$> mp.(areas).
End Mpool.
