(* ===== verification/MpoolSpec.v ===== *)
(** The memory of the pool against private memory: chunks handed out do not
    overlap, and their bytes change only when their owner writes them. *)

From stdpp Require Import base list option numbers gmap.
From Stdlib Require Import ZArith Lia Bool.
From S2P Require Import Prelude Bits Mem MemSpec Mpool.
#[local] Open Scope Z_scope.

(** * The specification *)

(** What a client may ask for: a chunk, a zeroed chunk, the return of a chunk, and
    the write of one byte. The arguments of the first two are the answers of the
    system, should the pool have to grow. *)
Inductive pool_op : Type :=
| Alloc (arena : option Z) (malloc_ok : bool)
| Calloc (arena : option Z) (malloc_ok : bool)
| Free (p : Z)
| Write (a v : Z).

(** The chunks a client owns, and the bytes it knows. *)
Record private : Type := mk_private { owned : list Z; data : gmap Z Z }.

Definition inside (n p a : Z) : Prop := p <= a < p + n.

(** A chunk of [n] bytes at [r] that overlaps none of the owned ones. *)
Definition new_chunk (n r : Z) (s : private) : Prop :=
  r <> 0 /\ forall p, p ∈ s.(owned) -> r + n <= p \/ p + n <= r.

Definition refused (arena : option Z) (malloc_ok : bool) : Prop := arena = None \/ malloc_ok = false.

(** One operation on private memory, chunks of [n] bytes. *)
Inductive spec_step (n : Z) (s : private) : pool_op -> Z -> private -> Prop :=
| spec_alloc arena ok r : new_chunk n r s -> spec_step n s (Alloc arena ok) r (mk_private (r :: s.(owned)) s.(data))
| spec_calloc arena ok r : new_chunk n r s ->
    spec_step n s (Calloc arena ok) r (mk_private (r :: s.(owned)) (list_to_map ((fun a => (a, 0)) <$> seqZ r n) ∪ s.(data)))
| spec_refused op arena ok : op = Alloc arena ok \/ op = Calloc arena ok -> refused arena ok -> spec_step n s op 0 s
| spec_free p : p ∈ s.(owned) ->
    spec_step n s (Free p) 0 (mk_private (filter (fun q => q <> p) s.(owned)) (filter (fun x => ~ inside n p x.1) s.(data)))
| spec_write a v p : p ∈ s.(owned) -> inside n p a -> spec_step n s (Write a v) 0 (mk_private s.(owned) (<[a := u8 v]> s.(data))).

(** * Runs *)

Section Pool.
Context (pgsz : Z) (Hpg : 0 < pgsz).

Implicit Types (mp : mpool_t) (m : memory_t) (s : private).

Definition pool_do (op : pool_op) mp m : option (Z * mpool_t * memory_t) :=
  match op with
  | Alloc arena ok => mpool_alloc pgsz arena ok mp m
  | Calloc arena ok => mpool_calloc pgsz arena ok mp m
  | Free p => let? (mp, m) := mpool_free pgsz p mp m in Some (0, mp, m)
  | Write a v => Some (0, mp, set_byte m a v)
  end.

(** What the system promises about an arena: it lies in the address space, apart
    from the others. *)
Definition good_arena mp (p : Z) : Prop :=
  0 < p /\ p + arena_size pgsz mp <= 2 ^ 64 /\ forall q, q ∈ mp.(areas) -> p + arena_size pgsz mp <= q \/ q + arena_size pgsz mp <= p.

(** What the client promises: it returns and writes only what it owns. *)
Definition legal mp s (op : pool_op) : Prop :=
  match op with
  | Alloc arena _ | Calloc arena _ => forall p, arena = Some p -> good_arena mp p
  | Free p => p ∈ s.(owned)
  | Write a _ => exists p, p ∈ s.(owned) /\ inside mp.(chunk_size) p a
  end.

(** * The invariant *)

Definition step_of mp : Z := sizeof_memchunk + mp.(chunk_size).

(** The free list from [h] on. *)
Fixpoint linked m (h : Z) (l : list Z) : Prop :=
  match l with
  | [] => True
  | a :: l => h = a /\ linked m (load_le 8 m a) l
  end.

Definition apart (n : Z) (l : list Z) : Prop := NoDup l /\ forall a b, a ∈ l -> b ∈ l -> a <> b -> a + n <= b \/ b + n <= a.

(** The headers of the owned chunks. *)
Definition headers s : list Z := (fun p => p - sizeof_memchunk) <$> s.(owned).

Record repr mp m s (free : list Z) : Prop := {
  re_size : 0 <= mp.(chunk_size);
  re_arena : step_of mp <= arena_size pgsz mp < 2 ^ 64;
  re_areas : forall p, p ∈ mp.(areas) -> 0 < p /\ p + arena_size pgsz mp <= 2 ^ 64;
  re_count : mp.(chunk_count) = Z.of_nat (length free);
  re_chain : linked m mp.(free_chunk_head) free;
  re_apart : apart (step_of mp) (free ++ headers s);
  re_mapped : forall a, a ∈ free ++ headers s -> mapped pgsz mp a (step_of mp) = true;
  re_data : forall a v, s.(data) !! a = Some v -> mem_byte m a = v /\ exists p, p ∈ s.(owned) /\ inside mp.(chunk_size) p a }.

Lemma mapped_spec mp a n : mapped pgsz mp a n = true <-> exists p, p ∈ mp.(areas) /\ p <= a /\ a + n <= p + arena_size pgsz mp.
Proof.
  unfold mapped. rewrite existsb_exists. split; intros (p & Hp & Hb); exists p; rewrite <-list_elem_of_In in *;
    [rewrite andb_true_iff, !Z.leb_le in Hb|rewrite andb_true_iff, !Z.leb_le]; done.
Qed.

Lemma mapped_header mp a : 0 <= mp.(chunk_size) -> mapped pgsz mp a (step_of mp) = true -> mapped pgsz mp a sizeof_memchunk = true.
Proof. intros Hc (p & Hp & H1 & H2)%mapped_spec. apply mapped_spec. exists p. unfold step_of, sizeof_memchunk in *. split; [done|]. lia. Qed.

(** The free list does not notice writes outside of its headers. *)
Lemma linked_ext m m' h l : (forall a, a ∈ l -> load_le 8 m' a = load_le 8 m a) -> linked m h l -> linked m' h l.
Proof.
  revert h. induction l as [|a l IH]; intros h Hm; cbn [linked]; [done|]. intros [-> Hl]. split; [done|].
  rewrite Hm by (by left). apply IH; [|done]. intros b Hb. apply Hm. by right.
Qed.

Lemma apart_sub (n : Z) (l l' : list Z) : NoDup l' -> (forall a, a ∈ l' -> a ∈ l) -> apart n l -> apart n l'.
Proof. intros Hn Hs [_ Ha]. split; [done|]. intros a b ?? Hne. apply Ha; auto. Qed.

(** A list of disjoint chunks is not longer than the address space. *)
Lemma bounded_length (n : Z) (l : list Z) : 0 <= n -> NoDup l -> (forall a, a ∈ l -> 0 <= a < n) -> Z.of_nat (length l) <= n.
Proof.
  intros Hn Hnd Hb. assert (Hs : l ⊆+ seqZ 0 n) by (apply NoDup_submseteq; [done|]; intros a Ha%Hb; rewrite elem_of_seqZ; lia).
  apply submseteq_length in Hs. rewrite length_seqZ in Hs. lia.
Qed.

Lemma chunk_address mp m s free a : repr mp m s free -> a ∈ free ++ headers s -> 0 < a /\ a + step_of mp <= 2 ^ 64.
Proof.
  intros R Ha. destruct (proj1 (mapped_spec _ _ _) (re_mapped _ _ _ _ R a Ha)) as (p & Hp & H1 & H2).
  destruct (re_areas _ _ _ _ R p Hp). lia.
Qed.

Lemma chunk_total mp m s free : repr mp m s free -> Z.of_nat (length (free ++ headers s)) <= 2 ^ 61.
Proof.
  intros R. pose proof (re_apart _ _ _ _ R) as [Hnd Hap]. pose proof (re_size _ _ _ _ R). pose proof (chunk_address mp m s free) as Hca.
  rewrite <-(length_fmap (fun a => a / 8)). apply bounded_length; [lia| |].
  - apply NoDup_fmap_2_strong; [|done]. intros a b Ha Hb E. destruct (decide (a = b)) as [|Hne]; [done|].
    destruct (Hap a b Ha Hb Hne); unfold step_of, sizeof_memchunk in *; pose proof (Z.div_mod a 8); pose proof (Z.div_mod b 8);
      pose proof (Z.mod_pos_bound a 8); pose proof (Z.mod_pos_bound b 8); lia.
  - intros q (a & -> & Ha)%list_elem_of_fmap. destruct (Hca a R Ha). unfold step_of, sizeof_memchunk in *. split; [apply Z.div_pos; lia|apply Z.div_lt_upper_bound; lia].
Qed.

(** * Linking an arena *)

Fixpoint chunks (sz cur : Z) (n : nat) : list Z :=
  match n with O => [] | S n => cur :: chunks sz (cur + sz) n end.

Lemma elem_of_chunks (sz cur a : Z) (n : nat) : a ∈ chunks sz cur n <-> exists i, 0 <= i < Z.of_nat n /\ a = cur + i * sz.
Proof.
  revert cur. induction n as [|n IH]; intros cur; cbn [chunks]; [split; [set_solver|intros (i & ? & _); lia]|].
  rewrite elem_of_cons, IH. split.
  - intros [->|(i & Hi & ->)]; [exists 0; lia|]. exists (i + 1). lia.
  - intros (i & Hi & ->). destruct (decide (i = 0)) as [->|]; [left; lia|]. right. exists (i - 1). lia.
Qed.

Lemma length_chunks (sz cur : Z) (n : nat) : length (chunks sz cur n) = n.
Proof. revert cur. induction n as [|n IH]; intros cur; cbn [chunks length]; [done|]. by rewrite IH. Qed.

Lemma apart_chunks (sz cur : Z) (n : nat) : 0 < sz -> apart sz (chunks sz cur n).
Proof.
  intros Hsz. split.
  - revert cur. induction n as [|n IH]; intros cur; cbn [chunks]; [constructor|]. constructor; [|done].
    intros (i & Hi & E)%elem_of_chunks. nia.
  - intros a b (i & Hi & ->)%elem_of_chunks (j & Hj & ->)%elem_of_chunks Hne. destruct (Z.lt_trichotomy i j) as [|[->|]]; [left; nia|done|right; nia].
Qed.

Lemma link_chunks_ok mp (n : nat) (cur : Z) m :
  let sz := step_of mp in
  0 <= mp.(chunk_size) -> 0 <= cur -> cur + Z.of_nat n * sz < 2 ^ 64 ->
  (forall i, 0 <= i < Z.of_nat n -> mapped pgsz mp (cur + i * sz) sizeof_memchunk = true) ->
  exists m', link_chunks pgsz mp n cur m = Some (cur + Z.of_nat n * sz, m') /\ linked m' cur (chunks sz cur (S n)) /\
    forall b, b < cur \/ cur + Z.of_nat n * sz <= b -> mem_byte m' b = mem_byte m b.
Proof.
  intros sz Hc. revert cur m. induction n as [|n IH]; intros cur m Hcur Hend Hm.
  - exists m. cbn [link_chunks chunks linked]. split; [do 2 f_equal; lia|]. done.
  - assert (Hsz : 8 <= sz) by (unfold sz, step_of, sizeof_memchunk; lia).
    cbn [link_chunks]. fold (step_of mp). fold sz. unfold write_next. specialize (Hm 0 ltac:(lia)) as H0. rewrite Z.add_0_r in H0. rewrite H0. cbn [mbind option_bind].
    destruct (IH (cur + sz) (store_le 8 m cur (cur + sz)) ltac:(lia) ltac:(lia)) as (m' & E & Hl & Hb).
    { intros i Hi. replace (cur + sz + i * sz) with (cur + (i + 1) * sz) by ring. apply Hm. lia. }
    exists m'. rewrite E. split; [do 2 f_equal; lia|]. split.
    + cbn [chunks linked] in *. split; [done|].
      replace (load_le 8 m' cur) with (cur + sz); [done|]. symmetry.
      rewrite (load_le_ext 8 m' (store_le 8 m cur (cur + sz))) by (intros b Hbb; apply Hb; lia).
      rewrite load_store_same. apply Z.mod_small. change (8 * Z.of_nat 8) with 64. lia.
    + intros b Hbb. rewrite Hb by lia. rewrite mem_byte_store_le. replace ((cur <=? b) && (b <? cur + Z.of_nat 8)) with false; [done|].
      symmetry. apply andb_false_iff. rewrite Z.leb_gt, Z.ltb_ge. lia.
Qed.

(** A larger set of arenas, with the new one at [p]. *)
Lemma mapped_more mp mp' (p a n : Z) :
  mp'.(areas) = mp.(areas) ++ [p] -> arena_size pgsz mp' = arena_size pgsz mp -> mapped pgsz mp a n = true -> mapped pgsz mp' a n = true.
Proof. intros Ha Hs (q & Hq & H)%mapped_spec. apply mapped_spec. exists q. rewrite Ha, Hs, elem_of_app. auto. Qed.

Lemma apart_app (n : Z) (l l' : list Z) :
  0 < n -> apart n l -> apart n l' -> (forall a b, a ∈ l -> b ∈ l' -> a + n <= b \/ b + n <= a) -> apart n (l ++ l').
Proof.
  intros Hn [N1 A1] [N2 A2] Hx. split.
  - apply NoDup_app. split_and!; [done| |done]. intros a Ha Hb. specialize (Hx a a Ha Hb). lia.
  - intros a b [Ha|Ha]%elem_of_app [Hb|Hb]%elem_of_app Hne; auto. specialize (Hx b a Hb Ha). lia.
Qed.

(** The bytes a client knows lie in its chunks. *)
Lemma data_place mp m s free a v : repr mp m s free -> s.(data) !! a = Some v -> exists h, h ∈ headers s /\ h + sizeof_memchunk <= a < h + step_of mp.
Proof.
  intros R (_ & p & Hp & Hi)%(re_data _ _ _ _ R). exists (p - sizeof_memchunk). split; [apply list_elem_of_fmap; by exists p|].
  unfold inside, step_of in *. lia.
Qed.

Lemma extend_ok mp m s p :
  repr mp m s [] -> good_arena mp p ->
  exists mp' m' free, mpool_extend pgsz (Some p) true mp m = Some (true, mp', m') /\ repr mp' m' s free /\ free <> [] /\ mp'.(chunk_size) = mp.(chunk_size).
Proof.
  intros R (Hp0 & Hp1 & Hp2). pose proof (re_size _ _ _ _ R) as Hc. pose proof (re_arena _ _ _ _ R) as [Ha1 Ha2].
  set (sz := step_of mp) in *. set (ar := arena_size pgsz mp) in *. assert (Hsz : 8 <= sz) by (unfold sz, step_of, sizeof_memchunk; lia).
  set (count := ar / sz). assert (Hcount : 1 <= count) by (apply Z.div_le_lower_bound; lia).
  assert (Hfit : count * sz <= ar) by (rewrite Z.mul_comm; apply Z.mul_div_le; lia).
  assert (Hlt : count < 2 ^ 64) by nia.
  unfold mpool_extend. cbn [negb]. replace (u64 (page_count mp * pgsz)) with ar by (symmetry; apply Z.mod_small; unfold ar, arena_size in *; lia).
  fold (step_of mp) sz count. set (mp1 := mk_mpool _ _ _ p _). unfold link_loop. rewrite (proj2 (Z.eqb_neq count 0)) by lia.
  assert (Hmap : forall i, 0 <= i < count -> mapped pgsz mp1 (p + i * sz) sz = true).
  { intros i Hi. apply mapped_spec. exists p. split; [unfold mp1; cbn; apply elem_of_app; right; by left|].
    change (arena_size pgsz mp1) with ar. nia. }
  destruct (link_chunks_ok mp1 (Z.to_nat (count - 1)) p m) as (m' & E & Hl & Hb); [done|lia|change (step_of mp1) with sz; nia| |].
  { intros i Hi. apply mapped_header; [done|]. change (step_of mp1) with sz. apply Hmap. lia. }
  change (step_of mp1) with sz in *. rewrite E. cbn [mbind option_bind]. eexists _, m', _. split; [done|].
  replace (S (Z.to_nat (count - 1))) with (Z.to_nat count) in Hl by lia. set (free := chunks sz p (Z.to_nat count)) in *.
  split; [|split; [|done]]; [|intros Ef; pose proof (length_chunks sz p (Z.to_nat count)) as Hl0; fold free in Hl0; rewrite Ef in Hl0; cbn in Hl0; lia].
  assert (Hold : forall h, h ∈ headers s -> h + sz <= p \/ p + ar <= h).
  { intros h Hh. destruct (proj1 (mapped_spec _ _ _) (re_mapped _ _ _ _ R h Hh)) as (q & Hq & Hh1 & Hh2).
    fold sz ar in Hh2. destruct (Hp2 q Hq); fold ar in H; lia. }
  assert (Hnew : forall a, a ∈ free -> p <= a /\ a + sz <= p + ar) by (intros a (i & Hi & ->)%elem_of_chunks; nia).
  constructor; try done.
  - intros q. cbn. intros [Hq|Hq%list_elem_of_singleton]%elem_of_app; [by apply (re_areas _ _ _ _ R)|by subst].
  - cbn [chunk_count mp1]. rewrite (re_count _ _ _ _ R). unfold free. rewrite length_chunks. cbn [length Z.of_nat]. rewrite Z2Nat.id by lia. apply Z.mod_small. lia.
  - apply apart_app; [change (step_of (mk_mpool _ _ _ _ _)) with sz; lia|apply apart_chunks; lia|apply (re_apart _ _ _ _ R)|].
    intros a b Ha%Hnew Hb'%Hold. change (step_of (mk_mpool _ _ _ _ _)) with sz. lia.
  - intros a [(i & Hi & ->)%elem_of_chunks|Ha]%elem_of_app; [apply (Hmap i); lia|]. by apply (mapped_more mp _ p), (re_mapped _ _ _ _ R).
  - intros a v Hd. destruct (data_place mp m s [] a v R Hd) as (h & Hh & Hin). destruct (re_data _ _ _ _ R a v Hd) as [<- Hx]. split; [|done].
    apply Hb. specialize (Hold h Hh). fold sz in Hin. unfold sizeof_memchunk in *. nia.
Qed.

(** * The operations *)

Lemma headers_cons (r : Z) s d : headers (mk_private (r :: s.(owned)) d) = (r - sizeof_memchunk) :: headers s.
Proof. done. Qed.

Lemma swap_elem (a x : Z) (l k : list Z) : x ∈ l ++ a :: k <-> x ∈ (a :: l) ++ k.
Proof. rewrite !elem_of_app, !elem_of_cons. tauto. Qed.

Lemma apart_swap (n a : Z) (l k : list Z) : apart n ((a :: l) ++ k) -> apart n (l ++ a :: k).
Proof.
  intros Ha. eapply apart_sub; [|intros x; apply swap_elem|done]. destruct Ha as [Hn _].
  rewrite <-Permutation_middle. done.
Qed.

(** Handing out the first free chunk. *)
Lemma helper_ok mp m s a free :
  repr mp m s (a :: free) ->
  exists mp', mpool_alloc_helper pgsz mp m = Some (a + sizeof_memchunk, mp') /\ mp'.(chunk_size) = mp.(chunk_size) /\
    mp'.(areas) = mp.(areas) /\ arena_size pgsz mp' = arena_size pgsz mp /\
    new_chunk mp.(chunk_size) (a + sizeof_memchunk) s /\ repr mp' m (mk_private ((a + sizeof_memchunk) :: s.(owned)) s.(data)) free.
Proof.
  intros R. pose proof (re_size _ _ _ _ R) as Hc. destruct (re_chain _ _ _ _ R) as [Eh Hl]. pose proof (chunk_total _ _ _ _ R) as Ht.
  assert (Hin : a ∈ (a :: free) ++ headers s) by (by left). unfold mpool_alloc_helper, read_next. rewrite Eh.
  rewrite (mapped_header mp a Hc (re_mapped _ _ _ _ R a Hin)). cbn [mbind option_bind]. eexists. split; [done|]. do 3 (split; [done|]). split.
  - destruct (chunk_address _ _ _ _ _ R Hin). split; [unfold sizeof_memchunk; lia|]. intros p Hp.
    destruct (re_apart _ _ _ _ R) as [Hnd Hap]. assert (Hh : p - sizeof_memchunk ∈ headers s) by (apply list_elem_of_fmap; by exists p).
    specialize (Hap a (p - sizeof_memchunk) Hin ltac:(apply elem_of_app; by right)). unfold step_of, sizeof_memchunk in *.
    destruct Hap; [|lia|lia]. intros ->. cbn [app] in Hnd. apply NoDup_cons in Hnd as [Hn _]. apply Hn, elem_of_app. by right.
  - rewrite length_app in Ht. destruct R as [R1 R2 R3 R4 R5 R6 R7 R8]. constructor; try done; cbn [chunk_count chunk_size free_chunk_head areas].
    + rewrite R4. cbn [length] in *. unfold u64. rewrite Z.mod_small; lia.
    + rewrite headers_cons. replace (a + sizeof_memchunk - sizeof_memchunk) with a by lia. by apply apart_swap.
    + intros b. rewrite headers_cons. replace (a + sizeof_memchunk - sizeof_memchunk) with a by lia. intros Hb%swap_elem. by apply R7.
    + intros b v Hd. destruct (R8 b v Hd) as (E & p & Hp & Hi). split; [done|]. exists p. split; [by right|done].
Qed.

(** A free chunk, from the list or from a new arena. *)
Lemma obtain_ok mp m s free arena ok :
  repr mp m s free -> (forall p, arena = Some p -> good_arena mp p) ->
  exists b mp' m' free', (if mp.(chunk_count) =? 0 then mpool_extend pgsz arena ok mp m else Some (true, mp, m)) = Some (b, mp', m') /\
    repr mp' m' s free' /\ mp'.(chunk_size) = mp.(chunk_size) /\ (if b : bool then free' <> [] else refused arena ok).
Proof.
  intros R Har. pose proof (re_count _ _ _ _ R) as Hcnt. destruct (Z.eqb_spec (chunk_count mp) 0) as [E0|Hne].
  - destruct free; [|cbn in Hcnt; lia]. destruct arena as [p|]; [|exists false, mp, m, []; by split_and!; [..|left]].
    destruct ok; [|exists false, mp, m, []; by split_and!; [..|right]].
    destruct (extend_ok mp m s p R (Har p eq_refl)) as (mp' & m' & free & E & R' & Hf & Hc). by exists true, mp', m', free.
  - exists true, mp, m, free. split_and!; try done. intros ->. cbn in Hcnt. lia.
Qed.

Lemma alloc_ok mp m s free arena ok :
  repr mp m s free -> (forall p, arena = Some p -> good_arena mp p) ->
  exists r mp' m' s' free', mpool_alloc pgsz arena ok mp m = Some (r, mp', m') /\ spec_step mp.(chunk_size) s (Alloc arena ok) r s' /\
    repr mp' m' s' free' /\ mp'.(chunk_size) = mp.(chunk_size).
Proof.
  intros R Har. destruct (obtain_ok mp m s free arena ok R Har) as (b & mp1 & m1 & f1 & E & R1 & Hc & Hb). unfold mpool_alloc. rewrite E. cbn [mbind option_bind].
  destruct b; cbn [negb].
  - destruct f1 as [|a f1]; [done|]. destruct (helper_ok mp1 m1 s a f1 R1) as (mp2 & E2 & Hc2 & _ & _ & Hn & R2). rewrite E2. cbn [mbind option_bind].
    eexists _, mp2, m1, _, f1. split; [done|]. rewrite Hc in Hn. split; [by apply spec_alloc|]. split; [done|congruence].
  - eexists _, mp1, m1, s, f1. split; [done|]. split; [by eapply spec_refused; [left|]|done].
Qed.

(** Zeros written into the payload of an owned chunk. *)
Lemma zeroed m (r n b : Z) : 0 <= n -> mem_byte (store_bytes m r (replicate (Z.to_nat n) 0)) b = if decide (inside n r b) then 0 else mem_byte m b.
Proof.
  intros Hn. rewrite mem_byte_store_bytes. destruct (Z.leb_spec r b); case_decide as Hi; unfold inside in Hi; try lia.
  - rewrite lookup_replicate_2 by lia. done.
  - rewrite (lookup_ge_None_2 (replicate _ _)) by (rewrite length_replicate; lia). done.
Qed.

(** A change of payload bytes only: the free list and the other chunks stay. *)
Lemma payload_write mp m m' s free (p : Z) (d : gmap Z Z) :
  repr mp m s free -> p ∈ s.(owned) -> (forall b, ~ inside mp.(chunk_size) p b -> mem_byte m' b = mem_byte m b) ->
  (forall a v, d !! a = Some v -> mem_byte m' a = v /\ exists q, q ∈ s.(owned) /\ inside mp.(chunk_size) q a) ->
  repr mp m' (mk_private s.(owned) d) free.
Proof.
  intros R Hp Hm Hd. destruct (re_apart _ _ _ _ R) as [Hnd Hap]. destruct R as [R1 R2 R3 R4 R5 R6 R7 R8]. constructor; try done.
  eapply linked_ext; [|exact R5]. intros a Ha. apply load_le_ext. intros b Hb. apply Hm. unfold inside.
  assert (Hh : p - sizeof_memchunk ∈ headers s) by (apply list_elem_of_fmap; by exists p).
  assert (a <> p - sizeof_memchunk) by (intros ->; apply NoDup_app in Hnd as (_ & Hx & _); by apply (Hx _ Ha)).
  specialize (Hap a (p - sizeof_memchunk) ltac:(apply elem_of_app; by left) ltac:(apply elem_of_app; by right) ltac:(done)).
  unfold step_of, sizeof_memchunk in *. lia.
Qed.

(** The bytes of a zeroed chunk. *)
Lemma zero_lookup (r n a v : Z) (d : gmap Z Z) :
  ((list_to_map ((fun a => (a, 0)) <$> seqZ r n) : gmap Z Z) ∪ d) !! a = Some v -> (inside n r a /\ v = 0) \/ (~ inside n r a /\ d !! a = Some v).
Proof.
  intros [H|[H Hd]]%lookup_union_Some_raw.
  - apply elem_of_list_to_map_2, list_elem_of_fmap in H as (b & [= -> ->] & Hb%elem_of_seqZ). left. unfold inside. split; [lia|done].
  - right. split; [|done]. apply not_elem_of_list_to_map in H. intros Hi. apply H. rewrite <-list_fmap_compose. apply list_elem_of_fmap.
    exists a. split; [done|]. apply elem_of_seqZ. unfold inside in Hi. lia.
Qed.

Lemma calloc_ok mp m s free arena ok :
  repr mp m s free -> (forall p, arena = Some p -> good_arena mp p) ->
  exists r mp' m' s' free', mpool_calloc pgsz arena ok mp m = Some (r, mp', m') /\ spec_step mp.(chunk_size) s (Calloc arena ok) r s' /\
    repr mp' m' s' free' /\ mp'.(chunk_size) = mp.(chunk_size).
Proof.
  intros R Har. destruct (obtain_ok mp m s free arena ok R Har) as (b & mp1 & m1 & f1 & E & R1 & Hc & Hb). unfold mpool_calloc. rewrite E. cbn [mbind option_bind].
  destruct b; cbn [negb]; [|eexists _, mp1, m1, s, f1; split; [done|]; split; [by eapply spec_refused; [right|]|done]].
  destruct f1 as [|a f1]; [done|]. destruct (helper_ok mp1 m1 s a f1 R1) as (mp2 & E2 & Hc2 & _ & _ & Hn & R2). rewrite E2. cbn [mbind option_bind].
  set (r := a + sizeof_memchunk) in *. assert (Hcs : 0 <= chunk_size mp2) by apply R2.
  assert (Hmap : mapped pgsz mp2 r (chunk_size mp2) = true).
  { destruct (proj1 (mapped_spec _ _ _) (re_mapped _ _ _ _ R2 (r - sizeof_memchunk) ltac:(apply elem_of_app; right; by left))) as (q & Hq & H1 & H2).
    apply mapped_spec. exists q. unfold step_of, r, sizeof_memchunk in *. split; [done|lia]. }
  rewrite Hmap. eexists _, mp2, _, _, f1. split; [done|]. rewrite Hc in Hn. split; [by apply spec_calloc|]. split; [|congruence].
  replace (chunk_size mp) with (chunk_size mp2) by congruence.
  apply (payload_write mp2 m1 _ _ f1 r _ R2); [by left| |].
  - intros b Hb'. rewrite zeroed by done. by rewrite decide_False.
  - intros x v [[Hi ->]|[Hi Hd]]%zero_lookup; rewrite zeroed by done.
    + rewrite decide_True by done. split; [done|]. exists r. split; [by left|done].
    + rewrite decide_False by done. apply (re_data _ _ _ _ R2 x v Hd).
Qed.

Lemma pool_write_ok mp m s free (a v p : Z) :
  repr mp m s free -> p ∈ s.(owned) -> inside mp.(chunk_size) p a -> repr mp (set_byte m a v) (mk_private s.(owned) (<[a := u8 v]> s.(data))) free.
Proof.
  intros R Hp Hi. apply (payload_write mp m _ s free p _ R Hp).
  - intros b Hb. rewrite mem_byte_set. destruct (Z.eqb_spec a b) as [->|]; done.
  - intros b w. rewrite lookup_insert, mem_byte_set. case_decide as Heq.
    + subst b. rewrite Z.eqb_refl. intros [= <-]. split; [done|by exists p].
    + rewrite (proj2 (Z.eqb_neq a b) Heq). apply (re_data _ _ _ _ R).
Qed.

(** The header of a chunk that comes back. *)
Lemma free_chunk_apart mp m s free (p : Z) :
  repr mp m s free -> p ∈ s.(owned) ->
  let a := p - sizeof_memchunk in
  let rest := headers (mk_private (filter (fun q => q <> p) s.(owned)) ∅) in
  apart (step_of mp) ((a :: free) ++ rest) /\ (forall x, x ∈ (a :: free) ++ rest -> x ∈ free ++ headers s).
Proof.
  intros R Hp a rest. destruct (re_apart _ _ _ _ R) as [Hnd Hap]. apply NoDup_app in Hnd as (N1 & N2 & N3).
  assert (Ha : a ∈ headers s) by (apply list_elem_of_fmap; by exists p).
  assert (Hrest : forall x, x ∈ rest -> x ∈ headers s /\ x <> a).
  { intros x (q & -> & [Hq Hqo]%list_elem_of_filter)%list_elem_of_fmap. split; [apply list_elem_of_fmap; by exists q|]. unfold a. lia. }
  assert (Hsub : forall x, x ∈ (a :: free) ++ rest -> x ∈ free ++ headers s).
  { intros x. rewrite !elem_of_app, elem_of_cons. intros [[->|Hx]|Hx%Hrest]; [by right|by left|right; apply Hx]. }
  split; [|done]. eapply apart_sub; [|exact Hsub|apply (re_apart _ _ _ _ R)]. cbn [app]. constructor.
  - intros [Hx|Hx%Hrest]%elem_of_app; [by apply (N2 a)|by destruct Hx].
  - apply NoDup_app. split_and!; [done| |].
    + intros x Hx [Hr _]%Hrest. by apply (N2 x Hx).
    + apply NoDup_fmap_2_strong; [intros x y _ _ E; lia|]. apply NoDup_filter. by apply NoDup_fmap_1 in N3.
Qed.

Lemma free_ok mp m s free (p : Z) :
  repr mp m s free -> p ∈ s.(owned) ->
  exists mp' m' free', mpool_free pgsz p mp m = Some (mp', m') /\ mp'.(chunk_size) = mp.(chunk_size) /\
    repr mp' m' (mk_private (filter (fun q => q <> p) s.(owned)) (filter (fun x => ~ inside mp.(chunk_size) p x.1) s.(data))) free'.
Proof.
  intros R Hp. pose proof (free_chunk_apart mp m s free p R Hp) as [Hapart Hsub]. pose proof (chunk_total _ _ _ _ R) as Ht. set (a := p - sizeof_memchunk) in *.
  assert (Ha : a ∈ headers s) by (apply list_elem_of_fmap; by exists p). assert (Ha' : a ∈ free ++ headers s) by (apply elem_of_app; by right).
  unfold mpool_free, write_next. fold a. rewrite (mapped_header mp a (re_size _ _ _ _ R) (re_mapped _ _ _ _ R a Ha')). cbn [mbind option_bind].
  eexists _, _, (a :: free). split; [done|]. split; [done|]. destruct (re_apart _ _ _ _ R) as [Hnd Hap].
  assert (Hne : forall x, x ∈ free -> x <> a) by (intros x Hx ->; apply NoDup_app in Hnd as (_ & Hn & _); by apply (Hn a)).
  constructor; cbn [chunk_count chunk_size free_chunk_head areas]; try apply R; try done.
  - rewrite (re_count _ _ _ _ R). rewrite length_app in Ht. cbn [length] in *. unfold u64. rewrite Z.mod_small; lia.
  - split; [done|]. rewrite load_store_same. destruct free as [|b free]; [done|]. destruct (re_chain _ _ _ _ R) as [Eb Hl].
    destruct (chunk_address _ _ _ _ b R ltac:(by left)) as [Hb1 Hb2]. pose proof (re_size _ _ _ _ R).
    rewrite Eb, Z.mod_small by (change (8 * Z.of_nat 8) with 64; unfold step_of, sizeof_memchunk in *; lia).
    eapply (linked_ext m); [|by split]. intros x Hx. apply load_store_disjoint. specialize (Hap x a ltac:(apply elem_of_app; by left) Ha' (Hne x Hx)).
    unfold step_of, sizeof_memchunk in Hap. lia.
  - intros x Hx%Hsub. apply (re_mapped _ _ _ _ R x Hx).
  - intros x v [Hd Hi]%map_lookup_filter_Some. destruct (re_data _ _ _ _ R x v Hd) as (E & q & Hq & Hqi). cbn [fst] in Hi.
    assert (Hqp : q <> p) by (by intros ->). split; [|exists q; split; [by apply list_elem_of_filter|done]].
    rewrite mem_byte_store_le, <-E. replace ((a <=? x) && (x <? a + Z.of_nat 8)) with false; [done|]. symmetry. apply andb_false_iff. rewrite Z.leb_gt, Z.ltb_ge.
    assert (Hqh : q - sizeof_memchunk ∈ free ++ headers s) by (apply elem_of_app; right; apply list_elem_of_fmap; by exists q).
    specialize (Hap (q - sizeof_memchunk) a Hqh Ha' ltac:(unfold a; lia)). unfold inside, step_of, sizeof_memchunk in *. lia.
Qed.

(** * Creation *)

(** The header of the last chunk does not matter. *)
Lemma linked_last m (sz cur v : Z) (n : nat) :
  8 <= sz -> (0 < n)%nat -> linked m cur (chunks sz cur n) -> linked (store_le 8 m (cur + (Z.of_nat n - 1) * sz) v) cur (chunks sz cur n).
Proof.
  intros Hsz. revert cur. induction n as [|[|n] IH]; intros cur Hn; [lia|done|]. cbn [chunks linked] in *. intros [_ Hl]. split; [done|].
  rewrite load_store_disjoint by nia. specialize (IH (cur + sz) ltac:(lia)). destruct Hl as [E Hl].
  replace (cur + (Z.of_nat (S (S n)) - 1) * sz) with (cur + sz + (Z.of_nat (S n) - 1) * sz) by lia. rewrite E. apply IH. by split.
Qed.

Definition empty_private : private := mk_private [] ∅.

(** A pool that can hold a chunk is created, unless the system refuses. *)
Lemma pool_create_ok malloc_ok arena (pool_size chunk : Z) m :
  0 <= chunk <= pool_size -> pool_size < 2 ^ 64 - 8 ->
  (forall p n, arena = Some p -> n = (adjusted_size pool_size chunk + pgsz - 1) / pgsz * pgsz -> 0 < p /\ p + n <= 2 ^ 64) ->
  exists r m', mpool_create pgsz malloc_ok arena pool_size chunk m = Some (r, m') /\
    match r with
    | None => m' = m
    | Some mp => mp.(chunk_size) = chunk /\ exists free, repr mp m' empty_private free
    end.
Proof.
  intros Hch Hps Har. unfold mpool_create. destruct malloc_ok; [|by exists None, m]. cbn [negb].
  destruct (Z.ltb_spec (SIZE_MAX - sizeof_memchunk) chunk); [by exists None, m|].
  set (ps := adjusted_size pool_size chunk) in *. assert (Hadj : sizeof_memchunk + chunk <= ps < 2 ^ 64).
  { unfold ps, adjusted_size, sizeof_memchunk, u64. destruct (Z.ltb_spec pool_size (chunk + 8)); [rewrite Z.mod_small by lia|]; lia. }
  destruct (Z.ltb_spec (SIZE_MAX - pgsz + 1) ps); [by exists None, m|]. set (pc := (ps + pgsz - 1) / pgsz) in *.
  destruct (Z.ltb_spec (SIZE_MAX / pgsz) pc) as [|Hpc]; [by exists None, m|]. destruct arena as [p|]; [|by exists None, m].
  destruct (Har p _ eq_refl eq_refl) as [Hp0 Hp1].
  set (sz := sizeof_memchunk + chunk) in *. set (count := ps / sz). set (mp := mk_mpool _ _ _ _ _).
  assert (Hsz : 8 <= sz) by (unfold sz, sizeof_memchunk; lia). assert (Hcount : 1 <= count) by (apply Z.div_le_lower_bound; lia).
  assert (Hfit : count * sz <= ps) by (rewrite Z.mul_comm; apply Z.mul_div_le; lia).
  assert (Hround : ps <= pc * pgsz) by (pose proof (Z.div_mod (ps + pgsz - 1) pgsz ltac:(lia)); pose proof (Z.mod_pos_bound (ps + pgsz - 1) pgsz Hpg); unfold pc; lia).
  assert (Hmax : pc * pgsz < 2 ^ 64) by (pose proof (Z.mul_div_le SIZE_MAX pgsz Hpg); unfold SIZE_MAX in *; nia).
  assert (Hmap : forall i, 0 <= i < count -> mapped pgsz mp (p + i * sz) sz = true).
  { intros i Hi. apply mapped_spec. exists p. split; [by left|]. change (arena_size pgsz mp) with (pc * pgsz). nia. }
  unfold link_loop. rewrite (proj2 (Z.eqb_neq count 0)) by lia.
  destruct (link_chunks_ok mp (Z.to_nat (count - 1)) p m) as (m1 & E & Hl & _); [apply Hch|lia|change (step_of mp) with sz; nia| |].
  { intros i Hi. apply mapped_header; [apply Hch|]. change (step_of mp) with sz. apply Hmap. lia. }
  change (step_of mp) with sz in *. rewrite E. cbn [mbind option_bind]. unfold write_next. rewrite Z2Nat.id by lia.
  rewrite (mapped_header mp (p + (count - 1) * sz)) by (apply Hch || (change (step_of mp) with sz; apply Hmap; lia)). cbn [mbind option_bind].
  eexists (Some mp), _. split; [done|]. split; [done|]. replace (S (Z.to_nat (count - 1))) with (Z.to_nat count) in Hl by lia.
  exists (chunks sz p (Z.to_nat count)). constructor; cbn [headers empty_private owned fmap list_fmap]; rewrite ?app_nil_r; try done; try apply Hch.
  - change (arena_size pgsz mp) with (pc * pgsz). change (step_of mp) with sz. lia.
  - intros q [-> |Hq]%elem_of_cons; [|by apply not_elem_of_nil in Hq]. done.
  - rewrite length_chunks, Z2Nat.id by lia. done.
  - replace (count - 1) with (Z.of_nat (Z.to_nat count) - 1) by lia. apply linked_last; [done|lia|done].
  - apply apart_chunks. lia.
  - intros a (i & Hi & ->)%elem_of_chunks. apply Hmap. lia.
Qed.

(** * The refinement *)

Lemma pool_step_ok mp m s free op :
  repr mp m s free -> legal mp s op ->
  exists r mp' m' s' free', pool_do op mp m = Some (r, mp', m') /\ spec_step mp.(chunk_size) s op r s' /\ repr mp' m' s' free' /\ mp'.(chunk_size) = mp.(chunk_size).
Proof.
  intros R L. destruct op as [arena ok|arena ok|p|a v]; cbn [pool_do legal] in *.
  - by apply (alloc_ok mp m s free).
  - by apply (calloc_ok mp m s free).
  - destruct (free_ok mp m s free p R L) as (mp' & m' & free' & -> & Hc & R'). cbn [mbind option_bind].
    eexists _, mp', m', _, free'. split; [done|]. split; [by apply spec_free|done].
  - destruct L as (p & Hp & Hi). eexists _, mp, _, _, free. split; [done|]. split; [by eapply spec_write|]. split; [by eapply pool_write_ok|done].
Qed.

Lemma spec_det (n r : Z) s op s1 s2 : spec_step n s op r s1 -> spec_step n s op r s2 -> s1 = s2.
Proof.
  intros H1 H2. destruct H1; inversion H2; subst; try done;
    repeat match goal with H : new_chunk _ 0 _ |- _ => by destruct H | H : _ \/ _ |- _ => destruct H; try done end.
Qed.

(** A pool with chunks of [n] bytes and what its client owns, after any legal use. *)
Inductive reach (n : Z) : mpool_t -> memory_t -> private -> Prop :=
| reach_create malloc_ok arena pool_size m mp m' :
    0 <= n <= pool_size -> pool_size < 2 ^ 64 - 8 ->
    (forall p k, arena = Some p -> k = (adjusted_size pool_size n + pgsz - 1) / pgsz * pgsz -> 0 < p /\ p + k <= 2 ^ 64) ->
    mpool_create pgsz malloc_ok arena pool_size n m = Some (Some mp, m') -> reach n mp m' empty_private
| reach_step mp m s op r mp' m' s' :
    reach n mp m s -> legal mp s op -> pool_do op mp m = Some (r, mp', m') -> spec_step n s op r s' -> reach n mp' m' s'.

Lemma reach_repr (n : Z) mp m s : reach n mp m s -> mp.(chunk_size) = n /\ exists free, repr mp m s free.
Proof.
  induction 1 as [mo arena ps m mp m' Hn Hps Har E|mp m s op r mp' m' s' _ [<- [free R]] L E Hs].
  - destruct (pool_create_ok mo arena ps n m Hn Hps Har) as (r & m1 & E1 & Hr). rewrite E in E1. by injection E1 as <- <-.
  - destruct (pool_step_ok mp m s free op R L) as (r0 & mp0 & m0 & s0 & f0 & E0 & Hs0 & R0 & Hc). rewrite E in E0. injection E0 as <- <- <-.
    split; [done|]. exists f0. by rewrite (spec_det _ _ _ _ _ _ Hs Hs0).
Qed.

(** C18. The pool refines private memory. In a pool created large enough for one
    chunk, and after any sequence of allocations, returns of owned chunks and writes
    to owned bytes, the next such operation succeeds without touching memory outside
    of the arenas; an allocation returns a chunk that overlaps none of the owned
    ones, or fails because the system refused to grow the pool; the owned chunks lie
    in the arenas; and every byte a client wrote, or got zeroed, has kept its value. *)
Theorem mpool_refines (n : Z) mp m s op :
  reach n mp m s -> legal mp s op ->
  exists r mp' m' s', pool_do op mp m = Some (r, mp', m') /\ spec_step n s op r s' /\ reach n mp' m' s' /\
    (forall a v, s'.(data) !! a = Some v -> mem_byte m' a = v) /\
    (forall p, p ∈ s'.(owned) -> mapped pgsz mp' p n = true).
Proof.
  intros Hr L. destruct (reach_repr n mp m s Hr) as [<- [free R]].
  destruct (pool_step_ok mp m s free op R L) as (r & mp' & m' & s' & free' & E & Hs & R' & Hc). exists r, mp', m', s'.
  split_and!; [done|done|by eapply reach_step|intros a v Hd; by apply (re_data _ _ _ _ R')|]. rewrite <-Hc.
  intros p Hp. assert (Hh : p - sizeof_memchunk ∈ headers s') by (apply list_elem_of_fmap; by exists p).
  destruct (proj1 (mapped_spec _ _ _) (re_mapped _ _ _ _ R' _ ltac:(apply elem_of_app; right; exact Hh))) as (q & Hq & H1 & H2).
  apply mapped_spec. exists q. unfold step_of, sizeof_memchunk in *. split; [done|lia].
Qed.
End Pool.

(** A pool of two chunks of 24 bytes: the third allocation grows it. *)
Lemma mpool_refines_witness :
  exists mp m, mpool_create 4096 true (Some 4096) 64 24 (mk_memory ∅ 0) = Some (Some mp, m) /\
  exists r mp' m' s', pool_do 4096 (Calloc None true) mp m = Some (r, mp', m') /\ spec_step 24 empty_private (Calloc None true) r s' /\
    reach 4096 24 mp' m' s' /\ (forall a v, s'.(data) !! a = Some v -> mem_byte m' a = v) /\ (forall p, p ∈ s'.(owned) -> mapped 4096 mp' p 24 = true).
Proof.
  destruct (mpool_create 4096 true (Some 4096) 64 24 (mk_memory ∅ 0)) as [[[mp|] m]|] eqn:E; [|discriminate E|discriminate E].
  exists mp, m. split; [reflexivity|]. apply (mpool_refines 4096 eq_refl 24 mp m empty_private); [|intros p Hp; discriminate Hp].
  refine (reach_create 4096 24 true (Some 4096) 64 _ mp m _ _ _ E); [lia|lia|]. intros p k [= <-] ->. vm_compute. split; [reflexivity|intros H; discriminate H].
Defined.

(** A pool smaller than its chunk: the count of chunks is zero, and the loop that
    links them runs out of the arena. *)
Example create_too_small : mpool_create 4096 true (Some 4096) 16 24 (mk_memory ∅ 0) = None.
Proof. reflexivity. Qed.

(** The allocation that grows the pool, and the order in which chunks come back. *)
Example pool_grows :
  (let? (mp, m) := mpool_create 4096 true (Some 4096) 64 24 (mk_memory ∅ 0) in
   let? mp := mp in
   let? (a, mp, m) := mpool_alloc 4096 None true mp m in
   let? (b, mp, m) := mpool_alloc 4096 None true mp m in
   let? (c, mp, m) := mpool_alloc 4096 None true mp m in
   let? (d, mp, m) := mpool_alloc 4096 (Some 65536) true mp m in
   let? (mp, m) := mpool_free 4096 a mp m in
   let? (e, mp, m) := mpool_alloc 4096 None true mp m in
   Some (a, b, c, d, e, mp.(chunk_count))) = Some (4104, 4136, 0, 65544, 4104, 127).
Proof. vm_compute. reflexivity. Qed.
