(* ===== verification/Devices.v ===== *)
(** Devices of system emulation: the interrupt controller (plic.c), the serial port
    (uart.c) and the clock (rtc.c), how their interrupt lines reach the hart
    (system.c), their place in the address space (the MMIO macros of system.h), and
    the check for interrupts in the run loop (emulate.c). Machines without virtio
    disks, and without SDL. [calloc] in the constructors is taken to succeed. *)

From stdpp Require Import base list option numbers gmap.
From Stdlib Require Import ZArith Lia Bool.
From S2P Require Import Prelude Bits Alu Mem State Trap.
#[local] Open Scope Z_scope.

(** * The interrupt controller *)

Definition PLIC_INTR_PENDING : Z := 0x1000.
Definition PLIC_INTR_ENABLE : Z := 0x2000.
Definition PLIC_INTR_PRIORITY_THRESHOLD : Z := 0x200000.
Definition PLIC_INTR_CLAIM_OR_COMPLETE : Z := 0x200004.

Definition SIP_SEIP : Z := 1 ≪ 9.

(** The hart it interrupts is an argument of [plic_update_interrupts]. *)
Record plic_t : Type := mk_plic { masked : Z; ip : Z; ie : Z; active : Z }.

Definition plic_new : plic_t := mk_plic 0 0 0 0.

Definition set_active (v : Z) (p : plic_t) : plic_t := mk_plic p.(masked) p.(ip) p.(ie) v.

Definition plic_update_interrupts (p : plic_t) (rv : riscv) : plic_t * riscv :=
  let ip := p.(ip) .| (p.(active) .& not32 p.(masked)) in
  let masked := p.(masked) .| p.(active) in
  let sip := csr_val rv csr_sip in
  (mk_plic masked ip p.(ie) p.(active),
   set_csr csr_sip (if truthy (ip .& p.(ie)) then sip .| SIP_SEIP else sip .& not32 SIP_SEIP) rv).

Definition plic_read (addr : Z) (p : plic_t) : Z * plic_t :=
  if addr =? PLIC_INTR_PENDING then (p.(ip), p)
  else if addr =? PLIC_INTR_ENABLE then (p.(ie), p)
  else if addr =? PLIC_INTR_PRIORITY_THRESHOLD then (0, p)
  else if addr =? PLIC_INTR_CLAIM_OR_COMPLETE then
    let intr_candidate := p.(ip) .& p.(ie) in
    if truthy intr_candidate then
      let i := rv_ctz intr_candidate in
      (i, mk_plic p.(masked) (p.(ip) .& not32 (shl32 1 i)) p.(ie) p.(active))
    else (0, p)
  else (0, p).

(** [1U << value] is undefined from 32 on. *)
Definition plic_write (addr value : Z) (p : plic_t) : option plic_t :=
  if addr =? PLIC_INTR_ENABLE then Some (mk_plic p.(masked) p.(ip) (value .& not32 1) p.(active))
  else if addr =? PLIC_INTR_CLAIM_OR_COMPLETE then
    if 32 <=? value then None
    else if truthy (p.(ie) .& shl32 1 value) then
      Some (mk_plic (p.(masked) .& not32 (shl32 1 value)) p.(ip) p.(ie) p.(active))
    else Some p
  else Some p.

(** * The serial port *)

Definition IRQ_UART_BIT : Z := 1 ≪ 1.
Definition U8250_INTR_THRE : Z := 1.

Definition U8250_THR_RBR_DLL : Z := 0.
Definition U8250_IER_DLH : Z := 1.
Definition U8250_IIR_FCR : Z := 2.
Definition U8250_LCR : Z := 3.
Definition U8250_MCR : Z := 4.
Definition U8250_LSR : Z := 5.
Definition U8250_MSR : Z := 6.

(** The descriptors of the host are left out. *)
Record u8250_state_t : Type := mk_uart {
  dll : Z; dlh : Z; lcr : Z; ier : Z; current_intr : Z; pending_intrs : Z; mcr : Z; in_ready : bool }.

Definition u8250_new : u8250_state_t := mk_uart 0 0 0 0 0 0 0 false.

Definition set_intrs (current pending : Z) (u : u8250_state_t) : u8250_state_t :=
  mk_uart u.(dll) u.(dlh) u.(lcr) u.(ier) current pending u.(mcr) u.(in_ready).
Definition set_in_ready (b : bool) (u : u8250_state_t) : u8250_state_t :=
  mk_uart u.(dll) u.(dlh) u.(lcr) u.(ier) u.(current_intr) u.(pending_intrs) u.(mcr) b.

Definition ilog2 (x : Z) : Z := u8 (31 - rv_clz x).

Definition u8250_update_interrupts (u : u8250_state_t) : u8250_state_t :=
  let pending := if u.(in_ready) then u.(pending_intrs) .| 1 else u.(pending_intrs) .& u8 (Z.lnot 1) in
  let pending := pending .& u.(ier) in
  set_intrs (if truthy pending then ilog2 pending else u.(current_intr)) pending u.

(** What the terminal answers: the polls, the byte read (0 if there is none), and
    the character after a Ctrl-a. *)
Record console : Type := mk_console { poll_in : bool; read_in : Z; poll_again : bool; getchar : Z }.

Definition u8250_check_ready (poll : bool) (u : u8250_state_t) : u8250_state_t :=
  if u.(in_ready) then u else if poll then set_in_ready true u else u.

(** [None]: Ctrl-a and x end the process. *)
Definition u8250_handle_in (con : console) (u : u8250_state_t) : option (Z * u8250_state_t) :=
  let u := u8250_check_ready con.(poll_in) u in
  if negb u.(in_ready) then Some (0, u)
  else
    let value := u8 con.(read_in) in
    let u := set_in_ready false u in
    if value =? 1 then
      let u := u8250_check_ready con.(poll_again) u in
      if con.(getchar) =? 120 then None else Some (value, u)
    else Some (value, u).

Definition DLAB (u : u8250_state_t) : bool := truthy (u.(lcr) .& (1 ≪ 7)).

Definition u8250_read (con : console) (addr : Z) (u : u8250_state_t) : option (Z * u8250_state_t) :=
  if addr =? U8250_THR_RBR_DLL then if DLAB u then Some (u.(dll), u) else u8250_handle_in con u
  else if addr =? U8250_IER_DLH then Some (if DLAB u then u.(dlh) else u.(ier), u)
  else if addr =? U8250_IIR_FCR then
    let ret := u8 ((u.(current_intr) ≪ 1) .| (if truthy u.(pending_intrs) then 0 else 1)) in
    let u := if u.(current_intr) =? U8250_INTR_THRE
             then set_intrs u.(current_intr) (u.(pending_intrs) .& u8 (Z.lnot (1 ≪ u.(current_intr)))) u else u in
    Some (ret, u)
  else if addr =? U8250_LCR then Some (u.(lcr), u)
  else if addr =? U8250_MCR then Some (u.(mcr), u)
  else if addr =? U8250_LSR then Some (0x60 .| (if u.(in_ready) then 1 else 0), u)
  else if addr =? U8250_MSR then Some (0xb0, u)
  else Some (0, u).

(** The bytes sent to the terminal come with the new state. *)
Definition u8250_write (addr value : Z) (u : u8250_state_t) : list Z * u8250_state_t :=
  let v := u8 value in
  if addr =? U8250_THR_RBR_DLL then
    if DLAB u then ([], mk_uart v u.(dlh) u.(lcr) u.(ier) u.(current_intr) u.(pending_intrs) u.(mcr) u.(in_ready))
    else ([v], set_intrs u.(current_intr) (u.(pending_intrs) .| (1 ≪ U8250_INTR_THRE)) u)
  else if addr =? U8250_IER_DLH then
    if DLAB u then ([], mk_uart u.(dll) v u.(lcr) u.(ier) u.(current_intr) u.(pending_intrs) u.(mcr) u.(in_ready))
    else ([], mk_uart u.(dll) u.(dlh) u.(lcr) v u.(current_intr) u.(pending_intrs) u.(mcr) u.(in_ready))
  else if addr =? U8250_LCR then ([], mk_uart u.(dll) u.(dlh) v u.(ier) u.(current_intr) u.(pending_intrs) u.(mcr) u.(in_ready))
  else if addr =? U8250_MCR then ([], mk_uart u.(dll) u.(dlh) u.(lcr) u.(ier) u.(current_intr) u.(pending_intrs) v u.(in_ready))
  else ([], u).

(** * The clock *)

Definition IRQ_RTC_BIT : Z := 1 ≪ 2.

Definition RTC_TIME_LOW : Z := 0x00.
Definition RTC_TIME_HIGH : Z := 0x04.
Definition RTC_ALARM_LOW : Z := 0x08.
Definition RTC_ALARM_HIGH : Z := 0x0c.
Definition RTC_IRQ_ENABLED : Z := 0x10.
Definition RTC_CLEAR_ALARM : Z := 0x14.
Definition RTC_ALARM_STATUS : Z := 0x18.
Definition RTC_CLEAR_INTERRUPT : Z := 0x1c.

(** The device, with the static variable [now_nsec]. *)
Record rtc_t : Type := mk_rtc {
  time_low : Z; time_high : Z; alarm_low : Z; alarm_high : Z; irq_enabled : Z; alarm_status : Z; interrupt_status : Z;
  clock_offset : Z; now_nsec : Z }.

(** [clock_gettime]: seconds and nanoseconds. The product with [1e9] is exact for
    seconds below 2^32: it is a multiple of 2^9. *)
Definition rtc_get_now_nsec (ts : Z * Z) (r : rtc_t) : Z := u64 (ts.1 * 1000000000 + ts.2 + r.(clock_offset)).

Definition LOW32 : Z := Z.ones 32.

Definition rtc_read (ts : Z * Z) (addr : Z) (r : rtc_t) : Z * rtc_t :=
  if addr =? RTC_TIME_LOW then
    let now := rtc_get_now_nsec ts r in
    let low := now .& LOW32 in
    (low, mk_rtc low r.(time_high) r.(alarm_low) r.(alarm_high) r.(irq_enabled) r.(alarm_status) r.(interrupt_status) r.(clock_offset) now)
  else if addr =? RTC_TIME_HIGH then
    let high := r.(now_nsec) ≫ 32 in
    (high, mk_rtc r.(time_low) high r.(alarm_low) r.(alarm_high) r.(irq_enabled) r.(alarm_status) r.(interrupt_status) r.(clock_offset) r.(now_nsec))
  else if addr =? RTC_ALARM_LOW then (r.(alarm_low), r)
  else if addr =? RTC_ALARM_HIGH then (r.(alarm_high), r)
  else if addr =? RTC_ALARM_STATUS then (r.(alarm_status), r)
  else (0, r).

Definition set_offset (off now : Z) (r : rtc_t) : rtc_t :=
  mk_rtc r.(time_low) r.(time_high) r.(alarm_low) r.(alarm_high) r.(irq_enabled) r.(alarm_status) r.(interrupt_status) off now.

Definition rtc_write (ts : Z * Z) (addr value : Z) (r : rtc_t) : rtc_t :=
  let '(mk_rtc tl th al ah ie ast ist off now) := r in
  if addr =? RTC_TIME_LOW then
    let now := rtc_get_now_nsec ts r in
    set_offset (u64 (off + (value - (now .& LOW32)))) now r
  else if addr =? RTC_TIME_HIGH then set_offset (u64 (off + ((value ≪ 32) - (now .& (LOW32 ≪ 32))))) now r
  else if addr =? RTC_ALARM_LOW then mk_rtc tl th value ah ie ast ist off now
  else if addr =? RTC_ALARM_HIGH then mk_rtc tl th al value ie ast ist off now
  else if addr =? RTC_IRQ_ENABLED then mk_rtc tl th al ah value ast ist off now
  else if addr =? RTC_CLEAR_ALARM then mk_rtc tl th al ah ie 0 ist off now
  else if addr =? RTC_CLEAR_INTERRUPT then mk_rtc tl th al ah ie ast 0 off now
  else r.

Definition rtc_new (ts : Z * Z) : rtc_t :=
  let r := mk_rtc 0 0 0 0 0 0 0 0 0 in
  let now := rtc_get_now_nsec ts r in
  mk_rtc (now .& LOW32) (now ≫ 32) 0 0 0 0 0 0 now.

Definition rtc_alarm_fire (r : rtc_t) (now : Z) : bool := truthy r.(irq_enabled) && ((r.(alarm_high) ≪ 32) .| r.(alarm_low) <=? now).

(** * The machine *)

(** The hart and its devices; [attr_timer] is [attr->timer], the time of the next
    timer interrupt. *)
Record soc : Type := mk_soc {
  cpu : riscv;
  is_trapped : bool;
  plic : plic_t;
  uart : u8250_state_t;
  rtc : rtc_t;
  attr_timer : Z;
  peripheral_update_ctr : Z }.

Definition set_cpu (x : riscv) (s : soc) : soc := mk_soc x s.(is_trapped) s.(plic) s.(uart) s.(rtc) s.(attr_timer) s.(peripheral_update_ctr).
Definition set_plic (x : plic_t) (s : soc) : soc := mk_soc s.(cpu) s.(is_trapped) x s.(uart) s.(rtc) s.(attr_timer) s.(peripheral_update_ctr).
Definition set_uart (x : u8250_state_t) (s : soc) : soc := mk_soc s.(cpu) s.(is_trapped) s.(plic) x s.(rtc) s.(attr_timer) s.(peripheral_update_ctr).
Definition set_rtc (x : rtc_t) (s : soc) : soc := mk_soc s.(cpu) s.(is_trapped) s.(plic) s.(uart) x s.(attr_timer) s.(peripheral_update_ctr).
Definition set_ctr (x : Z) (s : soc) : soc := mk_soc s.(cpu) s.(is_trapped) s.(plic) s.(uart) s.(rtc) s.(attr_timer) x.

Definition set_trapped (x : bool) (s : soc) : soc := mk_soc s.(cpu) x s.(plic) s.(uart) s.(rtc) s.(attr_timer) s.(peripheral_update_ctr).

Definition soc_plic_update (s : soc) : soc :=
  let (p, rv) := plic_update_interrupts s.(plic) s.(cpu) in set_plic p (set_cpu rv s).

(** [plic->active |= bit] or [&= ~bit], then the update. *)
Definition drive_line (bit : Z) (up : bool) (s : soc) : soc :=
  let a := s.(plic).(active) in
  soc_plic_update (set_plic (set_active (if up then a .| bit else a .& not32 bit) s.(plic)) s).

Definition emu_update_uart_interrupts (s : soc) : soc :=
  let s := set_uart (u8250_update_interrupts s.(uart)) s in
  drive_line IRQ_UART_BIT (truthy s.(uart).(pending_intrs)) s.

Definition emu_update_rtc_interrupts (s : soc) : soc := drive_line IRQ_RTC_BIT (truthy s.(rtc).(interrupt_status)) s.

(** ** Memory-mapped registers *)

Definition MMIO_READ (con : console) (ts : Z * Z) (addr : Z) (s : soc) : option (Z * soc) :=
  if addr ≫ 28 =? 0xF then
    let hi := (addr ≫ 20) .& Z.ones 8 in
    if (hi =? 0x0) || (hi =? 0x2) then
      let (v, p) := plic_read (addr .& 0x3FFFFFF) s.(plic) in
      Some (v, soc_plic_update (set_plic p s))
    else if hi =? 0x40 then
      let? (v, u) := u8250_read con (addr .& 0xFFFFF) s.(uart) in
      Some (v, emu_update_uart_interrupts (set_uart u s))
    else if hi =? 0x41 then
      let (v, r) := rtc_read ts (addr .& 0xFFFFF) s.(rtc) in
      Some (v, emu_update_rtc_interrupts (set_rtc r s))
    else None
  else None.

Definition MMIO_WRITE (ts : Z * Z) (addr val : Z) (s : soc) : option (list Z * soc) :=
  if addr ≫ 28 =? 0xF then
    let hi := (addr ≫ 20) .& Z.ones 8 in
    if (hi =? 0x0) || (hi =? 0x2) then
      let? p := plic_write (addr .& 0x3FFFFFF) val s.(plic) in
      Some ([], soc_plic_update (set_plic p s))
    else if hi =? 0x40 then
      let (out, u) := u8250_write (addr .& 0xFFFFF) val s.(uart) in
      Some (out, emu_update_uart_interrupts (set_uart u s))
    else if hi =? 0x41 then Some ([], emu_update_rtc_interrupts (set_rtc (rtc_write ts (addr .& 0xFFFFF) val s.(rtc)) s))
    else None
  else None.

(** ** Interrupts in the run loop *)

Definition RV_INT_STI : Z := 1 ≪ 5.
Definition SUPERVISOR_SW_INTR : Z := (1 ≪ 31) .| 1.
Definition SUPERVISOR_TIMER_INTR : Z := (1 ≪ 31) .| 5.
Definition SUPERVISOR_EXTERNAL_INTR : Z := (1 ≪ 31) .| 9.

Definition rv_has_plic_trap (rv : riscv) : bool :=
  (truthy (csr_val rv csr_sstatus .& SSTATUS_SIE) || (rv.(priv_mode) =? 0)) && truthy (csr_val rv csr_sip .& csr_val rv csr_sie).

(** The devices, every 65th time. *)
Definition poll_devices (poll : bool) (ts : Z * Z) (s : soc) : soc :=
  let ctr := s.(peripheral_update_ctr) in
  let s := set_ctr (u32 (ctr - 1)) s in
  if negb (ctr =? 0) then s
  else
    let s := set_ctr 64 s in
    let s := set_uart (u8250_check_ready poll s.(uart)) s in
    let s := if s.(uart).(in_ready) then emu_update_uart_interrupts s else s in
    if truthy s.(rtc).(irq_enabled) && rtc_alarm_fire s.(rtc) (rtc_get_now_nsec ts s.(rtc)) then
      let '(mk_rtc tl th al ah ie _ _ off now) := s.(rtc) in
      emu_update_rtc_interrupts (set_rtc (mk_rtc tl th al ah ie 1 1 off now) s)
    else s.

(** The cause of the trap that is taken, if any. *)
Definition interrupt_cause (rv : riscv) : option Z :=
  if rv_has_plic_trap rv then
    let intr_idx := ilog2 (csr_val rv csr_sip .& csr_val rv csr_sie) in
    if intr_idx =? SUPERVISOR_SW_INTR .& 0xf then Some SUPERVISOR_SW_INTR
    else if intr_idx =? SUPERVISOR_TIMER_INTR .& 0xf then Some SUPERVISOR_TIMER_INTR
    else if intr_idx =? SUPERVISOR_EXTERNAL_INTR .& 0xf then Some SUPERVISOR_EXTERNAL_INTR
    else None
  else None.

(** [SET_CAUSE_AND_TVAL_THEN_TRAP] with value 0; the handler is an argument. *)
Definition interrupt_trap (on_trap : soc -> option soc) (cause : Z) (s : soc) : option soc :=
  let s := set_trapped true s in
  let rv := s.(cpu) in
  on_trap (set_cpu (if RV_PRIV_IS_U_OR_S_MODE rv then set_csr csr_stval 0 (set_csr csr_scause cause rv)
                    else set_csr csr_mtval 0 (set_csr csr_mcause cause rv)) s).

Definition rv_check_interrupt (on_trap : soc -> option soc) (poll : bool) (ts : Z * Z) (s : soc) : option soc :=
  let s := poll_devices poll ts s in
  let rv := s.(cpu) in
  let sip := csr_val rv csr_sip in
  let s := set_cpu (set_csr csr_sip (if s.(attr_timer) <? rv.(timer) then sip .| RV_INT_STI else sip .& not32 RV_INT_STI) rv) s in
  match interrupt_cause s.(cpu) with
  | None => Some s
  | Some cause => interrupt_trap on_trap cause s
  end.
