(* ===== verification/DevicesSpec.v ===== *)
(** The devices: every interrupt is claimed once until it is completed, the clock
    can be set, and which interrupt the hart takes. *)

From stdpp Require Import base list option numbers gmap.
From Stdlib Require Import ZArith Lia Bool.
From S2P Require Import Prelude Bits Alu AluSpec Mem State Trap Samples Devices.
#[local] Open Scope Z_scope.

(** * Words of bits *)

Abbreviation bit := Z.testbit.

Lemma bit_not (x i : Z) : 0 <= i < 32 -> bit (not32 x) i = negb (bit x i).
Proof. intros Hi. unfold not32, u32. by rewrite Z.mod_pow2_bits_low, Z.lnot_spec by lia. Qed.

Lemma bit_shl (i k : Z) : 0 <= i < 32 -> 0 <= k < 32 -> bit (shl32 1 i) k = (k =? i).
Proof.
  intros Hi Hk. unfold shl32, u32. rewrite Z.mod_pow2_bits_low, Z.shiftl_1_l by lia. destruct (Z.eqb_spec k i) as [->|].
  - apply Z.pow2_bits_true. lia.
  - apply Z.pow2_bits_false. lia.
Qed.

(** The lowest bit of a word that is not zero. *)
Lemma ctz_bit (v : Z) : is_u32 v -> truthy v = true -> 0 <= rv_ctz v < 32 /\ bit v (rv_ctz v) = true /\ forall j, 0 <= j < rv_ctz v -> bit v j = false.
Proof.
  intros Hv Ht. unfold truthy in Ht. apply negb_true_iff, Z.eqb_neq in Ht. destruct v as [|q|]; [done| |destruct Hv; lia].
  cbn [rv_ctz]. destruct (ctz_pos_spec q) as (H1 & H2 & H3).
  split; [|done]. split; [done|]. destruct (Z.lt_ge_cases (ctz_pos q) 32); [done|]. by rewrite u32_testbit_high in H2.
Qed.

Lemma truthy_bits (v : Z) : is_u32 v -> truthy v = true <-> exists i, 0 <= i < 32 /\ bit v i = true.
Proof.
  intros Hv. split.
  - intros Ht. destruct (ctz_bit v Hv Ht) as (H1 & H2 & _). by exists (rv_ctz v).
  - intros (i & _ & Hi). unfold truthy. apply negb_true_iff, Z.eqb_neq. intros ->. by rewrite Z.bits_0 in Hi.
Qed.

(** * The interrupt controller *)

(** A source that asks for service and is enabled. *)
Definition requests (p : plic_t) (i : Z) : Prop := 0 <= i < 32 /\ bit p.(ip) i = true /\ bit p.(ie) i = true.

(** Sources claimed and not yet completed are kept beside the controller. *)
Inductive plic_step : plic_t * gset Z -> plic_t * gset Z -> Prop :=
| plic_line a p S : is_u32 a -> plic_step (p, S) (set_active a p, S)
| plic_update rv p S : plic_step (p, S) (fst (plic_update_interrupts p rv), S)
| plic_claim i p p' S : plic_read PLIC_INTR_CLAIM_OR_COMPLETE p = (i, p') -> plic_step (p, S) (p', if i =? 0 then S else {[i]} ∪ S)
| plic_complete i p p' S : i ∈ S -> plic_write PLIC_INTR_CLAIM_OR_COMPLETE i p = Some p' ->
    plic_step (p, S) (p', if bit p.(ie) i then S ∖ {[i]} else S)
| plic_enable v p p' S : is_u32 v -> plic_write PLIC_INTR_ENABLE v p = Some p' -> plic_step (p, S) (p', S).

Record plic_inv (p : plic_t) (S : gset Z) : Prop := {
  pl_u32 : is_u32 p.(masked) /\ is_u32 p.(ip) /\ is_u32 p.(ie) /\ is_u32 p.(active);
  pl_zero : bit p.(ie) 0 = false;
  pl_masked : forall i, 0 <= i < 32 -> bit p.(ip) i = true -> bit p.(masked) i = true;
  pl_served : forall i, 0 <= i < 32 -> bit p.(masked) i = true -> bit p.(ip) i = true \/ i ∈ S;
  pl_service : forall i, i ∈ S -> 0 < i < 32 /\ bit p.(masked) i = true /\ bit p.(ip) i = false }.

(** What a claim returns. *)
Lemma claim_ok (p : plic_t) (S : gset Z) :
  plic_inv p S ->
  exists i p', plic_read PLIC_INTR_CLAIM_OR_COMPLETE p = (i, p') /\
    ((i = 0 /\ p' = p /\ forall j, ~ requests p j) \/
     (requests p i /\ 0 < i /\ (forall j, requests p j -> i <= j) /\
      p' = mk_plic p.(masked) (p.(ip) .& not32 (shl32 1 i)) p.(ie) p.(active))).
Proof.
  intros [(U1 & U2 & U3 & U4) Hz Hm Hv Hs]. unfold plic_read. cbn [Z.eqb Pos.eqb PLIC_INTR_CLAIM_OR_COMPLETE PLIC_INTR_PENDING PLIC_INTR_ENABLE PLIC_INTR_PRIORITY_THRESHOLD].
  assert (Hc : is_u32 (ip p .& ie p)) by (apply u32_land_l; done). destruct (truthy (ip p .& ie p)) eqn:Et.
  - destruct (ctz_bit _ Hc Et) as (H1 & H2 & H3). eexists _, _. split; [done|]. right. rewrite Z.land_spec, andb_true_iff in H2. destruct H2 as [Hi He].
    split; [done|]. split; [destruct (decide (rv_ctz (ip p .& ie p) = 0)) as [E|]; [rewrite E in He; congruence|lia]|]. split; [|done].
    intros j (Hj & Hji & Hje). destruct (Z.le_gt_cases (rv_ctz (ip p .& ie p)) j); [done|].
    specialize (H3 j ltac:(lia)). by rewrite Z.land_spec, Hji, Hje in H3.
  - eexists _, _. split; [done|]. left. split_and!; [done|done|]. intros j (Hj & Hji & Hje).
    assert (Ht : truthy (ip p .& ie p) = true) by (apply truthy_bits; [done|]; exists j; by rewrite Z.land_spec, Hji, Hje). congruence.
Qed.

Lemma update_inv (p : plic_t) (S : gset Z) (rv : riscv) : plic_inv p S -> plic_inv (fst (plic_update_interrupts p rv)) S.
Proof.
  intros [(U1 & U2 & U3 & U4) Hz Hm Hv Hs]. constructor; cbn [plic_update_interrupts fst masked ip ie active]; [|done| | |].
  - split_and!; [by apply u32_lor| |done|done]. apply u32_lor; [done|]. by apply u32_land_l.
  - intros i Hi. rewrite !Z.lor_spec, Z.land_spec, bit_not by done. intros [H|[H _]%andb_true_iff]%orb_true_iff; rewrite ?Hm, ?H, ?orb_true_r by done; done.
  - intros i Hi. rewrite !Z.lor_spec, Z.land_spec, bit_not by done. destruct (bit (masked p) i) eqn:Em; cbn [orb negb].
    + intros _. destruct (Hv i Hi Em) as [->|]; [by left|by right].
    + intros ->. left. by rewrite orb_true_r.
  - intros i (H1 & H2 & H3)%Hs. rewrite !Z.lor_spec, Z.land_spec, bit_not, H2, H3 by lia. cbn [negb]. rewrite andb_false_r. done.
Qed.

Lemma claim_inv (p p' : plic_t) (S : gset Z) (i : Z) :
  plic_inv p S -> plic_read PLIC_INTR_CLAIM_OR_COMPLETE p = (i, p') -> plic_inv p' (if i =? 0 then S else {[i]} ∪ S).
Proof.
  intros I E. destruct (claim_ok p S I) as (i' & p'' & E' & Hc). rewrite E in E'. injection E' as <- <-.
  destruct Hc as [(-> & -> & _)|((Hi & Hip & Hie) & Hpos & _ & ->)]; [done|]. rewrite (proj2 (Z.eqb_neq i 0)) by lia.
  destruct I as [(U1 & U2 & U3 & U4) Hz Hm Hv Hs].
  assert (Hb : forall j, 0 <= j < 32 -> bit (ip p .& not32 (shl32 1 i)) j = bit (ip p) j && negb (j =? i)) by (intros j Hj; by rewrite Z.land_spec, bit_not, bit_shl by lia).
  constructor; cbn [masked ip ie active]; [|done| | |].
  - split_and!; try done. by apply u32_land_l.
  - intros j Hj. rewrite Hb by done. intros [H _]%andb_true_iff. by apply Hm.
  - intros j Hj Hmj. rewrite Hb by done. destruct (Z.eqb_spec j i) as [->|]; [right; set_solver|]. rewrite andb_true_r. destruct (Hv j Hj Hmj); [by left|right; set_solver].
  - intros j [->%elem_of_singleton|Hj]%elem_of_union.
    + split; [lia|]. rewrite Hb, Z.eqb_refl, andb_false_r by lia. split; [by apply Hm|done].
    + destruct (Hs j Hj) as (H1 & H2 & H3). rewrite Hb, H3 by lia. done.
Qed.

Lemma complete_inv (p p' : plic_t) (S : gset Z) (i : Z) :
  plic_inv p S -> i ∈ S -> plic_write PLIC_INTR_CLAIM_OR_COMPLETE i p = Some p' -> plic_inv p' (if bit p.(ie) i then S ∖ {[i]} else S).
Proof.
  intros I HiS. destruct (pl_service _ _ I i HiS) as (Hi & Hmi & Hpi). unfold plic_write. cbn [Z.eqb Pos.eqb PLIC_INTR_CLAIM_OR_COMPLETE PLIC_INTR_ENABLE].
  destruct (Z.leb_spec 32 i); [lia|].
  assert (Ht : truthy (ie p .& shl32 1 i) = bit (ie p) i).
  { destruct (bit (ie p) i) eqn:E.
    - apply truthy_bits; [apply u32_land_l, I|]. exists i. rewrite Z.land_spec, bit_shl, Z.eqb_refl, E by lia. done || (split; [lia|done]).
    - destruct (truthy (ie p .& shl32 1 i)) eqn:Et; [|done]. apply truthy_bits in Et as (j & Hj & Hb); [|apply u32_land_l, I].
      rewrite Z.land_spec, bit_shl in Hb by lia. apply andb_true_iff in Hb as [Hb ->%Z.eqb_eq]. congruence. }
  rewrite Ht. destruct (bit (ie p) i); intros [= <-]; [|done]. destruct I as [(U1 & U2 & U3 & U4) Hz Hm Hv Hs].
  assert (Hb : forall j, 0 <= j < 32 -> bit (masked p .& not32 (shl32 1 i)) j = bit (masked p) j && negb (j =? i)) by (intros j Hj; by rewrite Z.land_spec, bit_not, bit_shl by lia).
  constructor; cbn [masked ip ie active]; [|done| | |].
  - split_and!; try done. by apply u32_land_l.
  - intros j Hj Hip. rewrite Hb, (Hm j) by done. destruct (Z.eqb_spec j i) as [->|]; [congruence|done].
  - intros j Hj. rewrite Hb by done. intros [Hmj Hne%negb_true_iff%Z.eqb_neq]%andb_true_iff. destruct (Hv j Hj Hmj); [by left|right; set_solver].
  - intros j [Hj Hne%not_elem_of_singleton]%elem_of_difference. destruct (Hs j Hj) as (H1 & H2 & H3). rewrite Hb, H2, (proj2 (Z.eqb_neq j i)) by lia. done.
Qed.

Lemma plic_step_inv (p p' : plic_t) (S S' : gset Z) : plic_step (p, S) (p', S') -> plic_inv p S -> plic_inv p' S'.
Proof.
  remember (p, S) as x eqn:Ex. remember (p', S') as y eqn:Ey. intros H I.
  destruct H as [a p0 S0 Ha|rv p0 S0|i p0 p1 S0 E|i p0 p1 S0 Hi E|v p0 p1 S0 Hvv E]; injection Ex as -> ->; injection Ey as <- <-.
  - destruct I as [(U1 & U2 & U3 & U4) Hz Hm Hv Hs]. by constructor.
  - by apply (update_inv p S rv).
  - by apply (claim_inv p).
  - by apply complete_inv.
  - destruct I as [(U1 & U2 & U3 & U4) Hz Hm Hv Hs]. injection E as <-.
    constructor; cbn [masked ip ie active]; try done.
    + split_and!; try done. by apply u32_land_l.
    + by rewrite Z.land_spec, bit_not, andb_false_r by lia.
Qed.

Lemma plic_reach_inv (p : plic_t) (S : gset Z) : relations.rtc plic_step (plic_new, ∅) (p, S) -> plic_inv p S.
Proof.
  intros H. assert (Hx : forall x y, relations.rtc plic_step x y -> plic_inv x.1 x.2 -> plic_inv y.1 y.2).
  { induction 1 as [x|[p1 S1] [p2 S2] z Hs _ IH]; [done|]. intros I. apply IH. by eapply plic_step_inv. }
  apply (Hx _ _ H). constructor; cbn [fst snd plic_new masked ip ie active]; try done; intros i; rewrite ?Z.bits_0; set_solver.
Qed.

(** The external interrupt of the hart. *)
Lemma seip_bit (p : plic_t) (S : gset Z) (rv : riscv) :
  plic_inv p S ->
  bit (csr_val (snd (plic_update_interrupts p rv)) csr_sip) 9 = true <-> exists i, requests (fst (plic_update_interrupts p rv)) i.
Proof.
  intros I. pose proof (update_inv p S rv I) as [(_ & U2 & U3 & _) _ _ _ _]. unfold plic_update_interrupts in *. cbn [fst snd ip ie] in *.
  unfold csr_val, set_csr, csr_upd. cbn [csrs set_csrs]. rewrite decide_True by done. set (q := ip p .| (active p .& not32 (masked p))) in *.
  assert (Hq : truthy (q .& ie p) = true <-> exists i, requests (mk_plic (masked p .| active p) q (ie p) (active p)) i).
  { rewrite truthy_bits by (by apply u32_land_l). unfold requests. cbn [ip ie]. setoid_rewrite Z.land_spec. by setoid_rewrite andb_true_iff. }
  rewrite <-Hq. unfold SIP_SEIP. destruct (truthy (q .& ie p)).
  - rewrite Z.lor_spec. by rewrite orb_true_r.
  - rewrite Z.land_spec, bit_not, andb_false_r by lia. done.
Qed.

(** C31. The interrupt controller. From power-on and under any sequence of changes
    of the interrupt lines, updates, claims, enables, and completions of claimed
    sources: a claim returns the lowest-numbered source that is pending and enabled,
    0 exactly if there is none, and never a source that was claimed before and is
    not yet completed; an update raises the external interrupt of the hart exactly
    if some enabled source is pending; and after it every enabled source whose line
    is active is pending, unless it is in service. *)
Theorem plic_claims_once (p : plic_t) (S : gset Z) (rv : riscv) :
  relations.rtc plic_step (plic_new, ∅) (p, S) ->
  (exists i p', plic_read PLIC_INTR_CLAIM_OR_COMPLETE p = (i, p') /\
     ((i = 0 /\ (forall j, ~ requests p j)) \/ (requests p i /\ i <> 0 /\ (i ∉ S) /\ forall j, requests p j -> i <= j))) /\
  (bit (csr_val (snd (plic_update_interrupts p rv)) csr_sip) 9 = true <-> exists i, requests (fst (plic_update_interrupts p rv)) i) /\
  (forall i, 0 <= i < 32 -> bit p.(active) i = true -> bit p.(ie) i = true -> i ∈ S \/ requests (fst (plic_update_interrupts p rv)) i).
Proof.
  intros I%plic_reach_inv. split; [|split; [by eapply seip_bit|]].
  - destruct (claim_ok p S I) as (i & p' & E & Hc). exists i, p'. split; [done|]. destruct Hc as [(-> & _ & Hn)|(Hr & Hpos & Hmin & _)]; [by left|right].
    split_and!; [done|lia| |done]. intros HS. destruct (pl_service _ _ I i HS) as (_ & _ & Hf). destruct Hr as (_ & Ht & _). congruence.
  - intros i Hi Ha He. unfold requests, plic_update_interrupts. cbn [fst ip ie]. rewrite Z.lor_spec, Z.land_spec, bit_not, Ha, He by done.
    destruct (bit (masked p) i) eqn:Em; [|right; by rewrite orb_true_r]. destruct (pl_served _ _ I i Hi Em) as [->|]; [by right|by left].
Qed.

(** The serial line is raised, becomes pending, and is claimed. *)
Lemma plic_claims_once_witness :
  let p := plic_new in
  let p := mk_plic p.(masked) p.(ip) 2 p.(active) in
  let p := fst (plic_update_interrupts (set_active 2 p) Samples.hart) in
  exists i p', plic_read PLIC_INTR_CLAIM_OR_COMPLETE p = (i, p') /\
     ((i = 0 /\ (forall j, ~ requests p j)) \/ (requests p i /\ i <> 0 /\ (i ∉ (∅ : gset Z)) /\ forall j, requests p j -> i <= j)).
Proof.
  refine (proj1 (plic_claims_once (fst (plic_update_interrupts (set_active 2 (mk_plic 0 0 2 0)) Samples.hart)) ∅ Samples.hart _)).
  apply (rtc_l _ _ (mk_plic 0 0 2 0, ∅)); [apply (plic_enable 2); done|].
  apply (rtc_l _ _ (set_active 2 (mk_plic 0 0 2 0), ∅)); [apply plic_line; done|]. apply rtc_once. apply (plic_update Samples.hart).
Defined.

(** A completion the guest writes with a number of 32 or more is undefined. *)
Example complete_undefined : plic_write PLIC_INTR_CLAIM_OR_COMPLETE 32 plic_new = None.
Proof. done. Qed.

(** Completed without having been claimed, a pending source can be claimed twice. *)
Example rogue_completion :
  let p := fst (plic_update_interrupts (mk_plic 0 0 2 2) Samples.hart) in
  (let? p := plic_write PLIC_INTR_CLAIM_OR_COMPLETE 1 p in
   let (i, p) := plic_read PLIC_INTR_CLAIM_OR_COMPLETE p in
   let (j, p) := plic_read PLIC_INTR_CLAIM_OR_COMPLETE (fst (plic_update_interrupts p Samples.hart)) in
   Some (i, j)) = Some (1, 1).
Proof. by vm_compute. Qed.

(** * The clock *)

Definition host_nsec (ts : Z * Z) : Z := ts.1 * 1000000000 + ts.2.

Lemma low_high (n : Z) : (n .& LOW32) + (n .& (LOW32 ≪ 32)) = n mod 2 ^ 64.
Proof.
  unfold LOW32. rewrite Z.land_ones by lia.
  assert (E : n .& (Z.ones 32 ≪ 32) = (n / 2 ^ 32) mod 2 ^ 32 * 2 ^ 32).
  { rewrite <-Z.land_ones, <-Z.shiftr_div_pow2, <-Z.shiftl_mul_pow2 by lia. apply Z.bits_inj'. intros k Hk. rewrite Z.land_spec.
    destruct (Z.lt_ge_cases k 32).
    - rewrite !Z.shiftl_spec_low by lia. by rewrite andb_false_r.
    - rewrite !Z.shiftl_spec_high, Z.land_spec, Z.shiftr_spec by lia. by replace (k - 32 + 32) with k by lia. }
  rewrite E. change (2 ^ 64) with (2 ^ 32 * 2 ^ 32). rewrite Z.rem_mul_r by lia. lia.
Qed.

Lemma set_low (ts : Z * Z) (lo : Z) (r : rtc_t) :
  let now := rtc_get_now_nsec ts r in
  rtc_write ts RTC_TIME_LOW lo r = set_offset (u64 (r.(clock_offset) + (lo - (now .& LOW32)))) now r.
Proof. by destruct r. Qed.

Lemma set_high (ts : Z * Z) (hi : Z) (r : rtc_t) :
  rtc_write ts RTC_TIME_HIGH hi r = set_offset (u64 (r.(clock_offset) + ((hi ≪ 32) - (r.(now_nsec) .& (LOW32 ≪ 32))))) r.(now_nsec) r.
Proof. by destruct r. Qed.

(** Setting the clock. After the guest has written the low and then the high
    word of a time, reading the low and then the high word gives that time plus
    what has passed on the host since the low word was written, modulo 2^64; the
    two words read belong to the same moment. *)
Theorem rtc_set_get (r : rtc_t) (t1 t2 t3 t4 : Z * Z) (lo hi : Z) :
  is_u32 lo -> is_u32 hi ->
  let r := rtc_write t2 RTC_TIME_HIGH hi (rtc_write t1 RTC_TIME_LOW lo r) in
  let (lo', r) := rtc_read t3 RTC_TIME_LOW r in
  let (hi', r) := rtc_read t4 RTC_TIME_HIGH r in
  hi' * 2 ^ 32 + lo' = u64 (hi * 2 ^ 32 + lo + (host_nsec t3 - host_nsec t1)).
Proof.
  intros Hlo Hhi. cbv zeta. rewrite set_low, set_high. cbn [set_offset clock_offset now_nsec].
  set (now := rtc_get_now_nsec t1 r). set (off := u64 (u64 (clock_offset r + (lo - (now .& LOW32))) + _)).
  assert (Hoff : off = u64 (hi * 2 ^ 32 + lo - host_nsec t1)).
  { unfold off, u64. rewrite Z.shiftl_mul_pow2, Zplus_mod_idemp_l by lia.
    replace (clock_offset r + (lo - (now .& LOW32)) + (hi * 2 ^ 32 - (now .& (LOW32 ≪ 32))))
      with (clock_offset r + lo + hi * 2 ^ 32 - ((now .& LOW32) + (now .& (LOW32 ≪ 32)))) by ring.
    rewrite low_high. unfold now, rtc_get_now_nsec, u64. rewrite Z.mod_mod by lia. rewrite Zminus_mod_idemp_r. f_equal. unfold host_nsec. ring. }
  unfold rtc_read. change (RTC_TIME_LOW =? RTC_TIME_LOW) with true. change (RTC_TIME_HIGH =? RTC_TIME_LOW) with false.
  change (RTC_TIME_HIGH =? RTC_TIME_HIGH) with true. cbv iota beta zeta. cbn [now_nsec]. set (n3 := rtc_get_now_nsec t3 _).
  assert (Hn : n3 = u64 (hi * 2 ^ 32 + lo + (host_nsec t3 - host_nsec t1))).
  { unfold n3, rtc_get_now_nsec. cbn [set_offset clock_offset]. rewrite Hoff. unfold u64. rewrite Zplus_mod_idemp_r. f_equal. unfold host_nsec. ring. }
  rewrite <-Hn. unfold LOW32. rewrite Z.land_ones, Z.shiftr_div_pow2 by lia. pose proof (Z.div_mod n3 (2 ^ 32) ltac:(lia)). lia.
Qed.

Lemma rtc_set_get_witness :
  let r := rtc_write (1000, 7) RTC_TIME_HIGH 5 (rtc_write (1000, 0) RTC_TIME_LOW 99 (rtc_new (999, 0))) in
  let (lo', r) := rtc_read (1001, 1) RTC_TIME_LOW r in
  let (hi', r) := rtc_read (1001, 2) RTC_TIME_HIGH r in
  hi' * 2 ^ 32 + lo' = u64 (5 * 2 ^ 32 + 99 + (host_nsec (1001, 1) - host_nsec (1000, 0))).
Proof. apply (rtc_set_get (rtc_new (999, 0)) (1000, 0) (1000, 7) (1001, 1) (1001, 2) 99 5); done. Defined.

(** The high word first: what it replaces is the time of the last access, and a
    carry since then is lost. *)
Example high_first_is_stale :
  let r := snd (rtc_read (0, 0) RTC_TIME_LOW (rtc_new (0, 0))) in
  let r := rtc_write (5, 0) RTC_TIME_LOW 0 (rtc_write (5, 0) RTC_TIME_HIGH 0 r) in
  let (lo', r) := rtc_read (5, 0) RTC_TIME_LOW r in
  let (hi', r) := rtc_read (5, 0) RTC_TIME_HIGH r in
  (hi', lo') = (1, 0).
Proof. by vm_compute. Qed.

(** * The serial port *)

(** The line of the serial port: input that is ready, or a transmitter that became
    empty, if enabled. *)
Lemma uart_line (s : soc) :
  let u := s.(uart) in
  is_u32 s.(plic).(active) -> 0 <= u.(pending_intrs) < 4 -> 0 <= u.(ier) < 256 ->
  bit (emu_update_uart_interrupts s).(plic).(active) 1 = (u.(in_ready) && bit u.(ier) 0) || (bit u.(pending_intrs) 1 && bit u.(ier) 1).
Proof.
  intros u Ha Hp He. unfold emu_update_uart_interrupts, drive_line, soc_plic_update. cbn [set_uart uart plic set_plic set_cpu plic_update_interrupts active set_active].
  unfold u8250_update_interrupts. cbn [set_intrs pending_intrs]. fold u.
  set (q := (if in_ready u then pending_intrs u .| 1 else pending_intrs u .& u8 (Z.lnot 1)) .& ier u).
  assert (Hq : truthy q = (in_ready u && bit (ier u) 0) || (bit (pending_intrs u) 1 && bit (ier u) 1)).
  { assert (Hb : q = (if in_ready u then if bit (ier u) 0 then 1 else 0 else 0) + (if bit (pending_intrs u) 1 && bit (ier u) 1 then 2 else 0)).
    { unfold q. assert (pending_intrs u = 0 \/ pending_intrs u = 1 \/ pending_intrs u = 2 \/ pending_intrs u = 3) as Hc by lia.
      assert (Hlow : forall n, 0 <= n < 4 -> n .& ier u = n .& (ier u mod 4)).
      { intros n Hn. replace (ier u mod 4) with (ier u .& 3) by (apply (Z.land_ones (ier u) 2); lia). rewrite (Z.land_comm (ier u)), Z.land_assoc. f_equal.
        assert (n = 0 \/ n = 1 \/ n = 2 \/ n = 3) as [->|[->|[->| ->]]] by lia; done. }
      assert (Hbits : forall k, 0 <= k < 2 -> bit (ier u) k = bit (ier u mod 2 ^ 2) k) by (intros; by rewrite Z.mod_pow2_bits_low by lia).
      rewrite (Hbits 0), (Hbits 1) by lia. change (2 ^ 2) with 4.
      pose proof (Z.mod_pos_bound (ier u) 4 ltac:(lia)) as Hi. destruct Hc as [->|[->|[->| ->]]]; destruct (in_ready u); cbn -[Z.modulo Z.land];
        rewrite Hlow by done; (assert (ier u mod 4 = 0 \/ ier u mod 4 = 1 \/ ier u mod 4 = 2 \/ ier u mod 4 = 3) as [->|[->|[->| ->]]] by lia); done. }
    rewrite Hb. by destruct (in_ready u), (bit (ier u) 0), (bit (pending_intrs u) 1 && bit (ier u) 1). }
  rewrite <-Hq. destruct (truthy q).
  - rewrite Z.lor_spec. by rewrite orb_true_r.
  - rewrite Z.land_spec, bit_not, andb_false_r by lia. done.
Qed.

(** * The interrupt the hart takes *)

(** Pending and enabled interrupts. *)
Definition interrupts (rv : riscv) : Z := csr_val rv csr_sip .& csr_val rv csr_sie.

Lemma three_bits (v : Z) : (forall i, bit v i = true -> i = 1 \/ i = 5 \/ i = 9) ->
  v = (if bit v 9 then 512 else 0) .| (if bit v 5 then 32 else 0) .| (if bit v 1 then 2 else 0).
Proof.
  intros Hv. apply Z.bits_inj'. intros k Hk. rewrite !Z.lor_spec.
  assert (Hp : forall (b : bool) n, 0 <= n -> bit (if b then 2 ^ n else 0) k = b && (k =? n)).
  { intros b n Hn. destruct b; [|by rewrite Z.bits_0]. cbn [andb]. destruct (Z.eqb_spec k n) as [->|]; [by apply Z.pow2_bits_true|apply Z.pow2_bits_false; lia]. }
  pose proof (Hp (bit v 9) 9) as H9. pose proof (Hp (bit v 5) 5) as H5. pose proof (Hp (bit v 1) 1) as H1.
  change (2 ^ 9) with 512 in H9. change (2 ^ 5) with 32 in H5. change (2 ^ 1) with 2 in H1. rewrite H9, H5, H1 by lia.
  destruct (Z.eqb_spec k 9) as [->|]; [by rewrite !andb_false_r, andb_true_r, !orb_false_r|].
  destruct (Z.eqb_spec k 5) as [->|]; [by rewrite !andb_false_r, andb_true_r, orb_false_r|].
  destruct (Z.eqb_spec k 1) as [->|]; [by rewrite !andb_false_r, andb_true_r|]. rewrite !andb_false_r. destruct (bit v k) eqn:E; [|done]. apply Hv in E. lia.
Qed.

(** Interrupts are taken when they are enabled in sstatus, or in user mode: the
    external one before the timer before the software one, as long as no other bit
    is pending and enabled. *)
Lemma interrupt_cause_ok (rv : riscv) :
  (forall i, bit (interrupts rv) i = true -> i = 1 \/ i = 5 \/ i = 9) ->
  interrupt_cause rv =
  if truthy (csr_val rv csr_sstatus .& SSTATUS_SIE) || (rv.(priv_mode) =? 0) then
    if bit (interrupts rv) 9 then Some SUPERVISOR_EXTERNAL_INTR
    else if bit (interrupts rv) 5 then Some SUPERVISOR_TIMER_INTR
    else if bit (interrupts rv) 1 then Some SUPERVISOR_SW_INTR else None
  else None.
Proof.
  intros Hv. unfold interrupt_cause, rv_has_plic_trap. fold (interrupts rv). destruct (truthy _ || _); cbn [andb]; [|done].
  pose proof (three_bits _ Hv) as E. destruct (bit (interrupts rv) 9), (bit (interrupts rv) 5), (bit (interrupts rv) 1); rewrite E; done.
Qed.

(** The timer interrupt is taken in the poll that finds its time passed, the
    external interrupts apart; the other devices are polled every 65th time. *)
Lemma timer_interrupt (on_trap : soc -> option soc) (poll : bool) (ts : Z * Z) (s : soc) :
  s.(peripheral_update_ctr) <> 0 -> s.(attr_timer) < s.(cpu).(timer) ->
  csr_val s.(cpu) csr_sip = 0 -> csr_val s.(cpu) csr_sie = RV_INT_STI -> csr_val s.(cpu) csr_sstatus .& SSTATUS_SIE <> 0 ->
  exists rv, csr_val rv csr_sip = RV_INT_STI /\
    rv_check_interrupt on_trap poll ts s = interrupt_trap on_trap SUPERVISOR_TIMER_INTR (set_cpu rv (set_ctr (u32 (s.(peripheral_update_ctr) - 1)) s)).
Proof.
  intros Hctr Ht Hsip Hsie Hst. unfold rv_check_interrupt, poll_devices. rewrite (proj2 (Z.eqb_neq _ _) Hctr). cbn [negb].
  change (attr_timer (set_ctr (u32 (peripheral_update_ctr s - 1)) s)) with (attr_timer s). change (cpu (set_ctr (u32 (peripheral_update_ctr s - 1)) s)) with (cpu s).
  rewrite (proj2 (Z.ltb_lt _ _) Ht), Hsip. set (rv := set_csr csr_sip (0 .| RV_INT_STI) (cpu s)). exists rv. split; [done|].
  change (cpu (set_cpu rv (set_ctr (u32 (peripheral_update_ctr s - 1)) s))) with rv.
  assert (Ei : interrupts rv = RV_INT_STI) by (unfold interrupts; change (csr_val rv csr_sie) with (csr_val (cpu s) csr_sie); by rewrite Hsie).
  rewrite interrupt_cause_ok.
  - rewrite Ei. change (csr_val rv csr_sstatus) with (csr_val (cpu s) csr_sstatus). unfold truthy. by rewrite (proj2 (Z.eqb_neq _ _) Hst).
  - rewrite Ei. intros i Hi. destruct (decide (i = 5)) as [->|]; [by right; left|]. exfalso. revert Hi. change RV_INT_STI with (2 ^ 5). destruct (Z.le_gt_cases 0 i).
    + by rewrite Z.pow2_bits_false by lia.
    + by rewrite Z.testbit_neg_r by lia.
Qed.

(** The timer goes before the software interrupt, which the architecture ranks
    higher. *)
Example timer_before_software :
  interrupt_cause (set_csr csr_sstatus SSTATUS_SIE (set_csr csr_sip 0x22 (set_csr csr_sie 0x22 Samples.hart))) = Some SUPERVISOR_TIMER_INTR.
Proof. done. Qed.

(** A pending and enabled bit above the external interrupt hides the others. *)
Example higher_bit_hides :
  interrupt_cause (set_csr csr_sstatus SSTATUS_SIE (set_csr csr_sip 0xe00 (set_csr csr_sie 0xe00 Samples.hart))) = None.
Proof. done. Qed.

(** An alarm that has fired fires again after its interrupt is cleared, until it is
    moved or disabled. *)
Example alarm_fires_again :
  let r := rtc_write (1, 0) RTC_IRQ_ENABLED 1 (rtc_write (1, 0) RTC_ALARM_LOW 5 (rtc_new (0, 0))) in
  let s := mk_soc Samples.hart false plic_new u8250_new r 0 0 in
  let s := poll_devices false (1, 0) s in
  (let? (_, s) := MMIO_WRITE (1, 0) 0xF410001c 0 s in
   Some (s.(rtc).(interrupt_status), (poll_devices false (1, 0) (set_ctr 0 s)).(rtc).(interrupt_status))) = Some (0, 1).
Proof. by vm_compute. Qed.
