(* ===== verification/Vblk.v ===== *)
(** The virtio block device (virtio-blk.c): its registers, the request queue in
    guest memory, and the transfers between guest memory and the disk. [ram] is the
    memory of the guest and [disk] the mapped image; an access outside of either is
    [None]. Opening the image ([virtio_blk_init]) is host I/O. *)

From stdpp Require Import base list option numbers gmap.
From Stdlib Require Import ZArith Lia Bool.
From S2P Require Import Prelude Bits Mem.
#[local] Open Scope Z_scope.

Definition VIRTIO_VENDOR_ID : Z := 0x12345678.
Definition VIRTIO_MAGIC_NUMBER : Z := 0x74726976.
Definition VIRTIO_VERSION : Z := 2.
Definition VIRTIO_CONFIG_GENERATE : Z := 0.
Definition VIRTIO_STATUS_DRIVER_OK : Z := 4.
Definition VIRTIO_STATUS_DEVICE_NEEDS_RESET : Z := 64.
Definition VIRTIO_INT_USED_RING : Z := 1.
Definition VIRTIO_INT_CONF_CHANGE : Z := 2.
Definition VIRTIO_DESC_F_NEXT : Z := 1.
Definition VIRTIO_BLK_DEV_ID : Z := 2.
Definition VIRTIO_BLK_T_IN : Z := 0.
Definition VIRTIO_BLK_T_OUT : Z := 1.
Definition VIRTIO_BLK_S_OK : Z := 0.
Definition VIRTIO_BLK_S_IOERR : Z := 1.
Definition VIRTIO_BLK_S_UNSUPP : Z := 2.
Definition VIRTIO_BLK_F_RO : Z := 1 ≪ 5.
Definition DISK_BLK_SIZE : Z := 512.
Definition VBLK_FEATURES_0 : Z := 0.
Definition VBLK_FEATURES_1 : Z := 1.
Definition VBLK_QUEUE_NUM_MAX : Z := 1024.

(** The registers by their offset in words. *)
Inductive virtio_reg : Type :=
| MagicValue | Version | DeviceID | VendorID | DeviceFeatures | DeviceFeaturesSel | DriverFeatures | DriverFeaturesSel
| QueueSel | QueueNumMax | QueueNum | QueueReady | QueueNotify | InterruptStatus | InterruptACK | Status
| QueueDescLow | QueueDescHigh | QueueDriverLow | QueueDriverHigh | QueueDeviceLow | QueueDeviceHigh | ConfigGeneration.

Definition VIRTIO_REG_LIST : list (Z * virtio_reg) :=
  [(0x000, MagicValue); (0x004, Version); (0x008, DeviceID); (0x00c, VendorID); (0x010, DeviceFeatures);
   (0x014, DeviceFeaturesSel); (0x020, DriverFeatures); (0x024, DriverFeaturesSel); (0x030, QueueSel);
   (0x034, QueueNumMax); (0x038, QueueNum); (0x044, QueueReady); (0x050, QueueNotify); (0x060, InterruptStatus);
   (0x064, InterruptACK); (0x070, Status); (0x080, QueueDescLow); (0x084, QueueDescHigh); (0x090, QueueDriverLow);
   (0x094, QueueDriverHigh); (0x0a0, QueueDeviceLow); (0x0a4, QueueDeviceHigh); (0x0fc, ConfigGeneration)].

Definition VIRTIO_Config : Z := 0x100 ≫ 2.

(** [None]: the default case, the configuration space. *)
Definition virtio_reg_at (addr : Z) : option virtio_reg :=
  snd <$> List.find (fun x => fst x ≫ 2 =? addr) VIRTIO_REG_LIST.

Record virtio_blk_queue_t : Type := mk_queue {
  queue_num : Z; queue_desc : Z; queue_avail : Z; queue_used : Z; last_avail : Z; ready : bool }.

Definition zero_queue : virtio_blk_queue_t := mk_queue 0 0 0 0 0 false.

(** [priv] holds [struct virtio_blk_config] as its 17 words; [queues] has two. *)
Record virtio_blk_state_t : Type := mk_vblk {
  device_features : Z; device_features_sel : Z; driver_features : Z; driver_features_sel : Z;
  queue_sel : Z; queues : list virtio_blk_queue_t; status : Z; interrupt_status : Z; priv : list Z }.

(** What the device works on. *)
Record vblk_sys : Type := mk_vsys { vblk : virtio_blk_state_t; ram : memory_t; disk : memory_t }.

Definition set_vblk (v : virtio_blk_state_t) (s : vblk_sys) : vblk_sys := mk_vsys v s.(ram) s.(disk).
Definition set_ram (m : memory_t) (s : vblk_sys) : vblk_sys := mk_vsys s.(vblk) m s.(disk).
Definition set_disk (m : memory_t) (s : vblk_sys) : vblk_sys := mk_vsys s.(vblk) s.(ram) m.

Definition set_queues (q : list virtio_blk_queue_t) (v : virtio_blk_state_t) : virtio_blk_state_t :=
  mk_vblk v.(device_features) v.(device_features_sel) v.(driver_features) v.(driver_features_sel) v.(queue_sel) q v.(status) v.(interrupt_status) v.(priv).
Definition set_status (st intr : Z) (v : virtio_blk_state_t) : virtio_blk_state_t :=
  mk_vblk v.(device_features) v.(device_features_sel) v.(driver_features) v.(driver_features_sel) v.(queue_sel) v.(queues) st intr v.(priv).
Definition set_priv (p : list Z) (v : virtio_blk_state_t) : virtio_blk_state_t :=
  mk_vblk v.(device_features) v.(device_features_sel) v.(driver_features) v.(driver_features_sel) v.(queue_sel) v.(queues) v.(status) v.(interrupt_status) p.

(** [VBLK_PRIV(vblk)->capacity], a 64-bit number. *)
Definition capacity (v : virtio_blk_state_t) : option Z :=
  let? lo := v.(priv) !! 0%nat in let? hi := v.(priv) !! 1%nat in Some (lo .| (hi ≪ 32)).

(** [ram[i]] and [ram[i] = v]. *)
Definition ram_word (s : vblk_sys) (i : Z) : option Z := checked_load 4 s.(ram) (4 * i).
Definition set_ram_word (i v : Z) (s : vblk_sys) : option vblk_sys :=
  let? m := checked_store 4 s.(ram) (4 * i) v in Some (set_ram m s).

Definition virtio_blk_set_fail (v : virtio_blk_state_t) : virtio_blk_state_t :=
  let st := v.(status) .| VIRTIO_STATUS_DEVICE_NEEDS_RESET in
  set_status st (if truthy (st .& VIRTIO_STATUS_DRIVER_OK) then v.(interrupt_status) .| VIRTIO_INT_CONF_CHANGE else v.(interrupt_status)) v.

Definition set_fail (s : vblk_sys) : vblk_sys := set_vblk (virtio_blk_set_fail s.(vblk)) s.

(** MEM_SIZE is the size of the memory of the guest. *)
Definition vblk_preprocess (addr : Z) (s : vblk_sys) : Z * vblk_sys :=
  if (s.(ram).(mem_size) <=? addr) || truthy (addr .& 3) then (0, set_fail s) else (addr ≫ 2, s).

Definition virtio_blk_update_status (st : Z) (v : virtio_blk_state_t) : option virtio_blk_state_t :=
  if truthy st then Some (set_status (v.(status) .| st) v.(interrupt_status) v)
  else
    let? c := capacity v in
    Some (mk_vblk v.(device_features) 0 0 0 0 [zero_queue; zero_queue] 0 0 (<[0%nat := u32 c]> (<[1%nat := 0]> v.(priv)))).

(** [memcpy(dest, src, len)]. *)
Definition memcpy (dest : memory_t) (d : Z) (src : memory_t) (a len : Z) : option memory_t :=
  if GUEST_RAM_CONTAINS src a len && GUEST_RAM_CONTAINS dest d len then Some (store_bytes dest d (load_bytes (Z.to_nat len) src a)) else None.

Definition virtio_blk_write_handler (sector desc_addr len : Z) (s : vblk_sys) : option vblk_sys :=
  let? m := memcpy s.(disk) (u64 (sector * DISK_BLK_SIZE)) s.(ram) desc_addr len in Some (set_disk m s).

Definition virtio_blk_read_handler (sector desc_addr len : Z) (s : vblk_sys) : option vblk_sys :=
  let? m := memcpy s.(ram) desc_addr s.(disk) (u64 (sector * DISK_BLK_SIZE)) len in Some (set_ram m s).

Record virtq_desc : Type := mk_desc { addr : Z; len : Z; flags : Z; next : Z }.

Definition read_desc (s : vblk_sys) (q : virtio_blk_queue_t) (idx : Z) : option virtq_desc :=
  let a := 4 * u32 (q.(queue_desc) + idx * 4) in
  let? x := checked_load 8 s.(ram) a in
  let? l := checked_load 4 s.(ram) (a + 8) in
  let? f := checked_load 2 s.(ram) (a + 12) in
  let? n := checked_load 2 s.(ram) (a + 14) in
  Some (mk_desc x l f n).

(** [*status = v] *)
Definition set_req_status (d : virtq_desc) (v : Z) (s : vblk_sys) : option vblk_sys :=
  let? m := checked_store 1 s.(ram) d.(addr) v in Some (set_ram m s).

(** The length written to the used ring, or [None] inside for the result -1. *)
Definition virtio_blk_desc_handler (q : virtio_blk_queue_t) (desc_idx : Z) (s : vblk_sys) : option (option Z * vblk_sys) :=
  let? d0 := read_desc s q desc_idx in
  let? d1 := read_desc s q d0.(next) in
  let? d2 := read_desc s q d1.(next) in
  if negb (truthy (d0.(flags) .& VIRTIO_DESC_F_NEXT)) || negb (truthy (d1.(flags) .& VIRTIO_DESC_F_NEXT)) || truthy (d2.(flags) .& VIRTIO_DESC_F_NEXT)
  then Some (None, set_fail s)
  else
    let? type := checked_load 4 s.(ram) d0.(addr) in
    let? sector := checked_load 8 s.(ram) (d0.(addr) + 8) in
    let? c := capacity s.(vblk) in
    let refuse v := let? s := set_req_status d2 v s in Some (None, s) in
    let finish s := let? s := set_req_status d2 VIRTIO_BLK_S_OK s in Some (Some d1.(len), s) in
    if u64 (c - 1) <? sector then refuse VIRTIO_BLK_S_IOERR
    else if type =? VIRTIO_BLK_T_IN then
      let? s := virtio_blk_read_handler sector d1.(addr) d1.(len) s in finish s
    else if type =? VIRTIO_BLK_T_OUT then
      if truthy (s.(vblk).(device_features) .& VIRTIO_BLK_F_RO) then refuse VIRTIO_BLK_S_IOERR
      else let? s := virtio_blk_write_handler sector d1.(addr) d1.(len) s in finish s
    else refuse VIRTIO_BLK_S_UNSUPP.

(** [queue->last_avail++] *)
Definition consume (index : nat) (s : vblk_sys) : vblk_sys :=
  set_vblk (set_queues (alter (fun q => mk_queue q.(queue_num) q.(queue_desc) q.(queue_avail) q.(queue_used) (u16 (q.(last_avail) + 1)) q.(ready))
                          index s.(vblk).(queues)) s.(vblk)) s.

(** One request of the queue: the new [new_used], [None] inside after a failure. *)
Definition process_one (index : nat) (new_used : Z) (s : vblk_sys) : option (option Z * vblk_sys) :=
  let? q := s.(vblk).(queues) !! index in
  if q.(queue_num) =? 0 then None
  else
    let queue_idx := u16 (q.(last_avail) mod q.(queue_num)) in
    let? w := ram_word s (u32 (q.(queue_avail) + 1 + queue_idx / 2)) in
    let buffer_idx := u16 (w ≫ (16 * (queue_idx mod 2))) in
    let? (r, s) := virtio_blk_desc_handler q buffer_idx s in
    match r with
    | None => Some (None, set_fail s)
    | Some len =>
        let vq_used_addr := u32 (q.(queue_used) + 1 + new_used mod q.(queue_num) * 2) in
        let? s := set_ram_word vq_used_addr buffer_idx s in
        let? s := set_ram_word (u32 (vq_used_addr + 1)) len s in
        Some (Some (u16 (new_used + 1)), consume index s)
    end.

(** The loop; [None] as the result for the early return. *)
Fixpoint process_loop (fuel : nat) (index : nat) (new_avail new_used : Z) (s : vblk_sys) : option (option Z * vblk_sys) :=
  let? q := s.(vblk).(queues) !! index in
  if q.(last_avail) =? new_avail then Some (Some new_used, s)
  else
    match fuel with
    | O => None
    | S fuel =>
        let? (r, s) := process_one index new_used s in
        match r with
        | None => Some (None, s)
        | Some new_used => process_loop fuel index new_avail new_used s
        end
    end.

Definition virtio_queue_notify_handler (index : nat) (s : vblk_sys) : option vblk_sys :=
  let? q := s.(vblk).(queues) !! index in
  if truthy (s.(vblk).(status) .& VIRTIO_STATUS_DEVICE_NEEDS_RESET) then Some s
  else if negb (truthy (s.(vblk).(status) .& VIRTIO_STATUS_DRIVER_OK) && q.(ready)) then Some (set_fail s)
  else
    let? w := ram_word s q.(queue_avail) in
    let new_avail := u16 (w ≫ 16) in
    if u16 q.(queue_num) <? new_avail - q.(last_avail) then Some (set_fail s)
    else if q.(last_avail) =? new_avail then Some s
    else
      let? w := ram_word s q.(queue_used) in
      let? (r, s) := process_loop (Z.to_nat (2 ^ 16)) index new_avail (u16 (w ≫ 16)) s in
      match r with
      | None => Some s
      | Some new_used =>
          let? w := ram_word s q.(queue_used) in
          let? s := set_ram_word q.(queue_used) (w .& Z.ones 16) s in
          let? w := ram_word s q.(queue_used) in
          let? s := set_ram_word q.(queue_used) (w .| shl32 new_used 16) s in
          let? w := ram_word s q.(queue_avail) in
          if negb (truthy (w .& 1)) then
            Some (set_vblk (set_status s.(vblk).(status) (s.(vblk).(interrupt_status) .| VIRTIO_INT_USED_RING) s.(vblk)) s)
          else Some s
      end.

Definition VBLK_QUEUE (v : virtio_blk_state_t) : option virtio_blk_queue_t := v.(queues) !! Z.to_nat v.(queue_sel).

(** The index of a word of the configuration space, as an unsigned number. *)
Definition config_word (a : Z) (v : virtio_blk_state_t) : option nat :=
  let i := u32 (a - VIRTIO_Config) in if i <? Z.of_nat (length v.(priv)) then Some (Z.to_nat i) else None.

Definition virtio_blk_read (addr : Z) (v : virtio_blk_state_t) : option Z :=
  let addr := addr ≫ 2 in
  match virtio_reg_at addr with
  | Some MagicValue => Some VIRTIO_MAGIC_NUMBER
  | Some Version => Some VIRTIO_VERSION
  | Some DeviceID => Some VIRTIO_BLK_DEV_ID
  | Some VendorID => Some VIRTIO_VENDOR_ID
  | Some DeviceFeatures =>
      Some (if v.(device_features_sel) =? 0 then VBLK_FEATURES_0 .| v.(device_features)
            else if v.(device_features_sel) =? 1 then VBLK_FEATURES_1 else 0)
  | Some QueueNumMax => Some VBLK_QUEUE_NUM_MAX
  | Some QueueReady => let? q := VBLK_QUEUE v in Some (if q.(ready) then 1 else 0)
  | Some InterruptStatus => Some v.(interrupt_status)
  | Some Status => Some v.(status)
  | Some ConfigGeneration => Some VIRTIO_CONFIG_GENERATE
  | _ => let? i := config_word addr v in v.(priv) !! i
  end.

(** An update of the selected queue. *)
Definition on_queue (f : virtio_blk_queue_t -> virtio_blk_queue_t) (s : vblk_sys) : option vblk_sys :=
  let v := s.(vblk) in
  let? _ := VBLK_QUEUE v in
  Some (set_vblk (set_queues (alter f (Z.to_nat v.(queue_sel)) v.(queues)) v) s).

Definition set_features (dsel drv rsel qsel : Z) (v : virtio_blk_state_t) : virtio_blk_state_t :=
  mk_vblk v.(device_features) dsel drv rsel qsel v.(queues) v.(status) v.(interrupt_status) v.(priv).

Definition virtio_blk_write (addr value : Z) (s : vblk_sys) : option vblk_sys :=
  let addr := addr ≫ 2 in
  let v := s.(vblk) in
  match virtio_reg_at addr with
  | Some DeviceFeaturesSel => Some (set_vblk (set_features value v.(driver_features) v.(driver_features_sel) v.(queue_sel) v) s)
  | Some DriverFeatures =>
      Some (if v.(driver_features_sel) =? 0 then set_vblk (set_features v.(device_features_sel) value v.(driver_features_sel) v.(queue_sel) v) s else s)
  | Some DriverFeaturesSel => Some (set_vblk (set_features v.(device_features_sel) v.(driver_features) value v.(queue_sel) v) s)
  | Some QueueSel =>
      Some (if value <? 2 then set_vblk (set_features v.(device_features_sel) v.(driver_features) v.(driver_features_sel) value v) s else set_fail s)
  | Some QueueNum =>
      if (0 <? value) && (value <=? VBLK_QUEUE_NUM_MAX) then
        on_queue (fun q => mk_queue value q.(queue_desc) q.(queue_avail) q.(queue_used) q.(last_avail) q.(ready)) s
      else Some (set_fail s)
  | Some QueueReady =>
      let? s := on_queue (fun q => mk_queue q.(queue_num) q.(queue_desc) q.(queue_avail) q.(queue_used) q.(last_avail) (truthy (value .& 1))) s in
      if truthy (value .& 1) then
        let? q := VBLK_QUEUE v in
        let? w := ram_word s q.(queue_avail) in
        on_queue (fun q => mk_queue q.(queue_num) q.(queue_desc) q.(queue_avail) q.(queue_used) (u16 (w ≫ 16)) q.(ready)) s
      else Some s
  | Some QueueDescLow =>
      let (a, s) := vblk_preprocess value s in
      on_queue (fun q => mk_queue q.(queue_num) a q.(queue_avail) q.(queue_used) q.(last_avail) q.(ready)) s
  | Some QueueDriverLow =>
      let (a, s) := vblk_preprocess value s in
      on_queue (fun q => mk_queue q.(queue_num) q.(queue_desc) a q.(queue_used) q.(last_avail) q.(ready)) s
  | Some QueueDeviceLow =>
      let (a, s) := vblk_preprocess value s in
      on_queue (fun q => mk_queue q.(queue_num) q.(queue_desc) q.(queue_avail) a q.(last_avail) q.(ready)) s
  | Some QueueDescHigh | Some QueueDriverHigh | Some QueueDeviceHigh => Some (if truthy value then set_fail s else s)
  | Some QueueNotify => if value <? 2 then virtio_queue_notify_handler (Z.to_nat value) s else Some (set_fail s)
  | Some InterruptACK => Some (set_vblk (set_status v.(status) (v.(interrupt_status) .& not32 value) v) s)
  | Some Status => let? v := virtio_blk_update_status value v in Some (set_vblk v s)
  | _ =>
      let? i := config_word addr v in
      Some (set_vblk (set_priv (<[i := value]> v.(priv)) v) s)
  end.
