(* ===== verification/VblkSpec.v ===== *)
(** The block device stores what is written to it, and serves every request of its
    queue. *)

From stdpp Require Import base list option numbers gmap.
From Stdlib Require Import ZArith Lia Bool.
From S2P Require Import Prelude Bits Mem MemSpec Vblk.
#[local] Open Scope Z_scope.

(** * Blocks of bytes *)

Lemma length_load_bytes (n : nat) (m : memory_t) (a : Z) : length (load_bytes n m a) = n.
Proof. revert a. induction n as [|n IH]; intros a; cbn [load_bytes length]; [done|]. by rewrite IH. Qed.

Lemma lookup_load_bytes (n i : nat) (m : memory_t) (a : Z) : (i < n)%nat -> load_bytes n m a !! i = Some (mem_byte m (a + Z.of_nat i)).
Proof.
  revert a i. induction n as [|n IH]; intros a [|i] Hi; cbn [load_bytes]; [lia|lia|by rewrite Z.add_0_r|].
  cbn [lookup list_lookup]. rewrite IH by lia. do 2 f_equal. lia.
Qed.

Lemma load_bytes_ext (n : nat) (m m' : memory_t) (a : Z) :
  (forall b, a <= b < a + Z.of_nat n -> mem_byte m b = mem_byte m' b) -> load_bytes n m a = load_bytes n m' a.
Proof.
  revert a. induction n as [|n IH]; intros a Hb; cbn [load_bytes]; [done|]. rewrite (Hb a) by lia. f_equal. apply IH. intros b Hbb. apply Hb. lia.
Qed.

(** The bytes copied by [memcpy]. *)
Lemma copied_byte (n : nat) (dest src : memory_t) (d a b : Z) :
  (forall x, 0 <= mem_byte src x < 256) ->
  mem_byte (store_bytes dest d (load_bytes n src a)) b = if decide (d <= b < d + Z.of_nat n) then mem_byte src (a + (b - d)) else mem_byte dest b.
Proof.
  intros Hr. rewrite mem_byte_store_bytes. destruct (Z.leb_spec d b); case_decide as Hi; try lia.
  - rewrite lookup_load_bytes by lia. rewrite Z2Nat.id by lia. apply Z.mod_small. apply Hr.
  - rewrite lookup_ge_None_2; [done|]. rewrite length_load_bytes. lia.
Qed.

Lemma load_copied (n : nat) (dest src : memory_t) (d a : Z) :
  (forall x, 0 <= mem_byte src x < 256) -> load_bytes n (store_bytes dest d (load_bytes n src a)) d = load_bytes n src a.
Proof.
  intros Hr. apply list_eq. intros i. destruct (decide (i < n)%nat) as [Hi|Hi].
  - rewrite !lookup_load_bytes, copied_byte by done. rewrite decide_True by lia. do 2 f_equal. lia.
  - rewrite !lookup_ge_None_2; [done|rewrite length_load_bytes; lia..].
Qed.

(** * One request *)

Definition bytes_ok (m : memory_t) : Prop := forall x, 0 <= mem_byte m x < 256.

(** A chain of three descriptors at [idx] that asks for a transfer of [type] between
    the sectors from [sector] on and the buffer of the second descriptor. *)
Record request (s : vblk_sys) (q : virtio_blk_queue_t) (idx type sector : Z) (d0 d1 d2 : virtq_desc) : Prop := {
  rq_first : read_desc s q idx = Some d0;
  rq_data : read_desc s q d0.(next) = Some d1;
  rq_status : read_desc s q d1.(next) = Some d2;
  rq_flags : truthy (d0.(flags) .& VIRTIO_DESC_F_NEXT) = true /\ truthy (d1.(flags) .& VIRTIO_DESC_F_NEXT) = true /\ truthy (d2.(flags) .& VIRTIO_DESC_F_NEXT) = false;
  rq_type : checked_load 4 s.(ram) d0.(addr) = Some type;
  rq_sector : checked_load 8 s.(ram) (d0.(addr) + 8) = Some sector;
  rq_ok : GUEST_RAM_CONTAINS s.(ram) d2.(addr) 1 = true }.

(** The sectors and the buffer are there, and the status byte is not in the buffer. *)
Record in_range (s : vblk_sys) (sector : Z) (d1 d2 : virtq_desc) : Prop := {
  ir_sector : 0 <= sector /\ exists c, capacity s.(vblk) = Some c /\ sector < c < 2 ^ 55;
  ir_disk : GUEST_RAM_CONTAINS s.(disk) (sector * DISK_BLK_SIZE) d1.(len) = true;
  ir_ram : GUEST_RAM_CONTAINS s.(ram) d1.(addr) d1.(len) = true;
  ir_apart : d2.(addr) < d1.(addr) \/ d1.(addr) + d1.(len) <= d2.(addr);
  ir_len : 0 <= d1.(len) }.

Section Request.
Context (s : vblk_sys) (q : virtio_blk_queue_t) (idx sector : Z) (d0 d1 d2 : virtq_desc).

Lemma store_bytes_size (l : list Z) (m : memory_t) (a : Z) : mem_size (store_bytes m a l) = mem_size m.
Proof. revert m a. induction l as [|v l IH]; intros m a; cbn [store_bytes]; [done|]. by rewrite IH. Qed.

Lemma contains_store_bytes (m : memory_t) (a x n : Z) (l : list Z) : GUEST_RAM_CONTAINS (store_bytes m a l) x n = GUEST_RAM_CONTAINS m x n.
Proof. unfold GUEST_RAM_CONTAINS. by rewrite store_bytes_size. Qed.

Lemma sector_address : in_range s sector d1 d2 -> u64 (sector * DISK_BLK_SIZE) = sector * DISK_BLK_SIZE.
Proof. intros [[Hs (c & _ & Hc)] _ _ _ _]. apply Z.mod_small. unfold DISK_BLK_SIZE. lia. Qed.

(** Up to the transfer, a good request runs through the checks. *)
Lemma request_head (type : Z) :
  request s q idx type sector d0 d1 d2 -> in_range s sector d1 d2 ->
  virtio_blk_desc_handler q idx s =
  (let finish s := let? s := set_req_status d2 VIRTIO_BLK_S_OK s in Some (Some d1.(len), s) in
   let refuse v := let? s := set_req_status d2 v s in Some (None, s) in
   if type =? VIRTIO_BLK_T_IN then let? s := virtio_blk_read_handler sector d1.(addr) d1.(len) s in finish s
   else if type =? VIRTIO_BLK_T_OUT then
     if truthy (s.(vblk).(device_features) .& VIRTIO_BLK_F_RO) then refuse VIRTIO_BLK_S_IOERR
     else let? s := virtio_blk_write_handler sector d1.(addr) d1.(len) s in finish s
   else refuse VIRTIO_BLK_S_UNSUPP).
Proof.
  intros [R1 R2 R3 (F0 & F1 & F2) R4 R5 R6] [[Hs (c & Hc & Hlt)] _ _ _ _]. unfold virtio_blk_desc_handler.
  rewrite R1. cbn [mbind option_bind]. rewrite R2. cbn [mbind option_bind]. rewrite R3. cbn [mbind option_bind]. rewrite F0, F1, F2. cbn [negb orb].
  rewrite R4. cbn [mbind option_bind]. rewrite R5. cbn [mbind option_bind]. rewrite Hc. cbn [mbind option_bind].
  unfold u64. rewrite Z.mod_small by lia. by rewrite (proj2 (Z.ltb_ge _ _)) by lia.
Qed.

(** A read request: the buffer holds the sectors, and nothing else changed but the
    status byte. *)
Lemma read_request :
  request s q idx VIRTIO_BLK_T_IN sector d0 d1 d2 -> in_range s sector d1 d2 -> bytes_ok s.(disk) ->
  exists s', virtio_blk_desc_handler q idx s = Some (Some d1.(len), s') /\ s'.(disk) = s.(disk) /\ s'.(vblk) = s.(vblk) /\
    load_bytes (Z.to_nat d1.(len)) s'.(ram) d1.(addr) = load_bytes (Z.to_nat d1.(len)) s.(disk) (sector * DISK_BLK_SIZE) /\
    mem_byte s'.(ram) d2.(addr) = VIRTIO_BLK_S_OK /\
    forall b, ~ d1.(addr) <= b < d1.(addr) + d1.(len) -> b <> d2.(addr) -> mem_byte s'.(ram) b = mem_byte s.(ram) b.
Proof.
  intros R I Hd. rewrite (request_head VIRTIO_BLK_T_IN R I). cbv zeta. change (VIRTIO_BLK_T_IN =? VIRTIO_BLK_T_IN) with true. cbv iota.
  unfold virtio_blk_read_handler, memcpy. rewrite (sector_address I). destruct I as [_ I1 I2 I3 I4]. rewrite I1, I2. cbn [andb mbind option_bind].
  unfold set_req_status, checked_store. cbn [set_ram ram]. change (Z.of_nat 1) with 1. rewrite contains_store_bytes, (rq_ok _ _ _ _ _ _ _ _ R). cbn [mbind option_bind].
  eexists. split; [done|]. cbn [ram disk vblk]. do 2 (split; [done|]).
  assert (Hb : forall b, mem_byte (store_le 1 (store_bytes (ram s) (addr d1) (load_bytes (Z.to_nat (len d1)) (disk s) (sector * DISK_BLK_SIZE))) (addr d2) VIRTIO_BLK_S_OK) b =
               if decide (b = addr d2) then VIRTIO_BLK_S_OK else mem_byte (store_bytes (ram s) (addr d1) (load_bytes (Z.to_nat (len d1)) (disk s) (sector * DISK_BLK_SIZE))) b).
  { intros b. rewrite mem_byte_store_le. destruct (decide (b = addr d2)) as [->|Hne].
    - rewrite Z.leb_refl, (proj2 (Z.ltb_lt _ _)) by lia. cbn [andb]. by rewrite Z.sub_diag.
    - destruct (Z.leb_spec (addr d2) b), (Z.ltb_spec b (addr d2 + Z.of_nat 1)); try done; lia. }
  split; [|split].
  - erewrite load_bytes_ext; [by apply load_copied|]. intros b Hbb. rewrite Hb, decide_False by lia. done.
  - by rewrite Hb, decide_True.
  - intros b H1 H2. rewrite Hb, decide_False, copied_byte, decide_False by (done || lia). done.
Qed.

(** A write request: the sectors hold the buffer, the rest of the disk is the same,
    and of the memory only the status byte changed. *)
Lemma write_request :
  request s q idx VIRTIO_BLK_T_OUT sector d0 d1 d2 -> in_range s sector d1 d2 -> bytes_ok s.(ram) ->
  truthy (s.(vblk).(device_features) .& VIRTIO_BLK_F_RO) = false ->
  exists s', virtio_blk_desc_handler q idx s = Some (Some d1.(len), s') /\ s'.(vblk) = s.(vblk) /\
    load_bytes (Z.to_nat d1.(len)) s'.(disk) (sector * DISK_BLK_SIZE) = load_bytes (Z.to_nat d1.(len)) s.(ram) d1.(addr) /\
    (forall b, ~ sector * DISK_BLK_SIZE <= b < sector * DISK_BLK_SIZE + d1.(len) -> mem_byte s'.(disk) b = mem_byte s.(disk) b) /\
    s'.(ram) = store_le 1 s.(ram) d2.(addr) VIRTIO_BLK_S_OK.
Proof.
  intros R I Hr Hro. rewrite (request_head VIRTIO_BLK_T_OUT R I). cbv zeta. change (VIRTIO_BLK_T_OUT =? VIRTIO_BLK_T_IN) with false. change (VIRTIO_BLK_T_OUT =? VIRTIO_BLK_T_OUT) with true.
  cbv iota. rewrite Hro. unfold virtio_blk_write_handler, memcpy. rewrite (sector_address I). destruct I as [_ I1 I2 I3 I4]. rewrite I1, I2. cbn [andb mbind option_bind].
  unfold set_req_status, checked_store. cbn [set_disk ram]. change (Z.of_nat 1) with 1. rewrite (rq_ok _ _ _ _ _ _ _ _ R). cbn [mbind option_bind].
  eexists. split; [done|]. cbn [set_ram set_disk ram disk vblk]. split; [done|]. split; [by apply load_copied|]. split; [|done].
  intros b Hb. rewrite copied_byte, decide_False by (done || lia). done.
Qed.

(** A request for a sector beyond the disk is answered with an error. *)
Lemma refused_request (type c : Z) :
  request s q idx type sector d0 d1 d2 -> capacity s.(vblk) = Some c -> 0 < c < 2 ^ 64 -> c <= sector ->
  exists s', virtio_blk_desc_handler q idx s = Some (None, s') /\ s'.(disk) = s.(disk) /\ s'.(ram) = store_le 1 s.(ram) d2.(addr) VIRTIO_BLK_S_IOERR.
Proof.
  intros [R1 R2 R3 (F0 & F1 & F2) R4 R5 R6] Hc Hlt Hs. unfold virtio_blk_desc_handler.
  rewrite R1. cbn [mbind option_bind]. rewrite R2. cbn [mbind option_bind]. rewrite R3. cbn [mbind option_bind]. rewrite F0, F1, F2. cbn [negb orb].
  rewrite R4. cbn [mbind option_bind]. rewrite R5. cbn [mbind option_bind]. rewrite Hc. cbn [mbind option_bind].
  unfold u64. rewrite Z.mod_small by lia. rewrite (proj2 (Z.ltb_lt _ _)) by lia. unfold set_req_status, checked_store. change (Z.of_nat 1) with 1. rewrite R6.
  eexists. split; [done|]. done.
Qed.
End Request.

(** C32. What is written to the disk is read back. A write request for sectors of the
    disk succeeds, and a later read request for the same sectors, in whatever state
    the guest has brought its memory and the queues to meanwhile, succeeds and
    leaves in its buffer the bytes that the buffer of the write request held. *)
Theorem vblk_write_read (s : vblk_sys) (q : virtio_blk_queue_t) (idx sector : Z) (d0 d1 d2 : virtq_desc) :
  request s q idx VIRTIO_BLK_T_OUT sector d0 d1 d2 -> in_range s sector d1 d2 -> bytes_ok s.(ram) -> bytes_ok s.(disk) ->
  truthy (s.(vblk).(device_features) .& VIRTIO_BLK_F_RO) = false ->
  exists s1, virtio_blk_desc_handler q idx s = Some (Some d1.(len), s1) /\
  forall s2 q' idx' e0 e1 e2, s2.(disk) = s1.(disk) -> request s2 q' idx' VIRTIO_BLK_T_IN sector e0 e1 e2 -> in_range s2 sector e1 e2 -> e1.(len) = d1.(len) ->
  exists s3, virtio_blk_desc_handler q' idx' s2 = Some (Some e1.(len), s3) /\
    load_bytes (Z.to_nat e1.(len)) s3.(ram) e1.(addr) = load_bytes (Z.to_nat d1.(len)) s.(ram) d1.(addr).
Proof.
  intros R I Hr Hd Hro. destruct (write_request s q idx sector d0 d1 d2 R I Hr Hro) as (s1 & E1 & _ & Hdata & Hrest & _).
  exists s1. split; [done|]. intros s2 q' idx' e0 e1 e2 Es R2 I2 El.
  destruct (read_request s2 q' idx' sector e0 e1 e2 R2 I2) as (s3 & E3 & _ & _ & H3 & _); [|exists s3; split; [done|]; rewrite H3, Es, El; exact Hdata].
  rewrite Es. intros x. destruct (decide (sector * DISK_BLK_SIZE <= x < sector * DISK_BLK_SIZE + d1.(len))) as [Hx|Hx]; [|by rewrite Hrest by done].
  assert (Hl : load_bytes (Z.to_nat (len d1)) (disk s1) (sector * DISK_BLK_SIZE) !! Z.to_nat (x - sector * DISK_BLK_SIZE) = Some (mem_byte (disk s1) x)).
  { rewrite lookup_load_bytes by lia. do 2 f_equal. lia. }
  rewrite Hdata, lookup_load_bytes in Hl by lia. injection Hl as <-. apply Hr.
Qed.

(** * The queue *)

(** A request that is served leaves the registers as they are. *)
Lemma handler_vblk (q : virtio_blk_queue_t) (idx l : Z) (s s' : vblk_sys) :
  virtio_blk_desc_handler q idx s = Some (Some l, s') -> s'.(vblk) = s.(vblk).
Proof.
  assert (Hst : forall d v t t', set_req_status d v t = Some t' -> t'.(vblk) = t.(vblk)).
  { intros d v t t'. unfold set_req_status. destruct (checked_store 1 (ram t) (addr d) v); [|done]. by intros [= <-]. }
  unfold virtio_blk_desc_handler. do 3 (destruct (read_desc s q _); [cbn [mbind option_bind]|done]). destruct (_ || _); [done|].
  do 2 (destruct (checked_load _ _ _); [cbn [mbind option_bind]|done]). destruct (capacity _); [cbn [mbind option_bind]|done]. cbv zeta.
  destruct (_ <? _); [by destruct (set_req_status _ _ _)|]. destruct (_ =? VIRTIO_BLK_T_IN).
  - unfold virtio_blk_read_handler. destruct (memcpy _ _ _ _ _); [cbn [mbind option_bind]|done].
    destruct (set_req_status _ _ _) eqn:E; [|done]. intros [= _ <-]. by apply Hst in E.
  - destruct (_ =? VIRTIO_BLK_T_OUT); [|by destruct (set_req_status _ _ _)]. destruct (truthy _); [by destruct (set_req_status _ _ _)|].
    unfold virtio_blk_write_handler. destruct (memcpy _ _ _ _ _); [cbn [mbind option_bind]|done].
    destruct (set_req_status _ _ _) eqn:E; [|done]. intros [= _ <-]. by apply Hst in E.
Qed.

Lemma set_word_vblk (i v : Z) (s s' : vblk_sys) : set_ram_word i v s = Some s' -> s'.(vblk) = s.(vblk) /\ s'.(disk) = s.(disk).
Proof. unfold set_ram_word. destruct (checked_store 4 (ram s) (4 * i) v); [|done]. by intros [= <-]. Qed.

Definition next_avail (q : virtio_blk_queue_t) : virtio_blk_queue_t :=
  mk_queue q.(queue_num) q.(queue_desc) q.(queue_avail) q.(queue_used) (u16 (q.(last_avail) + 1)) q.(ready).

Lemma process_one_ok (index : nat) (u u' : Z) (s s' : vblk_sys) (q : virtio_blk_queue_t) :
  s.(vblk).(queues) !! index = Some q -> process_one index u s = Some (Some u', s') ->
  u' = u16 (u + 1) /\ s'.(vblk) = set_queues (<[index := next_avail q]> s.(vblk).(queues)) s.(vblk).
Proof.
  intros Hq. unfold process_one. rewrite Hq. cbn [mbind option_bind]. destruct (_ =? 0); [done|]. destruct (ram_word s _); [cbn [mbind option_bind]|done].
  destruct (virtio_blk_desc_handler _ _ _) as [[[l|] s1]|] eqn:E1; [cbn [mbind option_bind]|done|done]. apply handler_vblk in E1.
  destruct (set_ram_word _ _ s1) as [s2|] eqn:E2; [cbn [mbind option_bind]|done]. apply set_word_vblk in E2 as [E2 _].
  destruct (set_ram_word _ _ s2) as [s3|] eqn:E3; [cbn [mbind option_bind]|done]. apply set_word_vblk in E3 as [E3 _].
  intros [= <- <-]. split; [done|]. unfold consume. cbn [vblk set_vblk]. rewrite E3, E2, E1. f_equal. rewrite list_insert_alter. apply list_alter_ext; [|done].
  intros x Hx. rewrite Hq in Hx. by injection Hx as <-.
Qed.

(** [n] requests served one after the other. *)
Inductive serves (index : nat) : nat -> Z -> vblk_sys -> vblk_sys -> Prop :=
| serves_none u s : serves index 0 u s s
| serves_more n u s s1 s2 :
    process_one index u s = Some (Some (u16 (u + 1)), s1) -> serves index n (u16 (u + 1)) s1 s2 -> serves index (S n) u s s2.

Definition is_u16 (x : Z) : Prop := 0 <= x < 2 ^ 16.

Lemma u16_sub (x y : Z) : is_u16 x -> is_u16 y -> u16 (x - y) = 0 <-> x = y.
Proof. intros Hx Hy. unfold u16, is_u16 in *. split; [|intros ->; by rewrite Z.sub_diag]. intros H%Z.mod_divide; [|lia]. destruct H as [k Hk]. lia. Qed.

Lemma u16_next (x y : Z) : u16 (x - y) <> 0 -> u16 (x - u16 (y + 1)) = u16 (x - y) - 1.
Proof.
  intros Hne. unfold u16 in *. rewrite Zminus_mod_idemp_r. replace (x - (y + 1)) with (x - y - 1) by lia.
  rewrite <-Zminus_mod_idemp_l. pose proof (Z.mod_pos_bound (x - y) (2 ^ 16)). apply Z.mod_small. lia.
Qed.

(** The loop serves exactly the requests between the two indices, and then stops. *)
Lemma loop_serves (index n fuel : nat) (u new_avail : Z) (s sn : vblk_sys) (q : virtio_blk_queue_t) :
  s.(vblk).(queues) !! index = Some q -> is_u16 q.(last_avail) -> is_u16 new_avail -> is_u16 u ->
  Z.of_nat n = u16 (new_avail - q.(last_avail)) -> (n <= fuel)%nat -> serves index n u s sn ->
  process_loop fuel index new_avail u s = Some (Some (u16 (u + Z.of_nat n)), sn) /\
  sn.(vblk) = set_queues (<[index := mk_queue q.(queue_num) q.(queue_desc) q.(queue_avail) q.(queue_used) new_avail q.(ready)]> s.(vblk).(queues)) s.(vblk).
Proof.
  revert fuel u s q. induction n as [|n IH]; intros fuel u s q Hq Hl Hn Hu E Hf Hs; inversion Hs as [|? ? ? s1 ? H1 H2]; subst.
  - assert (new_avail = last_avail q) as -> by (by apply (proj1 (u16_sub _ _ Hn Hl))).
    destruct fuel; cbn [process_loop]; rewrite Hq; cbn [mbind option_bind]; rewrite Z.eqb_refl, Z.add_0_r; unfold u16 at 1; rewrite Z.mod_small by done;
      (split; [done|]); destruct q; cbn; rewrite list_insert_id by done; by destruct (vblk sn).
  - destruct fuel as [|fuel]; [lia|]. assert (Hne : last_avail q <> new_avail) by (intros <-; rewrite Z.sub_diag in E; change (u16 0) with 0 in E; lia).
    cbn [process_loop]. rewrite Hq. cbn [mbind option_bind]. rewrite (proj2 (Z.eqb_neq _ _) Hne), H1. cbn [mbind option_bind].
    destruct (process_one_ok index u _ s s1 q Hq H1) as [_ Ev].
    assert (Hq1 : queues (vblk s1) !! index = Some (next_avail q)) by (rewrite Ev; cbn; apply list_lookup_insert_eq; by eapply lookup_lt_Some).
    assert (Hmod : forall x, is_u16 (u16 x)) by (intros x; apply Z.mod_pos_bound; lia).
    destruct (IH fuel (u16 (u + 1)) s1 (next_avail q) Hq1) as [E1 E2]; [apply Hmod|done|apply Hmod|cbn [next_avail last_avail]; rewrite u16_next by lia; lia|lia|done|].
    rewrite E1, E2, Ev. split.
    + do 3 f_equal. unfold u16. rewrite Zplus_mod_idemp_l. f_equal. lia.
    + cbn [next_avail set_queues queues queue_num queue_desc queue_avail queue_used ready]. by rewrite list_insert_insert_eq.
Qed.

(** The index of the used ring in the upper half of its first word. *)
Lemma used_index (w u : Z) : is_u16 u -> is_u32 ((w .& Z.ones 16) .| shl32 u 16) /\ ((w .& Z.ones 16) .| shl32 u 16) ≫ 16 = u.
Proof.
  intros Hu. assert (Hs : shl32 u 16 = u ≪ 16) by (unfold shl32, u32; rewrite Z.shiftl_mul_pow2 by lia; apply Z.mod_small; unfold is_u16 in Hu; lia).
  rewrite Z.land_ones by lia. pose proof (Z.mod_pos_bound w (2 ^ 16) ltac:(lia)) as Hw. split.
  - apply u32_lor; [unfold is_u32; lia|]. rewrite Hs, Z.shiftl_mul_pow2 by lia. unfold is_u32, is_u16 in *. lia.
  - rewrite Hs, Z.shiftr_lor, Z.shiftr_shiftl_l, Z.shiftr_div_pow2, Z.div_small, Z.sub_diag, Z.shiftl_0_r by lia. done.
Qed.

(** Writing a word of the ring, and reading it back. *)
Lemma set_word_ok (i v : Z) (s : vblk_sys) :
  GUEST_RAM_CONTAINS s.(ram) (4 * i) 4 = true -> is_u32 v ->
  exists s', set_ram_word i v s = Some s' /\ s' = set_ram (store_le 4 s.(ram) (4 * i) v) s /\ ram_word s' i = Some v /\
    GUEST_RAM_CONTAINS s'.(ram) (4 * i) 4 = true /\ forall a, GUEST_RAM_CONTAINS s'.(ram) a 4 = GUEST_RAM_CONTAINS s.(ram) a 4.
Proof.
  intros Hc Hv. unfold set_ram_word, checked_store. change (Z.of_nat 4) with 4. rewrite Hc. eexists. split; [done|]. split; [done|].
  unfold ram_word, checked_load. cbn [set_ram ram]. change (Z.of_nat 4) with 4. rewrite contains_store, Hc. split_and!; [|done|intros; by rewrite contains_store].
  rewrite load_store_same. f_equal. apply Z.mod_small. exact Hv.
Qed.

(** C33. A notification serves every request. With the driver running and the queue
    ready, if each of the requests between the last index seen and the index the
    driver published can be served, the handler returns, whatever the wrap-around of
    the 16-bit indices: exactly these requests have been served, in order; the queue
    has caught up with the driver; the index of the used ring has grown by their
    number; and the interrupt is raised unless the driver has disabled it. *)
Theorem notify_serves_all (index n : nat) (s sn : vblk_sys) (q : virtio_blk_queue_t) (wa wu : Z) :
  let v := s.(vblk) in
  let new_avail := u16 (wa ≫ 16) in
  v.(queues) !! index = Some q -> is_u16 q.(last_avail) ->
  truthy (v.(status) .& VIRTIO_STATUS_DEVICE_NEEDS_RESET) = false -> truthy (v.(status) .& VIRTIO_STATUS_DRIVER_OK) = true -> q.(ready) = true ->
  ram_word s q.(queue_avail) = Some wa -> ram_word s q.(queue_used) = Some wu ->
  q.(last_avail) <> new_avail -> new_avail - q.(last_avail) <= u16 q.(queue_num) ->
  Z.of_nat n = u16 (new_avail - q.(last_avail)) -> serves index n (u16 (wu ≫ 16)) s sn ->
  GUEST_RAM_CONTAINS sn.(ram) (4 * q.(queue_used)) 4 = true -> GUEST_RAM_CONTAINS sn.(ram) (4 * q.(queue_avail)) 4 = true ->
  exists s' w f, virtio_queue_notify_handler index s = Some s' /\ s'.(disk) = sn.(disk) /\
    ram_word s' q.(queue_used) = Some w /\ w ≫ 16 = u16 (u16 (wu ≫ 16) + Z.of_nat n) /\
    ram_word s' q.(queue_avail) = Some f /\
    s'.(vblk) = set_status v.(status) (if truthy (f .& 1) then v.(interrupt_status) else v.(interrupt_status) .| VIRTIO_INT_USED_RING)
                  (set_queues (<[index := mk_queue q.(queue_num) q.(queue_desc) q.(queue_avail) q.(queue_used) new_avail q.(ready)]> v.(queues)) v).
Proof.
  intros v new_avail Hq Hl Hnr Hok Hrd Hwa Hwu Hne Hle Hn Hs Hcu Hca. assert (Hmod : forall x, is_u16 (u16 x)) by (intros x; apply Z.mod_pos_bound; lia).
  unfold virtio_queue_notify_handler. fold v. rewrite Hq. cbn [mbind option_bind]. rewrite Hnr, Hok, Hrd. cbn [negb andb]. rewrite Hwa. cbn [mbind option_bind].
  fold new_avail. rewrite (proj2 (Z.ltb_ge _ _) Hle), (proj2 (Z.eqb_neq _ _) Hne), Hwu. cbn [mbind option_bind].
  destruct (loop_serves index n (Z.to_nat (2 ^ 16)) (u16 (wu ≫ 16)) new_avail s sn q Hq Hl (Hmod _) (Hmod _) Hn) as [-> Ev]; [|done|].
  { pose proof (Hmod (new_avail - last_avail q)) as [_ Hb]. rewrite <-Hn in Hb. apply Nat2Z.inj_le. rewrite Z2Nat.id by lia. lia. }
  cbn [mbind option_bind]. unfold ram_word at 1, checked_load. change (Z.of_nat 4) with 4. rewrite Hcu. cbn [mbind option_bind]. set (w0 := load_le 4 (ram sn) _).
  destruct (set_word_ok (queue_used q) (w0 .& Z.ones 16) sn Hcu) as (s1 & -> & -> & Hw1 & Hc1 & Hk1).
  { rewrite Z.land_ones by lia. pose proof (Z.mod_pos_bound w0 (2 ^ 16)). unfold is_u32. lia. }
  cbn [mbind option_bind]. rewrite Hw1. cbn [mbind option_bind]. destruct (used_index w0 (u16 (u16 (wu ≫ 16) + Z.of_nat n)) (Hmod _)) as [Hu32 Hidx].
  destruct (set_word_ok (queue_used q) ((w0 .& Z.ones 16) .| shl32 (u16 (u16 (wu ≫ 16) + Z.of_nat n)) 16) _ Hc1 Hu32) as (s2 & -> & -> & Hw2 & Hc2 & Hk2).
  cbn [mbind option_bind]. set (s2 := set_ram _ (set_ram _ sn)) in *. assert (Hf : exists f, ram_word s2 (queue_avail q) = Some f).
  { unfold ram_word, checked_load. change (Z.of_nat 4) with 4. rewrite Hk2, Hk1, Hca. by eexists. }
  destruct Hf as [f Hf]. rewrite Hf. cbn [mbind option_bind]. assert (Ev2 : vblk s2 = vblk sn) by done.
  destruct (truthy (f .& 1)) eqn:Ef; cbn [negb]; eexists _, _, f; (split; [done|]); split_and!; try done; rewrite ?Ef.
  - rewrite Ev2, Ev, Hrd. reflexivity.
  - cbn [set_vblk vblk]. rewrite Ev2, Ev, Hrd. reflexivity.
Qed.

(** * A concrete device *)

(** Guest memory with one request of [type] for sector 1: the descriptors at 0x100,
    the available ring at 0x400, the header at 0x600, 16 bytes at 0x700 and the status
    byte at 0x800; the used ring at 0x500 is empty. *)
Definition sample_ram (type : Z) : memory_t :=
  foldr (fun x m => store_le 4 m x.1 x.2) (mk_memory ∅ 8192)
    [(0x100, 0x600); (0x108, 16); (0x10c, 0x10001); (0x110, 0x700); (0x118, 16); (0x11c, 0x20001); (0x120, 0x800); (0x128, 1);
     (0x12c, 2); (0x400, 0x10000); (0x404, 0); (0x600, type); (0x608, 1); (0x700, 0x64636261); (0x704, 0x68676665); (0x800, 0xff)].

Definition sample_queue : virtio_blk_queue_t := mk_queue 8 0x40 0x100 0x140 0 true.

(** A disk of two sectors. *)
Definition sample_vblk (type : Z) : vblk_sys :=
  mk_vsys (mk_vblk 0 0 0 0 0 [sample_queue; zero_queue] VIRTIO_STATUS_DRIVER_OK 0 (2 :: replicate 16 0)) (sample_ram type) (mk_memory ∅ 1024).

Lemma sample_bytes (type : Z) : bytes_ok (sample_vblk type).(ram) /\ bytes_ok (sample_vblk type).(disk).
Proof.
  assert (Hw : mem_wf (sample_ram type)) by (unfold sample_ram; cbn [foldr fst snd]; do 16 apply store_le_wf; done).
  split; intros x; [apply (mem_byte_range (sample_ram type)); done|]. apply (mem_byte_range (mk_memory ∅ 1024)). done.
Qed.

Lemma vblk_write_read_witness :
  exists s1, virtio_blk_desc_handler sample_queue 0 (sample_vblk 1) = Some (Some 16, s1) /\
  forall s2 q' idx' e0 e1 e2, s2.(disk) = s1.(disk) -> request s2 q' idx' VIRTIO_BLK_T_IN 1 e0 e1 e2 -> in_range s2 1 e1 e2 -> e1.(len) = 16 ->
  exists s3, virtio_blk_desc_handler q' idx' s2 = Some (Some e1.(len), s3) /\
    load_bytes (Z.to_nat e1.(len)) s3.(ram) e1.(addr) = load_bytes (Z.to_nat 16) (sample_vblk 1).(ram) 0x700.
Proof.
  destruct (sample_bytes 1) as [Hr Hd].
  apply (vblk_write_read (sample_vblk 1) sample_queue 0 1 (mk_desc 0x600 16 1 1) (mk_desc 0x700 16 1 2) (mk_desc 0x800 1 2 0)); [| |exact Hr|exact Hd|vm_compute; reflexivity].
  - constructor; vm_compute; repeat split.
  - constructor; [split; [lia|exists 2; split; [vm_compute; reflexivity|lia]]|vm_compute; reflexivity|vm_compute; reflexivity|right; cbn; lia|cbn; lia].
Defined.

Lemma notify_serves_all_witness :
  exists s' w f, virtio_queue_notify_handler 0 (sample_vblk 1) = Some s' /\ ram_word s' 0x140 = Some w /\ w ≫ 16 = 1 /\
    ram_word s' 0x100 = Some f /\ s'.(vblk).(interrupt_status) = (if truthy (f .& 1) then 0 else 1).
Proof.
  destruct (process_one 0 0 (sample_vblk 1)) as [[[u|] sn]|] eqn:E; [|vm_compute in E; discriminate E|vm_compute in E; discriminate E].
  assert (Hu : u = 1) by (vm_compute in E; congruence). subst u.
  assert (Hc : GUEST_RAM_CONTAINS sn.(ram) 0x500 4 = true /\ GUEST_RAM_CONTAINS sn.(ram) 0x400 4 = true) by (vm_compute in E; injection E as <-; vm_compute; split; reflexivity).
  destruct (notify_serves_all 0 1 (sample_vblk 1) sn sample_queue 0x10000 0) as (s' & w & f & H1 & _ & H2 & H3 & H4 & H5);
    [reflexivity|vm_compute; split; [intros H; discriminate H|reflexivity]|reflexivity..|vm_compute; reflexivity|vm_compute; reflexivity|vm_compute; intros H; discriminate H|vm_compute; intros H; discriminate H|reflexivity| |apply Hc|apply Hc|].
  - eapply serves_more; [exact E|apply serves_none].
  - exists s', w, f. split; [exact H1|]. split; [exact H2|]. split; [rewrite H3; reflexivity|]. split; [exact H4|]. rewrite H5. destruct (truthy (f .& 1)); reflexivity.
Defined.

(** ** What the device does not check *)

(** Only the first sector of a request is compared with the capacity: a transfer past
    the end of the disk leaves the mapping. *)
Example transfer_past_end :
  virtio_blk_desc_handler sample_queue 0 (set_disk (mk_memory ∅ 520) (sample_vblk 1)) = None.
Proof. by vm_compute. Qed.

(** Without a disk the capacity is 0, and no sector is refused. *)
Example no_disk_no_check :
  virtio_blk_desc_handler sample_queue 0 (set_vblk (set_priv (replicate 17 0) (sample_vblk 1).(vblk)) (set_disk (mk_memory ∅ 0) (sample_vblk 1))) = None.
Proof. by vm_compute. Qed.

(** The guest can overwrite the capacity. *)
Example guest_sets_capacity :
  (let? s := virtio_blk_write 0x100 1000 (sample_vblk 1) in capacity s.(vblk)) = Some 1000.
Proof. by vm_compute. Qed.

(** A register that cannot be read is looked up before the configuration space. *)
Example read_out_of_bounds : virtio_blk_read 0x14 (sample_vblk 1).(vblk) = None /\ virtio_blk_read 0x200 (sample_vblk 1).(vblk) = None.
Proof. by vm_compute. Qed.

(** A reset keeps only 32 bits of the capacity. *)
Example reset_truncates_capacity :
  (let? v := virtio_blk_update_status 0 (set_priv (2 :: 1 :: replicate 15 0) (sample_vblk 1).(vblk)) in capacity v) = Some 2.
Proof. by vm_compute. Qed.

(** After a wrap-around of the indices the size check does not apply, and a queue of
    size 0 divides by it. *)
Example empty_queue_divides :
  let q := mk_queue 0 0x40 0x100 0x140 2 true in
  virtio_queue_notify_handler 0 (set_vblk (set_queues [q; zero_queue] (sample_vblk 1).(vblk)) (sample_vblk 1)) = None.
Proof. by vm_compute. Qed.
