(* ===== verification/Elf.v ===== *)
(** The ELF loader (elf.c): checking the header, finding sections and symbols, and
    loading the segments into guest memory. The file is a block of bytes; a field
    that lies outside of it is [None]. A pointer into the file is an offset, and the
    names of the symbol map are such pointers, or null. *)

From stdpp Require Import base list option numbers gmap.
From Stdlib Require Import ZArith Lia Bool.
From S2P Require Import Prelude Bits Mem Map.
#[local] Open Scope Z_scope.

Definition EM_RISCV : Z := 243.
Definition ELFCLASS32 : Z := 1.
Definition EI_CLASS : Z := 4.
Definition PT_LOAD : Z := 1.
Definition STT_NOTYPE : Z := 0.
Definition STT_OBJECT : Z := 1.
Definition STT_FUNC : Z := 2.
Definition SHT_NOBITS : Z := 8.
Definition ELF_ST_TYPE (x : Z) : Z := x .& 0xf.

(** [struct elf_internal]; [hdr] is the start of the file. *)
Record elf_t : Type := mk_elf { raw_data : option memory_t; symbols : map_t Z (option Z) }.

(** [map_init(int, char *, map_cmp_uint)]. *)
Definition elf_new : option elf_t :=
  let? m := map_new 4 8 map_cmp_uint in Some (mk_elf None m).

Definition release (e : elf_t) : elf_t := mk_elf None e.(symbols).

(** [n] bytes of the file. *)
Definition raw (e : elf_t) (n : nat) (a : Z) : option Z :=
  let? m := e.(raw_data) in if 0 <=? a then checked_load n m a else None.

(** [struct Elf32_Ehdr] *)
Definition e_machine (e : elf_t) : option Z := raw e 2 18.
Definition e_phoff (e : elf_t) : option Z := raw e 4 28.
Definition e_shoff (e : elf_t) : option Z := raw e 4 32.
Definition e_phentsize (e : elf_t) : option Z := raw e 2 42.
Definition e_phnum (e : elf_t) : option Z := raw e 2 44.
Definition e_shentsize (e : elf_t) : option Z := raw e 2 46.
Definition e_shnum (e : elf_t) : option Z := raw e 2 48.
Definition e_shstrndx (e : elf_t) : option Z := raw e 2 50.

(** [struct Elf32_Phdr], [struct Elf32_Shdr] and [struct Elf32_Sym] at an offset. *)
Definition p_type (e : elf_t) (h : Z) : option Z := raw e 4 h.
Definition p_offset (e : elf_t) (h : Z) : option Z := raw e 4 (h + 4).
Definition p_vaddr (e : elf_t) (h : Z) : option Z := raw e 4 (h + 8).
Definition p_filesz (e : elf_t) (h : Z) : option Z := raw e 4 (h + 16).
Definition p_memsz (e : elf_t) (h : Z) : option Z := raw e 4 (h + 20).
Definition sh_name (e : elf_t) (h : Z) : option Z := raw e 4 h.
Definition sh_type (e : elf_t) (h : Z) : option Z := raw e 4 (h + 4).
Definition sh_addr (e : elf_t) (h : Z) : option Z := raw e 4 (h + 12).
Definition sh_offset (e : elf_t) (h : Z) : option Z := raw e 4 (h + 16).
Definition sh_size (e : elf_t) (h : Z) : option Z := raw e 4 (h + 20).
Definition st_name (e : elf_t) (s : Z) : option Z := raw e 4 s.
Definition st_value (e : elf_t) (s : Z) : option Z := raw e 4 (s + 4).
Definition st_info (e : elf_t) (s : Z) : option Z := raw e 1 (s + 12).

Definition sizeof_Elf32_Sym : Z := 16.

(** [memcmp(e_ident, "\177ELF", 4)], the class and the machine. *)
Definition is_valid (e : elf_t) : option bool :=
  let? magic := raw e 4 0 in
  if negb (magic =? 0x464c457f) then Some false
  else
    let? class := raw e 1 EI_CLASS in
    if negb (class =? ELFCLASS32) then Some false
    else
      let? machine := e_machine e in
      Some (machine =? EM_RISCV).

(** A product of two [int]s; it is undefined if it does not fit. *)
Definition int_mul (x y : Z) : option Z := if x * y <? 2 ^ 31 then Some (x * y) else None.

(** [!strcmp(name, p)], for a [name] given by its characters. *)
Fixpoint str_equal (e : elf_t) (name : list Z) (p : Z) : option bool :=
  let? c := raw e 1 p in
  match name with
  | [] => Some (c =? 0)
  | x :: name => if c =? x then str_equal e name (p + 1) else Some false
  end.

Definition get_sh_string (e : elf_t) (index : Z) : option Z :=
  let? off := e_shoff e in
  let? ndx := e_shstrndx e in
  let? sz := e_shentsize e in
  let? x := int_mul ndx sz in
  let? o := sh_offset e (u32 (off + x)) in
  Some (o + i32 index).

(** The loop of [get_section_header] over the [n] entries from [s] on. *)
Fixpoint section_from (e : elf_t) (name : list Z) (n : nat) (s : Z) : option (option Z) :=
  match n with
  | O => Some None
  | S n =>
      let? off := e_shoff e in
      let? sz := e_shentsize e in
      let? x := int_mul s sz in
      let shdr := u32 (off + x) in
      let? idx := sh_name e shdr in
      let? sname := get_sh_string e idx in
      let? eq := str_equal e name sname in
      if eq : bool then Some (Some shdr) else section_from e name n (s + 1)
  end.

(** An offset, or null. *)
Definition get_section_header (e : elf_t) (name : list Z) : option (option Z) :=
  let? n := e_shnum e in section_from e name (Z.to_nat n) 0.

(** The names of the sections, as characters. *)
Definition str_strtab : list Z := [46; 115; 116; 114; 116; 97; 98].
Definition str_symtab : list Z := [46; 115; 121; 109; 116; 97; 98].
Definition str_data : list Z := [46; 100; 97; 116; 97].

Definition get_strtab (e : elf_t) : option (option Z) :=
  let? h := get_section_header e str_strtab in
  match h with
  | None => Some None
  | Some h => let? o := sh_offset e h in Some (Some o)
  end.

(** The string table, the first symbol and the number of symbols: the loops end at
    the first one that is not below [sh_offset + sh_size]. *)
Definition symbol_table (e : elf_t) : option (option (Z * Z * nat)) :=
  let? strtab := get_strtab e in
  match strtab with
  | None => Some None
  | Some strtab =>
      let? h := get_section_header e str_symtab in
      match h with
      | None => Some None
      | Some h =>
          let? sym := sh_offset e h in
          let? size := sh_size e h in
          Some (Some (strtab, sym, Z.to_nat ((size + sizeof_Elf32_Sym - 1) / sizeof_Elf32_Sym)))
      end
  end.

Fixpoint symbol_loop (e : elf_t) (name : list Z) (strtab : Z) (n : nat) (sym : Z) : option (option Z) :=
  match n with
  | O => Some None
  | S n =>
      let? nm := st_name e sym in
      let? eq := str_equal e name (strtab + nm) in
      if eq : bool then Some (Some sym) else symbol_loop e name strtab n (sym + sizeof_Elf32_Sym)
  end.

Definition elf_get_symbol (e : elf_t) (name : list Z) : option (option Z) :=
  let? t := symbol_table e in
  match t with
  | None => Some None
  | Some (strtab, sym, n) => symbol_loop e name strtab n sym
  end.

Definition set_symbols (m : map_t Z (option Z)) (e : elf_t) : elf_t := mk_elf e.(raw_data) m.

Fixpoint fill_loop (e : elf_t) (strtab : Z) (n : nat) (sym : Z) (m : map_t Z (option Z)) : option (map_t Z (option Z)) :=
  match n with
  | O => Some m
  | S n =>
      let? nm := st_name e sym in
      let? info := st_info e sym in
      let t := ELF_ST_TYPE info in
      let? m :=
        if (t =? STT_NOTYPE) || (t =? STT_OBJECT) || (t =? STT_FUNC) then
          let? v := st_value e sym in
          let? (_, m) := map_insert m v (Some (strtab + nm)) in Some m
        else Some m in
      fill_loop e strtab n (sym + sizeof_Elf32_Sym) m
  end.

Definition fill_symbols (e : elf_t) : option elf_t :=
  let? (_, m) := map_insert (map_clear e.(symbols)) 0 None in
  let e := set_symbols m e in
  let? t := symbol_table e in
  match t with
  | None => Some e
  | Some (strtab, sym, n) => let? m := fill_loop e strtab n sym m in Some (set_symbols m e)
  end.

(** The name, or null. *)
Definition elf_find_symbol (e : elf_t) (addr : Z) : option (option Z * elf_t) :=
  let? e := if map_empty e.(symbols) then fill_symbols e else Some e in
  let it := map_find e.(symbols) addr in
  if map_at_end it then Some (None, e) else let? v := map_iter_value e.(symbols) it in Some (v, e).

(** [None] inside: the result is [false]. *)
Definition elf_get_data_section_range (e : elf_t) : option (option (Z * Z)) :=
  let? h := get_section_header e str_data in
  match h with
  | None => Some None
  | Some h =>
      let? t := sh_type e h in
      if t =? SHT_NOBITS then Some None
      else
        let? start := sh_addr e h in
        let? size := sh_size e h in
        Some (Some (start, u32 (start + size)))
  end.

(** [memory_write] from the file: the source is read after the check of the
    destination. *)
Definition copy_in (e : elf_t) (mem : memory_t) (vaddr off to_copy : Z) : option (bool * memory_t) :=
  let size := u32 to_copy in
  if (mem.(mem_size) <=? vaddr) || (mem.(mem_size) - vaddr <? size) then Some (false, mem)
  else
    let? src := e.(raw_data) in
    if GUEST_RAM_CONTAINS src off size then Some (memory_write mem vaddr (load_bytes (Z.to_nat size) src off)) else None.

(** One program header at [phdr]. *)
Definition load_segment (e : elf_t) (phdr : Z) (mem : memory_t) : option (bool * memory_t) :=
  let? type := p_type e phdr in
  if negb (type =? PT_LOAD) then Some (true, mem)
  else
    let? memsz := p_memsz e phdr in
    let? filesz := p_filesz e phdr in
    let to_copy := i32 (Z.min memsz filesz) in
    let? vaddr := p_vaddr e phdr in
    let? (ok, mem) :=
      if truthy to_copy then let? off := p_offset e phdr in copy_in e mem vaddr off to_copy else Some (true, mem) in
    if negb ok then Some (false, mem)
    else
      let to_zero := i32 (u32 (Z.max memsz filesz - u32 to_copy)) in
      if truthy to_zero then Some (memory_fill mem (u32 (vaddr + to_copy)) (u32 to_zero) 0) else Some (true, mem).

Fixpoint load_loop (e : elf_t) (n : nat) (p : Z) (mem : memory_t) : option (bool * memory_t) :=
  match n with
  | O => Some (true, mem)
  | S n =>
      let? off := e_phoff e in
      let? sz := e_phentsize e in
      let? x := int_mul p sz in
      let? (ok, mem) := load_segment e (u32 (off + x)) mem in
      if ok : bool then load_loop e n (p + 1) mem else Some (false, mem)
  end.

Definition elf_load (e : elf_t) (mem : memory_t) : option (bool * memory_t) :=
  let? n := e_phnum e in load_loop e (Z.to_nat n) 0 mem.

(** The file that opening the path gives, or [None]; an empty file cannot be
    mapped. *)
Definition elf_open (file : option memory_t) (e : elf_t) : option (bool * elf_t) :=
  let e := match e.(raw_data) with Some _ => release e | None => e end in
  match file with
  | None => Some (false, release e)
  | Some m =>
      if m.(mem_size) =? 0 then Some (false, release e)
      else
        let e := mk_elf (Some m) e.(symbols) in
        let? ok := is_valid e in
        if ok : bool then Some (true, e) else Some (false, release e)
  end.
