(* ===== verification/ElfSpec.v ===== *)
(** The loader puts the segments of the file into guest memory, and the symbol map
    names the first symbol of each address. *)

From stdpp Require Import base list option numbers gmap.
From Stdlib Require Import ZArith Lia Bool.
From S2P Require Import Prelude Bits Mem MemSpec Map MapSpec MapRefine VblkSpec Elf.
#[local] Open Scope Z_scope.

(** * Segments *)

Record segment : Type := mk_segment { s_offset : Z; s_vaddr : Z; s_filesz : Z; s_memsz : Z }.

Definition copied (s : segment) : Z := Z.min s.(s_memsz) s.(s_filesz).
Definition extent (s : segment) : Z := Z.max s.(s_memsz) s.(s_filesz).

(** The segment of a program header, [None] if it is not loaded. *)
Definition read_segment (e : elf_t) (h : Z) : option (option segment) :=
  let? t := p_type e h in
  if t =? PT_LOAD then
    let? o := p_offset e h in
    let? v := p_vaddr e h in
    let? f := p_filesz e h in
    let? m := p_memsz e h in
    Some (Some (mk_segment o v f m))
  else Some None.

(** The headers from number [p] on. *)
Fixpoint read_segments (e : elf_t) (n : nat) (p : Z) : option (list segment) :=
  match n with
  | O => Some []
  | S n =>
      let? off := e_phoff e in
      let? sz := e_phentsize e in
      let? x := int_mul p sz in
      let? s := read_segment e (u32 (off + x)) in
      let? l := read_segments e n (p + 1) in
      Some (match s with Some s => s :: l | None => l end)
  end.

Definition segments (e : elf_t) : option (list segment) := let? n := e_phnum e in read_segments e (Z.to_nat n) 0.

(** A segment on top of memory contents [f]: bytes of the file, then zeros. *)
Definition overlay (src : memory_t) (f : Z -> Z) (s : segment) (b : Z) : Z :=
  if decide (s.(s_vaddr) <= b < s.(s_vaddr) + copied s) then mem_byte src (s.(s_offset) + (b - s.(s_vaddr)))
  else if decide (s.(s_vaddr) + copied s <= b < s.(s_vaddr) + extent s) then 0
  else f b.

(** The sizes fit an [int], the image is in the file and the extent in memory. *)
Record loadable (src : memory_t) (size : Z) (s : segment) : Prop := {
  ft_sizes : 0 <= s.(s_filesz) < 2 ^ 31 /\ 0 <= s.(s_memsz) < 2 ^ 31;
  ft_file : 0 <= s.(s_offset) /\ s.(s_offset) + copied s <= src.(mem_size) /\ (0 < copied s -> s.(s_offset) < src.(mem_size));
  ft_vaddr : 0 <= s.(s_vaddr) < 2 ^ 32;
  ft_memory : 0 < extent s -> s.(s_vaddr) + extent s <= size }.

(** Segments on equal contents. *)
Lemma overlays_ext (src : memory_t) (segs : list segment) (f g : Z -> Z) :
  (forall b, f b = g b) -> forall b, foldl (overlay src) f segs b = foldl (overlay src) g segs b.
Proof.
  revert f g. induction segs as [|s segs IH]; intros f g Hfg; [exact Hfg|]. cbn [foldl]. apply IH. intros b. unfold overlay. by rewrite Hfg.
Qed.

Section Load.
Context (e : elf_t) (src : memory_t) (Hraw : e.(raw_data) = Some src) (Hsrc : bytes_ok src).

Lemma i32_small (x : Z) : 0 <= x < 2 ^ 31 -> i32 x = x.
Proof. intros Hx. apply i32_id. unfold is_i32. lia. Qed.

Lemma truthy_pos (x : Z) : 0 <= x -> truthy x = (0 <? x).
Proof. intros Hx. unfold truthy. destruct (Z.eqb_spec x 0), (Z.ltb_spec 0 x); lia || done. Qed.

Lemma copy_ok (mem : memory_t) (s : segment) :
  loadable src mem.(mem_size) s -> 0 < copied s ->
  copy_in e mem s.(s_vaddr) s.(s_offset) (copied s) =
  Some (true, store_bytes mem s.(s_vaddr) (load_bytes (Z.to_nat (copied s)) src s.(s_offset))).
Proof.
  intros [[F1 F2] [F3 [F4 F5]] F6 F7] Hc. specialize (F5 Hc). assert (Hx : copied s <= extent s) by (unfold copied, extent; lia). specialize (F7 ltac:(lia)).
  assert (Hu : u32 (copied s) = copied s) by (apply u32_id; unfold is_u32, copied in *; lia). unfold copy_in. rewrite Hu.
  rewrite (proj2 (Z.leb_gt _ _)), (proj2 (Z.ltb_ge _ _)) by lia. cbn [orb]. rewrite Hraw. cbn [mbind option_bind].
  rewrite (proj2 (contains_spec src (s_offset s) (copied s) ltac:(lia))) by lia. unfold memory_write. rewrite length_load_bytes, Z2Nat.id by lia.
  by rewrite (proj2 (Z.leb_gt _ _)), (proj2 (Z.ltb_ge _ _)) by lia.
Qed.

(** One header. *)
Lemma segment_ok (h : Z) (mem : memory_t) (r : option segment) :
  mem.(mem_size) <= 2 ^ 32 -> read_segment e h = Some r -> (forall s, r = Some s -> loadable src mem.(mem_size) s) ->
  exists mem', load_segment e h mem = Some (true, mem') /\ mem'.(mem_size) = mem.(mem_size) /\
    forall b, mem_byte mem' b = match r with Some s => overlay src (mem_byte mem) s b | None => mem_byte mem b end.
Proof.
  intros Hlim. unfold read_segment, load_segment. destruct (p_type e h) as [t|]; [cbn [mbind option_bind]|done]. destruct (t =? PT_LOAD); cbn [negb].
  2: { intros [= <-] _. by exists mem. }
  destruct (p_offset e h) as [o|]; [cbn [mbind option_bind]|done]. destruct (p_vaddr e h) as [v|]; [cbn [mbind option_bind]|done].
  destruct (p_filesz e h) as [f|]; [cbn [mbind option_bind]|done]. destruct (p_memsz e h) as [m|]; [cbn [mbind option_bind]|done].
  intros [= <-] Hf. set (s := mk_segment o v f m). specialize (Hf s eq_refl). pose proof Hf as [[F1 F2] _ F6 F7].
  change (Z.min m f) with (copied s). change (Z.max m f) with (extent s). cbn [s_filesz s_memsz s s_vaddr] in F1, F2, F6, F7.
  assert (Hc : 0 <= copied s < 2 ^ 31) by (unfold copied, s; cbn; lia). assert (He : copied s <= extent s < 2 ^ 31) by (unfold copied, extent, s; cbn; lia).
  rewrite (i32_small (copied s)), truthy_pos by lia.
  assert (Hcopy : exists m1, (if 0 <? copied s then copy_in e mem v o (copied s) else Some (true, mem)) = Some (true, m1) /\ mem_size m1 = mem_size mem /\
    forall b, mem_byte m1 b = if decide (v <= b < v + copied s) then mem_byte src (o + (b - v)) else mem_byte mem b).
  { destruct (Z.ltb_spec 0 (copied s)) as [Hp|Hp].
    - eexists. split; [exact (copy_ok mem s Hf Hp)|]. split; [apply store_bytes_size|]. intros b. cbn [s s_vaddr s_offset]. rewrite copied_byte by done. by rewrite Z2Nat.id by lia.
    - exists mem. split_and!; [done|done|]. intros b. by rewrite decide_False by lia. }
  destruct Hcopy as (m1 & -> & Hs1 & Hb1). cbn [mbind option_bind negb]. rewrite (u32_id (copied s)) by (unfold is_u32; lia).
  rewrite (u32_id (extent s - copied s)) by (unfold is_u32; lia). rewrite i32_small, truthy_pos by lia. unfold overlay. cbn [s s_vaddr s_offset].
  destruct (Z.ltb_spec 0 (extent s - copied s)) as [Hz|Hz].
  - specialize (F7 ltac:(lia)). pose proof (u32_id (extent s - copied s) ltac:(unfold is_u32; lia)) as Eu. rewrite Eu. unfold memory_fill.
    rewrite (u32_id (v + copied s)) by (unfold is_u32; lia). rewrite (proj2 (Z.leb_gt _ _)), (proj2 (Z.ltb_ge _ _)) by lia. cbn [orb].
    eexists. split; [done|]. split; [by rewrite store_bytes_size|]. intros b. rewrite mem_byte_store_bytes, Hb1.
    destruct (decide (v <= b < v + copied s)), (Z.leb_spec (v + copied s) b); try lia.
    + case_decide; [by rewrite lookup_replicate_2 by lia|]. by rewrite lookup_ge_None_2 by (rewrite length_replicate; lia).
    + by rewrite decide_False by lia.
  - exists m1. split; [done|]. split; [done|]. intros b. rewrite Hb1. destruct (decide (v <= b < v + copied s)); [done|]. by rewrite decide_False by lia.
Qed.

(** The headers from number [p] on. *)
Lemma load_loop_ok (n : nat) (p : Z) (mem : memory_t) (segs : list segment) :
  mem.(mem_size) <= 2 ^ 32 -> read_segments e n p = Some segs -> Forall (loadable src mem.(mem_size)) segs ->
  exists mem', load_loop e n p mem = Some (true, mem') /\ mem'.(mem_size) = mem.(mem_size) /\
    forall b, mem_byte mem' b = foldl (overlay src) (mem_byte mem) segs b.
Proof.
  revert p mem segs. induction n as [|n IH]; intros p mem segs Hlim; cbn [read_segments load_loop].
  { intros [= <-] _. by exists mem. }
  destruct (e_phoff e) as [off|]; [cbn [mbind option_bind]|done]. destruct (e_phentsize e) as [sz|]; [cbn [mbind option_bind]|done].
  destruct (int_mul p sz) as [x|]; [cbn [mbind option_bind]|done].
  destruct (read_segment e (u32 (off + x))) as [r|] eqn:Er; [cbn [mbind option_bind]|done].
  destruct (read_segments e n (p + 1)) as [l|] eqn:El; [cbn [mbind option_bind]|done]. intros [= <-] Hf.
  destruct (segment_ok _ mem r Hlim Er) as (m1 & -> & Hs1 & Hb1). { intros s ->. by inversion Hf. }
  cbn [mbind option_bind]. destruct (IH (p + 1) m1 l) as (m2 & -> & Hs2 & Hb2); [by rewrite Hs1|done| |].
  { rewrite Hs1. destruct r; [by inversion Hf|done]. }
  exists m2. split; [done|]. split; [by rewrite Hs2|]. intros b. rewrite Hb2. destruct r as [s|]; cbn [foldl]; by apply overlays_ext.
Qed.
End Load.

(** C39. [elf_load] on a file whose loadable segments have sizes that fit an [int], images
    inside of the file and extents inside of guest memory succeeds, and leaves in memory
    the contents it had with the segments on top, each one the bytes of its image followed
    by zeros up to its size, in the order of the program headers. *)
Theorem elf_load_correct (e : elf_t) (src mem : memory_t) (segs : list segment) :
  e.(raw_data) = Some src -> bytes_ok src -> mem.(mem_size) <= 2 ^ 32 ->
  segments e = Some segs -> Forall (loadable src mem.(mem_size)) segs ->
  exists mem', elf_load e mem = Some (true, mem') /\ mem'.(mem_size) = mem.(mem_size) /\
    forall b, mem_byte mem' b = foldl (overlay src) (mem_byte mem) segs b.
Proof.
  intros Hraw Hsrc Hlim. unfold segments, elf_load. destruct (e_phnum e) as [n|]; [cbn [mbind option_bind]|done].
  by apply load_loop_ok.
Qed.

(** * Symbols *)

(** The symbols the map takes, by value and name, in the order of the table. *)
Fixpoint read_symbols (e : elf_t) (strtab : Z) (n : nat) (sym : Z) : option (list (Z * Z)) :=
  match n with
  | O => Some []
  | S n =>
      let? nm := st_name e sym in
      let? info := st_info e sym in
      let t := ELF_ST_TYPE info in
      let? here :=
        if (t =? STT_NOTYPE) || (t =? STT_OBJECT) || (t =? STT_FUNC) then let? v := st_value e sym in Some [(v, strtab + nm)] else Some [] in
      let? l := read_symbols e strtab n (sym + sizeof_Elf32_Sym) in
      Some (here ++ l)
  end.

Definition table_symbols (e : elf_t) : option (list (Z * Z)) :=
  let? t := symbol_table e in
  match t with None => Some [] | Some (strtab, sym, n) => read_symbols e strtab n sym end.

(** The first symbol of an address. *)
Fixpoint first_at (l : list (Z * Z)) (addr : Z) : option Z :=
  match l with [] => None | (v, nm) :: l => if decide (v = addr) then Some nm else first_at l addr end.

(** Address 0 has no name. *)
Definition name_of (l : list (Z * Z)) (addr : Z) : option Z := if decide (addr = 0) then None else first_at l addr.

(** Lookups, one after the other. *)
Fixpoint find_all (e : elf_t) (addrs : list Z) : option (list (option Z)) :=
  match addrs with
  | [] => Some []
  | a :: addrs => let? (r, e) := elf_find_symbol e a in let? rs := find_all e addrs in Some (r :: rs)
  end.

Section Symbols.
Implicit Types (m : map_t Z (option Z)) (g : gmap Z (option Z)).

(** A symbol enters only at an address that has none. *)
Definition add_first g (s : Z * Z) : gmap Z (option Z) := match g !! s.1 with Some _ => g | None => <[s.1 := Some s.2]> g end.

Lemma add_all_lookup (l : list (Z * Z)) g (a : Z) :
  (foldl add_first g l : gmap Z (option Z)) !! a = match g !! a with Some x => Some x | None => option_map Some (first_at l a) end.
Proof.
  revert g. induction l as [|[v nm] l IH]; intros g; cbn [foldl first_at]; [by destruct (g !! a)|]. rewrite IH. unfold add_first. cbn.
  destruct (decide (v = a)) as [->|Hv].
  - destruct (g !! a) eqn:E; [by rewrite E|by rewrite lookup_insert_eq].
  - destruct (g !! v); [done|by rewrite lookup_insert_ne].
Qed.

(** Only the file matters to the readers. *)
Lemma str_equal_symbols m (e : elf_t) (name : list Z) (p : Z) : str_equal (set_symbols m e) name p = str_equal e name p.
Proof.
  revert p. induction name as [|x name IH]; intros p; [done|]. cbn [str_equal]. change (raw (set_symbols m e)) with (raw e).
  destruct (raw e 1 p); [cbn [mbind option_bind]|done]. by rewrite IH.
Qed.

Lemma section_symbols m (e : elf_t) (name : list Z) (n : nat) (s : Z) : section_from (set_symbols m e) name n s = section_from e name n s.
Proof.
  revert s. induction n as [|n IH]; intros s; [done|]. cbn [section_from].
  change (e_shoff (set_symbols m e)) with (e_shoff e). change (e_shentsize (set_symbols m e)) with (e_shentsize e).
  change (sh_name (set_symbols m e)) with (sh_name e). change (get_sh_string (set_symbols m e)) with (get_sh_string e).
  cbv zeta. do 5 (apply option_bind_ext_fun; intros ?). rewrite str_equal_symbols. apply option_bind_ext_fun. intros []; [done|apply IH].
Qed.

Lemma table_symbol_symbols m (e : elf_t) : symbol_table (set_symbols m e) = symbol_table e.
Proof.
  unfold symbol_table, get_strtab, get_section_header. change (e_shnum (set_symbols m e)) with (e_shnum e).
  change (sh_offset (set_symbols m e)) with (sh_offset e). change (sh_size (set_symbols m e)) with (sh_size e).
  destruct (e_shnum e); [cbn [mbind option_bind]|done]. by rewrite !section_symbols.
Qed.
(** * Filling the map *)

Lemma insert_first m (k nm : Z) :
  map_ok m -> m.(Map.size) < SIZE_MAX ->
  exists b m', map_insert m k (Some nm) = Some (b, m') /\ map_ok m' /\ contents m' = add_first (contents m) (k, nm) /\
    m'.(Map.size) <= m.(Map.size) + 1.
Proof.
  intros Hok Hsz. destruct (insert_refines m k (Some nm) Hok Hsz) as (m' & Hi & Hok' & Hc). eexists _, m'. split; [exact Hi|].
  split; [exact Hok'|]. split; [rewrite Hc; unfold add_first; cbn [fst snd]; reflexivity|].
  pose proof (size_refines m Hok) as Hs. pose proof (size_refines m' Hok') as Hs'. unfold map_size in Hs, Hs'. rewrite Hs, Hs', Hc.
  destruct (contents m !! k) eqn:E; [lia|]. rewrite map_size_insert_None by exact E. lia.
Qed.

Lemma fill_loop_ok (e : elf_t) (strtab : Z) (n : nat) (sym : Z) m (l : list (Z * Z)) :
  map_ok m -> m.(Map.size) + Z.of_nat n <= SIZE_MAX -> read_symbols e strtab n sym = Some l ->
  exists m', fill_loop e strtab n sym m = Some m' /\ map_ok m' /\ contents m' = foldl add_first (contents m) l.
Proof.
  revert sym m l. induction n as [|n IH]; intros sym m l Hok Hsz; cbn [read_symbols fill_loop].
  { intros [= <-]. by exists m. }
  destruct (st_name e sym) as [nm|]; [cbn [mbind option_bind]|done]. destruct (st_info e sym) as [info|]; [cbn [mbind option_bind]|done].
  destruct ((ELF_ST_TYPE info =? STT_NOTYPE) || (ELF_ST_TYPE info =? STT_OBJECT) || (ELF_ST_TYPE info =? STT_FUNC)).
  - destruct (st_value e sym) as [v|]; [cbn [mbind option_bind]|done].
    destruct (read_symbols e strtab n (sym + sizeof_Elf32_Sym)) as [l'|] eqn:El; [cbn [mbind option_bind]|done]. intros [= <-].
    destruct (insert_first m v (strtab + nm) Hok ltac:(lia)) as (b & m1 & -> & Hok1 & Hc1 & Hs1). cbn [mbind option_bind].
    destruct (IH (sym + sizeof_Elf32_Sym) m1 l' Hok1 ltac:(lia) El) as (m2 & -> & Hok2 & Hc2). exists m2. split_and!; try done. by rewrite Hc2, Hc1.
  - cbn [mbind option_bind]. destruct (read_symbols e strtab n (sym + sizeof_Elf32_Sym)) as [l'|] eqn:El; [cbn [mbind option_bind]|done]. intros [= <-].
    apply (IH (sym + sizeof_Elf32_Sym) m l' Hok ltac:(lia) El).
Qed.

(** The symbols as the map has them once it is filled. *)
Definition named (l : list (Z * Z)) m : Prop := map_ok m /\ contents m = foldl add_first {[0 := None]} l.

Lemma named_lookup (l : list (Z * Z)) m (a : Z) : named l m -> contents m !! a = if decide (a = 0) then Some None else option_map Some (first_at l a).
Proof.
  intros [_ Hc]. rewrite Hc, add_all_lookup. destruct (decide (a = 0)) as [->|Ha]; [by rewrite lookup_singleton_eq|by rewrite lookup_singleton_ne].
Qed.
Lemma read_symbols_symbols m (e : elf_t) (strtab : Z) (n : nat) (sym : Z) :
  read_symbols (set_symbols m e) strtab n sym = read_symbols e strtab n sym.
Proof.
  revert sym. induction n as [|n IH]; intros sym; [done|]. cbn [read_symbols].
  change (st_name (set_symbols m e)) with (st_name e). change (st_info (set_symbols m e)) with (st_info e).
  change (st_value (set_symbols m e)) with (st_value e). cbv zeta. do 3 (apply option_bind_ext_fun; intros ?). by rewrite IH.
Qed.

Lemma raw_range (e : elf_t) (src : memory_t) (n : nat) (a v : Z) :
  e.(raw_data) = Some src -> mem_wf src -> raw e n a = Some v -> 0 <= v < 2 ^ (8 * Z.of_nat n).
Proof.
  unfold raw. intros -> Hw. cbn [mbind option_bind]. case_match; [|done]. unfold checked_load. case_match; [|done]. intros [= <-]. by apply load_le_range.
Qed.

Lemma symbol_count (e : elf_t) (src : memory_t) (strtab sym : Z) (n : nat) :
  e.(raw_data) = Some src -> mem_wf src -> symbol_table e = Some (Some (strtab, sym, n)) -> Z.of_nat n <= 2 ^ 28.
Proof.
  intros Hraw Hw. unfold symbol_table. destruct (get_strtab e) as [[st|]|]; [cbn [mbind option_bind]|done..].
  destruct (get_section_header e str_symtab) as [[h|]|]; [cbn [mbind option_bind]|done..].
  destruct (sh_offset e h); [cbn [mbind option_bind]|done]. destruct (sh_size e h) as [sz|] eqn:E; [cbn [mbind option_bind]|done].
  intros [= _ _ <-]. apply (raw_range e src _ _ _ Hraw Hw) in E. unfold sizeof_Elf32_Sym. change (8 * Z.of_nat 4) with 32 in E.
  rewrite Z2Nat.id by (apply Z.div_pos; lia). apply Z.lt_succ_r, Z.div_lt_upper_bound; lia.
Qed.

(** Filling an empty map. *)
Lemma fill_symbols_ok (e : elf_t) (src : memory_t) (l : list (Z * Z)) :
  e.(raw_data) = Some src -> mem_wf src -> map_ok e.(symbols) -> table_symbols e = Some l ->
  exists m, fill_symbols e = Some (set_symbols m e) /\ named l m.
Proof.
  intros Hraw Hw Hok Hl. unfold fill_symbols. destruct (clear_ok e.(symbols) Hok) as [Hok0 Hc0].
  destruct (insert_refines (map_clear e.(symbols)) 0 None Hok0 ltac:(by vm_compute)) as (m0 & -> & Hok1 & Hc1).
  rewrite Hc0, lookup_empty in Hc1. cbn [mbind option_bind]. rewrite table_symbol_symbols. unfold table_symbols in Hl.
  assert (Hs : m0.(Map.size) = 1).
  { pose proof (size_refines m0 Hok1) as Hs. unfold map_size in Hs. rewrite Hs, Hc1. rewrite map_size_insert_None, map_size_empty by apply lookup_empty. lia. }
  destruct (symbol_table e) as [[[[strtab sym] n]|]|] eqn:Et; cbn [mbind option_bind] in Hl |- *; [| |done].
  - pose proof (symbol_count e src strtab sym n Hraw Hw Et) as Hn.
    destruct (fill_loop_ok (set_symbols m0 e) strtab n sym m0 l) as (m & -> & Hok2 & Hc2);
      [done|rewrite Hs; unfold SIZE_MAX; lia|by rewrite read_symbols_symbols|].
    exists m. split; [done|]. split; [done|]. rewrite Hc2, Hc1. done.
  - injection Hl as <-. exists m0. split; [done|]. split; [done|]. by rewrite Hc1.
Qed.

(** A lookup in a filled map. *)
Lemma find_named (e : elf_t) (l : list (Z * Z)) (a : Z) :
  named l e.(symbols) -> elf_find_symbol e a = Some (name_of l a, e).
Proof.
  intros Hn. pose proof Hn as [Hok _]. unfold elf_find_symbol. rewrite empty_refines by done. rewrite bool_decide_false.
  2: { intros E. pose proof (named_lookup l _ 0 Hn) as H0. rewrite E, lookup_empty in H0. done. }
  cbn [mbind option_bind]. pose proof (found_iff e.(symbols) a Hok) as Hf. pose proof (named_lookup l _ a Hn) as Hl. rewrite Hl in Hf.
  unfold name_of. destruct (map_find (symbols e) a) as [k|]; cbn [map_at_end].
  - destruct Hf as (-> & -> & Hs). cbn [mbind option_bind]. destruct (decide (a = 0)); [done|]. destruct (first_at l a); [done|]. by destruct Hs.
  - destruct (decide (a = 0)); [done|]. by destruct (first_at l a).
Qed.

Lemma find_all_named (e : elf_t) (l : list (Z * Z)) (addrs : list Z) :
  named l e.(symbols) -> find_all e addrs = Some (map (name_of l) addrs).
Proof.
  intros Hn. induction addrs as [|a addrs IH]; [done|]. cbn [find_all map]. rewrite (find_named e l a Hn). cbn [mbind option_bind]. by rewrite IH.
Qed.

(** A lookup in an empty map fills it first. *)
Lemma find_fills (e : elf_t) (src : memory_t) (l : list (Z * Z)) (a : Z) :
  e.(raw_data) = Some src -> mem_wf src -> map_ok e.(symbols) -> contents e.(symbols) = ∅ -> table_symbols e = Some l ->
  exists m, elf_find_symbol e a = Some (name_of l a, set_symbols m e) /\ named l m.
Proof.
  intros Hraw Hw Hok He Hl. destruct (fill_symbols_ok e src l Hraw Hw Hok Hl) as (m & Hf & Hn). exists m. split; [|done].
  pose proof (find_named (set_symbols m e) l a Hn) as Hq. unfold elf_find_symbol in Hq |- *. rewrite empty_refines, bool_decide_true by done.
  rewrite Hf. cbn [mbind option_bind]. destruct (map_empty (symbols (set_symbols m e))) eqn:Em; [|exact Hq].
  rewrite empty_refines in Em by apply Hn. apply bool_decide_eq_true in Em. pose proof (named_lookup l _ 0 Hn) as H0. cbn [symbols set_symbols] in Em. rewrite Em, lookup_empty in H0. done.
Qed.
End Symbols.

(** C40. After a valid file is opened, [elf_find_symbol] answers every sequence of lookups
    with the name of the first symbol of the symbol table that has the address and is
    untyped, an object or a function, and null where there is none and at address 0; the
    map that the first lookup fills changes no answer. *)
Theorem elf_find_symbol_correct (e0 e : elf_t) (src : memory_t) (l : list (Z * Z)) (addrs : list Z) :
  elf_new = Some e0 -> elf_open (Some src) e0 = Some (true, e) -> mem_wf src -> table_symbols e = Some l ->
  find_all e addrs = Some (map (name_of l) addrs).
Proof.
  intros H0 Ho Hw Hl. destruct (@map_new Z (option Z) 4 8 map_cmp_uint) as [m0|] eqn:Em; [|by unfold elf_new in H0; rewrite Em in H0].
  destruct (new_ok (K := Z) (V := option Z) 4 8 map_cmp_uint m0) as (Hok & _ & Hc); [lia|lia|apply _|done|].
  unfold elf_new in H0. rewrite Em in H0. injection H0 as <-. unfold elf_open in Ho. cbn [raw_data symbols] in Ho.
  destruct (mem_size src =? 0); [done|]. destruct (is_valid (mk_elf (Some src) m0)) as [[]|]; [|done..]. injection Ho as <-.
  destruct addrs as [|a addrs]; [done|]. destruct (find_fills (mk_elf (Some src) m0) src l a eq_refl Hw Hok Hc Hl) as (m & Hf & Hn).
  cbn [find_all map]. rewrite Hf. cbn [mbind option_bind]. by rewrite (find_all_named (set_symbols m _) l addrs Hn).
Qed.

(** * A small file *)

(** [n] bytes of a little-endian number. *)
Fixpoint le (n : nat) (x : Z) : list Z := match n with O => [] | S n => x mod 256 :: le n (x / 256) end.
Definition words (l : list Z) : list Z := l ≫= le 4.

(** A header, a program header at 52, section headers at 84 (".shstrtab", ".strtab",
    ".symtab"), names at 204, symbol names at 231, symbols at 240 and an image at 288. *)
Definition sample_bytes : list Z :=
  words [0x464c457f; 0x00010101; 0; 0] ++ le 2 2 ++ le 2 243 ++ words [1; 0x1000; 52; 84; 0] ++
  le 2 52 ++ le 2 32 ++ le 2 1 ++ le 2 40 ++ le 2 3 ++ le 2 0 ++
  words [1; 288; 0x1000; 0x1000; 4; 8; 5; 4] ++
  words [0; 3; 0; 0; 204; 27; 0; 0; 1; 0] ++ words [11; 3; 0; 0; 231; 9; 0; 0; 1; 0] ++ words [19; 2; 0; 0; 240; 48; 1; 1; 4; 16] ++
  [46; 115; 104; 115; 116; 114; 116; 97; 98; 0; 0] ++ str_strtab ++ [0] ++ str_symtab ++ [0] ++
  [0; 109; 97; 105; 110; 0; 102; 110; 0] ++
  words [0; 0; 0; 0] ++ words [1; 0x1000; 4; 0x10012] ++ words [6; 0x1000; 4; 0x10012] ++ [0x13; 0x05; 0x10; 0x00].

Definition sample : memory_t := store_bytes (mk_memory ∅ 292) 0 sample_bytes.
Definition sample_elf : option (bool * elf_t) := let? e := elf_new in elf_open (Some sample) e.
Definition guest : memory_t := store_bytes (mk_memory ∅ 0x2000) 0x1000 [1; 2; 3; 4; 5; 6; 7; 8; 9].

Lemma sample_file_wf : mem_wf sample.
Proof.
  apply store_bytes_wf. split; [|cbn; lia]. intros a v Ha. cbn in Ha. by rewrite lookup_empty in Ha.
Qed.

(** The sample is loaded over [guest]: four bytes of the image, four zeros, and the byte
    after the segment as it was. *)
Lemma elf_load_correct_witness :
  exists e mem', sample_elf = Some (true, e) /\ elf_load e guest = Some (true, mem') /\
    map (mem_byte mem') [0x1000; 0x1001; 0x1004; 0x1008] = [0x13; 0x05; 0; 9].
Proof.
  destruct sample_elf as [[b e]|] eqn:E; [|by vm_compute in E].
  assert (b = true) as -> by (vm_compute in E; by injection E).
  assert (Hr : raw_data e = Some sample) by (vm_compute in E; injection E as <-; by vm_compute).
  assert (Hs : segments e = Some [mk_segment 288 0x1000 4 8]) by (vm_compute in E; injection E as <-; by vm_compute).
  destruct (elf_load_correct e sample guest [mk_segment 288 0x1000 4 8] Hr) as (mem' & Hl & _ & Hb).
  - intros x. by apply mem_byte_range, sample_file_wf.
  - by vm_compute.
  - exact Hs.
  - constructor; [|constructor]. split; cbn; vm_compute; repeat split; intros; discriminate || done.
  - exists e, mem'. split; [done|]. split; [done|]. cbn [map]. rewrite !Hb. by vm_compute.
Defined.

(** Two symbols share an address: the first one names it. *)
Lemma elf_find_symbol_correct_witness :
  exists e0 e, elf_new = Some e0 /\ elf_open (Some sample) e0 = Some (true, e) /\ find_all e [0x1000; 0; 0x2000; 0x1000] = Some [Some 232; None; None; Some 232].
Proof.
  destruct elf_new as [e0|] eqn:E0; [|by vm_compute in E0]. destruct (elf_open (Some sample) e0) as [[b e]|] eqn:E.
  2: { vm_compute in E0. injection E0 as <-. by vm_compute in E. }
  assert (b = true /\ table_symbols e = Some [(0, 231); (0x1000, 232); (0x1000, 237)]) as [-> Hl].
  { vm_compute in E0. injection E0 as <-. vm_compute in E. injection E as <- <-. by vm_compute. }
  exists e0, e. split; [done|]. split; [done|]. by rewrite (elf_find_symbol_correct e0 e sample _ _ E0 E sample_file_wf Hl).
Defined.

(** Opening another file keeps the names of the first: the map is only filled when it is
    empty. *)
Definition stripped : memory_t := store_bytes sample 48 [0; 0].

Example reopened_names :
  (let? (_, e) := sample_elf in let? (_, e) := elf_find_symbol e 0x1000 in let? (ok, e) := elf_open (Some stripped) e in
   let? l := table_symbols e in let? (r, _) := elf_find_symbol e 0x1000 in Some (ok, l, r)) = Some (true, [], Some 232).
Proof. by vm_compute. Qed.
