(* ===== verification/Syscalls.v ===== *)
(** The system calls (syscall.c) and the descriptor table they work on. The files of
    the host are a parameter: reading and writing one character, positioning, opening
    and closing. The block operations of the C library are loops over characters. *)

From Stdlib Require Import ZArith Lia Bool String.
From stdpp Require Import base list option numbers gmap.
From S2P Require Import Prelude Bits Insn Mem State Trap Map.
#[local] Open Scope Z_scope.

(** * The host *)

Definition FILE : Type := Z.

Class Stdio (H : Type) : Type := {
  fgetc : FILE -> H -> option Z * H; (* None: EOF *)
  fputc : FILE -> Z -> H -> bool * H; (* false: EOF *)
  ferror : FILE -> H -> bool;
  fseek : FILE -> Z -> Z -> H -> bool * H; (* true: failure *)
  ftell : FILE -> H -> Z;
  fopen : list Z -> string -> H -> option FILE * H;
  fclose : FILE -> H -> bool * H; (* true: failure *)
  fileno : FILE -> H -> Z;
  get_time_info : H -> (Z * Z) * H; (* int32_t seconds and nanoseconds *)
}.

Section Library.
Context {H : Type} `{Stdio H}.

(** [fwrite(l, 1, n, f)]: the number of characters written. *)
Fixpoint fwrite (f : FILE) (l : list Z) (h : H) : Z * H :=
  match l with
  | [] => (0, h)
  | c :: l =>
      let (ok, h) := fputc f c h in
      if ok : bool then let (n, h) := fwrite f l h in (n + 1, h) else (0, h)
  end.

(** [fread(_, 1, n, f)]: the characters read. *)
Fixpoint fread (f : FILE) (n : nat) (h : H) : list Z * H :=
  match n with
  | O => ([], h)
  | S n =>
      let (c, h) := fgetc f h in
      match c with
      | Some c => let (l, h) := fread f n h in (c :: l, h)
      | None => ([], h)
      end
  end.

(** utils.c *)
Definition rv_gettimeofday (h : H) : (Z * Z) * H :=
  let '(sec, nsec, h) := get_time_info h in ((sec, Z.quot nsec 1000), h).
Definition rv_clock_gettime (h : H) : (Z * Z) * H := get_time_info h.
End Library.

(** * The machine *)

(** The part of [vm_attr_t] that system calls use. *)
Record vm_attr_t : Type := mk_attr {
  fd_map : map_t Z FILE;
  fd_stdin : Z;
  fd_stdout : Z;
  fd_stderr : Z;
  break_addr : Z;
  exit_code : Z;
  error : Z;
  on_exit : bool;
  vtimer : Z; (* timer *)
}.

Definition set_fd_map (m : map_t Z FILE) (a : vm_attr_t) : vm_attr_t :=
  mk_attr m a.(fd_stdin) a.(fd_stdout) a.(fd_stderr) a.(break_addr) a.(exit_code) a.(error) a.(on_exit) a.(vtimer).
Definition set_break_addr (x : Z) (a : vm_attr_t) : vm_attr_t :=
  mk_attr a.(fd_map) a.(fd_stdin) a.(fd_stdout) a.(fd_stderr) x a.(exit_code) a.(error) a.(on_exit) a.(vtimer).
Definition set_exit_code (x : Z) (a : vm_attr_t) : vm_attr_t :=
  mk_attr a.(fd_map) a.(fd_stdin) a.(fd_stdout) a.(fd_stderr) a.(break_addr) x a.(error) a.(on_exit) a.(vtimer).
Definition set_error (x : Z) (a : vm_attr_t) : vm_attr_t :=
  mk_attr a.(fd_map) a.(fd_stdin) a.(fd_stdout) a.(fd_stderr) a.(break_addr) a.(exit_code) x a.(on_exit) a.(vtimer).
Definition set_vtimer (x : Z) (a : vm_attr_t) : vm_attr_t :=
  mk_attr a.(fd_map) a.(fd_stdin) a.(fd_stdout) a.(fd_stderr) a.(break_addr) a.(exit_code) a.(error) a.(on_exit) x.

Record vm (H : Type) : Type := mk_vm { core : riscv; attr : vm_attr_t; host : H }.
Arguments mk_vm {H}. Arguments core {H}. Arguments attr {H}. Arguments host {H}.

Section Calls.
Context {H : Type} `{Stdio H}.
Implicit Types (v : vm H).

Definition set_core (r : riscv) v : vm H := mk_vm r v.(attr) v.(host).
Definition set_attr (a : vm_attr_t) v : vm H := mk_vm v.(core) a v.(host).
Definition set_host (h : H) v : vm H := mk_vm v.(core) v.(attr) h.

Definition arg v (reg : Z) : Z := rv_get_reg v.(core) reg.
(** [rv_set_reg(rv, rv_reg_a0, x)]. *)
Definition ret (x : Z) v : vm H := set_core (rv_set_reg v.(core) rv_reg_a0 (u32 x)) v.
Definition ret1 (x : Z) v : vm H := set_core (rv_set_reg v.(core) rv_reg_a1 (u32 x)) v.

(** [map_find(attr->fd_map, &it, &fd)]: the keys are [int]s. *)
Definition find_fd v (fd : Z) : option FILE :=
  let m := v.(attr).(fd_map) in map_iter_value m (map_find m (i32 fd)).

Definition PREALLOC_SIZE : Z := 4096.

Definition SYS_close : Z := 57.
Definition SYS_lseek : Z := 62.
Definition SYS_read : Z := 63.
Definition SYS_write : Z := 64.
Definition SYS_fstat : Z := 80.
Definition SYS_exit : Z := 93.
Definition SYS_gettimeofday : Z := 169.
Definition SYS_brk : Z := 214.
Definition SYS_clock_gettime : Z := 403.
Definition SYS_open : Z := 1024.
Definition SYS_sbi_base : Z := 0x10.
Definition SYS_sbi_timer : Z := 0x54494D45.
Definition SYS_sbi_rst : Z := 0x53525354.

Definition O_RDONLY : Z := 0.
Definition O_WRONLY : Z := 1.
Definition O_RDWR : Z := 2.
Definition O_ACCMODE : Z := 3.

(** * Descriptors *)

(** The loop of [find_free_fd] from [i] on. *)
Fixpoint free_from (fuel : nat) (m : map_t Z FILE) (i : Z) : option Z :=
  match fuel with
  | O => None
  | S fuel => if map_at_end (map_find m i) then Some i else free_from fuel m (i + 1)
  end.

(** Among one more numbers than the map has entries one is free. *)
Definition find_free_fd (a : vm_attr_t) : option Z := free_from (S (Z.to_nat (map_size a.(fd_map)))) a.(fd_map) 3.

Definition get_mode_str (flags : Z) : option string :=
  let m := flags .& O_ACCMODE in
  if m =? O_RDONLY then Some "rb"%string
  else if m =? O_WRONLY then Some "wb"%string
  else if m =? O_RDWR then Some "a+"%string
  else None.

Definition STDIN_FILENO : Z := 0.
Definition STDOUT_FILENO : Z := 1.
Definition STDERR_FILENO : Z := 2.

Definition set_stream (fd new_fd : Z) (a : vm_attr_t) : vm_attr_t :=
  let '(i, o, e) :=
    if fd =? STDIN_FILENO then (new_fd, a.(fd_stdout), a.(fd_stderr))
    else if fd =? STDOUT_FILENO then (a.(fd_stdin), new_fd, a.(fd_stderr))
    else (a.(fd_stdin), a.(fd_stdout), new_fd) in
  mk_attr a.(fd_map) i o e a.(break_addr) a.(exit_code) a.(error) a.(on_exit) a.(vtimer).

(** [rv_remap_stdstream] (riscv.c); a pair has a descriptor and a file or null. *)
Fixpoint rv_remap_stdstream (fsp : list (Z * option FILE)) v : option (vm H) :=
  match fsp with
  | [] => Some v
  | (fd, file) :: fsp =>
      match file with
      | None => rv_remap_stdstream fsp v
      | Some file =>
          if negb (fd =? STDIN_FILENO) && negb (fd =? STDOUT_FILENO) && negb (fd =? STDERR_FILENO) then rv_remap_stdstream fsp v
          else
            let m := v.(attr).(fd_map) in
            let? m := map_erase m (map_find m fd) in
            let? (_, m) := map_insert m fd file in
            let new_fd := fileno file v.(host) in
            if new_fd =? -1 then None
            else rv_remap_stdstream fsp (set_attr (set_stream fd new_fd (set_fd_map m v.(attr))) v)
      end
  end.

(** * Calls *)

(** The loop of [syscall_write]: the characters written and the ones left for the last
    block, or [None] for [goto error_handler]. A round takes [PREALLOC_SIZE] off. *)
Fixpoint write_loop (fuel : nat) (m : memory_t) (handle : FILE) (buffer total_write count : Z) (h : H) : option (option (Z * Z) * H) :=
  match fuel with
  | O => None
  | S fuel =>
      if PREALLOC_SIZE <? count then
        let? tmp := memory_read m (u32 (buffer + total_write)) PREALLOC_SIZE in
        let (written, h) := fwrite handle tmp h in
        if negb (written =? PREALLOC_SIZE) && ferror handle h then Some (None, h)
        else write_loop fuel m handle buffer (u32 (total_write + written)) (count - PREALLOC_SIZE) h
      else Some (Some (total_write, count), h)
  end.

Definition rounds (count : Z) : nat := S (Z.to_nat (count / PREALLOC_SIZE)).

Definition syscall_write v : option (vm H) :=
  let fd := arg v rv_reg_a0 in
  let buffer := arg v rv_reg_a1 in
  let count := arg v rv_reg_a2 in
  match find_fd v fd with
  | None => Some (ret (-1) v)
  | Some handle =>
      let? (r, h) := write_loop (rounds count) v.(core).(mem) handle buffer 0 count v.(host) in
      match r with
      | None => Some (ret (-1) (set_host h v))
      | Some (total_write, count) =>
          let? tmp := memory_read v.(core).(mem) (u32 (buffer + total_write)) count in
          let (written, h) := fwrite handle tmp h in
          let v := set_host h v in
          if negb (written =? count) && ferror handle h then Some (ret (-1) v)
          else
            let total_write := u32 (total_write + written) in
            if total_write =? arg v rv_reg_a2 then Some (ret total_write v) else None
      end
  end.

Definition syscall_exit v : vm H :=
  let v := set_core (rv_halt v.(core)) v in
  set_attr (set_exit_code (i32 (arg v rv_reg_a0)) v.(attr)) v.

Definition syscall_brk v : vm H :=
  let increment := arg v rv_reg_a0 in
  let v := if truthy increment then set_attr (set_break_addr increment v.(attr)) v else v in
  ret v.(attr).(break_addr) v.

(** [memory_write_w] of the low word of a [long]. *)
Definition put_word (addr x : Z) v : option (vm H) :=
  let? m := memory_write_w v.(core).(mem) (u32 addr) (u32 x) in Some (set_core (set_mem m v.(core)) v).

Definition syscall_gettimeofday v : option (vm H) :=
  let tv := arg v rv_reg_a0 in
  let? w :=
    if truthy tv then
      let '(tv_sec, tv_usec, h) := rv_gettimeofday v.(host) in
      let? w := put_word (tv + 0) tv_sec (set_host h v) in put_word (tv + 8) tv_usec w
    else Some v in
  Some (ret 0 w).

Definition CLOCK_REALTIME : Z := 0.
Definition CLOCK_MONOTONIC : Z := 1.

Definition syscall_clock_gettime v : option (vm H) :=
  let id := arg v rv_reg_a0 in
  let tp := arg v rv_reg_a1 in
  if negb ((id =? CLOCK_REALTIME) || (id =? CLOCK_MONOTONIC)) then Some (ret (-1) v)
  else
    let? w :=
      if truthy tp then
        let '(tv_sec, tv_nsec, h) := rv_clock_gettime v.(host) in
        let? w := put_word (tp + 0) tv_sec (set_host h v) in put_word (tp + 8) tv_nsec w
      else Some v in
    Some (ret 0 w).

Definition syscall_close (system : bool) v : option (vm H) :=
  let fd := arg v rv_reg_a0 in
  if negb system && (fd <? 3) && negb v.(attr).(on_exit) then Some (ret (-1) v)
  else if 3 <=? fd then
    match find_fd v fd with
    | Some handle =>
        let (failed, h) := fclose handle v.(host) in
        let v := set_host h v in
        if failed : bool then Some (ret (-1) v)
        else
          let m := v.(attr).(fd_map) in
          let? m := map_erase m (map_find m (i32 fd)) in
          Some (ret 0 (ret 0 (set_attr (set_fd_map m v.(attr)) v)))
    | None => Some (ret 0 v)
    end
  else Some (ret 0 v).

Definition syscall_lseek v : vm H :=
  let fd := arg v rv_reg_a0 in
  let offset := arg v rv_reg_a1 in
  let whence := arg v rv_reg_a2 in
  match find_fd v fd with
  | None => ret (-1) v
  | Some handle =>
      let (failed, h) := fseek handle offset (i32 whence) v.(host) in
      let v := set_host h v in
      if failed : bool then ret (-1) v
      else
        let pos := ftell handle h in
        if pos =? -1 then ret (-1) v else ret pos v
  end.

(** [fread(tmp, 1, n, handle)]; more than the buffer holds is undefined. *)
Definition fread_tmp (handle : FILE) (n : Z) (h : H) : option (list Z * H) :=
  let (l, h) := fread handle (Z.to_nat n) h in
  if PREALLOC_SIZE <? Z.of_nat (length l) then None else Some (l, h).

(** The loop of [syscall_read]: the characters read and the count that is left, or
    [None] when they cannot be stored. *)
Fixpoint read_loop (fuel : nat) (handle : FILE) (buf total_read count : Z) (m : memory_t) (h : H) : option (option (Z * Z) * memory_t * H) :=
  match fuel with
  | O => None
  | S fuel =>
      if PREALLOC_SIZE <? count then
        let? (l, h) := fread_tmp handle PREALLOC_SIZE h in
        let r := Z.of_nat (length l) in
        let (ok, m) := memory_write m (u32 (buf + total_read)) l in
        if negb ok then Some (None, m, h)
        else
          let count := u32 (count - r) in
          let total_read := u32 (total_read + r) in
          if negb (r =? PREALLOC_SIZE) then Some (Some (total_read, count), m, h)
          else read_loop fuel handle buf total_read count m h
      else Some (Some (total_read, count), m, h)
  end.

Definition set_ram (m : memory_t) v : vm H := set_core (set_mem m v.(core)) v.

Definition syscall_read v : option (vm H) :=
  let fd := arg v rv_reg_a0 in
  let buf := arg v rv_reg_a1 in
  let count := arg v rv_reg_a2 in
  match find_fd v fd with
  | None => Some (ret (-1) v)
  | Some handle =>
      let? (r, m, h) := read_loop (rounds count) handle buf 0 count v.(core).(mem) v.(host) in
      match r with
      | None => Some (ret (-1) (set_ram m (set_host h v)))
      | Some (total_read, count) =>
          let? (l, h) := fread_tmp handle count h in
          let (ok, m) := memory_write m (u32 (buf + total_read)) l in
          let v := set_ram m (set_host h v) in
          if negb ok then Some (ret (-1) v)
          else
            let total_read := u32 (total_read + Z.of_nat (length l)) in
            if negb (total_read =? arg v rv_reg_a2) && ferror handle h then Some (ret (-1) v)
            else Some (ret total_read v)
      end
  end.

Definition syscall_fstat v : vm H := v.

(** [strnlen] in guest memory. *)
Fixpoint strnlen (m : memory_t) (a : Z) (n : nat) : nat :=
  match n with
  | O => 0
  | S n => if mem_byte m a =? 0 then 0%nat else S (strnlen m (a + 1) n)
  end.

Definition syscall_open v : option (vm H) :=
  let name := arg v rv_reg_a0 in
  let flags := arg v rv_reg_a1 in
  let m := v.(core).(mem) in
  if m.(mem_size) <=? name then Some (ret (-1) v)
  else
    let max_len := m.(mem_size) - name in
    let name_len := Z.of_nat (strnlen m name (Z.to_nat max_len)) in
    if name_len =? max_len then Some (ret (-1) v)
    else
      let? name_str := memory_read m name name_len in
      match get_mode_str flags with
      | None => Some (ret (-1) v)
      | Some mode_str =>
          let (handle, h) := fopen name_str mode_str v.(host) in
          let v := set_host h v in
          match handle with
          | None => Some (ret (-1) v)
          | Some handle =>
              let? fd := find_free_fd v.(attr) in
              let? (_, m) := map_insert v.(attr).(fd_map) fd handle in
              Some (ret fd (set_attr (set_fd_map m v.(attr)) v))
          end
      end.

(** * The supervisor binary interface *)

Definition SBI_SUCCESS : Z := 0.
Definition SBI_ERR_NOT_SUPPORTED : Z := -2.
Definition SBI_EID_BASE : Z := 0x10.
Definition SBI_BASE_GET_SBI_SPEC_VERSION : Z := 0.
Definition SBI_BASE_GET_SBI_IMPL_ID : Z := 1.
Definition SBI_BASE_GET_SBI_IMPL_VERSION : Z := 2.
Definition SBI_BASE_PROBE_EXTENSION : Z := 3.
Definition SBI_BASE_GET_MVENDORID : Z := 4.
Definition SBI_BASE_GET_MARCHID : Z := 5.
Definition SBI_BASE_GET_MIMPID : Z := 6.
Definition SBI_EID_TIMER : Z := 0x54494D45.
Definition SBI_TIMER_SET_TIMER : Z := 0.
Definition SBI_EID_RST : Z := 0x53525354.
Definition SBI_RST_SYSTEM_RESET : Z := 0.
Definition SBI_IMPL_ID : Z := 0x999.
Definition SBI_IMPL_VERSION : Z := 1.
Definition rv_reg_a6 : Z := 16.

(** A status in [a0] and a value in [a1]. *)
Definition sbi_ret (status value : Z) v : vm H := ret1 value (ret status v).

Definition syscall_sbi_timer v : vm H :=
  let fid := arg v rv_reg_a6 in
  let a0 := arg v rv_reg_a0 in
  let a1 := arg v rv_reg_a1 in
  if fid =? SBI_TIMER_SET_TIMER then sbi_ret SBI_SUCCESS 0 (set_attr (set_vtimer ((a1 ≪ 32) .| a0) v.(attr)) v)
  else sbi_ret SBI_ERR_NOT_SUPPORTED 0 v.

Definition syscall_sbi_base v : vm H :=
  let fid := arg v rv_reg_a6 in
  if fid =? SBI_BASE_GET_SBI_IMPL_ID then sbi_ret SBI_SUCCESS SBI_IMPL_ID v
  else if fid =? SBI_BASE_GET_SBI_IMPL_VERSION then sbi_ret SBI_SUCCESS SBI_IMPL_VERSION v
  else if fid =? SBI_BASE_GET_MVENDORID then sbi_ret SBI_SUCCESS (csr_val v.(core) csr_mvendorid) v
  else if fid =? SBI_BASE_GET_MARCHID then sbi_ret SBI_SUCCESS (csr_val v.(core) csr_marchid) v
  else if fid =? SBI_BASE_GET_MIMPID then sbi_ret SBI_SUCCESS (csr_val v.(core) csr_mimpid) v
  else if fid =? SBI_BASE_GET_SBI_SPEC_VERSION then sbi_ret SBI_SUCCESS ((0 ≪ 24) .| 3) v
  else if fid =? SBI_BASE_PROBE_EXTENSION then
    let eid := arg v rv_reg_a0 in
    let available := (eid =? SBI_EID_BASE) || (eid =? SBI_EID_TIMER) || (eid =? SBI_EID_RST) in
    sbi_ret SBI_SUCCESS (b2z available) v
  else sbi_ret SBI_ERR_NOT_SUPPORTED 0 v.

Definition syscall_sbi_rst v : vm H :=
  let fid := arg v rv_reg_a6 in
  if fid =? SBI_RST_SYSTEM_RESET then sbi_ret SBI_SUCCESS 0 (set_core (rv_halt v.(core)) v)
  else sbi_ret SBI_ERR_NOT_SUPPORTED 0 v.

(** * Dispatch *)

(** The switch of [syscall_handler]; [system] is RV32_HAS(SYSTEM). *)
Definition dispatch (system : bool) (syscall : Z) v : option (vm H) :=
  if syscall =? SYS_close then syscall_close system v
  else if syscall =? SYS_lseek then Some (syscall_lseek v)
  else if syscall =? SYS_read then syscall_read v
  else if syscall =? SYS_write then syscall_write v
  else if syscall =? SYS_fstat then Some (syscall_fstat v)
  else if syscall =? SYS_exit then Some (syscall_exit v)
  else if syscall =? SYS_gettimeofday then syscall_gettimeofday v
  else if syscall =? SYS_brk then Some (syscall_brk v)
  else if syscall =? SYS_clock_gettime then syscall_clock_gettime v
  else if syscall =? SYS_open then syscall_open v
  else if system && (syscall =? SYS_sbi_base) then Some (syscall_sbi_base v)
  else if system && (syscall =? SYS_sbi_timer) then Some (syscall_sbi_timer v)
  else if system && (syscall =? SYS_sbi_rst) then Some (syscall_sbi_rst v)
  else Some v.

Definition handle_syscall (system : bool) v : option (vm H) :=
  let? w := dispatch system (arg v rv_reg_a7) v in
  Some (set_attr (set_error (i32 (arg w rv_reg_a0)) w.(attr)) w).
End Calls.
