(* ===== verification/SyscallsSpec.v ===== *)
(** System calls: a transfer in blocks is one transfer of the whole buffer, descriptors
    are handed out from 3 on, lowest first, and no call touches the standard streams or
    breaks the state of the machine. *)

From Stdlib Require Import ZArith Lia Bool String.
From stdpp Require Import base list option numbers gmap.
From S2P Require Import Prelude Bits Insn Mem MemSpec State Trap Csr Map MapSpec MapRefine Samples ExecWf Equiv Frame Links Kept.
From S2P Require Import VblkSpec Syscalls.
#[local] Open Scope Z_scope.

(** What the C standard says of the streams: a character is an [unsigned char], a failed
    write sets the error indicator, and the end of a file is reached once and for all. *)
Class StdioLaws (H : Type) `{Stdio H} : Prop := {
  fgetc_char : forall f h c h', fgetc f h = (Some c, h') -> 0 <= c < 256;
  fputc_error : forall f c h h', fputc f c h = (false, h') -> ferror f h' = true;
  fgetc_eof : forall f h h', fgetc f h = (None, h') -> ferror f h' = false -> fgetc f h' = (None, h');
}.

(** * Block transfers *)

Section Blocks.
Context {H : Type} `{Stdio H}.
Implicit Types (h : H).

Lemma fwrite_bound (f : FILE) (l : list Z) h : 0 <= (fwrite f l h).1 <= Z.of_nat (length l).
Proof.
  revert h. induction l as [|c l IH]; intros h; cbn [fwrite length fst]; [lia|]. destruct (fputc f c h) as [[] h1]; cbn [fst]; [|lia].
  specialize (IH h1). destruct (fwrite f l h1). cbn [fst] in *. lia.
Qed.

Lemma fwrite_app (f : FILE) (l1 l2 : list Z) h :
  fwrite f (l1 ++ l2) h =
  let (n1, h1) := fwrite f l1 h in
  if n1 =? Z.of_nat (length l1) then let (n2, h2) := fwrite f l2 h1 in (n1 + n2, h2) else (n1, h1).
Proof.
  revert h. induction l1 as [|c l1 IH]; intros h; cbn [fwrite app length]; [by destruct (fwrite f l2 h)|].
  destruct (fputc f c h) as [[] h1]; [|done]. rewrite IH. destruct (fwrite f l1 h1) as [n h2].
  replace (n + 1 =? Z.of_nat (S (length l1))) with (n =? Z.of_nat (length l1)) by (destruct (Z.eqb_spec n (Z.of_nat (length l1))), (Z.eqb_spec (n + 1) (Z.of_nat (S (length l1)))); lia || done).
  destruct (n =? Z.of_nat (length l1)); [|done]. destruct (fwrite f l2 h2). f_equal; lia.
Qed.

Lemma fread_bound (f : FILE) (n : nat) h : (length (fread f n h).1 <= n)%nat.
Proof.
  revert h. induction n as [|n IH]; intros h; cbn [fread]; [done|]. destruct (fgetc f h) as [[c|] h1]; cbn [fst length]; [|lia].
  specialize (IH h1). destruct (fread f n h1). cbn [fst length] in *. lia.
Qed.

Lemma fread_app (f : FILE) (n1 n2 : nat) h :
  fread f (n1 + n2) h =
  let (l1, h1) := fread f n1 h in
  if decide (length l1 = n1) then let (l2, h2) := fread f n2 h1 in (l1 ++ l2, h2) else (l1, h1).
Proof.
  revert h. induction n1 as [|n1 IH]; intros h; cbn [fread Nat.add]; [by destruct (fread f n2 h)|].
  destruct (fgetc f h) as [[c|] h1]; [|done]. rewrite IH. destruct (fread f n1 h1) as [l h2].
  destruct (decide (length l = n1)), (decide (length (c :: l) = S n1)); cbn [length] in *; try lia; [|done]. by destruct (fread f n2 h2).
Qed.

Context `{!StdioLaws H}.

(** A short count means an error. *)
Lemma fwrite_short (f : FILE) (l : list Z) h : (fwrite f l h).1 <> Z.of_nat (length l) -> ferror f (fwrite f l h).2 = true.
Proof.
  revert h. induction l as [|c l IH]; intros h; cbn [fwrite length]; [done|]. destruct (fputc f c h) as [[] h1] eqn:E; cbn [fst snd].
  - specialize (IH h1). destruct (fwrite f l h1). cbn [fst snd] in *. intros Hn. apply IH. lia.
  - intros _. by apply (fputc_error f c h).
Qed.

Lemma fread_chars (f : FILE) (n : nat) h : Forall (fun c => 0 <= c < 256) (fread f n h).1.
Proof.
  revert h. induction n as [|n IH]; intros h; cbn [fread]; [constructor|]. destruct (fgetc f h) as [[c|] h1] eqn:E; [|constructor].
  specialize (IH h1). destruct (fread f n h1). constructor; [by apply (fgetc_char f h c h1)|done].
Qed.

(** After the end of the file there is nothing. *)
Lemma fread_short (f : FILE) (n k : nat) h :
  (length (fread f n h).1 < n)%nat -> ferror f (fread f n h).2 = false -> fread f k (fread f n h).2 = ([], (fread f n h).2).
Proof.
  revert h. induction n as [|n IH]; intros h; cbn [fread]; [lia|]. destruct (fgetc f h) as [[c|] h1] eqn:E.
  - specialize (IH h1). destruct (fread f n h1). cbn [fst snd length] in *. intros Hl. apply IH. lia.
  - cbn [fst snd length]. intros _ He. destruct k; [done|]. cbn [fread]. by rewrite (fgetc_eof f h h1).
Qed.
End Blocks.

Lemma load_bytes_app (n1 n2 : nat) (m : memory_t) (a : Z) : load_bytes (n1 + n2) m a = load_bytes n1 m a ++ load_bytes n2 m (a + Z.of_nat n1).
Proof.
  revert a. induction n1 as [|n1 IH]; intros a; cbn [load_bytes Nat.add app]; [by rewrite Z.add_0_r|].
  rewrite IH. do 3 f_equal. lia.
Qed.

Lemma store_bytes_app (l1 l2 : list Z) (m : memory_t) (a : Z) : store_bytes m a (l1 ++ l2) = store_bytes (store_bytes m a l1) (a + Z.of_nat (length l1)) l2.
Proof.
  revert m a. induction l1 as [|c l1 IH]; intros m a; cbn [store_bytes app length]; [by rewrite Z.add_0_r|].
  rewrite IH. f_equal. lia.
Qed.

(** * Arguments *)

Lemma arg_u32 {H : Type} (v : vm H) (r : Z) : riscv_wf v.(core) -> is_u32 (arg v r).
Proof. intros Hw. unfold arg, rv_get_reg. case_match; [by apply xreg_u32|apply not32_u32]. Qed.

(** * Writing *)

Section Write.
Context {H : Type} `{Stdio H} `{!StdioLaws H}.
Implicit Types (h : H) (v : vm H).

(** The part of [syscall_write] after the lookup: the number of characters, or an error. *)
Definition write_blocks (fuel : nat) (m : memory_t) (f : FILE) (buffer total count : Z) h : option (option Z * H) :=
  let? (r, h) := write_loop fuel m f buffer total count h in
  match r with
  | None => Some (None, h)
  | Some (total, count) =>
      let? tmp := memory_read m (u32 (buffer + total)) count in
      let (written, h) := fwrite f tmp h in
      if negb (written =? count) && ferror f h then Some (None, h) else Some (Some (u32 (total + written)), h)
  end.

Lemma memory_read_in (m : memory_t) (a n : Z) : 0 <= n -> n = 0 \/ a + n <= m.(mem_size) -> memory_read m a n = Some (load_bytes (Z.to_nat n) m a).
Proof.
  intros Hn Hr. unfold memory_read. destruct (Z.eqb_spec n 0); [done|]. rewrite (proj2 (contains_spec m a n Hn)) by lia. done.
Qed.

Lemma write_blocks_ok (fuel : nat) (m : memory_t) (f : FILE) (buffer total count : Z) h :
  m.(mem_size) <= 2 ^ 32 -> 0 <= buffer -> 0 <= total -> 0 <= count -> total + count < 2 ^ 32 ->
  count = 0 \/ buffer + total + count <= m.(mem_size) -> (rounds count <= fuel)%nat ->
  write_blocks fuel m f buffer total count h =
  let (n, h') := fwrite f (load_bytes (Z.to_nat count) m (buffer + total)) h in
  Some (if n =? count then Some (total + count) else None, h').
Proof.
  intros Hlim Hb. revert total count h. induction fuel as [|fuel IH]; intros total count h Ht Hc Htc Hr Hf; [unfold rounds in Hf; lia|].
  unfold write_blocks. cbn [write_loop]. destruct (Z.ltb_spec PREALLOC_SIZE count) as [Hp|Hp].
  - unfold PREALLOC_SIZE in Hp. assert (Hu : u32 (buffer + total) = buffer + total) by (apply u32_id; unfold is_u32; lia).
    rewrite Hu, memory_read_in by (unfold PREALLOC_SIZE; lia). cbn [mbind option_bind]. replace (Z.to_nat count) with (Z.to_nat PREALLOC_SIZE + Z.to_nat (count - 4096))%nat by (unfold PREALLOC_SIZE; lia).
    rewrite load_bytes_app, fwrite_app. set (l := load_bytes (Z.to_nat PREALLOC_SIZE) m (buffer + total)).
    assert (Hlen : length l = Z.to_nat PREALLOC_SIZE) by apply length_load_bytes. rewrite Hlen.
    pose proof (fwrite_bound f l h) as Hbd. pose proof (fwrite_short f l h) as Hsh. rewrite Hlen in Hbd, Hsh.
    destruct (fwrite f l h) as [n h1]. cbn [fst snd] in *. unfold PREALLOC_SIZE in *. change (Z.of_nat (Z.to_nat 4096)) with 4096 in *.
    destruct (Z.eqb_spec n 4096) as [->|Hn]; cbn [negb andb].
    + rewrite u32_id by (unfold is_u32; lia).
      change (write_blocks fuel m f buffer (total + 4096) (count - 4096) h1 = let (n, h') := let (n2, h2) := fwrite f (load_bytes (Z.to_nat (count - 4096)) m (buffer + total + 4096)) h1 in (4096 + n2, h2) in Some (if n =? count then Some (total + count) else None, h')).
      rewrite IH; [|lia..|]. 2: { unfold rounds, PREALLOC_SIZE in *. replace count with (count - 4096 + 1 * 4096) in Hf by lia. rewrite Z.div_add in Hf by lia. pose proof (Z.div_pos (count - 4096) 4096). lia. }
      rewrite Z.add_assoc. destruct (fwrite f _ h1) as [n h2]. replace (4096 + n =? count) with (n =? count - 4096) by (destruct (Z.eqb_spec n (count - 4096)), (Z.eqb_spec (4096 + n) count); lia || done).
      do 3 f_equal. destruct (n =? count - 4096); [f_equal; lia|done].
    + rewrite Hsh by done. cbn [mbind option_bind]. by rewrite (proj2 (Z.eqb_neq n count)) by lia.
  - cbn [mbind option_bind]. destruct (decide (count = 0)) as [->|Hc0].
    + rewrite memory_read_in by (lia || by left). change (Z.to_nat 0) with O. cbn [load_bytes fwrite negb andb mbind option_bind].
      rewrite Z.add_0_r, u32_id by (unfold is_u32; lia). done.
    + unfold PREALLOC_SIZE in Hp. assert (Hu : u32 (buffer + total) = buffer + total) by (apply u32_id; unfold is_u32; lia). rewrite Hu, memory_read_in by lia. cbn [mbind option_bind].
      set (l := load_bytes (Z.to_nat count) m (buffer + total)). assert (Hlen : length l = Z.to_nat count) by apply length_load_bytes.
      pose proof (fwrite_short f l h) as Hsh. rewrite Hlen, Z2Nat.id in Hsh by lia.
      destruct (fwrite f l h) as [n h1]. cbn [fst snd] in Hsh. destruct (Z.eqb_spec n count) as [->|Hn]; cbn [negb andb]; [by rewrite u32_id by (unfold is_u32; lia)|by rewrite Hsh].
Qed.

(** C34. [syscall_write] is one [fwrite] of the whole guest buffer: for a descriptor that
    is open and a buffer inside of guest memory the characters reach the stream in order,
    the result is the count, or -1 if the stream fails, and nothing else changes; the
    blocks of 4096 characters it copies through do not show. *)
Theorem syscall_write_correct v (f : FILE) :
  riscv_wf v.(core) -> find_fd v (arg v rv_reg_a0) = Some f ->
  let buffer := arg v rv_reg_a1 in
  let count := arg v rv_reg_a2 in
  count = 0 \/ buffer + count <= v.(core).(mem).(mem_size) ->
  syscall_write v =
  let (n, h) := fwrite f (load_bytes (Z.to_nat count) v.(core).(mem) buffer) v.(host) in
  Some (ret (if n =? count then count else -1) (set_host h v)).
Proof.
  intros Hw Hf buffer count Hr. assert (Hu : is_u32 buffer /\ is_u32 count) by (split; by apply arg_u32). unfold is_u32 in Hu.
  pose proof (write_blocks_ok (rounds count) v.(core).(mem) f buffer 0 count v.(host)) as Hb. rewrite Z.add_0_r in Hb.
  specialize (Hb ltac:(apply Hw) ltac:(lia) ltac:(lia) ltac:(lia) ltac:(lia) Hr ltac:(lia)).
  unfold syscall_write. rewrite Hf. fold buffer count. unfold write_blocks in Hb.
  destruct (write_loop _ _ _ _ _ _ _) as [[[[t c]|] h1]|]; cbn [mbind option_bind] in Hb |- *.
  - destruct (memory_read _ _ c) as [tmp|]; cbn [mbind option_bind] in Hb |- *; [|by destruct (fwrite f _ (host v))].
    destruct (fwrite f tmp h1) as [w h2]. destruct (negb (w =? c) && ferror f h2).
    + destruct (fwrite f _ (host v)) as [n h3]. destruct (n =? count); [done|]. by injection Hb as <-.
    + destruct (fwrite f _ (host v)) as [n h3]. destruct (n =? count); [|done]. injection Hb as Hb <-.
      change (arg (set_host h2 v) rv_reg_a2) with count. by rewrite Hb, Z.add_0_l, Z.eqb_refl.
  - destruct (fwrite f _ (host v)) as [n h3]. destruct (n =? count); [done|]. by injection Hb as <-.
  - by destruct (fwrite f _ (host v)).
Qed.
End Write.

(** * Reading *)

Section Read.
Context {H : Type} `{Stdio H} `{!StdioLaws H}.
Implicit Types (h : H) (v : vm H).

(** The part of [syscall_read] after the lookup; [None] inside: it cannot be stored. *)
Definition read_blocks (fuel : nat) (f : FILE) (buf total count : Z) (m : memory_t) h : option (option Z * memory_t * H) :=
  let? (r, m, h) := read_loop fuel f buf total count m h in
  match r with
  | None => Some (None, m, h)
  | Some (total, count) =>
      let? (l, h) := fread_tmp f count h in
      let (ok, m) := memory_write m (u32 (buf + total)) l in
      Some (if ok then Some (u32 (total + Z.of_nat (length l))) else None, m, h)
  end.

Lemma memory_write_in (m : memory_t) (a : Z) (l : list Z) :
  a < m.(mem_size) -> a + Z.of_nat (length l) <= m.(mem_size) -> memory_write m a l = (true, store_bytes m a l).
Proof. intros H1 H2. unfold memory_write. by rewrite (proj2 (Z.leb_gt _ _)), (proj2 (Z.ltb_ge _ _)) by lia. Qed.

(** A block that fits the buffer. *)
Lemma fread_tmp_ok (f : FILE) (n : Z) h : 0 <= n <= PREALLOC_SIZE -> fread_tmp f n h = Some (fread f (Z.to_nat n) h).
Proof.
  intros Hn. unfold fread_tmp. pose proof (fread_bound f (Z.to_nat n) h) as Hb. destruct (fread f (Z.to_nat n) h) as [l h1]. cbn [fst] in Hb.
  by rewrite (proj2 (Z.ltb_ge _ _)) by lia.
Qed.

(** A block is short and the file ends: the last read adds nothing. *)
Lemma read_after_eof (f : FILE) (n : nat) (count a : Z) (m : memory_t) h :
  (length (fread f n h).1 < n)%nat -> ferror f (fread f n h).2 = false -> a < m.(mem_size) ->
  fread_tmp f count (fread f n h).2 = Some ([], (fread f n h).2) /\ memory_write m a [] = (true, m).
Proof.
  intros Hl He Ha. split; [|by rewrite memory_write_in by (cbn; lia)]. unfold fread_tmp. by rewrite fread_short.
Qed.

Lemma read_blocks_ok (fuel : nat) (f : FILE) (buf total count : Z) (m : memory_t) h :
  m.(mem_size) <= 2 ^ 32 -> 0 <= buf -> 0 <= total -> 0 <= count -> total + count < 2 ^ 32 ->
  buf + total < m.(mem_size) -> buf + total + count <= m.(mem_size) -> (rounds count <= fuel)%nat ->
  let '(l, h') := fread f (Z.to_nat count) h in
  Z.of_nat (length l) = count \/ ferror f h' = false ->
  read_blocks fuel f buf total count m h = Some (Some (total + Z.of_nat (length l)), store_bytes m (buf + total) l, h').
Proof.
  intros Hlim Hb. revert total count m h Hlim. induction fuel as [|fuel IH]; intros total count m h Hlim Ht Hc Htc Hr0 Hr Hf; [unfold rounds in Hf; lia|].
  unfold read_blocks. cbn [read_loop]. assert (Hu : u32 (buf + total) = buf + total) by (apply u32_id; unfold is_u32; lia). rewrite !Hu.
  destruct (Z.ltb_spec PREALLOC_SIZE count) as [Hp|Hp].
  - rewrite fread_tmp_ok by (unfold PREALLOC_SIZE; lia). cbn [mbind option_bind]. unfold PREALLOC_SIZE in *.
    pose proof (fread_bound f (Z.to_nat 4096) h) as Hbd. pose proof (read_after_eof f (Z.to_nat 4096)) as Heof. specialize (Heof (count - Z.of_nat (length (fread f (Z.to_nat 4096) h).1))).
    replace (Z.to_nat count) with (Z.to_nat 4096 + Z.to_nat (count - 4096))%nat by lia. rewrite fread_app.
    specialize (fun a m => Heof a m h). destruct (fread f (Z.to_nat 4096) h) as [l h1]. cbn [fst snd] in *.
    rewrite memory_write_in by lia. cbn [negb]. rewrite !(u32_id (count - _)), !(u32_id (total + _)) by (unfold is_u32; lia).
    destruct (decide (length l = Z.to_nat 4096)) as [Hl|Hl].
    + rewrite Hl. change (Z.of_nat (Z.to_nat 4096)) with 4096. cbn [Z.eqb Pos.eqb negb].
      specialize (IH (total + 4096) (count - 4096) (store_bytes m (buf + total) l) h1). rewrite store_bytes_size in IH.
      destruct (fread f (Z.to_nat (count - 4096)) h1) as [l2 h2]. rewrite length_app, Hl. intros He.
      change (read_blocks fuel f buf (total + 4096) (count - 4096) (store_bytes m (buf + total) l) h1 = Some (Some (total + Z.of_nat (Z.to_nat 4096 + length l2)), store_bytes m (buf + total) (l ++ l2), h2)).
      rewrite IH; [|lia..| |].
      * rewrite store_bytes_app, Hl. do 3 f_equal; (f_equal; lia).
      * unfold rounds, PREALLOC_SIZE in *. replace count with (count - 4096 + 1 * 4096) in Hf by lia. rewrite Z.div_add in Hf by lia. pose proof (Z.div_pos (count - 4096) 4096). lia.
      * destruct He; [left; lia|by right].
    + intros [He|He]; [lia|]. rewrite (proj2 (Z.eqb_neq _ _)) by lia. cbn [negb mbind option_bind].
      destruct (Heof (buf + (total + Z.of_nat (length l))) (store_bytes m (buf + total) l)) as [E1 E2]; [lia|done|rewrite store_bytes_size; lia|].
      rewrite E1. cbn [mbind option_bind]. rewrite u32_id by (unfold is_u32; lia). rewrite E2. cbn [length]. rewrite u32_id by (unfold is_u32; lia). do 4 f_equal. lia.
  - cbn [mbind option_bind]. rewrite fread_tmp_ok by lia. cbn [mbind option_bind]. rewrite Hu. pose proof (fread_bound f (Z.to_nat count) h) as Hbd.
    destruct (fread f (Z.to_nat count) h) as [l h1]. cbn [fst] in Hbd. intros _. rewrite memory_write_in by lia. by rewrite u32_id by (unfold is_u32; lia).
Qed.

(** C35. [syscall_read] is one [fread] of the whole count into the guest buffer: for an
    open descriptor, a buffer inside of guest memory and a stream that delivers the count
    or ends without an error, the result is the number of characters read, they are in
    memory in order, and nothing else changes. *)
Theorem syscall_read_correct v (f : FILE) :
  riscv_wf v.(core) -> find_fd v (arg v rv_reg_a0) = Some f ->
  let buf := arg v rv_reg_a1 in
  let count := arg v rv_reg_a2 in
  buf < v.(core).(mem).(mem_size) -> buf + count <= v.(core).(mem).(mem_size) ->
  let '(l, h) := fread f (Z.to_nat count) v.(host) in
  Z.of_nat (length l) = count \/ ferror f h = false ->
  syscall_read v = Some (ret (Z.of_nat (length l)) (set_ram (store_bytes v.(core).(mem) buf l) (set_host h v))).
Proof.
  intros Hw Hf buf count Hr0 Hr. assert (Hu : is_u32 buf /\ is_u32 count) by (split; by apply arg_u32). unfold is_u32 in Hu.
  pose proof (read_blocks_ok (rounds count) f buf 0 count v.(core).(mem) v.(host)) as Hb. rewrite Z.add_0_r in Hb.
  specialize (Hb ltac:(apply Hw) ltac:(lia) ltac:(lia) ltac:(lia) ltac:(lia) Hr0 Hr ltac:(lia)).
  destruct (fread f (Z.to_nat count) (host v)) as [l h]. intros He. specialize (Hb He). rewrite Z.add_0_l in Hb.
  unfold syscall_read. rewrite Hf. fold buf count. unfold read_blocks in Hb.
  destruct (read_loop _ _ _ _ _ _ _) as [[[[[t c]|] m1] h1]|]; cbn [mbind option_bind] in Hb |- *; [|done..].
  destruct (fread_tmp f c h1) as [[l1 h2]|]; cbn [mbind option_bind] in Hb |- *; [|done].
  destruct (memory_write m1 (u32 (buf + t)) l1) as [[] m2]; [|done]. injection Hb as Ht -> ->. cbn [negb].
  change (arg (set_ram (store_bytes (mem (core v)) buf l) (set_host h v)) rv_reg_a2) with count. rewrite Ht.
  destruct He as [He|He]; [by rewrite He, Z.eqb_refl|by rewrite He, andb_false_r].
Qed.
End Read.

(** * Descriptors *)

Section Descriptors.
Context {H : Type} `{Stdio H}.
Implicit Types (h : H) (v : vm H).

(** The open files. *)
Definition files v : gmap Z FILE := contents v.(attr).(fd_map).

Lemma find_fd_ok v (fd : Z) : map_ok v.(attr).(fd_map) -> find_fd v fd = files v !! i32 fd.
Proof. apply value_refines. Qed.

Lemma at_end_iff (m : map_t Z FILE) (i : Z) : map_ok m -> map_at_end (map_find m i) = bool_decide (contents m !! i = None).
Proof.
  intros Hm. pose proof (found_iff m i Hm) as Hf. destruct (map_find m i) as [k|]; cbn [map_at_end]; symmetry.
  - destruct Hf as (_ & _ & x & Hx). apply bool_decide_eq_false. congruence.
  - by apply bool_decide_eq_true.
Qed.

(** [fd] is the first free number from [i] on. *)
Definition first_free (g : gmap Z FILE) (i fd : Z) : Prop :=
  i <= fd /\ g !! fd = None /\ forall j, i <= j < fd -> is_Some (g !! j).

Lemma free_from_ok (fuel : nat) (m : map_t Z FILE) (i : Z) :
  map_ok m -> (exists j, i <= j < i + Z.of_nat fuel /\ contents m !! j = None) ->
  exists fd, free_from fuel m i = Some fd /\ first_free (contents m) i fd.
Proof.
  intros Hm. revert i. induction fuel as [|fuel IH]; intros i (j & Hj & Hn); [lia|]. cbn [free_from]. rewrite at_end_iff by done.
  destruct (decide (contents m !! i = None)) as [Hi|Hi].
  - rewrite bool_decide_true by done. exists i. split; [done|]. split; [lia|]. split; [done|]. lia.
  - rewrite bool_decide_false by done. destruct (IH (i + 1)) as (fd & Hf & H1 & H2 & H3).
    { exists j. split; [|done]. destruct (decide (j = i)) as [->|]; [done|lia]. }
    exists fd. split; [done|]. split; [lia|]. split; [done|]. intros k Hk. destruct (decide (k = i)) as [->|]; [by apply not_eq_None_Some|apply H3; lia].
Qed.

(** Among [size + 1] numbers one is free. *)
Lemma some_free (g : gmap Z FILE) (i : Z) : exists j, i <= j < i + Z.of_nat (S (base.size g)) /\ g !! j = None.
Proof.
  destruct (decide (Forall (fun j => is_Some (g !! j)) (seqZ i (Z.of_nat (S (base.size g)))))) as [Hall|Hno].
  - exfalso. set (l := seqZ i (Z.of_nat (S (base.size g)))) in *. assert (Hsub : (list_to_set l : gset Z) ⊆ dom g).
    { intros j Hj%elem_of_list_to_set. rewrite list.Forall_forall in Hall. by apply elem_of_dom, Hall. }
    apply subseteq_size in Hsub. rewrite size_dom, size_list_to_set in Hsub by apply NoDup_seqZ. unfold l in Hsub. rewrite length_seqZ in Hsub. lia.
  - apply not_Forall_Exists in Hno; [|apply _]. apply Exists_exists in Hno as (j & Hj & Hn). apply elem_of_seqZ in Hj. exists j.
    split; [lia|]. by apply eq_None_not_Some.
Qed.

Lemma find_free_fd_ok (a : vm_attr_t) : map_ok a.(fd_map) -> exists fd, find_free_fd a = Some fd /\ first_free (contents a.(fd_map)) 3 fd.
Proof.
  intros Hm. unfold find_free_fd. apply free_from_ok; [done|]. rewrite size_refines by done. rewrite Nat2Z.id. apply some_free.
Qed.

(** * Opening *)

Lemma strnlen_ok (m : memory_t) (a : Z) (n k : nat) :
  (forall i, (i < n)%nat -> mem_byte m (a + Z.of_nat i) <> 0) -> mem_byte m (a + Z.of_nat n) = 0 -> (n < k)%nat -> strnlen m a k = n.
Proof.
  revert a k. induction n as [|n IH]; intros a k Hn Hz Hk; (destruct k as [|k]; [lia|]); cbn [strnlen].
  - rewrite Z.add_0_r in Hz. by rewrite Hz.
  - rewrite (proj2 (Z.eqb_neq _ _)) by (specialize (Hn O ltac:(lia)); by rewrite Z.add_0_r in Hn). f_equal. apply IH; [|rewrite <- Hz; f_equal; lia|lia].
    intros i Hi. specialize (Hn (S i) ltac:(lia)). replace (a + 1 + Z.of_nat i) with (a + Z.of_nat (S i)) by lia. done.
Qed.

(** The guest has the string [s] at [a], with its terminator in memory. *)
Record c_string (m : memory_t) (a : Z) (s : list Z) : Prop := {
  cs_bytes : s = load_bytes (length s) m a;
  cs_nonzero : Forall (fun c => c <> 0) s;
  cs_end : mem_byte m (a + Z.of_nat (length s)) = 0 /\ a + Z.of_nat (length s) < m.(mem_size) }.

(** C36. [syscall_open] on a string in guest memory that the host can open with the access
    mode returns the lowest free descriptor from 3 on, and the descriptor then stands for
    the opened file; the other descriptors keep theirs. *)
Theorem syscall_open_correct v (s : list Z) (mode : string) (f : FILE) (h : H) :
  riscv_wf v.(core) -> map_ok v.(attr).(fd_map) -> map_size v.(attr).(fd_map) < SIZE_MAX ->
  c_string v.(core).(mem) (arg v rv_reg_a0) s -> get_mode_str (arg v rv_reg_a1) = Some mode ->
  fopen s mode v.(host) = (Some f, h) ->
  exists fd m, syscall_open v = Some (ret fd (set_attr (set_fd_map m v.(attr)) (set_host h v))) /\
    first_free (files v) 3 fd /\ map_ok m /\ contents m = <[fd := f]> (files v).
Proof.
  intros Hw Hm Hsz [Hs Hnz [Hz Hin]] Hmode Hopen. pose proof (arg_u32 v rv_reg_a0 Hw) as Hu. unfold is_u32 in Hu.
  unfold syscall_open. set (name := arg v rv_reg_a0) in *. rewrite (proj2 (Z.leb_gt _ _)) by lia.
  rewrite (strnlen_ok _ name (length s)) by (done || lia || (intros i Hi; rewrite list.Forall_forall in Hnz; apply Hnz; rewrite Hs; apply list_elem_of_lookup; exists i; by apply lookup_load_bytes)).
  rewrite (proj2 (Z.eqb_neq _ _)) by lia. rewrite memory_read_in by lia. cbn [mbind option_bind]. rewrite Nat2Z.id, <- Hs, Hmode, Hopen.
  change (attr (set_host h v)) with (attr v). destruct (find_free_fd_ok v.(attr) Hm) as (fd & -> & Hfd). cbn [mbind option_bind].
  destruct (insert_refines v.(attr).(fd_map) fd f Hm Hsz) as (m & -> & Hok & Hc). cbn [mbind option_bind].
  exists fd, m. split; [done|]. split; [done|]. split; [done|]. rewrite Hc. destruct Hfd as (_ & Hn & _). unfold files. by rewrite Hn.
Qed.
End Descriptors.

(** * Standard streams *)

Section Remap.
Context {H : Type} `{Stdio H}.
Implicit Types (v w : vm H).

Lemma replace_fd (m : map_t Z FILE) (fd : Z) (f : FILE) :
  map_ok m -> map_size m < SIZE_MAX ->
  exists m1 b m2, map_erase m (map_find m fd) = Some m1 /\ map_insert m1 fd f = Some (b, m2) /\
    map_ok m2 /\ contents m2 = <[fd := f]> (contents m) /\ map_size m2 <= map_size m + 1.
Proof.
  intros Hm Hsz. destruct (erase_refines m fd Hm) as (m1 & E1 & Hm1 & Hc1).
  assert (Hle : map_size m1 <= map_size m) by (rewrite !size_refines, Hc1 by done; apply Nat2Z.inj_le, map_subseteq_size, delete_subseteq).
  destruct (insert_refines m1 fd f Hm1) as (m2 & E2 & Hm2 & Hc2); [unfold map_size in *; lia|]. rewrite Hc1, lookup_delete_eq in Hc2.
  eexists m1, _, m2. split; [exact E1|]. split; [exact E2|]. split; [exact Hm2|]. split; [by rewrite Hc2, insert_delete_eq|].
  rewrite (size_refines m2), Hc2, map_size_insert_None by (done || apply lookup_delete_eq). rewrite (size_refines m1), Hc1 in Hle by done. lia.
Qed.

(** The table after remapping: the last file given for a standard descriptor. *)
Definition remapped (g : gmap Z FILE) (fsp : list (Z * option FILE)) : gmap Z FILE :=
  foldl (fun g p => match p.2 with Some f => if decide (0 <= p.1 < 3) then <[p.1 := f]> g else g | None => g end) g fsp.

Lemma remap_ok (fsp : list (Z * option FILE)) v :
  map_ok v.(attr).(fd_map) -> map_size v.(attr).(fd_map) + Z.of_nat (length fsp) < SIZE_MAX ->
  (forall fd f, (fd, Some f) ∈ fsp -> fileno f v.(host) <> -1) ->
  exists w, rv_remap_stdstream fsp v = Some w /\ map_ok w.(attr).(fd_map) /\ files w = remapped (files v) fsp /\ w.(core) = v.(core) /\ w.(host) = v.(host).
Proof.
  revert v. induction fsp as [|[fd [f|]] fsp IH]; intros v Hm Hsz Hno; cbn [rv_remap_stdstream remapped foldl length fst snd] in *; [by exists v| |].
  2: { apply IH; [done|lia|]. intros fd' f' Hin. apply (Hno fd'). by apply list_elem_of_further. }
  unfold STDIN_FILENO, STDOUT_FILENO, STDERR_FILENO. assert (Hrest : forall fd' f', (fd', Some f') ∈ fsp -> fileno f' v.(host) <> -1) by (intros fd' f' Hin; apply (Hno fd'); by apply list_elem_of_further).
  destruct (decide (0 <= fd < 3)) as [Hfd|Hfd].
  - replace (negb (fd =? 0) && negb (fd =? 1) && negb (fd =? 2)) with false by (destruct (Z.eqb_spec fd 0), (Z.eqb_spec fd 1), (Z.eqb_spec fd 2); cbn; lia || done).
    destruct (replace_fd v.(attr).(fd_map) fd f Hm ltac:(lia)) as (m1 & b & m2 & -> & -> & Hm2 & Hc2 & Hs2).
    rewrite (proj2 (Z.eqb_neq _ _)) by (apply (Hno fd); by apply list_elem_of_here).
    set (v1 := set_attr _ v). assert (Ev : fd_map (attr v1) = m2) by (unfold v1, set_stream; by repeat case_match).
    destruct (IH v1) as (w & -> & Hw & Hf & Hc & Hh); [by rewrite Ev|rewrite Ev; lia|done|]. exists w. unfold files in Hf at 2. rewrite Ev, Hc2 in Hf. done.
  - replace (negb (fd =? 0) && negb (fd =? 1) && negb (fd =? 2)) with true by (destruct (Z.eqb_spec fd 0), (Z.eqb_spec fd 1), (Z.eqb_spec fd 2); cbn; lia || done).
    apply IH; [done|lia|done].
Qed.
End Remap.

(** * What no call breaks *)

Section Invariant.
Context {H : Type} `{Stdio H}.
Implicit Types (h : H) (v w : vm H).

Record machine_ok v : Prop := { mo_core : riscv_wf v.(core); mo_fds : map_ok v.(attr).(fd_map) }.

(** From [v] the call has come to [w]. *)
Record keeps v w : Prop := {
  k_ok : machine_ok w;
  k_streams : forall fd, 0 <= fd < 3 -> files w !! fd = files v !! fd;
  k_stats : stats_of w.(core) = stats_of v.(core) }.

Lemma keeps_refl v : machine_ok v -> keeps v v.
Proof. by constructor. Qed.

Lemma keeps_core v w (c : riscv) : keeps v w -> riscv_wf c -> stats_of c = stats_of w.(core) -> keeps v (set_core c w).
Proof. intros [[Hc Hm] Hs Ht] Hw He. constructor; [by constructor|exact Hs|]. cbn [core set_core]. by rewrite He. Qed.

Lemma keeps_host v w h : keeps v w -> keeps v (set_host h w).
Proof. intros [[Hc Hm] Hs Ht]. by constructor; [constructor|exact Hs|]. Qed.

Lemma keeps_attr v w (a : vm_attr_t) : keeps v w -> a.(fd_map) = w.(attr).(fd_map) -> keeps v (set_attr a w).
Proof. intros [[Hc Hm] Hs Ht] E. constructor; [constructor; [done|]|unfold files|done]; cbn [attr set_attr]; rewrite E; done. Qed.

Lemma keeps_fds v w (m : map_t Z FILE) :
  keeps v w -> map_ok m -> (forall fd, 0 <= fd < 3 -> contents m !! fd = files w !! fd) -> keeps v (set_attr (set_fd_map m w.(attr)) w).
Proof. intros [[Hc Hm] Hs Ht] Hok Hf. constructor; [by constructor| |done]. intros fd Hfd. rewrite <- Hs by done. by apply Hf. Qed.

Lemma set_reg_wf (rv : riscv) (r x : Z) : riscv_wf rv -> is_u32 x -> riscv_wf (rv_set_reg rv r x).
Proof. intros Hr Hx. unfold rv_set_reg. case_match; [by apply set_xreg_wf|done]. Qed.

Lemma set_reg_stats (rv : riscv) (r x : Z) : stats_of (rv_set_reg rv r x) = stats_of rv.
Proof. unfold rv_set_reg. by case_match. Qed.

Lemma keeps_ret v w (x : Z) : keeps v w -> keeps v (ret x w).
Proof. intros Hk. apply keeps_core; [done| |apply set_reg_stats]. apply set_reg_wf; [apply Hk|apply u32_range]. Qed.

Lemma keeps_ret1 v w (x : Z) : keeps v w -> keeps v (ret1 x w).
Proof. intros Hk. apply keeps_core; [done| |apply set_reg_stats]. apply set_reg_wf; [apply Hk|apply u32_range]. Qed.

Lemma keeps_ram v w (m : memory_t) : keeps v w -> mem_wf m -> keeps v (set_ram m w).
Proof. intros Hk Hm. apply keeps_core; [done|apply set_mem_wf; [apply Hk|done]|done]. Qed.

Lemma keeps_halt v w : keeps v w -> keeps v (set_core (rv_halt w.(core)) w).
Proof. intros Hk. apply keeps_core; [done| |done]. destruct Hk as [[[] _] _ _]. by constructor. Qed.

Create HintDb calls.
#[local] Hint Resolve keeps_refl keeps_host keeps_ret keeps_ret1 keeps_halt keeps_attr : calls.

Lemma memory_write_wf (m : memory_t) (a : Z) (l : list Z) : mem_wf m -> mem_wf (memory_write m a l).2.
Proof. intros Hm. unfold memory_write. case_match; [done|by apply store_bytes_wf]. Qed.

Lemma put_word_keeps v w u (a x : Z) : keeps v w -> put_word a x w = Some u -> keeps v u.
Proof.
  intros Hk. unfold put_word, memory_write_w, checked_store. destruct (GUEST_RAM_CONTAINS _ _ _); [|done]. cbn [mbind option_bind]. intros [= <-].
  apply keeps_ram; [done|]. repeat apply set_byte_wf. apply Hk.
Qed.

Lemma syswrite_keeps v w : machine_ok v -> syscall_write v = Some w -> keeps v w.
Proof.
  intros Hv. unfold syscall_write. destruct (find_fd v (arg v rv_reg_a0)) as [f|]; [|intros [= <-]; auto with calls].
  destruct (write_loop _ _ _ _ _ _ _) as [[[[t c]|] h]|]; cbn [mbind option_bind]; [|intros [= <-]; auto with calls|done].
  destruct (memory_read _ _ c) as [tmp|]; [cbn [mbind option_bind]|done]. destruct (fwrite f tmp h) as [n h1].
  case_match; [intros [= <-]; auto with calls|]. case_match; [|done]. intros [= <-]. auto with calls.
Qed.

Lemma read_loop_wf (fuel : nat) (f : FILE) (buf total count : Z) (m m' : memory_t) h h' (r : option (Z * Z)) :
  mem_wf m -> read_loop fuel f buf total count m h = Some (r, m', h') -> mem_wf m'.
Proof.
  revert total count m h. induction fuel as [|fuel IH]; intros total count m h Hm; cbn [read_loop]; [done|].
  case_match; [|by intros [= _ <- _]]. destruct (fread_tmp f PREALLOC_SIZE h) as [[l h1]|]; [cbn [mbind option_bind]|done].
  pose proof (memory_write_wf m (u32 (buf + total)) l Hm) as Hw. destruct (memory_write m (u32 (buf + total)) l) as [[] m1]; cbn [negb snd] in *; [|by intros [= _ <- _]].
  case_match; [by intros [= _ <- _]|]. by apply IH.
Qed.

Lemma sysread_keeps v w : machine_ok v -> syscall_read v = Some w -> keeps v w.
Proof.
  intros Hv. unfold syscall_read. destruct (find_fd v (arg v rv_reg_a0)) as [f|]; [|intros [= <-]; auto with calls].
  destruct (read_loop _ _ _ _ _ _ _) as [[[r m] h]|] eqn:E; [cbn [mbind option_bind]|done]. apply read_loop_wf in E; [|apply Hv].
  destruct r as [[t c]|]; [|intros [= <-]; apply keeps_ret, keeps_ram; auto with calls].
  destruct (fread_tmp f c h) as [[l h1]|]; [cbn [mbind option_bind]|done].
  pose proof (memory_write_wf m (u32 (arg v rv_reg_a1 + t)) l E) as Hw. destruct (memory_write m _ l) as [ok m1]. cbn [snd] in Hw.
  assert (Hk : keeps v (set_ram m1 (set_host h1 v))) by (apply keeps_ram; auto with calls).
  destruct ok; cbn [negb]; [case_match|]; intros [= <-]; auto with calls.
Qed.

Lemma time_keeps v w u (a sec x : Z) h :
  keeps v w -> (let? u := put_word (a + 0) sec (set_host h w) in put_word (a + 8) x u) = Some u -> keeps v u.
Proof.
  intros Hk. destruct (put_word (a + 0) sec (set_host h w)) as [w1|] eqn:E; [cbn [mbind option_bind]|done].
  apply put_word_keeps, (put_word_keeps v (set_host h w) w1 (a + 0) sec); auto with calls.
Qed.

Lemma gettimeofday_keeps v w : machine_ok v -> syscall_gettimeofday v = Some w -> keeps v w.
Proof.
  intros Hv. unfold syscall_gettimeofday. destruct (rv_gettimeofday (host v)) as [[sec us] h]. destruct (truthy _).
  - match goal with |- match ?t with Some _ => _ | None => _ end = _ -> _ => destruct t as [u|] eqn:E end; [cbn [mbind option_bind]|done]. intros [= <-]. apply keeps_ret, (time_keeps v v u _ _ _ _ ltac:(auto with calls) E).
  - intros [= <-]. auto with calls.
Qed.

Lemma clock_gettime_keeps v w : machine_ok v -> syscall_clock_gettime v = Some w -> keeps v w.
Proof.
  intros Hv. unfold syscall_clock_gettime. case_match; [intros [= <-]; auto with calls|]. destruct (rv_clock_gettime (host v)) as [[sec ns] h]. destruct (truthy _).
  - match goal with |- match ?t with Some _ => _ | None => _ end = _ -> _ => destruct t as [u|] eqn:E end; [cbn [mbind option_bind]|done]. intros [= <-]. apply keeps_ret, (time_keeps v v u _ _ _ _ ltac:(auto with calls) E).
  - intros [= <-]. auto with calls.
Qed.

(** Only descriptors from 3 on leave the table ... *)
Lemma close_keeps (system : bool) v w : machine_ok v -> syscall_close system v = Some w -> keeps v w.
Proof.
  intros Hv. unfold syscall_close. case_match; [intros [= <-]; auto with calls|]. destruct (Z.leb_spec 3 (arg v rv_reg_a0)) as [Hfd|]; [|intros [= <-]; auto with calls].
  destruct (find_fd v _) as [f|]; [|intros [= <-]; auto with calls]. destruct (fclose f (host v)) as [[] h]; [intros [= <-]; auto with calls|].
  cbn [attr set_host]. destruct (erase_refines (fd_map (attr v)) (i32 (arg v rv_reg_a0)) (mo_fds v Hv)) as (m & -> & Hok & Hc). cbn [mbind option_bind]. intros [= <-].
  apply keeps_ret, keeps_ret. apply (keeps_fds v (set_host h v) m); [auto with calls|done|]. intros fd Hr. rewrite Hc. apply lookup_delete_ne.
  pose proof (arg_u32 v rv_reg_a0 (mo_core v Hv)) as Hu. intros E. apply (f_equal u32) in E.
  rewrite u32_i32, !u32_id in E by (unfold is_u32 in *; lia). lia.
Qed.

(** ... and only such descriptors enter it. *)
Lemma open_keeps v w : machine_ok v -> map_size v.(attr).(fd_map) < SIZE_MAX -> syscall_open v = Some w -> keeps v w.
Proof.
  intros Hv Hsz. unfold syscall_open. case_match; [intros [= <-]; auto with calls|]. case_match; [intros [= <-]; auto with calls|].
  destruct (memory_read _ _ _) as [s|]; [cbn [mbind option_bind]|done]. destruct (get_mode_str _) as [mode|]; [|intros [= <-]; auto with calls].
  destruct (fopen s mode (host v)) as [[f|] h]; [|intros [= <-]; auto with calls]. cbn [attr set_host].
  destruct (find_free_fd_ok (attr v) (mo_fds v Hv)) as (fd & -> & Hfd & Hn & _). cbn [mbind option_bind].
  destruct (insert_refines (fd_map (attr v)) fd f (mo_fds v Hv) Hsz) as (m & -> & Hok & Hc). cbn [mbind option_bind]. intros [= <-].
  apply keeps_ret. apply (keeps_fds v (set_host h v) m); [auto with calls|done|]. intros fd' Hr. rewrite Hc, Hn. apply lookup_insert_ne. lia.
Qed.

Lemma plain_keeps v :
  machine_ok v -> Forall (keeps v) [syscall_lseek v; syscall_fstat v; syscall_exit v; syscall_brk v; syscall_sbi_base v; syscall_sbi_timer v; syscall_sbi_rst v].
Proof.
  intros Hv. assert (Hk : keeps v v) by auto with calls. rewrite !Forall_cons. split_and!; [| | | | | | |done]; try done.
  - unfold syscall_lseek. destruct (find_fd v _) as [f|]; [|auto with calls]. destruct (fseek f _ _ _) as [[] h]; [auto with calls|]. case_match; auto with calls.
  - unfold syscall_exit. apply keeps_attr; auto with calls.
  - unfold syscall_brk. case_match; auto with calls.
  - unfold syscall_sbi_base, sbi_ret. repeat case_match; auto with calls.
  - unfold syscall_sbi_timer, sbi_ret. repeat case_match; auto with calls.
  - unfold syscall_sbi_rst, sbi_ret. repeat case_match; auto with calls.
Qed.

Lemma handle_keeps (system : bool) v w :
  machine_ok v -> map_size v.(attr).(fd_map) < SIZE_MAX -> handle_syscall system v = Some w -> keeps v w.
Proof.
  intros Hv Hsz. unfold handle_syscall. destruct (dispatch system (arg v rv_reg_a7) v) as [u|] eqn:E; [|done]. intros [= <-]. apply keeps_attr; [|done].
  pose proof (plain_keeps v Hv) as Hp. rewrite !Forall_cons in Hp. destruct Hp as (? & ? & ? & ? & ? & ? & ? & _). revert E. unfold dispatch.
  repeat case_match; first [apply close_keeps; done|apply sysread_keeps; done|apply syswrite_keeps; done|apply gettimeofday_keeps; done
    |apply clock_gettime_keeps; done|apply open_keeps; done|intros [= <-]; done|intros [= <-]; by apply keeps_refl].
Qed.

(** The guest and its system calls: between two calls the guest computes, and the
    emulator may note that it is about to exit. *)
Definition set_on_exit (b : bool) (a : vm_attr_t) : vm_attr_t :=
  mk_attr a.(fd_map) a.(fd_stdin) a.(fd_stdout) a.(fd_stderr) a.(break_addr) a.(exit_code) a.(error) b a.(vtimer).

Inductive guest_step (system : bool) : vm H -> vm H -> Prop :=
| guest_calls v w : map_size v.(attr).(fd_map) < SIZE_MAX -> handle_syscall system v = Some w -> guest_step system v w
| guest_computes v (c : riscv) : riscv_wf c -> guest_step system v (set_core c v)
| guest_exits v (b : bool) : guest_step system v (set_attr (set_on_exit b v.(attr)) v).

(** C37. Whatever a guest does between its system calls, in every state it reaches the
    processor state is well-formed, the descriptor table is a red-black tree, and the
    standard streams are the ones it started with: no call closes or replaces them. *)
Theorem syscalls_keep_streams (system : bool) v w :
  machine_ok v -> rtc (guest_step system) v w ->
  machine_ok w /\ forall fd, 0 <= fd < 3 -> files w !! fd = files v !! fd.
Proof.
  intros Hv Hr. induction Hr as [v|v u w Hs _ IH]; [done|]. assert (Hu : machine_ok u /\ forall fd, 0 <= fd < 3 -> files u !! fd = files v !! fd).
  { destruct Hs as [v u Hsz Hc|v c Hc|v b].
    - destruct (handle_keeps system v u Hv Hsz Hc) as [Ho Hf _]. done.
    - by destruct Hv.
    - by destruct Hv. }
  destruct Hu as [Hu Hf]. destruct (IH Hu) as [Hw Hf']. split; [done|]. intros fd Hfd. by rewrite Hf', Hf.
Qed.
End Invariant.

(** * The interface of the interpreter *)

Section Interface.
Context {H : Type} `{Stdio H}.
Implicit Types (v : vm H).

(** The statistics of the interpreter. *)
Definition put_vm (s : stats) v : vm H := set_core (put s v.(core)) v.

(** No call looks at them or changes them. *)
Ltac see_through s v :=
  change (arg (put_vm s v)) with (arg v); change (find_fd (put_vm s v)) with (find_fd v);
  change (mem (core (put_vm s v))) with (mem (core v)); change (host (put_vm s v)) with (host v);
  change (attr (put_vm s v)) with (attr v); change (csr_val (core (put_vm s v))) with (csr_val (core v)).

Lemma write_put (s : stats) v : syscall_write (put_vm s v) = put_vm s <$> syscall_write v.
Proof.
  unfold syscall_write. see_through s v. destruct (find_fd v _) as [f|]; [|reflexivity].
  destruct (write_loop _ _ _ _ _ _ _) as [[[[t c]|] h]|]; [|reflexivity..].
  destruct (memory_read _ _ _) as [tmp|]; [|reflexivity]. destruct (fwrite f tmp h) as [n h1].
  change (arg (set_host h1 (put_vm s v))) with (arg v). change (arg (set_host h1 v)) with (arg v). repeat (case_match; try reflexivity).
Qed.

Lemma read_put (s : stats) v : syscall_read (put_vm s v) = put_vm s <$> syscall_read v.
Proof.
  unfold syscall_read. see_through s v. destruct (find_fd v _) as [f|]; [|reflexivity].
  destruct (read_loop _ _ _ _ _ _ _) as [[[[[t c]|] m] h]|]; [|reflexivity..].
  destruct (fread_tmp f c h) as [[l h1]|]; [|reflexivity]. destruct (memory_write m _ l) as [ok m1].
  change (arg (set_ram m1 (set_host h1 (put_vm s v)))) with (arg v). change (arg (set_ram m1 (set_host h1 v))) with (arg v). repeat (case_match; try reflexivity).
Qed.

Lemma put_word_put (s : stats) v (a x : Z) : put_word a x (put_vm s v) = put_vm s <$> put_word a x v.
Proof. unfold put_word. see_through s v. by destruct (memory_write_w _ _ _). Qed.

Lemma time_put (s : stats) v (a x y : Z) (h : H) :
  (let? u := put_word (a + 0) x (set_host h (put_vm s v)) in put_word (a + 8) y u) = put_vm s <$> (let? u := put_word (a + 0) x (set_host h v) in put_word (a + 8) y u).
Proof.
  change (set_host h (put_vm s v)) with (put_vm s (set_host h v)). rewrite put_word_put. destruct (put_word (a + 0) x _) as [u|]; [|done]. apply put_word_put.
Qed.

Lemma gettimeofday_put (s : stats) v : syscall_gettimeofday (put_vm s v) = put_vm s <$> syscall_gettimeofday v.
Proof.
  unfold syscall_gettimeofday. see_through s v. destruct (rv_gettimeofday _) as [[x y] h]. destruct (truthy _); [|reflexivity].
  rewrite time_put. by destruct (match put_word _ x _ with Some _ => _ | None => _ end).
Qed.

Lemma clock_gettime_put (s : stats) v : syscall_clock_gettime (put_vm s v) = put_vm s <$> syscall_clock_gettime v.
Proof.
  unfold syscall_clock_gettime. see_through s v. case_match; [reflexivity|]. destruct (rv_clock_gettime _) as [[x y] h]. destruct (truthy _); [|reflexivity].
  rewrite time_put. by destruct (match put_word _ x _ with Some _ => _ | None => _ end).
Qed.

Lemma close_put (system : bool) (s : stats) v : syscall_close system (put_vm s v) = put_vm s <$> syscall_close system v.
Proof.
  unfold syscall_close. see_through s v. case_match; [reflexivity|]. case_match; [|reflexivity]. destruct (find_fd v _) as [f|]; [|reflexivity].
  destruct (fclose f _) as [[] h]; [reflexivity|]. cbn [attr set_host put_vm set_core]. by destruct (map_erase _ _).
Qed.

Lemma open_put (s : stats) v : syscall_open (put_vm s v) = put_vm s <$> syscall_open v.
Proof.
  unfold syscall_open. see_through s v. do 2 (case_match; [reflexivity|]). destruct (memory_read _ _ _) as [l|]; [|reflexivity].
  destruct (get_mode_str _) as [mode|]; [|reflexivity]. destruct (fopen l mode _) as [[f|] h]; [|reflexivity]. cbn [attr set_host put_vm set_core].
  destruct (find_free_fd _); [|reflexivity]. by destruct (map_insert _ _ _) as [[]|].
Qed.

Lemma lseek_put (s : stats) v : syscall_lseek (put_vm s v) = put_vm s (syscall_lseek v).
Proof.
  unfold syscall_lseek. see_through s v. destruct (find_fd v _) as [f|]; [|reflexivity]. destruct (fseek f _ _ _) as [[] h]; [reflexivity|]. by case_match.
Qed.

Lemma brk_put (s : stats) v : syscall_brk (put_vm s v) = put_vm s (syscall_brk v).
Proof. unfold syscall_brk. see_through s v. by case_match. Qed.

Lemma sbi_put (s : stats) v :
  syscall_sbi_base (put_vm s v) = put_vm s (syscall_sbi_base v) /\ syscall_sbi_timer (put_vm s v) = put_vm s (syscall_sbi_timer v) /\
  syscall_sbi_rst (put_vm s v) = put_vm s (syscall_sbi_rst v).
Proof.
  unfold syscall_sbi_base, syscall_sbi_timer, syscall_sbi_rst. see_through s v. split_and!; repeat (case_match; [reflexivity|]); reflexivity.
Qed.

Lemma handle_put (system : bool) (s : stats) v : handle_syscall system (put_vm s v) = put_vm s <$> handle_syscall system v.
Proof.
  unfold handle_syscall. assert (Hd : dispatch system (arg v rv_reg_a7) (put_vm s v) = put_vm s <$> dispatch system (arg v rv_reg_a7) v).
  { destruct (sbi_put s v) as (H1 & H2 & H3). unfold dispatch. rewrite close_put, lseek_put, read_put, write_put, gettimeofday_put, brk_put, clock_gettime_put, open_put, H1, H2, H3.
    repeat (case_match; [reflexivity|]). reflexivity. }
  change (arg (put_vm s v)) with (arg v). rewrite Hd. by destruct (dispatch system _ v).
Qed.

(** The system calls as the interpreter sees them, for files in a given state. *)
Context (system : bool) (a : vm_attr_t) (h : H).

Definition host_calls : Syscall := {| syscall_handler r := core <$> handle_syscall system (mk_vm r a h) |}.

Lemma host_calls_put (s : stats) (r : riscv) : @syscall_handler host_calls (put s r) = put s <$> @syscall_handler host_calls r.
Proof. cbn. change (mk_vm (put s r) a h) with (put_vm s (mk_vm r a h)). rewrite handle_put. by destruct (handle_syscall system (mk_vm r a h)). Qed.

(** They have the properties the interpreter, its optimisations and the run loop rely on. *)
#[export] Instance host_calls_local : @SyscallLocal host_calls.
Proof. constructor. intros r r' E. by apply (last_put_option (@syscall_handler host_calls) r r' host_calls_put). Qed.

Lemma host_calls_blind (clock : HostClock) :
  (forall s r, @gettimeofday clock (put s r) = @gettimeofday clock r) -> @EnvBlind clock host_calls.
Proof. intros Hc. split; [|exact Hc]. intros s r. rewrite host_calls_put. by destruct (@syscall_handler host_calls r). Qed.

Lemma host_calls_wf : map_ok a.(fd_map) -> map_size a.(fd_map) < SIZE_MAX -> @SyscallWf host_calls.
Proof.
  intros Hm Hsz. constructor. cbn. intros r r' Hr E. destruct (handle_syscall system (mk_vm r a h)) as [w|] eqn:Ew; [|done].
  injection E as <-. by apply (handle_keeps system (mk_vm r a h) w).
Qed.
End Interface.

(** * Files in memory *)

Record stream : Type := mk_stream { s_data : list Z; s_pos : Z }.
Record disk : Type := mk_disk { streams : gmap Z stream; names : gmap (list Z) (list Z) }.

Definition set_streams (s : gmap Z stream) (d : disk) : disk := mk_disk s d.(names).

(** Writing appends; a stream that does not exist fails. *)
#[local] Instance disk_stdio : Stdio disk := {|
  fgetc f d :=
    match d.(streams) !! f with
    | Some s => match (if s.(s_pos) <? Z.of_nat (length s.(s_data)) then s.(s_data) !! Z.to_nat s.(s_pos) else None) with
                | Some c => (Some (u8 c), set_streams (<[f := mk_stream s.(s_data) (s.(s_pos) + 1)]> d.(streams)) d)
                | None => (None, d)
                end
    | None => (None, d)
    end;
  fputc f c d :=
    match d.(streams) !! f with
    | Some s => (true, set_streams (<[f := mk_stream (s.(s_data) ++ [c]) s.(s_pos)]> d.(streams)) d)
    | None => (false, d)
    end;
  ferror f d := bool_decide (d.(streams) !! f = None);
  fseek f off whence d :=
    match d.(streams) !! f with
    | Some s => let pos := off + (if whence =? 1 then s.(s_pos) else if whence =? 2 then Z.of_nat (length s.(s_data)) else 0) in
                if pos <? 0 then (true, d) else (false, set_streams (<[f := mk_stream s.(s_data) pos]> d.(streams)) d)
    | None => (true, d)
    end;
  ftell f d := match d.(streams) !! f with Some s => s.(s_pos) | None => -1 end;
  fopen name mode d :=
    match d.(names) !! name with
    | Some data => let f := 100 + Z.of_nat (base.size d.(streams)) in (Some f, set_streams (<[f := mk_stream data 0]> d.(streams)) d)
    | None => (None, d)
    end;
  fclose f d := (false, set_streams (delete f d.(streams)) d);
  fileno f d := f;
  get_time_info d := ((5, 7000), d);
|}.

#[local] Instance disk_laws : StdioLaws disk.
Proof.
  constructor.
  - intros f d c d'. cbn. repeat case_match; intros E; try discriminate E; injection E as <- _; by apply Z.mod_pos_bound.
  - intros f c d d'. cbn. destruct (streams d !! f) eqn:E; [done|]. intros [= <-]. by apply bool_decide_eq_true.
  - intros f d d'. cbn. destruct (streams d !! f) as [s|] eqn:E; [destruct (if s_pos s <? _ then _ else _) eqn:El|]; intros [= <-]; by rewrite ?E, ?El.
Qed.

(** A guest with the three standard streams and a file "a" of 10 characters. *)
Definition sample_attr : vm_attr_t :=
  mk_attr (default (mk_map NULL 4 8 0 map_cmp_int) (map_new 4 8 map_cmp_int)) 0 0 0 0 0 0 false 0.
Definition sample_disk : disk :=
  mk_disk {[0 := mk_stream [] 0; 1 := mk_stream [] 0; 2 := mk_stream [] 0]} {[ [97] := [10; 11; 12; 13; 14; 15; 16; 17; 18; 19] ]}.
Definition sample_ram : memory_t := store_bytes (mk_memory ∅ 0x4000) 0x100 [97; 0].
Definition with_args (args : list (Z * Z)) (v : vm disk) : vm disk :=
  set_core (foldr (fun ra r => set_xreg ra.1 ra.2 r) v.(core) args) v.
Definition sample_vm : option (vm disk) :=
  rv_remap_stdstream [(0, Some 0); (1, Some 1); (2, Some 2)] (mk_vm (set_mem sample_ram hart) sample_attr sample_disk).

(** A system call with its number and arguments. *)
Definition call (n a0 a1 a2 : Z) (v : vm disk) : option (Z * vm disk) :=
  let? w := handle_syscall false (with_args [(17, n); (10, a0); (11, a1); (12, a2)] v) in Some (arg w rv_reg_a0, w).

(** Opening the file, reading from it and closing it. *)
Example file_session :
  (let? v := sample_vm in
   let? (fd, v) := call SYS_open 0x100 O_RDONLY 0 v in
   let? (n1, v) := call SYS_read fd 0x200 6 v in
   let? (n2, v) := call SYS_read fd 0x206 6 v in
   let? (c, v) := call SYS_close fd 0 0 v in
   let? (e, v) := call SYS_read fd 0x200 6 v in
   Some (fd, n1, n2, c, e, load_bytes 10 v.(core).(mem) 0x200)) = Some (3, 6, 4, 0, 2 ^ 32 - 1, [10; 11; 12; 13; 14; 15; 16; 17; 18; 19]).
Proof. by vm_compute. Qed.

Lemma sample_vm_ok : exists v, sample_vm = Some v /\ machine_ok v /\ files v = remapped ∅ [(0, Some 0); (1, Some 1); (2, Some 2)] /\ v.(host) = sample_disk.
Proof.
  destruct (map_new (V := FILE) 4 8 map_cmp_int) as [m|] eqn:E; [|by vm_compute in E].
  destruct (new_ok (K := Z) (V := FILE) 4 8 map_cmp_int m) as (Hok & Hs & Hc); [lia|lia|apply _|done|].
  assert (Em : fd_map sample_attr = m) by (unfold sample_attr; by rewrite E).
  destruct (remap_ok [(0, Some 0); (1, Some 1); (2, Some 2)] (mk_vm (set_mem sample_ram hart) sample_attr sample_disk)) as (v & Hv & Ho & Hf & Hc' & Hh).
  - cbn [attr]. by rewrite Em.
  - cbn [attr]. rewrite Em. unfold map_size. rewrite Hs. by vm_compute.
  - cbn. intros fd f Hin E'. rewrite E', !elem_of_cons, elem_of_nil in Hin. intuition discriminate.
  - exists v. split; [exact Hv|]. split; [split; [rewrite Hc'|done]|split; [|done]].
    + cbn [core]. apply set_mem_wf; [exact (hart_at_wf 0 0 is_u32_0)|]. apply store_bytes_wf. split; [|cbn; lia]. intros a x Ha. cbn in Ha. by rewrite lookup_empty in Ha.
    + rewrite Hf. unfold files. cbn [attr]. by rewrite Em, Hc.
Qed.

Lemma with_args_wf (args : list (Z * Z)) (v : vm disk) : Forall (fun ra => is_u32 ra.2) args -> riscv_wf v.(core) -> riscv_wf (with_args args v).(core).
Proof.
  intros Ha Hv. cbn [with_args core set_core]. induction Ha as [|[r x] args Hx _ IH]; [done|]. cbn [foldr fst snd]. by apply set_xreg_wf.
Qed.

(** Two characters to the standard output. *)
Lemma syscall_write_correct_witness :
  exists v w, sample_vm = Some v /\ syscall_write (with_args [(10, 1); (11, 0x100); (12, 2)] v) = Some w /\ arg w rv_reg_a0 = 2 /\
    option_map s_data (w.(host).(streams) !! 1) = Some [97; 0].
Proof.
  destruct sample_vm_ok as (v & E & Hv & _). set (v1 := with_args [(10, 1); (11, 0x100); (12, 2)] v).
  assert (Hw : riscv_wf v1.(core)) by (apply with_args_wf; [repeat constructor; done|apply Hv]).
  assert (Hf : find_fd v1 (arg v1 rv_reg_a0) = Some 1) by (unfold v1; vm_compute in E; injection E as <-; vm_compute; split_and?; reflexivity).
  assert (Ha : arg v1 rv_reg_a1 = 0x100 /\ arg v1 rv_reg_a2 = 2 /\ mem_size (mem (core v1)) = 0x4000) by (unfold v1; vm_compute in E; injection E as <-; vm_compute; split_and?; reflexivity).
  destruct Ha as (Ha1 & Ha2 & Ha3). pose proof (syscall_write_correct v1 1 Hw Hf) as Hc. cbn zeta in Hc.
  rewrite Ha1, Ha2, Ha3 in Hc. specialize (Hc ltac:(right; lia)).
  destruct (fwrite 1 _ (host v1)) as [n h] eqn:Ew. exists v. eexists. split; [exact E|]. split; [exact Hc|].
  clear Hc Hw Hf Ha1 Ha2 Ha3 Hv. unfold v1 in Ew |- *. clear v1. vm_compute in E. injection E as <-. vm_compute in Ew. injection Ew as <- <-. vm_compute. split; reflexivity.
Defined.

(** 5000 characters take two blocks. *)
Example two_blocks :
  (let? v := sample_vm in let? (n, v) := call SYS_write 1 0x100 5000 v in
   let? s := v.(host).(streams) !! 1 in Some (n, length s.(s_data))) = Some (5000, 5000%nat).
Proof. by vm_compute. Qed.

(** The file "a" is opened, and read beyond its end. *)
Definition opened : option (vm disk) := let? v := sample_vm in let? (_, v) := call SYS_open 0x100 O_RDONLY 0 v in Some v.

Lemma syscall_open_correct_witness :
  exists v fd m, sample_vm = Some v /\
    syscall_open (with_args [(10, 0x100); (11, O_RDONLY)] v) = Some (ret fd (set_attr (set_fd_map m v.(attr)) (set_host (fopen [97] "rb"%string sample_disk).2 (with_args [(10, 0x100); (11, O_RDONLY)] v)))) /\
    fd = 3 /\ contents m !! 3 = Some 103.
Proof.
  destruct sample_vm_ok as (v & E & Hv & Hfs & Hh). set (v1 := with_args [(10, 0x100); (11, O_RDONLY)] v).
  assert (Hw : riscv_wf v1.(core)) by (apply with_args_wf; [repeat constructor; done|apply Hv]).
  assert (Ha : arg v1 rv_reg_a0 = 0x100 /\ arg v1 rv_reg_a1 = 0 /\ mem (core v1) = sample_ram /\ map_size (fd_map (attr v1)) < SIZE_MAX) by (unfold v1; vm_compute in E; injection E as <-; vm_compute; split_and?; reflexivity).
  destruct Ha as (Ha1 & Ha2 & Ha3 & Ha4). destruct (syscall_open_correct v1 [97] "rb"%string 103 (fopen [97] "rb"%string sample_disk).2 Hw (mo_fds v Hv) Ha4) as (fd & m & Ho & (Hge & Hno & Hall) & Hm & Hc).
  - rewrite Ha1, Ha3. split; [reflexivity|repeat constructor; discriminate|split; reflexivity].
  - by rewrite Ha2.
  - change (host v1) with (host v). rewrite Hh. by vm_compute.
  - change (files v1) with (files v) in *. assert (fd = 3) as ->.
    { destruct (decide (fd = 3)) as [|Hne]; [done|]. destruct (Hall 3 ltac:(lia)) as [x Hx]. rewrite Hfs in Hx. by vm_compute in Hx. }
    exists v, 3, m. split; [done|]. split; [exact Ho|]. split; [done|]. by rewrite Hc, lookup_insert_eq.
Defined.

Lemma syscall_read_correct_witness :
  exists v w, opened = Some v /\ syscall_read (with_args [(10, 3); (11, 0x200); (12, 6000)] v) = Some w /\ arg w rv_reg_a0 = 10 /\
    load_bytes 3 w.(core).(mem) 0x208 = [18; 19; 0].
Proof.
  destruct sample_vm_ok as (v0 & E0 & Hv0 & _). destruct opened as [v|] eqn:E; [|by vm_compute in E].
  assert (Hv : riscv_wf v.(core)).
  { unfold opened, call in E. rewrite E0 in E. destruct (handle_syscall false _) as [w|] eqn:Ec; [|done]. injection E as <-.
    apply (handle_keeps false) in Ec; [apply Ec|split; [apply with_args_wf; [repeat constructor; done|apply Hv0]|apply Hv0]|].
    vm_compute in E0. injection E0 as <-. by vm_compute. }
  set (v1 := with_args [(10, 3); (11, 0x200); (12, 6000)] v).
  assert (Hw : riscv_wf v1.(core)) by (apply with_args_wf; [repeat constructor; done|done]).
  assert (Hf : find_fd v1 (arg v1 rv_reg_a0) = Some 103) by (unfold v1; vm_compute in E; injection E as <-; vm_compute; split_and?; reflexivity).
  assert (Ha : arg v1 rv_reg_a1 = 0x200 /\ arg v1 rv_reg_a2 = 6000 /\ mem_size (mem (core v1)) = 0x4000) by (unfold v1; vm_compute in E; injection E as <-; vm_compute; split_and?; reflexivity).
  destruct Ha as (Ha1 & Ha2 & Ha3). destruct (fread 103 (Z.to_nat 6000) (host v1)) as [l h] eqn:Er.
  assert (He : l = [10; 11; 12; 13; 14; 15; 16; 17; 18; 19] /\ ferror 103 h = false) by (unfold v1 in Er; vm_compute in E; injection E as <-; vm_compute in Er; injection Er as <- <-; vm_compute; split; reflexivity).
  destruct He as [-> He]. pose proof (syscall_read_correct v1 103 Hw Hf) as Hc. cbn zeta in Hc. rewrite Ha1, Ha2, Ha3, Er in Hc.
  exists v. eexists. split; [done|]. split; [apply Hc; [lia|lia|by right]|]. clear Hc Hw Hf. unfold v1. clear v1 Er He Ha1 Ha2 Ha3 Hv. vm_compute in E. injection E as <-. vm_compute. split; reflexivity.
Defined.

(** A guest that asks to close the standard output keeps it. *)
Lemma syscalls_keep_streams_witness :
  exists v w, sample_vm = Some v /\ handle_syscall false (with_args [(17, SYS_close); (10, 1)] v) = Some w /\ files w !! 1 = Some 1.
Proof.
  destruct sample_vm_ok as (v & E & Hv & Hfs & _). set (v1 := with_args [(17, SYS_close); (10, 1)] v).
  assert (Hsz : map_size (fd_map (attr v1)) < SIZE_MAX) by (unfold v1; vm_compute in E; injection E as <-; reflexivity).
  destruct (handle_syscall false v1) as [w|] eqn:Ec.
  2: { exfalso. unfold v1 in Ec. vm_compute in E. injection E as <-. vm_compute in Ec. discriminate Ec. }
  exists v, w. split; [exact E|]. split; [exact Ec|]. assert (Hs : rtc (guest_step false) v w).
  { apply rtc_l with v1; [apply guest_computes, (with_args_wf [(17, SYS_close); (10, 1)] v); [repeat constructor; done|apply Hv]|]. by apply rtc_once, guest_calls. }
  pose proof (proj2 (syscalls_keep_streams false v w Hv Hs) 1 ltac:(lia)) as Hk. rewrite Hfs in Hk. exact Hk.
Defined.

(** * What the calls do not do *)

(** A negative offset is taken for a position beyond 4 GiB; its low word looks right. *)
Example lseek_backwards :
  (let? v := opened in
   let? (_, v) := call SYS_read 3 0x200 8 v in
   let? (pos, v) := call SYS_lseek 3 (2 ^ 32 - 4) 1 v in
   let? s := v.(host).(streams) !! 103 in
   let? (n, v) := call SYS_read 3 0x200 8 v in
   Some (pos, s.(s_pos), n)) = Some (4, 2 ^ 32 + 4, 0).
Proof. by vm_compute. Qed.

(** Closing a descriptor that is not open succeeds. *)
Example close_twice : (let? v := opened in let? (a, v) := call SYS_close 3 0 0 v in let? (b, _) := call SYS_close 3 0 0 v in Some (a, b)) = Some (0, 0).
Proof. by vm_compute. Qed.

(** A buffer outside of guest memory is read all the same. *)
Example write_unchecked : (let? v := sample_vm in call SYS_write 1 0x3ffc 8 v) = None.
Proof. by vm_compute. Qed.

(** Times are words 8 bytes apart; the upper word of the seconds is not written. *)
Example time_upper_word :
  (let? v := sample_vm in
   let v := set_ram (store_bytes v.(core).(mem) 0x300 (replicate 16 0xff)) v in
   let? (_, v) := call SYS_clock_gettime 0 0x300 0 v in
   Some (load_le 8 v.(core).(mem) 0x300, load_le 4 v.(core).(mem) 0x308)) = Some (0xffffffff00000005, 7000).
Proof. by vm_compute. Qed.

(** A stream that delivers characters, fails ([None]) and goes on. *)
#[local] Instance script_stdio : Stdio (list (option Z)) := {|
  fgetc f h := match h with c :: h => (c, h) | [] => (None, []) end;
  fputc f c h := (true, h);
  ferror f h := true;
  fseek f off whence h := (true, h);
  ftell f h := -1;
  fopen name mode h := (None, h);
  fclose f h := (true, h);
  fileno f h := f;
  get_time_info h := ((0, 0), h);
|}.

Definition script_vm (n a0 a1 a2 : Z) (h : list (option Z)) : option (vm (list (option Z))) :=
  let? (_, m) := map_insert sample_attr.(fd_map) 3 7 in
  Some (mk_vm (set_xreg 17 n (set_xreg 10 a0 (set_xreg 11 a1 (set_xreg 12 a2 (set_mem sample_ram hart))))) (set_fd_map m sample_attr) h).

(** After a short block the rest is asked for at once, and may not fit [tmp]. *)
Example read_overflows_tmp :
  (let? v := script_vm SYS_read 3 0x200 10000 (replicate 100 (Some 1) ++ [None] ++ replicate 5000 (Some 1)) in handle_syscall false v) = None.
Proof. by vm_compute. Qed.

(** [fclose] ends a stream even when it fails; its descriptor stays in the table. *)
Example close_failure_keeps_entry :
  (let? v := script_vm SYS_close 3 0 0 [] in let? v := handle_syscall false v in Some (arg v rv_reg_a0, find_fd v 3)) = Some (2 ^ 32 - 1, Some 7).
Proof. by vm_compute. Qed.
