(* ===== verification/Reset.v ===== *)
(** Resetting the processor (rv_reset of riscv.c): the arguments of the guest program
    are put into its memory and the registers get their initial values. Addresses are
    [uintptr_t] and wrap at 2^64; a failed assertion is [None]. *)

From stdpp Require Import base list option numbers gmap.
From Stdlib Require Import ZArith Lia Bool.
From S2P Require Import Prelude Bits Insn Mem State Trap.
#[local] Open Scope Z_scope.

(** The part of [vm_attr_t] it uses; [argc] is the length of [argv]. *)
Record boot_attr : Type := mk_boot {
  attr_mem_size : Z;
  attr_stack_size : Z;
  args_offset_size : Z;
  argv : list (list Z); (* without the terminators *)
}.

Definition MISA_SUPER : Z := 1 ≪ 18.
Definition MISA_USER : Z := 1 ≪ 20.
Definition MISA_I : Z := 1 ≪ 8.
Definition MISA_M : Z := 1 ≪ 12.
Definition MISA_A : Z := 1 ≪ 0.
Definition MISA_F : Z := 1 ≪ 5.
Definition MISA_C : Z := 1 ≪ 2.
Definition RV_MVENDORID : Z := 0x12345678.
Definition RV_MARCHID : Z := (1 ≪ 31) .| 1.
Definition RV_MIMPID : Z := 1.

(** [x &= -16]. *)
Definition align16 (x : Z) : Z := x .& u64 (-16).

(** [n] bytes of an integer in memory order. *)
Fixpoint le_bytes (n : nat) (x : Z) : list Z := match n with O => [] | S n => x mod 256 :: le_bytes n (x / 256) end.

(** [assert(memory_write(mem, addr, src, size))]. *)
Definition must_write (m : memory_t) (addr : Z) (src : list Z) : option memory_t :=
  let (ok, m) := memory_write m (u32 addr) src in if ok : bool then Some m else None.

(** The strings, from [args_p] on: their sizes and the end. [args_space] has 256
    entries. *)
Fixpoint copy_args (args : list (list Z)) (idx : nat) (args_p : Z) (m : memory_t) : option (list Z * Z * memory_t) :=
  match args with
  | [] => Some ([], args_p, m)
  | arg :: args =>
      let len := Z.of_nat (length arg) in
      let? m := must_write m args_p (arg ++ [0]) in
      if Nat.ltb idx 256 then
        let? (space, p, m) := copy_args args (S idx) (u64 (args_p + len + 1)) m in Some (len + 1 :: space, p, m)
      else None
  end.

(** The pointers to them, from [sp] on: a [uintptr_t] is written at each word. *)
Fixpoint push_args (space : list Z) (args_p sp : Z) (m : memory_t) : option (Z * memory_t) :=
  match space with
  | [] => Some (sp, m)
  | s :: space =>
      let? m := must_write m sp (le_bytes 8 args_p) in
      push_args space (u64 (args_p + s)) (u64 (sp + 4)) m
  end.

Definition sum (l : list Z) : Z := foldr Z.add 0 l.

(** The memory, and the stack pointer after the pushes. *)
Definition store_args (a : boot_attr) (sp0 : Z) (m : memory_t) : option (Z * memory_t) :=
  let argc := Z.of_nat (length a.(argv)) in
  let args_size := (1 + argc + 1) * 4 in
  let args_bottom := u64 (a.(attr_mem_size) - a.(attr_stack_size)) in
  let args_top := align16 (u64 (args_bottom - args_size)) in
  let args_p := args_top in
  let? m := must_write m args_p (le_bytes 4 argc) in
  let args_p := u64 (args_p + 8) in
  let? (args_space, args_p, m) := copy_args a.(argv) 0 args_p m in
  let args_p := u64 (args_p - sum args_space) in
  let args_p := u64 (args_p - 8) in
  let stack_size := (1 + argc + 1) * 4 in
  let stack_top := align16 (u64 (sp0 - stack_size)) in
  let sp := stack_top in
  if GUEST_RAM_CONTAINS m args_p 4 then
    let? m := must_write m sp (load_bytes 4 m args_p) in
    let args_p := u64 (args_p + 8) in
    let sp := u64 (sp + 4) in
    let? (sp, m) := push_args args_space args_p sp m in
    let (ok, m) := memory_fill m (u32 sp) 4 0 in
    if ok : bool then Some (u32 stack_top, m) else None
  else None.

(** The control registers of the default configuration. *)
Definition reset_csrs (rv : riscv) : riscv :=
  let rv := set_csr csr_mtvec 0 rv in
  let rv := set_csr_cycle 0 rv in
  let rv := set_csr csr_mstatus 0 rv in
  let rv := set_csr csr_misa (csr_val rv csr_misa .| (MISA_SUPER .| MISA_USER)) rv in
  let rv := set_csr csr_mvendorid RV_MVENDORID rv in
  let rv := set_csr csr_marchid RV_MARCHID rv in
  let rv := set_csr csr_mimpid RV_MIMPID rv in
  let rv := set_csr csr_misa (csr_val rv csr_misa .| MISA_I) rv in
  let rv := set_csr csr_misa (csr_val rv csr_misa .| MISA_A) rv in
  let rv := set_csr csr_misa (csr_val rv csr_misa .| MISA_C) rv in
  let rv := set_csr csr_misa (csr_val rv csr_misa .| MISA_F) rv in
  let rv := set_F (replicate 32 0) rv in
  let rv := set_csr csr_fcsr 0 rv in
  set_csr csr_misa (csr_val rv csr_misa .| MISA_M) rv.

Definition rv_reset (a : boot_attr) (pc : Z) (rv : riscv) : option riscv :=
  let rv := set_X (replicate 32 0) rv in
  let rv := set_PC pc rv in
  let rv := set_xreg rv_reg_sp (u32 (a.(attr_mem_size) - a.(attr_stack_size) - a.(args_offset_size))) rv in
  let? (sp, m) := store_args a (xreg rv rv_reg_sp) rv.(mem) in
  let rv := set_mem m rv in
  let rv := set_xreg rv_reg_sp sp rv in
  let rv := set_priv_mode RV_PRIV_M_MODE rv in
  let rv := reset_csrs rv in
  Some (set_halt false rv).
