(* ===== verification/ResetSpec.v ===== *)
(** After a reset the guest finds its arguments: the stack pointer is aligned and points
    at the count, the pointers to the strings and a null word. *)

From stdpp Require Import base list option numbers gmap.
From Stdlib Require Import ZArith Lia Bool.
From S2P Require Import Prelude Bits Insn Mem MemSpec State Trap Samples VblkSpec SyscallsSpec Reset.
#[local] Open Scope Z_scope.

(** * Bytes *)

Lemma store_le_bytes (n : nat) (m : memory_t) (a v : Z) : store_bytes m a (le_bytes n v) = store_le n m a v.
Proof.
  revert m a v. induction n as [|n IH]; intros m a v; [done|]. cbn [le_bytes store_bytes store_le]. rewrite IH, Z.shiftr_div_pow2 by lia.
  f_equal. unfold set_byte, u8. change (2 ^ 8) with 256. by rewrite Z.mod_mod.
Qed.

Lemma length_le_bytes (n : nat) (v : Z) : length (le_bytes n v) = n.
Proof. revert v. induction n as [|n IH]; intros v; [done|]. cbn [le_bytes length]. by rewrite IH. Qed.

Lemma align16_spec (x : Z) : 0 <= x < 2 ^ 64 -> align16 x = x - x mod 16.
Proof.
  intros Hx. unfold align16. replace (u64 (-16)) with (Z.ldiff (Z.ones 64) (Z.ones 4)) by (by vm_compute).
  rewrite Z.ldiff_land, Z.land_assoc, Z.land_ones, Z.mod_small by lia. rewrite <- Z.ldiff_land, Z.ldiff_ones_r, Z.shiftr_div_pow2, Z.shiftl_mul_pow2 by lia.
  change (2 ^ 4) with 16. pose proof (Z.div_mod x 16). lia.
Qed.

Lemma aligned_mod (x : Z) : (x - x mod 16) mod 16 = 0.
Proof. pose proof (Z.div_mod x 16 ltac:(lia)). replace (x - x mod 16) with (x / 16 * 16) by lia. apply Z.mod_mul. lia. Qed.

Lemma must_write_in (m : memory_t) (a : Z) (l : list Z) :
  m.(mem_size) <= 2 ^ 32 -> 0 <= a < m.(mem_size) -> a + Z.of_nat (length l) <= m.(mem_size) -> must_write m a l = Some (store_bytes m a l).
Proof. intros Hm Ha Hl. unfold must_write. rewrite u32_id by (unfold is_u32; lia). by rewrite memory_write_in by lia. Qed.

Lemma u64_small (x : Z) : 0 <= x < 2 ^ 64 -> u64 x = x.
Proof. apply Z.mod_small. Qed.

(** * The strings *)

Definition c_bytes (args : list (list Z)) : list Z := concat (map (fun s => s ++ [0]) args).
Definition spaces (args : list (list Z)) : list Z := map (fun s => Z.of_nat (length s) + 1) args.

Lemma length_c_bytes (args : list (list Z)) : Z.of_nat (length (c_bytes args)) = sum (spaces args).
Proof.
  unfold c_bytes, spaces, sum. induction args as [|s args IH]; [done|]. cbn [map concat foldr]. rewrite !length_app. cbn [length]. lia.
Qed.

Lemma sum_nonneg (args : list (list Z)) : 0 <= sum (spaces args).
Proof. rewrite <- length_c_bytes. lia. Qed.

Lemma copy_args_ok (args : list (list Z)) (idx : nat) (p : Z) (m : memory_t) :
  m.(mem_size) <= 2 ^ 32 -> (idx + length args <= 256)%nat -> 0 <= p -> p + sum (spaces args) <= m.(mem_size) ->
  copy_args args idx p m = Some (spaces args, p + sum (spaces args), store_bytes m p (c_bytes args)).
Proof.
  intros Hm. revert idx p m Hm. induction args as [|s args IH]; intros idx p m Hm Hn Hp Hr.
  { cbn. by rewrite Z.add_0_r. }
  cbn [copy_args spaces map sum foldr length] in *. change (foldr Z.add 0 (map (fun s => Z.of_nat (length s) + 1) args)) with (sum (spaces args)) in *.
  pose proof (sum_nonneg args). rewrite must_write_in by (rewrite ?length_app; cbn [length]; lia). rewrite (proj2 (Nat.ltb_lt idx 256)) by lia.
  rewrite u64_small by lia. rewrite IH; [|by rewrite store_bytes_size|lia|lia|rewrite store_bytes_size; lia].
  change (c_bytes (s :: args)) with ((s ++ [0]) ++ c_bytes args). rewrite (store_bytes_app (s ++ [0])), length_app. cbn [length].
  do 2 f_equal; [|f_equal; lia]. f_equal. lia.
Qed.

Lemma c_bytes_app (l1 l2 : list (list Z)) : c_bytes (l1 ++ l2) = c_bytes l1 ++ c_bytes l2.
Proof. unfold c_bytes. by rewrite map_app, concat_app. Qed.

(** The string number [i] in the bytes. *)
Lemma c_bytes_string (args : list (list Z)) (i : nat) (s : list Z) (k : nat) :
  args !! i = Some s -> (k <= length s)%nat ->
  c_bytes args !! (Z.to_nat (sum (take i (spaces args))) + k)%nat = (s ++ [0]) !! k.
Proof.
  intros Hi Hk. assert (Ht : take i (spaces args) = spaces (take i args)) by (unfold spaces; by rewrite <- !fmap_take). rewrite Ht, <- length_c_bytes, Nat2Z.id.
  pose proof (c_bytes_app (take i args) (s :: drop (S i) args)) as Hc. rewrite (take_drop_middle args i s Hi) in Hc. rewrite Hc.
  change (c_bytes (s :: drop (S i) args)) with ((s ++ [0]) ++ c_bytes (drop (S i) args)). rewrite lookup_app_r by lia. replace (_ + k - _)%nat with k by lia. apply lookup_app_l. rewrite length_app. cbn. lia.
Qed.

(** * The pointers *)

Lemma push_args_ok (l : list Z) (p sp : Z) (m : memory_t) :
  m.(mem_size) <= 2 ^ 32 -> Forall (fun s => 0 < s) l -> 0 <= p -> p + sum l <= 2 ^ 32 ->
  0 <= sp -> sp + 4 * Z.of_nat (length l) + 4 <= m.(mem_size) ->
  exists m', push_args l p sp m = Some (sp + 4 * Z.of_nat (length l), m') /\ m'.(mem_size) = m.(mem_size) /\
    (forall i, (i < length l)%nat -> load_le 4 m' (sp + 4 * Z.of_nat i) = p + sum (take i l)) /\
    (forall b, b < sp \/ sp + 4 * Z.of_nat (length l) + 4 <= b -> mem_byte m' b = mem_byte m b).
Proof.
  intros Hm Hl. revert p sp m Hm. induction Hl as [|s l Hs Hl IH]; intros p sp m Hm Hp Hlim Hsp Hr.
  { exists m. split; [cbn; f_equal; f_equal; lia|]. split; [done|]. split; [cbn; lia|done]. }
  cbn [push_args length sum foldr] in *. change (foldr Z.add 0 l) with (sum l) in *. assert (Hsum : 0 <= sum l) by (clear -Hl; induction Hl; cbn; [done|change (foldr Z.add 0 l) with (sum l); lia]).
  rewrite must_write_in by (rewrite ?length_le_bytes; lia). rewrite store_le_bytes, !u64_small by lia.
  destruct (IH (p + s) (sp + 4) (store_le 8 m sp p)) as (m' & E & Hsz & Hptr & Hrest); rewrite ?store_le_size; try lia.
  exists m'. split; [rewrite E; do 2 f_equal; lia|]. split; [by rewrite Hsz, store_le_size|]. split.
  - intros [|i] Hi; cbn [take sum foldr].
    + rewrite Z.mul_0_r, !Z.add_0_r. transitivity (load_le 4 (store_le 8 m sp p) sp); [apply load_le_ext; intros c Hc; apply Hrest; lia|].
      change 8%nat with (4 + 4)%nat. rewrite store_le_split, load_store_disjoint, load_store_same by lia. apply Z.mod_small. cbn. lia.
    + replace (sp + 4 * Z.of_nat (S i)) with (sp + 4 + 4 * Z.of_nat i) by lia. rewrite Hptr by lia. change (foldr Z.add 0 (take i l)) with (sum (take i l)). lia.
  - intros b Hb. rewrite Hrest by lia. rewrite mem_byte_store_le. destruct (Z.leb_spec sp b), (Z.ltb_spec b (sp + Z.of_nat 8)); try lia; done.
Qed.

(** * The whole *)

(** The layout the program expects at its stack pointer. *)
Record arguments (m : memory_t) (sp : Z) (args : list (list Z)) : Prop := {
  as_aligned : sp mod 16 = 0;
  as_count : load_le 4 m sp = Z.of_nat (length args);
  as_strings : forall i s, args !! i = Some s -> c_string m (load_le 4 m (sp + 4 + 4 * Z.of_nat i)) s;
  as_null : load_le 4 m (sp + 4 + 4 * Z.of_nat (length args)) = 0 }.

(** There is room for them: [ARGS_OFFSET_SIZE] for the pointers, and the strings fit
    above. *)
Record room (a : boot_attr) (m : memory_t) : Prop := {
  rm_size : a.(attr_mem_size) = m.(mem_size) /\ m.(mem_size) <= 2 ^ 32;
  rm_count : (length a.(argv) <= 256)%nat;
  rm_args : Forall (Forall (fun c => 0 < c < 256)) a.(argv);
  rm_offset : 4 * (Z.of_nat (length a.(argv)) + 2) + 16 <= a.(args_offset_size);
  rm_stack : a.(attr_stack_size) + a.(args_offset_size) + 4 * (Z.of_nat (length a.(argv)) + 2) + 16 <= m.(mem_size);
  rm_strings : sum (spaces a.(argv)) <= a.(attr_stack_size) }.

(** A string among the bytes at [p], whatever lies below. *)
Lemma string_at (m m' : memory_t) (p : Z) (args : list (list Z)) (i : nat) (s : list Z) :
  args !! i = Some s -> Forall (Forall (fun c => 0 < c < 256)) args -> p + sum (spaces args) <= m'.(mem_size) ->
  (forall b, p <= b -> mem_byte m' b = mem_byte (store_bytes m p (c_bytes args)) b) ->
  c_string m' (p + sum (take i (spaces args))) s.
Proof.
  intros Hi Hall Hr Hb. pose proof (Forall_lookup_1 _ _ _ _ Hall Hi) as Hs. cbn in Hs.
  assert (Htake : take i (spaces args) = spaces (take i args)) by (unfold spaces; by rewrite <- !fmap_take). pose proof (sum_nonneg (take i args)) as Hpos. rewrite <- Htake in Hpos.
  assert (Hin : sum (take i (spaces args)) + Z.of_nat (length s) + 1 <= sum (spaces args)).
  { rewrite Htake, <- !length_c_bytes. pose proof (c_bytes_app (take i args) (s :: drop (S i) args)) as Hc. rewrite (take_drop_middle args i s Hi) in Hc. rewrite Hc.
    change (c_bytes (s :: drop (S i) args)) with ((s ++ [0]) ++ c_bytes (drop (S i) args)). rewrite !length_app. cbn [length]. lia. }
  assert (Hbyte : forall k c, (s ++ [0]) !! k = Some c -> mem_byte m' (p + sum (take i (spaces args)) + Z.of_nat k) = u8 c).
  { intros k c Hk. pose proof (lookup_lt_Some _ _ _ Hk) as Hlt. rewrite length_app in Hlt. cbn [length] in Hlt. rewrite Hb, mem_byte_store_bytes by lia.
    rewrite (proj2 (Z.leb_le _ _)) by lia. replace (Z.to_nat _) with (Z.to_nat (sum (take i (spaces args))) + k)%nat by lia.
    by rewrite (c_bytes_string args i s k Hi ltac:(lia)), Hk. }
  split.
  - apply list_eq. intros k. destruct (decide (k < length s)%nat) as [Hk|Hk].
    + rewrite lookup_load_bytes by done. destruct (lookup_lt_is_Some_2 s k Hk) as [c Hc]. rewrite Hc, (Hbyte k c) by (by apply lookup_app_l_Some).
      pose proof (Forall_lookup_1 _ _ _ _ Hs Hc). cbn in *. unfold u8. rewrite Z.mod_small by lia. done.
    + rewrite !lookup_ge_None_2 by (rewrite ?length_load_bytes; lia). done.
  - eapply list.Forall_impl; [exact Hs|]. cbn. lia.
  - split; [|lia]. rewrite (Hbyte (length s) 0); [done|]. by rewrite lookup_app_r, Nat.sub_diag by lia.
Qed.

Lemma load_le_move (n : nat) (m m' : memory_t) (a b : Z) :
  (forall k, 0 <= k < Z.of_nat n -> mem_byte m (a + k) = mem_byte m' (b + k)) -> load_le n m a = load_le n m' b.
Proof.
  revert a b. induction n as [|n IH]; intros a b Hk; [done|]. cbn [load_le]. pose proof (Hk 0 ltac:(lia)) as H0. rewrite !Z.add_0_r in H0. rewrite H0.
  do 2 f_equal. apply IH. intros k Hr. rewrite <- !Z.add_assoc. apply Hk. lia.
Qed.

Lemma store_bytes_below (m : memory_t) (a b : Z) (l : list Z) : b < a \/ a + Z.of_nat (length l) <= b -> mem_byte (store_bytes m a l) b = mem_byte m b.
Proof. intros Hb. rewrite mem_byte_store_bytes. destruct (Z.leb_spec a b); [|done]. by rewrite lookup_ge_None_2 by lia. Qed.

Lemma spaces_positive (args : list (list Z)) : Forall (fun s => 0 < s) (spaces args).
Proof. unfold spaces. induction args; constructor; [lia|done]. Qed.

Lemma length_spaces (args : list (list Z)) : length (spaces args) = length args.
Proof. unfold spaces. apply length_map. Qed.

(** The writes give the layout when the pointers at [S] end below the strings at [T]. *)
Section Layout.
Context (args : list (list Z)) (m : memory_t) (T S : Z).
Let n : Z := Z.of_nat (length args).
Let m1 : memory_t := store_bytes (store_le 4 m T n) (T + 8) (c_bytes args).
Let m2 : memory_t := store_bytes m1 S (load_bytes 4 m1 T).
Context (m3 : memory_t) (Hlim : m.(mem_size) <= 2 ^ 32) (Hn : n <= 256) (Hargs : Forall (Forall (fun c => 0 < c < 256)) args).
Context (HS : 0 <= S) (Hal : S mod 16 = 0) (HST : S + 4 * (n + 2) <= T) (HT : T + 8 + sum (spaces args) <= m.(mem_size)) (Hm : mem_wf m).
Context (Hs3 : m3.(mem_size) = m.(mem_size)).
Context (Hptr : forall i, (i < length (spaces args))%nat -> load_le 4 m3 (S + 4 + 4 * Z.of_nat i) = T + 8 + sum (take i (spaces args))).
Context (Hrest : forall b, b < S + 4 \/ S + 4 + 4 * n + 4 <= b -> mem_byte m3 b = mem_byte m2 b).
Let m4 : memory_t := store_bytes m3 (S + 4 + 4 * n) (replicate (Z.to_nat 4) 0).

Lemma wf1 : mem_wf m1.
Proof. by apply store_bytes_wf, store_le_wf. Qed.

(** Above the pointers the strings are as copied, below them the count. *)
Lemma upper (b : Z) : T <= b -> mem_byte m4 b = mem_byte m1 b.
Proof.
  intros Hb. unfold m4. rewrite store_bytes_below by (rewrite length_replicate; lia). rewrite Hrest by lia. unfold m2. apply store_bytes_below. rewrite length_load_bytes. lia.
Qed.

Lemma count_ok : load_le 4 m4 S = n.
Proof.
  transitivity (load_le 4 m1 T).
  - apply load_le_move. intros k Hk. unfold m4. rewrite store_bytes_below by lia. rewrite Hrest by lia. unfold m2.
    rewrite copied_byte by (intros x; apply (mem_byte_range m1 x wf1)). rewrite decide_True by lia. f_equal. lia.
  - transitivity (load_le 4 (store_le 4 m T n) T); [|rewrite load_store_same; apply Z.mod_small; cbn; lia].
    apply load_le_ext. intros c Hc. apply store_bytes_below. lia.
Qed.

Lemma layout_ok : arguments m4 S args.
Proof.
  split; [done|apply count_ok| |].
  - intros i s Hi. pose proof (lookup_lt_Some _ _ _ Hi) as Hlt.
    replace (load_le 4 m4 (S + 4 + 4 * Z.of_nat i)) with (T + 8 + sum (take i (spaces args))).
    + apply (string_at (store_le 4 m T n) m4 (T + 8) args i s); [done|done|unfold m4; rewrite store_bytes_size; lia|]. intros b Hb. apply upper. lia.
    + rewrite <- Hptr by (by rewrite length_spaces). apply load_le_ext. intros c Hc. unfold m4. symmetry. apply store_bytes_below. lia.
  - change 0 with (load_le 4 (mk_memory ∅ 0) 0). apply load_le_move. intros k Hk. unfold m4. rewrite mem_byte_store_bytes.
    rewrite (proj2 (Z.leb_le _ _)) by lia. rewrite lookup_replicate_2 by lia. done.
Qed.
End Layout.

Lemma store_args_ok (a : boot_attr) (m : memory_t) :
  room a m -> mem_wf m -> 0 <= a.(attr_stack_size) ->
  exists sp m', store_args a (a.(attr_mem_size) - a.(attr_stack_size) - a.(args_offset_size)) m = Some (sp, m') /\
    arguments m' sp a.(argv) /\ m'.(mem_size) = m.(mem_size) /\ 0 <= sp < m.(mem_size).
Proof.
  intros [[R1 R2] R3 R4 R5 R6 R7] Hok Hst. unfold store_args. set (n := Z.of_nat (length (argv a))) in *. assert (Hn : 0 <= n <= 256) by lia.
  pose proof (sum_nonneg (argv a)) as Hsum. rewrite R1. set (B := mem_size m - attr_stack_size a).
  assert (HT : align16 (u64 (u64 B - (1 + n + 1) * 4)) = B - 4 * (n + 2) - (B - 4 * (n + 2)) mod 16).
  { rewrite (u64_small B), u64_small by lia. rewrite align16_spec by lia. replace (B - (1 + n + 1) * 4) with (B - 4 * (n + 2)) by lia. done. }
  assert (HS : align16 (u64 (B - args_offset_size a - (1 + n + 1) * 4)) = B - args_offset_size a - 4 * (n + 2) - (B - args_offset_size a - 4 * (n + 2)) mod 16).
  { rewrite u64_small by lia. rewrite align16_spec by lia. by replace (B - args_offset_size a - (1 + n + 1) * 4) with (B - args_offset_size a - 4 * (n + 2)) by lia. }
  change (mem_size m - attr_stack_size a - args_offset_size a) with (B - args_offset_size a). rewrite HT, HS.
  pose proof (Z.mod_pos_bound (B - 4 * (n + 2)) 16 ltac:(lia)). pose proof (Z.mod_pos_bound (B - args_offset_size a - 4 * (n + 2)) 16 ltac:(lia)).
  set (T := B - 4 * (n + 2) - _) in *. set (S0 := B - args_offset_size a - 4 * (n + 2) - _) in *.
  assert (HST : 0 <= S0 /\ S0 + 4 * (n + 2) <= T /\ T + 8 + sum (spaces (argv a)) <= mem_size m) by lia.
  rewrite must_write_in by (rewrite ?length_le_bytes; lia). rewrite store_le_bytes, u64_small by lia. set (m0 := store_le 4 m T n).
  assert (Hs0 : mem_size m0 = mem_size m) by apply store_le_size.
  rewrite copy_args_ok by (rewrite ?Hs0; lia). set (m1 := store_bytes m0 (T + 8) (c_bytes (argv a))).
  assert (Hs1 : mem_size m1 = mem_size m) by (unfold m1; by rewrite store_bytes_size).
  rewrite (u64_small (T + 8 + _ - _)) by lia. rewrite (u64_small (T + 8 + _ - _ - 8)) by lia. replace (T + 8 + sum (spaces (argv a)) - sum (spaces (argv a)) - 8) with T by lia.
  rewrite (proj2 (contains_spec m1 T 4 ltac:(lia))) by lia. rewrite must_write_in by (rewrite ?length_load_bytes; lia).
  set (m2 := store_bytes m1 S0 (load_bytes 4 m1 T)). assert (Hs2 : mem_size m2 = mem_size m) by (unfold m2; by rewrite store_bytes_size). rewrite !u64_small by lia.
  destruct (push_args_ok (spaces (argv a)) (T + 8) (S0 + 4) m2) as (m3 & -> & Hs3 & Hptr & Hrest); rewrite ?Hs2, ?length_spaces; try lia; [apply spaces_positive|].
  rewrite length_spaces in Hrest. fold n in Hrest |- *. unfold memory_fill. rewrite !u32_id by (unfold is_u32; lia).
  rewrite Hs3, Hs2, (proj2 (Z.leb_gt _ _)), (proj2 (Z.ltb_ge _ _)) by lia. cbn [orb]. eexists _, _. split; [reflexivity|].
  split; [|rewrite store_bytes_size, Hs3; lia]. apply (layout_ok (argv a) m T S0 m3); try done; try lia.
  unfold S0. apply aligned_mod.
Qed.

Lemma must_write_wf (m m' : memory_t) (a : Z) (l : list Z) : mem_wf m -> must_write m a l = Some m' -> mem_wf m'.
Proof. intros Hm. unfold must_write. pose proof (memory_write_wf m (u32 a) l Hm) as Hw. destruct (memory_write m (u32 a) l) as [[] m1]; [|done]. by intros [= <-]. Qed.

Lemma copy_args_wf (args : list (list Z)) (idx : nat) (p p' : Z) (m m' : memory_t) (l : list Z) :
  mem_wf m -> copy_args args idx p m = Some (l, p', m') -> mem_wf m'.
Proof.
  revert idx p p' m l. induction args as [|s args IH]; intros idx p p' m l Hm; cbn [copy_args]; [by intros [= _ _ <-]|].
  destruct (must_write m p (s ++ [0])) as [m1|] eqn:E; [|done]. apply must_write_wf in E; [|done]. case_match; [|done].
  destruct (copy_args args (S idx) _ m1) as [[[l1 p1] m2]|] eqn:E2; [|done]. intros [= _ _ <-]. by apply IH in E2.
Qed.

Lemma push_args_wf (l : list Z) (p sp sp' : Z) (m m' : memory_t) : mem_wf m -> push_args l p sp m = Some (sp', m') -> mem_wf m'.
Proof.
  revert p sp m. induction l as [|s l IH]; intros p sp m Hm; cbn [push_args]; [by intros [= _ <-]|].
  destruct (must_write m sp _) as [m1|] eqn:E; [|done]. apply must_write_wf in E; [|done]. by apply IH.
Qed.

Lemma store_args_wf (a : boot_attr) (sp0 sp : Z) (m m' : memory_t) : mem_wf m -> store_args a sp0 m = Some (sp, m') -> mem_wf m'.
Proof.
  intros Hm. unfold store_args. destruct (must_write m _ _) as [m1|] eqn:E1; [|done]. apply must_write_wf in E1; [|done].
  destruct (copy_args _ _ _ m1) as [[[l p] m2]|] eqn:E2; [|done]. apply copy_args_wf in E2; [|done]. case_match; [|done].
  destruct (must_write m2 _ _) as [m3|] eqn:E3; [|done]. apply must_write_wf in E3; [|done].
  destruct (push_args _ _ _ m3) as [[sp1 m4]|] eqn:E4; [|done]. apply push_args_wf in E4; [|done].
  unfold memory_fill. destruct (_ || _); [done|]. intros [= _ <-]. by repeat apply set_byte_wf.
Qed.

Lemma set_halt_wf (b : bool) (rv : riscv) : riscv_wf rv -> riscv_wf (set_halt b rv).
Proof. intros [? ? ? ? ? ? ? ?]. by constructor. Qed.

Lemma reset_csrs_wf (rv : riscv) : riscv_wf rv -> riscv_wf (set_halt false (reset_csrs rv)).
Proof.
  intros Hw. apply set_halt_wf. unfold reset_csrs. assert (Hor : forall r x, riscv_wf r -> is_u32 x -> riscv_wf (set_csr csr_misa (csr_val r csr_misa .| x) r)).
    { intros r x Hr Hx. apply set_csr_wf; [done|]. apply u32_lor; [apply Hr|done]. }
    repeat first [apply Hor; [|done] | apply set_csr_wf; [|done] | apply set_csr_cycle_wf; [|done]].
    assert (HF : forall r, riscv_wf r -> riscv_wf (set_F (replicate 32 0) r)) by (intros r []; constructor; rv_simpl; try done; by apply Forall_replicate).
    apply HF. repeat first [apply Hor; [|done] | apply set_csr_wf; [|done] | apply set_csr_cycle_wf; [|done]]. done.
Qed.

(** The registers of a processor after reset. *)
Record reset_state (rv : riscv) (pc : Z) : Prop := {
  rs_pc : rv.(PC) = pc;
  rs_regs : forall r, 0 <= r < 32 -> r <> rv_reg_sp -> xreg rv r = 0;
  rs_fregs : rv.(F) = replicate 32 0;
  rs_mode : rv.(priv_mode) = RV_PRIV_M_MODE;
  rs_csrs : map (csr_val rv) [csr_mtvec; csr_mstatus; csr_fcsr; csr_mvendorid; csr_marchid; csr_mimpid] = [0; 0; 0; RV_MVENDORID; RV_MARCHID; RV_MIMPID];
  rs_cycle : rv.(csr_cycle) = 0;
  rs_halt : rv.(halt) = false }.

(** C38. [rv_reset] with arguments that fit succeeds, whatever the processor did before:
    the result is a well-formed state with the program counter at the entry, the integer
    and floating-point registers cleared, machine mode, and a 16-byte aligned stack
    pointer at which the guest finds the count, a pointer to each argument as a
    zero-terminated string, and a null word, although each pointer is stored with 8
    bytes over the next word. *)
Theorem rv_reset_correct (a : boot_attr) (pc : Z) (rv : riscv) :
  riscv_wf rv -> is_u32 pc -> 0 <= a.(attr_stack_size) -> room a rv.(mem) ->
  exists rv', rv_reset a pc rv = Some rv' /\ riscv_wf rv' /\ reset_state rv' pc /\
    arguments rv'.(mem) (xreg rv' rv_reg_sp) a.(argv).
Proof.
  intros Hw Hpc Hst Hroom. pose proof Hroom as [[R1 R2] _ _ R5 R6 _]. destruct (store_args_ok a rv.(mem) Hroom (wf_mem _ Hw) Hst) as (sp & m' & E & Ha & Hs & Hsp).
  unfold rv_reset. set (sp0 := u32 _). assert (Hsp0 : sp0 = attr_mem_size a - attr_stack_size a - args_offset_size a) by (apply u32_id; unfold is_u32; lia).
  change (xreg (set_xreg rv_reg_sp sp0 (set_PC pc (set_X (replicate 32 0) rv))) rv_reg_sp) with sp0. rewrite Hsp0.
  change (mem (set_xreg _ _ _)) with (mem rv). rewrite E. eexists. split; [reflexivity|].
  assert (Hu : is_u32 sp) by (unfold is_u32; lia). pose proof (store_args_wf _ _ _ _ _ (wf_mem _ Hw) E) as Hwm. split; [|split].
  - set (r1 := set_xreg rv_reg_sp sp _). assert (H1 : riscv_wf r1).
    { unfold r1. apply set_xreg_wf; [|done]. apply set_mem_wf; [|done]. apply set_xreg_wf; [|unfold is_u32; lia]. apply set_PC_wf; [|done].
      destruct Hw. constructor; rv_simpl; try done. by apply Forall_replicate. }
    apply reset_csrs_wf. by apply set_priv_mode_wf.
  - constructor; try done. intros r Hr Hne. set (r1 := set_xreg rv_reg_sp sp _). change (xreg r1 r = 0). unfold r1, rv_reg_sp in *. rewrite xreg_set_ne by lia.
    set (r2 := set_xreg 2 _ _). change (xreg r2 r = 0). unfold r2. rewrite xreg_set_ne by lia. change (replicate 32 0 !!! Z.to_nat r = 0). apply lookup_total_replicate_2. lia.
  - exact Ha.
Qed.

(** Two arguments in 64 KiB. *)
Definition sample_boot : boot_attr := mk_boot 0x10000 0x1000 0x400 [[112; 114; 111; 103]; [45; 118]].

Lemma rv_reset_correct_witness :
  exists rv, rv_reset sample_boot 0x100 (set_mem (mk_memory ∅ 0x10000) (hart_at 10 7)) = Some rv /\
    xreg rv rv_reg_sp = 0xebf0 /\ load_le 4 rv.(mem) 0xebf0 = 2 /\ c_string rv.(mem) (load_le 4 rv.(mem) 0xebf8) [45; 118].
Proof.
  assert (Hm : mem_wf (mk_memory ∅ 0x10000)) by (split; [intros x v Hx; cbn in Hx; by rewrite lookup_empty in Hx|cbn; lia]).
  destruct (rv_reset_correct sample_boot 0x100 (set_mem (mk_memory ∅ 0x10000) (hart_at 10 7))) as (rv & E & _ & _ & Ha).
  - apply set_mem_wf; [by apply hart_at_wf|done].
  - done.
  - done.
  - split; [done|cbn; lia|repeat constructor; done|done|done|done].
  - assert (Hs : xreg rv rv_reg_sp = 0xebf0) by (vm_compute in E; injection E as <-; reflexivity).
    rewrite Hs in Ha. exists rv. split; [exact E|]. split; [exact Hs|]. split; [apply Ha|exact (as_strings _ _ _ Ha 1%nat [45; 118] eq_refl)].
Defined.
